(* ===== verification/_CoqProject ===== *)
-Q . S2P
Prelude.v
GlobalDefinitions.v
CompressedStream.v
VirtualSpace.v
CodeHeap.v
CodeHeapCorrect.v
BitMap.v
BitMapCorrect.v
Utf8.v
TaskQueue.v
TaskQueueCorrect.v
Stack.v
WorkStealing.v
QuickSort.v
MethodLookup.v
ClassFileStream.v
FormatChecker.v
FormatCheckerCorrect.v
ConstantPool.v
ConstantPoolCorrect.v
FieldLayout.v
FieldLayoutCorrect.v
BlockOffsetTable.v
BlockOffsetTableCorrect.v
ParMarkBitMap.v
ParallelCompact.v
ParallelCompactCorrect.v
ParallelMarking.v
SummaryPhaseCorrect.v
ClearingCorrect.v
