(* ===== verification/Prelude.v ===== *)
(** Verification library for sources of the HotSpot virtual machine (graal-jvmci-8).

    The library models parts of the virtual machine that are algorithms on data: integer
    utilities, the coding of debug information, the memory under the code cache, bit maps,
    strings, the queues and stacks of the collectors, the tables of blocks of a heap, the
    marking and the summary of the parallel compacting collector, sorting and lookup, and the
    path of a class file from its bytes to the layout of its objects.  Each model is a
    translation of the C++ source into executable definitions with the names of the source;
    the theorems are about these definitions.  Paths below are relative to src/src/share/vm.

    * The parts and their files

    - Prelude: machine integers ([umod w], [smod w] with the abbreviations [u8] to [u64]
      and [s8] to [s64]), lists as arrays ([zget], [zset], [zlen]), bits, tactics.
    - GlobalDefinitions (utilities/globalDefinitions.hpp and .cpp): masks, powers of two,
      logarithms, alignment, the halves of a jlong, Java arithmetic.
    - CompressedStream (code/compressedStream.hpp and .cpp): UNSIGNED5, SIGNED5 and bit
      reversal; [CompressedWriteStream] with its growing buffer, [CompressedReadStream].
    - VirtualSpace (runtime/virtualspace.hpp and .cpp): a reserved range committed in up
      to three regions; [expand_by] and [shrink_by] step by step, failures included.
    - CodeHeap, CodeHeapCorrect (memory/heap.hpp and .cpp): the allocator of the code
      cache over two virtual spaces: segment map, free list, [allocate], [deallocate],
      [find_start], iteration.
    - BitMap, BitMapCorrect (utilities/bitMap.hpp, .inline.hpp and .cpp): all operations on
      bits, ranges, searches, set algebra, resizing and the compare-and-swap updates.
    - Utf8 (utilities/utf8.cpp): modified UTF-8, UTF-16 and quoted ASCII.
    - Stack (utilities/stack.hpp, .inline.hpp): segmented stacks with a cache of segments.
    - TaskQueue, TaskQueueCorrect, WorkStealing (utilities/taskqueue.hpp and .cpp): the
      queue of one owner and many thieves as a step machine, overflow queues (which use
      Stack), queue sets with their random choices, and the terminator.
    - QuickSort (utilities/quickSort.hpp) and MethodLookup (oops/method.cpp,
      oops/instanceKlass.cpp): the sort of the method array and the lookups in it.
    - ClassFileStream (classfile/classFileStream.hpp and .cpp): the bytes of a class file,
      and the monad of the parser ([Done], [Throw], [Stuck]).
    - FormatChecker, FormatCheckerCorrect (classfile/classFileParser.cpp): modifiers,
      versions, UTF-8, names and signatures.
    - ConstantPool, ConstantPoolCorrect (oops/constantPool.hpp and .cpp,
      classfile/classFileParser.cpp): the pool and its slots, the parse of the entries with
      the symbol batches, the two verification passes, patches of anonymous classes.
    - FieldLayout, FieldLayoutCorrect (classfile/classFileParser.cpp, oops/fieldInfo.hpp):
      the packed fields, the layout of static, plain and contended fields, the sizes of the
      class and its blocks of oops.
    - BlockOffsetTable, BlockOffsetTableCorrect (memory/blockOffsetTable.hpp, .inline.hpp and
      .cpp): the card entries of non-contiguous and contiguous spaces, and the lookup of the
      block that contains an address.
    - ParMarkBitMap, ParallelCompact, ParallelCompactCorrect, ParallelMarking,
      SummaryPhaseCorrect, ClearingCorrect (gc_implementation/parallelScavenge/
      parMarkBitMap.hpp and .cpp, psParallelCompact.hpp and .cpp): the mark bits, the data of
      regions and blocks, the summary phase with the dense prefix and the splits of spaces,
      the lookup of new addresses, and the loop that clears the tables; ParallelMarking takes
      marking apart into the atomic updates of threads.

    A file with the suffix Correct holds the properties of a component whose definitions
    and basic lemmas fill the file before it.

    * How the parts interact

    CodeHeap calls VirtualSpace for its two spaces.  WorkStealing uses the queues of
    TaskQueue and the stacks of Stack: overflow queues fall back to a stack, queue sets
    steal from queues, and the terminator is told whether a queue holds work.  MethodLookup
    sorts with QuickSort.  ConstantPool reads with ClassFileStream, checks names and
    signatures with FormatChecker and measures strings with Utf8.  FieldLayout collects the
    groups of contended fields in a BitMap, reads field types from the signatures of the
    constant pool, and takes the super class as the result of an earlier layout.  The mark
    bits of ParMarkBitMap are two BitMaps; ParallelCompact marks objects in them and counts
    live words by searching them.

    * State and operations

    A C++ object is a record, a method that changes it a function to the new record.  An
    access outside of an array, to memory that is not allocated or to a value of the wrong
    kind, [ShouldNotReachHere] and a failed [guarantee] have no result ([None] or [Stuck]):
    theorems that an operation has a result therefore say that none of them happens.
    Exceptions of the class file parser are values ([Throw]).  Shared memory is accessed in
    single steps, and the interleavings are the paths of a step relation; the fences of the
    code are taken to give sequential consistency.  Integers have their widths and wrap
    where the source's arithmetic does.

    * What the theorems show

    - Queues: every interleaving of owner and thieves is linearizable against a list
      (work_stealing_linearizable), each operation takes a bounded number of its own steps
      (operations_wait_free), and alone it does what a list does (sequential_operations).
      Stealing ends and keeps the tasks (steal_correct), the generator of victims has full
      period (random_full_period), termination is reported only when no work is left
      (terminator_safe), and is reported to all threads once they wait and nothing makes
      one of them leave (terminator_live).
    - Code heap: its calls and results are those of an abstract allocator of disjoint
      extents, for every sequence of calls up to an expand_by that fails to grow the segment
      map after the memory, whose effect is stated (code_heap_refines_allocator);
      allocation, deallocation, address lookup and iteration on every branch
      (allocate_correct, deallocate_correct, find_start_correct, iteration_correct).
    - Virtual spaces: the marks of the regions and the committed prefix after every sequence
      of operations and answers of the operating system, with the exact case in which a
      failed shrink_by leaves the prefix torn (virtual_space_committed); what expand_by
      does on each answer (expand_by_correct).
    - Bit maps: range operations in all their variants equal the update of a set
      (range_operations_correct), searches, set algebra and iteration likewise
      (search_correct, set_operations_correct, iterate_correct), one winner per bit among
      the interleaved compare-and-swap updates of a word (par_update_one_winner), and what
      successive resizes keep (resize_correct).
    - Streams and strings: values written are read back (compressed_stream_roundtrip,
      utf8_roundtrip), bounds of buffers (truncated_output_correct), and a decoder that
      returns only for the empty string (from_quoted_ascii_diverges).
    - Stacks, sorting, lookup: stack_refines_list, quick_sort_correct,
      method_lookup_correct.
    - Class files: the reader never leaves its buffer (class_file_stream_safe); the format
      checker accepts exactly the grammars of strings, names and signatures
      (verify_legal_utf8_correct, legal_names_correct, signatures_correct); the constant
      pool is accepted if and only if it is well formed and then has the entries the bytes
      describe (parse_constant_pool_correct).
    - Layout: along every chain of classes fields are aligned and disjoint, contended fields
      are padded, sizes cover the fields and the blocks of oops describe exactly the oops
      (field_layout_correct).
    - Block tables: after every sequence of operations that join, mark, allocate and split
      blocks and expand the space, the lookup gives the block that contains the address
      (block_start_after_operations), in a contiguous space after every sequence of
      allocations (contig_start_after_allocations).  The lookup that does not read the
      blocks is right at card boundaries if no split has a first part of certain sizes
      (careful_after_operations); every split of such a size leaves a card at which it gives
      the wrong block (split_block_leads_too_far).
    - Parallel compaction: threads that mark objects, interleaved at every atomic update,
      leave exactly the requested objects marked and counted (parallel_marking_correct).
      Whichever objects of the spaces are marked, the summary phase succeeds, also where it
      splits spaces, and the new addresses of the objects are apart, each inside of a space
      and below its new top (compaction_correct).  The loop at the end of a
      collection leaves the tables clear for the next one, provided that marks and region
      data lie below the tops of the spaces (clearing_correct); that the phases between
      the summary and this loop keep to that is an assumption.

    * Bounds and fuel

    Loops that are not structural take fuel, and run out of it with [None] or [Stuck]; the
    theorems show that there is a result, so the fuel given by the calling definition is
    enough: the length of the array or string a loop walks over, the number of blocks of a
    heap, of segments of a stack, of groups of contended fields or of bits of a word.
    Widths bound what theorems assume: streams below [stream_limit] bytes, addresses below
    2^63, bit maps below 2^62 bits, at most 65535 fields in a class and objects below 2^29
    bytes, the range in which a packed offset can be read back, spaces of block tables below
    2^62 with fewer than 2^52 cards, heaps of the compacting collector that start below 2^61
    at a multiple of the region size in bytes (2^19) and have fewer than 2^38 regions.  The
    age of a queue has a counter of wraps that is not in the code (a ghost): the theorem of
    the queues assumes that the 32-bit tag does not come back while a thief holds an old age.

    * Parameters

    Memory of the operating system is a record of answers; the allocator of stack segments
    gets a number of bytes and gives any fresh address and any contents; uninitialized
    memory of a bit map is a list of any words.  The function [exp] of the heuristics of the
    dense prefix, the values of flags and the value of a conversion that is out of range are
    variables without hypotheses.  The two methods of java.lang.Character the format checker
    calls, the test whether the symbol table has a symbol, and the comparison function of
    the sort are variables; the hypotheses on them are named where they are used.

    * Not modelled

    The compilers (c1, opto, shark, adlc, ci, compiler) and JVMCI, the interpreter, the
    assemblers and all code of operating systems and processors generate or run machine
    code.  The other collectors, the phases of the compacting collector that follow
    references, copy objects and adjust references, the metaspace, class loading and
    linking, the verifier, threads, safepoints and locks work on the live heap of a running
    virtual machine.  JNI, JVMTI, the flight recorder, services, the serviceability agent,
    tools and the build are input and output.  Of the class file parser, attributes,
    methods, annotations and interfaces are not modelled, since they allocate and resolve
    metadata.  Weak memory is not modelled, nor are statistics, printing and assertions of
    debug builds. *)

From Stdlib Require Export ZArith Lia Bool Btauto.
From stdpp Require Export base list gmap tactics.

Open Scope Z_scope.

(** ** Machine integers

    A C++ integer of width [w] is an element of [Z].  [umod w] is the
    conversion to the unsigned type of that width, [smod w] the (two's
    complement) conversion to the signed one.  Every arithmetic operation of
    the sources whose result may leave its type is followed by one of them. *)

Definition umod (w x : Z) : Z := x mod 2 ^ w.
Definition smod (w x : Z) : Z := (x + 2 ^ (w - 1)) mod 2 ^ w - 2 ^ (w - 1).

Abbreviation u8 := (umod 8).
Abbreviation u16 := (umod 16).
Abbreviation u32 := (umod 32).
Abbreviation u64 := (umod 64).
Abbreviation s8 := (smod 8).
Abbreviation s16 := (smod 16).
Abbreviation s32 := (smod 32).
Abbreviation s64 := (smod 64).

(** Ranges of the C++ types, as propositions [lia] can use. *)
Abbreviation in_u w x := (0 <= x < 2 ^ w).
Abbreviation in_s w x := (- 2 ^ (w - 1) <= x < 2 ^ (w - 1)).

Lemma pow2_pos (w : Z) : 0 <= w -> 0 < 2 ^ w.
Proof. intros. apply Z.pow_pos_nonneg; lia. Qed.

Lemma pow2_half (w : Z) : 0 < w -> 2 ^ w = 2 * 2 ^ (w - 1).
Proof. intros. rewrite <- Z.pow_succ_r by lia. f_equal; lia. Qed.

Lemma umod_range (w x : Z) : 0 <= w -> in_u w (umod w x).
Proof. intros. apply Z.mod_pos_bound, pow2_pos; lia. Qed.

Lemma umod_id (w x : Z) : in_u w x -> umod w x = x.
Proof. intros. apply Z.mod_small; lia. Qed.

Lemma umod_umod (w x : Z) : umod w (umod w x) = umod w x.
Proof. unfold umod. apply Zmod_mod. Qed.

Lemma smod_range (w x : Z) : 0 < w -> in_s w (smod w x).
Proof.
  intros Hw. unfold smod.
  pose proof (pow2_half w Hw). pose proof (pow2_pos (w - 1)).
  pose proof (Z.mod_pos_bound (x + 2 ^ (w - 1)) (2 ^ w)). lia.
Qed.

Lemma smod_id (w x : Z) : 0 < w -> in_s w x -> smod w x = x.
Proof.
  intros Hw Hx. unfold smod. pose proof (pow2_half w Hw).
  rewrite Z.mod_small; lia.
Qed.

(** Converting to signed and back is the plain unsigned conversion. *)
Lemma umod_smod (w x : Z) : 0 < w -> umod w (smod w x) = umod w x.
Proof.
  intros Hw. unfold umod, smod.
  rewrite Zminus_mod_idemp_l. f_equal; lia.
Qed.

Lemma smod_umod (w x : Z) : smod w (umod w x) = smod w x.
Proof. unfold umod, smod. rewrite Zplus_mod_idemp_l. done. Qed.

Lemma smod_congr (w x y : Z) : umod w x = umod w y -> smod w x = smod w y.
Proof. intros H. rewrite <- (smod_umod w x), H. apply smod_umod. Qed.

Lemma smod_add_l (w x y : Z) : 0 < w -> smod w (smod w x + y) = smod w (x + y).
Proof.
  intros Hw. apply smod_congr. unfold umod. rewrite <- Zplus_mod_idemp_l.
  pose proof (umod_smod w x Hw) as He. unfold umod in He. by rewrite He, Zplus_mod_idemp_l.
Qed.

Lemma smod_add_r (w x y : Z) : 0 < w -> smod w (x + smod w y) = smod w (x + y).
Proof. intros Hw. rewrite Z.add_comm, smod_add_l by done. f_equal; lia. Qed.

Lemma smod_umod_id (w x : Z) : 0 < w -> in_s w x -> smod w (umod w x) = x.
Proof. intros. rewrite smod_umod. by apply smod_id. Qed.

Create HintDb mword.
Create Rewrite HintDb mword.
Create Rewrite HintDb bits.
#[export] Hint Resolve umod_range smod_range pow2_pos : mword.
#[export] Hint Rewrite umod_umod smod_umod : mword.

(** Evaluates the powers of two in the context, so that [lia] sees numerals. *)
Ltac pow2_norm :=
  repeat match goal with
  | |- context [2 ^ Zpos ?p] =>
      let v := eval vm_compute in (2 ^ Zpos p) in change (2 ^ Zpos p) with v
  | H : context [2 ^ Zpos ?p] |- _ =>
      let v := eval vm_compute in (2 ^ Zpos p) in change (2 ^ Zpos p) with v in H
  end.

(** ** Bits *)

Lemma testbit_high (w x i : Z) : in_u w x -> 0 <= w <= i -> Z.testbit x i = false.
Proof.
  intros Hx Hi. rewrite <- (Z.mod_small x (2 ^ w)) by lia.
  apply Z.mod_pow2_bits_high; lia.
Qed.

(** Two [w]-bit numbers with the same low [w] bits are equal. *)
Lemma bits_inj_w (w x y : Z) :
  0 <= w -> in_u w x -> in_u w y ->
  (forall i, 0 <= i < w -> Z.testbit x i = Z.testbit y i) -> x = y.
Proof.
  intros Hw Hx Hy H. apply Z.bits_inj'. intros i Hi.
  destruct (Z.lt_ge_cases i w) as [Hlt | Hge]; [apply H; lia |].
  rewrite !(testbit_high w) by lia. done.
Qed.

(** From bit [w - 1] on, a [w]-bit signed number repeats its sign. *)
Lemma testbit_sign (w x i : Z) :
  0 < w -> in_s w x -> w - 1 <= i -> Z.testbit x i = (x <? 0).
Proof.
  intros Hw Hx Hi. pose proof (Z.pow_le_mono_r 2 (w - 1) i ltac:(lia) Hi).
  assert (Hd : x / 2 ^ i = if x <? 0 then -1 else 0).
  { destruct (Z.ltb_spec x 0).
    - symmetry. apply (Z.div_unique _ _ _ (x + 2 ^ i)); lia.
    - apply Z.div_small; lia. }
  apply Z.b2z_inj. rewrite Z.testbit_spec' by lia. rewrite Hd.
  by destruct (x <? 0).
Qed.

Lemma umod_testbit (w x i : Z) :
  0 <= w -> 0 <= i -> Z.testbit (umod w x) i = (i <? w) && Z.testbit x i.
Proof.
  intros Hw Hi. unfold umod. destruct (Z.ltb_spec i w).
  - rewrite Z.mod_pow2_bits_low by lia. done.
  - rewrite Z.mod_pow2_bits_high by lia. done.
Qed.

Lemma smod_testbit (w x i : Z) :
  0 < w -> 0 <= i -> Z.testbit (smod w x) i = Z.testbit x (Z.min i (w - 1)).
Proof.
  intros Hw Hi.
  assert (Hlow : forall j, 0 <= j < w -> Z.testbit (smod w x) j = Z.testbit x j).
  { intros j Hj. pose proof (umod_smod w x Hw) as He.
    pose proof (umod_testbit w (smod w x) j ltac:(lia) ltac:(lia)) as H1.
    rewrite He, umod_testbit in H1 by lia. destruct (Z.ltb_spec j w); [|lia].
    by rewrite !andb_true_l in H1. }
  destruct (Z.lt_ge_cases i w).
  - rewrite Hlow by lia. f_equal; lia.
  - pose proof (smod_range w x Hw). rewrite <- Hlow by lia.
    rewrite !(testbit_sign w) by lia. done.
Qed.

(** Clearing the low [k] bits. *)
Lemma land_lnot_ones (x k : Z) :
  0 <= k -> Z.land x (Z.lnot (2 ^ k - 1)) = x - x mod 2 ^ k.
Proof.
  intros Hk. replace (2 ^ k - 1) with (Z.ones k) by (rewrite Z.ones_equiv; lia).
  rewrite <- Z.ldiff_land, Z.ldiff_ones_r, Z.shiftl_mul_pow2, Z.shiftr_div_pow2 by lia.
  pose proof (Z.div_mod x (2 ^ k)). pose proof (pow2_pos k Hk). lia.
Qed.

Lemma sub_mod_divide (x m : Z) : 0 < m -> (m | x - x mod m).
Proof. intros Hm. exists (x / m). pose proof (Z.div_mod x m). lia. Qed.

#[export] Hint Rewrite Z.land_spec Z.lor_spec Z.lxor_spec Z.ldiff_spec
  Z.shiftr_spec Z.shiftl_spec Z.lnot_spec umod_testbit smod_testbit
  using lia : bits.

(** Ranges of the bit operations on unsigned numbers. *)
Lemma lor_range (w a b : Z) : 0 <= w -> in_u w a -> in_u w b -> in_u w (Z.lor a b).
Proof.
  intros Hw Ha Hb. replace (Z.lor a b) with (umod w (Z.lor a b)); [by apply umod_range|].
  apply Z.bits_inj'. intros i Hi. autorewrite with bits.
  destruct (Z.ltb_spec i w); [btauto|]. rewrite !(testbit_high w) by lia. done.
Qed.

Lemma land_range_r (w a b : Z) : 0 <= w -> in_u w b -> in_u w (Z.land a b).
Proof.
  intros Hw Hb. replace (Z.land a b) with (umod w (Z.land a b)); [by apply umod_range|].
  apply Z.bits_inj'. intros i Hi. autorewrite with bits.
  destruct (Z.ltb_spec i w); [btauto|]. rewrite (testbit_high w b) by lia. btauto.
Qed.

Lemma shiftr_range (w a k : Z) : 0 <= w -> 0 <= k -> in_u w a -> in_u w (Z.shiftr a k).
Proof.
  intros Hw Hk Ha. rewrite Z.shiftr_div_pow2 by lia. pose proof (pow2_pos k Hk).
  split; [apply Z.div_pos; lia | apply Z.div_lt_upper_bound; nia].
Qed.

#[export] Hint Resolve lor_range land_range_r shiftr_range : mword.

(** Proves an equality of integers bit by bit. *)
Ltac bitwise :=
  apply Z.bits_inj'; intros ?i ?Hi; autorewrite with bits.

(** Case analysis on an integer in an interval with numeral bounds. *)
Lemma Z_interval_succ (P : Z -> Prop) (lo : Z) (n : nat) :
  P lo -> (forall i, lo + 1 <= i < lo + 1 + Z.of_nat n -> P i) ->
  forall i, lo <= i < lo + Z.of_nat (S n) -> P i.
Proof.
  intros H0 HS i Hi. destruct (Z.eq_dec i lo) as [-> | Hne]; [done |].
  apply HS; lia.
Qed.

(** ** Arrays indexed by C++ integers

    A C++ array is a list; an access outside of it has no value. *)

Definition zget {A} (l : list A) (i : Z) : option A :=
  if bool_decide (0 <= i) then l !! Z.to_nat i else None.

Definition zset {A} (l : list A) (i : Z) (x : A) : option (list A) :=
  if bool_decide (0 <= i < Z.of_nat (length l)) then Some (<[Z.to_nat i := x]> l) else None.

Abbreviation zlen l := (Z.of_nat (length l)).

Lemma zget_Some_range {A} (l : list A) i x : zget l i = Some x -> 0 <= i < zlen l.
Proof.
  unfold zget. case_bool_decide; [|done].
  intros ?%lookup_lt_Some. lia.
Qed.

Lemma zset_Some {A} (l : list A) i x l' :
  zset l i x = Some l' <-> 0 <= i < zlen l /\ l' = <[Z.to_nat i := x]> l.
Proof. unfold zset. case_bool_decide; naive_solver. Qed.

Lemma zget_zset {A} (l : list A) i x l' j :
  zset l i x = Some l' -> zget l' j = if bool_decide (i = j) then Some x else zget l j.
Proof.
  intros [Hi ->]%zset_Some. unfold zget.
  repeat case_bool_decide; subst; try lia; try done.
  - apply list_lookup_insert_eq. lia.
  - apply list_lookup_insert_ne. lia.
Qed.

Lemma zset_length {A} (l : list A) i x l' : zset l i x = Some l' -> length l' = length l.
Proof. intros [_ ->]%zset_Some. apply length_insert. Qed.
