(* ===== verification/GlobalDefinitions.v ===== *)
(** Integer and alignment utilities of utilities/globalDefinitions.hpp and
    utilities/globalDefinitions.cpp: masks, powers of two, logarithms, size and
    address alignment, the split of a [jlong] into two [jint]s, wrap-around Java
    arithmetic, big-endian byte packing and [lcm].  The platform is LP64:
    [intptr_t] is [s64]-ranged, [uintptr_t], [uintx] and [size_t] are
    [u64]-ranged. *)

From Stdlib Require Import String.
From S2P Require Import Prelude.

(** ** Definitions *)

(** *** Constants and masks *)

Definition HeapWordSize : Z := 8.
Definition LogHeapWordSize : Z := 3.
Definition BitsPerWord : Z := 64.
Definition K : Z := 1024.
Definition M : Z := K * K.
Definition G : Z := M * K.

Definition heap_word_size (byte_size : Z) : Z :=
  Z.shiftr (u64 (byte_size + (HeapWordSize - 1))) LogHeapWordSize.

Definition proper_unit_for_byte_size (s : Z) : string :=
  if 100 * G <=? s then "G"%string
  else if 100 * M <=? s then "M"%string
  else if 100 * K <=? s then "K"%string
  else "B"%string.

Definition byte_size_in_proper_unit (s : Z) : Z :=
  if 100 * G <=? s then s / G
  else if 100 * M <=? s then s / M
  else if 100 * K <=? s then s / K
  else s.

Definition nth_bit (n : Z) : Z := if BitsPerWord <=? n then 0 else s64 (Z.shiftl 1 n).
Definition right_n_bits (n : Z) : Z := s64 (nth_bit n - 1).
Definition mask_bits (x m : Z) : Z := Z.land x m.
Definition set_bits (x m : Z) : Z := Z.lor x m.
Definition clear_bits (x m : Z) : Z := Z.land x (Z.lnot m).
Definition mask_bits_are_true (flags mask : Z) : bool := Z.land flags mask =? mask.
Definition set_nth_bit (x n : Z) : Z := set_bits x (nth_bit n).
Definition clear_nth_bit (x n : Z) : Z := clear_bits x (nth_bit n).
Definition is_set_nth_bit (x n : Z) : bool := negb (mask_bits x (nth_bit n) =? 0).
Definition bitfield (x start_bit_no field_length : Z) : Z :=
  mask_bits (Z.shiftr x start_bit_no) (right_n_bits field_length).

(** *** Powers of two and logarithms *)

Definition is_power_of_2 (x : Z) : bool :=
  negb (x =? 0) && (mask_bits x (s64 (x - 1)) =? 0).

(** The loop of [log2_intptr]: [p] doubles (and wraps to 0) while [p <= x]. *)
Fixpoint log2_loop (fuel : nat) (x i p : Z) : option Z :=
  match fuel with
  | O => None
  | S fuel' =>
      if negb (p =? 0) && (p <=? x) then log2_loop fuel' x (i + 1) (u64 (p * 2))
      else Some i
  end.

Definition log2_intptr (x : Z) : option Z := log2_loop 65 x (-1) 1.
Definition log2_int (x : Z) : option Z := log2_intptr (u64 x).
Definition exact_log2 (x : Z) : option Z := log2_intptr (u64 x).

(** *** Alignment *)

Definition round_to (x s : Z) : Z :=
  let m := u64 (s - 1) in mask_bits (s64 (x + m)) (s64 (Z.lnot m)).
Definition round_down (x s : Z) : Z :=
  let m := u64 (s - 1) in mask_bits x (s64 (Z.lnot m)).

Definition align_size_up (size alignment : Z) : Z :=
  Z.land (s64 (size + s64 (alignment - 1))) (Z.lnot (s64 (alignment - 1))).
Definition align_size_down (size alignment : Z) : Z :=
  Z.land size (Z.lnot (s64 (alignment - 1))).
Definition is_size_aligned (size alignment : Z) : bool :=
  Z.land (u64 (size + u64 (alignment - 1))) (u64 (Z.lnot (u64 (alignment - 1)))) =? size.
Definition align_size_down_bounded (size alignment : Z) : Z :=
  let aligned_size := Z.land size (u64 (Z.lnot (u64 (alignment - 1)))) in
  if 0 <? aligned_size then aligned_size else alignment.

Definition clamp_address_in_page (addr page_address page_size : Z) : Z :=
  if align_size_down (s64 addr) page_size =? align_size_down (s64 page_address) page_size
  then addr
  else if page_address <? addr
  then u64 (u64 (align_size_down (s64 page_address) page_size) + page_size)
  else u64 (align_size_down (s64 page_address) page_size).

(** *** 64-bit values as pairs of 32-bit values *)

Definition low (value : Z) : Z := s32 value.
Definition high (value : Z) : Z := s32 (Z.shiftr value 32).
Definition set_low (value lo : Z) : Z :=
  Z.lor (Z.land value (s64 (Z.shiftl 0xffffffff 32))) (u32 lo).
Definition set_high (value hi : Z) : Z :=
  Z.lor (Z.land value 0xffffffff) (s64 (Z.shiftl hi 32)).
Definition jlong_from (h l : Z) : Z := set_low (set_high 0 h) l.

(** *** Java arithmetic and absolute value *)

Definition java_add (w in1 in2 : Z) : Z := smod w (umod w (umod w in1 + umod w in2)).
Definition java_subtract (w in1 in2 : Z) : Z := smod w (umod w (umod w in1 - umod w in2)).
Definition java_multiply (w in1 in2 : Z) : Z := smod w (umod w (umod w in1 * umod w in2)).

Definition uabs (w n : Z) : Z :=
  let result := umod w n in
  let value := smod w result in
  if value <? 0 then umod w (0 - result) else result.

(** *** Big-endian packing *)

Definition build_u2_from (c1 c2 : Z) : Z :=
  u16 (Z.lor (Z.land (Z.shiftl (u16 c1) 8) 0xff00) (Z.land (Z.shiftl (u16 c2) 0) 0x00ff)).

Definition build_u4_from (c1 c2 c3 c4 : Z) : Z :=
  Z.lor (Z.lor (Z.lor
    (Z.land (u32 (Z.shiftl c1 24)) 0xff000000)
    (Z.land (u32 (Z.shiftl c2 16)) 0x00ff0000))
    (Z.land (u32 (Z.shiftl c3 8)) 0x0000ff00))
    (Z.land (u32 (Z.shiftl c4 0)) 0x000000ff).

Definition explode_short_to (x : Z) : Z * Z := (u8 (Z.shiftr x 8), u8 x).

Definition explode_int_to (x : Z) : Z * Z * Z * Z :=
  (u8 (Z.shiftr x 24), u8 (Z.shiftr x 16), u8 (Z.shiftr x 8), u8 x).

Definition extract_low_short_from_int (x : Z) : Z := Z.land x 0xffff.
Definition extract_high_short_from_int (x : Z) : Z := Z.land (Z.shiftr x 16) 0xffff.
Definition build_int_from_shorts (lo hi : Z) : Z :=
  s32 (Z.lor (u32 (s32 (u32 (Z.shiftl hi 16)))) lo).

(** *** Least common multiple *)

(** [while ((next = cur % div) != 0) { cur = div; div = next; }], returning
    the last [div]. *)
Fixpoint lcm_loop (fuel : nat) (cur div : Z) : option Z :=
  match fuel with
  | O => None
  | S fuel' =>
      let next := cur mod div in
      if next =? 0 then Some div else lcm_loop fuel' div next
  end.

Definition lcm (a b : Z) : option Z :=
  match lcm_loop 130 (Z.max a b) (Z.min a b) with
  | Some div => Some (u64 (u64 (a * b) / div))
  | None => None
  end.

(** ** Powers of two and logarithms *)

Lemma is_power_of_2_pow (k : Z) : 0 <= k < 63 -> is_power_of_2 (2 ^ k) = true.
Proof.
  intros Hk. unfold is_power_of_2, mask_bits.
  pose proof (pow2_pos k). pose proof (Z.pow_lt_mono_r 2 k 63).
  rewrite smod_id by lia.
  replace (2 ^ k - 1) with (Z.ones k) by (rewrite Z.ones_equiv; lia).
  rewrite Z.land_ones, Z.mod_same by lia.
  destruct (Z.eqb_spec (2 ^ k) 0); [lia | done].
Qed.

Lemma is_power_of_2_spec (x : Z) :
  0 < x < 2 ^ 63 -> is_power_of_2 x = true -> x = 2 ^ Z.log2 x.
Proof.
  intros Hx. unfold is_power_of_2, mask_bits.
  rewrite smod_id by lia. rewrite andb_true_iff, !Z.eqb_eq. intros [_ Hl].
  pose proof (Z.log2_spec x ltac:(lia)) as Hs.
  destruct (Z.eq_dec x (2 ^ Z.log2 x)) as [He | Hne]; [done | exfalso].
  assert (x <> 1) by (intros ->; done).
  assert (Hlog : Z.log2 (x - 1) = Z.log2 x) by (apply Z.log2_unique; [apply Z.log2_nonneg | lia]).
  assert (Hb : Z.testbit (Z.land x (x - 1)) (Z.log2 x) = true).
  { rewrite Z.land_spec, Z.bit_log2 by lia. rewrite <- Hlog at 1. apply Z.bit_log2. lia. }
  rewrite Hl, Z.bits_0 in Hb. done.
Qed.

Lemma log2_loop_spec (fuel : nat) (x i : Z) :
  0 <= x < 2 ^ 64 -> -1 <= i < 64 -> 64 - i <= Z.of_nat fuel ->
  (i = -1 \/ 2 ^ i <= x) ->
  log2_loop fuel x i (u64 (2 ^ (i + 1))) = Some (if x =? 0 then -1 else Z.log2 x).
Proof.
  revert i. induction fuel as [|fuel IH]; intros i Hx Hi Hf Hp; [lia|].
  cbn [log2_loop].
  assert (Hlast : forall j, 0 <= j -> 2 ^ j <= x -> x < 2 ^ (j + 1) ->
            j = if x =? 0 then -1 else Z.log2 x).
  { intros j Hj H1 H2. pose proof (pow2_pos j Hj).
    destruct (Z.eqb_spec x 0); [lia|]. symmetry. apply Z.log2_unique; lia. }
  destruct (Z.eq_dec i 63) as [-> | Hne].
  - replace (u64 (2 ^ (63 + 1))) with 0 by reflexivity. cbn. f_equal.
    apply Hlast; lia.
  - assert (Hpow : 0 < 2 ^ (i + 1) < 2 ^ 64).
    { split; [apply pow2_pos; lia | apply Z.pow_lt_mono_r; lia]. }
    rewrite umod_id by lia.
    destruct (Z.eqb_spec (2 ^ (i + 1)) 0); [lia|]. cbn [negb andb].
    destruct (Z.leb_spec (2 ^ (i + 1)) x) as [Hle | Hgt].
    + replace (2 ^ (i + 1) * 2) with (2 ^ (i + 1 + 1)) by (rewrite (Z.pow_add_r 2 (i + 1)); lia).
      apply IH; auto; lia.
    + f_equal. destruct Hp as [-> | Hp]; [|destruct (Z.eq_dec i (-1)) as [-> |]; [|apply Hlast; lia]].
      * cbn in Hgt. destruct (Z.eqb_spec x 0); lia.
      * cbn in Hgt. destruct (Z.eqb_spec x 0); lia.
Qed.

Lemma log2_intptr_eq (x : Z) :
  0 <= x < 2 ^ 64 -> log2_intptr x = Some (if x =? 0 then -1 else Z.log2 x).
Proof. intros Hx. apply (log2_loop_spec 65 x (-1)); lia. Qed.

Lemma exact_log2_pow (k : Z) : 0 <= k < 64 -> exact_log2 (2 ^ k) = Some k.
Proof.
  intros Hk. pose proof (pow2_pos k). pose proof (Z.pow_lt_mono_r 2 k 64).
  unfold exact_log2. rewrite umod_id by lia. rewrite log2_intptr_eq by lia.
  destruct (Z.eqb_spec (2 ^ k) 0); [lia|]. by rewrite Z.log2_pow2 by lia.
Qed.

(** ** Alignment *)

Section Alignment.
Context (alignment : Z).
Context (Hrange : 0 < alignment < 2 ^ 63) (Hpow : is_power_of_2 alignment = true).

Lemma alignment_pow : alignment = 2 ^ Z.log2 alignment /\ 0 <= Z.log2 alignment.
Proof. split; [by apply is_power_of_2_spec | apply Z.log2_nonneg]. Qed.

Lemma land_not_mask (x : Z) : Z.land x (Z.lnot (alignment - 1)) = x - x mod alignment.
Proof.
  destruct alignment_pow as [He Hl]. rewrite He at 1. rewrite land_lnot_ones by done.
  by rewrite <- He.
Qed.

Lemma align_size_down_eq (size : Z) :
  align_size_down size alignment = size - size mod alignment.
Proof. unfold align_size_down. rewrite smod_id by lia. apply land_not_mask. Qed.

Lemma align_size_up_eq (size : Z) :
  in_s 64 size -> size + (alignment - 1) < 2 ^ 63 ->
  align_size_up size alignment =
    size + (alignment - 1) - (size + (alignment - 1)) mod alignment.
Proof.
  intros Hs Ho. unfold align_size_up.
  rewrite (smod_id 64 (alignment - 1)) by lia. rewrite smod_id by lia. apply land_not_mask.
Qed.

Lemma align_up_bounds (size : Z) :
  let r := size + (alignment - 1) - (size + (alignment - 1)) mod alignment in
  (alignment | r) /\ size <= r < size + alignment.
Proof.
  cbv zeta. split; [apply sub_mod_divide; lia|].
  pose proof (Z.mod_pos_bound (size + (alignment - 1)) alignment). lia.
Qed.

Lemma align_down_bounds (size : Z) :
  let r := size - size mod alignment in (alignment | r) /\ size - alignment < r <= size.
Proof.
  cbv zeta. split; [apply sub_mod_divide; lia|].
  pose proof (Z.mod_pos_bound size alignment). lia.
Qed.
End Alignment.

(** ** Splitting and joining [jlong] values *)

Lemma jlong_from_eq (h l : Z) : in_s 32 h -> jlong_from h l = h * 2 ^ 32 + u32 l.
Proof.
  intros Hh. unfold jlong_from, set_low, set_high.
  rewrite Z.land_0_l, Z.lor_0_l, Z.shiftl_mul_pow2 by lia.
  rewrite (smod_id 64) by (pow2_norm; lia).
  replace (s64 (Z.shiftl 0xffffffff 32)) with (Z.lnot (2 ^ 32 - 1)) by reflexivity.
  rewrite land_lnot_ones, Z.mod_mul by lia. rewrite Z.sub_0_r.
  rewrite <- Z.shiftl_mul_pow2 by lia. rewrite <- Z.add_lor_land.
  pose proof (umod_range 32 l ltac:(lia)).
  assert (Z.land (Z.shiftl h 32) (u32 l) = 0) as ->; [|lia].
  bitwise. rewrite Z.bits_0. destruct (Z.ltb_spec i 32); [|by rewrite andb_false_r].
  rewrite (Z.testbit_neg_r h) by lia. done.
Qed.

Lemma low_jlong_from (h l : Z) : in_s 32 h -> in_s 32 l -> low (jlong_from h l) = l.
Proof.
  intros Hh Hl. unfold low. rewrite jlong_from_eq by done.
  rewrite <- (smod_umod_id 32 l) at 2 by lia. rewrite <- (smod_umod 32 (u32 l)).
  apply smod_congr. unfold umod. rewrite Z.add_comm, Z_mod_plus_full, !Zmod_mod. done.
Qed.

Lemma high_jlong_from (h l : Z) : in_s 32 h -> high (jlong_from h l) = h.
Proof.
  intros Hh. unfold high. rewrite jlong_from_eq by done.
  pose proof (umod_range 32 l ltac:(lia)).
  rewrite Z.shiftr_div_pow2, Z.add_comm, Z.div_add, Z.div_small by lia.
  rewrite Z.add_0_l. by apply smod_id.
Qed.

Lemma jlong_from_high_low (v : Z) : in_s 64 v -> jlong_from (high v) (low v) = v.
Proof.
  intros Hv.
  assert (Hd : in_s 32 (Z.shiftr v 32)).
  { rewrite Z.shiftr_div_pow2 by lia. pow2_norm.
    split; [apply Z.div_le_lower_bound | apply Z.div_lt_upper_bound]; lia. }
  unfold high, low. rewrite jlong_from_eq by (apply smod_range; lia).
  rewrite (smod_id 32) by (assumption || lia). rewrite umod_smod by lia.
  rewrite Z.shiftr_div_pow2 by lia. unfold umod.
  pose proof (Z.div_mod v (2 ^ 32) ltac:(lia)). lia.
Qed.

(** ** Big-endian packing *)

Lemma build_u4_from_eq (c1 c2 c3 c4 : Z) :
  in_u 8 c1 -> in_u 8 c2 -> in_u 8 c3 -> in_u 8 c4 ->
  build_u4_from c1 c2 c3 c4 = c1 * 2 ^ 24 + c2 * 2 ^ 16 + c3 * 2 ^ 8 + c4.
Proof.
  intros H1 H2 H3 H4. unfold build_u4_from.
  assert (Hm : forall c k, in_u 8 c -> 0 <= k <= 24 ->
            Z.land (u32 (Z.shiftl c k)) (Z.shiftl 255 k) = c * 2 ^ k).
  { intros c k Hc Hk. rewrite <- Z.shiftl_mul_pow2 by lia. bitwise.
    destruct (Z.lt_ge_cases i k); [rewrite !(Z.testbit_neg_r _ (i - k)) by lia; by rewrite andb_false_r|].
    change 255 with (Z.ones 8). rewrite Z.testbit_ones_nonneg by lia.
    destruct (Z.ltb_spec (i - k) 8); [destruct (Z.ltb_spec i 32); [btauto|lia]|].
    rewrite (testbit_high 8 c (i - k)) by lia. btauto. }
  change 0xff000000 with (Z.shiftl 255 24). change 0x00ff0000 with (Z.shiftl 255 16).
  change 0x0000ff00 with (Z.shiftl 255 8). change 0x000000ff with (Z.shiftl 255 0).
  rewrite !Hm by lia.
  assert (Hor : forall a b k, 0 <= k -> 0 <= b < 2 ^ k -> Z.lor (a * 2 ^ k) b = a * 2 ^ k + b).
  { intros a b k Hk Hb. rewrite <- Z.add_lor_land.
    assert (Z.land (a * 2 ^ k) b = 0) as ->; [|lia]. rewrite <- Z.shiftl_mul_pow2 by lia. bitwise.
    rewrite Z.bits_0. destruct (Z.lt_ge_cases i k).
    - by rewrite (Z.testbit_neg_r a) by lia.
    - rewrite (testbit_high k b) by lia. btauto. }
  rewrite Hor by (pow2_norm; lia).
  replace (c1 * 2 ^ 24 + c2 * 2 ^ 16) with ((c1 * 2 ^ 8 + c2) * 2 ^ 16) by (pow2_norm; lia).
  rewrite Hor by (pow2_norm; lia).
  replace ((c1 * 2 ^ 8 + c2) * 2 ^ 16 + c3 * 2 ^ 8) with ((c1 * 2 ^ 16 + c2 * 2 ^ 8 + c3) * 2 ^ 8) by (pow2_norm; lia).
  change (2 ^ 0) with 1. rewrite Z.mul_1_r.
  rewrite Hor by (pow2_norm; lia). pow2_norm; lia.
Qed.

(** ** Least common multiple *)

Lemma lcm_loop_gcd (fuel : nat) (k cur div : Z) :
  0 <= k -> 0 < div <= cur -> div < 2 ^ k -> 2 * k < Z.of_nat fuel ->
  lcm_loop fuel cur div = Some (Z.gcd cur div).
Proof.
  revert k cur div. induction fuel as [fuel IH] using lt_wf_ind. intros k cur div Hk Hd Hlt Hf.
  destruct fuel as [|fuel]; [lia|]. cbn [lcm_loop].
  pose proof (Z.mod_pos_bound cur div ltac:(lia)) as Hm.
  assert (Hg : Z.gcd cur div = Z.gcd div (cur mod div)).
  { rewrite (Z.gcd_comm div). symmetry. rewrite Z.gcd_mod by lia. apply Z.gcd_comm. }
  destruct (Z.eqb_spec (cur mod div) 0) as [He | Hne].
  { rewrite Hg, He, Z.gcd_0_r, Z.abs_eq by lia. done. }
  rewrite Hg. clear Hg. set (next := cur mod div) in *.
  destruct fuel as [|fuel]; [pose proof (Z.pow_le_mono_r 2 k 0); lia|]. cbn [lcm_loop].
  assert (Hg : Z.gcd div next = Z.gcd next (div mod next)).
  { rewrite (Z.gcd_comm next). symmetry. rewrite Z.gcd_mod by lia. apply Z.gcd_comm. }
  pose proof (Z.mod_pos_bound div next ltac:(lia)) as Hm2.
  destruct (Z.eqb_spec (div mod next) 0) as [He | Hne2].
  { rewrite Hg, He, Z.gcd_0_r, Z.abs_eq by lia. done. }
  rewrite Hg.
  assert (0 < k) by (destruct (Z.eq_dec k 0) as [-> |]; [cbn in Hlt|]; lia).
  apply (IH fuel ltac:(lia) (k - 1)); try lia.
  rewrite (pow2_half k) in Hlt by lia.
  assert (2 * (div mod next) < div); [|lia].
  pose proof (Z.div_mod div next ltac:(lia)).
  assert (1 <= div / next) by (apply Z.div_le_lower_bound; lia). nia.
Qed.

Lemma lcm_eq (a b : Z) :
  0 < a < 2 ^ 64 -> 0 < b < 2 ^ 64 -> a * b < 2 ^ 64 -> lcm a b = Some (Z.lcm a b).
Proof.
  intros Ha Hb Hab. unfold lcm.
  rewrite (lcm_loop_gcd 130 64) by lia.
  assert (Hg : Z.gcd (Z.max a b) (Z.min a b) = Z.gcd a b).
  { destruct (Z.max_spec a b) as [[? ->] | [? ->]], (Z.min_spec a b) as [[? ->] | [? ->]];
      try lia; auto using Z.gcd_comm; f_equal; lia. }
  rewrite Hg, (umod_id 64 (a * b)) by nia.
  assert (Hpos : 0 < Z.gcd a b).
  { pose proof (Z.gcd_nonneg a b). assert (Z.gcd a b <> 0); [|lia].
    intros [? _]%Z.gcd_eq_0. lia. }
  f_equal. unfold Z.lcm. destruct (Z.gcd_divide_r a b) as [q Hq].
  rewrite Hq at 1 3. rewrite Z.mul_assoc, !Z.div_mul by lia.
  rewrite Z.abs_eq by nia. apply umod_id. nia.
Qed.

(** ** Correctness *)

(** For a power-of-two [alignment] and a [size] whose round-up does not
    overflow [intptr_t], [align_size_up] returns the least multiple of
    [alignment] that is not below [size], [align_size_down] the greatest one
    not above it, and [is_size_aligned] decides divisibility of a [size_t]. *)
Lemma align_size_correct (size alignment : Z) :
  0 < alignment < 2 ^ 63 -> is_power_of_2 alignment = true ->
  in_s 64 size -> size + (alignment - 1) < 2 ^ 63 ->
  ((alignment | align_size_up size alignment) /\
   size <= align_size_up size alignment < size + alignment) /\
  ((alignment | align_size_down size alignment) /\
   size - alignment < align_size_down size alignment <= size) /\
  (0 <= size -> is_size_aligned size alignment = true <-> (alignment | size)).
Proof.
  intros Ha Hp Hs Ho.
  rewrite align_size_up_eq, align_size_down_eq by done.
  split; [by apply align_up_bounds|]. split; [by apply align_down_bounds|].
  intros Hs0. unfold is_size_aligned.
  rewrite (umod_id 64 (alignment - 1)), (umod_id 64 (size + _)) by lia.
  assert (Z.land (size + (alignment - 1)) (u64 (Z.lnot (alignment - 1))) =
          Z.land (size + (alignment - 1)) (Z.lnot (alignment - 1))) as ->.
  { bitwise. destruct (Z.ltb_spec i 64); [btauto|].
    rewrite (testbit_high 64 (size + (alignment - 1))) by lia. btauto. }
  rewrite land_not_mask, Z.eqb_eq by done.
  destruct (align_up_bounds alignment Ha size) as [Hd Hb]; [done..|].
  split; [intros He; by rewrite He in Hd|]. intros [q Hq]. destruct Hd as [r Hr].
  assert (r = q) by nia. subst r. lia.
Qed.

Lemma align_size_correct_witness : align_size_up 4097 4096 = 8192 /\ (4096 | align_size_up 4097 4096).
Proof.
  split; [reflexivity|].
  apply (align_size_correct 4097 4096); [lia | reflexivity | lia | lia].
Defined.

(** [log2_intptr] terminates on every [uintptr_t] value and returns the
    largest [i] with [2^i <= x], and -1 for zero.  In particular a value with
    the top bit set (a negative [intptr_t]) gives 63. *)
Lemma log2_intptr_correct (x : Z) :
  0 <= x < 2 ^ 64 ->
  exists i, log2_intptr x = Some i /\
    (x = 0 -> i = -1) /\
    (0 < x -> 0 <= i < 64 /\ 2 ^ i <= x < 2 ^ (i + 1)) /\
    (2 ^ 63 <= x -> i = 63).
Proof.
  intros Hx. rewrite log2_intptr_eq by done. eexists. split; [done|].
  destruct (Z.eqb_spec x 0); [subst; repeat split; intros; lia|].
  pose proof (Z.log2_spec x ltac:(lia)). pose proof (Z.log2_nonneg x).
  assert (Z.log2 x < 64) by (apply Z.log2_lt_pow2; lia).
  repeat split; intros; try lia.
  apply Z.log2_unique; lia.
Qed.

Lemma log2_intptr_correct_witness : exists i, log2_intptr (u64 (-5)) = Some i /\ i = 63.
Proof.
  destruct (log2_intptr_correct (u64 (-5))) as (i & H1 & _ & _ & H2);
    [vm_compute; split; [discriminate | reflexivity]|].
  exists i. split; [exact H1 | apply H2; vm_compute; discriminate].
Defined.

(** [lcm] terminates and returns the least common multiple of two positive
    sizes whose product fits in 64 bits (the product is formed before the
    division, so this is the range in which it is exact). *)
Lemma lcm_correct (a b : Z) :
  0 < a < 2 ^ 64 -> 0 < b < 2 ^ 64 -> a * b < 2 ^ 64 ->
  exists m, lcm a b = Some m /\ (a | m) /\ (b | m) /\
    forall n, 0 < n -> (a | n) -> (b | n) -> m <= n.
Proof.
  intros Ha Hb Hab. exists (Z.lcm a b). rewrite lcm_eq by done.
  split; [done|]. split; [apply Z.divide_lcm_l|]. split; [apply Z.divide_lcm_r|].
  intros n Hn Hd1 Hd2. apply Z.divide_pos_le; [done|]. by apply Z.lcm_least.
Qed.

Lemma lcm_correct_witness : exists m, lcm 4096 6144 = Some m /\ (4096 | m) /\ (6144 | m).
Proof.
  destruct (lcm_correct 4096 6144) as (m & H1 & H2 & H3 & _); [lia..|].
  exists m. auto.
Defined.

(** Splitting a [jlong] with [high] and [low] and joining the halves with
    [jlong_from] is the identity in both directions, and [build_u4_from]
    recombines exactly the bytes [explode_int_to] stores. *)
Lemma jlong_and_bytes_roundtrip (v h l x : Z) :
  in_s 64 v -> in_s 32 h -> in_s 32 l -> in_u 32 x ->
  jlong_from (high v) (low v) = v /\
  high (jlong_from h l) = h /\ low (jlong_from h l) = l /\
  (let '(c1, c2, c3, c4) := explode_int_to x in build_u4_from c1 c2 c3 c4 = x).
Proof.
  intros Hv Hh Hl Hx.
  split; [by apply jlong_from_high_low|].
  split; [by apply high_jlong_from|]. split; [by apply low_jlong_from|].
  cbn [explode_int_to]. rewrite build_u4_from_eq by (apply umod_range; lia).
  unfold umod. rewrite !Z.shiftr_div_pow2 by lia. pow2_norm.
  Z.to_euclidean_division_equations. lia.
Qed.

Lemma jlong_and_bytes_roundtrip_witness : jlong_from (high (-7)) (low (-7)) = -7.
Proof.
  apply (jlong_and_bytes_roundtrip (-7) 1 2 3); lia.
Defined.

(** [clamp_address_in_page] clamps an address to the closed interval from the
    start of the page to the start of the next one. *)
Lemma clamp_address_in_page_eq (addr page_address page_size : Z) :
  0 < page_size < 2 ^ 63 -> is_power_of_2 page_size = true ->
  0 <= addr < 2 ^ 63 -> 0 <= page_address -> page_address + page_size < 2 ^ 63 ->
  let page := page_address - page_address mod page_size in
  clamp_address_in_page addr page_address page_size =
    Z.max page (Z.min addr (page + page_size)).
Proof.
  intros Hp Hpow Ha Hpa Hpb page. unfold clamp_address_in_page.
  rewrite !(smod_id 64) by lia. rewrite !align_size_down_eq by done. fold page.
  pose proof (Z.mod_pos_bound page_address page_size ltac:(lia)).
  pose proof (Z.mod_pos_bound addr page_size ltac:(lia)).
  pose proof (Z.div_mod page_address page_size ltac:(lia)).
  pose proof (Z.div_mod addr page_size ltac:(lia)).
  pose proof (Z.mod_le page_address page_size Hpa ltac:(lia)).
  assert (0 <= page <= page_address) by lia.
  rewrite (umod_id 64 page), (umod_id 64 (page + _)) by lia.
  destruct (Z.eqb_spec (addr - addr mod page_size) page); [lia|].
  assert (addr / page_size < page_address / page_size \/
          page_address / page_size < addr / page_size) as [Hq | Hq] by nia;
    destruct (Z.ltb_spec page_address addr); subst page; nia.
Qed.

(** The Java operators are addition, subtraction and multiplication modulo the
    width, brought back to the signed range. *)
Lemma java_op_eq (w a b : Z) :
  0 < w ->
  java_add w a b = smod w (a + b) /\
  java_subtract w a b = smod w (a - b) /\
  java_multiply w a b = smod w (a * b).
Proof.
  intros Hw. unfold java_add, java_subtract, java_multiply.
  repeat split; rewrite smod_umod; apply smod_congr; unfold umod.
  - by rewrite <- Zplus_mod.
  - by rewrite <- Zminus_mod.
  - by rewrite <- Zmult_mod.
Qed.

Lemma uabs_eq (w n : Z) : 0 < w -> in_s w n -> uabs w n = Z.abs n.
Proof.
  intros Hw Hn. unfold uabs. rewrite smod_umod, smod_id by done.
  pose proof (pow2_half w Hw).
  destruct (Z.ltb_spec n 0).
  - unfold umod. rewrite Zminus_mod_idemp_r. rewrite Z.mod_small; lia.
  - rewrite umod_id; lia.
Qed.

(** Rounding with a power of two, in closed form. *)
Definition up (x s : Z) : Z := x + (s - 1) - (x + (s - 1)) mod s.
Definition down (x s : Z) : Z := x - x mod s.

Lemma round_to_eq (x s : Z) :
  0 < s < 2 ^ 63 -> is_power_of_2 s = true -> 0 <= x -> x + (s - 1) < 2 ^ 63 ->
  round_to x s = up x s.
Proof.
  intros Hs Hp Hx Ho. unfold round_to, mask_bits. rewrite (umod_id 64 (s - 1)) by lia.
  rewrite (smod_id 64 (x + (s - 1))), (smod_id 64 (Z.lnot _)) by (unfold Z.lnot; lia).
  by apply land_not_mask.
Qed.

Lemma round_down_eq (x s : Z) :
  0 < s < 2 ^ 63 -> is_power_of_2 s = true -> round_down x s = down x s.
Proof.
  intros Hs Hp. unfold round_down, mask_bits. rewrite (umod_id 64 (s - 1)) by lia.
  rewrite (smod_id 64 (Z.lnot _)) by (unfold Z.lnot; lia). by apply land_not_mask.
Qed.

Lemma up_spec (x s : Z) : 0 < s -> (s | up x s) /\ x <= up x s < x + s.
Proof.
  intros Hs. unfold up. split; [by apply sub_mod_divide|].
  pose proof (Z.mod_pos_bound (x + (s - 1)) s Hs). lia.
Qed.

Lemma down_spec (x s : Z) : 0 < s -> (s | down x s) /\ x - s < down x s <= x.
Proof.
  intros Hs. unfold down. split; [by apply sub_mod_divide|].
  pose proof (Z.mod_pos_bound x s Hs). lia.
Qed.

(** [up x s] is below every multiple of [s] that is not below [x]. *)
Lemma up_le (x s b : Z) : 0 < s -> (s | b) -> x <= b -> up x s <= b.
Proof.
  intros Hs [q ->] Hx. destruct (up_spec x s Hs) as [[r Hr] Hb].
  rewrite Hr in *. assert (r < q + 1) by nia. nia.
Qed.

Lemma down_ge (x s b : Z) : 0 < s -> (s | b) -> b <= x -> b <= down x s.
Proof.
  intros Hs [q ->] Hx. destruct (down_spec x s Hs) as [[r Hr] Hb].
  rewrite Hr in *. assert (q - 1 < r) by nia. nia.
Qed.

Lemma up_mono (x y s : Z) : 0 < s -> x <= y -> up x s <= up y s.
Proof.
  intros Hs Hxy. destruct (up_spec y s Hs) as [Hd Hb]. apply up_le; [done | done | lia].
Qed.

Lemma up_id (x s : Z) : 0 < s -> (s | x) -> up x s = x.
Proof. intros Hs Hd. pose proof (up_le x s x Hs Hd). destruct (up_spec x s Hs). lia. Qed.
