(* ===== verification/CompressedStream.v ===== *)
(** The compressed byte streams of code/compressedStream.hpp and
    code/compressedStream.cpp, which carry the debugging information of compiled
    code: the UNSIGNED5 and SIGNED5 codings of integers, the bit reversal of
    floating-point values, and the growing write buffer.

    Bytes are integers in [0..255]; a buffer cell that was never written is
    [None].  A [jfloat] or [jdouble] is the [jint] or [jlong] with its bits
    ([jint_cast] and friends reinterpret, they do not convert).  Reading or
    storing outside of the buffer has no result. *)

From S2P Require Import Prelude GlobalDefinitions.

(** ** Definitions *)

Definition lg_H : Z := 6.
Definition H : Z := Z.shiftl 1 lg_H.
Definition L : Z := Z.shiftl 1 8 - H.
Definition MAX_i : Z := 4.

Definition encode_sign (value : Z) : Z :=
  u32 (Z.lxor (s32 (Z.shiftl value 1)) (Z.shiftr value 31)).
Definition decode_sign (value : Z) : Z :=
  s32 (Z.lxor (Z.shiftr value 1) (u32 (- Z.land value 1))).

Definition reverse_int (i : Z) : Z :=
  let i := Z.lor (u32 (Z.shiftl (Z.land i 0x55555555) 1)) (Z.land (Z.shiftr i 1) 0x55555555) in
  let i := Z.lor (u32 (Z.shiftl (Z.land i 0x33333333) 2)) (Z.land (Z.shiftr i 2) 0x33333333) in
  let i := Z.lor (u32 (Z.shiftl (Z.land i 0x0f0f0f0f) 4)) (Z.land (Z.shiftr i 4) 0x0f0f0f0f) in
  Z.lor (Z.lor (Z.lor (u32 (Z.shiftl i 24)) (u32 (Z.shiftl (Z.land i 0xff00) 8)))
               (Z.land (Z.shiftr i 8) 0xff00)) (Z.shiftr i 24).

Record CompressedStream := mkStream { buffer : list (option Z); position : Z }.

Definition set_position (s : CompressedStream) (p : Z) : CompressedStream :=
  mkStream (buffer s) p.

(** *** Reading *)

Definition fetch (s : CompressedStream) (i : Z) : option Z := mjoin (zget (buffer s) i).

Definition read (s : CompressedStream) : option (Z * CompressedStream) :=
  b ← fetch s (position s); Some (b, set_position s (position s + 1)).

(** The [for] loop of [read_int_mb]; at most [MAX_i] rounds. *)
Fixpoint read_int_mb_loop (fuel : nat) (s : CompressedStream) (pos i sum lg_H_i : Z)
  : option (Z * CompressedStream) :=
  match fuel with
  | O => None
  | S fuel' =>
      let i := i + 1 in
      b_i ← fetch s (pos + i);
      let sum := s32 (sum + s32 (Z.shiftl b_i lg_H_i)) in
      if (b_i <? L) || (i =? MAX_i) then Some (sum, set_position s (pos + i + 1))
      else read_int_mb_loop fuel' s pos i sum (lg_H_i + lg_H)
  end.

Definition read_int_mb (b0 : Z) (s : CompressedStream) : option (Z * CompressedStream) :=
  read_int_mb_loop (Z.to_nat MAX_i) s (position s - 1) 0 b0 lg_H.

Definition read_int (s : CompressedStream) : option (Z * CompressedStream) :=
  '(b0, s) ← read s;
  if b0 <? L then Some (b0, s) else read_int_mb b0 s.

Definition read_signed_int (s : CompressedStream) : option (Z * CompressedStream) :=
  '(v, s) ← read_int s; Some (decode_sign (u32 v), s).
Definition read_bool (s : CompressedStream) : option (Z * CompressedStream) :=
  '(v, s) ← read s; Some (u8 v, s).
Definition read_byte (s : CompressedStream) : option (Z * CompressedStream) :=
  '(v, s) ← read s; Some (s8 v, s).
Definition read_char (s : CompressedStream) : option (Z * CompressedStream) :=
  '(v, s) ← read_int s; Some (u16 v, s).
Definition read_short (s : CompressedStream) : option (Z * CompressedStream) :=
  '(v, s) ← read_signed_int s; Some (s16 v, s).

Definition read_float (s : CompressedStream) : option (Z * CompressedStream) :=
  '(rf, s) ← read_int s;
  let f := s32 (reverse_int (u32 rf)) in Some (f, s).

Definition read_double (s : CompressedStream) : option (Z * CompressedStream) :=
  '(rh, s) ← read_int s;
  '(rl, s) ← read_int s;
  let h := s32 (reverse_int (u32 rh)) in
  let l := s32 (reverse_int (u32 rl)) in
  Some (jlong_from h l, s).

Definition read_long (s : CompressedStream) : option (Z * CompressedStream) :=
  '(lo, s) ← read_signed_int s;
  '(hi, s) ← read_signed_int s;
  Some (jlong_from hi lo, s).

(** *** Writing *)

Record CompressedWriteStream := mkWrite { stream : CompressedStream; size : Z }.

Definition new_write_stream (initial_size : Z) : option CompressedWriteStream :=
  if initial_size <? 0 then None
  else Some (mkWrite (mkStream (replicate (Z.to_nat initial_size) None) 0) initial_size).

Definition full (w : CompressedWriteStream) : bool := size w <=? position (stream w).

Definition store (b : Z) (w : CompressedWriteStream) : option CompressedWriteStream :=
  buf ← zset (buffer (stream w)) (position (stream w)) (Some b);
  Some (mkWrite (mkStream buf (position (stream w) + 1)) (size w)).

(** A new array of twice the size, of which the first [position] bytes are
    copied; the product is a C++ [int]. *)
Definition grow (w : CompressedWriteStream) : option CompressedWriteStream :=
  let new_size := s32 (size w * 2) in
  let p := position (stream w) in
  if (new_size <? 0) || (p <? 0) || (new_size <? p) || (zlen (buffer (stream w)) <? p) then None
  else Some (mkWrite
    (mkStream (take (Z.to_nat p) (buffer (stream w)) ++
               replicate (Z.to_nat (new_size - p)) None) p) new_size).

Definition write (b : Z) (w : CompressedWriteStream) : option CompressedWriteStream :=
  if full w then w ← grow w; store b w else store b w.

(** The [for] loop of [write_int_mb]; at most [MAX_i + 1] rounds. *)
Fixpoint write_int_mb_loop (fuel : nat) (i sum : Z) (w : CompressedWriteStream)
  : option CompressedWriteStream :=
  match fuel with
  | O => None
  | S fuel' =>
      if (sum <? L) || (i =? MAX_i) then write (u8 sum) w
      else
        let sum := u32 (sum - L) in
        let b_i := L + sum mod H in
        let sum := Z.shiftr sum lg_H in
        w ← write (u8 b_i) w;
        write_int_mb_loop fuel' (i + 1) sum w
  end.

Definition write_int_mb (value : Z) (w : CompressedWriteStream) : option CompressedWriteStream :=
  write_int_mb_loop (Z.to_nat (MAX_i + 1)) 0 (u32 value) w.

Definition write_int (value : Z) (w : CompressedWriteStream) : option CompressedWriteStream :=
  if (u32 value <? L) && negb (full w) then store (u8 value) w else write_int_mb value w.

Definition write_bool (value : Z) (w : CompressedWriteStream) : option CompressedWriteStream :=
  write (u8 value) w.
Definition write_byte (value : Z) (w : CompressedWriteStream) : option CompressedWriteStream :=
  write (u8 value) w.
Definition write_char (value : Z) (w : CompressedWriteStream) : option CompressedWriteStream :=
  write_int value w.
Definition write_signed_int (value : Z) (w : CompressedWriteStream) : option CompressedWriteStream :=
  write_int (s32 (encode_sign value)) w.
Definition write_short (value : Z) (w : CompressedWriteStream) : option CompressedWriteStream :=
  write_signed_int value w.

Definition write_float (value : Z) (w : CompressedWriteStream) : option CompressedWriteStream :=
  let f := u32 value in
  let rf := reverse_int f in
  write_int (s32 rf) w.

Definition write_double (value : Z) (w : CompressedWriteStream) : option CompressedWriteStream :=
  let h := u32 (high value) in
  let l := u32 (low value) in
  let rh := reverse_int h in
  let rl := reverse_int l in
  w ← write_int (s32 rh) w;
  write_int (s32 rl) w.

Definition write_long (value : Z) (w : CompressedWriteStream) : option CompressedWriteStream :=
  w ← write_signed_int (low value) w;
  write_signed_int (high value) w.

(** ** Sign coding and bit reversal *)

Lemma encode_sign_eq (v : Z) :
  in_s 32 v -> encode_sign v = if v <? 0 then -2 * v - 1 else 2 * v.
Proof.
  intros Hv. unfold encode_sign. rewrite Z.shiftl_mul_pow2, Z.shiftr_div_pow2 by lia.
  destruct (Z.ltb_spec v 0).
  - replace (v / 2 ^ 31) with (-1) by (apply (Z.div_unique _ _ _ (v + 2 ^ 31)); lia).
    rewrite Z.lxor_m1_r. unfold Z.lnot.
    replace (Z.pred (- s32 (v * 2 ^ 1))) with (- s32 (v * 2 ^ 1) - 1) by lia.
    assert (u32 (- s32 (v * 2 ^ 1) - 1) = u32 (- 2 * v - 1)) as ->; [|apply umod_id; lia].
    pose proof (umod_smod 32 (v * 2 ^ 1) ltac:(lia)) as He. unfold umod in *.
    replace (- s32 (v * 2 ^ 1) - 1) with (-1 - s32 (v * 2 ^ 1)) by lia.
    rewrite <- Zminus_mod_idemp_r, He, Zminus_mod_idemp_r. f_equal; lia.
  - rewrite Z.div_small, Z.lxor_0_r by lia. rewrite umod_smod by lia.
    rewrite umod_id; lia.
Qed.

Lemma lxor_ones32 (x : Z) : in_u 32 x -> Z.lxor x (2 ^ 32 - 1) = 2 ^ 32 - 1 - x.
Proof.
  intros Hx. transitivity (u32 (Z.lnot x)).
  - change (2 ^ 32 - 1) with (Z.ones 32). bitwise.
    rewrite Z.testbit_ones_nonneg by lia. destruct (Z.ltb_spec i 32); [btauto|].
    rewrite (testbit_high 32 x) by lia. done.
  - unfold Z.lnot, umod. replace (Z.pred (- x)) with (2 ^ 32 - 1 - x + (-1) * 2 ^ 32) by lia.
    rewrite Z_mod_plus_full. apply Z.mod_small; lia.
Qed.

Lemma decode_encode_sign (v : Z) : in_s 32 v -> decode_sign (encode_sign v) = v.
Proof.
  intros Hv. rewrite encode_sign_eq by done. unfold decode_sign.
  rewrite Z.shiftr_div_pow2 by lia. change (2 ^ 1) with 2.
  change (Z.land ?a 1) with (Z.land a (Z.ones 1)). rewrite Z.land_ones by lia. change (2 ^ 1) with 2.
  destruct (Z.ltb_spec v 0).
  - replace ((-2 * v - 1) mod 2) with 1 by (apply (Z.mod_unique _ _ (- v - 1)); lia).
    replace ((-2 * v - 1) / 2) with (- v - 1) by (apply (Z.div_unique _ _ _ 1); lia).
    change (u32 (- (1))) with (2 ^ 32 - 1). rewrite lxor_ones32 by lia.
    rewrite <- (smod_id 32 v) at 2 by lia. apply smod_congr. unfold umod.
    replace (2 ^ 32 - 1 - (- v - 1)) with (v + 1 * 2 ^ 32) by lia. apply Z_mod_plus_full.
  - replace (2 * v mod 2) with 0 by (rewrite Z.mul_comm, Z.mod_mul; lia).
    replace (2 * v / 2) with v by (rewrite Z.mul_comm, Z.div_mul; lia).
    change (u32 (- 0)) with 0. rewrite Z.lxor_0_r. by apply smod_id.
Qed.

Lemma encode_sign_range (v : Z) : in_s 32 v -> in_u 32 (encode_sign v).
Proof. intros Hv. apply umod_range. lia. Qed.

(** One exchange step of the reversal, [(x & m) << k | (x >> k) & m], moves bit
    [j xor k] to [j] when [m] selects the lower element of each exchanged pair. *)
Definition swap_check (k m : Z) : bool :=
  forallb (fun n => let j := Z.of_nat n in
    if Z.testbit m j then (Z.lxor j k =? j + k) && negb (Z.testbit m (j - k))
    else Z.testbit m (j - k) && (Z.lxor j k =? j - k)) (seq 0 32).

Lemma swap_testbit (k m x j : Z) :
  0 <= k -> swap_check k m = true -> 0 <= j < 32 ->
  Z.testbit (Z.lor (u32 (Z.shiftl (Z.land x m) k)) (Z.land (Z.shiftr x k) m)) j =
  Z.testbit x (Z.lxor j k).
Proof.
  intros Hk Hc Hj. unfold swap_check in Hc. rewrite forallb_forall in Hc.
  specialize (Hc (Z.to_nat j)). rewrite Z2Nat.id in Hc by lia. cbv zeta in Hc.
  autorewrite with bits. destruct (Z.ltb_spec j 32); [|lia].
  destruct (Z.testbit m j).
  - rewrite andb_true_iff, negb_true_iff, Z.eqb_eq in Hc.
    destruct Hc as [-> ->]; [apply in_seq; lia|]. btauto.
  - rewrite andb_true_iff, Z.eqb_eq in Hc.
    destruct Hc as [-> ->]; [apply in_seq; lia|]. btauto.
Qed.

Lemma lxor_range32 (j k : Z) : 0 <= j < 32 -> 0 <= k < 32 -> 0 <= Z.lxor j k < 32.
Proof.
  intros Hj Hk. replace (Z.lxor j k) with (umod 5 (Z.lxor j k)); [apply (umod_range 5); lia|].
  bitwise. destruct (Z.ltb_spec i 5); [done|].
  rewrite !(testbit_high 5) by lia. done.
Qed.

(** The final byte exchange moves bit [j xor 24] to [j]. *)
Lemma bswap_testbit (x j : Z) :
  in_u 32 x -> 0 <= j < 32 ->
  Z.testbit (Z.lor (Z.lor (Z.lor (u32 (Z.shiftl x 24)) (u32 (Z.shiftl (Z.land x 0xff00) 8)))
               (Z.land (Z.shiftr x 8) 0xff00)) (Z.shiftr x 24)) j =
  Z.testbit x (Z.lxor j 24).
Proof.
  intros Hx Hj.
  assert (Hm : forall i, Z.testbit 0xff00 i = (8 <=? i) && (i <? 16)).
  { intros i. destruct (Z.lt_ge_cases i 0).
    { rewrite Z.testbit_neg_r by lia. by destruct (Z.leb_spec 8 i); [lia|]. }
    change 0xff00 with (Z.shiftl (Z.ones 8) 8). rewrite Z.shiftl_spec by lia.
    destruct (Z.leb_spec 8 i); [|by rewrite Z.testbit_neg_r by lia].
    rewrite Z.testbit_ones_nonneg by lia. destruct (Z.ltb_spec (i - 8) 8), (Z.ltb_spec i 16); lia || done. }
  autorewrite with bits. rewrite !Hm.
  assert (Hhi : forall i, 32 <= i -> Z.testbit x i = false) by (intros; apply (testbit_high 32); lia).
  assert (Hlo : forall i, i < 0 -> Z.testbit x i = false) by (intros; by apply Z.testbit_neg_r).
  assert (Hx24 : Z.lxor j 24 = if j <? 8 then j + 24 else if j <? 16 then j + 8
                               else if j <? 24 then j - 8 else j - 24).
  { apply (Z.eqb_eq _ _). revert j Hj.
    assert (Hall : forallb (fun n => let j := Z.of_nat n in
       Z.lxor j 24 =? (if j <? 8 then j + 24 else if j <? 16 then j + 8
                       else if j <? 24 then j - 8 else j - 24)) (seq 0 32) = true) by reflexivity.
    intros j Hj. rewrite forallb_forall in Hall. specialize (Hall (Z.to_nat j)).
    rewrite Z2Nat.id in Hall by lia. apply Hall. apply in_seq. lia. }
  rewrite Hx24. clear Hm Hx24.
  destruct (Z.ltb_spec j 32), (Z.ltb_spec j 8), (Z.ltb_spec j 16), (Z.ltb_spec j 24),
    (Z.leb_spec 8 (j - 8)), (Z.ltb_spec (j - 8) 16), (Z.leb_spec 8 j); try lia;
    rewrite ?(Hlo (j - 24)), ?(Hlo (j - 8)), ?(Hhi (j + 24)) by lia; btauto.
Qed.

Lemma swap_range (k m x : Z) :
  0 <= k -> in_u 32 m ->
  in_u 32 (Z.lor (u32 (Z.shiftl (Z.land x m) k)) (Z.land (Z.shiftr x k) m)).
Proof. intros. apply lor_range; [lia | apply umod_range; lia | by apply land_range_r]. Qed.

Lemma reverse_int_range (x : Z) : in_u 32 x -> in_u 32 (reverse_int x).
Proof.
  intros Hx. unfold reverse_int.
  repeat (apply lor_range || apply umod_range || apply shiftr_range || apply land_range_r); lia.
Qed.

(** Bit [j] of the reversal is bit [31 - j] of the argument. *)
Lemma reverse_int_testbit (x j : Z) :
  in_u 32 x -> 0 <= j < 32 -> Z.testbit (reverse_int x) j = Z.testbit x (31 - j).
Proof.
  intros Hx Hj. unfold reverse_int.
  rewrite bswap_testbit by (done || by apply swap_range).
  rewrite !swap_testbit by (reflexivity || lia || by repeat (apply lxor_range32; [|lia])).
  f_equal. apply Z.eqb_eq.
  assert (Hall : forallb (fun n => let j := Z.of_nat n in
    Z.lxor (Z.lxor (Z.lxor (Z.lxor j 24) 4) 2) 1 =? 31 - j) (seq 0 32) = true) by reflexivity.
  rewrite forallb_forall in Hall. specialize (Hall (Z.to_nat j)).
  rewrite Z2Nat.id in Hall by lia. apply Hall, in_seq. lia.
Qed.

Lemma reverse_int_involutive (x : Z) : in_u 32 x -> reverse_int (reverse_int x) = x.
Proof.
  intros Hx. apply (bits_inj_w 32); auto using reverse_int_range; [lia|].
  intros i Hi. rewrite !reverse_int_testbit by (auto using reverse_int_range; lia).
  f_equal; lia.
Qed.

(** ** The write buffer

    [holds w bs]: the bytes written so far are [bs], the rest of the buffer is
    spare room. *)
Record holds (w : CompressedWriteStream) (bs : list Z) : Prop := {
  holds_bytes : exists rest, buffer (stream w) = (Some <$> bs) ++ rest;
  holds_position : position (stream w) = zlen bs;
  holds_size : size w = zlen (buffer (stream w));
  holds_nonempty : 0 < size w }.

(** Bytes that fit in a buffer the [int] capacity can still double. *)
Definition stream_limit : Z := 2 ^ 30.

Lemma store_holds (b : Z) (w : CompressedWriteStream) (bs : list Z) :
  holds w bs -> full w = false -> exists w', store b w = Some w' /\ holds w' (bs ++ [b]).
Proof.
  intros [[rest Hb] Hp Hs Hn] Hf. unfold full in Hf. apply Z.leb_gt in Hf.
  unfold store. rewrite Hp. unfold zset.
  rewrite bool_decide_eq_true_2 by lia. cbn. eexists; split; [done|].
  rewrite Hb in Hs. rewrite length_app, length_fmap in Hs.
  destruct rest as [|r rest]; [cbn in Hs; lia|].
  constructor; cbn [stream buffer position size].
  - exists rest. rewrite Hb, Nat2Z.id. rewrite insert_app_r_alt by (rewrite length_fmap; lia).
    rewrite length_fmap, Nat.sub_diag. cbn. rewrite fmap_app. by rewrite <- app_assoc.
  - rewrite length_app. cbn. lia.
  - rewrite length_insert, Hb, length_app, length_fmap. done.
  - done.
Qed.

Lemma write_holds (b : Z) (w : CompressedWriteStream) (bs : list Z) :
  holds w bs -> zlen bs < stream_limit ->
  exists w', write b w = Some w' /\ holds w' (bs ++ [b]).
Proof.
  unfold stream_limit. intros Hw Hl. unfold write. destruct (full w) eqn:Hf; [|by apply store_holds].
  assert (exists w1, grow w = Some w1 /\ holds w1 bs /\ full w1 = false) as (w1 & -> & Hh & Hf1);
    [|by apply store_holds].
  destruct Hw as [[rest Hb] Hp Hs Hn]. unfold full in Hf. apply Z.leb_le in Hf.
  rewrite Hb, length_app, length_fmap in Hs.
  unfold grow. rewrite smod_id by lia. rewrite Hp, Hb, length_app, length_fmap.
  destruct (Z.ltb_spec (size w * 2) 0); [lia|]. destruct (Z.ltb_spec (zlen bs) 0); [lia|].
  destruct (Z.ltb_spec (size w * 2) (zlen bs)); [lia|].
  destruct (Z.ltb_spec (Z.of_nat (length bs + length rest)) (zlen bs)); [lia|]. cbn.
  eexists; split; [done|]. split; [|apply Z.leb_gt; cbn; lia].
  rewrite Nat2Z.id. rewrite take_app_length' by (by rewrite length_fmap).
  constructor; cbn [stream buffer position size]; [by eexists|done| |lia].
  rewrite length_app, length_fmap, length_replicate. lia.
Qed.

(** ** UNSIGNED5 *)

(** The bytes of a value, as the grammar in the source defines them. *)
Fixpoint unsigned5 (fuel : nat) (i sum : Z) : list Z :=
  match fuel with
  | O => []
  | S fuel' =>
      if (sum <? L) || (i =? MAX_i) then [sum]
      else (L + (sum - L) mod H) :: unsigned5 fuel' (i + 1) ((sum - L) / H)
  end.

Definition encode_int (v : Z) : list Z := unsigned5 5 0 (u32 v).

Lemma write_int_mb_loop_holds (fuel : nat) (i sum : Z) w bs :
  holds w bs -> 0 <= i -> Z.of_nat fuel = 5 - i -> 0 < Z.of_nat fuel ->
  0 <= sum -> sum * 64 ^ i < 2 ^ 32 -> zlen bs + Z.of_nat fuel <= stream_limit ->
  exists w', write_int_mb_loop fuel i sum w = Some w' /\ holds w' (bs ++ unsigned5 fuel i sum).
Proof.
  revert i sum w bs. induction fuel as [|fuel IH]; intros i sum w bs Hw Hi Hf Hf0 Hs Hb Hl; [lia|].
  pose proof (Z.pow_pos_nonneg 64 i ltac:(lia) Hi).
  cbn [write_int_mb_loop unsigned5]. change L with 192. change H with 64. change MAX_i with 4.
  destruct (Z.ltb_spec sum 192) as [Hlow | Hhigh]; [|destruct (Z.eqb_spec i 4) as [-> | Hne]]; cbn [orb].
  - rewrite umod_id by lia. apply write_holds; [done|lia].
  - rewrite umod_id by (pow2_norm; lia). apply write_holds; [done|lia].
  - assert (sum < 2 ^ 32) by nia. rewrite umod_id by lia.
    pose proof (Z.mod_pos_bound (sum - 192) 64 ltac:(lia)).
    rewrite umod_id by lia.
    destruct (write_holds (192 + (sum - 192) mod 64) w bs Hw ltac:(lia)) as (w1 & -> & Hw1).
    cbn [mbind option_bind].
    replace (Z.shiftr (sum - 192) lg_H) with ((sum - 192) / 64)
      by (by rewrite Z.shiftr_div_pow2).
    pose proof (Z.div_mod (sum - 192) 64 ltac:(lia)).
    destruct (IH (i + 1) ((sum - 192) / 64) w1 _ Hw1) as (w' & -> & Hw'); try lia.
    + rewrite Z.pow_add_r by lia. nia.
    + rewrite length_app. cbn [length]. lia.
    + exists w'. split; [done|]. by rewrite <- app_assoc in Hw'.
Qed.

Lemma write_int_holds (v : Z) w bs :
  holds w bs -> zlen bs + 5 <= stream_limit ->
  exists w', write_int v w = Some w' /\ holds w' (bs ++ encode_int v).
Proof.
  intros Hw Hl. pose proof (umod_range 32 v ltac:(lia)).
  unfold write_int. destruct (Z.ltb_spec (u32 v) L) as [Hlow | Hhigh]; cbn [andb].
  - destruct (full w) eqn:Hf; cbn [negb].
    + by apply write_int_mb_loop_holds; try lia.
    + unfold encode_int. cbn [unsigned5]. apply Z.ltb_lt in Hlow as Hlow'. rewrite Hlow'. cbn [orb].
      change L with 192 in Hlow.
      replace (u8 v) with (u32 v); [by apply store_holds|].
      rewrite <- (umod_id 8 (u32 v)) by lia. unfold umod.
      rewrite <- Znumtheory.Zmod_div_mod; [done | lia | lia | by exists (2 ^ 24)].
  - apply write_int_mb_loop_holds; try done; lia.
Qed.

(** [at_pos s bs]: the bytes [bs] lie at the read position. *)
Definition at_pos (s : CompressedStream) (bs : list Z) : Prop :=
  forall k b, bs !! k = Some b -> fetch s (position s + Z.of_nat k) = Some b.

Definition advance (s : CompressedStream) (bs : list Z) : CompressedStream :=
  set_position s (position s + zlen bs).

Lemma at_pos_app (s : CompressedStream) (bs1 bs2 : list Z) :
  at_pos s (bs1 ++ bs2) -> at_pos s bs1 /\ at_pos (advance s bs1) bs2.
Proof.
  intros Hs. split; intros k b Hk.
  - apply Hs. by apply lookup_app_l_Some.
  - unfold fetch, advance; cbn. rewrite <- Z.add_assoc, <- Nat2Z.inj_add.
    apply (Hs (length bs1 + k)%nat b). rewrite lookup_app_r by lia.
    by replace (length bs1 + k - length bs1)%nat with k by lia.
Qed.

Lemma advance_app (s : CompressedStream) (bs1 bs2 : list Z) :
  advance (advance s bs1) bs2 = advance s (bs1 ++ bs2).
Proof. unfold advance, set_position; cbn. f_equal. rewrite length_app. lia. Qed.

Lemma read_at (s : CompressedStream) (b : Z) : at_pos s [b] -> read s = Some (b, advance s [b]).
Proof.
  intros Hs. unfold read. specialize (Hs 0%nat b eq_refl). rewrite Z.add_0_r in Hs. by rewrite Hs.
Qed.

Lemma read_int_mb_loop_at (fuel : nat) (s : CompressedStream) (pos i acc sum : Z) :
  0 <= i -> Z.of_nat fuel = 4 - i -> 0 < Z.of_nat fuel -> 0 <= sum ->
  at_pos (set_position s (pos + i + 1)) (unsigned5 fuel (i + 1) sum) ->
  read_int_mb_loop fuel s pos i acc (6 * (i + 1)) =
    Some (s32 (acc + sum * 64 ^ (i + 1)),
          set_position s (pos + i + 1 + zlen (unsigned5 fuel (i + 1) sum))).
Proof.
  revert i acc sum. induction fuel as [|fuel IH]; intros i acc sum Hi Hf Hf0 Hs Hat; [lia|].
  assert (Hsh : forall b, Z.shiftl b (6 * (i + 1)) = b * 64 ^ (i + 1)).
  { intros b. rewrite Z.shiftl_mul_pow2, Z.pow_mul_r by lia. done. }
  cbn [read_int_mb_loop]. cbn [unsigned5] in Hat |- *.
  change L with 192 in *. change H with 64 in *. change MAX_i with 4 in *. change lg_H with 6.
  destruct ((sum <? 192) || (i + 1 =? 4)) eqn:Hc.
  - assert (fetch s (pos + (i + 1)) = Some sum) as ->.
    { specialize (Hat 0%nat sum eq_refl). unfold fetch in *. cbn in Hat.
      rewrite <- Hat. f_equal. f_equal. lia. }
    cbn [mbind option_bind]. rewrite Hc, Hsh. f_equal. f_equal.
    + by rewrite smod_add_r by lia.
    + f_equal. cbn. lia.
  - apply orb_false_iff in Hc as [Hc1 Hc2]. apply Z.ltb_ge in Hc1. apply Z.eqb_neq in Hc2.
    set (b := 192 + (sum - 192) mod 64) in *.
    pose proof (Z.mod_pos_bound (sum - 192) 64 ltac:(lia)).
    pose proof (Z.div_mod (sum - 192) 64 ltac:(lia)).
    assert (fetch s (pos + (i + 1)) = Some b) as ->.
    { specialize (Hat 0%nat b eq_refl). unfold fetch in *. cbn in Hat.
      rewrite <- Hat. f_equal. f_equal. lia. }
    cbn [mbind option_bind]. destruct (Z.ltb_spec b 192); [lia|].
    destruct (Z.eqb_spec (i + 1) 4); [lia|]. cbn [orb].
    replace (6 * (i + 1) + 6) with (6 * (i + 1 + 1)) by lia.
    rewrite (IH (i + 1) _ ((sum - 192) / 64)); try lia.
    + f_equal. f_equal.
      * rewrite Hsh, smod_add_r, smod_add_l by lia. f_equal.
        rewrite (Z.pow_add_r 64 (i + 1) 1) by lia. subst b. nia.
      * f_equal. cbn [length]. lia.
    + apply (at_pos_app _ [b]) in Hat as [_ Hat]. unfold advance, set_position in *. cbn in *.
      by replace (pos + (i + 1) + 1) with (pos + i + 1 + 1) by lia.
Qed.

Lemma unsigned5_S (fuel : nat) (i sum : Z) :
  unsigned5 (S fuel) i sum =
    if (sum <? L) || (i =? MAX_i) then [sum]
    else (L + (sum - L) mod H) :: unsigned5 fuel (i + 1) ((sum - L) / H).
Proof. reflexivity. Qed.

Lemma read_int_at (s : CompressedStream) (v : Z) :
  in_s 32 v -> at_pos s (encode_int v) -> read_int s = Some (v, advance s (encode_int v)).
Proof.
  intros Hv Hat. pose proof (umod_range 32 v ltac:(lia)) as Hu.
  assert (Hs32 : s32 (u32 v) = v) by (apply smod_umod_id; lia).
  unfold encode_int in *. rewrite unsigned5_S in Hat |- *. unfold read_int.
  change L with 192 in *. change H with 64 in *. change MAX_i with 4 in *.
  destruct (Z.ltb_spec (u32 v) 192); cbn [orb] in Hat |- *.
  - rewrite (read_at _ _ Hat). cbn [mbind option_bind].
    destruct (Z.ltb_spec (u32 v) 192); [|lia]. f_equal. f_equal.
    transitivity (s32 (u32 v)); [|done]. symmetry. apply smod_id; lia.
  - change (0 =? 4) with false in *. cbn iota in Hat |- *.
    set (b := 192 + (u32 v - 192) mod 64) in *.
    pose proof (Z.mod_pos_bound (u32 v - 192) 64 ltac:(lia)).
    pose proof (Z.div_mod (u32 v - 192) 64 ltac:(lia)).
    destruct (at_pos_app s [b] _ Hat) as [Hb Hrest].
    rewrite (read_at _ _ Hb). cbn [mbind option_bind].
    destruct (Z.ltb_spec b 192); [lia|]. unfold read_int_mb.
    change (0 + 1) with 1 in *. change lg_H with (6 * (0 + 1)). change (Z.to_nat MAX_i) with 4%nat.
    rewrite (read_int_mb_loop_at 4 _ _ 0 b ((u32 v - 192) / 64)); try lia.
    + f_equal. f_equal.
      * transitivity (s32 (u32 v)); [|done]. f_equal. subst b. change (64 ^ (0 + 1)) with 64. lia.
      * change (0 + 1) with 1. unfold advance, set_position. cbn [position buffer length].
        f_equal. lia.
    + unfold advance, set_position in *. cbn [position buffer length] in *.
      change (Z.of_nat 1) with 1 in *. change (0 + 1) with 1.
      by replace (position s + 1 - 1 + 0 + 1) with (position s + 1) by lia.
Qed.

Lemma encode_int_length (v : Z) : zlen (encode_int v) <= 5.
Proof.
  unfold encode_int. generalize (u32 v). intros sum.
  assert (Hn : forall fuel i x, (length (unsigned5 fuel i x) <= fuel)%nat).
  { induction fuel as [|fuel IH]; intros i x; cbn; [lia|].
    case_match; cbn; [lia|]. specialize (IH (i + 1) ((x - L) / H)). lia. }
  specialize (Hn 5%nat 0 sum). lia.
Qed.

(** ** Codecs

    What every pair of stream operations promises: on the values it is meant
    for, the writer appends the bytes [enc v], and the reader, standing before
    those bytes, returns [v] and steps over them. *)
Class Codec (valid : Z -> Prop)
    (wr : Z -> CompressedWriteStream -> option CompressedWriteStream)
    (rd : CompressedStream -> option (Z * CompressedStream)) (enc : Z -> list Z) : Prop := {
  codec_length v : valid v -> zlen (enc v) <= 10;
  codec_write v w bs : valid v -> holds w bs -> zlen bs + 10 <= stream_limit ->
    exists w', wr v w = Some w' /\ holds w' (bs ++ enc v);
  codec_read v s : valid v -> at_pos s (enc v) -> rd s = Some (v, advance s (enc v)) }.

#[export] Instance int_codec : Codec (fun v => in_s 32 v) write_int read_int encode_int.
Proof.
  split.
  - intros v _. pose proof (encode_int_length v). lia.
  - intros v w bs _ Hw Hl. apply write_int_holds; [done|lia].
  - intros v s Hv. by apply read_int_at.
Qed.

(** A codec that maps its values to [int]s before coding them. *)
Lemma int_map_codec (valid : Z -> Prop) (wr : Z -> _) rd (f g : Z -> Z) :
  (forall v w, wr v w = write_int (f v) w) ->
  (forall s, rd s = '(v, s) ← read_int s; Some (g v, s)) ->
  (forall v, valid v -> in_s 32 (f v) /\ g (f v) = v) ->
  Codec valid wr rd (fun v => encode_int (f v)).
Proof.
  intros Hwr Hrd Hv. split.
  - intros v Hval. by apply (codec_length (Codec := int_codec)), Hv.
  - intros v w bs Hval Hw Hl. rewrite Hwr. apply write_int_holds; [done|lia].
  - intros v s Hval Hat. rewrite Hrd. destruct (Hv v Hval) as [Hr Hg].
    rewrite (read_int_at _ (f v)) by done. cbn. by rewrite Hg.
Qed.

#[export] Instance signed_int_codec :
  Codec (fun v => in_s 32 v) write_signed_int read_signed_int
    (fun v => encode_int (s32 (encode_sign v))).
Proof.
  apply (int_map_codec _ _ _ _ (fun v => decode_sign (u32 v))); [done|done|].
  intros v Hv. split; [apply smod_range; lia|].
  rewrite umod_smod, umod_id by (lia || by apply encode_sign_range).
  by apply decode_encode_sign.
Qed.

#[export] Instance char_codec : Codec (fun v => in_u 16 v) write_char read_char encode_int.
Proof.
  apply (int_map_codec _ _ _ (fun v => v) u16); [done|done|].
  intros v Hv. split; [lia|]. by apply umod_id.
Qed.

#[export] Instance short_codec :
  Codec (fun v => in_s 16 v) write_short read_short (fun v => encode_int (s32 (encode_sign v))).
Proof.
  split; [intros v Hv; apply (codec_length (Codec := signed_int_codec)); lia
         |intros v w bs Hv; apply (codec_write (Codec := signed_int_codec)); lia|].
  intros v s Hv Hat. unfold read_short.
  rewrite (codec_read (Codec := signed_int_codec) v) by (done || lia). cbn.
  by rewrite smod_id by lia.
Qed.

#[export] Instance float_codec :
  Codec (fun v => in_s 32 v) write_float read_float (fun v => encode_int (s32 (reverse_int (u32 v)))).
Proof.
  apply (int_map_codec _ _ _ _ (fun rf => s32 (reverse_int (u32 rf)))); [done|done|].
  intros v Hv. split; [apply smod_range; lia|].
  pose proof (umod_range 32 v ltac:(lia)).
  rewrite umod_smod by lia. rewrite (umod_id 32 (reverse_int _)) by (by apply reverse_int_range).
  rewrite reverse_int_involutive by done. apply smod_umod_id; lia.
Qed.

Lemma byte_codec_of (valid : Z -> Prop) wr rd (g : Z -> Z) :
  (forall v w, wr v w = write (u8 v) w) ->
  (forall s, rd s = '(v, s) ← read s; Some (g v, s)) ->
  (forall v, valid v -> g (u8 v) = v) ->
  Codec valid wr rd (fun v => [u8 v]).
Proof.
  intros Hwr Hrd Hv. split; [intros; cbn; lia| |].
  - intros v w bs Hval Hw Hl. rewrite Hwr. apply write_holds; [done|lia].
  - intros v s Hval Hat. rewrite Hrd, (read_at _ _ Hat). cbn. by rewrite Hv.
Qed.

#[export] Instance bool_codec : Codec (fun v => in_u 8 v) write_bool read_bool (fun v => [u8 v]).
Proof.
  apply (byte_codec_of _ _ _ u8); [done|done|]. intros v Hv. by rewrite umod_umod, umod_id.
Qed.

#[export] Instance byte_codec : Codec (fun v => in_s 8 v) write_byte read_byte (fun v => [u8 v]).
Proof.
  apply (byte_codec_of _ _ _ s8); [done|done|]. intros v Hv. apply smod_umod_id; lia.
Qed.

(** Two 32-bit values in a row, combined into one 64-bit value. *)
Lemma pair_codec (wr32 : Z -> _) rd32 enc32 (wr : Z -> _) rd (fst32 snd32 : Z -> Z) (join : Z -> Z -> Z)
    `{!Codec (fun v => in_s 32 v) wr32 rd32 enc32} :
  (forall v, zlen (enc32 v) <= 5) ->
  (forall v w, wr v w = w ← wr32 (fst32 v) w; wr32 (snd32 v) w) ->
  (forall s, rd s = '(a, s) ← rd32 s; '(b, s) ← rd32 s; Some (join a b, s)) ->
  (forall v w bs, holds w bs -> zlen bs + 5 <= stream_limit ->
     exists w', wr32 v w = Some w' /\ holds w' (bs ++ enc32 v)) ->
  (forall v, in_s 64 v -> in_s 32 (fst32 v) /\ in_s 32 (snd32 v) /\ join (fst32 v) (snd32 v) = v) ->
  Codec (fun v => in_s 64 v) wr rd (fun v => enc32 (fst32 v) ++ enc32 (snd32 v)).
Proof.
  intros Hlen Hwr Hrd Hw5 Hj. split.
  - intros v _. pose proof (Hlen (fst32 v)). pose proof (Hlen (snd32 v)). rewrite length_app. lia.
  - intros v w bs Hv Hw Hl. rewrite Hwr. pose proof (Hlen (fst32 v)).
    destruct (Hw5 (fst32 v) w bs Hw ltac:(lia)) as (w1 & -> & Hw1). cbn.
    destruct (Hw5 (snd32 v) w1 _ Hw1) as (w2 & -> & Hw2); [rewrite length_app; lia|].
    exists w2. by rewrite <- app_assoc in Hw2.
  - intros v s Hv Hat. destruct (Hj v Hv) as (H1 & H2 & H3).
    apply at_pos_app in Hat as [Hat1 Hat2]. rewrite Hrd.
    rewrite (codec_read (fst32 v)) by done. cbn. rewrite (codec_read (snd32 v)) by done. cbn.
    by rewrite H3, advance_app.
Qed.

#[export] Instance long_codec :
  Codec (fun v => in_s 64 v) write_long read_long
    (fun v => encode_int (s32 (encode_sign (low v))) ++ encode_int (s32 (encode_sign (high v)))).
Proof.
  apply (pair_codec _ _ (fun v => encode_int (s32 (encode_sign v))) _ _ low high (fun a b => jlong_from b a));
    [intros; apply encode_int_length|done|done|intros; by apply write_int_holds|].
  intros v Hv. split; [apply smod_range; lia|]. split; [apply smod_range; lia|].
  by apply jlong_from_high_low.
Qed.

#[export] Instance double_codec :
  Codec (fun v => in_s 64 v) write_double read_double
    (fun v => encode_int (s32 (reverse_int (u32 (high v)))) ++ encode_int (s32 (reverse_int (u32 (low v))))).
Proof.
  apply (pair_codec write_float read_float (fun v => encode_int (s32 (reverse_int (u32 v))))
           write_double read_double high low jlong_from (Codec0 := float_codec)).
  - intros v. apply encode_int_length.
  - intros v w. unfold write_double, write_float. cbv zeta. reflexivity.
  - intros s. unfold read_double, read_float. 
    destruct (read_int s) as [[rh s1]|]; [|reflexivity]. cbn [mbind option_bind].
    destruct (read_int s1) as [[rl s2]|]; cbn [mbind option_bind]; reflexivity.
  - intros v w bs Hw Hl. by apply write_int_holds.
  - intros v Hv. split; [apply smod_range; lia|]. split; [apply smod_range; lia|].
    by apply jlong_from_high_low.
Qed.

(** ** Whole streams *)

(** The typed values a client writes, as in the stress test of the source. *)
Inductive kind :=
  | KBool | KByte | KChar | KShort | KInt | KSignedInt | KFloat | KDouble | KLong.

Definition write_kind (k : kind) : Z -> CompressedWriteStream -> option CompressedWriteStream :=
  match k with
  | KBool => write_bool | KByte => write_byte | KChar => write_char | KShort => write_short
  | KInt => write_int | KSignedInt => write_signed_int | KFloat => write_float
  | KDouble => write_double | KLong => write_long
  end.

Definition read_kind (k : kind) : CompressedStream -> option (Z * CompressedStream) :=
  match k with
  | KBool => read_bool | KByte => read_byte | KChar => read_char | KShort => read_short
  | KInt => read_int | KSignedInt => read_signed_int | KFloat => read_float
  | KDouble => read_double | KLong => read_long
  end.

(** The range of the C++ type of the written value. *)
Definition valid_kind (k : kind) (v : Z) : Prop :=
  match k with
  | KBool => in_u 8 v | KByte => in_s 8 v | KChar => in_u 16 v | KShort => in_s 16 v
  | KInt | KSignedInt | KFloat => in_s 32 v
  | KDouble | KLong => in_s 64 v
  end.

Lemma kind_codec (k : kind) : exists enc, Codec (valid_kind k) (write_kind k) (read_kind k) enc.
Proof. destruct k; eexists; cbn; typeclasses eauto. Qed.

Fixpoint write_all (items : list (kind * Z)) (w : CompressedWriteStream) : option CompressedWriteStream :=
  match items with
  | [] => Some w
  | (k, v) :: items => w ← write_kind k v w; write_all items w
  end.

Fixpoint read_all (kinds : list kind) (s : CompressedStream) : option (list Z * CompressedStream) :=
  match kinds with
  | [] => Some ([], s)
  | k :: kinds =>
      '(v, s) ← read_kind k s;
      '(vs, s) ← read_all kinds s;
      Some (v :: vs, s)
  end.

Lemma write_read_all (items : list (kind * Z)) (w : CompressedWriteStream) (bs : list Z) :
  Forall (fun '(k, v) => valid_kind k v) items -> holds w bs ->
  zlen bs + 10 * zlen items <= stream_limit ->
  exists w' out, write_all items w = Some w' /\ holds w' (bs ++ out) /\
    forall s, at_pos s out -> read_all (items.*1) s = Some (items.*2, advance s out).
Proof.
  intros Hv. revert w bs. induction Hv as [|[k v] items Hk Hv IH]; intros w bs Hw Hl.
  - exists w, []. rewrite app_nil_r. split; [done|]. split; [done|]. intros s _.
    cbn. unfold advance, set_position. cbn. rewrite Z.add_0_r. by destruct s.
  - destruct (kind_codec k) as [enc Hc]. cbn [length] in Hl.
    destruct (codec_write (Codec := Hc) v w bs Hk Hw ltac:(lia)) as (w1 & Hw1 & Hh1).
    pose proof (codec_length (Codec := Hc) v Hk).
    destruct (IH w1 _ Hh1) as (w2 & out & Hw2 & Hh2 & Hr); [rewrite length_app; lia|].
    exists w2, (enc v ++ out). cbn. rewrite Hw1. split; [done|].
    split; [by rewrite <- app_assoc in Hh2|]. intros s Hat.
    apply at_pos_app in Hat as [Ha1 Ha2].
    rewrite (codec_read (Codec := Hc) v s Hk Ha1). cbn. rewrite (Hr _ Ha2). cbn.
    by rewrite advance_app.
Qed.

Lemma holds_at_pos (w : CompressedWriteStream) (bs out : list Z) :
  holds w (bs ++ out) -> at_pos (set_position (stream w) (zlen bs)) out.
Proof.
  intros [[rest Hb] _ _ _] k b Hk. unfold fetch, zget, set_position. cbn.
  rewrite bool_decide_eq_true_2 by lia. rewrite Hb.
  rewrite <- Nat2Z.inj_add, Nat2Z.id, fmap_app, <- app_assoc.
  rewrite lookup_app_r by (rewrite length_fmap; lia). rewrite length_fmap.
  replace (length bs + k - length bs)%nat with k by lia.
  rewrite lookup_app_l by (rewrite length_fmap; by eapply lookup_lt_Some).
  by rewrite list_lookup_fmap, Hk.
Qed.

(** C7: every sequence of values written to a compressed stream (growing it as
    needed) succeeds, and reading back from where the writing started, with the
    matching read operations, returns the same values and ends exactly where
    the writing ended. *)
Theorem compressed_stream_roundtrip (items : list (kind * Z)) (w : CompressedWriteStream) (bs : list Z) :
  Forall (fun '(k, v) => valid_kind k v) items -> holds w bs ->
  zlen bs + 10 * zlen items <= stream_limit ->
  exists w', write_all items w = Some w' /\
    read_all (items.*1) (set_position (stream w') (position (stream w))) = Some (items.*2, stream w').
Proof.
  intros Hv Hw Hl. destruct (write_read_all items w bs Hv Hw Hl) as (w' & out & Hw' & Hh & Hr).
  exists w'. split; [done|]. rewrite (holds_position _ _ Hw).
  rewrite (Hr _ (holds_at_pos _ _ _ Hh)). do 2 f_equal.
  unfold advance, set_position. cbn. pose proof (holds_position _ _ Hh) as Hp.
  rewrite length_app, Nat2Z.inj_add in Hp. destruct (stream w') as [b p]. cbn in *. by rewrite Hp.
Qed.

Definition sample_items : list (kind * Z) :=
  [(KInt, -1); (KSignedInt, - 2 ^ 31); (KByte, -128); (KDouble, 4607182418800017408);
   (KLong, 2 ^ 62 + 5); (KFloat, 1065353216); (KShort, -2); (KChar, 65535); (KBool, 1); (KInt, 192)].

Lemma compressed_stream_roundtrip_witness :
  exists w w', new_write_stream 4 = Some w /\ write_all sample_items w = Some w' /\
    read_all (sample_items.*1) (set_position (stream w') 0) = Some (sample_items.*2, stream w').
Proof.
  exists (mkWrite (mkStream (replicate 4 None) 0) 4).
  destruct (compressed_stream_roundtrip sample_items (mkWrite (mkStream (replicate 4 None) 0) 4) [])
    as (w' & H1 & H2).
  - unfold sample_items. repeat constructor; cbn; lia.
  - split; [by exists (replicate 4 None) | done | done | cbn; lia].
  - vm_compute. discriminate.
  - exists w'. split; [reflexivity|]. split; [exact H1 | exact H2].
Defined.

(** The grammar the source gives for UNSIGNED5: high bytes, then one low byte,
    or any byte in the fifth place. *)
Fixpoint in_grammar (i : Z) (bs : list Z) : bool :=
  match bs with
  | [] => false
  | [b] => (0 <=? b) && ((b <? L) || ((i =? MAX_i) && (b <? 256)))
  | b :: bs => (L <=? b) && (b <? 256) && in_grammar (i + 1) bs
  end.

Lemma unsigned5_grammar (fuel : nat) (i sum : Z) :
  0 <= i -> Z.of_nat fuel = 5 - i -> 0 < Z.of_nat fuel ->
  0 <= sum -> sum * 64 ^ i < 2 ^ 32 ->
  in_grammar i (unsigned5 fuel i sum) = true.
Proof.
  revert i sum. induction fuel as [|fuel IH]; intros i sum Hi Hf Hf0 Hs Hb; [lia|].
  pose proof (Z.pow_pos_nonneg 64 i ltac:(lia) Hi).
  rewrite unsigned5_S. change L with 192. change H with 64. change MAX_i with 4.
  destruct (Z.ltb_spec sum 192); [|destruct (Z.eqb_spec i 4) as [-> | Hne]]; cbn [orb].
  - cbn. change L with 192. destruct (Z.leb_spec 0 sum), (Z.ltb_spec sum 192); lia || done.
  - cbn in Hb. cbn. change L with 192.
    destruct (Z.leb_spec 0 sum), (Z.ltb_spec sum 192), (Z.ltb_spec sum 256); lia || done.
  - pose proof (Z.mod_pos_bound (sum - 192) 64 ltac:(lia)).
    pose proof (Z.div_mod (sum - 192) 64 ltac:(lia)).
    assert (Hr : in_grammar (i + 1) (unsigned5 fuel (i + 1) ((sum - 192) / 64)) = true).
    { apply IH; try lia. rewrite Z.pow_add_r by lia. nia. }
    cbn [in_grammar]. change L with 192. rewrite Hr.
    destruct (unsigned5 fuel (i + 1) ((sum - 192) / 64)); [done|].
    set (b := 192 + (sum - 192) mod 64) in *.
    destruct (Z.leb_spec 192 b), (Z.ltb_spec b 256); lia || done.
Qed.

(** [write_int] appends a word of the UNSIGNED5 grammar, of at most five
    bytes, for every 32-bit value, and a single byte exactly for the values
    below 192. *)
Lemma write_int_grammar (v : Z) (w : CompressedWriteStream) (bs : list Z) :
  holds w bs -> zlen bs + 5 <= stream_limit ->
  exists w' out, write_int v w = Some w' /\ holds w' (bs ++ out) /\
    in_grammar 0 out = true /\ zlen out <= 5 /\ (zlen out = 1 <-> u32 v < L).
Proof.
  intros Hw Hl. destruct (write_int_holds v w bs Hw Hl) as (w' & H1 & H2).
  pose proof (umod_range 32 v ltac:(lia)).
  exists w', (encode_int v). split; [done|]. split; [done|].
  split; [apply unsigned5_grammar; lia|]. split; [apply encode_int_length|].
  unfold encode_int. rewrite unsigned5_S. destruct (Z.ltb_spec (u32 v) L); cbn [orb]; [done|].
  change (0 =? MAX_i) with false. cbn iota.
  assert (length (unsigned5 4 (0 + 1) ((u32 v - L) / H)) <> 0%nat).
  { rewrite unsigned5_S. case_match; done. }
  cbn [length]. lia.
Qed.

Lemma write_int_grammar_witness :
  exists w' out, write_int 1000000 (mkWrite (mkStream (replicate 2 None) 0) 2) = Some w' /\
    holds w' ([] ++ out) /\ in_grammar 0 out = true.
Proof.
  destruct (write_int_grammar 1000000 (mkWrite (mkStream (replicate 2 None) 0) 2) [])
    as (w' & out & H1 & H2 & H3 & _).
  - split; [by exists (replicate 2 None) | done | done | cbn; lia].
  - vm_compute. discriminate.
  - exists w', out. auto.
Defined.
