(* ===== verification/VirtualSpace.v ===== *)
(** [VirtualSpace] of runtime/virtualspace.hpp and runtime/virtualspace.cpp: a
    reserved address range of which a growing prefix is committed.  The range is
    cut into a lower, a middle and an upper region; the middle one is committed
    in large pages, the other two in default pages.

    Addresses are integers below [2^63].  The operating system is a parameter:
    [commit_memory addr size] and [uncommit_memory addr size] are the answers of
    [os::commit_memory] and [os::uncommit_memory]; every theorem holds for all
    answers.  [vm_page_size] is [os::vm_page_size()]. *)

From S2P Require Import Prelude GlobalDefinitions.

(** ** Definitions *)

Definition pointer_delta (left right element_size : Z) : Z := u64 (left - right) / element_size.

(** Pointers to words: [p + n] in the source is [p + 8 * n] here. *)
Definition word_add (p n : Z) : Z := p + HeapWordSize * n.
Definition words_between (left right : Z) : Z := pointer_delta left right HeapWordSize.

(** What [initialize_with_granularity] uses of a [ReservedSpace]. *)
Record ReservedSpace := mkReserved {
  rs_base : Z; rs_size : Z; rs_special : bool; rs_executable : bool }.

Definition is_reserved (rs : ReservedSpace) : bool := negb (rs_base rs =? 0).

Record VirtualSpace := mkSpace {
  low_boundary : Z; high_boundary : Z;
  low : Z; high : Z;
  special : bool; executable : bool;
  lower_high : Z; middle_high : Z; upper_high : Z;
  lower_high_boundary : Z; middle_high_boundary : Z; upper_high_boundary : Z;
  lower_alignment : Z; middle_alignment : Z; upper_alignment : Z }.

Definition empty_space : VirtualSpace :=
  mkSpace 0 0 0 0 false false 0 0 0 0 0 0 0 0 0.

(** Field updates. *)
Definition set_high (v : VirtualSpace) (h : Z) : VirtualSpace :=
  mkSpace (low_boundary v) (high_boundary v) (low v) h (special v) (executable v)
    (lower_high v) (middle_high v) (upper_high v)
    (lower_high_boundary v) (middle_high_boundary v) (upper_high_boundary v)
    (lower_alignment v) (middle_alignment v) (upper_alignment v).
Definition set_region_highs (v : VirtualSpace) (l m u : Z) : VirtualSpace :=
  mkSpace (low_boundary v) (high_boundary v) (low v) (high v) (special v) (executable v)
    l m u
    (lower_high_boundary v) (middle_high_boundary v) (upper_high_boundary v)
    (lower_alignment v) (middle_alignment v) (upper_alignment v).

Definition committed_size (v : VirtualSpace) : Z := pointer_delta (high v) (low v) 1.
Definition reserved_size (v : VirtualSpace) : Z := pointer_delta (high_boundary v) (low_boundary v) 1.
Definition uncommitted_size (v : VirtualSpace) : Z := u64 (reserved_size v - committed_size v).

Definition actual_committed_size (v : VirtualSpace) : Z :=
  if special v then reserved_size v
  else
    let committed_low := pointer_delta (lower_high v) (low_boundary v) 1 in
    let committed_middle := pointer_delta (middle_high v) (lower_high_boundary v) 1 in
    let committed_high := pointer_delta (upper_high v) (middle_high_boundary v) 1 in
    u64 (u64 (committed_low + committed_middle) + committed_high).

Definition contains (v : VirtualSpace) (p : Z) : bool := (low v <=? p) && (p <? high v).

(** The size a region must grow by to reach [new_high] (0 when it is there). *)
Definition needs (new_high region_high : Z) : Z :=
  if region_high <? new_high then pointer_delta new_high region_high 1 else 0.

Section OS.
Context (commit_memory uncommit_memory : Z -> Z -> bool) (vm_page_size : Z).

Definition expand_by (v : VirtualSpace) (bytes : Z) : bool * VirtualSpace :=
  if uncommitted_size v <? bytes then (false, v)
  else if special v then (true, set_high v (high v + bytes))
  else
    let unaligned_new_high := high v + bytes in
    let unaligned_lower_new_high := Z.min unaligned_new_high (lower_high_boundary v) in
    let unaligned_middle_new_high := Z.min unaligned_new_high (middle_high_boundary v) in
    let unaligned_upper_new_high := Z.min unaligned_new_high (upper_high_boundary v) in
    let aligned_lower_new_high := round_to unaligned_lower_new_high (lower_alignment v) in
    let aligned_middle_new_high := round_to unaligned_middle_new_high (middle_alignment v) in
    let aligned_upper_new_high := round_to unaligned_upper_new_high (upper_alignment v) in
    let lower_needs := needs aligned_lower_new_high (lower_high v) in
    let middle_needs := needs aligned_middle_new_high (middle_high v) in
    let upper_needs := needs aligned_upper_new_high (upper_high v) in
    if (0 <? lower_needs) && negb (commit_memory (lower_high v) lower_needs) then (false, v)
    else
      let v := set_region_highs v (lower_high v + lower_needs) (middle_high v) (upper_high v) in
      if (0 <? middle_needs) && negb (commit_memory (middle_high v) middle_needs) then (false, v)
      else
        let v := set_region_highs v (lower_high v) (middle_high v + middle_needs) (upper_high v) in
        if (0 <? upper_needs) && negb (commit_memory (upper_high v) upper_needs) then (false, v)
        else
          let v := set_region_highs v (lower_high v) (middle_high v) (upper_high v + upper_needs) in
          (true, set_high v (high v + bytes)).

(** [None] is the [fatal] exit. *)
Definition shrink_by (v : VirtualSpace) (size : Z) : option VirtualSpace :=
  if committed_size v <? size then None
  else if special v then Some (set_high v (high v - size))
  else
    let unaligned_new_high := high v - size in
    let unaligned_upper_new_high := Z.max unaligned_new_high (middle_high_boundary v) in
    let unaligned_middle_new_high := Z.max unaligned_new_high (lower_high_boundary v) in
    let unaligned_lower_new_high := Z.max unaligned_new_high (low_boundary v) in
    let aligned_upper_new_high := round_to unaligned_upper_new_high (upper_alignment v) in
    let aligned_middle_new_high := round_to unaligned_middle_new_high (middle_alignment v) in
    let aligned_lower_new_high := round_to unaligned_lower_new_high (lower_alignment v) in
    let upper_needs := needs (upper_high v) aligned_upper_new_high in
    let middle_needs := needs (middle_high v) aligned_middle_new_high in
    let lower_needs := needs (lower_high v) aligned_lower_new_high in
    if (0 <? upper_needs) && negb (uncommit_memory aligned_upper_new_high upper_needs) then Some v
    else
      let v := set_region_highs v (lower_high v) (middle_high v) (upper_high v - upper_needs) in
      if (0 <? middle_needs) && negb (uncommit_memory aligned_middle_new_high middle_needs) then Some v
      else
        let v := set_region_highs v (lower_high v) (middle_high v - middle_needs) (upper_high v) in
        if (0 <? lower_needs) && negb (uncommit_memory aligned_lower_new_high lower_needs) then Some v
        else
          let v := set_region_highs v (lower_high v - lower_needs) (middle_high v) (upper_high v) in
          Some (set_high v (high v - size)).

Definition initialize_with_granularity (rs : ReservedSpace) (committed_size max_commit_granularity : Z)
  : bool * VirtualSpace :=
  if negb (is_reserved rs) then (false, empty_space)
  else
    let lowb := rs_base rs in
    let highb := lowb + rs_size rs in
    let lower_hb := round_to lowb max_commit_granularity in
    let middle_hb := round_down highb max_commit_granularity in
    let v := mkSpace lowb highb lowb lowb (rs_special rs) (rs_executable rs)
               lowb lower_hb middle_hb lower_hb middle_hb highb
               vm_page_size max_commit_granularity vm_page_size in
    if 0 <? committed_size then
      let '(ok, v) := expand_by v committed_size in
      if negb ok then (false, v) else (true, v)
    else (true, v).
End OS.

(** The destructor and [release] forget the range. *)
Definition release (v : VirtualSpace) : VirtualSpace := empty_space.

(** ** Invariant *)

(** One region: its high water mark lies in it and is aligned. *)
Record region_ok (lo hi al h : Z) : Prop := {
  region_in : lo <= h <= hi;
  region_aligned : (al | h);
  region_hi_aligned : (al | hi) }.

Record wf (v : VirtualSpace) : Prop := {
  wf_low : low v = low_boundary v;
  wf_bounds : 0 <= low_boundary v <= lower_high_boundary v /\
              lower_high_boundary v <= middle_high_boundary v <= upper_high_boundary v;
  wf_top : upper_high_boundary v = high_boundary v /\
           high_boundary v + middle_alignment v < 2 ^ 63;
  wf_alignment : 0 < lower_alignment v <= middle_alignment v /\
    upper_alignment v = lower_alignment v /\
    is_power_of_2 (lower_alignment v) = true /\ is_power_of_2 (middle_alignment v) = true;
  wf_lo_aligned : (lower_alignment v | low_boundary v) /\
    (middle_alignment v | lower_high_boundary v) /\ (upper_alignment v | middle_high_boundary v);
  wf_lower : region_ok (low_boundary v) (lower_high_boundary v) (lower_alignment v) (lower_high v);
  wf_middle : region_ok (lower_high_boundary v) (middle_high_boundary v) (middle_alignment v) (middle_high v);
  wf_upper : region_ok (middle_high_boundary v) (upper_high_boundary v) (upper_alignment v) (upper_high v);
  wf_high : low v <= high v <= high_boundary v;
  (** the regions fill in address order *)
  wf_order : (lower_high_boundary v < middle_high v -> lower_high v = lower_high_boundary v) /\
    (middle_high_boundary v < upper_high v ->
       lower_high v = lower_high_boundary v /\ middle_high v = middle_high_boundary v);
  (** everything below [high] is committed *)
  wf_covered : special v = false ->
    Z.min (high v) (lower_high_boundary v) <= lower_high v /\
    Z.min (high v) (middle_high_boundary v) <= middle_high v /\
    high v <= upper_high v }.

(** The bytes the operating system has committed. *)
Definition committed (v : VirtualSpace) (a : Z) : Prop :=
  low_boundary v <= a < lower_high v \/
  lower_high_boundary v <= a < middle_high v \/
  middle_high_boundary v <= a < upper_high v.

Lemma wf_committed (v : VirtualSpace) (a : Z) :
  wf v -> special v = false -> contains v a = true -> committed v a.
Proof.
  intros Hv Hs. unfold contains. rewrite andb_true_iff, Z.leb_le, Z.ltb_lt. intros Ha.
  destruct Hv as [Hl Hb Ht Hal Hla [H1 _ _] [H2 _ _] [H3 _ _] Hh Ho Hc]. specialize (Hc Hs).
  unfold committed. lia.
Qed.

Lemma words_between_eq (high low : Z) : 0 <= low <= high -> high < 2 ^ 63 -> words_between high low = (high - low) / 8.
Proof. intros H1 H2. unfold words_between, pointer_delta, HeapWordSize. rewrite umod_id; [done|pow2_norm; lia]. Qed.

Lemma word_add_div (x y : Z) : (8 | x) -> (8 | y) -> word_add x ((y - x) / 8) = y.
Proof. intros [i ->] [j ->]. unfold word_add. replace (j * 8 - i * 8) with ((j - i) * 8) by lia. rewrite Z.div_mul by lia. change HeapWordSize with 8. lia. Qed.

Lemma delta1 (a b : Z) : 0 <= a - b < 2 ^ 64 -> pointer_delta a b 1 = a - b.
Proof. intros. unfold pointer_delta. rewrite umod_id by done. apply Z.div_1_r. Qed.

Lemma needs_grow (a h : Z) : 0 <= a < 2 ^ 63 -> 0 <= h -> h + needs a h = Z.max h a.
Proof. intros. unfold needs. destruct (Z.ltb_spec h a); [rewrite delta1 by lia|]; lia. Qed.

Lemma needs_shrink (a h : Z) : 0 <= h < 2 ^ 63 -> 0 <= a -> h - needs h a = Z.min h a.
Proof. intros. unfold needs. destruct (Z.ltb_spec a h); [rewrite delta1 by lia|]; lia. Qed.

(** Growing a region to the rounded target keeps it well formed and covers the
    target; shrinking it likewise. *)
Lemma region_grow (lo hi al h t : Z) :
  0 < al -> region_ok lo hi al h ->
  region_ok lo hi al (Z.max h (up (Z.min t hi) al)) /\
  Z.min t hi <= Z.max h (up (Z.min t hi) al) /\
  (hi <= t -> Z.max h (up (Z.min t hi) al) = hi) /\
  (t <= lo -> (al | lo) -> Z.max h (up (Z.min t hi) al) = h).
Proof.
  intros Ha [Hin Hh Hhi]. destruct (up_spec (Z.min t hi) al Ha) as [Hd Hb].
  pose proof (up_le (Z.min t hi) al hi Ha Hhi ltac:(lia)).
  split; [split; [lia | | done]|split; [lia|split; [intros; lia|]]].
  - destruct (Z.max_spec h (up (Z.min t hi) al)) as [[_ ->] | [_ ->]]; done.
  - intros Ht Hlo. pose proof (up_le (Z.min t hi) al lo Ha Hlo). lia.
Qed.

Lemma region_shrink (lo hi al h t : Z) :
  0 < al -> (al | lo) -> region_ok lo hi al h -> Z.min t hi <= h ->
  region_ok lo hi al (Z.min h (up (Z.max t lo) al)) /\
  Z.min t hi <= Z.min h (up (Z.max t lo) al) /\
  (hi <= t -> Z.min h (up (Z.max t lo) al) = h) /\
  (t <= lo -> Z.min h (up (Z.max t lo) al) = lo).
Proof.
  intros Ha Hlo [Hin Hh Hhi] Ht. destruct (up_spec (Z.max t lo) al Ha) as [Hd Hb].
  split; [split; [lia | | done]|split; [lia|split; intros Htl]].
  - destruct (Z.min_spec h (up (Z.max t lo) al)) as [[_ ->] | [_ ->]]; done.
  - lia.
  - replace (Z.max t lo) with lo by lia. rewrite up_id by done. lia.
Qed.

Lemma wf_committed_size (v : VirtualSpace) : wf v -> committed_size v = high v - low v.
Proof. intros [Hl Hb Ht Hal Hla _ _ _ Hh _ _]. apply delta1. lia. Qed.

Lemma wf_reserved_size (v : VirtualSpace) : wf v -> reserved_size v = high_boundary v - low_boundary v.
Proof. intros [Hl Hb Ht Hal Hla _ _ _ Hh _ _]. apply delta1. lia. Qed.

Lemma wf_uncommitted_size (v : VirtualSpace) : wf v -> uncommitted_size v = high_boundary v - high v.
Proof.
  intros Hv. unfold uncommitted_size. rewrite wf_committed_size, wf_reserved_size by done.
  destruct Hv as [Hl Hb Ht Hal Hla _ _ _ Hh _ _]. rewrite umod_id; lia.
Qed.

(** ** Growing *)

Section Grow.
Context (v : VirtualSpace) (nh : Z) (Hwf : wf v) (Hnh : high v <= nh <= high_boundary v).

Lemma wf_grow_lower :
  let l := Z.max (lower_high v) (up (Z.min nh (lower_high_boundary v)) (lower_alignment v)) in
  wf (set_region_highs v l (middle_high v) (upper_high v)) /\
  lower_high v <= l /\ Z.min nh (lower_high_boundary v) <= l.
Proof.
  cbv zeta. destruct Hwf as [Hl Hb Ht Hal Hla H1 H2 H3 Hh Ho Hc].
  assert (Hp : 0 < lower_alignment v) by lia.
  destruct (region_grow _ _ _ _ nh Hp H1) as (Hr & Hm & Hf & _).
  destruct Hr as [Hri Hra Hrh]. pose proof (region_in _ _ _ _ H1).
  split; [|lia]. constructor; cbn; try done; try (split; done || lia);
    try (intros Hsp; specialize (Hc Hsp)); lia.
Qed.

Lemma wf_grow_middle :
  (lower_high_boundary v < nh -> lower_high v = lower_high_boundary v) ->
  let m := Z.max (middle_high v) (up (Z.min nh (middle_high_boundary v)) (middle_alignment v)) in
  wf (set_region_highs v (lower_high v) m (upper_high v)) /\
  middle_high v <= m /\ Z.min nh (middle_high_boundary v) <= m.
Proof.
  intros Hlow. cbv zeta. destruct Hwf as [Hl Hb Ht Hal Hla H1 H2 H3 Hh Ho Hc].
  assert (Hp : 0 < middle_alignment v) by lia.
  destruct (region_grow _ _ _ _ nh Hp H2) as (Hr & Hm & Hf & Hs).
  destruct Hr as [Hri Hra Hrh]. pose proof (region_in _ _ _ _ H2). pose proof (region_in _ _ _ _ H3).
  specialize (fun H => Hs H (proj1 (proj2 Hla))).
  split; [|lia]. constructor; cbn; try done; try (split; done || lia);
    try (intros Hsp; specialize (Hc Hsp)); lia.
Qed.

Lemma wf_grow_upper :
  (lower_high_boundary v < nh -> lower_high v = lower_high_boundary v) ->
  (middle_high_boundary v < nh -> middle_high v = middle_high_boundary v) ->
  let u := Z.max (upper_high v) (up (Z.min nh (upper_high_boundary v)) (upper_alignment v)) in
  wf (set_region_highs v (lower_high v) (middle_high v) u) /\ upper_high v <= u /\ nh <= u.
Proof.
  intros Hlow Hmid. cbv zeta. destruct Hwf as [Hl Hb Ht Hal Hla H1 H2 H3 Hh Ho Hc].
  assert (Hp : 0 < upper_alignment v) by lia.
  destruct (region_grow _ _ _ _ nh Hp H3) as (Hr & Hm & Hf & Hs).
  destruct Hr as [Hri Hra Hrh]. pose proof (region_in _ _ _ _ H3).
  specialize (fun H => Hs H (proj2 (proj2 Hla))).
  split; [|lia]. constructor; cbn; try done; try (split; done || lia);
    try (intros Hsp; specialize (Hc Hsp)); lia.
Qed.

Lemma wf_set_high :
  (special v = false -> Z.min nh (lower_high_boundary v) <= lower_high v /\
     Z.min nh (middle_high_boundary v) <= middle_high v /\ nh <= upper_high v) ->
  wf (set_high v nh).
Proof.
  intros Hcov. destruct Hwf as [Hl Hb Ht Hal Hla H1 H2 H3 Hh Ho Hc].
  constructor; cbn; try done; lia.
Qed.
End Grow.

(** What an operation that only moves the water marks leaves alone. *)
Definition same_range (v v' : VirtualSpace) : Prop :=
  low_boundary v' = low_boundary v /\ high_boundary v' = high_boundary v /\ low v' = low v /\
  lower_high_boundary v' = lower_high_boundary v /\
  middle_high_boundary v' = middle_high_boundary v /\ special v' = special v.

Lemma committed_mono (v v' : VirtualSpace) (a : Z) :
  same_range v v' -> lower_high v <= lower_high v' -> middle_high v <= middle_high v' ->
  upper_high v <= upper_high v' -> committed v a -> committed v' a.
Proof. unfold same_range, committed. intros (H1 & _ & _ & H2 & H3 & _) Ha Hb Hc. rewrite H1, H2, H3. lia. Qed.

Lemma needs_nonpos_max (a h : Z) : (0 <? needs a h) = false -> 0 <= a < 2 ^ 63 -> 0 <= h -> h + needs a h = h.
Proof.
  intros Hn Ha Hh. apply Z.ltb_ge in Hn. unfold needs in *.
  destruct (Z.ltb_spec h a); [rewrite delta1 in * by lia|]; lia.
Qed.

Lemma expand_by_spec (commit_memory : Z -> Z -> bool) (v : VirtualSpace) (bytes : Z) :
  wf v -> 0 <= bytes ->
  let '(ok, v') := expand_by commit_memory v bytes in
  wf v' /\ same_range v v' /\
  high v' = (if ok then high v + bytes else high v) /\
  (forall a, committed v a -> committed v' a) /\
  ((forall a n, commit_memory a n = true) -> ok = (high v + bytes <=? high_boundary v)).
Proof.
  intros Hv Hb. unfold expand_by. rewrite wf_uncommitted_size by done.
  destruct (Z.ltb_spec (high_boundary v - high v) bytes) as [Hno | Hfit].
  { do 3 (split; [done|]). split; [done|]. intros _. symmetry. apply Z.leb_gt. lia. }
  assert (Hok : (high v + bytes <=? high_boundary v) = true) by (apply Z.leb_le; lia). rewrite Hok.
  destruct (special v) eqn:Hsp.
  { split; [apply wf_set_high; [done|lia|by rewrite Hsp]|]. repeat split; done || tauto. }
  set (nh := high v + bytes) in *.
  pose proof Hv as [Hl Hbo Ht Hal Hla H1 H2 H3 Hh Ho Hc].
  pose proof (region_in _ _ _ _ H1). pose proof (region_in _ _ _ _ H2). pose proof (region_in _ _ _ _ H3).
  destruct (wf_alignment v Hv) as (Ha1 & Ha2 & Ha3 & Ha4).
  rewrite !round_to_eq by (done || lia || (rewrite Ha2; done || lia)).
  destruct (up_spec (Z.min nh (lower_high_boundary v)) (lower_alignment v) ltac:(lia)) as [_ Hu1].
  destruct (up_spec (Z.min nh (middle_high_boundary v)) (middle_alignment v) ltac:(lia)) as [_ Hu2].
  destruct (up_spec (Z.min nh (upper_high_boundary v)) (upper_alignment v) ltac:(lia)) as [_ Hu3].
  cbn [lower_high middle_high upper_high set_region_highs high].
  rewrite !needs_grow by lia.
  destruct (wf_grow_lower v nh Hv ltac:(lia)) as (Hw1 & Hm1 & Hc1).
  set (l := Z.max (lower_high v) _) in *.
  assert (Hfull1 : lower_high_boundary v < nh -> l = lower_high_boundary v).
  { pose proof (region_in _ _ _ _ (wf_lower _ Hw1)) as Hr. cbn in Hr. lia. }
  destruct (wf_grow_middle _ nh Hw1 ltac:(cbn; lia) Hfull1) as (Hw2 & Hm2 & Hc2).
  cbn [middle_high middle_high_boundary middle_alignment lower_high upper_high set_region_highs] in Hw2, Hm2, Hc2.
  set (m := Z.max (middle_high v) _) in *.
  assert (Hfull2 : middle_high_boundary v < nh -> m = middle_high_boundary v).
  { pose proof (region_in _ _ _ _ (wf_middle _ Hw2)) as Hr. cbn in Hr. lia. }
  destruct (wf_grow_upper _ nh Hw2 ltac:(cbn; lia) Hfull1 Hfull2) as (Hw3 & Hm3 & Hc3).
  cbn [upper_high upper_high_boundary upper_alignment lower_high middle_high set_region_highs] in Hw3, Hm3, Hc3.
  set (u := Z.max (upper_high v) _) in *.
  assert (Hsame : forall a b c, same_range v (set_region_highs v a b c)) by done.
  destruct (_ && negb _) eqn:Hf1.
  { apply andb_true_iff in Hf1 as [_ Hf1]. do 4 (split; [done|]).
    intros Hall. rewrite Hall in Hf1. done. }
  destruct ((0 <? needs _ (middle_high v)) && negb _) eqn:Hf2.
  { apply andb_true_iff in Hf2 as [_ Hf2]. split; [done|]. split; [done|]. split; [done|].
    split; [|intros Hall; rewrite Hall in Hf2; done].
    intros a. apply committed_mono; cbn; done || lia. }
  destruct ((0 <? needs _ (upper_high v)) && negb _) eqn:Hf3.
  { apply andb_true_iff in Hf3 as [_ Hf3]. split; [done|]. split; [done|]. split; [done|].
    split; [|intros Hall; rewrite Hall in Hf3; done].
    intros a. apply committed_mono; cbn; done || lia. }
  clearbody l m u. split; [apply (wf_set_high _ nh Hw3); cbn [high high_boundary set_region_highs special
    lower_high middle_high upper_high lower_high_boundary middle_high_boundary]; lia|].
  split; [done|]. split; [done|]. split; [|done].
  intros a. apply committed_mono; cbn; done || lia.
Qed.

(** ** Shrinking *)

Section Shrink.
Context (v : VirtualSpace) (nh : Z) (Hwf : wf v) (Hsp : special v = false).
Context (Hnh : low v <= nh <= high v).

(** The space after all three regions gave up what lies above [nh]. *)
Definition shrunk : VirtualSpace :=
  set_high (set_region_highs v
    (Z.min (lower_high v) (up (Z.max nh (low_boundary v)) (lower_alignment v)))
    (Z.min (middle_high v) (up (Z.max nh (lower_high_boundary v)) (middle_alignment v)))
    (Z.min (upper_high v) (up (Z.max nh (middle_high_boundary v)) (upper_alignment v)))) nh.

Lemma wf_shrunk : wf shrunk.
Proof.
  destruct Hwf as [Hl Hb Ht Hal Hla H1 H2 H3 Hh Ho Hc]. specialize (Hc Hsp).
  assert (Hp1 : 0 < lower_alignment v) by lia. assert (Hp2 : 0 < middle_alignment v) by lia.
  assert (Hp3 : 0 < upper_alignment v) by lia. destruct Hla as (Hla1 & Hla2 & Hla3).
  pose proof (region_in _ _ _ _ H1). pose proof (region_in _ _ _ _ H2). pose proof (region_in _ _ _ _ H3).
  destruct (region_shrink _ _ _ _ nh Hp1 Hla1 H1 ltac:(lia)) as (R1 & C1 & F1 & E1).
  destruct (region_shrink _ _ _ _ nh Hp2 Hla2 H2 ltac:(lia)) as (R2 & C2 & F2 & E2).
  destruct (region_shrink _ _ _ _ nh Hp3 Hla3 H3 ltac:(lia)) as (R3 & C3 & F3 & E3).
  pose proof (region_in _ _ _ _ R1). pose proof (region_in _ _ _ _ R2). pose proof (region_in _ _ _ _ R3).
  unfold shrunk.
  set (l := Z.min (lower_high v) _) in *. set (m := Z.min (middle_high v) _) in *.
  set (u := Z.min (upper_high v) _) in *.
  assert (l <= lower_high v) by (subst l; lia). assert (m <= middle_high v) by (subst m; lia).
  assert (u <= upper_high v) by (subst u; lia). clearbody l m u.
  constructor; cbn [low low_boundary high_boundary high special lower_high middle_high upper_high
    lower_high_boundary middle_high_boundary upper_high_boundary lower_alignment
    middle_alignment upper_alignment set_high set_region_highs]; try done; lia.
Qed.

Lemma shrink_by_eq (uncommit_memory : Z -> Z -> bool) (size : Z) :
  nh = high v - size -> (forall a n, uncommit_memory a n = true) ->
  shrink_by uncommit_memory v size = Some shrunk.
Proof.
  intros Hn Hall. unfold shrink_by. rewrite wf_committed_size by done.
  destruct Hwf as [Hl Hb Ht Hal Hla H1 H2 H3 Hh Ho Hc].
  destruct Hal as (Ha1 & Ha2 & Ha3 & Ha4).
  pose proof (region_in _ _ _ _ H1). pose proof (region_in _ _ _ _ H2). pose proof (region_in _ _ _ _ H3).
  destruct (Z.ltb_spec (high v - low v) size); [lia|]. rewrite Hsp, !Hall.
  rewrite !andb_false_r.
  destruct (up_spec (Z.max (high v - size) (low_boundary v)) (lower_alignment v) ltac:(lia)) as [_ Hu1].
  destruct (up_spec (Z.max (high v - size) (lower_high_boundary v)) (middle_alignment v) ltac:(lia)) as [_ Hu2].
  destruct (up_spec (Z.max (high v - size) (middle_high_boundary v)) (upper_alignment v) ltac:(lia)) as [_ Hu3].
  cbn [lower_high middle_high upper_high set_region_highs high].
  rewrite !round_to_eq by (done || lia || (rewrite Ha2; done || lia)).
  rewrite !needs_shrink by lia. unfold shrunk. rewrite Hn. reflexivity.
Qed.
End Shrink.

Lemma shrink_by_spec (uncommit_memory : Z -> Z -> bool) (v : VirtualSpace) (size : Z) :
  wf v -> 0 <= size -> (forall a n, uncommit_memory a n = true) ->
  match shrink_by uncommit_memory v size with
  | None => committed_size v < size
  | Some v' => wf v' /\ same_range v v' /\ high v' = high v - size
  end.
Proof.
  intros Hv Hs Hall.
  destruct (Z.lt_ge_cases (committed_size v) size) as [Hlt | Hge].
  { unfold shrink_by. apply Z.ltb_lt in Hlt as Hb. by rewrite Hb. }
  pose proof Hge as Hge'. rewrite wf_committed_size in Hge' by done.
  destruct (special v) eqn:Hsp.
  - unfold shrink_by. destruct (Z.ltb_spec (committed_size v) size); [lia|]. rewrite Hsp.
    split; [|done]. destruct Hv as [Hl Hb Ht Hal Hla H1 H2 H3 Hh Ho Hc].
    constructor; cbn; try done; [lia | by rewrite Hsp].
  - assert (low v <= high v - size <= high v) by lia.
    rewrite (shrink_by_eq v (high v - size)) by done.
    split; [by apply wf_shrunk | done].
Qed.

(** ** Initialization *)

(** A reservation [initialize] can be called with: page aligned, and at least
    as large as the commit granularity (page sizes are powers of two, and
    [os::page_size_for_region_unaligned] picks one that fits the region). *)
Record reservation_ok (rs : ReservedSpace) (page granularity : Z) : Prop := {
  res_base : 0 < rs_base rs;
  res_top : rs_base rs + rs_size rs + granularity < 2 ^ 63;
  res_page : 0 < page <= granularity /\ granularity <= rs_size rs;
  res_pow : is_power_of_2 page = true /\ is_power_of_2 granularity = true;
  res_divide : (page | granularity);
  res_aligned : (page | rs_base rs) /\ (page | rs_size rs) }.

Definition fresh_space (rs : ReservedSpace) (page granularity : Z) : VirtualSpace :=
  mkSpace (rs_base rs) (rs_base rs + rs_size rs) (rs_base rs) (rs_base rs)
    (rs_special rs) (rs_executable rs) (rs_base rs)
    (up (rs_base rs) granularity) (down (rs_base rs + rs_size rs) granularity)
    (up (rs_base rs) granularity) (down (rs_base rs + rs_size rs) granularity)
    (rs_base rs + rs_size rs) page granularity page.

Lemma wf_fresh_space (rs : ReservedSpace) (page granularity : Z) :
  reservation_ok rs page granularity -> wf (fresh_space rs page granularity).
Proof.
  intros [Hb Ht Hp Hpow Hd [Ha1 Ha2]].
  destruct (up_spec (rs_base rs) granularity ltac:(lia)) as [Hu1 Hu2].
  destruct (down_spec (rs_base rs + rs_size rs) granularity ltac:(lia)) as [Hd1 Hd2].
  pose proof (down_ge (rs_base rs + rs_size rs) granularity (up (rs_base rs) granularity)
                ltac:(lia) Hu1 ltac:(lia)).
  assert (page | up (rs_base rs) granularity) by (apply (Z.divide_trans _ granularity); done).
  assert (page | down (rs_base rs + rs_size rs) granularity) by (apply (Z.divide_trans _ granularity); done).
  assert (page | rs_base rs + rs_size rs) by (by apply Z.divide_add_r).
  constructor; cbn; try done; try (split; done || lia); lia.
Qed.

Lemma initialize_spec (commit_memory : Z -> Z -> bool) (rs : ReservedSpace) (page csize granularity : Z) :
  reservation_ok rs page granularity -> 0 <= csize ->
  let '(ok, v) := initialize_with_granularity commit_memory page rs csize granularity in
  wf v /\ low_boundary v = rs_base rs /\ reserved_size v = rs_size rs /\
  committed_size v = (if ok then csize else 0) /\
  ((forall a n, commit_memory a n = true) -> ok = (csize <=? rs_size rs)).
Proof.
  intros Hr Hcs. pose proof (wf_fresh_space _ _ _ Hr) as Hw.
  destruct Hr as [Hb Ht Hp Hpow Hd [Ha1 Ha2]].
  unfold initialize_with_granularity, is_reserved.
  destruct (Z.eqb_spec (rs_base rs) 0); [lia|]. cbn [negb].
  rewrite round_to_eq, round_down_eq by (tauto || lia).
  change (mkSpace _ _ _ _ _ _ _ _ _ _ _ _ _ _ _) with (fresh_space rs page granularity).
  destruct (Z.ltb_spec 0 csize).
  - pose proof (expand_by_spec commit_memory _ csize Hw Hcs) as Hx.
    destruct (expand_by _ _ _) as [[] v]; cbn [negb];
      destruct Hx as (Hw' & (S1 & S2 & S3 & _) & Hh & _ & Hok);
      rewrite wf_reserved_size, wf_committed_size by done; rewrite S1, S2, S3, Hh; cbn;
      (split; [done|]; split; [done|]; split; [lia|]; split; [lia|]);
      intros Hall; rewrite Hok by done; cbn; destruct (Z.leb_spec csize (rs_size rs)); lia.
  - rewrite wf_reserved_size, wf_committed_size by done. cbn.
    split; [done|]. split; [done|]. split; [lia|]. split; [lia|].
    intros _. symmetry. apply Z.leb_le. lia.
Qed.

(** ** Correctness *)

(** A call on an initialized space, with the answers the operating system gives. *)
Inductive SpaceCall :=
  | Expand (commit_memory : Z -> Z -> bool) (bytes : Z)
  | Shrink (uncommit_memory : Z -> Z -> bool) (size : Z).

Definition call_bytes (c : SpaceCall) : Z := match c with Expand _ n | Shrink _ n => n end.

Definition do_call (v : VirtualSpace) (c : SpaceCall) : option VirtualSpace :=
  match c with
  | Expand commit_memory bytes => Some (snd (expand_by commit_memory v bytes))
  | Shrink uncommit_memory size => shrink_by uncommit_memory v size
  end.
Fixpoint do_calls (v : VirtualSpace) (cs : list SpaceCall) : option VirtualSpace :=
  match cs with [] => Some v | c :: cs => v ← do_call v c; do_calls v cs end.

(** Whether the space is known to be covered after a call when it was ([cov]) before: a
    successful [expand_by] commits all that is missing, a [shrink_by] that gives up after
    it has released a region leaves a gap below [high]. *)
Definition same_marks (v v' : VirtualSpace) : bool :=
  (lower_high v' =? lower_high v) && (middle_high v' =? middle_high v) && (upper_high v' =? upper_high v).
Definition covered_after (cov : bool) (v : VirtualSpace) (c : SpaceCall) : bool :=
  match c with
  | Expand commit_memory bytes => cov || fst (expand_by commit_memory v bytes)
  | Shrink uncommit_memory size =>
      match shrink_by uncommit_memory v size with
      | Some v' => cov && ((high v' =? high v - size) || same_marks v v')
      | None => cov
      end
  end.
Fixpoint covered_by (cov : bool) (v : VirtualSpace) (cs : list SpaceCall) : bool :=
  match cs with
  | [] => cov
  | c :: cs => match do_call v c with Some v' => covered_by (covered_after cov v c) v' cs | None => false end
  end.

(** The invariant of the regions without coverage: it holds if it holds for the same marks
    in a space that contains nothing. *)
Definition shaped (v : VirtualSpace) : Prop := wf (set_high v (low v)) /\ low v <= high v <= high_boundary v.
Definition covered (v : VirtualSpace) : Prop :=
  special v = false ->
  Z.min (high v) (lower_high_boundary v) <= lower_high v /\ Z.min (high v) (middle_high_boundary v) <= middle_high v /\ high v <= upper_high v.

Lemma wf_shaped (v : VirtualSpace) : wf v <-> shaped v /\ covered v.
Proof.
  split.
  - intros [Hl Hb Ht Hal Hla H1 H2 H3 Hh Ho Hc]. split; [|done]. split; [|done].
    pose proof (region_in _ _ _ _ H1). pose proof (region_in _ _ _ _ H2). pose proof (region_in _ _ _ _ H3). constructor; cbn; try done; lia.
  - intros [[[Hl Hb Ht Hal Hla H1 H2 H3 _ Ho _] Hh] Hc]. constructor; done.
Qed.

Lemma set_high_id (v : VirtualSpace) (h : Z) : h = high v -> set_high v h = v.
Proof. intros ->. by destruct v. Qed.

(** [expand_by] computes with the sum of [high] and the request only. *)
Lemma expand_by_moved (commit_memory : Z -> Z -> bool) (v : VirtualSpace) (bytes : Z) :
  shaped v -> 0 <= bytes ->
  expand_by commit_memory v bytes =
    let '(ok, v') := expand_by commit_memory (set_high v (low v)) (high v - low v + bytes) in (ok, set_high v' (if ok then high v + bytes else high v)).
Proof.
  intros [Hw Hh] Hb. unfold expand_by. rewrite (wf_uncommitted_size _ Hw). cbn [high_boundary high special set_high lower_high_boundary middle_high_boundary upper_high_boundary lower_alignment middle_alignment upper_alignment lower_high middle_high upper_high].
  assert (Hu : uncommitted_size v = high_boundary v - high v).
  { destruct Hw as [Hl Hbo Ht Hal _ _ _ _ _ _ _]. cbn in *. unfold uncommitted_size, reserved_size, committed_size. rewrite (delta1 (high v)), (delta1 (high_boundary v)) by lia. rewrite umod_id; lia. }
  rewrite Hu. replace (low v + (high v - low v + bytes)) with (high v + bytes) by lia. destruct (Z.ltb_spec (high_boundary v - high v) bytes), (Z.ltb_spec (high_boundary v - low v) (high v - low v + bytes)); try lia; [by destruct v|].
  destruct (special v); [done|]. cbn [set_region_highs set_high lower_high middle_high upper_high high].
  repeat (destruct (_ && negb _); [by destruct v|]). done.
Qed.

Lemma expand_by_shaped (commit_memory : Z -> Z -> bool) (v : VirtualSpace) (bytes : Z) :
  shaped v -> 0 <= bytes ->
  let '(ok, v') := expand_by commit_memory v bytes in
  shaped v' /\ same_range v v' /\ (ok = true -> wf v') /\ (covered v -> covered v').
Proof.
  intros Hs Hb. assert (Hcov : let '(_, v') := expand_by commit_memory v bytes in covered v -> covered v').
  { destruct (expand_by commit_memory v bytes) as [ok v'] eqn:He. intros Hc. pose proof (expand_by_spec commit_memory v bytes (proj2 (wf_shaped v) (conj Hs Hc)) Hb) as Hx. rewrite He in Hx. apply (proj1 (wf_shaped v') (proj1 Hx)). }
  revert Hcov. rewrite (expand_by_moved commit_memory v bytes Hs Hb). destruct Hs as [Hw Hh].
  pose proof (expand_by_spec commit_memory _ (high v - low v + bytes) Hw ltac:(lia)) as Hx. destruct (expand_by _ _ _) as [ok v'] eqn:He.
  destruct Hx as (Hw' & (S1 & S2 & S3 & S4 & S5 & S6) & Hhi & _ & _). cbn in S1, S2, S3, S4, S5, S6, Hhi. intros Hcov.
  assert (Hok : ok = true -> set_high v' (high v + bytes) = v') by (intros ->; apply set_high_id; lia).
  split; [|split; [|split; [|exact Hcov]]].
  - destruct ok; [rewrite Hok by done; apply (proj1 (wf_shaped v') Hw')|]. split; cbn; [|lia].
    change (wf (set_high v' (low v'))). by rewrite set_high_id by lia.
  - destruct ok; split; cbn; done.
  - intros ->. by rewrite Hok.
Qed.

(** *** Shrinking with any answers *)

Section ShrinkAny.
Context (v : VirtualSpace) (size : Z) (Hs : shaped v) (Hsize : 0 <= size <= high v - low v).

(** The marks each region shrinks to. *)
Definition lower_mark : Z := Z.min (lower_high v) (up (Z.max (high v - size) (low_boundary v)) (lower_alignment v)).
Definition middle_mark : Z := Z.min (middle_high v) (up (Z.max (high v - size) (lower_high_boundary v)) (middle_alignment v)).
Definition upper_mark : Z := Z.min (upper_high v) (up (Z.max (high v - size) (middle_high_boundary v)) (upper_alignment v)).

(** [shrink_by] stops at the first region that cannot be released. *)
Lemma shrink_by_cases (uncommit_memory : Z -> Z -> bool) : special v = false ->
  exists v', shrink_by uncommit_memory v size = Some v' /\
    (v' = v \/ v' = set_region_highs v (lower_high v) (middle_high v) upper_mark \/
     v' = set_region_highs v (lower_high v) middle_mark upper_mark \/
     v' = set_high (set_region_highs v lower_mark middle_mark upper_mark) (high v - size)).
Proof using Hs Hsize.
  intros Hsp. destruct Hs as [[Hl Hb Ht (Ha1 & Ha2 & Ha3 & Ha4) Hla H1 H2 H3 _ Ho _] Hh]. cbn in *.
  pose proof (region_in _ _ _ _ H1). pose proof (region_in _ _ _ _ H2). pose proof (region_in _ _ _ _ H3).
  unfold shrink_by. assert (committed_size v = high v - low v) as -> by (apply delta1; lia). destruct (Z.ltb_spec (high v - low v) size); [lia|]. rewrite Hsp.
  destruct (up_spec (Z.max (high v - size) (low_boundary v)) (lower_alignment v) ltac:(lia)) as [_ Hu1].
  destruct (up_spec (Z.max (high v - size) (lower_high_boundary v)) (middle_alignment v) ltac:(lia)) as [_ Hu2].
  destruct (up_spec (Z.max (high v - size) (middle_high_boundary v)) (upper_alignment v) ltac:(lia)) as [_ Hu3].
  cbn [lower_high middle_high upper_high set_region_highs high].
  rewrite !round_to_eq by (done || lia || (rewrite Ha2; done || lia)). rewrite !needs_shrink by lia. fold lower_mark middle_mark upper_mark.
  destruct (_ && negb _); [eexists; split; [done|]; by left|].
  destruct (_ && negb _); [eexists; split; [done|]; right; by left|].
  destruct (_ && negb _); [eexists; split; [done|]; right; right; by left|].
  eexists. split; [done|]. right; right; by right.
Qed.

(** The regions stay well formed wherever it stops, and the space covered if it was, unless
    [high] stays up while marks move. *)
Lemma marks_shaped (l m u h : Z) :
  (l, m, u) = (lower_high v, middle_high v, upper_mark) \/ (l, m, u) = (lower_high v, middle_mark, upper_mark) \/ (l, m, u) = (lower_mark, middle_mark, upper_mark) ->
  low v <= h <= high_boundary v -> shaped (set_high (set_region_highs v l m u) h) /\ (covered v -> h = high v - size -> covered (set_high (set_region_highs v l m u) h)).
Proof using Hs Hsize.
  intros Hc Hh'. destruct Hs as [[Hl Hb Ht Hal Hla H1 H2 H3 _ Ho _] Hh]. cbn in *. destruct Hla as (Hla1 & Hla2 & Hla3).
  assert (Hp1 : 0 < lower_alignment v) by lia. assert (Hp2 : 0 < middle_alignment v) by lia. assert (Hp3 : 0 < upper_alignment v) by lia.
  pose proof H1 as [I1 A1 B1]. pose proof H2 as [I2 A2 B2]. pose proof H3 as [I3 A3 B3].
  destruct (up_spec (Z.max (high v - size) (low_boundary v)) (lower_alignment v) Hp1) as [D1 Hu1].
  destruct (up_spec (Z.max (high v - size) (lower_high_boundary v)) (middle_alignment v) Hp2) as [D2 Hu2].
  destruct (up_spec (Z.max (high v - size) (middle_high_boundary v)) (upper_alignment v) Hp3) as [D3 Hu3].
  assert (E2 : high v - size <= lower_high_boundary v -> middle_mark = lower_high_boundary v).
  { intros Hle. unfold middle_mark. replace (Z.max (high v - size) (lower_high_boundary v)) with (lower_high_boundary v) by lia. rewrite up_id by done. lia. }
  assert (E3 : high v - size <= middle_high_boundary v -> upper_mark = middle_high_boundary v).
  { intros Hle. unfold upper_mark. replace (Z.max (high v - size) (middle_high_boundary v)) with (middle_high_boundary v) by lia. rewrite up_id by done. lia. }
  assert (R1 : region_ok (low_boundary v) (lower_high_boundary v) (lower_alignment v) lower_mark).
  { split; [unfold lower_mark; lia| |done]. unfold lower_mark. by destruct (Z.min_spec (lower_high v) (up (Z.max (high v - size) (low_boundary v)) (lower_alignment v))) as [[_ ->]|[_ ->]]. }
  assert (R2 : region_ok (lower_high_boundary v) (middle_high_boundary v) (middle_alignment v) middle_mark).
  { split; [unfold middle_mark; lia| |done]. unfold middle_mark. by destruct (Z.min_spec (middle_high v) (up (Z.max (high v - size) (lower_high_boundary v)) (middle_alignment v))) as [[_ ->]|[_ ->]]. }
  assert (R3 : region_ok (middle_high_boundary v) (upper_high_boundary v) (upper_alignment v) upper_mark).
  { split; [unfold upper_mark; lia| |done]. unfold upper_mark. by destruct (Z.min_spec (upper_high v) (up (Z.max (high v - size) (middle_high_boundary v)) (upper_alignment v))) as [[_ ->]|[_ ->]]. }
  pose proof (region_in _ _ _ _ R1). pose proof (region_in _ _ _ _ R2). pose proof (region_in _ _ _ _ R3).
  assert (M1 : lower_high_boundary v < high v - size -> lower_mark = lower_high v) by (unfold lower_mark; lia).
  assert (M2 : middle_high_boundary v < high v - size -> middle_mark = middle_high v) by (unfold middle_mark; lia).
  assert (L1 : Z.min (lower_high v) (high v - size) <= lower_mark <= lower_high v) by (unfold lower_mark; lia).
  assert (L2 : Z.min (middle_high v) (high v - size) <= middle_mark <= middle_high v) by (unfold middle_mark; lia).
  assert (L3 : Z.min (upper_high v) (high v - size) <= upper_mark <= upper_high v) by (unfold upper_mark; lia).
  unfold shaped, covered. destruct Hc as [[= -> -> ->]|[[= -> -> ->]|[= -> -> ->]]]; cbn.
  all: split; [split; [constructor; cbn; done || lia|done]|intros Hcov -> Hsp; specialize (Hcov Hsp); lia].
Qed.
End ShrinkAny.

Lemma shrink_by_shaped (uncommit_memory : Z -> Z -> bool) (v v' : VirtualSpace) (size : Z) :
  shaped v -> 0 <= size -> shrink_by uncommit_memory v size = Some v' ->
  shaped v' /\ same_range v v' /\ (covered v -> (high v' =? high v - size) || same_marks v v' = true -> covered v').
Proof.
  intros Hs Hsize He. pose proof Hs as [[Hl Hb Ht Hal _ _ _ _ _ _ _] Hh]. cbn in Hl, Hb, Ht, Hal.
  assert (Hle : size <= high v - low v).
  { unfold shrink_by in He. assert (committed_size v = high v - low v) as Hcs by (apply delta1; lia). rewrite Hcs in He. destruct (Z.ltb_spec (high v - low v) size); [done|lia]. }
  destruct (special v) eqn:Hsp.
  { unfold shrink_by in He. rewrite Hsp in He. destruct (_ <? size); [done|]. injection He as <-. split; [split; [apply Hs|cbn; lia]|]. split; [done|]. intros _ _ Hns. cbn in Hns. congruence. }
  destruct (shrink_by_cases v size Hs (conj Hsize Hle) uncommit_memory Hsp) as (v1 & He1 & Hcase). rewrite He in He1. injection He1 as <-.
  pose proof (marks_shaped v size Hs (conj Hsize Hle)) as Hm.
  assert (Hkeep : forall l m u, set_region_highs v l m u = set_high (set_region_highs v l m u) (high v)) by (intros; by rewrite set_high_id).
  assert (Hzero : forall w, high w = high v -> (high w =? high v - size) || same_marks v w = true -> high v = high v - size \/ same_marks v w = true).
  { intros w Hw [Hx%Z.eqb_eq|Hx]%orb_true_iff; [left; lia|by right]. }
  assert (Hsame : forall w, same_range v w -> high w = high v -> same_marks v w = true -> covered v -> covered w).
  { intros w (S1 & S2 & S3 & S4 & S5 & S6) Hw Hx Hc Hns. unfold same_marks in Hx. rewrite !andb_true_iff, !Z.eqb_eq in Hx. rewrite Hw, S4, S5, S6 in *. specialize (Hc Hns). lia. }
  destruct Hcase as [->|[->|[->| ->]]]; [done| | |].
  - destruct (Hm (lower_high v) (middle_high v) (upper_mark v size) (high v) ltac:(tauto) Hh) as [Q1 Q2]. rewrite <- Hkeep in Q1, Q2.
    split; [done|]. split; [done|]. intros Hc [Hx|Hx]%Hzero; [by apply Q2|by apply Hsame|done].
  - destruct (Hm (lower_high v) (middle_mark v size) (upper_mark v size) (high v) ltac:(tauto) Hh) as [Q1 Q2]. rewrite <- Hkeep in Q1, Q2.
    split; [done|]. split; [done|]. intros Hc [Hx|Hx]%Hzero; [by apply Q2|by apply Hsame|done].
  - destruct (Hm (lower_mark v size) (middle_mark v size) (upper_mark v size) (high v - size)) as [Q1 Q2]; [tauto|lia|]. split; [done|]. split; [done|]. intros Hc _. by apply Q2.
Qed.

Lemma call_shaped (cov : bool) (v v' : VirtualSpace) (c : SpaceCall) :
  shaped v -> 0 <= call_bytes c -> (cov = true -> covered v) -> do_call v c = Some v' ->
  shaped v' /\ same_range v v' /\ (covered_after cov v c = true -> covered v').
Proof.
  intros Hs Hb Hc He. destruct c as [commit_memory n|uncommit_memory n]; cbn [call_bytes do_call covered_after] in *.
  - injection He as <-. pose proof (expand_by_shaped commit_memory v n Hs Hb) as Hx. destruct (expand_by commit_memory v n) as [ok v']. destruct Hx as (X1 & X2 & X3 & X4). cbn [fst snd].
    split; [done|]. split; [done|]. intros [Hk|Hk]%orb_true_iff; [auto|exact (proj2 (proj1 (wf_shaped v') (X3 Hk)))].
  - rewrite He. destruct (shrink_by_shaped uncommit_memory v v' n Hs Hb He) as (X1 & X2 & X3). split; [done|]. split; [done|]. intros [? ?]%andb_true_iff. auto.
Qed.

(** C31: after any sequence of [expand_by] and [shrink_by] calls on an initialized space,
    whatever the operating system answers to the requests to commit and to uncommit, the
    marks of the three regions are aligned, lie in their regions and fill them in address
    order.  In a space that is not special, every byte between [low] and [high] is
    committed, unless a [shrink_by] gave up after it had released a region and no
    [expand_by] has succeeded since. *)
Theorem virtual_space_committed (commit_memory : Z -> Z -> bool) (rs : ReservedSpace)
    (page csize granularity a : Z) (cs : list SpaceCall) (v : VirtualSpace) :
  let v0 := snd (initialize_with_granularity commit_memory page rs csize granularity) in
  reservation_ok rs page granularity -> 0 <= csize -> Forall (fun c => 0 <= call_bytes c) cs -> do_calls v0 cs = Some v ->
  shaped v /\ (special v = false -> covered_by true v0 cs = true -> contains v a = true -> committed v a).
Proof.
  intros v0 Hr Hc Hcs He. pose proof (initialize_spec commit_memory rs page csize granularity Hr Hc) as Hi.
  assert (wf v0) as [Hs Hcov]%wf_shaped by (subst v0; destruct (initialize_with_granularity _ _ _ _ _); apply Hi). clearbody v0. clear Hi.
  assert (Hgen : shaped v /\ (covered_by true v0 cs = true -> covered v)).
  { assert (true = true -> covered v0) as Hcov' by done. revert He Hs Hcov'. generalize true at 1 3. clear Hcov. revert v0.
    induction Hcs as [|c cs Hb _ IH]; intros v0 cov He Hs Hcov; cbn [do_calls covered_by] in *; [injection He as <-; auto|].
    destruct (do_call v0 c) as [v1|] eqn:H1; [|done]. cbn [mbind option_bind] in He. destruct (call_shaped cov v0 v1 c Hs Hb Hcov H1) as (X1 & _ & X2). by apply (IH v1). }
  destruct Hgen as [H1 H2]. split; [done|]. intros Hsp Hk. apply wf_committed; [|done]. apply wf_shaped. auto.
Qed.

(** A 1 MB space at an unaligned base with 64 KB large pages, and its successive
    states. *)
Definition sample_rs : ReservedSpace := mkReserved 0x7000 0x100000 false true.
Definition sample_space : VirtualSpace :=
  snd (initialize_with_granularity (fun _ _ => true) 0x1000 sample_rs 0x8000 0x10000).

Lemma sample_rs_ok : reservation_ok sample_rs 0x1000 0x10000.
Proof.
  split; cbn; try lia; [by split | by exists 0x10 | split; [by exists 7 | by exists 0x100]].
Qed.

Lemma sample_space_wf : wf sample_space.
Proof.
  pose proof (initialize_spec (fun _ _ => true) _ _ 0x8000 _ sample_rs_ok ltac:(lia)) as Hi.
  unfold sample_space. destruct (initialize_with_granularity _ _ _ _ _). apply Hi.
Qed.

(** The space grows to its end, a [shrink_by] stops after it has released the upper region,
    and the next [expand_by] commits it again. *)
Definition sample_calls : list SpaceCall :=
  [Expand (fun _ _ => true) 0xf8000; Shrink (fun a _ => 0x100000 <=? a) 0x40000; Expand (fun _ _ => true) 0].

Lemma virtual_space_committed_witness :
  covered_by true sample_space (take 2 sample_calls) = false /\ exists v, do_calls sample_space sample_calls = Some v /\ committed v 0x106fff.
Proof.
  split; [reflexivity|].
  destruct (do_calls sample_space sample_calls) as [v|] eqn:He; [|vm_compute in He; discriminate]. exists v. split; [reflexivity|].
  assert (Hv : special v = false /\ contains v 0x106fff = true) by (vm_compute in He; injection He as <-; split; reflexivity).
  apply (virtual_space_committed (fun _ _ => true) sample_rs 0x1000 0x8000 0x10000 0x106fff sample_calls v);
    [exact sample_rs_ok|lia|repeat constructor; cbn; lia|exact He|apply Hv|reflexivity|apply Hv].
Defined.

(** C32: [expand_by] keeps the invariant, never uncommits a byte, moves [high] by
    exactly [bytes] when it returns true and not at all when it returns false;
    when the operating system grants every request it returns true exactly if
    the new [high] stays within the reservation. *)
Theorem expand_by_correct (commit_memory : Z -> Z -> bool) (v : VirtualSpace) (bytes : Z) :
  wf v -> 0 <= bytes ->
  let '(ok, v') := expand_by commit_memory v bytes in
  wf v' /\ same_range v v' /\
  committed_size v' = committed_size v + (if ok then bytes else 0) /\
  (forall a, committed v a -> committed v' a) /\
  ((forall a n, commit_memory a n = true) -> ok = (high v + bytes <=? high_boundary v)).
Proof.
  intros Hv Hb. pose proof (expand_by_spec commit_memory v bytes Hv Hb) as Hx.
  destruct (expand_by _ _ _) as [ok v']. destruct Hx as (Hw & Hs & Hh & Hm & Hok).
  rewrite !wf_committed_size by done. destruct Hs as (S1 & S2 & S3 & S4).
  split; [done|]. split; [done|]. split; [|done]. rewrite Hh, S3. destruct ok; lia.
Qed.

Lemma expand_by_correct_witness :
  committed_size (snd (expand_by (fun a _ => a <? 0x10000) sample_space 0x20000)) =
    committed_size sample_space + 0.
Proof.
  pose proof (expand_by_correct (fun a _ => a <? 0x10000) sample_space 0x20000) as Hx.
  pose proof sample_space_wf as Hw.
  specialize (Hx Hw ltac:(lia)).
  destruct (expand_by (fun a _ => a <? 0x10000) sample_space 0x20000) as [ok v'] eqn:He.
  assert (ok = false) as -> by (assert (Hf : fst (expand_by (fun a _ => a <? 0x10000) sample_space 0x20000) = false) by reflexivity; rewrite He in Hf; exact Hf).
  destruct Hx as (_ & _ & Hx & _). exact Hx.
Defined.

(** When uncommitting works, [shrink_by] moves [high] down by exactly
    [size], keeps the invariant (so no byte below the new [high] is uncommitted)
    and leaves the reservation alone; it ends in [fatal] exactly when asked for
    more than is committed. *)
Lemma shrink_by_correct (v : VirtualSpace) (size : Z) :
  wf v -> 0 <= size ->
  match shrink_by (fun _ _ => true) v size with
  | None => committed_size v < size
  | Some v' => size <= committed_size v /\ wf v' /\ same_range v v' /\
               committed_size v' = committed_size v - size
  end.
Proof.
  intros Hv Hs. pose proof (shrink_by_spec (fun _ _ => true) v size Hv Hs (fun _ _ => eq_refl)) as Hx.
  destruct (shrink_by _ v size) as [v'|]; [|done]. destruct Hx as (Hw & Hr & Hh).
  rewrite !wf_committed_size by done. destruct Hr as (S1 & S2 & S3 & S4).
  pose proof (wf_high v' Hw). split; [lia|]. split; [done|]. split; [done|]. lia.
Qed.

Lemma shrink_by_correct_witness :
  wf sample_space /\ exists v', shrink_by (fun _ _ => true) sample_space 0x3000 = Some v' /\ wf v'.
Proof.
  pose proof sample_space_wf as Hw.
  split; [exact Hw|].
  pose proof (shrink_by_correct sample_space 0x3000 Hw ltac:(lia)) as Hx.
  destruct (shrink_by (fun _ _ => true) sample_space 0x3000) as [v'|] eqn:He; [|exfalso; revert He; vm_compute; discriminate].
  exists v'. split; [reflexivity | apply Hx].
Defined.

(** When uncommitting the middle region fails after the upper region was
    given back, [shrink_by] returns without lowering [high]: the space then
    contains bytes that are not committed. *)
Lemma shrink_by_partial_failure :
  exists (uncommit_memory : Z -> Z -> bool) (v v' : VirtualSpace) (size a : Z),
    wf v /\ special v = false /\
    shrink_by uncommit_memory v size = Some v' /\
    contains v' a = true /\ ~ committed v' a.
Proof.
  set (v := snd (expand_by (fun _ _ => true) sample_space 0xf8000)).
  assert (wf v) as Hv.
  { pose proof (expand_by_spec (fun _ _ => true) sample_space 0xf8000) as Hx.
    subst v. destruct (expand_by _ _ _). apply Hx; [exact sample_space_wf | lia]. }
  exists (fun a _ => 0x100000 <=? a), v. eexists. exists 0x40000, 0x106fff.
  split; [done|]. split; [done|]. split; [vm_compute; reflexivity|].
  split; [reflexivity|]. unfold committed. cbn. lia.
Qed.
