(* ===== verification/CodeHeap.v ===== *)
(** The code heap of memory/heap.hpp and memory/heap.cpp: the allocator under the
    code cache.  The heap is an array of segments; a block is a run of segments
    that starts with a header.  A byte per segment (the segment map) leads from
    any address inside a block back to its header, and the free blocks are linked
    in address order and coalesced.

    Pointers are integers (0 is [NULL]).  [blocks] is the memory the block headers
    live in, [segmap_bytes] the contents of the segment map; reading a cell that
    was never written has no result ([None]).  The operating system is a record
    of answers. *)

From S2P Require Import Prelude GlobalDefinitions VirtualSpace.

(** ** Definitions *)

(** *** Blocks

    The header of a [HeapBlock], with the [_link] a [FreeBlock] adds. *)
Record HeapBlock := mkBlock { length : Z; used : bool; link : Z }.

Definition sizeof_HeapBlock : Z := 16.
Definition sizeof_FreeBlock : Z := 24.

Definition header_size : Z := sizeof_HeapBlock.
Definition allocated_space (b : Z) : Z := b + sizeof_HeapBlock.
Definition free (b : HeapBlock) : bool := negb (used b).
Definition set_used (b : HeapBlock) : HeapBlock := mkBlock (length b) true (link b).
Definition set_free (b : HeapBlock) : HeapBlock := mkBlock (length b) false (link b).
Definition set_length (b : HeapBlock) (l : Z) : HeapBlock := mkBlock l (used b) (link b).
Definition set_link (b : HeapBlock) (p : Z) : HeapBlock := mkBlock (length b) (used b) p.

(** *** The heap *)

Record CodeHeap := mkHeap {
  memory : VirtualSpace;
  segmap : VirtualSpace;
  segmap_bytes : gmap Z Z;
  blocks : gmap Z HeapBlock;
  number_of_committed_segments : Z;
  number_of_reserved_segments : Z;
  segment_size : Z;
  log2_segment_size : Z;
  next_segment : Z;
  freelist : Z;
  freelist_segments : Z }.

Definition new_heap : CodeHeap := mkHeap empty_space empty_space ∅ ∅ 0 0 0 0 0 0 0.

(** The product flags the allocator reads. *)
Record Flags := mkFlags { CodeCacheMinBlockLength : Z; CodeCacheMinimumFreeSpace : Z }.

(** Field updates. *)
Definition set_segmap_bytes (h : CodeHeap) (m : gmap Z Z) : CodeHeap :=
  mkHeap (memory h) (segmap h) m (blocks h) (number_of_committed_segments h)
    (number_of_reserved_segments h) (segment_size h) (log2_segment_size h) (next_segment h)
    (freelist h) (freelist_segments h).
Definition set_block (h : CodeHeap) (p : Z) (b : HeapBlock) : CodeHeap :=
  mkHeap (memory h) (segmap h) (segmap_bytes h) (<[p := b]> (blocks h)) (number_of_committed_segments h)
    (number_of_reserved_segments h) (segment_size h) (log2_segment_size h) (next_segment h)
    (freelist h) (freelist_segments h).
Definition set_next_segment (h : CodeHeap) (n : Z) : CodeHeap :=
  mkHeap (memory h) (segmap h) (segmap_bytes h) (blocks h) (number_of_committed_segments h)
    (number_of_reserved_segments h) (segment_size h) (log2_segment_size h) n
    (freelist h) (freelist_segments h).
Definition set_freelist (h : CodeHeap) (p : Z) : CodeHeap :=
  mkHeap (memory h) (segmap h) (segmap_bytes h) (blocks h) (number_of_committed_segments h)
    (number_of_reserved_segments h) (segment_size h) (log2_segment_size h) (next_segment h)
    p (freelist_segments h).
Definition set_freelist_segments (h : CodeHeap) (n : Z) : CodeHeap :=
  mkHeap (memory h) (segmap h) (segmap_bytes h) (blocks h) (number_of_committed_segments h)
    (number_of_reserved_segments h) (segment_size h) (log2_segment_size h) (next_segment h)
    (freelist h) n.
Definition set_memory (h : CodeHeap) (v : VirtualSpace) (committed_segments : Z) : CodeHeap :=
  mkHeap v (segmap h) (segmap_bytes h) (blocks h) committed_segments
    (number_of_reserved_segments h) (segment_size h) (log2_segment_size h) (next_segment h)
    (freelist h) (freelist_segments h).
Definition set_segmap (h : CodeHeap) (v : VirtualSpace) : CodeHeap :=
  mkHeap (memory h) v (segmap_bytes h) (blocks h) (number_of_committed_segments h)
    (number_of_reserved_segments h) (segment_size h) (log2_segment_size h) (next_segment h)
    (freelist h) (freelist_segments h).

(** *** Segments and addresses *)

Definition size_to_segments (h : CodeHeap) (size : Z) : Z :=
  Z.shiftr (u64 (size + segment_size h - 1)) (log2_segment_size h).
Definition segments_to_size (h : CodeHeap) (number_of_segments : Z) : Z :=
  u64 (Z.shiftl number_of_segments (log2_segment_size h)).
Definition segment_for (h : CodeHeap) (p : Z) : Z :=
  Z.shiftr (p - low (memory h)) (log2_segment_size h).
Definition block_at (h : CodeHeap) (i : Z) : Z :=
  low (memory h) + Z.shiftl i (log2_segment_size h).

Definition heap_contains (h : CodeHeap) (p : Z) : bool :=
  (low_boundary (memory h) <=? p) && (p <? high (memory h)).

(** *** Segment map *)

Fixpoint mark_free_loop (n : nat) (p : Z) (m : gmap Z Z) : gmap Z Z :=
  match n with
  | O => m
  | S n' => mark_free_loop n' (p + 1) (<[p := 0xFF]> m)
  end.

Definition mark_segmap_as_free (h : CodeHeap) (beg fin : Z) : CodeHeap :=
  set_segmap_bytes h (mark_free_loop (Z.to_nat (fin - beg)) beg (segmap_bytes h)).

Fixpoint mark_used_loop (n : nat) (p i : Z) (m : gmap Z Z) : gmap Z Z :=
  match n with
  | O => m
  | S n' =>
      let m := <[p := u8 i]> m in
      let i := i + 1 in
      let i := if i =? 0xFF then 1 else i in
      mark_used_loop n' (p + 1) i m
  end.

Definition mark_segmap_as_used (h : CodeHeap) (beg fin : Z) : CodeHeap :=
  set_segmap_bytes h (mark_used_loop (Z.to_nat (fin - beg)) beg 0 (segmap_bytes h)).

(** *** Creation and growth *)

(** What the heap asks of the operating system layer. *)
Record OS := mkOS {
  vm_page_size : Z;
  vm_allocation_granularity : Z;
  can_execute_large_page_memory : bool;
  page_size_for_region_unaligned : Z -> Z -> Z;
  reserve_code_space : Z -> Z -> ReservedSpace;
  reserve_space : Z -> ReservedSpace;
  commit_memory : Z -> Z -> bool }.

Definition align_to_page_size (os : OS) (size : Z) : Z :=
  let alignment := vm_page_size os in
  Z.land (u64 (u64 (size + alignment) - 1)) (u64 (Z.lnot (u64 (alignment - 1)))).

Definition space_initialize (os : OS) (rs : ReservedSpace) (csize : Z) : bool * VirtualSpace :=
  initialize_with_granularity (commit_memory os) (vm_page_size os) rs csize
    (page_size_for_region_unaligned os (rs_size rs) 1).

Definition clear (h : CodeHeap) : CodeHeap :=
  let h := set_next_segment h 0 in
  mark_segmap_as_free h 0 (number_of_committed_segments h).

Definition reserve (os : OS) (h : CodeHeap) (reserved_size committed_size seg_size : Z)
  : option (bool * CodeHeap) :=
  log2 ← exact_log2 seg_size;
  let page_size :=
    if can_execute_large_page_memory os
    then page_size_for_region_unaligned os reserved_size 8 else vm_page_size os in
  let granularity := vm_allocation_granularity os in
  let r_align := Z.max page_size granularity in
  let r_size := align_size_up reserved_size r_align in
  let c_size := align_size_up committed_size page_size in
  let rs_align := if page_size =? vm_page_size os then 0 else Z.max page_size granularity in
  let rs := reserve_code_space os r_size rs_align in
  let '(ok, mem) := space_initialize os rs c_size in
  let h := mkHeap mem (segmap h) (segmap_bytes h) (blocks h) (number_of_committed_segments h)
             (number_of_reserved_segments h) seg_size log2 (next_segment h)
             (freelist h) (freelist_segments h) in
  if negb ok then Some (false, h)
  else
    let committed_segments := size_to_segments h (VirtualSpace.committed_size mem) in
    let reserved_segments := size_to_segments h (VirtualSpace.reserved_size mem) in
    let reserved_segments_alignment := Z.max (vm_page_size os) granularity in
    let reserved_segments_size := align_size_up reserved_segments reserved_segments_alignment in
    let committed_segments_size := align_to_page_size os committed_segments in
    let '(ok, smap) := space_initialize os (reserve_space os reserved_segments_size) committed_segments_size in
    let h := mkHeap mem smap (segmap_bytes h) (blocks h) committed_segments reserved_segments
               seg_size log2 (next_segment h) (freelist h) (freelist_segments h) in
    if negb ok then Some (false, h) else Some (true, clear h).

Definition heap_expand_by (os : OS) (h : CodeHeap) (size : Z) : bool * CodeHeap :=
  let csize := VirtualSpace.committed_size (memory h) in
  let dm := u64 (align_to_page_size os (u64 (csize + size)) - csize) in
  if 0 <? dm then
    let '(ok, mem) := expand_by (commit_memory os) (memory h) dm in
    if negb ok then (false, set_memory h mem (number_of_committed_segments h))
    else
      let i := number_of_committed_segments h in
      let h := set_memory h mem (size_to_segments h (VirtualSpace.committed_size mem)) in
      let ds := u64 (align_to_page_size os (number_of_committed_segments h) -
                     VirtualSpace.committed_size (segmap h)) in
      if 0 <? ds then
        let '(ok, smap) := expand_by (commit_memory os) (segmap h) ds in
        if negb ok then (false, set_segmap h smap)
        else (true, mark_segmap_as_free (set_segmap h smap) i (number_of_committed_segments h))
      else (true, mark_segmap_as_free h i (number_of_committed_segments h))
  else (true, h).

(** *** Queries *)

Definition alignment_unit (h : CodeHeap) : Z := segment_size h.
Definition alignment_offset (h : CodeHeap) : Z := Z.land sizeof_HeapBlock (segment_size h - 1).

Definition capacity (h : CodeHeap) : Z := VirtualSpace.committed_size (memory h).
Definition max_capacity (h : CodeHeap) : Z := VirtualSpace.reserved_size (memory h).
Definition allocated_capacity (h : CodeHeap) : Z :=
  segments_to_size h (u64 (next_segment h - freelist_segments h)).
Definition unallocated_capacity (h : CodeHeap) : Z := u64 (max_capacity h - allocated_capacity h).
Definition heap_unallocated_capacity (h : CodeHeap) : Z :=
  segments_to_size h (u64 (number_of_reserved_segments h - next_segment h)).

(** [while (b[i] > 0) i -= (int)b[i];] *)
Fixpoint find_start_loop (fuel : nat) (m : gmap Z Z) (i : Z) : option Z :=
  match fuel with
  | O => None
  | S fuel' =>
      b ← m !! i;
      if 0 <? b then find_start_loop fuel' m (i - b) else Some i
  end.

Definition find_start (h : CodeHeap) (p : Z) : option Z :=
  if negb (heap_contains h p) then Some 0
  else
    let i := segment_for h p in
    b ← segmap_bytes h !! i;
    if b =? 0xFF then Some 0
    else
      i ← find_start_loop (S (Z.to_nat i)) (segmap_bytes h) i;
      hb ← blocks h !! block_at h i;
      if free hb then Some 0 else Some (allocated_space (block_at h i)).

Definition first_block (h : CodeHeap) : Z := if 0 <? next_segment h then block_at h 0 else 0.

Definition block_start (h : CodeHeap) (q : Z) : option Z :=
  b ← find_start h q; Some (if b =? 0 then 0 else b - sizeof_HeapBlock).

Definition next_block (h : CodeHeap) (b : Z) : option Z :=
  if b =? 0 then Some 0
  else
    hb ← blocks h !! b;
    let i := segment_for h b + length hb in
    Some (if i <? next_segment h then block_at h i else 0).

Definition next_free (h : CodeHeap) (b : Z) : option Z :=
  b ← (if b =? 0 then Some 0
       else hb ← blocks h !! b; if free hb then next_block h b else Some b);
  Some (if b =? 0 then 0 else allocated_space b).

Definition first (h : CodeHeap) : option Z := next_free h (first_block h).
Definition next (h : CodeHeap) (p : Z) : option Z :=
  b ← block_start h p; b ← next_block h b; next_free h b.

(** *** Free list *)

Definition following_block (h : CodeHeap) (b : Z) : option Z :=
  hb ← blocks h !! b; Some (b + segment_size h * length hb).

Definition merge_right (h : CodeHeap) (a : Z) : option CodeHeap :=
  following ← following_block h a;
  ha ← blocks h !! a;
  if following =? link ha then
    hl ← blocks h !! link ha;
    let ha := set_length ha (length ha + length hl) in
    let ha := set_link ha (link hl) in
    let h := set_block h a ha in
    let beg := segment_for h a in
    Some (mark_segmap_as_used h beg (beg + length ha))
  else Some h.

Definition insert_after (h : CodeHeap) (a b : Z) : option CodeHeap :=
  ha ← blocks h !! a;
  hb ← blocks h !! b;
  let h := set_block h b (set_link hb (link ha)) in
  let h := set_block h a (set_link ha b) in
  h ← merge_right h b;
  merge_right h a.

(** The scan for the insertion point: [(prev, cur)] when the loop ends. *)
Fixpoint freelist_scan (fuel : nat) (h : CodeHeap) (b prev cur : Z) : option (Z * Z) :=
  match fuel with
  | O => None
  | S fuel' =>
      if negb (cur =? 0) && (cur <? b) then
        hc ← blocks h !! cur; freelist_scan fuel' h b cur (link hc)
      else Some (prev, cur)
  end.

Definition add_to_freelist (h : CodeHeap) (b : Z) : option CodeHeap :=
  hb ← blocks h !! b;
  let h := set_freelist_segments h (u64 (freelist_segments h + length hb)) in
  let hb := set_free hb in
  let h := set_block h b hb in
  if freelist h =? 0 then
    let h := set_freelist h b in
    Some (set_block h b (set_link hb 0))
  else
    '(prev, _) ← freelist_scan (S (size (blocks h))) h b 0 (freelist h);
    if prev =? 0 then
      let h := set_block h b (set_link hb (freelist h)) in
      let h := set_freelist h b in
      merge_right h b
    else insert_after h prev b.

Section WithFlags.
Context (fl : Flags).

(** The best-fit scan; the state is (best_block, best_prev, best_length), with 0
    for a [NULL] best block. *)
Fixpoint search_loop (fuel : nat) (h : CodeHeap) (len : Z) (is_critical : bool)
    (prev cur : Z) (best : Z * Z * Z) : option (Z * Z * Z) :=
  match fuel with
  | O => None
  | S fuel' =>
      if cur =? 0 then Some best
      else
        hc ← blocks h !! cur;
        let l := length hc in
        let '(best_block, best_prev, best_length) := best in
        if (len <=? l) && ((best_block =? 0) || (l <? best_length)) then
          if negb is_critical &&
             (u64 (high_boundary (memory h) - CodeCacheMinimumFreeSpace fl) <? u64 (cur + len))
          then Some best
          else search_loop fuel' h len is_critical cur (link hc) (cur, prev, l)
        else search_loop fuel' h len is_critical cur (link hc) best
  end.

(** Returns the block (0 for [NULL]) and the heap. *)
Definition search_freelist (h : CodeHeap) (len : Z) (is_critical : bool) : option (Z * CodeHeap) :=
  '(best_block, best_prev, best_length) ←
     search_loop (S (size (blocks h))) h len is_critical 0 (freelist h) (0, 0, 0);
  if best_block =? 0 then Some (0, h)
  else
    hb ← blocks h !! best_block;
    if best_length <? u64 (len + CodeCacheMinBlockLength fl) then
      let len := best_length in
      h ← (if best_prev =? 0 then
             hf ← blocks h !! freelist h; Some (set_freelist h (link hf))
           else
             hp ← blocks h !! best_prev; Some (set_block h best_prev (set_link hp (link hb))));
      hb ← blocks h !! best_block;
      let h := set_block h best_block (set_used hb) in
      Some (best_block, set_freelist_segments h (u64 (freelist_segments h - len)))
    else
      let h := set_block h best_block (set_length hb (best_length - len)) in
      new_block ← following_block h best_block;
      let beg := segment_for h new_block in
      let h := mark_segmap_as_used h beg (beg + len) in
      (* the length and the used bit are written over whatever the memory holds *)
      let nb := mkBlock len true (from_option link 0 (blocks h !! new_block)) in
      let h := set_block h new_block nb in
      Some (new_block, set_freelist_segments h (u64 (freelist_segments h - len))).

(** *** Allocation *)

Definition allocate (h : CodeHeap) (instance_size : Z) (is_critical : bool) : option (Z * CodeHeap) :=
  let number_of_segments := size_to_segments h (u64 (instance_size + sizeof_HeapBlock)) in
  '(block, h) ← search_freelist h number_of_segments is_critical;
  if negb (block =? 0) then Some (allocated_space block, h)
  else
    let number_of_segments :=
      if number_of_segments <? CodeCacheMinBlockLength fl
      then CodeCacheMinBlockLength fl else number_of_segments in
    if negb is_critical &&
       (u64 (heap_unallocated_capacity h - CodeCacheMinimumFreeSpace fl) <?
        segments_to_size h number_of_segments)
    then Some (0, h)
    else if u64 (next_segment h + number_of_segments) <=? number_of_committed_segments h then
      let h := mark_segmap_as_used h (next_segment h) (next_segment h + number_of_segments) in
      let b := block_at h (next_segment h) in
      let h := set_block h b (mkBlock number_of_segments true
                                (from_option link 0 (blocks h !! b))) in
      Some (allocated_space b, set_next_segment h (next_segment h + number_of_segments))
    else Some (0, h).
End WithFlags.

Definition deallocate (h : CodeHeap) (p : Z) : option CodeHeap :=
  add_to_freelist h (p - sizeof_HeapBlock).

(** ** Layout

    The ghost state of the proofs: the blocks of the heap in address order, each
    with its first segment, its length in segments and its used bit. *)
Record seg := mkSeg { s_start : Z; s_len : Z; s_used : bool }.

(** [bl] fills the segments from [s] to [e] without gaps. *)
Fixpoint contig (s : Z) (bl : list seg) (e : Z) : Prop :=
  match bl with
  | [] => s = e
  | b :: bl => s_start b = s /\ 0 < s_len b /\ contig (s + s_len b) bl e
  end.

Lemma contig_app (bl1 bl2 : list seg) (s e : Z) :
  contig s (bl1 ++ bl2) e <-> exists m, contig s bl1 m /\ contig m bl2 e.
Proof.
  revert s. induction bl1 as [|b bl1 IH]; intros s; cbn.
  - split; [intros H; by exists s | by intros (m & -> & H)].
  - rewrite IH. naive_solver.
Qed.

Lemma contig_le (bl : list seg) (s e : Z) : contig s bl e -> s <= e.
Proof.
  revert s. induction bl as [|b bl IH]; intros s; cbn; [lia|].
  intros (_ & Hl & H). apply IH in H. lia.
Qed.

Lemma contig_in (bl : list seg) (s e : Z) (b : seg) :
  contig s bl e -> b ∈ bl -> s <= s_start b /\ 0 < s_len b /\ s_start b + s_len b <= e.
Proof.
  revert s. induction bl as [|b' bl IH]; intros s; [intros _ []%not_elem_of_nil|].
  cbn. intros (Hs & Hl & Hc) [-> | Hin]%elem_of_cons.
  - apply contig_le in Hc. lia.
  - specialize (IH _ Hc Hin). lia.
Qed.

(** The segment of a position in the layout: every position below the end lies
    in exactly one block. *)
Lemma contig_locate (bl : list seg) (s e i : Z) :
  contig s bl e -> s <= i < e -> exists b, b ∈ bl /\ s_start b <= i < s_start b + s_len b.
Proof.
  revert s. induction bl as [|b bl IH]; intros s; cbn; [lia|].
  intros (Hs & Hl & Hc) Hi. destruct (Z.lt_ge_cases i (s + s_len b)).
  - exists b. split; [constructor | lia].
  - destruct (IH _ Hc) as (b' & Hin & Hb); [lia|]. exists b'. split; [by constructor | done].
Qed.

Lemma contig_unique (bl : list seg) (s e i : Z) (b c : seg) :
  contig s bl e -> b ∈ bl -> c ∈ bl ->
  s_start b <= i < s_start b + s_len b -> s_start c <= i < s_start c + s_len c -> b = c.
Proof.
  revert s. induction bl as [|d bl IH]; intros s; [intros _ []%not_elem_of_nil|].
  cbn. intros (Hs & Hl & Hc) [-> |Hb]%elem_of_cons [-> |Hb']%elem_of_cons Hib Hic; [done | | |by apply (IH _ Hc)].
  - pose proof (contig_in _ _ _ _ Hc Hb'). lia.
  - pose proof (contig_in _ _ _ _ Hc Hb). lia.
Qed.

(** *** The segment map *)

(** The back-link stored in the [k]-th segment of a block. *)
Definition pat (k : Z) : Z := if k =? 0 then 0 else (k - 1) mod 254 + 1.

Lemma pat_range (k : Z) : 0 <= k -> 0 <= pat k <= k /\ pat k < 255.
Proof.
  intros Hk. unfold pat. destruct (Z.eqb_spec k 0); [lia|].
  pose proof (Z.mod_pos_bound (k - 1) 254 ltac:(lia)).
  pose proof (Z.mod_le (k - 1) 254 ltac:(lia) ltac:(lia)). lia.
Qed.

Lemma pat_succ (k : Z) : 0 <= k -> pat (k + 1) = if pat k + 1 =? 0xFF then 1 else pat k + 1.
Proof.
  intros Hk. unfold pat. destruct (Z.eqb_spec (k + 1) 0); [lia|].
  destruct (Z.eqb_spec k 0) as [-> |]; [reflexivity|].
  replace (k + 1 - 1) with (k - 1 + 1) by lia.
  pose proof (Z.mod_pos_bound (k - 1) 254 ltac:(lia)).
  rewrite <- Zplus_mod_idemp_l. set (r := (k - 1) mod 254) in *.
  destruct (Z.eqb_spec (r + 1 + 1) 0xFF).
  - assert (r = 253) as -> by lia. reflexivity.
  - rewrite Z.mod_small by lia. lia.
Qed.

Lemma mark_used_loop_lookup (n : nat) (p k : Z) (m : gmap Z Z) (j : Z) :
  0 <= k ->
  mark_used_loop n p (pat k) m !! j =
    if bool_decide (p <= j < p + Z.of_nat n) then Some (pat (k + (j - p))) else m !! j.
Proof.
  revert p k m. induction n as [|n IH]; intros p k m Hk; cbn [mark_used_loop].
  { rewrite bool_decide_eq_false_2 by lia. done. }
  cbv zeta. rewrite <- pat_succ, IH by lia.
  pose proof (pat_range k Hk). rewrite umod_id by lia.
  repeat case_bool_decide; try lia.
  - do 2 f_equal. lia.
  - assert (j = p) as -> by lia. rewrite lookup_insert_eq. do 2 f_equal. lia.
  - rewrite lookup_insert_ne by lia. done.
Qed.

Lemma mark_used_lookup (h : CodeHeap) (beg fin j : Z) :
  segmap_bytes (mark_segmap_as_used h beg fin) !! j =
    if bool_decide (beg <= j < fin) then Some (pat (j - beg)) else segmap_bytes h !! j.
Proof.
  cbn. change 0 with (pat 0) at 1. rewrite mark_used_loop_lookup by lia.
  repeat case_bool_decide; lia || done.
Qed.

Lemma mark_free_loop_lookup (n : nat) (p j : Z) (m : gmap Z Z) :
  mark_free_loop n p m !! j =
    if bool_decide (p <= j < p + Z.of_nat n) then Some 0xFF else m !! j.
Proof.
  revert p m. induction n as [|n IH]; intros p m; cbn [mark_free_loop].
  { rewrite bool_decide_eq_false_2 by lia. done. }
  rewrite IH. repeat case_bool_decide; try lia; try done.
  - assert (j = p) as -> by lia. by rewrite lookup_insert_eq.
  - by rewrite lookup_insert_ne by lia.
Qed.

(** Every segment of a block carries its back-link. *)
Definition seg_mapped (m : gmap Z Z) (b : seg) : Prop :=
  forall k, 0 <= k < s_len b -> m !! (s_start b + k) = Some (pat k).

(** The chase through the segment map ends at the start of the block. *)
Lemma find_start_loop_spec (m : gmap Z Z) (b : seg) (fuel : nat) (k : Z) :
  seg_mapped m b -> 0 <= k < s_len b -> k < Z.of_nat fuel ->
  find_start_loop fuel m (s_start b + k) = Some (s_start b).
Proof.
  intros Hm. revert k. induction fuel as [|fuel IH]; intros k Hk Hf; [lia|].
  cbn [find_start_loop]. rewrite (Hm k Hk). cbn [mbind option_bind].
  pose proof (pat_range k ltac:(lia)).
  destruct (Z.ltb_spec 0 (pat k)).
  - replace (s_start b + k - pat k) with (s_start b + (k - pat k)) by lia. apply IH; lia.
  - f_equal. unfold pat in *. destruct (Z.eqb_spec k 0); [lia|].
    pose proof (Z.mod_pos_bound (k - 1) 254 ltac:(lia)). lia.
Qed.

(** *** Headers and the free list *)

Section Linked.
Context (addr : Z -> Z) (Haddr : forall i j, addr i = addr j -> i = j).

(** The address of the first free block of [bl], or [nxt] when all are used. *)
Fixpoint first_free (nxt : Z) (bl : list seg) : Z :=
  match bl with
  | [] => nxt
  | b :: bl => if s_used b then first_free nxt bl else addr (s_start b)
  end.

(** The address of the last free block of [bl], or [prev] when all are used. *)
Fixpoint last_free (prev : Z) (bl : list seg) : Z :=
  match bl with
  | [] => prev
  | b :: bl => last_free (if s_used b then prev else addr (s_start b)) bl
  end.

Definition block_ok (m : gmap Z HeapBlock) (nxt : Z) (b : seg) : Prop :=
  exists hb, m !! addr (s_start b) = Some hb /\ length hb = s_len b /\ used hb = s_used b /\
    (s_used b = false -> link hb = nxt).

(** Every block has its header, and every free block points to the next one. *)
Fixpoint linked (m : gmap Z HeapBlock) (nxt : Z) (bl : list seg) : Prop :=
  match bl with
  | [] => True
  | b :: bl => block_ok m (first_free nxt bl) b /\ linked m nxt bl
  end.

Lemma first_free_app (nxt : Z) (bl1 bl2 : list seg) :
  first_free nxt (bl1 ++ bl2) = first_free (first_free nxt bl2) bl1.
Proof. induction bl1 as [|b bl1 IH]; cbn; [done|]. by rewrite IH. Qed.

Lemma last_free_app (prev : Z) (bl1 bl2 : list seg) :
  last_free prev (bl1 ++ bl2) = last_free (last_free prev bl1) bl2.
Proof. revert prev. induction bl1 as [|b bl1 IH]; intros prev; cbn; done. Qed.

Lemma linked_app (m : gmap Z HeapBlock) (nxt : Z) (bl1 bl2 : list seg) :
  linked m nxt (bl1 ++ bl2) <-> linked m (first_free nxt bl2) bl1 /\ linked m nxt bl2.
Proof.
  induction bl1 as [|b bl1 IH]; cbn; [tauto|]. rewrite IH, first_free_app. tauto.
Qed.

(** Writing the header of a block that is not in the list changes nothing. *)
Lemma block_ok_insert_ne (m : gmap Z HeapBlock) (nxt : Z) (b : seg) (p : Z) (x : HeapBlock) :
  addr (s_start b) <> p -> block_ok m nxt b -> block_ok (<[p := x]> m) nxt b.
Proof. intros Hne (hb & H1 & H2). exists hb. by rewrite lookup_insert_ne. Qed.

Lemma linked_insert_ne (m : gmap Z HeapBlock) (nxt : Z) (bl : list seg) (p : Z) (x : HeapBlock) :
  (forall b, b ∈ bl -> addr (s_start b) <> p) -> linked m nxt bl -> linked (<[p := x]> m) nxt bl.
Proof.
  induction bl as [|b bl IH]; cbn; [done|]. intros Hne [H1 H2]. split.
  - apply block_ok_insert_ne; [apply Hne; constructor | done].
  - apply IH; [|done]. intros b' Hb'. apply Hne. by constructor.
Qed.

Lemma block_ok_insert_eq (m : gmap Z HeapBlock) (nxt : Z) (b : seg) (x : HeapBlock) :
  length x = s_len b -> used x = s_used b -> (s_used b = false -> link x = nxt) ->
  block_ok (<[addr (s_start b) := x]> m) nxt b.
Proof. intros. exists x. by rewrite lookup_insert_eq. Qed.

Lemma linked_elem (m : gmap Z HeapBlock) (nxt : Z) (bl : list seg) (b : seg) :
  linked m nxt bl -> b ∈ bl ->
  exists hb, m !! addr (s_start b) = Some hb /\ length hb = s_len b /\ used hb = s_used b.
Proof.
  induction bl as [|b' bl IH]; cbn; [intros _ []%not_elem_of_nil|].
  intros [(hb & H1 & H2 & H3 & _) Hl] [-> | Hin]%elem_of_cons; [by exists hb | by apply IH].
Qed.

(** Either no block of [bl] is free, or [bl] splits at its last free block. *)
Lemma last_free_split (prev : Z) (bl : list seg) :
  (last_free prev bl = prev /\ forall nxt, first_free nxt bl = nxt) \/
  exists bl1 b bl2, bl = bl1 ++ b :: bl2 /\ s_used b = false /\ last_free prev bl = addr (s_start b) /\
    forall nxt, first_free nxt bl2 = nxt.
Proof.
  revert prev. induction bl as [|b bl IH]; intros prev; cbn; [by left|].
  destruct (IH (if s_used b then prev else addr (s_start b))) as [[H1 H2] | (bl1 & b' & bl2 & -> & H1 & H2 & H3)].
  - destruct (s_used b) eqn:Hu; [by left|]. right. exists [], b, bl. by rewrite H1.
  - right. by exists (b :: bl1), b', bl2.
Qed.

(** With no free block in it, a list does not see what follows. *)
Lemma linked_all_used (m : gmap Z HeapBlock) (nxt nxt' : Z) (bl : list seg) :
  (forall n, first_free n bl = n) -> linked m nxt bl -> linked m nxt' bl.
Proof.
  induction bl as [|b bl IH]; [done|]. intros Hff [Hb Hr].
  cbn in Hff. destruct (s_used b) eqn:Hu; [|exfalso; pose proof (Hff 0); pose proof (Hff 1); lia].
  split; [|by apply IH]. destruct Hb as (hb & H1 & H2 & H3 & _). exists hb. by rewrite Hu in *.
Qed.

(** Redirecting the last free block of [bl] redirects the list. *)
Lemma linked_redirect (m : gmap Z HeapBlock) (nxt nxt' : Z) (bl1 bl2 : list seg) (b : seg) (s e : Z) :
  contig s (bl1 ++ b :: bl2) e -> s_used b = false -> (forall n, first_free n bl2 = n) ->
  linked m nxt (bl1 ++ b :: bl2) ->
  exists hb, m !! addr (s_start b) = Some hb /\ length hb = s_len b /\ used hb = false /\ link hb = nxt /\
    linked (<[addr (s_start b) := set_link hb nxt']> m) nxt' (bl1 ++ b :: bl2).
Proof.
  intros Hc Hu Hff Hl. apply linked_app in Hl as [Hl1 [(hb & H1 & H2 & H3 & H4) Hl2]].
  exists hb. rewrite H3. rewrite Hff in H4. do 4 (split; [by auto|]).
  apply contig_app in Hc as (mid & Hc1 & Hs & Hlen & Hc2).
  apply linked_app. cbn [first_free]. rewrite Hu. cbn [first_free] in Hl1. rewrite Hu in Hl1. split.
  - apply linked_insert_ne; [|done]. intros b' Hb' He%Haddr.
    pose proof (contig_in _ _ _ _ Hc1 Hb'). lia.
  - split; [apply block_ok_insert_eq; cbn; auto; by rewrite Hff|].
    apply (linked_all_used m nxt nxt') in Hl2; [|done].
    apply linked_insert_ne; [|done]. intros b' Hb' He%Haddr.
    pose proof (contig_in _ _ _ _ Hc2 Hb'). lia.
Qed.
End Linked.

(** ** Invariant *)

Record geometry (h : CodeHeap) : Prop := {
  geo_low : 0 < low (memory h) /\ low (memory h) = low_boundary (memory h);
  geo_log2 : 0 <= log2_segment_size h < 63 /\ segment_size h = 2 ^ log2_segment_size h;
  geo_segment_size : sizeof_FreeBlock <= segment_size h;
  geo_committed : high (memory h) = block_at h (number_of_committed_segments h);
  geo_reserved : high_boundary (memory h) = block_at h (number_of_reserved_segments h);
  geo_top : high_boundary (memory h) < 2 ^ 63;
  geo_segments : 0 <= number_of_committed_segments h <= number_of_reserved_segments h }.

(** The segments on the free list. *)
Fixpoint free_len (bl : list seg) : Z :=
  match bl with
  | [] => 0
  | b :: bl => (if s_used b then 0 else s_len b) + free_len bl
  end.

Record heap_ok (h : CodeHeap) (bl : list seg) : Prop := {
  ok_geometry : geometry h;
  ok_contig : contig 0 bl (next_segment h);
  ok_next : next_segment h <= number_of_committed_segments h;
  ok_mapped : Forall (seg_mapped (segmap_bytes h)) bl;
  ok_unmapped : forall i, next_segment h <= i < number_of_committed_segments h ->
                  segmap_bytes h !! i = Some 0xFF;
  ok_linked : linked (block_at h) (blocks h) 0 bl;
  ok_freelist : freelist h = first_free (block_at h) 0 bl;
  ok_free_segments : freelist_segments h = free_len bl }.

(** Free blocks are coalesced: no two of them are neighbours. *)
Fixpoint no_free_neighbours (us : list bool) : Prop :=
  match us with
  | u1 :: ((u2 :: _) as us') => (u1 = true \/ u2 = true) /\ no_free_neighbours us'
  | _ => True
  end.

Definition coalesced (bl : list seg) : Prop := no_free_neighbours (s_used <$> bl).

Definition inv (h : CodeHeap) (bl : list seg) : Prop := heap_ok h bl /\ coalesced bl.

(** *** Addresses *)

Lemma block_at_eq (h : CodeHeap) (i : Z) :
  geometry h -> block_at h i = low (memory h) + i * segment_size h.
Proof. intros [_ [Hl ->] _ _ _ _ _]. unfold block_at. by rewrite Z.shiftl_mul_pow2 by lia. Qed.

Lemma block_at_inj (h : CodeHeap) (i j : Z) : geometry h -> block_at h i = block_at h j -> i = j.
Proof.
  intros Hg. rewrite !block_at_eq by done. destruct Hg as [_ _ Hs _ _ _ _].
  unfold sizeof_FreeBlock in Hs. nia.
Qed.

Lemma segment_for_eq (h : CodeHeap) (i d : Z) :
  geometry h -> 0 <= d < segment_size h -> segment_for h (block_at h i + d) = i.
Proof.
  intros Hg Hd. rewrite block_at_eq by done. destruct Hg as [_ [Hl Hs] _ _ _ _ _].
  unfold segment_for. rewrite Z.shiftr_div_pow2 by lia. rewrite <- Hs.
  replace (low (memory h) + i * segment_size h + d - low (memory h)) with (d + i * segment_size h) by lia.
  rewrite Z.div_add, Z.div_small by lia. lia.
Qed.

Lemma segment_for_block_at (h : CodeHeap) (i : Z) : geometry h -> segment_for h (block_at h i) = i.
Proof.
  intros Hg. rewrite <- (Z.add_0_r (block_at h i)). apply segment_for_eq; [done|].
  destruct Hg as [_ _ Hs _ _ _ _]. unfold sizeof_FreeBlock in Hs. lia.
Qed.

Lemma block_at_pos (h : CodeHeap) (i : Z) : geometry h -> 0 <= i -> 0 < block_at h i.
Proof.
  intros Hg Hi. rewrite block_at_eq by done. destruct Hg as [[Hl _] _ Hs _ _ _ _].
  unfold sizeof_FreeBlock in Hs. nia.
Qed.

Lemma block_at_mono (h : CodeHeap) (i j : Z) : geometry h -> i < j -> block_at h i < block_at h j.
Proof.
  intros Hg Hi. rewrite !block_at_eq by done. destruct Hg as [_ _ Hs _ _ _ _].
  unfold sizeof_FreeBlock in Hs. nia.
Qed.

Lemma block_at_lt_iff (h : CodeHeap) (i j : Z) : geometry h -> block_at h i < block_at h j <-> i < j.
Proof.
  intros Hg. split; [|by apply block_at_mono]. intros Hlt.
  destruct (Z.lt_trichotomy i j) as [? | [-> | Hgt]]; [done | lia |].
  apply (block_at_mono h) in Hgt; [lia | done].
Qed.

Lemma first_free_cases (h : CodeHeap) (nxt : Z) (bl : list seg) :
  first_free (block_at h) nxt bl = nxt \/
  exists b, b ∈ bl /\ s_used b = false /\ first_free (block_at h) nxt bl = block_at h (s_start b).
Proof.
  induction bl as [|b bl IH]; cbn; [by left|]. destruct (s_used b) eqn:Hu.
  - destruct IH as [-> | (b' & Hin & H)]; [by left|]. right. exists b'. split; [by constructor | done].
  - right. exists b. split; [constructor | done].
Qed.

(** The number of blocks is bounded by the number of headers in memory, which is
    the fuel of the list walks. *)
Lemma linked_size (h : CodeHeap) (m : gmap Z HeapBlock) (nxt s e : Z) (bl : list seg) :
  geometry h -> contig s bl e -> linked (block_at h) m nxt bl -> (List.length bl <= size m)%nat.
Proof.
  intros Hg Hc Hl.
  assert (Hnd : NoDup ((fun b => block_at h (s_start b)) <$> bl)).
  { revert s Hc. clear Hl. induction bl as [|b bl IH]; intros s; cbn; [constructor|].
    intros (Hs & Hlen & Hc). constructor; [|by apply (IH _ Hc)].
    intros (b' & He & Hb')%list_elem_of_fmap. apply block_at_inj in He; [|done].
    pose proof (contig_in _ _ _ _ Hc Hb'). lia. }
  assert (Hsub : list_to_set ((fun b => block_at h (s_start b)) <$> bl) ⊆ dom m).
  { intros p. rewrite elem_of_list_to_set, list_elem_of_fmap. intros (b & -> & Hb).
    destruct (linked_elem _ _ _ _ _ Hl Hb) as (hb & H1 & _). apply elem_of_dom. by exists hb. }
  apply subseteq_size in Hsub. rewrite size_dom, size_list_to_set, length_fmap in Hsub by done. done.
Qed.

Lemma free_len_app (bl1 bl2 : list seg) : free_len (bl1 ++ bl2) = free_len bl1 + free_len bl2.
Proof. induction bl1 as [|b bl1 IH]; cbn; lia. Qed.

Lemma free_len_nonneg (s e : Z) (bl : list seg) : contig s bl e -> 0 <= free_len bl <= e - s.
Proof.
  revert s. induction bl as [|b bl IH]; intros s; cbn; [lia|]. intros (_ & Hl & Hc%IH).
  destruct (s_used b); lia.
Qed.

(** Marking a range keeps the back-links of the blocks outside of it, and makes
    those of a block that is the range. *)
Lemma seg_mapped_outside (h : CodeHeap) (beg fin : Z) (b : seg) :
  s_start b + s_len b <= beg \/ fin <= s_start b ->
  seg_mapped (segmap_bytes h) b -> seg_mapped (segmap_bytes (mark_segmap_as_used h beg fin)) b.
Proof.
  intros Hout Hm k Hk. rewrite mark_used_lookup, bool_decide_eq_false_2 by lia. by apply Hm.
Qed.

Lemma seg_mapped_marked (h : CodeHeap) (b : seg) :
  seg_mapped (segmap_bytes (mark_segmap_as_used h (s_start b) (s_start b + s_len b))) b.
Proof.
  intros k Hk. rewrite mark_used_lookup, bool_decide_eq_true_2 by lia. do 2 f_equal. lia.
Qed.

Lemma Forall_mapped_outside (h : CodeHeap) (beg fin s e : Z) (bl : list seg) :
  contig s bl e -> e <= beg \/ fin <= s -> Forall (seg_mapped (segmap_bytes h)) bl ->
  Forall (seg_mapped (segmap_bytes (mark_segmap_as_used h beg fin))) bl.
Proof.
  intros Hc Hout. rewrite !List.Forall_forall. intros Hm b Hb'.
  pose proof (proj2 (list_elem_of_In _ _) Hb') as Hb. pose proof (contig_in _ _ _ _ Hc Hb). apply seg_mapped_outside; [lia | by apply Hm].
Qed.

(** The parts of the heap only [reserve] and [expand_by] change. *)
Definition same_shape (h h' : CodeHeap) : Prop :=
  memory h' = memory h /\ segmap h' = segmap h /\
  number_of_committed_segments h' = number_of_committed_segments h /\
  number_of_reserved_segments h' = number_of_reserved_segments h /\
  segment_size h' = segment_size h /\ log2_segment_size h' = log2_segment_size h.

Lemma same_shape_block_at (h h' : CodeHeap) (i : Z) : same_shape h h' -> block_at h' i = block_at h i.
Proof. intros (H1 & _ & _ & _ & _ & H2). unfold block_at. by rewrite H1, H2. Qed.

Lemma same_shape_geometry (h h' : CodeHeap) : same_shape h h' -> geometry h -> geometry h'.
Proof.
  intros Hsh [Hl Hlog Hs Hc Hr Ht Hseg]. pose proof (same_shape_block_at h h') as Hb.
  pose proof Hsh as (H1 & H2 & H3 & H4 & H5 & H6).
  constructor; rewrite ?H1, ?H3, ?H4, ?H5, ?H6, ?Hb by done; done.
Qed.

Lemma same_shape_trans (h1 h2 h3 : CodeHeap) : same_shape h1 h2 -> same_shape h2 h3 -> same_shape h1 h3.
Proof. unfold same_shape. naive_solver congruence. Qed.

(** The list after a free block [b] absorbed a free right neighbour. *)
Definition merged (b : seg) (bl : list seg) : list seg :=
  match bl with
  | b2 :: bl' =>
      if s_used b2 then b :: bl else mkSeg (s_start b) (s_len b + s_len b2) false :: bl'
  | [] => [b]
  end.

Lemma following_block_eq (h : CodeHeap) (b : seg) (hb : HeapBlock) :
  geometry h -> blocks h !! block_at h (s_start b) = Some hb -> length hb = s_len b ->
  following_block h (block_at h (s_start b)) = Some (block_at h (s_start b + s_len b)).
Proof.
  intros Hg Hb Hl. unfold following_block. rewrite Hb. cbn. f_equal.
  rewrite !block_at_eq, Hl by done. lia.
Qed.

Lemma merge_right_ok (h : CodeHeap) (bl1 bl2 : list seg) (b : seg) :
  heap_ok h (bl1 ++ b :: bl2) -> s_used b = false ->
  exists h', merge_right h (block_at h (s_start b)) = Some h' /\
    heap_ok h' (bl1 ++ merged b bl2) /\ same_shape h h'.
Proof.
  intros Hok Hu. pose proof Hok as [Hg Hc Hn Hm Hun Hl Hf Hfs].
  apply linked_app in Hl as [Hl1 [(hb & H1 & H2 & H3 & H4) Hl2]]. specialize (H4 Hu).
  apply contig_app in Hc as (mid & Hc1 & Hs & Hlen & Hc2). subst mid.
  pose proof (contig_le _ _ _ Hc1) as Hmid.
  unfold merge_right. rewrite (following_block_eq h b hb) by done. rewrite H1. cbn [mbind option_bind].
  assert (Hsame : exists h', Some h = Some h' /\ heap_ok h' (bl1 ++ b :: bl2) /\ same_shape h h')
    by (exists h; done).
  rewrite H4. destruct bl2 as [|b2 bl2].
  { cbn [first_free merged]. pose proof (block_at_pos h (s_start b + s_len b) Hg ltac:(lia)).
    destruct (Z.eqb_spec (block_at h (s_start b + s_len b)) 0); [lia|]. exact Hsame. }
  destruct Hc2 as (Hs2 & Hlen2 & Hc3). cbn [first_free merged] in *.
  destruct (s_used b2) eqn:Hu2.
  { destruct (Z.eqb_spec (block_at h (s_start b + s_len b)) (first_free (block_at h) 0 bl2)) as [He|Hne];
      [exfalso | exact Hsame].
    destruct (first_free_cases h 0 bl2) as [Hz | (b' & Hin & _ & Hb')].
    - pose proof (block_at_pos h (s_start b + s_len b) Hg ltac:(lia)). lia.
    - rewrite Hb' in He. apply block_at_inj in He; [|done].
      pose proof (contig_in _ _ _ _ Hc3 Hin). lia. }
  rewrite Hs2 in *. rewrite Z.eqb_refl.
  destruct Hl2 as [(h2 & G1 & G2 & G3 & G4) Hl3]. specialize (G4 Hu2).
  rewrite Hs2 in G1. rewrite G1. cbn [mbind option_bind].
  eexists. split; [done|]. split; [|done].
  set (hb' := set_link _ _).
  assert (segment_for (set_block h (block_at h (s_start b)) hb') (block_at h (s_start b)) = s_start b) as ->
    by (exact (segment_for_block_at h (s_start b) Hg)).
  set (nb := mkSeg (s_start b) (s_len b + s_len b2) false).
  assert (length hb' = s_len nb) as -> by (cbn; lia).
  change (s_start b) with (s_start nb) at 2 3.
  apply Forall_app in Hm as [Hm1 Hm2]. apply Forall_cons_1 in Hm2 as [Hmb Hm2].
  apply Forall_cons_1 in Hm2 as [Hmb2 Hm2].
  constructor; try done.
  - by apply (same_shape_geometry h).
  - apply contig_app. exists (s_start b). split; [done|]. cbn. split; [done|]. split; [lia|].
    by rewrite Z.add_assoc.
  - apply Forall_app. split; [|constructor].
    + eapply Forall_mapped_outside; [exact Hc1 | cbn; lia | done].
    + apply seg_mapped_marked.
    + eapply Forall_mapped_outside; [exact Hc3 | cbn; lia | done].
  - intros i Hi. rewrite mark_used_lookup, bool_decide_eq_false_2; [by apply Hun|].
    pose proof (contig_le _ _ _ Hc3). cbn in *. lia.
  - change (linked (block_at h) (<[block_at h (s_start b) := hb']> (blocks h)) 0 (bl1 ++ nb :: bl2)).
    apply linked_app. cbn [first_free linked s_used nb]. split; [|split].
    + apply linked_insert_ne; [|by rewrite Hu in Hl1].
      intros b' Hb' He%block_at_inj; [|done]. pose proof (contig_in _ _ _ _ Hc1 Hb'). lia.
    + apply (block_ok_insert_eq (block_at h) (blocks h) _ nb); cbn; [lia | by rewrite H3 | done].
    + apply linked_insert_ne; [|done].
      intros b' Hb' He%block_at_inj; [|done]. pose proof (contig_in _ _ _ _ Hc3 Hb'). lia.
  - change (freelist h = first_free (block_at h) 0 (bl1 ++ nb :: bl2)).
    rewrite Hf, !first_free_app. cbn. by rewrite Hu.
  - cbn [freelist_segments]. rewrite !free_len_app in *. cbn. cbn in Hfs. rewrite Hu, Hu2 in Hfs. cbn. lia.
Qed.

(** *** Neighbours *)

Lemma neighbours_split (us1 us2 : list bool) (u : bool) :
  no_free_neighbours (us1 ++ u :: us2) <->
  no_free_neighbours (us1 ++ [u]) /\ no_free_neighbours (u :: us2).
Proof.
  induction us1 as [|u1 us1 IH]; [cbn; tauto|].
  destruct us1 as [|u2 us1]; cbn in *; tauto.
Qed.

Lemma neighbours_true (us1 us2 : list bool) :
  no_free_neighbours us1 -> no_free_neighbours us2 -> no_free_neighbours (us1 ++ true :: us2).
Proof.
  intros H1 H2. apply neighbours_split. split.
  - induction us1 as [|u1 us1 IH]; [done|]. destruct us1 as [|u2 us1]; [by split; [right|]|].
    destruct H1 as [Ha Hb]. split; [exact Ha | exact (IH Hb)].
  - destruct us2; cbn; auto.
Qed.

Lemma neighbours_tail (u : bool) (us : list bool) :
  no_free_neighbours (u :: us) -> no_free_neighbours us.
Proof. destruct us; cbn; tauto. Qed.

Lemma neighbours_init (us : list bool) (u : bool) :
  no_free_neighbours (us ++ [u]) -> no_free_neighbours us.
Proof.
  induction us as [|u1 us IH]; [done|]. destruct us as [|u2 us]; cbn in *; tauto.
Qed.

(** A free block that absorbed its right neighbour is followed by a used one. *)
Lemma coalesced_merged (b : seg) (bl : list seg) :
  s_used b = false -> coalesced bl ->
  exists x r, merged b bl = x :: r /\ s_used x = false /\ s_start x = s_start b /\ coalesced (x :: r).
Proof.
  intros Hu Hc. destruct bl as [|b2 bl]; cbn [merged]; [by exists b, []|].
  destruct (s_used b2) eqn:Hu2.
  - exists b, (b2 :: bl). split; [done|]. split; [done|]. split; [done|]. split; [by right | done].
  - eexists _, _. split; [done|]. split; [done|]. split; [done|].
    unfold coalesced in *. cbn [fmap list_fmap] in *. by rewrite Hu2 in Hc.
Qed.

(** *** Used blocks: the abstract state of the allocator *)

Definition used_blocks (bl : list seg) : list seg := List.filter s_used bl.

Lemma used_blocks_app (bl1 bl2 : list seg) :
  used_blocks (bl1 ++ bl2) = used_blocks bl1 ++ used_blocks bl2.
Proof. apply filter_app. Qed.

Lemma used_blocks_cons (b : seg) (bl : list seg) :
  used_blocks (b :: bl) = if s_used b then b :: used_blocks bl else used_blocks bl.
Proof. reflexivity. Qed.

Lemma used_blocks_merged (b : seg) (bl : list seg) :
  s_used b = false -> used_blocks (merged b bl) = used_blocks bl.
Proof.
  intros Hu. destruct bl as [|b2 bl]; cbn [merged]; [by rewrite used_blocks_cons, Hu|].
  destruct (s_used b2) eqn:Hu2; rewrite !used_blocks_cons; cbn; by rewrite ?Hu, ?Hu2.
Qed.

(** *** Returning a block to the free list *)

Lemma freelist_scan_spec (h : CodeHeap) (s : Z) (bl : list seg) (fuel : nat) (prev nxt : Z) :
  geometry h -> linked (block_at h) (blocks h) nxt bl ->
  (forall b, b ∈ bl -> 0 <= s_start b < s) -> nxt = 0 \/ block_at h s < nxt ->
  (List.length bl < fuel)%nat ->
  freelist_scan fuel h (block_at h s) prev (first_free (block_at h) nxt bl) =
    Some (last_free (block_at h) prev bl, nxt).
Proof.
  intros Hg. revert fuel prev. induction bl as [|b bl IH]; intros fuel prev Hl Hs Hn Hf.
  - destruct fuel as [|fuel]; [cbn in Hf; lia|]. cbn.
    destruct (Z.eqb_spec nxt 0), (Z.ltb_spec nxt (block_at h s)); try done. lia.
  - destruct Hl as [(hb & H1 & H2 & H3 & H4) Hl]. cbn [first_free last_free].
    assert (Hs' : forall b', b' ∈ bl -> 0 <= s_start b' < s) by (intros; apply Hs; by constructor).
    cbn [List.length] in Hf.
    destruct (s_used b) eqn:Hu; [apply IH; try done; lia|].
    destruct fuel as [|fuel]; [lia|]. cbn [freelist_scan].
    pose proof (Hs b (list_elem_of_here _ _)) as Hb.
    pose proof (block_at_pos h (s_start b) Hg ltac:(lia)).
    pose proof (block_at_mono h (s_start b) s Hg ltac:(lia)).
    destruct (Z.eqb_spec (block_at h (s_start b)) 0); [lia|].
    destruct (Z.ltb_spec (block_at h (s_start b)) (block_at h s)); [|lia]. cbn [negb andb].
    rewrite H1. cbn [mbind option_bind]. rewrite H4 by done. apply IH; try done. lia.
Qed.

Definition freed (b : seg) : seg := mkSeg (s_start b) (s_len b) false.

Lemma geometry_bound (h : CodeHeap) : geometry h -> number_of_reserved_segments h < 2 ^ 58.
Proof.
  intros Hg. pose proof (block_at_eq h (number_of_reserved_segments h) Hg) as He.
  destruct Hg as [Hl Hlog Hs _ Hr Ht _]. rewrite He in Hr. unfold sizeof_FreeBlock in Hs.
  destruct Hlog as [Hlog Hss]. assert (5 <= log2_segment_size h).
  { destruct (Z.lt_ge_cases (log2_segment_size h) 5) as [Hlt|]; [|done].
    pose proof (Z.pow_le_mono_r 2 (log2_segment_size h) 4 ltac:(lia) ltac:(lia)). lia. }
  pose proof (Z.pow_le_mono_r 2 5 (log2_segment_size h) ltac:(lia) ltac:(lia)) as Hp.
  rewrite <- Hss in Hp. nia.
Qed.

Lemma first_free_ext (f g : Z -> Z) (n : Z) (bl : list seg) :
  (forall i, f i = g i) -> first_free f n bl = first_free g n bl.
Proof. intros He. induction bl as [|b bl IH]; cbn; [done|]. by rewrite IH, He. Qed.

Lemma linked_ext (f g : Z -> Z) (m : gmap Z HeapBlock) (n : Z) (bl : list seg) :
  (forall i, f i = g i) -> linked f m n bl -> linked g m n bl.
Proof.
  intros He. induction bl as [|b bl IH]; [done|]. intros [(hb & H1 & H2) Hl].
  split; [|by apply IH]. exists hb. rewrite <- He, <- (first_free_ext f g) by done. done.
Qed.

(** Rewriting links and used bits without moving blocks. *)
Lemma heap_ok_relink (h h' : CodeHeap) (bl bl' : list seg) :
  heap_ok h bl -> same_shape h h' -> segmap_bytes h' = segmap_bytes h ->
  next_segment h' = next_segment h ->
  (forall s e, contig s bl e -> contig s bl' e) ->
  (forall P : Z -> Z -> Prop, Forall (fun b => P (s_start b) (s_len b)) bl ->
                              Forall (fun b => P (s_start b) (s_len b)) bl') ->
  linked (block_at h) (blocks h') 0 bl' -> freelist h' = first_free (block_at h) 0 bl' ->
  freelist_segments h' = free_len bl' -> heap_ok h' bl'.
Proof.
  intros [Hg Hc Hn Hm Hun Hl Hf Hfs] Hsh Hsm Hnx Hcc HF Hl' Hf' Hfs'.
  pose proof (same_shape_geometry _ _ Hsh Hg) as Hg'.
  assert (He : forall i, block_at h' i = block_at h i) by (intros; by apply same_shape_block_at).
  destruct Hsh as (S1 & S2 & S3 & S4 & S5 & S6).
  constructor; rewrite ?Hsm, ?Hnx, ?S3, ?S4; auto.
  - apply (HF (fun s l => forall k, 0 <= k < l -> segmap_bytes h !! (s + k) = Some (pat k))). exact Hm.
  - by apply (linked_ext (block_at h)).
  - rewrite Hf'. by apply first_free_ext.
Qed.

Section Free.
Context (h : CodeHeap) (bl1 bl2 : list seg) (b : seg).
Context (Hok : heap_ok h (bl1 ++ b :: bl2)) (Hu : s_used b = true).

Lemma free_contig (s e : Z) : contig s (bl1 ++ b :: bl2) e -> contig s (bl1 ++ freed b :: bl2) e.
Proof. rewrite !contig_app. done. Qed.

Lemma free_Forall (P : Z -> Z -> Prop) :
  Forall (fun b => P (s_start b) (s_len b)) (bl1 ++ b :: bl2) ->
  Forall (fun b => P (s_start b) (s_len b)) (bl1 ++ freed b :: bl2).
Proof. rewrite !Forall_app, !Forall_cons_iff. done. Qed.

Lemma free_segments : freelist_segments h + s_len b = free_len (bl1 ++ freed b :: bl2).
Proof.
  rewrite (ok_free_segments _ _ Hok), !free_len_app. cbn. rewrite Hu. lia.
Qed.

Lemma free_segments_u64 (n : Z) : n = s_len b -> u64 (freelist_segments h + n) = freelist_segments h + n.
Proof.
  intros ->. rewrite free_segments. apply umod_id.
  pose proof (free_len_nonneg _ _ _ (free_contig _ _ (ok_contig _ _ Hok))).
  pose proof (geometry_bound h (ok_geometry _ _ Hok)). pose proof (ok_next _ _ Hok).
  pose proof (geo_segments h (ok_geometry _ _ Hok)). lia.
Qed.

Lemma free_header :
  exists hb, blocks h !! block_at h (s_start b) = Some hb /\ length hb = s_len b /\ used hb = true.
Proof.
  destruct (linked_elem (block_at h) (blocks h) 0 (bl1 ++ b :: bl2) b (ok_linked _ _ Hok)) as (hb & H1 & H2 & H3).
  - apply elem_of_app. right. constructor.
  - exists hb. by rewrite H3.
Qed.

Lemma free_positions :
  (forall b', b' ∈ bl1 -> 0 <= s_start b' < s_start b) /\
  (forall b', b' ∈ bl2 -> s_start b < s_start b').
Proof.
  pose proof (ok_contig _ _ Hok) as Hc. apply contig_app in Hc as (m & Hc1 & Hs & Hl & Hc2).
  split; intros b' Hb'.
  - pose proof (contig_in _ _ _ _ Hc1 Hb'). lia.
  - pose proof (contig_in _ _ _ _ Hc2 Hb'). lia.
Qed.

(** The block becomes the head of the list. *)
Lemma free_first_ok (h1 : CodeHeap) :
  (forall n, first_free (block_at h) n bl1 = n) ->
  same_shape h h1 -> segmap_bytes h1 = segmap_bytes h -> next_segment h1 = next_segment h ->
  freelist h1 = block_at h (s_start b) -> freelist_segments h1 = freelist_segments h + s_len b ->
  blocks h1 = <[block_at h (s_start b) :=
                  mkBlock (s_len b) false (first_free (block_at h) 0 bl2)]> (blocks h) ->
  heap_ok h1 (bl1 ++ freed b :: bl2).
Proof.
  intros Hff Hsh Hsm Hnx Hfl Hfs Hbl. destruct free_positions as [Hp1 Hp2].
  pose proof (ok_geometry _ _ Hok) as Hg.
  apply (heap_ok_relink h h1 (bl1 ++ b :: bl2)); auto using free_contig, free_Forall.
  - rewrite Hbl. pose proof (ok_linked _ _ Hok) as Hl.
    apply linked_app in Hl as [Hl1 [_ Hl2]]. apply linked_app. split; [|split].
    + apply linked_insert_ne; [intros b' Hb' He%block_at_inj; [|done]; specialize (Hp1 _ Hb'); lia|].
      by apply (linked_all_used _ _ (first_free (block_at h) 0 (b :: bl2))).
    + apply (block_ok_insert_eq _ _ _ (freed b)); done.
    + apply linked_insert_ne; [intros b' Hb' He%block_at_inj; [|done]; specialize (Hp2 _ Hb'); lia | done].
  - rewrite Hfl, first_free_app. by rewrite Hff.
  - rewrite Hfs. apply free_segments.
Qed.

(** The block goes after the last free block [p] before it. *)
Lemma free_after_ok (a1 a2 : list seg) (p : seg) (h1 : CodeHeap) (hp : HeapBlock) :
  bl1 = a1 ++ p :: a2 -> s_used p = false -> (forall n, first_free (block_at h) n a2 = n) ->
  same_shape h h1 -> segmap_bytes h1 = segmap_bytes h -> next_segment h1 = next_segment h ->
  freelist h1 = freelist h -> freelist_segments h1 = freelist_segments h + s_len b ->
  blocks h !! block_at h (s_start p) = Some hp ->
  blocks h1 = <[block_at h (s_start p) := set_link hp (block_at h (s_start b))]>
               (<[block_at h (s_start b) :=
                   mkBlock (s_len b) false (first_free (block_at h) 0 bl2)]> (blocks h)) ->
  heap_ok h1 (bl1 ++ freed b :: bl2).
Proof.
  intros Hbl1 Hup Hff Hsh Hsm Hnx Hfl Hfs Hhp Hbl. destruct free_positions as [Hp1 Hp2].
  pose proof (ok_geometry _ _ Hok) as Hg. pose proof (ok_contig _ _ Hok) as Hc.
  assert (Hpin : p ∈ bl1) by (rewrite Hbl1; apply elem_of_app; right; constructor).
  assert (Hpb : block_at h (s_start p) <> block_at h (s_start b)).
  { intros He%block_at_inj; [|done]. specialize (Hp1 _ Hpin). lia. }
  apply (heap_ok_relink h h1 (bl1 ++ b :: bl2)); auto using free_contig, free_Forall.
  - rewrite Hbl, insert_insert_ne by done. pose proof (ok_linked _ _ Hok) as Hl.
    apply linked_app in Hl as [Hl1 [_ Hl2]]. cbn [first_free] in Hl1. rewrite Hu in Hl1.
    apply contig_app in Hc as (m & Hc1 & _). rewrite Hbl1 in Hc1, Hl1.
    destruct (linked_redirect (block_at h) (fun i j => block_at_inj h i j Hg) (blocks h)
      _ (block_at h (s_start b)) a1 a2 p _ _ Hc1 Hup Hff Hl1) as (hp' & Hhp' & _ & _ & _ & Hred).
    rewrite Hhp in Hhp'. injection Hhp' as <-. rewrite <- Hbl1 in Hred.
    apply linked_app. cbn [first_free freed s_used s_start]. split; [|split].
    + apply linked_insert_ne; [|done].
      intros b' Hb' He%block_at_inj; [|done]. specialize (Hp1 _ Hb'). lia.
    + apply (block_ok_insert_eq _ _ _ (freed b)); done.
    + apply linked_insert_ne; [intros b' Hb' He%block_at_inj; [|done]; specialize (Hp2 _ Hb'); lia|].
      apply linked_insert_ne; [|done].
      intros b' Hb' He%block_at_inj; [|done]. specialize (Hp1 _ Hpin). specialize (Hp2 _ Hb'). lia.
  - rewrite Hfl, (ok_freelist _ _ Hok), Hbl1, <- !app_assoc, !first_free_app. cbn. by rewrite Hup.
  - rewrite Hfs. apply free_segments.
Qed.
End Free.

(** What returning block [b] does to the layout: [b] disappears from the used
    blocks, nothing else does, and the free blocks stay coalesced. *)
Definition freed_layout (bl1 bl2 bl' : list seg) (b : seg) : Prop :=
  used_blocks bl' = used_blocks bl1 ++ used_blocks bl2 /\
  (coalesced (bl1 ++ b :: bl2) -> coalesced bl').

Lemma first_free_all_used (addr : Z -> Z) (bl : list seg) :
  (forall n, first_free addr n bl = n) -> forall x, x ∈ bl -> s_used x = true.
Proof.
  intros Hff x Hx. destruct (s_used x) eqn:Hu; [done|exfalso].
  apply list_elem_of_split in Hx as (l1 & l2 & ->).
  assert (Hc : forall n, first_free addr (addr (s_start x)) l1 = n).
  { intros n. specialize (Hff n). rewrite first_free_app in Hff. cbn in Hff. by rewrite Hu in Hff. }
  pose proof (Hc 0). pose proof (Hc 1). lia.
Qed.

Lemma freed_layout_merged (bl1 bl2 : list seg) (b : seg) :
  (forall x, x ∈ bl1 -> s_used x = true) ->
  freed_layout bl1 bl2 (bl1 ++ merged (freed b) bl2) b.
Proof.
  intros Hff. split; [by rewrite used_blocks_app, used_blocks_merged|].
  unfold coalesced. rewrite !fmap_app. cbn [fmap list_fmap]. intros Hc.
  apply neighbours_split in Hc as [Hc1 Hc2%neighbours_tail].
  destruct (coalesced_merged (freed b) bl2 eq_refl Hc2) as (x & r & -> & Hx & _ & Hxr).
  unfold coalesced in Hxr. cbn [fmap list_fmap] in *.
  assert (Hall : forall u, u ∈ s_used <$> bl1 -> u = true).
  { intros u (y & -> & Hy)%list_elem_of_fmap. by apply Hff. }
  destruct (s_used <$> bl1) as [|u us _] using rev_ind; [done|].
  assert (u = true) as -> by (apply Hall, elem_of_app; right; constructor).
  rewrite <- app_assoc. apply neighbours_true; [by apply neighbours_init in Hc1; apply neighbours_init in Hc1|done].
Qed.

Lemma freed_layout_merged_twice (a1 a2 bl2 : list seg) (p b : seg) :
  s_used p = false -> (forall x, x ∈ a2 -> s_used x = true) ->
  freed_layout (a1 ++ p :: a2) bl2 (a1 ++ merged p (a2 ++ merged (freed b) bl2)) b.
Proof.
  intros Hp Hff. destruct (freed_layout_merged a2 bl2 b Hff) as [Hub Hco].
  split.
  - rewrite !used_blocks_app, used_blocks_merged, Hub, used_blocks_cons, Hp by done.
    by rewrite app_assoc.
  - unfold coalesced in *. rewrite <- app_assoc. cbn [app]. rewrite !fmap_app. cbn [fmap list_fmap].
    intros Hc. apply neighbours_split in Hc as [Hc1 Hc2%neighbours_tail].
    rewrite fmap_app in Hco, Hc2. specialize (Hco Hc2).
    destruct (coalesced_merged p _ Hp Hco) as (x & r & He & Hx & _ & Hxr).
    unfold coalesced in Hxr. rewrite He. cbn [fmap list_fmap] in *.
    apply neighbours_split. rewrite Hx in *. by rewrite Hp in Hc1.
Qed.

Lemma merge_right_next (h h' : CodeHeap) (a : Z) :
  merge_right h a = Some h' -> next_segment h' = next_segment h.
Proof.
  unfold merge_right. intros H. destruct (following_block h a); [cbn in H|done].
  destruct (blocks h !! a) as [ha|]; [cbn in H|done].
  destruct (_ =? _); [|by injection H as <-].
  destruct (blocks h !! link ha); [|done]. cbn in H. by injection H as <-.
Qed.

Section AddToFreelist.
Context (h : CodeHeap) (bl1 bl2 : list seg) (b : seg) (hb : HeapBlock).
Context (Hok : heap_ok h (bl1 ++ b :: bl2)) (Hu : s_used b = true).
Context (Hhb : blocks h !! block_at h (s_start b) = Some hb) (Hlen : length hb = s_len b).

(** What every branch establishes. *)
Definition added (r : option CodeHeap) : Prop :=
  exists h' bl', r = Some h' /\ heap_ok h' bl' /\ same_shape h h' /\
    next_segment h' = next_segment h /\ freed_layout bl1 bl2 bl' b.

(** The heap once the block is marked free, before it is linked. *)
Definition marked : CodeHeap :=
  set_block (set_freelist_segments h (u64 (freelist_segments h + length hb)))
    (block_at h (s_start b)) (set_free hb).

Lemma free_list_head : freelist h = first_free (block_at h) (first_free (block_at h) 0 bl2) bl1.
Proof. rewrite (ok_freelist _ _ Hok), first_free_app. cbn [first_free]. by rewrite Hu. Qed.

Lemma free_next_pos :
  first_free (block_at h) 0 bl2 = 0 \/ block_at h (s_start b) < first_free (block_at h) 0 bl2.
Proof.
  destruct (first_free_cases h 0 bl2) as [-> | (c & Hc & _ & ->)]; [by left|right].
  apply block_at_mono; [apply (ok_geometry _ _ Hok) | by apply (free_positions h bl1 bl2 b Hok)].
Qed.

Lemma marked_scan :
  freelist_scan (S (size (blocks marked))) marked (block_at h (s_start b)) 0 (freelist h) =
    Some (last_free (block_at h) 0 bl1, first_free (block_at h) 0 bl2).
Proof.
  rewrite free_list_head. pose proof (ok_geometry _ _ Hok) as Hg.
  destruct (free_positions h bl1 bl2 b Hok) as [Hp1 _].
  apply (freelist_scan_spec marked).
  - by apply (same_shape_geometry h).
  - apply linked_insert_ne.
    + intros c Hc He%(block_at_inj h); [|done]. specialize (Hp1 _ Hc). lia.
    + pose proof (ok_linked _ _ Hok) as Hl. apply linked_app in Hl as [Hl1 _].
      cbn [first_free] in Hl1. by rewrite Hu in Hl1.
  - exact Hp1.
  - exact free_next_pos.
  - cbn [marked blocks set_block set_freelist_segments].
    rewrite map_size_insert_Some by (by rewrite Hhb).
    pose proof (linked_size h _ _ _ _ _ Hg (ok_contig _ _ Hok) (ok_linked _ _ Hok)) as Hsz.
    rewrite length_app in Hsz. cbn in Hsz. lia.
Qed.

(** No free block precedes [b]. *)
Lemma add_first_ok :
  (forall n, first_free (block_at h) n bl1 = n) ->
  added (merge_right (set_freelist (set_block marked (block_at h (s_start b))
                       (set_link (set_free hb) (first_free (block_at h) 0 bl2)))
                      (block_at h (s_start b))) (block_at h (s_start b))).
Proof.
  intros Hff. set (h1 := set_freelist _ _).
  assert (Hok1 : heap_ok h1 (bl1 ++ freed b :: bl2)).
  { apply (free_first_ok h bl1 bl2 b Hok Hu); try done.
    - cbn. rewrite Hlen. by apply (free_segments_u64 h bl1 bl2 b).
    - cbn. rewrite insert_insert_eq, <- Hlen. reflexivity. }
  destruct (merge_right_ok h1 bl1 bl2 (freed b) Hok1 eq_refl) as (h' & Hm & Hok' & Hsh).
  exists h', (bl1 ++ merged (freed b) bl2). split; [exact Hm|]. split; [done|]. split; [done|]. split.
  - by apply merge_right_next in Hm.
  - apply freed_layout_merged. by apply (first_free_all_used (block_at h)).
Qed.

(** [p] is the last free block before [b]. *)
Lemma add_after_ok (a1 a2 : list seg) (p : seg) :
  bl1 = a1 ++ p :: a2 -> s_used p = false -> (forall n, first_free (block_at h) n a2 = n) ->
  added (insert_after marked (block_at h (s_start p)) (block_at h (s_start b))).
Proof.
  intros Hbl1 Hup Hff. pose proof (ok_geometry _ _ Hok) as Hg.
  destruct (free_positions h bl1 bl2 b Hok) as [Hp1 _].
  assert (Hpb : block_at h (s_start b) <> block_at h (s_start p)).
  { intros He%block_at_inj; [|done].
    specialize (Hp1 p ltac:(rewrite Hbl1; apply elem_of_app; right; constructor)). lia. }
  pose proof (ok_linked _ _ Hok) as Hl. apply linked_app in Hl as [Hl1 _].
  rewrite Hbl1 in Hl1. apply linked_app in Hl1 as [_ [(hp & Hhp & Hlp & Hsp & Hlk) _]].
  specialize (Hlk Hup). rewrite Hff in Hlk. cbn [first_free] in Hlk. rewrite Hu in Hlk.
  unfold insert_after. cbn [marked blocks set_block set_freelist_segments].
  rewrite (lookup_insert_ne _ _ _ _ Hpb), Hhp, lookup_insert_eq. cbn [mbind option_bind].
  match goal with |- context [merge_right ?x (block_at h (s_start b))] => set (h1 := x) end.
  assert (Hok1 : heap_ok h1 (bl1 ++ freed b :: bl2)).
  { apply (free_after_ok h bl1 bl2 b Hok Hu a1 a2 p h1 hp); try done.
    - cbn. rewrite Hlen. by apply (free_segments_u64 h bl1 bl2 b).
    - cbn. rewrite insert_insert_eq, <- Hlen, <- Hlk. reflexivity. }
  destruct (merge_right_ok h1 bl1 bl2 (freed b) Hok1 eq_refl) as (h2 & Hm & Hok2 & Hsh).
  change (block_at h1 (s_start (freed b))) with (block_at h (s_start b)) in Hm.
  rewrite Hm. cbn [mbind option_bind].
  rewrite Hbl1, <- app_assoc in Hok2. cbn [app] in Hok2.
  destruct (merge_right_ok h2 a1 _ p Hok2 Hup) as (h3 & Hm2 & Hok3 & Hsh2).
  assert (Hba : block_at h2 (s_start p) = block_at h (s_start p))
    by (rewrite (same_shape_block_at h1 h2); done).
  rewrite Hba in Hm2.
  eexists h3, _. split; [exact Hm2|]. split; [exact Hok3|]. split; [by apply (same_shape_trans _ h2)|].
  apply merge_right_next in Hm2, Hm. split; [by rewrite Hm2, Hm|].
  rewrite Hbl1. apply freed_layout_merged_twice; [done|]. by apply (first_free_all_used (block_at h)).
Qed.

(** Returning a used block succeeds and removes that block. *)
Lemma add_to_freelist_ok : added (add_to_freelist h (block_at h (s_start b))).
Proof.
  unfold add_to_freelist. rewrite Hhb. cbn [mbind option_bind]. fold marked.
  change (freelist marked) with (freelist h).
  pose proof marked_scan as Hscan. pose proof free_list_head as Hfl.
  pose proof (ok_geometry _ _ Hok) as Hg. destruct (free_positions h bl1 bl2 b Hok) as [Hp1 _].
  destruct (last_free_split (block_at h) 0 bl1) as [[Hlf Hff] | (a1 & p & a2 & Hbl1 & Hup & Hlf & Hff)].
  - rewrite Hff in Hfl. pose proof (add_first_ok Hff) as Hadd.
    destruct (Z.eqb_spec (freelist h) 0) as [Hz|Hnz].
    + destruct Hadd as (h' & bl' & Hm & Hrest). exists h', bl'. split; [|done].
      rewrite <- Hm. unfold merge_right, following_block. cbn.
      rewrite lookup_insert_eq. cbn. rewrite <- Hfl, Hz.
      pose proof (block_at_pos h (s_start b) Hg) as Hbp.
      pose proof (contig_in _ _ _ b (ok_contig _ _ Hok) ltac:(apply elem_of_app; right; constructor)) as Hb.
      destruct (Z.eqb_spec (block_at h (s_start b) + segment_size h * length hb) 0); [|done].
      pose proof (geo_segment_size h Hg) as Hss. unfold sizeof_FreeBlock in Hss. exfalso. nia.
    + rewrite Hscan. cbn [mbind option_bind]. rewrite Hlf. cbn [Z.eqb]. rewrite Hfl. exact Hadd.
  - assert (Hpin : p ∈ bl1) by (rewrite Hbl1; apply elem_of_app; right; constructor).
    pose proof (block_at_pos h (s_start p) Hg (proj1 (Hp1 _ Hpin))) as Hpp.
    destruct (Z.eqb_spec (freelist h) 0) as [Hz|Hnz].
    + rewrite Hz in Hfl. rewrite Hbl1, first_free_app in Hfl. cbn [first_free] in Hfl. rewrite Hup in Hfl.
      destruct (first_free_cases h (block_at h (s_start p)) a1) as [He | (c & Hc & _ & He)]; [lia|].
      specialize (Hp1 c ltac:(rewrite Hbl1; apply elem_of_app; by left)).
      pose proof (block_at_pos h (s_start c) Hg ltac:(lia)). lia.
    + rewrite Hscan. cbn [mbind option_bind]. rewrite Hlf.
      destruct (Z.eqb_spec (block_at h (s_start p)) 0); [lia|]. by apply (add_after_ok a1 a2 p).
Qed.
End AddToFreelist.

(** *** Best fit *)

Section Search.
Context (fl : Flags) (h : CodeHeap) (len : Z) (is_critical : bool).
Context (Hg : geometry h).

(** [best] is the block the scan of [l] selects: large enough, with its
    predecessor on the free list, and for a critical request the smallest such. *)
Definition best_of (l : list seg) (best : Z * Z * Z) : Prop :=
  (best = (0, 0, 0) /\
   (is_critical = true -> forall c, c ∈ l -> s_used c = false -> s_len c < len)) \/
  (exists l1 b l2, l = l1 ++ b :: l2 /\ s_used b = false /\ len <= s_len b /\
     best = (block_at h (s_start b), last_free (block_at h) 0 l1, s_len b) /\
     (is_critical = true -> forall c, c ∈ l -> s_used c = false -> len <= s_len c -> s_len b <= s_len c)).

(** Blocks that are not better leave the selection as it is. *)
Lemma best_of_extend (l l' : list seg) (best : Z * Z * Z) :
  best_of l best ->
  (is_critical = true -> forall c, c ∈ l' -> s_used c = false ->
     s_len c < len \/ (best.1.1 <> 0 /\ best.2 <= s_len c)) ->
  best_of (l ++ l') best.
Proof.
  intros [[-> Hno] | (l1 & b & l2 & -> & Hu & Hlen & -> & Hmin)] Hext; [left|right].
  - split; [done|]. intros Hcr c [Hc|Hc]%elem_of_app Hf; [by apply Hno|].
    destruct (Hext Hcr c Hc Hf) as [?|[? _]]; done.
  - exists l1, b, (l2 ++ l'). rewrite <- app_assoc. cbn. do 4 (split; [done|]).
    intros Hcr c Hc Hf Hl. change (l1 ++ b :: l2 ++ l') with (l1 ++ (b :: l2) ++ l') in Hc.
    rewrite app_assoc in Hc. apply elem_of_app in Hc as [Hc|Hc]; [by apply Hmin|].
    destruct (Hext Hcr c Hc Hf) as [?|[_ ?]]; cbn in *; lia.
Qed.

Lemma best_of_select (l : list seg) (b : seg) (best : Z * Z * Z) :
  best_of l best -> s_used b = false -> len <= s_len b ->
  (best.1.1 = 0 \/ s_len b < best.2) -> (forall c, c ∈ l -> 0 < block_at h (s_start c)) ->
  best_of (l ++ [b]) (block_at h (s_start b), last_free (block_at h) 0 l, s_len b).
Proof.
  intros Hbest Hu Hlen Hbetter Hpos. right. exists l, b, []. do 4 (split; [done|]).
  intros Hcr c [Hc| ->%list_elem_of_singleton]%elem_of_app Hf Hl; [|lia].
  destruct Hbest as [[-> Hno] | (l1 & d & l2 & -> & Hud & Hld & -> & Hmin)].
  - specialize (Hno Hcr c Hc Hf). lia.
  - specialize (Hmin Hcr c Hc Hf Hl). cbn in Hbetter.
    specialize (Hpos d ltac:(apply elem_of_app; right; constructor)). lia.
Qed.

Lemma search_loop_spec (l2 l1 : list seg) (best : Z * Z * Z) (fuel : nat) :
  linked (block_at h) (blocks h) 0 l2 -> (forall c, c ∈ l1 ++ l2 -> 0 <= s_start c) ->
  best_of l1 best -> (List.length l2 < fuel)%nat ->
  exists best', search_loop fl fuel h len is_critical (last_free (block_at h) 0 l1)
                  (first_free (block_at h) 0 l2) best = Some best' /\ best_of (l1 ++ l2) best'.
Proof.
  revert l1 best fuel. induction l2 as [|c l2 IH]; intros l1 best fuel Hl Hpos Hb Hf.
  { destruct fuel; [cbn in Hf; lia|]. exists best. by rewrite app_nil_r. }
  cbn [List.length] in Hf. destruct Hl as [(hc & H1 & H2 & H3 & H4) Hl]. cbn [first_free].
  change (c :: l2) with ([c] ++ l2) in *. rewrite app_assoc in Hpos. rewrite app_assoc.
  destruct (s_used c) eqn:Hu.
  { assert (last_free (block_at h) 0 l1 = last_free (block_at h) 0 (l1 ++ [c])) as ->
      by (rewrite last_free_app; cbn; by rewrite Hu).
    apply IH; [done|done| |lia]. apply best_of_extend; [done|].
    intros _ d ->%list_elem_of_singleton. by rewrite Hu. }
  assert (Hcpos : forall d, d ∈ l1 ++ [c] -> 0 < block_at h (s_start d)).
  { intros d Hd. apply block_at_pos; [done|]. apply Hpos, elem_of_app. by left. }
  assert (Hlast : block_at h (s_start c) = last_free (block_at h) 0 (l1 ++ [c]))
    by (rewrite last_free_app; cbn; by rewrite Hu).
  destruct fuel as [|fuel]; [lia|]. cbn [search_loop].
  pose proof (Hcpos c ltac:(apply elem_of_app; right; constructor)).
  destruct (Z.eqb_spec (block_at h (s_start c)) 0); [lia|].
  rewrite H1. cbn [mbind option_bind]. rewrite H2, H4 by done.
  destruct best as [[bb bp] bl].
  destruct ((len <=? s_len c) && _) eqn:Hcond.
  - apply andb_true_iff in Hcond as [Hle Hbetter]. apply Z.leb_le in Hle.
    destruct (negb is_critical && _) eqn:Hbreak.
    + exists (bb, bp, bl). split; [done|]. rewrite <- app_assoc. apply best_of_extend; [done|].
      apply andb_true_iff in Hbreak as [Hcr _]. intros ->. done.
    + specialize (IH (l1 ++ [c]) (block_at h (s_start c), last_free (block_at h) 0 l1, s_len c) fuel).
      rewrite <- Hlast in IH. apply IH; [done|done| |lia]. apply (best_of_select l1 c _ Hb); try done.
      * cbn. apply orb_true_iff in Hbetter as [?%Z.eqb_eq|?%Z.ltb_lt]; lia.
      * intros d Hd. apply Hcpos, elem_of_app. by left.
  - specialize (IH (l1 ++ [c]) (bb, bp, bl) fuel). rewrite <- Hlast in IH.
    apply IH; [done|done| |lia]. apply best_of_extend; [done|].
    intros _ d ->%list_elem_of_singleton _. cbn. apply andb_false_iff in Hcond as [?%Z.leb_gt|Hc]; [by left|right].
    apply orb_false_iff in Hc as [?%Z.eqb_neq ?%Z.ltb_ge]. lia.
Qed.
End Search.

(** *** Taking a block from the free list *)

(** [b] joins the used blocks, which otherwise stay the same. *)
Definition taken_layout (bl bl' : list seg) (b : seg) : Prop :=
  s_used b = true /\ b ∈ bl' /\
  (exists u1 u2, used_blocks bl = u1 ++ u2 /\ used_blocks bl' = u1 ++ b :: u2) /\
  (coalesced bl -> coalesced bl').

Definition taken (b : seg) : seg := mkSeg (s_start b) (s_len b) true.

Section Take.
Context (h : CodeHeap) (bl1 bl2 : list seg) (b : seg) (hb : HeapBlock).
Context (Hok : heap_ok h (bl1 ++ b :: bl2)) (Hu : s_used b = false).
Context (Hhb : blocks h !! block_at h (s_start b) = Some hb) (Hlen : length hb = s_len b).

Lemma take_layout : taken_layout (bl1 ++ b :: bl2) (bl1 ++ taken b :: bl2) (taken b).
Proof.
  split; [done|]. split; [apply elem_of_app; right; constructor|]. split.
  - exists (used_blocks bl1), (used_blocks bl2).
    by rewrite !used_blocks_app, !used_blocks_cons, Hu.
  - unfold coalesced. rewrite !fmap_app. cbn [fmap list_fmap s_used taken].
    intros [H1 H2]%neighbours_split. apply neighbours_true.
    + by apply neighbours_init in H1.
    + by apply neighbours_tail in H2.
Qed.

Lemma take_link : link hb = first_free (block_at h) 0 bl2.
Proof.
  pose proof (ok_linked _ _ Hok) as Hl. apply linked_app in Hl as [_ [(hb' & H1 & _ & _ & H4) _]].
  rewrite Hhb in H1. injection H1 as <-. by apply H4.
Qed.

Lemma take_segments : u64 (freelist_segments h - s_len b) = free_len (bl1 ++ taken b :: bl2).
Proof.
  pose proof (ok_contig _ _ Hok) as Hc. pose proof (free_len_nonneg _ _ _ Hc) as Hfn.
  apply contig_app in Hc as (m & Hc1 & Hs & Hl & Hc2).
  pose proof (free_len_nonneg _ _ _ Hc1). pose proof (free_len_nonneg _ _ _ Hc2).
  pose proof (geometry_bound h (ok_geometry _ _ Hok)). pose proof (ok_next _ _ Hok).
  pose proof (geo_segments h (ok_geometry _ _ Hok)).
  rewrite (ok_free_segments _ _ Hok). rewrite !free_len_app in *. cbn in *. rewrite Hu in *.
  rewrite umod_id; lia.
Qed.

(** The headers of a heap in which [b] was unlinked from [m] and marked used. *)
Lemma take_relink (h1 : CodeHeap) (m : gmap Z HeapBlock) :
  same_shape h h1 -> segmap_bytes h1 = segmap_bytes h -> next_segment h1 = next_segment h ->
  freelist_segments h1 = u64 (freelist_segments h - s_len b) ->
  freelist h1 = first_free (block_at h) (first_free (block_at h) 0 bl2) bl1 ->
  blocks h1 = <[block_at h (s_start b) := set_used hb]> m ->
  linked (block_at h) m (first_free (block_at h) 0 bl2) bl1 -> linked (block_at h) m 0 bl2 ->
  heap_ok h1 (bl1 ++ taken b :: bl2).
Proof.
  intros Hsh Hsm Hnx Hfs Hfl Hbl Hl1 Hl2. destruct (free_positions h bl1 bl2 b Hok) as [Hp1 Hp2].
  pose proof (ok_geometry _ _ Hok) as Hg.
  apply (heap_ok_relink h h1 (bl1 ++ b :: bl2)); auto.
  - intros s e. rewrite !contig_app. done.
  - intros P. rewrite !Forall_app, !Forall_cons_iff. done.
  - rewrite Hbl. apply linked_app. split; [|split].
    + apply linked_insert_ne; [|done]. intros c Hc He%block_at_inj; [|done]. specialize (Hp1 _ Hc). lia.
    + by apply (block_ok_insert_eq _ _ _ (taken b)).
    + apply linked_insert_ne; [|done]. intros c Hc He%block_at_inj; [|done]. specialize (Hp2 _ Hc). lia.
  - rewrite Hfl, first_free_app. done.
  - by rewrite Hfs, take_segments.
Qed.

(** [b] is the head of the free list. *)
Lemma take_first_ok :
  (forall n, first_free (block_at h) n bl1 = n) ->
  heap_ok (set_freelist_segments
             (set_block (set_freelist h (link hb)) (block_at h (s_start b)) (set_used hb))
             (u64 (freelist_segments h - s_len b))) (bl1 ++ taken b :: bl2).
Proof.
  intros Hff. pose proof (ok_linked _ _ Hok) as [Hl1 [_ Hl2]]%linked_app.
  apply (take_relink _ (blocks h)); try done.
  - cbn. by rewrite take_link, Hff.
  - by apply (linked_all_used _ _ (first_free (block_at h) 0 (b :: bl2))).
Qed.

(** [p] precedes [b] on the free list. *)
Lemma take_after_ok (a1 a2 : list seg) (p : seg) (hp : HeapBlock) :
  bl1 = a1 ++ p :: a2 -> s_used p = false -> (forall n, first_free (block_at h) n a2 = n) ->
  blocks h !! block_at h (s_start p) = Some hp ->
  heap_ok (set_freelist_segments
             (set_block (set_block h (block_at h (s_start p)) (set_link hp (link hb)))
                (block_at h (s_start b)) (set_used hb))
             (u64 (freelist_segments h - s_len b))) (bl1 ++ taken b :: bl2).
Proof.
  intros Hbl1 Hup Hff Hhp. pose proof (ok_linked _ _ Hok) as [Hl1 [_ Hl2]]%linked_app.
  pose proof (ok_geometry _ _ Hok) as Hg. destruct (free_positions h bl1 bl2 b Hok) as [Hp1 Hp2].
  pose proof (ok_contig _ _ Hok) as (m & Hc1 & _)%contig_app. rewrite Hbl1 in Hc1, Hl1.
  destruct (linked_redirect (block_at h) (fun i j => block_at_inj h i j Hg) (blocks h)
    _ (first_free (block_at h) 0 bl2) a1 a2 p _ _ Hc1 Hup Hff Hl1) as (hp' & Hhp' & _ & _ & _ & Hred).
  rewrite Hhp in Hhp'. injection Hhp' as <-. rewrite <- Hbl1 in Hred.
  apply (take_relink _ (<[block_at h (s_start p) := set_link hp (link hb)]> (blocks h))); try done.
  - cbn. rewrite (ok_freelist _ _ Hok), Hbl1, !first_free_app. cbn. by rewrite Hup.
  - by rewrite take_link.
  - apply linked_insert_ne; [|done]. intros c Hc He%block_at_inj; [|done].
    specialize (Hp1 p ltac:(rewrite Hbl1; apply elem_of_app; right; constructor)). specialize (Hp2 _ Hc). lia.
Qed.
End Take.

(** *** Splitting a block *)

Section Split.
Context (h : CodeHeap) (bl1 bl2 : list seg) (b : seg) (hb : HeapBlock) (len : Z).
Context (Hok : heap_ok h (bl1 ++ b :: bl2)) (Hu : s_used b = false).
Context (Hhb : blocks h !! block_at h (s_start b) = Some hb) (Hlen : length hb = s_len b).
Context (Hfit : 0 < len < s_len b).

(** The part that stays on the free list and the part that is handed out. *)
Definition front : seg := mkSeg (s_start b) (s_len b - len) false.
Definition back : seg := mkSeg (s_start b + (s_len b - len)) len true.

Lemma split_layout : taken_layout (bl1 ++ b :: bl2) (bl1 ++ front :: back :: bl2) back.
Proof.
  split; [done|]. split; [apply elem_of_app; right; by do 2 constructor|]. split.
  - exists (used_blocks bl1), (used_blocks bl2). by rewrite !used_blocks_app, !used_blocks_cons, Hu.
  - unfold coalesced. rewrite !fmap_app. cbn [fmap list_fmap s_used front back]. rewrite Hu.
    intros [H1 H2]%neighbours_split. apply neighbours_split. split; [done|].
    apply neighbours_tail in H2. split; [by right|]. destruct bl2; [done|]. split; [by left | done].
Qed.

Lemma split_segments : u64 (freelist_segments h - len) = free_len (bl1 ++ front :: back :: bl2).
Proof.
  pose proof (ok_contig _ _ Hok) as Hc. pose proof (free_len_nonneg _ _ _ Hc) as Hfn.
  apply contig_app in Hc as (m & Hc1 & Hs & Hl & Hc2).
  pose proof (free_len_nonneg _ _ _ Hc1). pose proof (free_len_nonneg _ _ _ Hc2).
  pose proof (geometry_bound h (ok_geometry _ _ Hok)). pose proof (ok_next _ _ Hok).
  pose proof (geo_segments h (ok_geometry _ _ Hok)).
  rewrite (ok_free_segments _ _ Hok). rewrite !free_len_app in *. cbn in *. rewrite Hu in *.
  rewrite umod_id; lia.
Qed.

Lemma split_ok (lk : Z) (h1 h2 : CodeHeap) :
  h1 = set_block h (block_at h (s_start b)) (set_length hb (s_len b - len)) ->
  h2 = set_freelist_segments
         (set_block (mark_segmap_as_used h1 (s_start back) (s_start back + s_len back))
            (block_at h (s_start back)) (mkBlock len true lk))
         (u64 (freelist_segments h - len)) ->
  heap_ok h2 (bl1 ++ front :: back :: bl2).
Proof.
  intros -> ->. set (h2 := set_freelist_segments _ _).
  pose proof Hok as [Hg Hc Hn Hm Hun Hl Hf Hfs].
  pose proof (take_link h bl1 bl2 b hb Hok Hu Hhb) as Hlink.
  apply contig_app in Hc as (mid & Hc1 & Hs & Hlb & Hc2). subst mid.
  apply linked_app in Hl as [Hl1 [_ Hl2]]. cbn [first_free] in Hl1. rewrite Hu in Hl1.
  apply Forall_app in Hm as [Hm1 Hm2]. apply Forall_cons_1 in Hm2 as [Hmb Hm2].
  assert (Hne : forall c, c ∈ bl1 \/ c ∈ bl2 ->
            block_at h (s_start c) <> block_at h (s_start b) /\ block_at h (s_start c) <> block_at h (s_start back)).
  { intros c Hc. split; intros He%block_at_inj; try done; cbn in He;
      (destruct Hc as [Hc|Hc]; [pose proof (contig_in _ _ _ _ Hc1 Hc) | pose proof (contig_in _ _ _ _ Hc2 Hc)]; lia). }
  assert (Hfb : block_at h (s_start b) <> block_at h (s_start back))
    by (intros He%block_at_inj; [cbn in He; lia | done]).
  constructor; try done.
  - by apply (same_shape_geometry h).
  - apply contig_app. exists (s_start b). split; [done|]. cbn.
    repeat split; try lia. by replace (s_start b + (s_len b - len) + len) with (s_start b + s_len b) by lia.
  - apply Forall_app. split; [|constructor; [|constructor]].
    + eapply (Forall_mapped_outside (set_block h _ _)); [exact Hc1 | cbn; lia | done].
    + apply (seg_mapped_outside (set_block h _ _)); [cbn; lia|]. intros k Hk. apply Hmb. cbn in Hk. lia.
    + apply seg_mapped_marked.
    + eapply (Forall_mapped_outside (set_block h _ _)); [exact Hc2 | cbn; lia | done].
  - intros i Hi. change (segmap_bytes h2) with
      (segmap_bytes (mark_segmap_as_used h (s_start back) (s_start back + s_len back))).
    rewrite mark_used_lookup, bool_decide_eq_false_2; [by apply Hun|].
    pose proof (contig_le _ _ _ Hc2). cbn in *. lia.
  - change (linked (block_at h) (<[block_at h (s_start back) := mkBlock len true lk]>
      (<[block_at h (s_start b) := set_length hb (s_len b - len)]> (blocks h))) 0 (bl1 ++ front :: back :: bl2)).
    apply linked_app. split; [|split; [|split]].
    + do 2 (apply linked_insert_ne; [intros c Hc'; by apply Hne; left|]). done.
    + apply block_ok_insert_ne; [done|]. apply (block_ok_insert_eq _ _ _ front); try done.
      cbn. destruct (linked_elem _ _ _ _ b (ok_linked _ _ Hok)) as (hb' & E & _ & E3);
        [apply elem_of_app; right; constructor|]. rewrite Hhb in E. injection E as <-. by rewrite E3.
    + by apply (block_ok_insert_eq _ _ _ back).
    + do 2 (apply linked_insert_ne; [intros c Hc'; by apply Hne; right|]). done.
  - change (freelist h = first_free (block_at h) 0 (bl1 ++ front :: back :: bl2)).
    rewrite Hf, !first_free_app. cbn. by rewrite Hu.
  - apply split_segments.
Qed.
End Split.

(** The block length below which no remainder is kept. *)
Definition flags_ok (fl : Flags) : Prop := 1 <= CodeCacheMinBlockLength fl < 2 ^ 32.

(** A request of [len] segments that was served with block [b]. *)
Definition served (h h' : CodeHeap) (bl : list seg) (len p : Z) : Prop :=
  exists bl' b, heap_ok h' bl' /\ same_shape h h' /\ taken_layout bl bl' b /\
    len <= s_len b /\ p = block_at h (s_start b).

Section SearchFreelist.
Context (fl : Flags) (h : CodeHeap) (bl1 bl2 : list seg) (b : seg) (hb : HeapBlock) (len : Z).
Context (Hfl : flags_ok fl) (Hok : heap_ok h (bl1 ++ b :: bl2)) (Hu : s_used b = false).
Context (Hhb : blocks h !! block_at h (s_start b) = Some hb) (Hlen : length hb = s_len b).
Context (Hfit : 0 < len <= s_len b).

Lemma search_exact_ok :
  exists h', (h0 ← (if last_free (block_at h) 0 bl1 =? 0 then
             hf ← blocks h !! freelist h; Some (set_freelist h (link hf))
           else
             hp ← blocks h !! last_free (block_at h) 0 bl1;
             Some (set_block h (last_free (block_at h) 0 bl1) (set_link hp (link hb))));
      hb ← blocks h0 !! block_at h (s_start b);
      let h0 := set_block h0 (block_at h (s_start b)) (set_used hb) in
      Some (block_at h (s_start b), set_freelist_segments h0 (u64 (freelist_segments h0 - s_len b)))) =
    Some (block_at h (s_start b), h') /\ served h h' (bl1 ++ b :: bl2) len (block_at h (s_start b)).
Proof.
  pose proof (ok_geometry _ _ Hok) as Hg. destruct (free_positions h bl1 bl2 b Hok) as [Hp1 _].
  destruct (last_free_split (block_at h) 0 bl1) as [[-> Hff] | (a1 & p & a2 & Hbl1 & Hup & -> & Hff)].
  - cbn [Z.eqb].
    assert (freelist h = block_at h (s_start b)) as ->
      by (rewrite (ok_freelist _ _ Hok), first_free_app, Hff; cbn; by rewrite Hu).
    rewrite Hhb. cbn [mbind option_bind blocks set_freelist]. rewrite Hhb. cbn [mbind option_bind].
    eexists. split; [done|]. exists (bl1 ++ taken b :: bl2), (taken b).
    split; [exact (take_first_ok h bl1 bl2 b hb Hok Hu Hhb Hlen Hff)|]. split; [done|]. split; [by apply take_layout|]. split; [cbn; lia | done].
  - assert (Hpin : p ∈ bl1) by (rewrite Hbl1; apply elem_of_app; right; constructor).
    specialize (Hp1 _ Hpin). pose proof (block_at_pos h (s_start p) Hg ltac:(lia)).
    destruct (Z.eqb_spec (block_at h (s_start p)) 0); [lia|].
    destruct (linked_elem _ _ _ _ p (ok_linked _ _ Hok)) as (hp & Hhp & _); [apply elem_of_app; by left|].
    rewrite Hhp. cbn [mbind option_bind blocks set_block].
    rewrite lookup_insert_ne, Hhb by (intros He%block_at_inj; [lia | done]). cbn [mbind option_bind].
    eexists. split; [done|]. exists (bl1 ++ taken b :: bl2), (taken b).
    split; [exact (take_after_ok h bl1 bl2 b hb Hok Hu Hhb Hlen a1 a2 p hp Hbl1 Hup Hff Hhp)|].
    split; [done|]. split; [by apply take_layout|]. split; [cbn; lia | done].
Qed.

Lemma search_split_ok :
  len < s_len b ->
  exists p h', (let h := set_block h (block_at h (s_start b)) (set_length hb (s_len b - len)) in
      new_block ← following_block h (block_at h (s_start b));
      let beg := segment_for h new_block in
      let h := mark_segmap_as_used h beg (beg + len) in
      let nb := mkBlock len true (from_option link 0 (blocks h !! new_block)) in
      let h := set_block h new_block nb in
      Some (new_block, set_freelist_segments h (u64 (freelist_segments h - len)))) = Some (p, h') /\
    p <> 0 /\ served h h' (bl1 ++ b :: bl2) len p.
Proof.
  intros Hlt. pose proof (ok_geometry _ _ Hok) as Hg. cbv zeta.
  set (h1 := set_block h _ _).
  assert (Hg1 : geometry h1) by (by apply (same_shape_geometry h)).
  pose proof (following_block_eq h1 (front b len) (set_length hb (s_len b - len)) Hg1) as Hfb.
  change (block_at h1) with (block_at h) in *. change (s_start (front b len)) with (s_start b) in *.
  rewrite Hfb; [|cbn; by rewrite lookup_insert_eq | done]. cbn [mbind option_bind].
  assert (segment_for h1 (block_at h (s_start b + s_len (front b len))) = s_start (back b len)) as ->
    by exact (segment_for_block_at h1 (s_start (back b len)) Hg1).
  eexists _, _. split; [done|]. pose proof (contig_in _ _ _ b (ok_contig _ _ Hok)
    ltac:(apply elem_of_app; right; constructor)) as Hb. split.
  - pose proof (block_at_pos h (s_start b + (s_len b - len)) Hg ltac:(lia)) as Hpos.
    cbn. lia.
  - exists (bl1 ++ front b len :: back b len :: bl2), (back b len).
    split; [by eapply (split_ok h bl1 bl2 b hb len); first [done | lia | reflexivity]|]. split; [done|].
    split; [by apply (split_layout h)|]. done.
Qed.
End SearchFreelist.

Lemma search_freelist_ok (fl : Flags) (h : CodeHeap) (bl : list seg) (len : Z) (is_critical : bool) :
  flags_ok fl -> heap_ok h bl -> 0 < len ->
  exists p h', search_freelist fl h len is_critical = Some (p, h') /\
    ((p = 0 /\ h' = h /\ (is_critical = true -> forall c, c ∈ bl -> s_used c = false -> s_len c < len)) \/
     (p <> 0 /\ served h h' bl len p)).
Proof.
  intros Hfl Hok Hlen. pose proof (ok_geometry _ _ Hok) as Hg. pose proof (ok_contig _ _ Hok) as Hc.
  unfold search_freelist.
  destruct (search_loop_spec fl h len is_critical Hg bl [] (0, 0, 0) (S (size (blocks h))))
    as (best & Hs & Hbest).
  - apply (ok_linked _ _ Hok).
  - intros c Hin. pose proof (contig_in _ _ _ c Hc Hin). lia.
  - left. split; [done|]. intros _ c []%not_elem_of_nil.
  - pose proof (linked_size h _ _ _ _ _ Hg Hc (ok_linked _ _ Hok)). lia.
  - cbn [last_free] in Hs. rewrite <- (ok_freelist _ _ Hok) in Hs. rewrite Hs. cbn [mbind option_bind].
    destruct Hbest as [[-> Hno] | (l1 & b & l2 & Hbl & Hu & Hfit & -> & _)].
    { cbn [Z.eqb]. exists 0, h. split; [done|]. by left. }
    cbn in Hbl. subst bl.
    assert (Hin : b ∈ l1 ++ b :: l2) by (apply elem_of_app; right; constructor).
    pose proof (contig_in _ _ _ b Hc Hin) as Hb. pose proof (block_at_pos h (s_start b) Hg ltac:(lia)).
    destruct (Z.eqb_spec (block_at h (s_start b)) 0); [lia|].
    destruct (linked_elem _ _ _ _ b (ok_linked _ _ Hok) Hin) as (hb & Hhb & Hl & _).
    rewrite Hhb. cbn [mbind option_bind].
    pose proof (geometry_bound h Hg). pose proof (ok_next _ _ Hok). pose proof (geo_segments h Hg).
    destruct Hfl as [Hmin Hmax]. rewrite (umod_id 64) by lia.
    destruct (Z.ltb_spec (s_len b) (len + CodeCacheMinBlockLength fl)).
    + destruct (search_exact_ok h l1 l2 b hb len Hok Hu Hhb Hl ltac:(lia)) as (h' & He & Hserved).
      exists (block_at h (s_start b)), h'. split; [exact He|]. by right.
    + destruct (search_split_ok h l1 l2 b hb len Hok Hu Hhb ltac:(lia) ltac:(lia)) as (p & h' & He & Hp).
      exists p, h'. split; [exact He|]. by right.
Qed.

(** *** Allocating at the top *)

Lemma size_to_segments_spec (h : CodeHeap) (size : Z) :
  geometry h -> 0 < size < 2 ^ 63 ->
  0 < size_to_segments h size /\ size <= size_to_segments h size * segment_size h < size + segment_size h.
Proof.
  intros Hg Hs. pose proof (geo_segment_size h Hg) as Hss. unfold sizeof_FreeBlock in Hss.
  destruct (geo_log2 h Hg) as [Hl He]. unfold size_to_segments.
  pose proof (Z.pow_le_mono_r 2 (log2_segment_size h) 62 ltac:(lia) ltac:(lia)) as Hp.
  rewrite umod_id by lia. rewrite Z.shiftr_div_pow2, <- He by lia.
  pose proof (Z.div_mod (size + segment_size h - 1) (segment_size h) ltac:(lia)).
  pose proof (Z.mod_pos_bound (size + segment_size h - 1) (segment_size h) ltac:(lia)). nia.
Qed.

Lemma top_ok (h : CodeHeap) (bl : list seg) (n lk : Z) :
  heap_ok h bl -> 0 < n -> next_segment h + n <= number_of_committed_segments h ->
  let b := mkSeg (next_segment h) n true in
  heap_ok (set_next_segment
             (set_block (mark_segmap_as_used h (next_segment h) (next_segment h + n))
                (block_at h (next_segment h)) (mkBlock n true lk)) (next_segment h + n)) (bl ++ [b]).
Proof.
  intros Hok Hn Hfit b. pose proof Hok as [Hg Hc Hnx Hm Hun Hl Hf Hfs].
  constructor; try done.
  - by apply (same_shape_geometry h).
  - apply contig_app. by exists (next_segment h).
  - apply Forall_app. split; [|constructor; [|constructor]].
    + eapply Forall_mapped_outside; [exact Hc | lia | done].
    + apply (seg_mapped_marked h b).
  - intros i Hi. change (segmap_bytes (mark_segmap_as_used h (next_segment h) (next_segment h + n)) !! i = Some 0xFF).
    cbn in Hi. rewrite mark_used_lookup, bool_decide_eq_false_2 by lia. apply Hun. lia.
  - change (linked (block_at h) (<[block_at h (next_segment h) := mkBlock n true lk]> (blocks h)) 0 (bl ++ [b])).
    apply linked_app. split.
    + apply linked_insert_ne; [|done]. intros c Hc' He%block_at_inj; [|done].
      pose proof (contig_in _ _ _ _ Hc Hc'). lia.
    + split; [by apply (block_ok_insert_eq _ _ _ b) | done].
  - change (freelist h = first_free (block_at h) 0 (bl ++ [b])). by rewrite Hf, first_free_app.
  - change (freelist_segments h = free_len (bl ++ [b])). rewrite free_len_app. cbn. lia.
Qed.

Lemma top_layout (bl : list seg) (s n : Z) :
  taken_layout bl (bl ++ [mkSeg s n true]) (mkSeg s n true).
Proof.
  split; [done|]. split; [apply elem_of_app; right; constructor|]. split.
  - exists (used_blocks bl), []. by rewrite app_nil_r, used_blocks_app.
  - unfold coalesced. rewrite fmap_app. intros H. by apply neighbours_true.
Qed.

(** No block on the free list and no room at the top serves the request. *)
Definition exhausted (fl : Flags) (h : CodeHeap) (bl : list seg) (n : Z) : Prop :=
  (forall c, c ∈ bl -> s_used c = false -> s_len c < n) /\
  number_of_committed_segments h < next_segment h + Z.max n (CodeCacheMinBlockLength fl).

Lemma allocate_spec (fl : Flags) (h : CodeHeap) (bl : list seg) (instance_size : Z) (is_critical : bool) :
  flags_ok fl -> heap_ok h bl -> 0 <= instance_size < 2 ^ 62 ->
  let n := size_to_segments h (instance_size + sizeof_HeapBlock) in
  exists p h', allocate fl h instance_size is_critical = Some (p, h') /\
    ((p = 0 /\ h' = h /\ (is_critical = true -> exhausted fl h bl n)) \/
     (exists q, p = allocated_space q /\ served h h' bl n q)).
Proof.
  intros Hfl Hok Hsize n. pose proof (ok_geometry _ _ Hok) as Hg. unfold allocate.
  rewrite umod_id by (unfold sizeof_HeapBlock; lia). fold n. cbv zeta.
  destruct (size_to_segments_spec h (instance_size + sizeof_HeapBlock) Hg) as [Hn1 Hn2];
    [unfold sizeof_HeapBlock; lia|]. fold n in Hn1, Hn2.
  destruct (search_freelist_ok fl h bl n is_critical Hfl Hok Hn1) as (p & h' & -> & [(-> & -> & Hno) | [Hp Hs]]).
  2:{ cbn [mbind option_bind]. destruct (Z.eqb_spec p 0); [done|].
      eexists _, h'. split; [done|]. right. by exists p. }
  cbn [mbind option_bind negb Z.eqb].
  set (n' := if n <? _ then _ else n).
  assert (Hn' : n' = Z.max n (CodeCacheMinBlockLength fl)).
  { subst n'. destruct (Z.ltb_spec n (CodeCacheMinBlockLength fl)); lia. }
  destruct (negb is_critical && _) eqn:Hres.
  { exists 0, h. split; [done|]. left. split; [done|]. split; [done|]. intros ->. done. }
  destruct (geo_log2 h Hg) as [Hlog Hss]. pose proof (geo_segment_size h Hg) as Hs24. unfold sizeof_FreeBlock in Hs24.
  pose proof (geometry_bound h Hg). pose proof (ok_next _ _ Hok). pose proof (geo_segments h Hg).
  pose proof (contig_le _ _ _ (ok_contig _ _ Hok)). destruct Hfl as [Hf1 Hf2].
  rewrite umod_id by (unfold sizeof_HeapBlock in Hn2; nia).
  destruct (Z.leb_spec (next_segment h + n') (number_of_committed_segments h)).
  - eexists _, _. split; [done|]. right. eexists. split; [done|].
    exists (bl ++ [mkSeg (next_segment h) n' true]), (mkSeg (next_segment h) n' true).
    split; [apply (top_ok h bl n'); lia || done|]. split; [done|]. split; [apply top_layout|].
    split; [cbn; lia | done].
  - exists 0, h. split; [done|]. left. split; [done|]. split; [done|]. intros Hcr.
    split; [by apply Hno|]. lia.
Qed.

(** *** Lookup by address *)

Definition in_block (h : CodeHeap) (b : seg) (p : Z) : Prop :=
  block_at h (s_start b) <= p < block_at h (s_start b + s_len b).

(** A pointer into the heap lies in the segment [segment_for] computes. *)
Lemma segment_for_bounds (h : CodeHeap) (p : Z) :
  geometry h -> block_at h (segment_for h p) <= p < block_at h (segment_for h p + 1).
Proof.
  intros Hg. rewrite !block_at_eq by done. destruct (geo_log2 h Hg) as [Hl Hs].
  unfold segment_for. rewrite Z.shiftr_div_pow2, <- Hs by lia.
  pose proof (geo_segment_size h Hg) as Hss. unfold sizeof_FreeBlock in Hss.
  pose proof (Z.div_mod (p - low (memory h)) (segment_size h) ltac:(lia)).
  pose proof (Z.mod_pos_bound (p - low (memory h)) (segment_size h) ltac:(lia)). nia.
Qed.

Lemma in_block_segment (h : CodeHeap) (b : seg) (p : Z) :
  geometry h -> in_block h b p <-> s_start b <= segment_for h p < s_start b + s_len b.
Proof.
  intros Hg. pose proof (segment_for_bounds h p Hg) as Hb. unfold in_block. split; intros Hp.
  - pose proof (block_at_lt_iff h (s_start b) (segment_for h p + 1) Hg).
    pose proof (block_at_lt_iff h (segment_for h p) (s_start b + s_len b) Hg). lia.
  - pose proof (block_at_lt_iff h (segment_for h p) (s_start b) Hg).
    pose proof (block_at_lt_iff h (s_start b + s_len b) (segment_for h p + 1) Hg). lia.
Qed.

Lemma segment_for_range (h : CodeHeap) (p : Z) :
  geometry h -> heap_contains h p = true <-> 0 <= segment_for h p < number_of_committed_segments h.
Proof.
  intros Hg. pose proof (segment_for_bounds h p Hg) as Hb. unfold heap_contains.
  rewrite andb_true_iff, Z.leb_le, Z.ltb_lt, (geo_committed h Hg), <- (proj2 (geo_low h Hg)).
  assert (low (memory h) = block_at h 0) as -> by (rewrite block_at_eq by done; lia).
  pose proof (block_at_lt_iff h (segment_for h p) (number_of_committed_segments h) Hg).
  pose proof (block_at_lt_iff h (number_of_committed_segments h) (segment_for h p + 1) Hg).
  pose proof (block_at_lt_iff h 0 (segment_for h p + 1) Hg).
  pose proof (block_at_lt_iff h (segment_for h p) 0 Hg). lia.
Qed.

Lemma find_start_spec (h : CodeHeap) (bl : list seg) (p : Z) :
  heap_ok h bl ->
  exists r, find_start h p = Some r /\
    ((r = 0 /\ forall b, b ∈ bl -> s_used b = true -> ~ in_block h b p) \/
     (exists b, b ∈ bl /\ s_used b = true /\ in_block h b p /\ r = allocated_space (block_at h (s_start b)))).
Proof.
  intros Hok. pose proof Hok as [Hg Hc Hn Hm Hun Hl _ _]. unfold find_start.
  assert (Hin : forall b, b ∈ bl -> in_block h b p -> 0 <= segment_for h p < next_segment h).
  { intros b Hb Hp. apply in_block_segment in Hp; [|done]. pose proof (contig_in _ _ _ _ Hc Hb). lia. }
  destruct (heap_contains h p) eqn:Hcont; cbn [negb].
  2:{ exists 0. split; [done|]. left. split; [done|]. intros b Hb _ Hp%(Hin b Hb).
      assert (heap_contains h p = true) by (apply segment_for_range; [done|lia]). congruence. }
  apply segment_for_range in Hcont; [|done].
  destruct (Z.lt_ge_cases (segment_for h p) (next_segment h)) as [Hlt|Hge].
  - destruct (contig_locate _ _ _ _ Hc (conj (proj1 Hcont) Hlt)) as (b & Hb & Hpos).
    pose proof (proj1 (List.Forall_forall _ _) Hm b (proj1 (list_elem_of_In _ _) Hb)) as Hmb.
    pose proof (Hmb (segment_for h p - s_start b) ltac:(lia)) as Hbyte.
    replace (s_start b + (segment_for h p - s_start b)) with (segment_for h p) in Hbyte by lia.
    rewrite Hbyte. cbn [mbind option_bind].
    pose proof (pat_range (segment_for h p - s_start b) ltac:(lia)) as Hpat.
    destruct (Z.eqb_spec (pat (segment_for h p - s_start b)) 0xFF); [lia|].
    replace (find_start_loop _ _ (segment_for h p)) with (Some (s_start b)).
    2:{ symmetry. replace (segment_for h p) with (s_start b + (segment_for h p - s_start b)) at 2 by lia.
        pose proof (contig_in _ _ _ _ Hc Hb). apply find_start_loop_spec; try done; lia. }
    cbn [mbind option_bind].
    destruct (linked_elem _ _ _ _ b Hl Hb) as (hb & -> & _ & Hu). cbn [mbind option_bind].
    unfold free. rewrite Hu. assert (Hp : in_block h b p) by (by apply in_block_segment).
    destruct (s_used b) eqn:Hub; cbn [negb]; eexists; (split; [done|]); [right; by exists b|left].
    split; [done|]. intros c Hcb Huc Hpc%in_block_segment; [|done].
    assert (b = c) as ->; [|congruence]. by apply (contig_unique bl 0 (next_segment h) (segment_for h p)).
  - rewrite (Hun (segment_for h p)) by lia. cbn. exists 0. split; [done|]. left. split; [done|].
    intros b Hb _ Hp%(Hin b Hb). lia.
Qed.

(** *** Growth *)

(** The relation between the heap and the two spaces it commits memory in. *)
Record spaces_ok (os : OS) (h : CodeHeap) : Prop := {
  sp_memory : wf (memory h);
  sp_segmap : wf (segmap h);
  sp_page : 0 < vm_page_size os < 2 ^ 62 /\ is_power_of_2 (vm_page_size os) = true /\
            (segment_size h | vm_page_size os);
  sp_map : committed_size (segmap h) = up (number_of_committed_segments h) (vm_page_size os) }.

Lemma align_to_page_size_eq (os : OS) (size : Z) :
  0 < vm_page_size os < 2 ^ 62 -> is_power_of_2 (vm_page_size os) = true -> 0 <= size < 2 ^ 63 ->
  align_to_page_size os size = up size (vm_page_size os).
Proof.
  intros Hp Hpow Hs. unfold align_to_page_size, up. set (a := vm_page_size os) in *.
  rewrite (umod_id 64 (size + a)), (umod_id 64 (size + a - 1)), (umod_id 64 (a - 1)) by lia.
  assert (Hm : u64 (Z.lnot (a - 1)) = Z.land (Z.lnot (a - 1)) (Z.ones 64)) by (by rewrite Z.land_ones).
  rewrite Hm, Z.land_assoc, land_not_mask, Z.land_ones by (done || lia).
  replace (size + a - 1) with (size + (a - 1)) by lia.
  pose proof (Z.mod_pos_bound (size + (a - 1)) a ltac:(lia)).
  pose proof (Z.mod_le (size + (a - 1)) a ltac:(lia) ltac:(lia)).
  rewrite Z.mod_small; lia.
Qed.

Lemma size_to_segments_exact (h : CodeHeap) (n : Z) :
  0 <= log2_segment_size h < 63 -> segment_size h = 2 ^ log2_segment_size h ->
  0 <= n -> n * segment_size h < 2 ^ 63 -> size_to_segments h (n * segment_size h) = n.
Proof.
  intros Hl He Hn Hb. unfold size_to_segments.
  pose proof (Z.pow_le_mono_r 2 (log2_segment_size h) 62 ltac:(lia) ltac:(lia)) as Hp.
  pose proof (pow2_pos (log2_segment_size h) ltac:(lia)).
  rewrite umod_id by nia. rewrite Z.shiftr_div_pow2, <- He by lia.
  replace (n * segment_size h + segment_size h - 1) with ((segment_size h - 1) + n * segment_size h) by lia.
  rewrite Z.div_add, Z.div_small by lia. lia.
Qed.

Lemma geometry_size (h : CodeHeap) (m : VirtualSpace) :
  geometry h -> low m = low (memory h) -> wf m ->
  (segment_size h | committed_size m) ->
  high m = block_at h (size_to_segments h (committed_size m)) /\ 0 <= size_to_segments h (committed_size m).
Proof.
  intros Hg Hlow Hw [n Hn]. rewrite Hn. rewrite wf_committed_size in Hn by done.
  pose proof (wf_high m Hw). pose proof (wf_top m Hw). pose proof (wf_alignment m Hw). pose proof (geo_segment_size h Hg) as Hss. unfold sizeof_FreeBlock in Hss.
  destruct (geo_low h Hg). assert (0 <= n) by nia.
  destruct (geo_log2 h Hg). rewrite size_to_segments_exact by (done || lia). rewrite block_at_eq by done. lia.
Qed.

(** The heap with more committed segments whose map bytes are marked free. *)
Lemma heap_ok_grow (h h' : CodeHeap) (bl : list seg) :
  heap_ok h bl -> low (memory h') = low (memory h) -> low_boundary (memory h') = low_boundary (memory h) ->
  high_boundary (memory h') = high_boundary (memory h) ->
  high (memory h') = block_at h (number_of_committed_segments h') ->
  number_of_committed_segments h <= number_of_committed_segments h' <= number_of_reserved_segments h ->
  segmap_bytes h' = mark_free_loop (Z.to_nat (number_of_committed_segments h' - number_of_committed_segments h))
    (number_of_committed_segments h) (segmap_bytes h) ->
  number_of_reserved_segments h' = number_of_reserved_segments h -> segment_size h' = segment_size h ->
  log2_segment_size h' = log2_segment_size h -> blocks h' = blocks h -> next_segment h' = next_segment h ->
  freelist h' = freelist h -> freelist_segments h' = freelist_segments h -> heap_ok h' bl.
Proof.
  intros [[G1 G2 G3 G4 G5 G6 G7] Hc Hn Hm Hun Hl Hf Hfs] E1 E2 E3 E4 E5 E6 E7 E8 E9 E10 E11 E12 E13.
  assert (He : forall i, block_at h' i = block_at h i) by (intros i; unfold block_at; by rewrite E1, E9).
  assert (Hlook : forall i, segmap_bytes h' !! i =
            if bool_decide (number_of_committed_segments h <= i < number_of_committed_segments h')
            then Some 0xFF else segmap_bytes h !! i).
  { intros i. rewrite E6, mark_free_loop_lookup. repeat case_bool_decide; lia || done. }
  constructor; rewrite ?E10, ?E11, ?E12, ?E13; try done.
  - constructor; rewrite ?He, ?E1, ?E2, ?E3, ?E7, ?E8, ?E9; done || lia.
  - lia.
  - apply List.Forall_forall. intros b Hb k Hk.
    pose proof (contig_in _ _ _ b Hc (proj2 (list_elem_of_In _ _) Hb)).
    rewrite Hlook, bool_decide_eq_false_2 by lia. by apply (proj1 (List.Forall_forall _ _) Hm b Hb).
  - intros i Hi. rewrite Hlook. case_bool_decide; [done|]. apply Hun. lia.
  - by apply (linked_ext (block_at h)).
  - rewrite Hf. by apply first_free_ext.
Qed.

(** The segments after the memory grew by [dm] bytes. *)
Lemma grown_segments (h : CodeHeap) (mem : VirtualSpace) (dm : Z) :
  geometry h -> wf (memory h) -> wf mem -> same_range (memory h) mem -> 0 <= dm ->
  high mem = high (memory h) + dm -> (segment_size h | committed_size mem) ->
  let n := size_to_segments h (committed_size mem) in
  high mem = block_at h n /\
  number_of_committed_segments h <= n <= number_of_reserved_segments h.
Proof.
  intros Hg Hw Hwm (S1 & S2 & S3 & _) Hdm Hh Hdiv n.
  destruct (geometry_size h mem Hg S3 Hwm Hdiv) as [Hhigh Hn]. fold n in Hhigh, Hn.
  split; [done|]. pose proof (wf_high mem Hwm). rewrite S2 in *.
  pose proof (geo_committed h Hg) as Hc. pose proof (geo_reserved h Hg) as Hr.
  pose proof (block_at_lt_iff h n (number_of_committed_segments h) Hg).
  pose proof (block_at_lt_iff h (number_of_reserved_segments h) n Hg). lia.
Qed.

(** After an expansion that failed to grow the segment map, segments are counted that have
    no byte in the map; the blocks and the bytes of the map are as they were. *)
Definition segments_without_map (h h' : CodeHeap) : Prop :=
  committed_size (segmap h') < number_of_committed_segments h' /\ blocks h' = blocks h /\ segmap_bytes h' = segmap_bytes h.

Lemma heap_expand_by_spec (os : OS) (h h' : CodeHeap) (bl : list seg) (size : Z) (ok : bool) :
  heap_ok h bl -> spaces_ok os h -> 0 <= size -> capacity h + size + vm_page_size os < 2 ^ 63 ->
  heap_expand_by os h size = (ok, h') ->
  low (memory h') = low (memory h) /\ high (memory h) <= high (memory h') /\
  (ok = true \/ number_of_committed_segments h' = number_of_committed_segments h ->
     heap_ok h' bl /\ spaces_ok os h' /\ (ok = true -> capacity h + size <= capacity h')) /\
  (ok = false -> number_of_committed_segments h' <> number_of_committed_segments h -> segments_without_map h h').
Proof.
  intros Hok Hsp Hs Hcap He. pose proof (ok_geometry _ _ Hok) as Hg.
  destruct Hsp as [Hw1 Hw2 (Hp1 & Hp2 & Hdiv) Hmap].
  unfold capacity in *. set (cs := committed_size (memory h)) in *.
  pose proof (wf_committed_size _ Hw1) as Hcs. fold cs in Hcs. pose proof (wf_high _ Hw1).
  unfold heap_expand_by in He. fold cs in He.
  rewrite (umod_id 64 (cs + size)), align_to_page_size_eq in He by (done || lia).
  destruct (up_spec (cs + size) (vm_page_size os) ltac:(lia)) as [HA1 HA2].
  set (A := up (cs + size) (vm_page_size os)) in *. rewrite (umod_id 64 (A - cs)) in He by lia.
  destruct (Z.ltb_spec 0 (A - cs)) as [Hdm|Hdm].
  2:{ injection He as <- <-. split; [done|]. split; [lia|]. split; [|done]. intros _. split; [done|]. split; [done|]. intros _. fold cs. lia. }
  pose proof (expand_by_spec (commit_memory os) (memory h) (A - cs) Hw1 ltac:(lia)) as Hx.
  destruct (expand_by (commit_memory os) (memory h) (A - cs)) as [okm mem].
  destruct Hx as (Hwm & Hsr & Hhigh & _ & _). pose proof (geo_segments h Hg) as Hseg.
  destruct okm; cbn [negb] in He.
  2:{ injection He as <- <-. destruct Hsr as (S1 & S2 & S3 & _). split; [done|]. split; [cbn; lia|]. split; [|done]. intros _. split; [|split; [done|discriminate]].
      apply (heap_ok_grow h); cbn; rewrite ?Hhigh, ?Z.sub_diag; try done; [apply Hg | lia]. }
  assert (Hcm : committed_size mem = A).
  { rewrite wf_committed_size, Hhigh by done. destruct Hsr as (_ & _ & -> & _). lia. }
  destruct (grown_segments h mem (A - cs) Hg Hw1 Hwm Hsr ltac:(lia) Hhigh) as [Hh' Hn'].
  { rewrite Hcm. by apply (Z.divide_trans _ (vm_page_size os)). }
  cbn [number_of_committed_segments set_memory segmap] in He.
  set (n' := size_to_segments h (committed_size mem)) in *.
  pose proof (geometry_bound h Hg). destruct Hsr as (S1 & S2 & S3 & _).
  rewrite align_to_page_size_eq in He by (done || lia).
  destruct (up_spec n' (vm_page_size os) ltac:(lia)) as [_ Hu].
  pose proof (up_mono _ n' (vm_page_size os) ltac:(lia) (proj1 Hn')) as Hum. rewrite <- Hmap in Hum.
  pose proof (wf_committed_size _ Hw2). pose proof (wf_high _ Hw2).
  rewrite umod_id in He by lia.
  set (ds := up n' (vm_page_size os) - committed_size (segmap h)) in *.
  assert (Hgrow : forall smap,
    heap_ok (mark_segmap_as_free (set_segmap (set_memory h mem n') smap) (number_of_committed_segments h) n') bl)
    by (intros smap; by apply (heap_ok_grow h)).
  destruct (Z.ltb_spec 0 ds) as [Hds|Hds].
  2:{ injection He as <- <-. split; [done|]. split; [cbn; lia|]. split; [|done]. intros _. split; [exact (Hgrow (segmap h))|]. split; [|cbn; lia].
      constructor; cbn; try done. lia. }
  pose proof (expand_by_spec (commit_memory os) (segmap h) ds Hw2 ltac:(lia)) as Hx.
  destruct (expand_by (commit_memory os) (segmap h) ds) as [oks smap].
  destruct Hx as (Hws & (T1 & T2 & T3 & _) & Hhs & _ & _).
  assert (Hcss : committed_size smap = committed_size (segmap h) + if oks then ds else 0).
  { rewrite !wf_committed_size, Hhs, T3 by done. destruct oks; lia. }
  destruct oks; cbn [negb] in He; injection He as <- <-; (split; [done|]; split; [cbn; lia|]).
  - split; [|done]. intros _. split; [apply Hgrow|]. split; [|cbn; lia]. constructor; cbn; try done. lia.
  - split.
    + intros [|Hcase]; [done|]. cbn in Hcase. split; [|split; [|discriminate]].
      * specialize (Hgrow smap). unfold mark_segmap_as_free in Hgrow. rewrite Hcase in *.
        by rewrite Z.sub_diag in Hgrow.
      * constructor; cbn; try done. rewrite Hcase. lia.
    + intros _ _. split; [|done]. cbn. destruct (Z.lt_ge_cases (committed_size smap) n') as [|Hge]; [done|].
      destruct (up_spec (number_of_committed_segments h) (vm_page_size os) ltac:(lia)) as [Hd _]. pose proof (up_le n' (vm_page_size os) _ ltac:(lia) Hd ltac:(lia)). lia.
Qed.

(** *** Creation *)

(** A reservation that succeeded: page aligned, of the requested size. *)
Definition reservation_granted (os : OS) (rs : ReservedSpace) (size : Z) : Prop :=
  rs_base rs <> 0 -> 0 < rs_base rs < 2 ^ 62 /\ rs_size rs = size /\ (vm_page_size os | rs_base rs).

(** What the heap relies on of the operating system layer: page sizes are powers
    of two, larger pages are multiples of smaller ones, a page chosen for a
    region fits in it, and reservations are page aligned. *)
Record platform_ok (os : OS) : Prop := {
  pl_page : 0 < vm_page_size os <= 2 ^ 30 /\ is_power_of_2 (vm_page_size os) = true;
  pl_granularity : 0 < vm_allocation_granularity os <= 2 ^ 30 /\
    is_power_of_2 (vm_allocation_granularity os) = true /\
    (vm_page_size os | vm_allocation_granularity os);
  pl_region : forall size n, vm_page_size os <= size ->
    let p := page_size_for_region_unaligned os size n in
    vm_page_size os <= p <= 2 ^ 30 /\ p <= size /\ is_power_of_2 p = true /\ (vm_page_size os | p);
  pl_code : forall size align, reservation_granted os (reserve_code_space os size align) size;
  pl_data : forall size, reservation_granted os (reserve_space os size) size }.

Lemma space_initialize_spec (os : OS) (rs : ReservedSpace) (size csize : Z) (v : VirtualSpace) :
  platform_ok os -> reservation_granted os rs size -> vm_page_size os <= size < 2 ^ 61 ->
  (vm_page_size os | size) -> 0 <= csize -> space_initialize os rs csize = (true, v) ->
  wf v /\ 0 < low v /\ committed_size v = csize /\ reserved_size v = size.
Proof.
  intros Hpl Hrs Hsize Hdiv Hc Hi. unfold space_initialize in Hi.
  destruct (Z.eq_dec (rs_base rs) 0) as [Hz|Hnz].
  { unfold initialize_with_granularity, is_reserved in Hi. by rewrite Hz in Hi. }
  destruct (Hrs Hnz) as (Hb & Hs & Hal). rewrite Hs in Hi.
  destruct (pl_region os Hpl size 1 ltac:(lia)) as (Hg1 & Hg2 & Hg3 & Hg4).
  destruct (pl_page os Hpl) as [Hp1 Hp2].
  set (g := page_size_for_region_unaligned os size 1) in *.
  pose proof (initialize_spec (commit_memory os) rs (vm_page_size os) csize g) as Hx.
  rewrite Hi in Hx. destruct Hx as (Hw & Hlow & Hres & Hcom & _); [|done|].
  - constructor; rewrite ?Hs; try done; lia.
  - split; [done|]. rewrite (wf_low v Hw), Hlow. split; [lia|]. by rewrite Hs in Hres.
Qed.

(** The sizes [reserve] computes are multiples of the page size. *)
Lemma aligned_size (size alignment page : Z) :
  0 < page <= alignment -> alignment <= 2 ^ 30 -> is_power_of_2 alignment = true -> (page | alignment) ->
  0 <= size < 2 ^ 60 ->
  (page | align_size_up size alignment) /\ size <= align_size_up size alignment < 2 ^ 61.
Proof.
  intros Hp Ha Hpow Hd Hs.
  rewrite align_size_up_eq by (done || lia).
  destruct (align_up_bounds alignment ltac:(lia) size) as [H1 H2].
  split; [by apply (Z.divide_trans _ alignment) | lia].
Qed.

Lemma heap_ok_fresh (h : CodeHeap) (k : Z) :
  5 <= k < 63 -> log2_segment_size h = k -> segment_size h = 2 ^ k ->
  wf (memory h) -> 0 < low (memory h) ->
  (segment_size h | committed_size (memory h)) -> (segment_size h | reserved_size (memory h)) ->
  number_of_committed_segments h = size_to_segments h (committed_size (memory h)) ->
  number_of_reserved_segments h = size_to_segments h (reserved_size (memory h)) ->
  freelist h = 0 -> freelist_segments h = 0 -> heap_ok (clear h) [].
Proof.
  intros Hk Hlog Hss Hw Hlow [c Hc] [r Hr] Hnc Hnr Hf Hfs.
  pose proof (pow2_pos k ltac:(lia)). pose proof (Z.pow_le_mono_r 2 5 k ltac:(lia) ltac:(lia)) as Hp5.
  pose proof (wf_committed_size _ Hw) as Hcs. pose proof (wf_reserved_size _ Hw) as Hrs.
  pose proof (wf_low _ Hw). pose proof (wf_high _ Hw). pose proof (wf_top _ Hw). pose proof (wf_alignment _ Hw).
  assert (0 <= c) by nia. assert (c <= r) by nia.
  rewrite Hc, size_to_segments_exact in Hnc by (lia || congruence || nia).
  rewrite Hr, size_to_segments_exact in Hnr by (lia || congruence || nia).
  assert (Hba : forall i, block_at h i = low (memory h) + i * segment_size h).
  { intros i. unfold block_at. rewrite Z.shiftl_mul_pow2 by lia. by rewrite Hss, Hlog. }
  constructor; cbn; try done.
  - constructor; cbn; try change (block_at (clear h)) with (block_at h); rewrite ?Hlog;
      try done; unfold sizeof_FreeBlock; try lia; rewrite Hba; lia.
  - lia.
  - intros i Hi. rewrite mark_free_loop_lookup. by rewrite bool_decide_eq_true_2 by lia.
Qed.

Definition page_like (os : OS) (p : Z) : Prop :=
  vm_page_size os <= p <= 2 ^ 30 /\ is_power_of_2 p = true /\ (vm_page_size os | p).

Lemma max_page_like (os : OS) (p : Z) :
  platform_ok os -> page_like os p -> page_like os (Z.max p (vm_allocation_granularity os)).
Proof.
  intros Hpl Hp. destruct (pl_granularity os Hpl) as (Hg1 & Hg2 & Hg3).
  destruct (Z.max_spec p (vm_allocation_granularity os)) as [[_ ->]|[_ ->]]; [|done].
  split; [|done]. split; [|lia]. apply Z.divide_pos_le; [lia | done].
Qed.

Lemma segment_size_log2 (S : Z) :
  sizeof_FreeBlock <= S < 2 ^ 63 -> is_power_of_2 S = true -> S = 2 ^ Z.log2 S /\ 5 <= Z.log2 S < 63.
Proof.
  unfold sizeof_FreeBlock. intros HS Hpow. apply is_power_of_2_spec in Hpow; [|lia].
  split; [done|]. pose proof (Z.log2_nonneg S).
  assert (Z.log2 S < 63) by (apply (Z.pow_lt_mono_r_iff 2); lia).
  assert (4 < Z.log2 S); [|lia]. apply (Z.pow_lt_mono_r_iff 2); lia.
Qed.

Lemma page_like_aligned (os : OS) (size p : Z) :
  platform_ok os -> page_like os p -> 0 <= size < 2 ^ 60 ->
  (vm_page_size os | align_size_up size p) /\ size <= align_size_up size p < 2 ^ 61.
Proof.
  intros Hpl (H1 & H2 & H3) Hs. destruct (pl_page os Hpl). apply aligned_size; done || lia.
Qed.

Lemma fresh_segments (h : CodeHeap) (mem : VirtualSpace) :
  0 <= log2_segment_size h < 63 -> segment_size h = 2 ^ log2_segment_size h ->
  sizeof_FreeBlock <= segment_size h -> wf mem -> 0 < reserved_size mem ->
  (segment_size h | committed_size mem) -> (segment_size h | reserved_size mem) ->
  0 <= size_to_segments h (committed_size mem) <= size_to_segments h (reserved_size mem) /\
  0 < size_to_segments h (reserved_size mem) < 2 ^ 60.
Proof.
  intros Hl Hs H24 Hw Hpos [c Hc] [r Hr]. unfold sizeof_FreeBlock in H24.
  pose proof (wf_committed_size _ Hw). pose proof (wf_reserved_size _ Hw).
  pose proof (wf_low _ Hw). pose proof (wf_high _ Hw). pose proof (wf_top _ Hw). pose proof (wf_alignment _ Hw).
  pose proof (wf_bounds _ Hw).
  rewrite Hc, Hr, !size_to_segments_exact by (done || nia). nia.
Qed.

Lemma reserve_spec (os : OS) (R C S : Z) (h : CodeHeap) :
  platform_ok os -> vm_page_size os <= R < 2 ^ 60 -> 0 <= C <= R -> sizeof_FreeBlock <= S ->
  is_power_of_2 S = true -> (S | vm_page_size os) ->
  reserve os new_heap R C S = Some (true, h) ->
  heap_ok h [] /\ spaces_ok os h /\ segment_size h = S.
Proof.
  intros Hpl HR HC HS Hpow Hdiv Hres.
  destruct (pl_page os Hpl) as [Hp1 Hp2].
  pose proof (Z.divide_pos_le S (vm_page_size os) ltac:(lia) Hdiv) as HSp.
  assert (H0 : page_like os (vm_page_size os)) by (split; [lia | done]).
  destruct (segment_size_log2 S ltac:(lia) Hpow) as [HSk Hk]. unfold sizeof_FreeBlock in HS.
  unfold reserve in Hres. rewrite HSk in Hres at 1. rewrite exact_log2_pow in Hres by lia.
  cbn [mbind option_bind] in Hres.
  set (page := if can_execute_large_page_memory os then _ else _) in Hres.
  assert (Hpage : page_like os page).
  { subst page. destruct (can_execute_large_page_memory os); [|done].
    destruct (pl_region os Hpl R 8 ltac:(lia)) as (? & ? & ? & ?). done. }
  destruct (page_like_aligned os R _ Hpl (max_page_like os page Hpl Hpage) ltac:(lia)) as [Hrd Hrb].
  destruct (page_like_aligned os C page Hpl Hpage ltac:(lia)) as [Hcd Hcb].
  set (r_size := align_size_up R _) in *. set (c_size := align_size_up C page) in *.
  set (rs := reserve_code_space os r_size _) in Hres.
  destruct (space_initialize os rs c_size) as [[] mem] eqn:Hmem; cbn [negb] in Hres; [|discriminate].
  destruct (space_initialize_spec os rs r_size c_size mem Hpl (pl_code os Hpl _ _) ltac:(lia) Hrd ltac:(lia) Hmem)
    as (Hw & Hlow & Hcs & Hrs).
  set (h0 := mkHeap mem _ _ _ _ _ S _ _ _ _) in Hres.
  set (nc := size_to_segments h0 (committed_size mem)) in Hres.
  set (nr := size_to_segments h0 (reserved_size mem)) in Hres.
  cbv zeta in Hres. destruct (space_initialize os (reserve_space os _) _) as [[] smap] eqn:Hsmap in Hres;
    cbn [negb] in Hres; [|discriminate]. injection Hres as <-.
  assert (HcS : (S | committed_size mem)) by (rewrite Hcs; by apply (Z.divide_trans _ (vm_page_size os))).
  assert (HrS : (S | reserved_size mem)) by (rewrite Hrs; by apply (Z.divide_trans _ (vm_page_size os))).
  assert (Hnr : 0 <= nc <= nr /\ 0 < nr < 2 ^ 60).
  { apply (fresh_segments h0 mem); try done; cbn; unfold sizeof_FreeBlock; lia. }
  destruct (page_like_aligned os nr _ Hpl (max_page_like os _ Hpl H0) ltac:(lia)) as [Hsd Hsb].
  set (s_size := align_size_up nr _) in *.
  pose proof (Z.divide_pos_le (vm_page_size os) s_size ltac:(lia) Hsd) as Hsp.
  rewrite align_to_page_size_eq in Hsmap by (done || lia).
  destruct (up_spec nc (vm_page_size os) ltac:(lia)) as [_ Hup].
  destruct (space_initialize_spec os _ s_size (up nc (vm_page_size os)) smap Hpl (pl_data os Hpl _) ltac:(lia) Hsd ltac:(lia) Hsmap)
    as (Hws & _ & Hscs & _).
  split; [|split; [|done]].
  - apply (heap_ok_fresh _ (Z.log2 S)); cbn; try done; lia.
  - constructor; cbn; try done. split; [lia | done].
Qed.
