(* ===== verification/CodeHeapCorrect.v ===== *)
(** Correctness of the code heap of CodeHeap.v: the layout invariant of every
    reachable heap, the refinement to an abstract allocator whose state is the
    list of allocated extents, and what allocation, deallocation, address lookup
    and iteration do. *)

From S2P Require Import Prelude GlobalDefinitions VirtualSpace CodeHeap.

(** ** Steps *)

(** One call by a client of the heap, with its result. *)
Inductive HeapCall :=
  | Allocate (instance_size : Z) (is_critical : bool) (p : Z)
  | Deallocate (p : Z)
  | ExpandBy (size : Z) (ok : bool).

(** The operating system, with the answers it gives to the requests of one call. *)
Definition with_answers (os : OS) (commit : Z -> Z -> bool) : OS :=
  mkOS (vm_page_size os) (vm_allocation_granularity os) (can_execute_large_page_memory os)
    (page_size_for_region_unaligned os) (reserve_code_space os) (reserve_space os) commit.

(** [deallocate] asserts that its argument is what [find_start] returns for it; memory is
    committed with any answers of the operating system. *)
Inductive heap_step (os : OS) (fl : Flags) : HeapCall -> CodeHeap -> CodeHeap -> Prop :=
  | step_allocate h h' instance_size is_critical p :
      0 <= instance_size < 2 ^ 62 ->
      allocate fl h instance_size is_critical = Some (p, h') -> heap_step os fl (Allocate instance_size is_critical p) h h'
  | step_deallocate h h' p :
      p <> 0 -> find_start h p = Some p -> deallocate h p = Some h' -> heap_step os fl (Deallocate p) h h'
  | step_expand commit h h' size ok :
      0 <= size -> capacity h + size + vm_page_size os < 2 ^ 63 ->
      heap_expand_by (with_answers os commit) h size = (ok, h') -> heap_step os fl (ExpandBy size ok) h h'.

(** [expand_by] gave up after it had raised the number of segments, because the segment
    map could not grow. *)
Definition torn (c : HeapCall) (h h' : CodeHeap) : Prop :=
  match c with ExpandBy _ false => number_of_committed_segments h' <> number_of_committed_segments h | _ => False end.

(** Sequences of calls, none of them torn. *)
Inductive heap_run (os : OS) (fl : Flags) : list HeapCall -> CodeHeap -> CodeHeap -> Prop :=
  | run_nil h : heap_run os fl [] h h
  | run_cons c cs h h1 h2 : heap_step os fl c h h1 -> ~ torn c h h1 -> heap_run os fl cs h1 h2 -> heap_run os fl (c :: cs) h h2.

(** The client pointer of a block. *)
Definition ptr (h : CodeHeap) (b : seg) : Z := allocated_space (block_at h (s_start b)).

(** The address range of a block. *)
Definition extent (h : CodeHeap) (b : seg) : Z * Z :=
  (block_at h (s_start b), block_at h (s_start b + s_len b)).

Definition extents (h : CodeHeap) (bl : list seg) : list (Z * Z) := extent h <$> used_blocks bl.

(** Extents in address order that do not overlap, between [lo] and [hi]. *)
Fixpoint disjoint_in (lo hi : Z) (u : list (Z * Z)) : Prop :=
  match u with
  | [] => lo <= hi
  | (a, b) :: u => lo <= a /\ a < b /\ disjoint_in b hi u
  end.

(** The abstract allocator: an address range and the extents that are allocated in it.  An
    allocation returns null and changes nothing, or adds an extent that overlaps no other,
    has room for the request, and whose client pointer is returned; a deallocation removes
    the extent of its pointer; the range can only grow, by at least the request when the
    expansion is reported to have succeeded. *)
Record Allocator := mkAllocator { range_low : Z; range_high : Z; live : list (Z * Z) }.

Inductive alloc_step : HeapCall -> Allocator -> Allocator -> Prop :=
  | alloc_refused lo hi u n critical : alloc_step (Allocate n critical 0) (mkAllocator lo hi u) (mkAllocator lo hi u)
  | alloc_served lo hi u1 u2 n critical x :
      header_size + n <= x.2 - x.1 -> disjoint_in lo hi (u1 ++ x :: u2) ->
      alloc_step (Allocate n critical (allocated_space x.1)) (mkAllocator lo hi (u1 ++ u2)) (mkAllocator lo hi (u1 ++ x :: u2))
  | alloc_freed lo hi u1 u2 x :
      alloc_step (Deallocate (allocated_space x.1)) (mkAllocator lo hi (u1 ++ x :: u2)) (mkAllocator lo hi (u1 ++ u2))
  | alloc_expanded lo hi hi' u size ok :
      hi <= hi' -> (ok = true -> hi + size <= hi') ->
      alloc_step (ExpandBy size ok) (mkAllocator lo hi u) (mkAllocator lo hi' u).

Inductive alloc_run : list HeapCall -> Allocator -> Allocator -> Prop :=
  | alloc_nil a : alloc_run [] a a
  | alloc_cons c cs a a1 a2 : alloc_step c a a1 -> alloc_run cs a1 a2 -> alloc_run (c :: cs) a a2.

(** The allocator that a heap with the given blocks stands for. *)
Definition abstract (h : CodeHeap) (bl : list seg) : Allocator :=
  mkAllocator (low (memory h)) (high (memory h)) (extents h bl).

(** ** Helpers *)

Lemma disjoint_in_weaken (lo lo' hi : Z) (u : list (Z * Z)) :
  lo' <= lo -> disjoint_in lo hi u -> disjoint_in lo' hi u.
Proof. destruct u as [|[a b] u]; cbn; [lia|]. intros Hle (H1 & H2). split; [lia | done]. Qed.

Lemma extents_disjoint_contig (h : CodeHeap) (bl : list seg) (s e : Z) :
  geometry h -> contig s bl e -> disjoint_in (block_at h s) (block_at h e) (extents h bl).
Proof.
  intros Hg. revert s. induction bl as [|b bl IH]; intros s; cbn; [intros ->; lia|].
  intros (Hs & Hl & Hc). specialize (IH _ Hc).
  pose proof (block_at_mono h s (s + s_len b) Hg ltac:(lia)). unfold extents in *.
  destruct (s_used b); cbn; [rewrite Hs; by split; [lia|split; [lia|]]|].
  apply (disjoint_in_weaken (block_at h (s + s_len b))); [lia | done].
Qed.

Lemma extents_disjoint (h : CodeHeap) (bl : list seg) :
  heap_ok h bl -> disjoint_in (low (memory h)) (high (memory h)) (extents h bl).
Proof.
  intros [Hg Hc Hn _ _ _ _ _]. pose proof (extents_disjoint_contig h bl _ _ Hg Hc) as Hd.
  assert (block_at h 0 = low (memory h)) as <- by (rewrite block_at_eq by done; lia).
  rewrite (geo_committed h Hg).
  assert (Hle : block_at h (next_segment h) <= block_at h (number_of_committed_segments h)).
  { pose proof (block_at_lt_iff h (number_of_committed_segments h) (next_segment h) Hg). lia. }
  revert Hle Hd. generalize (block_at h 0), (block_at h (next_segment h)), (block_at h (number_of_committed_segments h)).
  induction (extents h bl) as [|[a b] u IH]; cbn; intros lo m hi Hle; [lia|].
  intros (H1 & H2 & H3). split; [lia|]. split; [lia|]. by apply (IH _ m).
Qed.

Lemma extents_same_shape (h h' : CodeHeap) (bl : list seg) :
  (forall i, block_at h' i = block_at h i) -> extents h' bl = extents h bl.
Proof.
  intros He. unfold extents. apply list_fmap_ext. intros i b _. unfold extent. by rewrite !He.
Qed.

(** Deallocation, for the block a pointer belongs to. *)
Lemma deallocate_spec (h : CodeHeap) (bl1 bl2 : list seg) (b : seg) :
  heap_ok h (bl1 ++ b :: bl2) -> s_used b = true ->
  exists h' bl', deallocate h (ptr h b) = Some h' /\ heap_ok h' bl' /\ same_shape h h' /\
    freed_layout bl1 bl2 bl' b.
Proof.
  intros Hok Hu. destruct (free_header h bl1 bl2 b Hok Hu) as (hb & Hhb & Hlen & _).
  destruct (add_to_freelist_ok h bl1 bl2 b hb Hok Hu Hhb Hlen) as (h' & bl' & Ha & H1 & H2 & _ & H4).
  exists h', bl'. split; [|done]. unfold deallocate, ptr, allocated_space.
  by replace (block_at h (s_start b) + sizeof_HeapBlock - sizeof_HeapBlock) with (block_at h (s_start b)) by lia.
Qed.

Lemma spaces_same_shape (os : OS) (h h' : CodeHeap) : same_shape h h' -> spaces_ok os h -> spaces_ok os h'.
Proof.
  intros (H1 & H2 & H3 & H4 & H5 & H6) [S1 S2 S3 S4].
  constructor; rewrite ?H1, ?H2, ?H3, ?H5; done.
Qed.

Lemma heap_expand_by_block_at (os : OS) (h h' : CodeHeap) (size i : Z) (ok : bool) :
  wf (memory h) -> heap_expand_by os h size = (ok, h') -> block_at h' i = block_at h i.
Proof.
  intros Hw He. unfold heap_expand_by in He. set (dm := u64 (_ - _)) in He.
  destruct (Z.ltb_spec 0 dm) as [Hdm|]; [|by injection He as <- <-].
  pose proof (expand_by_spec (commit_memory os) (memory h) dm Hw ltac:(lia)) as Hx.
  destruct (expand_by (commit_memory os) (memory h) dm) as [okm mem].
  destruct Hx as (_ & (_ & _ & Hlow & _) & _).
  assert (Hb : forall h1, memory h1 = mem -> log2_segment_size h1 = log2_segment_size h -> block_at h1 i = block_at h i)
    by (intros h1 E1 E2; unfold block_at; by rewrite E1, E2, Hlow).
  destruct okm; cbn [negb] in He; [|injection He as <- <-; by apply Hb].
  destruct (0 <? _); [|injection He as <- <-; by apply Hb].
  destruct (expand_by _ (segmap _) _) as [[] smap]; cbn [negb] in He; injection He as <- <-; by apply Hb.
Qed.

(** A pointer [find_start] maps to itself is the client pointer of a used block. *)
Lemma find_start_self (h : CodeHeap) (bl : list seg) (p : Z) :
  heap_ok h bl -> p <> 0 -> find_start h p = Some p ->
  exists bl1 b bl2, bl = bl1 ++ b :: bl2 /\ s_used b = true /\ p = ptr h b.
Proof.
  intros Hok Hp Hfs. destruct (find_start_spec h bl p Hok) as (r & Hr & Hcases).
  rewrite Hfs in Hr. injection Hr as <-. destruct Hcases as [[-> _]|(b & Hb & Hu & _ & ->)]; [done|].
  apply list_elem_of_split in Hb as (bl1 & bl2 & ->). by exists bl1, b, bl2.
Qed.

(** *** The simulation *)

Lemma served_simulated (os : OS) (h h' : CodeHeap) (bl : list seg) (n : Z) (critical : bool) (p : Z) :
  inv h bl -> spaces_ok os h -> 0 <= n < 2 ^ 62 -> served h h' bl (size_to_segments h (n + sizeof_HeapBlock)) p ->
  exists bl', inv h' bl' /\ spaces_ok os h' /\ alloc_step (Allocate n critical (allocated_space p)) (abstract h bl) (abstract h' bl').
Proof.
  intros [Hok Hco] Hsp Hn (bl' & b & Hok' & Hsh & (_ & Hb & (u1 & u2 & H1 & H2) & Hc') & Hlen & ->). exists bl'. pose proof (ok_geometry _ _ Hok) as Hg.
  split; [split; [done|by apply Hc']|]. split; [by apply (spaces_same_shape _ h)|].
  pose proof (extents_disjoint h' bl' Hok') as Hd. unfold abstract. rewrite (proj1 Hsh) in *. revert Hd.
  rewrite (extents_same_shape h h') by (intros; by apply same_shape_block_at). unfold extents. rewrite H1, H2, !fmap_app, fmap_cons. intros Hd.
  apply (alloc_served _ _ (extent h <$> u1) (extent h <$> u2) n critical (extent h b)); [|done]. cbn [extent fst snd].
  destruct (size_to_segments_spec h (n + sizeof_HeapBlock) Hg) as [_ Hs]; [unfold sizeof_HeapBlock; lia|].
  pose proof (geo_segment_size h Hg) as Hss. rewrite !block_at_eq by done. unfold header_size, sizeof_HeapBlock, sizeof_FreeBlock in *. nia.
Qed.

Lemma freed_simulated (os : OS) (h : CodeHeap) (bl : list seg) (p : Z) :
  inv h bl -> spaces_ok os h -> p <> 0 -> find_start h p = Some p ->
  exists h' bl', deallocate h p = Some h' /\ inv h' bl' /\ spaces_ok os h' /\ alloc_step (Deallocate p) (abstract h bl) (abstract h' bl').
Proof.
  intros [Hok Hco] Hsp Hp Hfs. destruct (find_start_self h bl p Hok Hp Hfs) as (bl1 & b & bl2 & -> & Hu & ->).
  destruct (deallocate_spec h bl1 bl2 b Hok Hu) as (h' & bl' & Hd & Hok' & Hsh & [Hl Hc']). exists h', bl'.
  split; [done|]. split; [split; [done|by apply Hc']|]. split; [by apply (spaces_same_shape _ h)|].
  unfold abstract. rewrite (proj1 Hsh), (extents_same_shape h h') by (intros; by apply same_shape_block_at).
  unfold extents. rewrite Hl, used_blocks_app, used_blocks_cons, Hu, !fmap_app, fmap_cons. apply (alloc_freed _ _ _ _ (extent h b)).
Qed.

Lemma spaces_answers (os : OS) (commit : Z -> Z -> bool) (h : CodeHeap) : spaces_ok os h <-> spaces_ok (with_answers os commit) h.
Proof. split; intros [S1 S2 S3 S4]; by constructor. Qed.

Lemma step_simulated (os : OS) (fl : Flags) (c : HeapCall) (h h' : CodeHeap) (bl : list seg) :
  flags_ok fl -> inv h bl -> spaces_ok os h -> heap_step os fl c h h' ->
  (~ torn c h h' -> exists bl', inv h' bl' /\ spaces_ok os h' /\ alloc_step c (abstract h bl) (abstract h' bl')) /\
  (torn c h h' -> segments_without_map h h' /\ alloc_step c (abstract h bl) (abstract h' bl)).
Proof.
  intros Hfl Hinv Hsp Hstep. revert Hinv Hsp.
  destruct Hstep as [h h' n crit p Hn Ha|h h' p Hp Hfs Hd|commit h h' size ok Hs Hcap He]; intros Hinv Hsp.
  - split; [intros _|done]. destruct (allocate_spec fl h bl n crit Hfl (proj1 Hinv) Hn) as (p' & h'' & Ha' & Hcases). rewrite Ha in Ha'. injection Ha' as <- <-.
    destruct Hcases as [(-> & -> & _)|(q & -> & Hserved)]; [exists bl; split; [done|]; split; [done|constructor]|by apply served_simulated].
  - split; [intros _|done]. destruct (freed_simulated os h bl p Hinv Hsp Hp Hfs) as (h'' & bl' & Hd' & Hx). rewrite Hd in Hd'. injection Hd' as <-. by exists bl'.
  - apply (spaces_answers os commit) in Hsp. destruct (heap_expand_by_spec (with_answers os commit) h h' bl size ok (proj1 Hinv) Hsp Hs Hcap He) as (Hlow & Hhigh & Hgood & Htorn).
    assert (Hext : extents h' bl = extents h bl) by (apply extents_same_shape; intros i; by apply (heap_expand_by_block_at (with_answers os commit) h h' size i ok (sp_memory _ _ Hsp))).
    cbn [torn]. split.
    + intros Hnt. destruct Hgood as (Hok' & Hsp' & Hc); [destruct ok; [by left|right; apply Z.eq_dne; tauto]|]. exists bl. split; [split; [done|apply Hinv]|]. split; [by apply (spaces_answers os commit)|].
      unfold abstract. rewrite Hext, Hlow. constructor; [done|]. intros Hok. specialize (Hc Hok). unfold capacity in Hc.
      rewrite !wf_committed_size in Hc by (apply Hsp || apply Hsp'). lia.
    + destruct ok; [done|]. intros Hne. split; [by apply Htorn|]. unfold abstract. rewrite Hext, Hlow. by constructor.
Qed.

Lemma run_simulated (os : OS) (fl : Flags) (cs : list HeapCall) (h h' : CodeHeap) (bl : list seg) :
  flags_ok fl -> inv h bl -> spaces_ok os h -> heap_run os fl cs h h' ->
  exists bl', inv h' bl' /\ spaces_ok os h' /\ alloc_run cs (abstract h bl) (abstract h' bl').
Proof.
  intros Hfl Hinv Hsp Hr. revert bl Hinv Hsp. induction Hr as [h|c cs h h1 h2 Hst Hnt _ IH]; intros bl Hinv Hsp; [exists bl; split; [done|]; split; [done|constructor]|].
  destruct (step_simulated os fl c h h1 bl Hfl Hinv Hsp Hst) as [(bl1 & Hinv1 & Hsp1 & Ha) _]; [done|]. destruct (IH bl1 Hinv1 Hsp1) as (bl2 & ? & ? & Hr). exists bl2. split; [done|]. split; [done|]. by apply (alloc_cons _ _ _ _ _ Ha).
Qed.

(** *** Accounting *)

Fixpoint used_len (bl : list seg) : Z :=
  match bl with [] => 0 | b :: bl => s_len b + used_len bl end.

Lemma used_len_app (l1 l2 : list seg) : used_len (l1 ++ l2) = used_len l1 + used_len l2.
Proof. induction l1 as [|b l1 IH]; cbn; lia. Qed.

(** Free and used segments add up to the segments handed out. *)
Lemma free_used_len (bl : list seg) (s e : Z) :
  contig s bl e -> free_len bl + used_len (used_blocks bl) = e - s.
Proof.
  revert s. induction bl as [|b bl IH]; intros s; [cbn; lia|].
  rewrite used_blocks_cons. intros (_ & _ & Hc%IH). cbn. destruct (s_used b); cbn; lia.
Qed.

(** *** Iteration *)

(** The address of the first block of a suffix of the layout, 0 at its end. *)
Definition suffix_start (h : CodeHeap) (l : list seg) : Z :=
  match l with [] => 0 | b :: _ => block_at h (s_start b) end.

(** The client pointer of the first block of a list, 0 for none. *)
Definition head_ptr (h : CodeHeap) (l : list seg) : Z :=
  match l with [] => 0 | b :: _ => ptr h b end.

Lemma block_addr_pos (h : CodeHeap) (bl : list seg) (b : seg) :
  heap_ok h bl -> b ∈ bl -> 0 < block_at h (s_start b).
Proof.
  intros Hok Hb. apply block_at_pos; [apply (ok_geometry _ _ Hok)|].
  pose proof (contig_in _ _ _ _ (ok_contig _ _ Hok) Hb). lia.
Qed.

Lemma next_block_spec (h : CodeHeap) (l1 l2 : list seg) (b : seg) :
  heap_ok h (l1 ++ b :: l2) -> next_block h (block_at h (s_start b)) = Some (suffix_start h l2).
Proof.
  intros Hok. pose proof (ok_geometry _ _ Hok) as Hg.
  assert (Hin : b ∈ l1 ++ b :: l2) by (apply elem_of_app; right; constructor).
  pose proof (block_addr_pos h _ b Hok Hin). unfold next_block.
  destruct (Z.eqb_spec (block_at h (s_start b)) 0); [lia|].
  destruct (linked_elem _ _ _ _ b (ok_linked _ _ Hok) Hin) as (hb & -> & Hlen & _). cbn [mbind option_bind].
  rewrite Hlen, segment_for_block_at by done.
  pose proof (ok_contig _ _ Hok) as (m & _ & Hs & Hl & Hc)%contig_app. subst m.
  destruct l2 as [|c l2]; cbn in Hc.
  - rewrite Hc. by rewrite Z.ltb_irrefl.
  - destruct Hc as (Hcs & Hcl & Hc). apply contig_le in Hc.
    destruct (Z.ltb_spec (s_start b + s_len b) (next_segment h)); [|lia]. cbn. by rewrite Hcs.
Qed.

Lemma next_free_spec (h : CodeHeap) (l1 l2 : list seg) :
  heap_ok h (l1 ++ l2) -> coalesced l2 ->
  next_free h (suffix_start h l2) = Some (head_ptr h (used_blocks l2)).
Proof.
  intros Hok Hco. unfold next_free. destruct l2 as [|b l2]; [done|]. cbn [suffix_start].
  assert (Hpos : forall c, c ∈ l1 ++ b :: l2 -> (block_at h (s_start c) =? 0) = false).
  { intros c Hc. pose proof (block_addr_pos h _ c Hok Hc). apply Z.eqb_neq. lia. }
  assert (Hin : b ∈ l1 ++ b :: l2) by (apply elem_of_app; right; constructor).
  rewrite (Hpos b Hin).
  destruct (linked_elem _ _ _ _ b (ok_linked _ _ Hok) Hin) as (hb & -> & _ & Hu). cbn [mbind option_bind].
  unfold free. rewrite Hu, used_blocks_cons. destruct (s_used b) eqn:Hub; cbn [negb].
  - cbn [mbind option_bind]. by rewrite Hpos.
  - rewrite (next_block_spec h l1 l2 b Hok). cbn [mbind option_bind].
    destruct l2 as [|c l2]; [done|]. cbn [suffix_start].
    rewrite (Hpos c) by (apply elem_of_app; right; right; constructor).
    destruct Hco as [[Hco|Hco] _]; [congruence|]. by rewrite used_blocks_cons, Hco.
Qed.

(** A used block in the list of used blocks is in the layout, followed by the
    blocks the rest of that list comes from. *)
Lemma used_blocks_split (bl u1 u2 : list seg) (b : seg) :
  used_blocks bl = u1 ++ b :: u2 ->
  exists l1 l2, bl = l1 ++ b :: l2 /\ s_used b = true /\ used_blocks l1 = u1 /\ used_blocks l2 = u2.
Proof.
  revert u1. induction bl as [|c bl IH]; intros u1; [by destruct u1|].
  rewrite used_blocks_cons. destruct (s_used c) eqn:Hc.
  - destruct u1 as [|d u1]; cbn; intros [= -> He]; [by exists [], bl|].
    destruct (IH u1 He) as (l1 & l2 & -> & Hb & <- & <-). exists (d :: l1), l2.
    by rewrite used_blocks_cons, Hc.
  - intros He. destruct (IH u1 He) as (l1 & l2 & -> & Hb & <- & <-). exists (c :: l1), l2.
    by rewrite used_blocks_cons, Hc.
Qed.

Lemma ptr_in_block (h : CodeHeap) (bl : list seg) (b : seg) :
  heap_ok h bl -> b ∈ bl -> in_block h b (ptr h b).
Proof.
  intros Hok Hb. pose proof (ok_geometry _ _ Hok) as Hg.
  pose proof (contig_in _ _ _ _ (ok_contig _ _ Hok) Hb). pose proof (geo_segment_size h Hg) as Hs.
  unfold in_block, ptr, allocated_space. rewrite !block_at_eq by done.
  unfold sizeof_HeapBlock, sizeof_FreeBlock in *. nia.
Qed.

(** [find_start] of any address inside a used block. *)
Lemma find_start_inside (h : CodeHeap) (bl : list seg) (b : seg) (p : Z) :
  heap_ok h bl -> b ∈ bl -> s_used b = true -> in_block h b p -> find_start h p = Some (ptr h b).
Proof.
  intros Hok Hb Hu Hp. pose proof (ok_geometry _ _ Hok) as Hg.
  destruct (find_start_spec h bl p Hok) as (r & -> & [[_ Hno] | (c & Hc & _ & Hpc & ->)]).
  - by destruct (Hno b Hb Hu).
  - apply in_block_segment in Hp, Hpc; try done.
    by rewrite (contig_unique bl _ _ (segment_for h p) b c (ok_contig _ _ Hok)).
Qed.

(** ** A concrete heap

    64 KB reserved, 16 KB committed, 64-byte segments, 4 KB pages. *)
Definition sample_os : OS :=
  mkOS 0x1000 0x1000 false (fun _ _ => 0x1000)
    (fun size _ => mkReserved 0x100000 size false true)
    (fun size => mkReserved 0x900000 size false false) (fun _ _ => true).

Definition sample_flags : Flags := mkFlags 4 0x1000.

Definition sample_heap : CodeHeap :=
  match reserve sample_os new_heap 0x10000 0x4000 64 with Some (_, h) => h | None => new_heap end.

Definition sample_allocated : CodeHeap :=
  match allocate sample_flags sample_heap 1000 false with Some (_, h) => h | None => new_heap end.

Lemma sample_platform_ok : platform_ok sample_os.
Proof.
  constructor; cbn.
  - split; [lia | done].
  - split; [lia|]. split; [done | by exists 1].
  - intros size n Hs. repeat split; try lia; by exists 1.
  - intros size align _. cbn. repeat split; try lia. by exists 256.
  - intros size _. cbn. repeat split; try lia. by exists 0x900.
Qed.

Lemma sample_flags_ok : flags_ok sample_flags.
Proof. unfold flags_ok. cbn. lia. Qed.

Lemma sample_heap_ok : inv sample_heap [] /\ spaces_ok sample_os sample_heap.
Proof.
  destruct (reserve_spec sample_os 0x10000 0x4000 64 sample_heap sample_platform_ok) as (H1 & H2 & _);
    unfold sizeof_FreeBlock; try (cbn; lia); [done | by exists 64 | by vm_compute | done].
Qed.

Lemma sample_step : heap_step sample_os sample_flags (Allocate 1000 false 0x100010) sample_heap sample_allocated.
Proof.
  apply (step_allocate sample_os sample_flags _ _ 1000 false 0x100010); [lia|].
  vm_compute. reflexivity.
Qed.

Lemma sample_allocated_ok : exists bl, inv sample_allocated bl.
Proof.
  destruct sample_heap_ok as [H1 H2].
  destruct (step_simulated _ _ _ _ _ [] sample_flags_ok H1 H2 sample_step) as [(bl & Hi & _) _]; [by intros []|]. by exists bl.
Qed.

(** ** Correctness *)

(** C2: the heap implements an allocator of disjoint extents.  Take a heap that [reserve] set
    up and any sequence of [allocate], [deallocate] and [expand_by] calls with their results,
    memory being committed or refused in any way, in which no [expand_by] fails to grow the
    segment map after it has raised the number of segments.  Then the same calls with the
    same results are a run of the abstract allocator from no extents to the extents of the
    used blocks, which do not overlap and lie in committed memory, and the layout
    invariant holds.  In each such heap [allocate] and the [deallocate] of every live
    pointer have results.  An [expand_by] that does fail to grow the segment map leaves the
    extents as they are, and counts segments without a byte in the map. *)
Theorem code_heap_refines_allocator (os : OS) (fl : Flags) (R C S : Z) (cs : list HeapCall) (h0 h : CodeHeap) :
  platform_ok os -> flags_ok fl -> vm_page_size os <= R < 2 ^ 60 -> 0 <= C <= R ->
  sizeof_FreeBlock <= S -> is_power_of_2 S = true -> (S | vm_page_size os) ->
  reserve os new_heap R C S = Some (true, h0) -> heap_run os fl cs h0 h ->
  exists bl, inv h bl /\ alloc_run cs (mkAllocator (low (memory h0)) (high (memory h0)) []) (abstract h bl) /\
    disjoint_in (low (memory h)) (high (memory h)) (extents h bl) /\
    (forall n critical, 0 <= n < 2 ^ 62 -> exists p h', heap_step os fl (Allocate n critical p) h h') /\
    (forall x, x ∈ extents h bl -> exists h', heap_step os fl (Deallocate (allocated_space x.1)) h h') /\
    (forall c h', heap_step os fl c h h' -> torn c h h' -> segments_without_map h h' /\ alloc_step c (abstract h bl) (abstract h' bl)).
Proof.
  intros Hpl Hfl HR HC HS Hpow Hdiv Hres Hrun.
  destruct (reserve_spec os R C S h0 Hpl HR HC HS Hpow Hdiv Hres) as (Hok & Hsp0 & _).
  destruct (run_simulated os fl cs h0 h [] Hfl (conj Hok I) Hsp0 Hrun) as (bl & Hinv & Hsp & Hr). exists bl.
  split; [done|]. split; [done|]. split; [apply extents_disjoint, Hinv|]. split; [|split].
  - intros n critical Hn. destruct (allocate_spec fl h bl n critical Hfl (proj1 Hinv) Hn) as (p & h' & Ha & _). exists p, h'. by constructor.
  - intros x (b & -> & Hb)%list_elem_of_fmap. apply list_elem_of_split in Hb as (u1 & u2 & Hb). destruct (used_blocks_split _ _ _ _ Hb) as (l1 & l2 & -> & Hu & _ & _). destruct Hinv as [Hok' Hco].
    assert (Hin : b ∈ l1 ++ b :: l2) by (apply elem_of_app; right; constructor). pose proof (block_addr_pos h _ b Hok' Hin).
    destruct (deallocate_spec h l1 l2 b Hok' Hu) as (h' & bl' & Hd & _). exists h'. apply step_deallocate; [cbn; unfold allocated_space, sizeof_HeapBlock; lia| |done].
    apply (find_start_inside h (l1 ++ b :: l2) b); [done..|]. by apply (ptr_in_block h (l1 ++ b :: l2)).
  - intros c h' Hst Ht. by apply (step_simulated os fl c h h' bl Hfl Hinv Hsp Hst).
Qed.

Lemma code_heap_refines_allocator_witness :
  exists bl, inv sample_allocated bl /\ alloc_run [Allocate 1000 false 0x100010] (mkAllocator 0x100000 0x104000 []) (abstract sample_allocated bl).
Proof.
  destruct (code_heap_refines_allocator sample_os sample_flags 0x10000 0x4000 64 [Allocate 1000 false 0x100010] sample_heap sample_allocated
              sample_platform_ok sample_flags_ok) as (bl & H1 & H2 & _);
    unfold sizeof_FreeBlock; try (cbn; lia).
  - reflexivity.
  - exists 64. reflexivity.
  - vm_compute. reflexivity.
  - eapply run_cons; [exact sample_step|intros []|apply run_nil].
  - exists bl. split; [exact H1 | exact H2].
Defined.

(** C18: [allocate] always returns.  It either returns [NULL] and leaves the heap
    as it was (for a critical request only when neither a free block nor the room
    at the top is large enough), or the client pointer of a fresh block that has
    room for the header and the requested bytes; all other used blocks stay as
    they are and the invariant holds. *)
Theorem allocate_correct (fl : Flags) (h : CodeHeap) (bl : list seg) (instance_size : Z) (is_critical : bool) :
  flags_ok fl -> inv h bl -> 0 <= instance_size < 2 ^ 62 ->
  exists p h', allocate fl h instance_size is_critical = Some (p, h') /\
    ((p = 0 /\ h' = h /\
      (is_critical = true -> exhausted fl h bl (size_to_segments h (instance_size + header_size)))) \/
     (exists bl' b u1 u2, inv h' bl' /\ same_shape h h' /\ p = ptr h' b /\ p <> 0 /\
        header_size + instance_size <= s_len b * segment_size h /\
        used_blocks bl = u1 ++ u2 /\ used_blocks bl' = u1 ++ b :: u2)).
Proof.
  intros Hfl [Hok Hco] Hsize. pose proof (ok_geometry _ _ Hok) as Hg.
  destruct (allocate_spec fl h bl instance_size is_critical Hfl Hok Hsize) as (p & h' & Ha & Hcases).
  exists p, h'. split; [done|].
  destruct Hcases as [Hfail | (q & -> & bl' & b & Hok' & Hsh & (Hu & Hb & (u1 & u2 & H1 & H2) & Hco') & Hlen & ->)];
    [by left | right].
  exists bl', b, u1, u2. unfold ptr, allocated_space. rewrite (same_shape_block_at h h') by done.
  pose proof (block_addr_pos h' bl' b Hok' Hb) as Hpos. rewrite (same_shape_block_at h h') in Hpos by done.
  split; [split; [done | by apply Hco']|]. split; [done|]. split; [done|].
  unfold header_size, sizeof_HeapBlock in *. split; [lia|]. split; [|done].
  destruct (size_to_segments_spec h (instance_size + 16) Hg ltac:(lia)).
  pose proof (geo_segment_size h Hg) as Hs. unfold sizeof_FreeBlock in Hs. nia.
Qed.

Lemma allocate_correct_witness :
  exists p h', allocate sample_flags sample_heap 1000 true = Some (p, h') /\ p <> 0.
Proof.
  destruct (allocate_correct sample_flags sample_heap [] 1000 true sample_flags_ok (proj1 sample_heap_ok) ltac:(lia))
    as (p & h' & Ha & [(Hp & _) | (bl' & b & u1 & u2 & _ & _ & _ & Hp & _)]).
  - exfalso. assert (Hc : option_map fst (allocate sample_flags sample_heap 1000 true) = Some 0x100010)
      by (vm_compute; reflexivity).
    rewrite Ha in Hc. cbn in Hc. rewrite Hp in Hc. discriminate Hc.
  - exists p, h'. split; [exact Ha | exact Hp].
Defined.

(** C19: [deallocate] of a pointer that [find_start] accepts succeeds: exactly the
    block of that pointer leaves the used blocks, its segments are counted as
    free, and the free list stays ordered and coalesced. *)
Theorem deallocate_correct (h : CodeHeap) (bl : list seg) (p : Z) :
  inv h bl -> p <> 0 -> find_start h p = Some p ->
  exists h' bl' b u1 u2, deallocate h p = Some h' /\ inv h' bl' /\ same_shape h h' /\ p = ptr h b /\
    used_blocks bl = u1 ++ b :: u2 /\ used_blocks bl' = u1 ++ u2 /\
    freelist_segments h' = freelist_segments h + s_len b.
Proof.
  intros [Hok Hco] Hp Hfs.
  destruct (find_start_self h bl p Hok Hp Hfs) as (bl1 & b & bl2 & -> & Hu & ->).
  destruct (free_header h bl1 bl2 b Hok Hu) as (hb & Hhb & Hlen & _).
  destruct (add_to_freelist_ok h bl1 bl2 b hb Hok Hu Hhb Hlen) as (h' & bl' & Ha & Hok' & Hsh & Hnx & Hlay).
  exists h', bl', b, (used_blocks bl1), (used_blocks bl2). split.
  { unfold deallocate, ptr, allocated_space.
    by replace (block_at h (s_start b) + sizeof_HeapBlock - sizeof_HeapBlock) with (block_at h (s_start b)) by lia. }
  split; [split; [done | by apply Hlay]|]. split; [done|]. split; [done|].
  rewrite used_blocks_app, used_blocks_cons, Hu. split; [done|]. split; [apply Hlay|].
  pose proof (free_used_len _ _ _ (ok_contig _ _ Hok')) as E1. pose proof (free_used_len _ _ _ (ok_contig _ _ Hok)) as E2.
  rewrite (ok_free_segments _ _ Hok'), (ok_free_segments _ _ Hok). destruct Hlay as [Hl _].
  rewrite Hl, Hnx in E1. rewrite used_blocks_app, used_blocks_cons, Hu in E2.
  rewrite used_len_app in *. cbn in E2. lia.
Qed.

Lemma deallocate_correct_witness :
  exists h', deallocate sample_allocated 0x100010 = Some h'.
Proof.
  destruct sample_allocated_ok as (bl & Hinv).
  destruct (deallocate_correct sample_allocated bl 0x100010 Hinv) as (h' & bl' & b & u1 & u2 & Hd & _).
  - lia.
  - vm_compute. reflexivity.
  - exists h'. exact Hd.
Defined.

(** C20: [find_start] terminates on every address and returns the client pointer
    of the used block the address lies in, header and slack included, and [NULL]
    for every address that lies in no used block. *)
Theorem find_start_correct (h : CodeHeap) (bl : list seg) (p : Z) :
  inv h bl ->
  exists r, find_start h p = Some r /\
    (r = 0 <-> forall b, b ∈ used_blocks bl -> ~ in_block h b p) /\
    (forall b, b ∈ used_blocks bl -> in_block h b p -> r = ptr h b).
Proof.
  intros [Hok _].
  assert (Hub : forall b, b ∈ used_blocks bl <-> b ∈ bl /\ s_used b = true).
  { intros b. unfold used_blocks. rewrite !list_elem_of_In. apply List.filter_In. }
  destruct (find_start_spec h bl p Hok) as (r & Hr & Hcases). exists r. split; [done|]. split.
  - destruct Hcases as [[-> Hno] | (b & Hb & Hu & Hp & ->)].
    + split; [|done]. intros _ b [Hb Hu]%Hub. by apply Hno.
    + pose proof (block_addr_pos h bl b Hok Hb). split.
      * unfold allocated_space, sizeof_HeapBlock. lia.
      * intros Hno. by destruct (Hno b (proj2 (Hub b) (conj Hb Hu))).
  - intros b [Hb Hu]%Hub Hp. rewrite (find_start_inside h bl b p Hok Hb Hu Hp) in Hr. by injection Hr.
Qed.

Lemma find_start_correct_witness :
  exists bl r, inv sample_allocated bl /\ find_start sample_allocated 0x100200 = Some r /\
    (r = 0 <-> forall b, b ∈ used_blocks bl -> ~ in_block sample_allocated b 0x100200).
Proof.
  destruct sample_allocated_ok as (bl & Hinv).
  destruct (find_start_correct sample_allocated bl 0x100200 Hinv) as (r & H1 & H2 & _).
  exists bl, r. split; [exact Hinv|]. split; [exact H1 | exact H2].
Defined.

(** C33: [first] and [next] visit the used blocks in address order: [first] is the
    lowest used block, [next] of a used block is the following used block, and
    [NULL] ends the walk. *)
Theorem iteration_correct (h : CodeHeap) (bl : list seg) :
  inv h bl ->
  first h = Some (head_ptr h (used_blocks bl)) /\
  forall u1 b u2, used_blocks bl = u1 ++ b :: u2 -> next h (ptr h b) = Some (head_ptr h u2).
Proof.
  intros [Hok Hco]. split.
  - unfold first. rewrite <- (next_free_spec h [] bl Hok Hco). f_equal. unfold first_block.
    pose proof (ok_contig _ _ Hok) as Hc. destruct bl as [|b bl]; cbn in *; [by rewrite <- Hc|].
    destruct Hc as (-> & Hl & Hc%contig_le). destruct (Z.ltb_spec 0 (next_segment h)); [done | lia].
  - intros u1 b u2 (l1 & l2 & -> & Hu & _ & <-)%used_blocks_split.
    assert (Hin : b ∈ l1 ++ b :: l2) by (apply elem_of_app; right; constructor).
    pose proof (block_addr_pos h _ b Hok Hin) as Hpos.
    unfold next, block_start.
    rewrite (find_start_inside h _ b _ Hok Hin Hu) by (by apply (ptr_in_block h (l1 ++ b :: l2))).
    cbn [mbind option_bind]. unfold ptr at 1. unfold allocated_space.
    destruct (Z.eqb_spec (block_at h (s_start b) + sizeof_HeapBlock) 0); [unfold sizeof_HeapBlock in *; lia|].
    unfold ptr, allocated_space.
    replace (block_at h (s_start b) + sizeof_HeapBlock - sizeof_HeapBlock) with (block_at h (s_start b)) by lia.
    rewrite (next_block_spec h l1 l2 b Hok). cbn [mbind option_bind].
    rewrite (next_free_spec h (l1 ++ [b]) l2); [done | by rewrite <- app_assoc|].
    unfold coalesced in *. rewrite fmap_app in Hco. cbn in Hco.
    by apply neighbours_split in Hco as [_ Hco%neighbours_tail].
Qed.

Lemma iteration_correct_witness :
  exists bl, inv sample_allocated bl /\ first sample_allocated = Some (head_ptr sample_allocated (used_blocks bl)).
Proof.
  destruct sample_allocated_ok as (bl & Hinv).
  destruct (iteration_correct sample_allocated bl Hinv) as [H1 _].
  exists bl. split; [exact Hinv | exact H1].
Defined.

(** A scan of the free list for a critical request selects a block of the
    smallest sufficient length, together with its predecessor on the list; it
    selects none only when no free block is large enough. *)
Lemma search_best_fit (fl : Flags) (h : CodeHeap) (bl : list seg) (len : Z) :
  inv h bl ->
  exists best, search_loop fl (S (size (blocks h))) h len true 0 (freelist h) (0, 0, 0) = Some best /\
    ((best = (0, 0, 0) /\ forall c, c ∈ bl -> s_used c = false -> s_len c < len) \/
     (exists l1 b l2, bl = l1 ++ b :: l2 /\ s_used b = false /\ len <= s_len b /\
        best = (block_at h (s_start b), last_free (block_at h) 0 l1, s_len b) /\
        forall c, c ∈ bl -> s_used c = false -> len <= s_len c -> s_len b <= s_len c)).
Proof.
  intros [Hok _]. pose proof (ok_geometry _ _ Hok) as Hg. pose proof (ok_contig _ _ Hok) as Hc.
  destruct (search_loop_spec fl h len true Hg bl [] (0, 0, 0) (S (size (blocks h)))) as (best & Hs & Hbest).
  - apply (ok_linked _ _ Hok).
  - intros c Hin. pose proof (contig_in _ _ _ c Hc Hin). lia.
  - left. split; [done|]. intros _ c []%not_elem_of_nil.
  - pose proof (linked_size h _ _ _ _ _ Hg Hc (ok_linked _ _ Hok)). lia.
  - rewrite (ok_freelist _ _ Hok). exists best. split; [exact Hs|].
    destruct Hbest as [[-> Hno]|(l1 & b & l2 & Hbl & Hu & Hl & -> & Hmin)]; [left|right].
    + split; [done|]. by apply Hno.
    + exists l1, b, l2. do 4 (split; [done|]). by apply Hmin.
Qed.

Lemma search_best_fit_witness :
  exists bl, inv sample_allocated bl /\
    search_loop sample_flags (S (size (blocks sample_allocated))) sample_allocated 3 true 0
      (freelist sample_allocated) (0, 0, 0) = Some (0, 0, 0).
Proof.
  destruct sample_allocated_ok as (bl & Hinv).
  destruct (search_best_fit sample_flags sample_allocated bl 3 Hinv) as (best & Hs & _).
  exists bl. split; [exact Hinv|]. vm_compute. reflexivity.
Defined.

(** The capacities add up: [allocated_capacity] is the size of the used
    blocks, [heap_unallocated_capacity] the size of the reserved segments above
    [_next_segment]; neither computation wraps. *)
Lemma capacity_accounting (h : CodeHeap) (bl : list seg) :
  inv h bl ->
  allocated_capacity h = used_len (used_blocks bl) * segment_size h /\
  heap_unallocated_capacity h = (number_of_reserved_segments h - next_segment h) * segment_size h.
Proof.
  intros [Hok _]. pose proof (ok_geometry _ _ Hok) as Hg. pose proof (ok_contig _ _ Hok) as Hc.
  pose proof (free_used_len _ _ _ Hc) as Hsum. pose proof (free_len_nonneg _ _ _ Hc).
  pose proof (contig_le _ _ _ Hc). pose proof (ok_next _ _ Hok). pose proof (geo_segments h Hg).
  pose proof (geometry_bound h Hg). pose proof (geo_top h Hg) as Ht. rewrite (geo_reserved h Hg), block_at_eq in Ht by done.
  destruct (geo_low h Hg), (geo_log2 h Hg) as [Hl Hs]. pose proof (geo_segment_size h Hg) as Hss.
  unfold sizeof_FreeBlock in Hss.
  assert (Hseg : forall n, 0 <= n <= number_of_reserved_segments h -> segments_to_size h n = n * segment_size h).
  { intros n Hn. unfold segments_to_size. rewrite Z.shiftl_mul_pow2, <- Hs by lia. apply umod_id. nia. }
  unfold allocated_capacity, heap_unallocated_capacity.
  rewrite (ok_free_segments _ _ Hok), !umod_id by lia. rewrite !Hseg by lia. split; [|done]. f_equal. lia.
Qed.

Lemma capacity_accounting_witness :
  exists bl, inv sample_allocated bl /\ allocated_capacity sample_allocated = 1024 /\
    heap_unallocated_capacity sample_allocated =
      (number_of_reserved_segments sample_allocated - next_segment sample_allocated) * 64.
Proof.
  destruct sample_allocated_ok as (bl & Hinv).
  destruct (capacity_accounting sample_allocated bl Hinv) as [_ H2].
  exists bl. split; [exact Hinv|]. split; [vm_compute; reflexivity | exact H2].
Defined.

(** Growing the heap keeps its contents: when [expand_by] returns true the
    capacity grew by at least the requested size and all blocks are where they
    were; when committing heap memory fails nothing changes for the heap. *)
Lemma heap_expand_by_correct (os : OS) (h h' : CodeHeap) (bl : list seg) (size : Z) (ok : bool) :
  inv h bl -> spaces_ok os h -> 0 <= size -> capacity h + size + vm_page_size os < 2 ^ 63 ->
  heap_expand_by os h size = (ok, h') ->
  ok = true \/ number_of_committed_segments h' = number_of_committed_segments h ->
  inv h' bl /\ spaces_ok os h' /\ extents h' bl = extents h bl /\
  (ok = true -> capacity h + size <= capacity h').
Proof.
  intros [Hok Hco] Hsp Hs Hcap He Hcase.
  destruct (heap_expand_by_spec os h h' bl size ok Hok Hsp Hs Hcap He) as (_ & _ & Hgood & _). destruct (Hgood Hcase) as (H1 & H2 & H3).
  split; [done|]. split; [done|]. split; [|done]. apply extents_same_shape. intros i.
  by apply (heap_expand_by_block_at os h h' size i ok (sp_memory _ _ Hsp)).
Qed.

Lemma heap_expand_by_correct_witness :
  inv (snd (heap_expand_by sample_os sample_heap 5000)) [] /\
  0x4000 + 5000 <= capacity (snd (heap_expand_by sample_os sample_heap 5000)).
Proof.
  destruct sample_heap_ok as [H1 H2].
  destruct (heap_expand_by_correct sample_os sample_heap (snd (heap_expand_by sample_os sample_heap 5000)) [] 5000 true
              H1 H2) as (G1 & _ & _ & G4).
  - lia.
  - vm_compute. reflexivity.
  - vm_compute. reflexivity.
  - left. reflexivity.
  - split; [exact G1 | exact (G4 eq_refl)].
Defined.

Lemma option_fst_some {A B : Type} (x : option (A * B)) (a : A) :
  option_map fst x = Some a -> exists b, x = Some (a, b).
Proof. destruct x as [[a' b]|]; [|done]. cbn. intros [= ->]. by exists b. Qed.

(** The reserve for critical allocations is not enforced at the end of the
    heap.  Once less than CodeCacheMinimumFreeSpace is unallocated, the
    subtraction in [allocate] wraps around, and a non-critical request is served
    from the reserve. *)
Lemma allocate_reserve_wraps :
  exists cs h p h', heap_run sample_os sample_flags cs sample_heap h /\
    heap_unallocated_capacity h < CodeCacheMinimumFreeSpace sample_flags /\
    allocate sample_flags h 1000 false = Some (p, h') /\ p <> 0.
Proof.
  set (h1 := snd (heap_expand_by sample_os sample_heap 0xc000)).
  destruct (option_fst_some (allocate sample_flags h1 (0xf800 - 16) true) 0x100010) as (h2 & H2); [by vm_compute|].
  assert (Hu : forall x, Some (0x100010, x) = allocate sample_flags h1 (0xf800 - 16) true ->
     heap_unallocated_capacity x < 0x1000 /\
     option_map fst (allocate sample_flags x 1000 false) = Some 0x10f810).
  { set (a := allocate _ _ _ _). intros x Hx.
    assert (Hb : match a with
                 | Some (_, x) => (heap_unallocated_capacity x <? 0x1000) &&
                     match allocate sample_flags x 1000 false with Some (p, _) => p =? 0x10f810 | None => false end
                 | None => false end = true) by (by vm_compute).
    rewrite <- Hx in Hb. apply andb_true_iff in Hb as [H3%Z.ltb_lt H4]. split; [done|].
    destruct (allocate sample_flags x 1000 false) as [[p x']|]; [|done]. apply Z.eqb_eq in H4 as ->. done. }
  destruct (Hu h2 (eq_sym H2)) as [H3 H4].
  destruct (option_fst_some _ _ H4) as (h3 & H5).
  exists [ExpandBy 0xc000 true; Allocate (0xf800 - 16) true 0x100010], h2, 0x10f810, h3. split; [|split; [exact H3|split; [exact H5|lia]]].
  eapply run_cons; [|by intros []|eapply run_cons; [|by intros []|apply run_nil]].
  - apply (step_expand sample_os sample_flags (commit_memory sample_os) sample_heap h1 0xc000 true);
      [lia | by vm_compute | apply injective_projections; by vm_compute].
  - apply (step_allocate sample_os sample_flags h1 h2 (0xf800 - 16) true 0x100010); [lia | exact H2].
Qed.

(** When the segment map cannot grow, [expand_by] returns false with the
    number of committed segments already raised: the heap then counts segments
    that have no committed byte in the segment map. *)
Lemma expand_by_segmap_failure :
  exists (os : OS) (h h' : CodeHeap) (size : Z),
    reserve os new_heap 0x100000 0x20000 64 = Some (true, h) /\
    heap_expand_by os h size = (false, h') /\
    number_of_committed_segments h < number_of_committed_segments h' /\
    committed_size (segmap h') < number_of_committed_segments h'.
Proof.
  set (os := mkOS 0x1000 0x1000 false (fun _ _ => 0x1000)
    (fun size _ => mkReserved 0x100000 size false true)
    (fun size => mkReserved 0x900000 size false false) (fun a _ => a <=? 0x900000)).
  set (h := match reserve os new_heap 0x100000 0x20000 64 with Some (_, h) => h | None => new_heap end).
  exists os, h, (snd (heap_expand_by os h 0x40000)), 0x40000.
  split; [vm_compute; reflexivity|]. split; [vm_compute; reflexivity|]. split; vm_compute; reflexivity.
Qed.
