(* ===== verification/BitMap.v ===== *)
(** The bit maps of utilities/bitMap.hpp, bitMap.inline.hpp and bitMap.cpp: sets
    of bit indices stored in an array of 64-bit words.

    [bm_map] is the word array and [bm_size] the number of bits.  An access
    outside the array has no result ([None]).  The operations that use
    compare-and-swap take the effects of other threads on the word as an
    argument: one function per attempt, applied between the read of the word and
    the swap. *)

From S2P Require Import Prelude GlobalDefinitions.

(** ** Definitions *)

Record BitMap := mkBitMap { bm_map : list Z; bm_size : Z }.

Inductive RangeSizeHint := unknown_range | small_range | large_range.

Definition LogBitsPerWord : Z := 6.
Definition NoBits : Z := 0.
Definition AllBits : Z := u64 (-1).
Definition small_range_words : Z := 32.

(** *** Words and bits *)

Definition bit_in_word (bit : Z) : Z := Z.land bit (BitsPerWord - 1).
Definition bit_mask (bit : Z) : Z := u64 (Z.shiftl 1 (bit_in_word bit)).
Definition word_index (bit : Z) : Z := Z.shiftr bit LogBitsPerWord.
Definition bit_index (word : Z) : Z := u64 (Z.shiftl word LogBitsPerWord).

Definition size_in_words (bm : BitMap) : Z := word_index (u64 (bm_size bm + BitsPerWord - 1)).

Definition load (bm : BitMap) (word : Z) : option Z := zget (bm_map bm) word.
Definition set_word (bm : BitMap) (word val : Z) : option BitMap :=
  m ← zset (bm_map bm) word val; Some (mkBitMap m (bm_size bm)).
Definition clear_word (bm : BitMap) (word : Z) : option BitMap := set_word bm word 0.

(** Read, change and write one word. *)
Definition update_word (bm : BitMap) (word : Z) (f : Z -> Z) : option BitMap :=
  w ← load bm word; set_word bm word (f w).

Definition at_ (bm : BitMap) (index : Z) : option bool :=
  w ← load bm (word_index index); Some (negb (Z.land w (bit_mask index) =? 0)).

Definition word_align_up (bit : Z) : Z := align_size_up bit BitsPerWord.
Definition word_align_down (bit : Z) : Z := align_size_down bit BitsPerWord.
Definition is_word_aligned (bit : Z) : bool := word_align_up bit =? bit.

Definition set_bit (bm : BitMap) (bit : Z) : option BitMap :=
  update_word bm (word_index bit) (fun w => Z.lor w (bit_mask bit)).
Definition clear_bit (bm : BitMap) (bit : Z) : option BitMap :=
  update_word bm (word_index bit) (fun w => Z.land w (u64 (Z.lnot (bit_mask bit)))).
Definition at_put (bm : BitMap) (offset : Z) (value : bool) : option BitMap :=
  if value then set_bit bm offset else clear_bit bm offset.

(** *** Compare and swap *)

(** A thread in [par_set_bit] or [par_clear_bit]: before it reads the word, with the value
    it has read last, or returned. *)
Inductive cas_state := cas_start | cas_read (old_val : Z) | cas_done (result : bool).

(** The next access of a thread that updates the word with [f], when the word is [w]: the
    first read, the return without a change, or the [cmpxchg]. *)
Definition cas_step (f : Z -> Z) (w : Z) (t : cas_state) : Z * cas_state :=
  match t with
  | cas_start => (w, cas_read w)
  | cas_read old_val =>
      let new_val := f old_val in
      if new_val =? old_val then (w, cas_done false)
      else
        let cur_val := w in
        if cur_val =? old_val then (new_val, cas_done true) else (w, cas_read cur_val)
  | cas_done r => (w, cas_done r)
  end.

(** The loop of one thread from the value it has read, when other threads change the word
    by [others], one before each access: its result and the word afterwards. *)
Fixpoint cas_loop (f : Z -> Z) (others : list (Z -> Z)) (old_val : Z) : bool * Z :=
  match others with
  | [] => match cas_step f old_val (cas_read old_val) with (w, cas_done r) => (r, w) | (w, _) => (false, w) end
  | g :: others =>
      match cas_step f (g old_val) (cas_read old_val) with
      | (w, cas_done r) => (r, w)
      | (w, _) => cas_loop f others w
      end
  end.

Definition par_update (bm : BitMap) (word : Z) (f : Z -> Z) (others : list (Z -> Z)) : option (bool * BitMap) :=
  w ← load bm word;
  let '(r, w) := cas_loop f others w in
  bm ← set_word bm word w; Some (r, bm).

Definition par_set_word (bit old_val : Z) : Z := Z.lor old_val (bit_mask bit).
Definition par_clear_word (bit old_val : Z) : Z := Z.land old_val (u64 (Z.lnot (bit_mask bit))).

Definition par_set_bit (bm : BitMap) (bit : Z) (others : list (Z -> Z)) : option (bool * BitMap) :=
  par_update bm (word_index bit) (par_set_word bit) others.
Definition par_clear_bit (bm : BitMap) (bit : Z) (others : list (Z -> Z)) : option (bool * BitMap) :=
  par_update bm (word_index bit) (par_clear_word bit) others.
Definition par_at_put (bm : BitMap) (bit : Z) (value : bool) (others : list (Z -> Z)) : option (bool * BitMap) :=
  if value then par_set_bit bm bit others else par_clear_bit bm bit others.

(** *** Ranges *)

Fixpoint fill_words (n : nat) (bm : BitMap) (i val : Z) : option BitMap :=
  match n with
  | O => Some bm
  | S n' => bm ← set_word bm i val; fill_words n' bm (i + 1) val
  end.

Definition set_range_of_words (bm : BitMap) (beg fin : Z) : option BitMap :=
  fill_words (Z.to_nat (fin - beg)) bm beg AllBits.
Definition clear_range_of_words (bm : BitMap) (beg fin : Z) : option BitMap :=
  fill_words (Z.to_nat (fin - beg)) bm beg 0.

(** [memset] of whole words, eight bytes of the same value each. *)
Definition memset_word (c : Z) : Z :=
  fold_right (fun _ w => Z.lor (Z.shiftl w 8) c) 0 (seq 0 8).
Definition set_large_range_of_words (bm : BitMap) (beg fin : Z) : option BitMap :=
  fill_words (Z.to_nat (fin - beg)) bm beg (memset_word (u8 (Z.lnot 0))).
Definition clear_large_range_of_words (bm : BitMap) (beg fin : Z) : option BitMap :=
  fill_words (Z.to_nat (fin - beg)) bm beg (memset_word 0).

Definition word_index_round_up (bm : BitMap) (bit : Z) : Z :=
  let bit_rounded_up := u64 (bit + (BitsPerWord - 1)) in
  if bit <? bit_rounded_up then word_index bit_rounded_up else size_in_words bm.

Definition inverted_bit_mask_for_range (beg fin : Z) : Z :=
  let mask := u64 (bit_mask beg - 1) in
  if negb (bit_in_word fin =? 0) then Z.lor mask (u64 (Z.lnot (u64 (bit_mask fin - 1)))) else mask.

Definition set_range_within_word (bm : BitMap) (beg fin : Z) : option BitMap :=
  if negb (beg =? fin) then
    let mask := inverted_bit_mask_for_range beg fin in
    update_word bm (word_index beg) (fun w => Z.lor w (u64 (Z.lnot mask)))
  else Some bm.
Definition clear_range_within_word (bm : BitMap) (beg fin : Z) : option BitMap :=
  if negb (beg =? fin) then
    let mask := inverted_bit_mask_for_range beg fin in
    update_word bm (word_index beg) (fun w => Z.land w mask)
  else Some bm.

(** The loop of [par_put_range_within_word]: it always swaps. *)
Fixpoint swap_loop (f : Z -> Z) (others : list (Z -> Z)) (w : Z) : Z :=
  match others with
  | [] => f w
  | g :: others => let res := g w in if res =? w then f w else swap_loop f others res
  end.

Definition par_put_range_within_word (bm : BitMap) (beg fin : Z) (value : bool) (others : list (Z -> Z))
  : option BitMap :=
  if negb (beg =? fin) then
    let mr := inverted_bit_mask_for_range beg fin in
    update_word bm (word_index beg)
      (swap_loop (fun w => if value then Z.lor w (u64 (Z.lnot mr)) else Z.land w mr) others)
  else Some bm.

Section Ranges.
Context (within_first within_last of_words : BitMap -> Z -> Z -> option BitMap).

(** The shape [set_range], [clear_range] and [par_at_put_range] share. *)
Definition range_op (bm : BitMap) (beg fin : Z) : option BitMap :=
  let beg_full_word := word_index_round_up bm beg in
  let end_full_word := word_index fin in
  if beg_full_word <? end_full_word then
    bm ← within_first bm beg (bit_index beg_full_word);
    bm ← of_words bm beg_full_word end_full_word;
    within_last bm (bit_index end_full_word) fin
  else
    let boundary := Z.min (bit_index beg_full_word) fin in
    bm ← within_first bm beg boundary;
    within_last bm boundary fin.
End Ranges.

Definition set_range : BitMap -> Z -> Z -> option BitMap :=
  range_op set_range_within_word set_range_within_word set_range_of_words.
Definition clear_range : BitMap -> Z -> Z -> option BitMap :=
  range_op clear_range_within_word clear_range_within_word clear_range_of_words.
Definition at_put_range (bm : BitMap) (start_offset end_offset : Z) (value : bool) : option BitMap :=
  if value then set_range bm start_offset end_offset else clear_range bm start_offset end_offset.
Definition par_at_put_range (bm : BitMap) (beg fin : Z) (value : bool) (others1 others2 : list (Z -> Z))
  : option BitMap :=
  range_op (fun bm b e => par_put_range_within_word bm b e value others1)
    (fun bm b e => par_put_range_within_word bm b e value others2)
    (fun bm b e => if value then set_range_of_words bm b e else clear_range_of_words bm b e) bm beg fin.

Definition is_small_range_of_words (beg_full_word end_full_word : Z) : bool :=
  end_full_word <=? u64 (beg_full_word + small_range_words).

Section LargeRanges.
Context (within_first within_last of_words : BitMap -> Z -> Z -> option BitMap).
Context (small : BitMap -> Z -> Z -> option BitMap).

(** The shape of the large range operations. *)
Definition large_range_op (bm : BitMap) (beg fin : Z) : option BitMap :=
  let beg_full_word := word_index_round_up bm beg in
  let end_full_word := word_index fin in
  if is_small_range_of_words beg_full_word end_full_word then small bm beg fin
  else
    bm ← within_first bm beg (bit_index beg_full_word);
    bm ← of_words bm beg_full_word end_full_word;
    within_last bm (bit_index end_full_word) fin.
End LargeRanges.

Definition set_large_range : BitMap -> Z -> Z -> option BitMap :=
  large_range_op set_range_within_word set_range_within_word set_large_range_of_words set_range.
Definition clear_large_range : BitMap -> Z -> Z -> option BitMap :=
  large_range_op clear_range_within_word clear_range_within_word clear_large_range_of_words clear_range.
Definition at_put_large_range (bm : BitMap) (beg fin : Z) (value : bool) : option BitMap :=
  if value then set_large_range bm beg fin else clear_large_range bm beg fin.
Definition par_at_put_large_range (bm : BitMap) (beg fin : Z) (value : bool) (others1 others2 : list (Z -> Z))
  : option BitMap :=
  large_range_op (fun bm b e => par_put_range_within_word bm b e value others1)
    (fun bm b e => par_put_range_within_word bm b e value others2)
    (fun bm b e => if value then set_large_range_of_words bm b e else clear_large_range_of_words bm b e)
    (fun bm b e => par_at_put_range bm b e value others1 others2) bm beg fin.

(** The versions with a hint about the size of the range. *)
Definition set_range_hint (bm : BitMap) (beg fin : Z) (hint : RangeSizeHint) : option BitMap :=
  match hint with
  | small_range => if u64 (fin - beg) =? 1 then set_bit bm beg else set_range bm beg fin
  | large_range => set_large_range bm beg fin
  | unknown_range => set_range bm beg fin
  end.
Definition clear_range_hint (bm : BitMap) (beg fin : Z) (hint : RangeSizeHint) : option BitMap :=
  match hint with
  | small_range => if u64 (fin - beg) =? 1 then clear_bit bm beg else clear_range bm beg fin
  | large_range => clear_large_range bm beg fin
  | unknown_range => clear_range bm beg fin
  end.
(** The shape [par_set_range] and [par_clear_range] share. *)
Definition par_put_range_hint (bm : BitMap) (beg fin : Z) (hint : RangeSizeHint) (value : bool)
    (others1 others2 : list (Z -> Z)) : option BitMap :=
  match hint with
  | small_range =>
      if u64 (fin - beg) =? 1 then '(_, bm) ← par_at_put bm beg value others1; Some bm
      else par_at_put_range bm beg fin value others1 others2
  | large_range => par_at_put_large_range bm beg fin value others1 others2
  | unknown_range => par_at_put_range bm beg fin value others1 others2
  end.
Definition par_set_range (bm : BitMap) (beg fin : Z) (hint : RangeSizeHint) (others1 others2 : list (Z -> Z)) :=
  par_put_range_hint bm beg fin hint true others1 others2.
Definition par_clear_range (bm : BitMap) (beg fin : Z) (hint : RangeSizeHint) (others1 others2 : list (Z -> Z)) :=
  par_put_range_hint bm beg fin hint false others1 others2.

Definition clear (bm : BitMap) : option BitMap := clear_range_of_words bm 0 (size_in_words bm).
Definition clear_large (bm : BitMap) : option BitMap := clear_large_range_of_words bm 0 (size_in_words bm).

(** *** Size *)

(** The words at the start of an array, as far as the array reaches. *)
Definition copy_words (n : Z) (l : list Z) : option (list Z) :=
  if bool_decide (n <= zlen l) then Some (take (Z.to_nat n) l) else None.

(** [fresh] is what the new array holds, [freed] what the old one holds when the
    words are copied: its contents, unless the array was freed before. *)
Definition resize (bm : BitMap) (size_in_bits : Z) (fresh freed : list Z) (in_resource_area : bool)
  : option BitMap :=
  let old_size_in_words := size_in_words bm in
  let old_map := if in_resource_area then bm_map bm else freed in
  let bm := mkBitMap fresh size_in_bits in
  let new_size_in_words := size_in_words bm in
  let n := Z.min old_size_in_words new_size_in_words in
  copied ← copy_words n old_map;
  let bm := mkBitMap (copied ++ drop (Z.to_nat n) fresh) size_in_bits in
  if old_size_in_words <? new_size_in_words
  then clear_range_of_words bm old_size_in_words new_size_in_words
  else Some bm.

Definition new_bitmap (size_in_bits : Z) (fresh : list Z) : option BitMap :=
  resize (mkBitMap [] 0) size_in_bits fresh [] true.

Definition at_put_grow (bm : BitMap) (offset : Z) (value : bool) (fresh : list Z) : option BitMap :=
  bm ← (if bm_size bm <=? offset then resize bm (u64 (2 * Z.max (bm_size bm) offset)) fresh [] true
        else Some bm);
  at_put bm offset value.

(** *** Search *)

(** [for (; !(res & 1); res_offset++) res = res >> 1;] *)
Fixpoint find_one (fuel : nat) (res res_offset : Z) : option Z :=
  match fuel with
  | O => None
  | S fuel' =>
      if Z.land res 1 =? 0 then find_one fuel' (Z.shiftr res 1) (u64 (res_offset + 1)) else Some res_offset
  end.

(** [for (; res & 1; res_offset++) res = res >> 1;] *)
Fixpoint find_zero (fuel : nat) (res res_offset : Z) : option Z :=
  match fuel with
  | O => None
  | S fuel' =>
      if Z.land res 1 =? 0 then Some res_offset else find_zero fuel' (Z.shiftr res 1) (u64 (res_offset + 1))
  end.

(** The loop over the following words, [skip] being the word to skip. *)
Fixpoint next_word_loop (n : nat) (bm : BitMap) (index skip : Z) (find : Z -> Z -> option Z) (r_offset : Z)
  : option Z :=
  match n with
  | O => Some r_offset
  | S n' =>
      res ← load bm index;
      if negb (res =? skip) then off ← find res (bit_index index); Some (Z.min off r_offset)
      else next_word_loop n' bm (index + 1) skip find r_offset
  end.

Definition get_next_one_offset (bm : BitMap) (l_offset r_offset : Z) : option Z :=
  if l_offset =? r_offset then Some l_offset
  else
    let index := word_index l_offset in
    let r_index := word_index (r_offset - 1) + 1 in
    let pos := bit_in_word l_offset in
    w ← load bm index;
    let res := Z.shiftr w pos in
    if negb (res =? NoBits) then off ← find_one 64 res l_offset; Some (Z.min off r_offset)
    else next_word_loop (Z.to_nat (r_index - (index + 1))) bm (index + 1) NoBits (find_one 64) r_offset.

Definition left_n_bits (n : Z) : Z :=
  u64 (Z.shiftl (right_n_bits n) (if BitsPerWord <=? n then 0 else BitsPerWord - n)).

Definition get_next_zero_offset (bm : BitMap) (l_offset r_offset : Z) : option Z :=
  if l_offset =? r_offset then Some l_offset
  else
    let index := word_index l_offset in
    let r_index := word_index (r_offset - 1) + 1 in
    let pos := Z.land l_offset (BitsPerWord - 1) in
    w ← load bm index;
    let res := Z.lor (Z.shiftr w pos) (left_n_bits pos) in
    if negb (res =? AllBits) then off ← find_zero 64 res l_offset; Some (Z.min off r_offset)
    else next_word_loop (Z.to_nat (r_index - (index + 1))) bm (index + 1) AllBits (find_zero 64) r_offset.

Fixpoint next_word_aligned_loop (n : nat) (bm : BitMap) (index r_offset : Z) : option Z :=
  match n with
  | O => Some r_offset
  | S n' =>
      res ← load bm index;
      if negb (res =? NoBits) then find_one 64 res (bit_index index)
      else next_word_aligned_loop n' bm (index + 1) r_offset
  end.

Definition get_next_one_offset_inline_aligned_right (bm : BitMap) (l_offset r_offset : Z) : option Z :=
  if l_offset =? r_offset then Some l_offset
  else
    let index := word_index l_offset in
    let r_index := word_index r_offset in
    w ← load bm index;
    let res := Z.shiftr w (bit_in_word l_offset) in
    if negb (res =? NoBits) then find_one 64 res l_offset
    else next_word_aligned_loop (Z.to_nat (r_index - (index + 1))) bm (index + 1) r_offset.

(** *** Set operations *)

(** The loops over corresponding words that change the destination: the second
    component is the [changed] flag of the versions with a result. *)
Fixpoint combine_loop (f : Z -> Z -> Z) (n : nat) (bm other : BitMap) (index offset_word_ind : Z) (changed : bool)
  : option (bool * BitMap) :=
  match n with
  | O => Some (changed, bm)
  | S n' =>
      orig ← load bm index;
      o ← load other (offset_word_ind + index);
      let temp := f orig o in
      let changed := changed || negb (temp =? orig) in
      bm ← set_word bm index temp;
      combine_loop f n' bm other (index + 1) offset_word_ind changed
  end.

Definition combine (f : Z -> Z -> Z) (bm other : BitMap) (offset_word_ind : Z) : option (bool * BitMap) :=
  combine_loop f (Z.to_nat (size_in_words bm)) bm other 0 offset_word_ind false.

Definition word_union (a b : Z) : Z := Z.lor a b.
Definition word_difference (a b : Z) : Z := Z.land a (u64 (Z.lnot b)).
Definition word_intersection (a b : Z) : Z := Z.land a b.

Definition set_union_with_result (bm other : BitMap) := combine word_union bm other 0.
Definition set_difference_with_result (bm other : BitMap) := combine word_difference bm other 0.
Definition set_intersection_with_result (bm other : BitMap) := combine word_intersection bm other 0.

Definition set_union (bm other : BitMap) : option BitMap := snd <$> combine word_union bm other 0.
Definition set_difference (bm other : BitMap) : option BitMap := snd <$> combine word_difference bm other 0.
Definition set_intersection (bm other : BitMap) : option BitMap := snd <$> combine word_intersection bm other 0.
(** [None] also for an offset the [guarantee] rejects. *)
Definition set_intersection_at_offset (bm other : BitMap) (offset : Z) : option BitMap :=
  if offset mod 64 =? 0 then snd <$> combine word_intersection bm other (word_index offset) else None.
Definition set_from (bm other : BitMap) : option BitMap := snd <$> combine (fun _ b => b) bm other 0.

(** The loops that stop at the first pair of words with [p]. *)
Fixpoint exists_loop (p : Z -> Z -> bool) (n : nat) (bm other : BitMap) (index : Z) : option bool :=
  match n with
  | O => Some false
  | S n' =>
      a ← load bm index; b ← load other index;
      if p a b then Some true else exists_loop p n' bm other (index + 1)
  end.

Definition contains (bm other : BitMap) : option bool :=
  negb <$> exists_loop (fun a b => negb (Z.lor a b =? a)) (Z.to_nat (size_in_words bm)) bm other 0.
Definition intersects (bm other : BitMap) : option bool :=
  exists_loop (fun a b => negb (Z.land a b =? 0)) (Z.to_nat (size_in_words bm)) bm other 0.
Definition is_same (bm other : BitMap) : option bool :=
  negb <$> exists_loop (fun a b => negb (a =? b)) (Z.to_nat (size_in_words bm)) bm other 0.

(** [full_word] is the value every full word must have, [last_ok] the test of
    the last one. *)
Fixpoint full_words_loop (fuel : nat) (bm : BitMap) (word rest full_word : Z) (last_ok : Z -> Z -> bool) : option bool :=
  match fuel with
  | O => None
  | S fuel' =>
      if BitsPerWord <=? rest then
        w ← load bm word;
        if negb (w =? full_word) then Some false
        else full_words_loop fuel' bm (word + 1) (rest - BitsPerWord) full_word last_ok
      else if rest =? 0 then Some true
      else w ← load bm word; Some (last_ok w rest)
  end.

Definition is_full (bm : BitMap) : option bool :=
  full_words_loop (S (Z.to_nat (size_in_words bm))) bm 0 (bm_size bm) AllBits
    (fun w rest => Z.lor w (u64 (Z.lnot (right_n_bits rest))) =? AllBits).
Definition is_empty (bm : BitMap) : option bool :=
  full_words_loop (S (Z.to_nat (size_in_words bm))) bm 0 (bm_size bm) NoBits
    (fun w rest => Z.land w (u64 (right_n_bits rest)) =? NoBits).

(** *** Iteration *)

Section Iterate.
Context {S : Type} (do_bit : Z -> BitMap -> S -> bool * BitMap * S).

(** The bits of one word: whether the iteration goes on, the bitmap and the
    state of the closure. *)
Fixpoint iterate_word (fuel : nat) (bm : BitMap) (st : S) (index offset rest rightOffset : Z)
  : option (bool * BitMap * S) :=
  match fuel with
  | O => None
  | Datatypes.S fuel' =>
      if (offset <? rightOffset) && negb (rest =? NoBits) then
        if negb (Z.land rest 1 =? 0) then
          let '(go, bm, st) := do_bit offset bm st in
          if negb go then Some (false, bm, st)
          else
            w ← load bm index;
            let rest := Z.shiftr w (Z.land offset (BitsPerWord - 1)) in
            iterate_word fuel' bm st index (offset + 1) (Z.shiftr rest 1) rightOffset
        else iterate_word fuel' bm st index (offset + 1) (Z.shiftr rest 1) rightOffset
      else Some (true, bm, st)
  end.

Fixpoint iterate_loop (n : nat) (bm : BitMap) (st : S) (index offset rightOffset endIndex : Z)
  : option (bool * BitMap * S) :=
  match n with
  | O => None
  | Datatypes.S n' =>
      if (offset <? rightOffset) && (index <? endIndex) then
        w ← load bm index;
        let rest := Z.shiftr w (Z.land offset (BitsPerWord - 1)) in
        '(go, bm, st) ← iterate_word 65 bm st index offset rest rightOffset;
        if (go : bool) then
          iterate_loop n' bm st (index + 1) (u64 (Z.shiftl (index + 1) LogBitsPerWord)) rightOffset endIndex
        else Some (false, bm, st)
      else Some (true, bm, st)
  end.

Definition iterate (bm : BitMap) (st : S) (leftOffset rightOffset : Z) : option (bool * BitMap * S) :=
  let startIndex := word_index leftOffset in
  let endIndex := Z.min (word_index rightOffset + 1) (size_in_words bm) in
  iterate_loop (Datatypes.S (Z.to_nat (endIndex - startIndex))) bm st startIndex leftOffset rightOffset endIndex.
End Iterate.

(** *** Counting *)

(** [while ((w & 1) == 0) w >>= 1;] *)
Fixpoint skip_zeros (fuel : nat) (w : Z) : option Z :=
  match fuel with
  | O => None
  | S fuel' => if Z.land w 1 =? 0 then skip_zeros fuel' (Z.shiftr w 1) else Some w
  end.

Fixpoint num_set_bits_loop (fuel : nat) (w bits : Z) : option Z :=
  match fuel with
  | O => None
  | S fuel' =>
      if w =? 0 then Some bits
      else w ← skip_zeros 64 w; num_set_bits_loop fuel' (Z.shiftr w 1) (bits + 1)
  end.

Definition num_set_bits (w : Z) : option Z := num_set_bits_loop 65 w 0.

Definition init_pop_count_table : option (list Z) := mapM (fun i => num_set_bits (Z.of_nat i)) (seq 0 256).

Definition num_set_bits_from_table (table : list Z) (c : Z) : option Z := zget table c.

Fixpoint count_bytes (n : nat) (table : list Z) (w sum : Z) : option Z :=
  match n with
  | O => Some sum
  | S n' => c ← num_set_bits_from_table table (u8 (Z.land w 255)); count_bytes n' table (Z.shiftr w 8) (sum + c)
  end.

Fixpoint count_words (n : nat) (table : list Z) (bm : BitMap) (i sum : Z) : option Z :=
  match n with
  | O => Some sum
  | S n' => w ← load bm i; sum ← count_bytes 8 table w sum; count_words n' table bm (i + 1) sum
  end.

Definition count_one_bits (bm : BitMap) : option Z :=
  table ← init_pop_count_table; count_words (Z.to_nat (size_in_words bm)) table bm 0 0.

(** *** Bit maps with several bits per slot *)

Record BitMap2D := mkBitMap2D { bm2_map : BitMap; bits_per_slot : Z }.

Definition bit_index_2d (bm : BitMap2D) (slot_index bit_within_slot_index : Z) : Z :=
  u64 (slot_index * bits_per_slot bm + bit_within_slot_index).
Definition new_bitmap_2d (size_in_slots bits_per_slot : Z) (fresh : list Z) : option BitMap2D :=
  m ← new_bitmap (u64 (size_in_slots * bits_per_slot)) fresh; Some (mkBitMap2D m bits_per_slot).
Definition size_in_bits (bm : BitMap2D) : Z := bm_size (bm2_map bm).
Definition size_in_slots (bm : BitMap2D) : Z := bm_size (bm2_map bm) / bits_per_slot bm.
Definition is_valid_index (bm : BitMap2D) (slot_index bit_within_slot_index : Z) : bool :=
  bit_index_2d bm slot_index bit_within_slot_index <? size_in_bits bm.
Definition at_2d (bm : BitMap2D) (slot_index bit_within_slot_index : Z) : option bool :=
  at_ (bm2_map bm) (bit_index_2d bm slot_index bit_within_slot_index).
Definition set_bit_2d (bm : BitMap2D) (slot_index bit_within_slot_index : Z) : option BitMap2D :=
  m ← set_bit (bm2_map bm) (bit_index_2d bm slot_index bit_within_slot_index); Some (mkBitMap2D m (bits_per_slot bm)).
Definition clear_bit_2d (bm : BitMap2D) (slot_index bit_within_slot_index : Z) : option BitMap2D :=
  m ← clear_bit (bm2_map bm) (bit_index_2d bm slot_index bit_within_slot_index); Some (mkBitMap2D m (bits_per_slot bm)).
Definition at_put_2d (bm : BitMap2D) (slot_index bit_within_slot_index : Z) (value : bool) : option BitMap2D :=
  m ← at_put (bm2_map bm) (bit_index_2d bm slot_index bit_within_slot_index) value;
  Some (mkBitMap2D m (bits_per_slot bm)).
Definition at_put_grow_2d (bm : BitMap2D) (slot_index bit_within_slot_index : Z) (value : bool) (fresh : list Z)
  : option BitMap2D :=
  m ← at_put_grow (bm2_map bm) (bit_index_2d bm slot_index bit_within_slot_index) value fresh;
  Some (mkBitMap2D m (bits_per_slot bm)).
Definition clear_2d (bm : BitMap2D) : option BitMap2D :=
  m ← clear (bm2_map bm); Some (mkBitMap2D m (bits_per_slot bm)).

(** ** The set a bit map stands for *)

(** Bit [i], read through the words. *)
Definition bit (bm : BitMap) (i : Z) : bool :=
  match load bm (i / 64) with Some w => Z.testbit w (i mod 64) | None => false end.

Record wf (bm : BitMap) : Prop := {
  wf_size : 0 <= bm_size bm < 2 ^ 62;
  wf_len : zlen (bm_map bm) = size_in_words bm;
  wf_words : Forall (fun w => in_u 64 w) (bm_map bm) }.

(** No bit is set in the part of the last word that lies beyond the size. *)
Definition clean (bm : BitMap) : Prop := forall i, bm_size bm <= i -> bit bm i = false.

(** *** Words and masks *)

Lemma bit_in_word_eq (i : Z) : bit_in_word i = i mod 64.
Proof. unfold bit_in_word. change (BitsPerWord - 1) with (Z.ones 6). by rewrite Z.land_ones. Qed.

Lemma word_index_eq (i : Z) : word_index i = i / 64.
Proof. unfold word_index. by rewrite Z.shiftr_div_pow2. Qed.

Lemma bit_index_eq (w : Z) : 0 <= w < 2 ^ 58 -> bit_index w = 64 * w.
Proof.
  intros Hw. unfold bit_index, LogBitsPerWord. rewrite Z.shiftl_mul_pow2, umod_id by lia. lia.
Qed.

Lemma bit_mask_eq (i : Z) : bit_mask i = 2 ^ (i mod 64).
Proof.
  unfold bit_mask. rewrite bit_in_word_eq, Z.shiftl_1_l. apply umod_id.
  pose proof (Z.mod_pos_bound i 64 ltac:(lia)). pose proof (pow2_pos (i mod 64) ltac:(lia)).
  pose proof (Z.pow_lt_mono_r 2 (i mod 64) 64 ltac:(lia) ltac:(lia) ltac:(lia)). lia.
Qed.

Lemma size_in_words_eq (bm : BitMap) : 0 <= bm_size bm < 2 ^ 63 -> size_in_words bm = (bm_size bm + 63) / 64.
Proof.
  intros Hs. unfold size_in_words, BitsPerWord. rewrite umod_id, word_index_eq by lia. f_equal; lia.
Qed.

Lemma wf_words_bounds (bm : BitMap) :
  wf bm -> bm_size bm <= 64 * size_in_words bm < bm_size bm + 64 /\ 0 <= size_in_words bm < 2 ^ 57.
Proof.
  intros [Hs _ _]. rewrite size_in_words_eq by lia.
  pose proof (Z.div_mod (bm_size bm + 63) 64 ltac:(lia)).
  pose proof (Z.mod_pos_bound (bm_size bm + 63) 64 ltac:(lia)). lia.
Qed.

Lemma testbit_ones_u (a k : Z) : 0 <= a <= 64 -> 0 <= k -> Z.testbit (u64 (2 ^ a - 1)) k = (k <? a).
Proof.
  intros Ha Hk. replace (2 ^ a - 1) with (Z.ones a) by (rewrite Z.ones_equiv; lia).
  rewrite umod_testbit, Z.testbit_ones by lia.
  destruct (Z.ltb_spec k 64), (Z.ltb_spec k a), (Z.leb_spec 0 k); try done; lia.
Qed.

Lemma testbit_lnot_u (x k : Z) : 0 <= k < 64 -> Z.testbit (u64 (Z.lnot x)) k = negb (Z.testbit x k).
Proof.
  intros Hk. rewrite umod_testbit, Z.lnot_spec by lia. by destruct (Z.ltb_spec k 64); [|lia].
Qed.

(** The mask of a range of bits of one word: clear in the range. *)
Lemma inverted_mask_testbit (beg fin k : Z) :
  0 <= beg < fin -> fin <= 64 * (beg / 64 + 1) -> 0 <= k < 64 ->
  Z.testbit (inverted_bit_mask_for_range beg fin) k =
    negb ((beg <=? 64 * (beg / 64) + k) && (64 * (beg / 64) + k <? fin)).
Proof.
  intros Hb Hf Hk. unfold inverted_bit_mask_for_range.
  rewrite !bit_mask_eq, bit_in_word_eq.
  pose proof (Z.div_mod beg 64 ltac:(lia)). pose proof (Z.mod_pos_bound beg 64 ltac:(lia)).
  pose proof (Z.div_mod fin 64 ltac:(lia)). pose proof (Z.mod_pos_bound fin 64 ltac:(lia)).
  assert (Hfd : fin = 64 * (beg / 64) + 64 /\ fin mod 64 = 0 \/ fin / 64 = beg / 64 /\ fin mod 64 <> 0).
  { assert (beg / 64 <= fin / 64 <= beg / 64 + 1) by (split; [apply Z.div_le_mono; lia|]; nia). lia. }
  destruct (Z.eqb_spec (fin mod 64) 0); cbn [negb].
  - rewrite testbit_ones_u by lia. destruct (Z.ltb_spec k (beg mod 64)),
      (Z.leb_spec beg (64 * (beg / 64) + k)), (Z.ltb_spec (64 * (beg / 64) + k) fin); done || lia.
  - rewrite Z.lor_spec, testbit_lnot_u, !testbit_ones_u by lia.
    destruct (Z.ltb_spec k (beg mod 64)), (Z.ltb_spec k (fin mod 64)),
      (Z.leb_spec beg (64 * (beg / 64) + k)), (Z.ltb_spec (64 * (beg / 64) + k) fin); done || lia.
Qed.

Lemma inverted_mask_range (beg fin : Z) : in_u 64 (inverted_bit_mask_for_range beg fin).
Proof.
  unfold inverted_bit_mask_for_range. destruct (negb _); [apply lor_range|]; try lia; apply umod_range; lia.
Qed.

Lemma bit_mask_testbit (i k : Z) : 0 <= k < 64 -> Z.testbit (bit_mask i) k = (k =? i mod 64).
Proof.
  intros Hk. rewrite bit_mask_eq. pose proof (Z.mod_pos_bound i 64 ltac:(lia)).
  rewrite Z.pow2_bits_eqb by lia. apply Z.eqb_sym.
Qed.

Lemma bit_mask_range (i : Z) : in_u 64 (bit_mask i).
Proof. apply umod_range. lia. Qed.
#[local] Hint Resolve bit_mask_range inverted_mask_range : mword.

(** *** Reading and writing words *)

Lemma load_some (bm : BitMap) (w : Z) :
  wf bm -> 0 <= w < size_in_words bm -> exists x, load bm w = Some x /\ in_u 64 x.
Proof.
  intros [_ Hl Hw] Hr. unfold load, zget. rewrite bool_decide_eq_true_2 by lia.
  destruct (lookup_lt_is_Some_2 (bm_map bm) (Z.to_nat w)) as [x Hx]; [lia|].
  exists x. split; [done|]. by apply (Forall_lookup_1 _ _ _ _ Hw Hx).
Qed.

Lemma bit_load (bm : BitMap) (w x k : Z) :
  load bm w = Some x -> 0 <= k < 64 -> Z.testbit x k = bit bm (64 * w + k).
Proof.
  intros Hx Hk. unfold bit. rewrite (Z.mul_comm 64), Z.div_add_l, Z.div_small by lia.
  rewrite Z.add_0_r, Hx. rewrite Z.add_comm, Z.mod_add, Z.mod_small by lia. done.
Qed.

Lemma bit_outside (bm : BitMap) (i : Z) : wf bm -> 64 * size_in_words bm <= i -> bit bm i = false.
Proof.
  intros Hwf Hi. pose proof (wf_words_bounds bm Hwf). pose proof (wf_len bm Hwf) as Hl.
  pose proof (Z.div_mod i 64 ltac:(lia)). pose proof (Z.mod_pos_bound i 64 ltac:(lia)).
  unfold bit. destruct (load bm (i / 64)) as [w|] eqn:Hw; [|done].
  apply zget_Some_range in Hw. lia.
Qed.

(** Words are equal when their bits are. *)
Lemma word_ext (x y : Z) : in_u 64 x -> in_u 64 y ->
  (forall k, 0 <= k < 64 -> Z.testbit x k = Z.testbit y k) -> x = y.
Proof. apply bits_inj_w. lia. Qed.

(** [bm'] is [bm] with every bit [i] changed to [h i]. *)
Definition changed_by (h : Z -> bool -> bool) (bm bm' : BitMap) : Prop :=
  wf bm' /\ bm_size bm' = bm_size bm /\ forall i, 0 <= i < 64 * size_in_words bm -> bit bm' i = h i (bit bm i).

Lemma changed_words (h : Z -> bool -> bool) (bm bm' : BitMap) :
  changed_by h bm bm' -> size_in_words bm' = size_in_words bm.
Proof. intros (_ & Hs & _). unfold size_in_words. by rewrite Hs. Qed.

Lemma changed_trans (h1 h2 h3 : Z -> bool -> bool) (bm1 bm2 bm3 : BitMap) :
  changed_by h1 bm1 bm2 -> changed_by h2 bm2 bm3 ->
  (forall i b, 0 <= i -> h3 i b = h2 i (h1 i b)) -> changed_by h3 bm1 bm3.
Proof.
  intros H1 H2 Hh. pose proof (changed_words _ _ _ H1) as Hw. destruct H1 as (W1 & S1 & B1), H2 as (W2 & S2 & B2).
  split; [done|]. split; [congruence|]. intros i Hi. rewrite B2, B1, Hh by lia. done.
Qed.

Lemma changed_ext (h1 h2 : Z -> bool -> bool) (bm bm' : BitMap) :
  changed_by h1 bm bm' -> (forall i b, 0 <= i -> h2 i b = h1 i b) -> changed_by h2 bm bm'.
Proof. intros (W & S & B) Hh. split; [done|]. split; [done|]. intros i Hi. rewrite B, Hh by lia. done. Qed.

Lemma changed_refl (bm : BitMap) : wf bm -> changed_by (fun _ b => b) bm bm.
Proof. done. Qed.

Lemma set_word_spec (bm : BitMap) (w v : Z) :
  wf bm -> 0 <= w < size_in_words bm -> in_u 64 v ->
  exists bm', set_word bm w v = Some bm' /\
    changed_by (fun i b => if i / 64 =? w then Z.testbit v (i mod 64) else b) bm bm'.
Proof.
  intros Hwf Hw Hv. pose proof Hwf as [Hs Hl Hws]. unfold set_word.
  destruct (zset (bm_map bm) w v) as [m|] eqn:Hm; [|unfold zset in Hm; case_bool_decide; [done|lia]].
  exists (mkBitMap m (bm_size bm)). split; [done|]. split; [constructor; cbn; try done|split; [done|]].
  - by rewrite (zset_length _ _ _ _ Hm).
  - apply zset_Some in Hm as [_ ->]. by apply Forall_insert.
  - intros i Hi. unfold bit, load. cbn. rewrite (zget_zset _ _ _ _ _ Hm).
    destruct (Z.eqb_spec (i / 64) w); case_bool_decide; done || lia.
Qed.

Lemma update_word_spec (bm : BitMap) (w : Z) (f : Z -> Z) (g : Z -> bool -> bool) :
  wf bm -> 0 <= w < size_in_words bm -> (forall x, in_u 64 x -> in_u 64 (f x)) ->
  (forall x k, in_u 64 x -> 0 <= k < 64 -> Z.testbit (f x) k = g (64 * w + k) (Z.testbit x k)) ->
  exists bm', update_word bm w f = Some bm' /\ changed_by (fun i b => if i / 64 =? w then g i b else b) bm bm'.
Proof.
  intros Hwf Hw Hr Hg. unfold update_word. destruct (load_some bm w Hwf Hw) as (x & Hx & Hxr).
  rewrite Hx. cbn [mbind option_bind].
  destruct (set_word_spec bm w (f x) Hwf Hw (Hr x Hxr)) as (bm' & -> & Hc). exists bm'. split; [done|].
  destruct Hc as (W & S & B). split; [done|]. split; [done|]. intros i Hi. rewrite (B i Hi).
  destruct (Z.eqb_spec (i / 64) w) as [<-|]; [|done].
  pose proof (Z.mod_pos_bound i 64 ltac:(lia)). rewrite Hg by lia.
  rewrite (bit_load bm (i / 64) x) by (done || lia). rewrite <- (Z.div_mod i 64) by lia. done.
Qed.

(** [put beg fin v]: the bits of a range get the value [v]. *)
Definition in_range (beg fin i : Z) : bool := (beg <=? i) && (i <? fin).
Definition put (beg fin : Z) (v : bool) : BitMap -> BitMap -> Prop :=
  changed_by (fun i b => if in_range beg fin i then v else b).

Lemma in_range_spec (beg fin i : Z) : BoolSpec (beg <= i < fin) (~ beg <= i < fin) (in_range beg fin i).
Proof.
  unfold in_range. destruct (Z.leb_spec beg i), (Z.ltb_spec i fin); constructor; lia.
Qed.

Lemma put_trans (beg mid fin : Z) (v : bool) (bm1 bm2 bm3 : BitMap) :
  beg <= mid <= fin -> put beg mid v bm1 bm2 -> put mid fin v bm2 bm3 -> put beg fin v bm1 bm3.
Proof.
  intros Hm H1 H2. apply (changed_trans _ _ _ _ _ _ H1 H2). intros i b _.
  destruct (in_range_spec beg mid i), (in_range_spec mid fin i), (in_range_spec beg fin i); done || lia.
Qed.

Lemma put_empty (beg fin : Z) (v : bool) (bm : BitMap) : wf bm -> fin <= beg -> put beg fin v bm bm.
Proof.
  intros Hwf Hle. apply (changed_ext (fun _ b => b)); [by apply changed_refl|].
  intros i b _. destruct (in_range_spec beg fin i); done || lia.
Qed.

(** Bits of one word as a range. *)
Lemma put_word (bm bm' : BitMap) (w : Z) (beg fin : Z) (v : bool) :
  64 * w <= beg -> fin <= 64 * (w + 1) ->
  changed_by (fun i b => if i / 64 =? w then (if in_range beg fin i then v else b) else b) bm bm' ->
  put beg fin v bm bm'.
Proof.
  intros Hb Hf Hc. apply (changed_ext _ _ _ _ Hc). intros i b Hi.
  pose proof (Z.div_mod i 64 ltac:(lia)). pose proof (Z.mod_pos_bound i 64 ltac:(lia)).
  destruct (Z.eqb_spec (i / 64) w); [done|]. destruct (in_range_spec beg fin i); [|done].
  exfalso. assert (i / 64 = w); [|done]. assert (w <= i / 64) by nia. nia.
Qed.

(** *** Single bits *)

Lemma bit_word_range (bm : BitMap) (i : Z) :
  wf bm -> 0 <= i < bm_size bm -> 0 <= word_index i < size_in_words bm.
Proof.
  intros Hwf Hi. pose proof (wf_words_bounds bm Hwf). rewrite word_index_eq.
  pose proof (Z.div_mod i 64 ltac:(lia)). pose proof (Z.mod_pos_bound i 64 ltac:(lia)). lia.
Qed.

(** A word that differs from [x] in bit [i] only, which is [v]. *)
Definition word_put (i : Z) (v : bool) (x y : Z) : Prop :=
  in_u 64 y /\ forall k, 0 <= k < 64 -> Z.testbit y k = if k =? i mod 64 then v else Z.testbit x k.

Lemma word_put_set (i x : Z) : in_u 64 x -> word_put i true x (Z.lor x (bit_mask i)).
Proof.
  intros Hx. split; [auto with mword lia|]. intros k Hk. rewrite Z.lor_spec, bit_mask_testbit by lia.
  destruct (Z.eqb_spec k (i mod 64)); btauto.
Qed.

Lemma word_put_clear (i x : Z) : in_u 64 x -> word_put i false x (Z.land x (u64 (Z.lnot (bit_mask i)))).
Proof.
  intros Hx. split; [apply land_range_r; [lia | apply umod_range; lia]|].
  intros k Hk. rewrite Z.land_spec, testbit_lnot_u, bit_mask_testbit by lia.
  destruct (Z.eqb_spec k (i mod 64)); btauto.
Qed.

Lemma update_bit_spec (bm : BitMap) (i : Z) (v : bool) (f : Z -> Z) :
  wf bm -> 0 <= i < bm_size bm -> (forall x, in_u 64 x -> word_put i v x (f x)) ->
  exists bm', update_word bm (word_index i) f = Some bm' /\ put i (i + 1) v bm bm'.
Proof.
  intros Hwf Hi Hf. pose proof (Z.div_mod i 64 ltac:(lia)). pose proof (Z.mod_pos_bound i 64 ltac:(lia)).
  destruct (update_word_spec bm (word_index i) f (fun j b => if in_range i (i + 1) j then v else b)) as (bm' & Hu & Hc).
  - done.
  - by apply bit_word_range.
  - intros x Hx. apply (Hf x Hx).
  - intros x k Hx Hk. rewrite (proj2 (Hf x Hx)), word_index_eq by lia.
    destruct (Z.eqb_spec k (i mod 64)), (in_range_spec i (i + 1) (64 * (i / 64) + k)); done || lia.
  - exists bm'. split; [done|]. rewrite word_index_eq in Hc. apply (put_word _ _ (i / 64)); done || lia.
Qed.

Lemma set_bit_spec (bm : BitMap) (i : Z) :
  wf bm -> 0 <= i < bm_size bm -> exists bm', set_bit bm i = Some bm' /\ put i (i + 1) true bm bm'.
Proof. intros. apply update_bit_spec; [done..|]. apply word_put_set. Qed.

Lemma clear_bit_spec (bm : BitMap) (i : Z) :
  wf bm -> 0 <= i < bm_size bm -> exists bm', clear_bit bm i = Some bm' /\ put i (i + 1) false bm bm'.
Proof. intros. apply update_bit_spec; [done..|]. apply word_put_clear. Qed.

Lemma at_put_spec (bm : BitMap) (i : Z) (v : bool) :
  wf bm -> 0 <= i < bm_size bm -> exists bm', at_put bm i v = Some bm' /\ put i (i + 1) v bm bm'.
Proof. intros. destruct v; [by apply set_bit_spec | by apply clear_bit_spec]. Qed.

Lemma at_spec (bm : BitMap) (i : Z) : wf bm -> 0 <= i < bm_size bm -> at_ bm i = Some (bit bm i).
Proof.
  intros Hwf Hi. unfold at_. destruct (load_some bm (word_index i) Hwf) as (x & Hx & Hxr);
    [by apply bit_word_range|].
  rewrite Hx. cbn [mbind option_bind]. f_equal. unfold bit. rewrite <- word_index_eq, Hx.
  pose proof (Z.mod_pos_bound i 64 ltac:(lia)).
  rewrite bit_mask_eq. destruct (Z.testbit x (i mod 64)) eqn:Ht.
  - destruct (Z.eqb_spec (Z.land x (2 ^ (i mod 64))) 0) as [Hz|]; [|done].
    assert (Hb : Z.testbit (Z.land x (2 ^ (i mod 64))) (i mod 64) = true)
      by (rewrite Z.land_spec, Ht, Z.pow2_bits_true by lia; done).
    by rewrite Hz, Z.bits_0 in Hb.
  - replace (Z.land x (2 ^ (i mod 64))) with 0; [done|]. symmetry. apply Z.bits_inj'. intros k Hk.
    rewrite Z.land_spec, Z.bits_0, Z.pow2_bits_eqb by lia.
    destruct (Z.eqb_spec (i mod 64) k) as [<-|]; [by rewrite Ht | btauto].
Qed.

(** *** Ranges *)

(** What a range operation asks of the operations on parts of one word and on
    whole words: they succeed and set the bits of their range to [v]. *)
Class PutsWithin (v : bool) (within : BitMap -> Z -> Z -> option BitMap) : Prop :=
  puts_within (bm : BitMap) (beg fin : Z) :
    wf bm -> 0 <= beg <= fin -> fin <= 64 * (beg / 64 + 1) -> fin <= bm_size bm ->
    exists bm', within bm beg fin = Some bm' /\ put beg fin v bm bm'.

Class PutsWords (v : bool) (of_words : BitMap -> Z -> Z -> option BitMap) : Prop :=
  puts_words (bm : BitMap) (beg fin : Z) :
    wf bm -> 0 <= beg <= fin -> 64 * fin <= bm_size bm ->
    exists bm', of_words bm beg fin = Some bm' /\ put (64 * beg) (64 * fin) v bm bm'.

(** An update of the word of [beg] that gives the bits of [beg, fin) the value [v]. *)
Lemma update_within_spec (v : bool) (bm : BitMap) (beg fin : Z) (f : Z -> Z) :
  wf bm -> 0 <= beg < fin -> fin <= 64 * (beg / 64 + 1) -> fin <= bm_size bm ->
  (forall x, in_u 64 x -> in_u 64 (f x)) ->
  (forall x k, in_u 64 x -> 0 <= k < 64 ->
     Z.testbit (f x) k = if in_range beg fin (64 * (beg / 64) + k) then v else Z.testbit x k) ->
  exists bm', update_word bm (word_index beg) f = Some bm' /\ put beg fin v bm bm'.
Proof.
  intros Hwf Hb Hf Hs Hr Hbit. pose proof (Z.div_mod beg 64 ltac:(lia)). pose proof (Z.mod_pos_bound beg 64 ltac:(lia)).
  destruct (update_word_spec bm (word_index beg) f (fun j b => if in_range beg fin j then v else b)) as (bm' & Hu & Hc).
  - done.
  - apply bit_word_range; [done|lia].
  - done.
  - intros x k Hx Hk. by rewrite Hbit, word_index_eq by lia.
  - exists bm'. split; [done|]. rewrite word_index_eq in Hc. apply (put_word _ _ (beg / 64)); done || lia.
Qed.

#[export] Instance set_range_within_word_puts : PutsWithin true set_range_within_word.
Proof.
  intros bm beg fin Hwf Hb Hf Hs. unfold set_range_within_word.
  destruct (Z.eqb_spec beg fin) as [->|]; [exists bm; split; [done | by apply put_empty]|]. cbn [negb].
  apply update_within_spec; try done; try lia.
  - intros x Hx. apply lor_range; try done; try lia. apply umod_range. lia.
  - intros x k Hx Hk. rewrite Z.lor_spec, testbit_lnot_u, inverted_mask_testbit by lia.
    fold (in_range beg fin (64 * (beg / 64) + k)). destruct (in_range _ _ _); btauto.
Qed.

#[export] Instance clear_range_within_word_puts : PutsWithin false clear_range_within_word.
Proof.
  intros bm beg fin Hwf Hb Hf Hs. unfold clear_range_within_word.
  destruct (Z.eqb_spec beg fin) as [->|]; [exists bm; split; [done | by apply put_empty]|]. cbn [negb].
  apply update_within_spec; try done; try lia.
  - intros x Hx. apply land_range_r; [lia | apply inverted_mask_range].
  - intros x k Hx Hk. rewrite Z.land_spec, inverted_mask_testbit by lia.
    fold (in_range beg fin (64 * (beg / 64) + k)). destruct (in_range _ _ _); btauto.
Qed.

#[export] Instance par_put_range_within_word_puts (v : bool) :
  PutsWithin v (fun bm beg fin => par_put_range_within_word bm beg fin v []).
Proof.
  intros bm beg fin. unfold par_put_range_within_word. cbn [swap_loop]. destruct v.
  - exact (set_range_within_word_puts bm beg fin).
  - exact (clear_range_within_word_puts bm beg fin).
Qed.

Lemma fill_words_spec (v : bool) (val : Z) (n : nat) (bm : BitMap) (i : Z) :
  in_u 64 val -> (forall k, 0 <= k < 64 -> Z.testbit val k = v) ->
  wf bm -> 0 <= i -> i + Z.of_nat n <= size_in_words bm ->
  exists bm', fill_words n bm i val = Some bm' /\ put (64 * i) (64 * (i + Z.of_nat n)) v bm bm'.
Proof.
  intros Hr Hval. revert bm i. induction n as [|n IH]; intros bm i Hwf Hi Hn; cbn [fill_words].
  { exists bm. split; [done|]. apply put_empty; [done | lia]. }
  destruct (set_word_spec bm i val Hwf ltac:(lia) Hr) as (bm1 & -> & Hc). cbn [mbind option_bind].
  assert (Hp : put (64 * i) (64 * (i + 1)) v bm bm1).
  { apply (put_word _ _ i); try lia. apply (changed_ext _ _ _ _ Hc). intros j b Hj.
    pose proof (Z.mod_pos_bound j 64 ltac:(lia)). pose proof (Z.div_mod j 64 ltac:(lia)).
    destruct (Z.eqb_spec (j / 64) i); [|done]. rewrite Hval by lia.
    destruct (in_range_spec (64 * i) (64 * (i + 1)) j); done || lia. }
  destruct (IH bm1 (i + 1)) as (bm2 & -> & Hp2); [apply Hc | lia | rewrite (changed_words _ _ _ Hc); lia |].
  exists bm2. split; [done|]. replace (i + Z.of_nat (S n)) with (i + 1 + Z.of_nat n) by lia.
  apply (put_trans _ (64 * (i + 1)) _ _ _ bm1); done || lia.
Qed.

Lemma fill_range_spec (v : bool) (val : Z) (bm : BitMap) (beg fin : Z) :
  in_u 64 val -> (forall k, 0 <= k < 64 -> Z.testbit val k = v) ->
  wf bm -> 0 <= beg <= fin -> fin <= size_in_words bm ->
  exists bm', fill_words (Z.to_nat (fin - beg)) bm beg val = Some bm' /\ put (64 * beg) (64 * fin) v bm bm'.
Proof.
  intros Hr Hval Hwf Hb Hf.
  destruct (fill_words_spec v val (Z.to_nat (fin - beg)) bm beg Hr Hval Hwf ltac:(lia) ltac:(lia)) as (bm' & H1 & H2).
  exists bm'. split; [done|]. by replace (beg + Z.of_nat (Z.to_nat (fin - beg))) with fin in H2 by lia.
Qed.

Lemma all_bits_testbit (k : Z) : 0 <= k < 64 -> Z.testbit AllBits k = true.
Proof. intros Hk. unfold AllBits. rewrite umod_testbit, Z.bits_m1 by lia. by destruct (Z.ltb_spec k 64); [|lia]. Qed.

Lemma memset_word_ones : memset_word (u8 (Z.lnot 0)) = AllBits.
Proof. reflexivity. Qed.

Lemma of_words_puts (v : bool) (val : Z) :
  in_u 64 val -> (forall k, 0 <= k < 64 -> Z.testbit val k = v) ->
  PutsWords v (fun bm beg fin => fill_words (Z.to_nat (fin - beg)) bm beg val).
Proof.
  intros Hr Hval bm beg fin Hwf Hb Hf. pose proof (wf_words_bounds bm Hwf).
  apply fill_range_spec; done || lia.
Qed.

#[export] Instance set_range_of_words_puts : PutsWords true set_range_of_words.
Proof. apply (of_words_puts true AllBits); [by split | apply all_bits_testbit]. Qed.

#[export] Instance clear_range_of_words_puts : PutsWords false clear_range_of_words.
Proof. apply (of_words_puts false 0); [lia | intros; apply Z.bits_0]. Qed.

#[export] Instance set_large_range_of_words_puts : PutsWords true set_large_range_of_words.
Proof. unfold set_large_range_of_words. rewrite memset_word_ones. apply set_range_of_words_puts. Qed.

#[export] Instance clear_large_range_of_words_puts : PutsWords false clear_large_range_of_words.
Proof. exact clear_range_of_words_puts. Qed.

#[export] Instance par_of_words_puts (v : bool) :
  PutsWords v (fun bm b e => if v then set_range_of_words bm b e else clear_range_of_words bm b e).
Proof. destruct v; apply _. Qed.

#[export] Instance par_large_of_words_puts (v : bool) :
  PutsWords v (fun bm b e => if v then set_large_range_of_words bm b e else clear_large_range_of_words bm b e).
Proof. destruct v; apply _. Qed.

(** The first full word at or after [beg]. *)
Lemma word_index_round_up_spec (bm : BitMap) (beg : Z) :
  0 <= beg < 2 ^ 62 -> let w := word_index_round_up bm beg in beg <= 64 * w < beg + 64 /\ 0 <= w.
Proof.
  intros Hb. unfold word_index_round_up, BitsPerWord. rewrite umod_id by lia.
  destruct (Z.ltb_spec beg (beg + (64 - 1))); [|lia]. rewrite word_index_eq.
  pose proof (Z.div_mod (beg + (64 - 1)) 64 ltac:(lia)).
  pose proof (Z.mod_pos_bound (beg + (64 - 1)) 64 ltac:(lia)). lia.
Qed.

Section RangeOps.
Context (v : bool) (within_first within_last of_words : BitMap -> Z -> Z -> option BitMap).
Context `{!PutsWithin v within_first} `{!PutsWithin v within_last} `{!PutsWords v of_words}.

(** The three parts of a range with full words. *)
Lemma range_parts_spec (bm : BitMap) (beg fin b e : Z) :
  wf bm -> 0 <= beg -> fin <= bm_size bm -> beg <= 64 * b < beg + 64 -> b <= e -> e = fin / 64 ->
  exists bm', (bm ← within_first bm beg (bit_index b);
               bm ← of_words bm b e;
               within_last bm (bit_index e) fin) = Some bm' /\ put beg fin v bm bm'.
Proof using PutsWithin0 PutsWithin1 PutsWords0.
  intros Hwf Hb Hf Hbw Hbe He. pose proof (wf_size bm Hwf).
  pose proof (Z.div_mod fin 64 ltac:(lia)). pose proof (Z.mod_pos_bound fin 64 ltac:(lia)).
  pose proof (Z.div_mod beg 64 ltac:(lia)). pose proof (Z.mod_pos_bound beg 64 ltac:(lia)).
  rewrite !bit_index_eq by lia.
  destruct (puts_within (within := within_first) bm beg (64 * b) Hwf) as (bm1 & -> & P1); [lia.. |].
  cbn [mbind option_bind]. pose proof P1 as (W1 & S1 & _).
  destruct (puts_words (of_words := of_words) bm1 b e W1) as (bm2 & -> & P2); [lia.. |].
  cbn [mbind option_bind]. pose proof P2 as (W2 & S2 & _).
  destruct (puts_within (within := within_last) bm2 (64 * e) fin W2) as (bm3 & -> & P3).
  - lia.
  - rewrite (Z.mul_comm 64 e), Z.div_mul by lia. lia.
  - lia.
  - exists bm3. split; [done|]. apply (put_trans _ (64 * e) _ _ _ bm2); [lia | | done].
    apply (put_trans _ (64 * b) _ _ _ bm1); done || lia.
Qed.

Lemma range_op_spec (bm : BitMap) (beg fin : Z) :
  wf bm -> 0 <= beg <= fin -> fin <= bm_size bm ->
  exists bm', range_op within_first within_last of_words bm beg fin = Some bm' /\ put beg fin v bm bm'.
Proof using PutsWithin0 PutsWithin1 PutsWords0.
  intros Hwf Hb Hf. pose proof (wf_size bm Hwf). unfold range_op. rewrite word_index_eq.
  destruct (word_index_round_up_spec bm beg ltac:(lia)) as [Hw1 Hw2].
  set (w := word_index_round_up bm beg) in *.
  pose proof (Z.div_mod fin 64 ltac:(lia)). pose proof (Z.mod_pos_bound fin 64 ltac:(lia)).
  pose proof (Z.div_mod beg 64 ltac:(lia)). pose proof (Z.mod_pos_bound beg 64 ltac:(lia)).
  destruct (Z.ltb_spec w (fin / 64)).
  - apply range_parts_spec; done || lia.
  - rewrite bit_index_eq by lia. set (m := Z.min (64 * w) fin).
    destruct (puts_within (within := within_first) bm beg m Hwf) as (bm1 & -> & P1); [lia.. |].
    cbn [mbind option_bind]. pose proof P1 as (W1 & S1 & _).
    destruct (puts_within (within := within_last) bm1 m fin W1) as (bm2 & -> & P2); [lia | | lia |].
    + destruct (Z.min_spec (64 * w) fin) as [[_ Hm]|[_ Hm]]; fold m in Hm; rewrite Hm.
      * rewrite (Z.mul_comm 64 w), Z.div_mul by lia. lia.
      * lia.
    + exists bm2. split; [done|]. apply (put_trans _ m _ _ _ bm1); done || lia.
Qed.

Lemma large_range_op_spec (small : BitMap -> Z -> Z -> option BitMap) (bm : BitMap) (beg fin : Z) :
  (forall bm beg fin, wf bm -> 0 <= beg <= fin -> fin <= bm_size bm ->
     exists bm', small bm beg fin = Some bm' /\ put beg fin v bm bm') ->
  wf bm -> 0 <= beg <= fin -> fin <= bm_size bm ->
  exists bm', large_range_op within_first within_last of_words small bm beg fin = Some bm' /\ put beg fin v bm bm'.
Proof using PutsWithin0 PutsWithin1 PutsWords0.
  intros Hsmall Hwf Hb Hf. pose proof (wf_size bm Hwf). unfold large_range_op. rewrite word_index_eq.
  destruct (word_index_round_up_spec bm beg ltac:(lia)) as [Hw1 Hw2].
  unfold is_small_range_of_words, small_range_words. rewrite umod_id by lia.
  destruct (Z.leb_spec (fin / 64) (word_index_round_up bm beg + 32)); [by apply Hsmall|].
  apply range_parts_spec; done || lia.
Qed.
End RangeOps.

(** *** Compare and swap *)

Lemma swap_loop_spec (f : Z -> Z) (others : list (Z -> Z)) (w : Z) :
  exists n, swap_loop f others w = f (fold_left (fun x g => g x) (take n others) w).
Proof.
  revert w. induction others as [|g others IH]; intros w; cbn [swap_loop]; [by exists 0%nat|].
  destruct (Z.eqb_spec (g w) w); [by exists 0%nat|]. destruct (IH (g w)) as (k & Hk). by exists (S k).
Qed.

Lemma par_update_alone (bm : BitMap) (i : Z) (v : bool) (f : Z -> Z) :
  wf bm -> 0 <= i < bm_size bm -> (forall x, in_u 64 x -> word_put i v x (f x)) ->
  exists bm', par_update bm (word_index i) f [] = Some (negb (Bool.eqb (bit bm i) v), bm') /\
    put i (i + 1) v bm bm'.
Proof.
  intros Hwf Hi Hf. destruct (update_bit_spec bm i v f Hwf Hi Hf) as (bm' & Hu & Hp).
  exists bm'. split; [|done]. unfold update_word in Hu. unfold par_update.
  destruct (load_some bm (word_index i) Hwf) as (x & Hx & Hxr); [by apply bit_word_range|].
  rewrite Hx in *. cbn [mbind option_bind] in *.
  assert (cas_loop f [] x = (negb (f x =? x), f x)) as ->.
  { cbn. rewrite Z.eqb_refl. by destruct (Z.eqb_spec (f x) x) as [->|]. }
  rewrite Hu. cbn [mbind option_bind]. do 2 f_equal.
  pose proof (Z.mod_pos_bound i 64 ltac:(lia)).
  assert (Hbit : bit bm i = Z.testbit x (i mod 64)) by (unfold bit; by rewrite <- word_index_eq, Hx).
  destruct (Hf x Hxr) as [Hr Hb]. rewrite Hbit. f_equal.
  destruct (Z.eqb_spec (f x) x) as [He|He].
  - specialize (Hb (i mod 64) ltac:(lia)). rewrite He, Z.eqb_refl in Hb. by rewrite Hb, eqb_reflx.
  - destruct (Bool.eqb_spec (Z.testbit x (i mod 64)) v) as [Hv|]; [|done]. exfalso. apply He.
    apply word_ext; [done..|]. intros k Hk. rewrite Hb by done. destruct (Z.eqb_spec k (i mod 64)) as [->|]; done.
Qed.

Lemma par_at_put_alone (bm : BitMap) (i : Z) (v : bool) :
  wf bm -> 0 <= i < bm_size bm ->
  exists bm', par_at_put bm i v [] = Some (negb (Bool.eqb (bit bm i) v), bm') /\ put i (i + 1) v bm bm'.
Proof.
  intros Hwf Hi. destruct v; apply par_update_alone; try done; [apply word_put_set | apply word_put_clear].
Qed.

(** *** All range operations *)

Section AllRanges.
Context (v : bool) (bm : BitMap) (beg fin : Z).
Context (Hwf : wf bm) (Hb : 0 <= beg <= fin) (Hf : fin <= bm_size bm).

(** An operation that puts [v] into the range. *)
Definition puts (op : option BitMap) : Prop := exists bm', op = Some bm' /\ put beg fin v bm bm'.

Lemma at_put_range_spec : puts (at_put_range bm beg fin v).
Proof.
  unfold puts, at_put_range. destruct v; [by apply (range_op_spec true _ _ _) | by apply (range_op_spec false _ _ _)].
Qed.

Lemma at_put_large_range_spec : puts (at_put_large_range bm beg fin v).
Proof.
  unfold puts, at_put_large_range. destruct v.
  - apply (large_range_op_spec true _ _ _); try done. intros; by apply (range_op_spec true _ _ _).
  - apply (large_range_op_spec false _ _ _); try done. intros; by apply (range_op_spec false _ _ _).
Qed.

Lemma par_at_put_range_spec : puts (par_at_put_range bm beg fin v [] []).
Proof. by apply (range_op_spec v _ _ _). Qed.

Lemma par_at_put_large_range_spec : puts (par_at_put_large_range bm beg fin v [] []).
Proof. apply (large_range_op_spec v _ _ _); try done. intros. by apply (range_op_spec v _ _ _). Qed.

Lemma one_bit_range (op : option BitMap) :
  u64 (fin - beg) = 1 -> (exists bm', op = Some bm' /\ put beg (beg + 1) v bm bm') -> puts op.
Proof.
  intros Hone Hop. pose proof (wf_size bm Hwf). rewrite umod_id in Hone by lia.
  assert (fin = beg + 1) as He by lia. unfold puts. by rewrite He.
Qed.

Lemma one_bit_valid : u64 (fin - beg) = 1 -> 0 <= beg < bm_size bm.
Proof. intros Hone. pose proof (wf_size bm Hwf). rewrite umod_id in Hone by lia. lia. Qed.

Lemma par_put_range_hint_spec (hint : RangeSizeHint) : puts (par_put_range_hint bm beg fin hint v [] []).
Proof.
  destruct hint; cbn [par_put_range_hint];
    [apply par_at_put_range_spec | | apply par_at_put_large_range_spec].
  destruct (Z.eqb_spec (u64 (fin - beg)) 1) as [Hone|]; [|apply par_at_put_range_spec].
  apply one_bit_range; [done|].
  destruct (par_at_put_alone bm beg v Hwf (one_bit_valid Hone)) as (bm' & -> & Hp). by exists bm'.
Qed.
End AllRanges.

Lemma set_range_hint_spec (bm : BitMap) (beg fin : Z) (hint : RangeSizeHint) :
  wf bm -> 0 <= beg <= fin -> fin <= bm_size bm -> puts true bm beg fin (set_range_hint bm beg fin hint).
Proof.
  intros Hwf Hb Hf. destruct hint; cbn [set_range_hint];
    [by apply (at_put_range_spec true) | | by apply (at_put_large_range_spec true)].
  destruct (Z.eqb_spec (u64 (fin - beg)) 1); [|by apply (at_put_range_spec true)].
  apply one_bit_range; try done. apply set_bit_spec; [done|]. by apply (one_bit_valid bm beg fin).
Qed.

Lemma clear_range_hint_spec (bm : BitMap) (beg fin : Z) (hint : RangeSizeHint) :
  wf bm -> 0 <= beg <= fin -> fin <= bm_size bm -> puts false bm beg fin (clear_range_hint bm beg fin hint).
Proof.
  intros Hwf Hb Hf. destruct hint; cbn [clear_range_hint];
    [by apply (at_put_range_spec false) | | by apply (at_put_large_range_spec false)].
  destruct (Z.eqb_spec (u64 (fin - beg)) 1); [|by apply (at_put_range_spec false)].
  apply one_bit_range; try done. apply clear_bit_spec; [done|]. by apply (one_bit_valid bm beg fin).
Qed.

(** *** Search *)

(** [x] is the first index of [l, r) with [p], and [r] if there is none. *)
Definition next_index (p : Z -> bool) (l r x : Z) : Prop :=
  l <= x <= r /\ (forall i, l <= i < x -> p i = false) /\ (x < r -> p x = true).

Lemma land_one (x : Z) : (Z.land x 1 =? 0) = negb (Z.testbit x 0).
Proof.
  assert (He : Z.land x 1 = x mod 2) by (change 1 with (Z.ones 1); by rewrite Z.land_ones).
  rewrite He, Zmod_odd, Z.bit0_odd. by destruct (Z.odd x).
Qed.

(** A word has a bit [b] exactly if it differs from the word of the opposite bits. *)
Lemma word_has_bit (b : bool) (w : Z) :
  in_u 64 w -> (w =? (if b then NoBits else AllBits)) = false -> exists j, 0 <= j < 64 /\ Z.testbit w j = b.
Proof.
  intros Hw Hne. apply Z.eqb_neq in Hne.
  destruct (decide (Exists (fun j => Z.testbit w (Z.of_nat j) = b) (seq 0 64))) as [He|He].
  - apply List.Exists_exists in He as (j & Hj & Hb). apply in_seq in Hj. exists (Z.of_nat j). split; [lia | done].
  - exfalso. apply Hne. apply word_ext; [done | by destruct b |]. intros k Hk.
    assert (Hk' : Z.testbit w k <> b).
    { intros Hb. apply He, List.Exists_exists. exists (Z.to_nat k). rewrite Z2Nat.id by lia. split; [|done].
      apply in_seq. lia. }
    destruct b; [rewrite Z.bits_0 | rewrite all_bits_testbit by lia]; by destruct (Z.testbit w k).
Qed.

Lemma skip_word_bits (b : bool) (w k : Z) :
  (w =? (if b then NoBits else AllBits)) = true -> 0 <= k < 64 -> Z.testbit w k = negb b.
Proof. intros ->%Z.eqb_eq Hk. destruct b; [apply Z.bits_0 | by apply all_bits_testbit]. Qed.

(** [find] returns the position of the first bit [b] of a word, counted from [off]. *)
Definition finds (b : bool) (find : Z -> Z -> option Z) : Prop :=
  forall res off, 0 <= off < 2 ^ 63 -> (exists j, 0 <= j < 64 /\ Z.testbit res j = b) ->
  exists k, 0 <= k < 64 /\ Z.testbit res k = b /\ (forall j, 0 <= j < k -> Z.testbit res j = negb b) /\
    find res off = Some (off + k).

(** One iteration of the bit loops. *)
Lemma finds_step (b : bool) (n : nat) (find : Z -> Z -> option Z) (res off : Z) :
  Z.testbit res 0 = negb b -> 0 <= off -> off + Z.of_nat (S n) < 2 ^ 64 ->
  (exists j, 0 <= j < Z.of_nat (S n) /\ Z.testbit res j = b) ->
  (forall res off, 0 <= off -> off + Z.of_nat n < 2 ^ 64 -> (exists j, 0 <= j < Z.of_nat n /\ Z.testbit res j = b) ->
     exists k, 0 <= k < Z.of_nat n /\ Z.testbit res k = b /\ (forall j, 0 <= j < k -> Z.testbit res j = negb b) /\
       find res off = Some (off + k)) ->
  exists k, 0 <= k < Z.of_nat (S n) /\ Z.testbit res k = b /\ (forall j, 0 <= j < k -> Z.testbit res j = negb b) /\
    find (Z.shiftr res 1) (u64 (off + 1)) = Some (off + k).
Proof.
  intros H0 Ho Hb (j & Hj & Hbj) IH. rewrite umod_id by lia.
  assert (j <> 0) by (intros ->; rewrite H0 in Hbj; by destruct b).
  destruct (IH (Z.shiftr res 1) (off + 1)) as (k & Hk & Hbk & Hlow & ->); [lia | lia | |].
  - exists (j - 1). split; [lia|]. rewrite Z.shiftr_spec by lia. by replace (j - 1 + 1) with j by lia.
  - exists (k + 1). rewrite Z.shiftr_spec in Hbk by lia. split; [lia|]. split; [done|]. split.
    + intros i Hi. destruct (Z.eq_dec i 0) as [->|]; [done|].
      specialize (Hlow (i - 1) ltac:(lia)). rewrite Z.shiftr_spec in Hlow by lia. by replace (i - 1 + 1) with i in Hlow by lia.
    + f_equal. lia.
Qed.

Lemma find_one_spec (n : nat) (res off : Z) :
  0 <= off -> off + Z.of_nat n < 2 ^ 64 -> (exists j, 0 <= j < Z.of_nat n /\ Z.testbit res j = true) ->
  exists k, 0 <= k < Z.of_nat n /\ Z.testbit res k = true /\ (forall j, 0 <= j < k -> Z.testbit res j = false) /\
    find_one n res off = Some (off + k).
Proof.
  revert res off. induction n as [|n IH]; intros res off Ho Hb Hj; [destruct Hj; lia|].
  cbn [find_one]. rewrite land_one. destruct (Z.testbit res 0) eqn:H0; cbn [negb].
  - exists 0. split; [lia|]. split; [done|]. split; [lia|]. f_equal. lia.
  - by apply (finds_step true n).
Qed.

Lemma find_zero_spec (n : nat) (res off : Z) :
  0 <= off -> off + Z.of_nat n < 2 ^ 64 -> (exists j, 0 <= j < Z.of_nat n /\ Z.testbit res j = false) ->
  exists k, 0 <= k < Z.of_nat n /\ Z.testbit res k = false /\ (forall j, 0 <= j < k -> Z.testbit res j = true) /\
    find_zero n res off = Some (off + k).
Proof.
  revert res off. induction n as [|n IH]; intros res off Ho Hb Hj; [destruct Hj; lia|].
  cbn [find_zero]. rewrite land_one. destruct (Z.testbit res 0) eqn:H0; cbn [negb].
  - by apply (finds_step false n).
  - exists 0. split; [lia|]. split; [done|]. split; [lia|]. f_equal. lia.
Qed.

Lemma find_one_finds : finds true (find_one 64).
Proof. intros res off Ho Hj. apply (find_one_spec 64); done || lia. Qed.

Lemma find_zero_finds : finds false (find_zero 64).
Proof. intros res off Ho Hj. apply (find_zero_spec 64); done || lia. Qed.

(** A first match in a word that has all bits below it different. *)
Lemma next_index_found (p : Z -> bool) (l r x : Z) :
  l <= x -> l <= r -> p x = true -> (forall i, l <= i < x -> p i = false) -> next_index p l r (Z.min x r).
Proof.
  intros Hx Hr Hp Hlow. split; [lia|]. split; [intros; apply Hlow; lia|].
  intros Hlt. replace (Z.min x r) with x by lia. done.
Qed.

Lemma next_index_skip (p : Z -> bool) (l m r x : Z) :
  l <= m -> (forall i, l <= i < m -> p i = false) -> next_index p m r x -> next_index p l r x.
Proof.
  intros Hm Hlow (H1 & H2 & H3). split; [lia|]. split; [|done]. intros i Hi.
  destruct (Z.lt_ge_cases i m); [apply Hlow; lia | apply H2; lia].
Qed.

Lemma next_word_loop_spec (b : bool) (find : Z -> Z -> option Z) (bm : BitMap) (n : nat) (index r : Z) :
  finds b find -> wf bm -> 0 <= index -> index + Z.of_nat n <= size_in_words bm ->
  64 * index <= r <= 64 * (index + Z.of_nat n) -> (n = 0%nat \/ 64 * (index + Z.of_nat n - 1) < r) ->
  exists x, next_word_loop n bm index (if b then NoBits else AllBits) find r = Some x /\
    next_index (fun i => Bool.eqb (bit bm i) b) (64 * index) r x.
Proof.
  intros Hfind Hwf. revert index. induction n as [|n IH]; intros index Hi Hn Hr Hlast; cbn [next_word_loop].
  { exists r. split; [done|]. split; [lia|]. split; lia. }
  pose proof (wf_words_bounds bm Hwf).
  destruct (load_some bm index Hwf ltac:(lia)) as (w & Hw & Hwr). rewrite Hw. cbn [mbind option_bind].
  assert (Hbits : forall j, 0 <= j < 64 -> bit bm (64 * index + j) = Z.testbit w j) by (intros; by rewrite (bit_load bm index w)).
  destruct (w =? (if b then NoBits else AllBits)) eqn:Hskip; cbn [negb].
  - assert (Hno : forall i, 64 * index <= i < 64 * (index + 1) -> Bool.eqb (bit bm i) b = false).
    { intros i Hii. replace i with (64 * index + (i - 64 * index)) by lia. rewrite Hbits by lia.
      rewrite (skip_word_bits b w) by (done || lia). by destruct b. }
    destruct n as [|n].
    + exists r. split; [done|]. split; [lia|]. split; [intros; apply Hno; lia | lia].
    + destruct (IH (index + 1)) as (x & -> & Hx); [lia.. |]. exists x. split; [done|].
      by apply (next_index_skip _ _ (64 * (index + 1))); [lia | |].
  - destruct (word_has_bit b w Hwr Hskip) as (j & Hj).
    rewrite bit_index_eq by lia.
    destruct (Hfind w (64 * index)) as (k & Hk & Hbk & Hlow & ->); [lia | by exists j |].
    cbn [mbind option_bind]. eexists. split; [done|]. apply next_index_found; try lia.
    + rewrite Hbits, Hbk by lia. apply eqb_reflx.
    + intros i Hii. replace i with (64 * index + (i - 64 * index)) by lia. rewrite Hbits, Hlow by lia. by destruct b.
Qed.

(** The search from [l], the bits of [res] being those of the word of [l] from
    [l] on, filled up with bits that do not match. *)
Lemma next_offset_spec (b : bool) (find : Z -> Z -> option Z) (bm : BitMap) (l r w res : Z) :
  finds b find -> wf bm -> 0 <= l < r -> r <= bm_size bm -> load bm (l / 64) = Some w -> in_u 64 res ->
  (forall k, 0 <= k < 64 -> Z.testbit res k = if k <? 64 - l mod 64 then Z.testbit w (l mod 64 + k) else negb b) ->
  exists x,
    (if negb (res =? (if b then NoBits else AllBits)) then off ← find res l; Some (Z.min off r)
     else next_word_loop (Z.to_nat ((r - 1) / 64 + 1 - (l / 64 + 1))) bm (l / 64 + 1)
            (if b then NoBits else AllBits) find r) = Some x /\
    next_index (fun i => Bool.eqb (bit bm i) b) l r x.
Proof.
  intros Hfind Hwf Hl Hr Hw Hres Hbits. pose proof (wf_words_bounds bm Hwf). pose proof (wf_size bm Hwf).
  pose proof (Z.div_mod l 64 ltac:(lia)) as Hdl. pose proof (Z.mod_pos_bound l 64 ltac:(lia)).
  pose proof (Z.div_mod (r - 1) 64 ltac:(lia)). pose proof (Z.mod_pos_bound (r - 1) 64 ltac:(lia)).
  assert (Hbit : forall k, 0 <= k < 64 - l mod 64 -> bit bm (l + k) = Z.testbit res k).
  { intros k Hk. rewrite Hbits by lia. destruct (Z.ltb_spec k (64 - l mod 64)); [|lia].
    rewrite (bit_load bm (l / 64) w) by (done || lia). f_equal. lia. }
  destruct (res =? _) eqn:Hskip; cbn [negb].
  - assert (Hno : forall i, l <= i < 64 * (l / 64 + 1) -> Bool.eqb (bit bm i) b = false).
    { intros i Hi. replace i with (l + (i - l)) by lia. rewrite Hbit by lia.
      rewrite (skip_word_bits b res) by (done || lia). by destruct b. }
    destruct (Z.le_gt_cases (64 * (l / 64 + 1)) r).
    + destruct (next_word_loop_spec b find bm (Z.to_nat ((r - 1) / 64 + 1 - (l / 64 + 1))) (l / 64 + 1) r)
        as (x & -> & Hx); try done; try lia.
      exists x. split; [done|]. by apply (next_index_skip _ _ (64 * (l / 64 + 1))); [lia | |].
    + replace (Z.to_nat _) with 0%nat by lia. exists r. split; [done|]. split; [lia|].
      split; [intros; apply Hno; lia | lia].
  - destruct (word_has_bit b res Hres Hskip) as (j & Hj & Hbj).
    destruct (Hfind res l) as (k & Hk & Hbk & Hlow & ->); [lia | by exists j |].
    assert (k < 64 - l mod 64).
    { rewrite Hbits in Hbk by lia. destruct (Z.ltb_spec k (64 - l mod 64)); [done|]. by destruct b. }
    eexists. split; [done|]. apply next_index_found; try lia.
    + rewrite Hbit, Hbk by lia. apply eqb_reflx.
    + intros i Hi. replace i with (l + (i - l)) by lia. rewrite Hbit, Hlow by lia. by destruct b.
Qed.

Lemma left_n_bits_testbit (n k : Z) : 0 <= n < 64 -> 0 <= k < 64 -> Z.testbit (left_n_bits n) k = (64 - n <=? k).
Proof.
  intros Hn Hk. unfold left_n_bits, BitsPerWord. destruct (Z.leb_spec 64 n); [lia|].
  rewrite umod_testbit, Z.shiftl_spec by lia. destruct (Z.ltb_spec k 64); [|lia]. cbn [andb].
  destruct (Z.leb_spec (64 - n) k); [|apply Z.testbit_neg_r; lia].
  unfold right_n_bits, nth_bit, BitsPerWord. destruct (Z.leb_spec 64 n); [lia|].
  rewrite Z.shiftl_1_l. replace (s64 (2 ^ n) - 1) with (s64 (2 ^ n) + -1) by lia.
  rewrite smod_add_l, smod_testbit, Z.min_l by lia.
  replace (2 ^ n + -1) with (Z.ones n) by (rewrite Z.ones_equiv; lia).
  apply Z.ones_spec_low. lia.
Qed.

Lemma get_next_one_offset_spec (bm : BitMap) (l r : Z) :
  wf bm -> 0 <= l <= r -> r <= bm_size bm ->
  exists x, get_next_one_offset bm l r = Some x /\ next_index (bit bm) l r x.
Proof.
  intros Hwf Hl Hr. unfold get_next_one_offset. rewrite !word_index_eq, bit_in_word_eq.
  destruct (Z.eqb_spec l r) as [->|]; [exists r; split; [done|]; repeat split; lia|].
  pose proof (Z.mod_pos_bound l 64 ltac:(lia)).
  destruct (load_some bm (l / 64) Hwf) as (w & Hw & Hwr).
  { rewrite <- word_index_eq. apply bit_word_range; [done | lia]. }
  rewrite Hw. cbn [mbind option_bind].
  destruct (next_offset_spec true (find_one 64) bm l r w (Z.shiftr w (l mod 64))) as (x & Hx & Hn);
    try done; try lia; [exact find_one_finds | apply shiftr_range; lia | |].
  - intros k Hk. rewrite Z.shiftr_spec by lia. rewrite Z.add_comm.
    destruct (Z.ltb_spec k (64 - l mod 64)); [done|]. apply (testbit_high 64); lia.
  - exists x. split; [exact Hx|]. destruct Hn as (H1 & H2 & H3). split; [done|]. split.
    + intros i Hi. specialize (H2 i Hi). by destruct (bit bm i).
    + intros Hlt. specialize (H3 Hlt). by destruct (bit bm x).
Qed.

Lemma get_next_zero_offset_spec (bm : BitMap) (l r : Z) :
  wf bm -> 0 <= l <= r -> r <= bm_size bm ->
  exists x, get_next_zero_offset bm l r = Some x /\ next_index (fun i => negb (bit bm i)) l r x.
Proof.
  intros Hwf Hl Hr. unfold get_next_zero_offset. rewrite !word_index_eq.
  change (Z.land l (BitsPerWord - 1)) with (bit_in_word l). rewrite bit_in_word_eq.
  destruct (Z.eqb_spec l r) as [->|]; [exists r; split; [done|]; repeat split; lia|].
  pose proof (Z.mod_pos_bound l 64 ltac:(lia)).
  destruct (load_some bm (l / 64) Hwf) as (w & Hw & Hwr).
  { rewrite <- word_index_eq. apply bit_word_range; [done | lia]. }
  rewrite Hw. cbn [mbind option_bind].
  destruct (next_offset_spec false (find_zero 64) bm l r w (Z.lor (Z.shiftr w (l mod 64)) (left_n_bits (l mod 64))))
    as (x & Hx & Hn); try done; try lia; [exact find_zero_finds | | |].
  - apply lor_range; [lia | apply shiftr_range; lia | apply umod_range; lia].
  - intros k Hk. rewrite Z.lor_spec, Z.shiftr_spec, left_n_bits_testbit by lia. rewrite Z.add_comm.
    destruct (Z.ltb_spec k (64 - l mod 64)), (Z.leb_spec (64 - l mod 64) k); try lia; btauto.
  - exists x. split; [exact Hx|]. destruct Hn as (H1 & H2 & H3). split; [done|]. split.
    + intros i Hi. specialize (H2 i Hi). by destruct (bit bm i).
    + intros Hlt. specialize (H3 Hlt). by destruct (bit bm x).
Qed.

Lemma next_word_aligned_loop_eq (bm : BitMap) (n : nat) (index : Z) :
  wf bm -> 0 <= index -> index + Z.of_nat n <= size_in_words bm ->
  next_word_aligned_loop n bm index (64 * (index + Z.of_nat n)) =
  next_word_loop n bm index NoBits (find_one 64) (64 * (index + Z.of_nat n)).
Proof.
  intros Hwf. remember (64 * (index + Z.of_nat n)) as r eqn:Hr. revert index Hr.
  induction n as [|n IH]; intros index Hr Hi Hn; [done|].
  cbn [next_word_loop next_word_aligned_loop]. pose proof (wf_words_bounds bm Hwf).
  destruct (load_some bm index Hwf ltac:(lia)) as (w & -> & Hwr). cbn [mbind option_bind].
  destruct (w =? NoBits) eqn:Hskip; cbn [negb]; [apply IH; lia|].
  destruct (word_has_bit true w Hwr Hskip) as (j & Hj). rewrite bit_index_eq by lia.
  destruct (find_one_finds w (64 * index)) as (k & Hk & _ & _ & ->); [lia | by exists j |].
  cbn [mbind option_bind]. f_equal. lia.
Qed.

Lemma aligned_right_eq (bm : BitMap) (l r : Z) :
  wf bm -> 0 <= l <= r -> r <= bm_size bm -> r mod 64 = 0 ->
  get_next_one_offset_inline_aligned_right bm l r = get_next_one_offset bm l r.
Proof.
  intros Hwf Hl Hr Hal. unfold get_next_one_offset_inline_aligned_right, get_next_one_offset.
  destruct (Z.eqb_spec l r); [done|]. rewrite !word_index_eq, bit_in_word_eq.
  pose proof (wf_words_bounds bm Hwf). pose proof (wf_size bm Hwf).
  pose proof (Z.div_mod l 64 ltac:(lia)). pose proof (Z.mod_pos_bound l 64 ltac:(lia)).
  pose proof (Z.div_mod r 64 ltac:(lia)). pose proof (Z.div_mod (r - 1) 64 ltac:(lia)).
  pose proof (Z.mod_pos_bound (r - 1) 64 ltac:(lia)).
  destruct (load_some bm (l / 64) Hwf ltac:(lia)) as (w & -> & Hwr). cbn [mbind option_bind].
  replace ((r - 1) / 64 + 1) with (r / 64) by lia.
  assert (Hsh : in_u 64 (Z.shiftr w (l mod 64))) by (apply shiftr_range; lia).
  destruct (Z.shiftr w (l mod 64) =? NoBits) eqn:Hskip; cbn [negb].
  - set (m := Z.to_nat _). pose proof (next_word_aligned_loop_eq bm m (l / 64 + 1) Hwf) as Heq.
    replace (64 * (l / 64 + 1 + Z.of_nat m)) with r in Heq by lia. apply Heq; lia.
  - destruct (word_has_bit true _ Hsh Hskip) as (j & Hj).
    destruct (find_one_finds (Z.shiftr w (l mod 64)) l) as (k & Hk & Hbk & _ & ->); [lia | by exists j |].
    cbn [mbind option_bind]. f_equal. assert (k < 64 - l mod 64); [|lia].
    destruct (Z.lt_ge_cases k (64 - l mod 64)); [done|].
    rewrite Z.shiftr_spec, (testbit_high 64) in Hbk by lia. done.
Qed.

(** *** Set operations *)

(** A word operation that works bit by bit. *)
Definition bitwise_op (f : Z -> Z -> Z) (g : bool -> bool -> bool) : Prop :=
  forall x y, in_u 64 x -> in_u 64 y ->
    in_u 64 (f x y) /\ forall k, 0 <= k < 64 -> Z.testbit (f x y) k = g (Z.testbit x k) (Z.testbit y k).

Lemma union_bitwise : bitwise_op word_union orb.
Proof. intros x y Hx Hy. split; [by apply lor_range|]. intros. apply Z.lor_spec. Qed.

Lemma intersection_bitwise : bitwise_op word_intersection andb.
Proof. intros x y Hx Hy. split; [by apply land_range_r|]. intros. apply Z.land_spec. Qed.

Lemma difference_bitwise : bitwise_op word_difference (fun a b => a && negb b).
Proof.
  intros x y Hx Hy. unfold word_difference. split; [apply land_range_r; [lia | apply umod_range; lia]|].
  intros k Hk. by rewrite Z.land_spec, testbit_lnot_u.
Qed.

Lemma from_bitwise : bitwise_op (fun _ b => b) (fun _ b => b).
Proof. done. Qed.

Lemma combine_loop_spec (f : Z -> Z -> Z) (g : bool -> bool -> bool) (other : BitMap) (off : Z) (n : nat)
    (bm : BitMap) (index : Z) (ch : bool) :
  bitwise_op f g -> wf other -> wf bm -> 0 <= index -> 0 <= off ->
  index + Z.of_nat n <= size_in_words bm -> off + index + Z.of_nat n <= size_in_words other ->
  exists ch' bm', combine_loop f n bm other index off ch = Some (ch', bm') /\
    changed_by (fun i b => if in_range (64 * index) (64 * (index + Z.of_nat n)) i
                           then g b (bit other (64 * off + i)) else b) bm bm' /\
    (ch' = false <-> ch = false /\
       forall i, 64 * index <= i < 64 * (index + Z.of_nat n) -> g (bit bm i) (bit other (64 * off + i)) = bit bm i).
Proof.
  intros Hfg Hwo. revert bm index ch. induction n as [|n IH]; intros bm index ch Hwf Hi Ho Hn Hno; cbn [combine_loop].
  { exists ch, bm. split; [done|]. split.
    - apply (changed_ext (fun _ b => b)); [by apply changed_refl|]. intros i b _.
      destruct (in_range_spec (64 * index) (64 * (index + Z.of_nat 0)) i); done || lia.
    - split; [|tauto]. intros ->. split; [done|]. intros. lia. }
  destruct (load_some bm index Hwf ltac:(lia)) as (x & Hx & Hxr).
  destruct (load_some other (off + index) Hwo ltac:(lia)) as (y & Hy & Hyr).
  rewrite Hx, Hy. cbn [mbind option_bind].
  destruct (Hfg x y Hxr Hyr) as [Hr Hb].
  destruct (set_word_spec bm index (f x y) Hwf ltac:(lia) Hr) as (bm1 & -> & Hc). cbn [mbind option_bind].
  pose proof (changed_words _ _ _ Hc) as Hw1. pose proof Hc as (W1 & S1 & B1).
  destruct (IH bm1 (index + 1) (ch || negb (f x y =? x)) W1 ltac:(lia) Ho ltac:(lia) ltac:(lia))
    as (ch' & bm2 & -> & Hc2 & Hch).
  exists ch', bm2. split; [done|].
  assert (Hword : forall k, 0 <= k < 64 -> Z.testbit (f x y) k = g (bit bm (64 * index + k)) (bit other (64 * off + (64 * index + k)))).
  { intros k Hk. rewrite Hb by done. rewrite (bit_load bm index x), (bit_load other (off + index) y) by done.
    do 2 f_equal. lia. }
  assert (Hsame : forall i, 64 * (index + 1) <= i < 64 * size_in_words bm -> bit bm1 i = bit bm i).
  { intros i Hii. rewrite B1 by lia. pose proof (Z.div_mod i 64 ltac:(lia)). pose proof (Z.mod_pos_bound i 64 ltac:(lia)).
    destruct (Z.eqb_spec (i / 64) index); [lia | done]. }
  split.
  - destruct Hc2 as (W2 & S2 & B2). split; [done|]. split; [congruence|]. intros i Hii.
    rewrite B2 by lia. pose proof (Z.div_mod i 64 ltac:(lia)) as Hd. pose proof (Z.mod_pos_bound i 64 ltac:(lia)).
    destruct (in_range_spec (64 * (index + 1)) (64 * (index + 1 + Z.of_nat n)) i),
      (in_range_spec (64 * index) (64 * (index + Z.of_nat (S n))) i); try lia.
    + by rewrite Hsame by lia.
    + rewrite B1 by lia. destruct (Z.eqb_spec (i / 64) index) as [He|]; [|lia].
      rewrite Hword by lia. rewrite <- He, <- Hd. done.
    + rewrite B1 by lia. destruct (Z.eqb_spec (i / 64) index); [lia | done].
  - rewrite Hch, orb_false_iff, negb_false_iff, Z.eqb_eq. split.
    + intros [[-> He] Hrest]. split; [done|]. intros i Hii.
      destruct (Z.lt_ge_cases i (64 * (index + 1))).
      * replace i with (64 * index + (i - 64 * index)) by lia. rewrite <- Hword, He by lia.
        by rewrite (bit_load bm index x) by (done || lia).
      * rewrite <- !(Hsame i) by lia. apply Hrest. lia.
    + intros [-> Hall]. split; [split; [done|]|].
      * apply word_ext; [done..|]. intros k Hk. rewrite Hword by lia. rewrite Hall by lia.
        by rewrite (bit_load bm index x) by done.
      * intros i Hii. rewrite (Hsame i) by lia. apply Hall. lia.
Qed.

Lemma combine_spec (f : Z -> Z -> Z) (g : bool -> bool -> bool) (bm other : BitMap) (off : Z) :
  bitwise_op f g -> wf bm -> wf other -> 0 <= off -> off + size_in_words bm <= size_in_words other ->
  exists ch bm', combine f bm other off = Some (ch, bm') /\
    changed_by (fun i b => g b (bit other (64 * off + i))) bm bm' /\
    (ch = false <-> forall i, 0 <= i < 64 * size_in_words bm -> bit bm' i = bit bm i).
Proof.
  intros Hfg Hwf Hwo Hoff Hsz. pose proof (wf_words_bounds bm Hwf) as [_ Hwb]. unfold combine.
  destruct (combine_loop_spec f g other off (Z.to_nat (size_in_words bm)) bm 0 false Hfg Hwo Hwf)
    as (ch & bm' & Hc & Hch & Hiff); [lia.. |].
  assert (Hch' : changed_by (fun i b => g b (bit other (64 * off + i))) bm bm').
  { destruct Hch as (W & S & B). split; [done|]. split; [done|]. intros i Hi. rewrite B by done.
    destruct (in_range_spec (64 * 0) (64 * (0 + Z.of_nat (Z.to_nat (size_in_words bm)))) i); done || lia. }
  exists ch, bm'. split; [done|]. split; [done|]. rewrite Hiff. destruct Hch' as (_ & _ & B). split.
  - intros [_ Hall] i Hi. rewrite B by done. apply Hall. lia.
  - intros Hall. split; [done|]. intros i Hi. rewrite <- B by lia. apply Hall. lia.
Qed.

(** The loops that look for a word with a property some pair of bits shows. *)
Lemma exists_loop_spec (p : Z -> Z -> bool) (q : bool -> bool -> bool) (bm other : BitMap) (n : nat) (index : Z) :
  (forall x y, in_u 64 x -> in_u 64 y ->
     p x y = true <-> exists k, 0 <= k < 64 /\ q (Z.testbit x k) (Z.testbit y k) = true) ->
  wf bm -> wf other -> 0 <= index -> index + Z.of_nat n <= size_in_words bm ->
  index + Z.of_nat n <= size_in_words other ->
  exists r, exists_loop p n bm other index = Some r /\
    (r = true <-> exists i, 64 * index <= i < 64 * (index + Z.of_nat n) /\ q (bit bm i) (bit other i) = true).
Proof.
  intros Hp Hwf Hwo. revert index. induction n as [|n IH]; intros index Hi Hn Hno; cbn [exists_loop].
  { exists false. split; [done|]. split; [done|]. intros (i & Hii & _). lia. }
  destruct (load_some bm index Hwf ltac:(lia)) as (x & Hx & Hxr).
  destruct (load_some other index Hwo ltac:(lia)) as (y & Hy & Hyr).
  rewrite Hx, Hy. cbn [mbind option_bind].
  assert (Hbits : forall k, 0 <= k < 64 -> q (Z.testbit x k) (Z.testbit y k) = q (bit bm (64 * index + k)) (bit other (64 * index + k))).
  { intros k Hk. by rewrite (bit_load bm index x), (bit_load other index y). }
  specialize (Hp x y Hxr Hyr). destruct (p x y).
  - exists true. split; [done|]. split; [|done]. intros _. destruct Hp as [(k & Hk & Hq) _]; [done|].
    exists (64 * index + k). split; [lia|]. by rewrite <- Hbits.
  - destruct (IH (index + 1)) as (r & -> & Hr); [lia.. |]. exists r. split; [done|]. rewrite Hr. split.
    + intros (i & Hii & Hq). exists i. split; [lia | done].
    + intros (i & Hii & Hq). exists i. split; [|done].
      destruct (Z.lt_ge_cases i (64 * (index + 1))); [exfalso | lia].
      assert (false = true); [|done]. apply Hp. exists (i - 64 * index). split; [lia|].
      rewrite Hbits by lia. by replace (64 * index + (i - 64 * index)) with i by lia.
Qed.

Lemma exists_bit (x : Z) : in_u 64 x -> negb (x =? 0) = true <-> exists k, 0 <= k < 64 /\ Z.testbit x k = true.
Proof.
  intros Hx. split.
  - intros Hne%negb_true_iff. by apply (word_has_bit true x).
  - intros (k & Hk & Hb). destruct (Z.eqb_spec x 0) as [->|]; [by rewrite Z.bits_0 in Hb | done].
Qed.

Lemma exists_bit_ne (x y : Z) : in_u 64 x -> in_u 64 y ->
  negb (x =? y) = true <-> exists k, 0 <= k < 64 /\ xorb (Z.testbit x k) (Z.testbit y k) = true.
Proof.
  intros Hx Hy.
  assert (He : (x =? y) = (Z.lxor x y =? 0)).
  { destruct (Z.eqb_spec x y) as [->|Hne]; [by rewrite Z.lxor_nilpotent|].
    destruct (Z.eqb_spec (Z.lxor x y) 0) as [Hz|]; [|done]. by apply Z.lxor_eq in Hz. }
  assert (Hr : in_u 64 (Z.lxor x y)).
  { replace (Z.lxor x y) with (u64 (Z.lxor x y)); [apply umod_range; lia|].
    bitwise. destruct (Z.ltb_spec i 64); [btauto|]. rewrite !(testbit_high 64) by lia. done. }
  rewrite He, exists_bit by done. setoid_rewrite Z.lxor_spec. done.
Qed.

(** A quantifier over all bits of the words is one over the bits of the map
    when the rest is clear. *)
Lemma exists_bits_clean (q : bool -> bool -> bool) (bm other : BitMap) :
  wf bm -> clean bm -> clean other -> bm_size other = bm_size bm -> q false false = false ->
  (exists i, 64 * 0 <= i < 64 * (0 + Z.of_nat (Z.to_nat (size_in_words bm))) /\ q (bit bm i) (bit other i) = true) <->
  (exists i, 0 <= i < bm_size bm /\ q (bit bm i) (bit other i) = true).
Proof.
  intros Hwf Hc1 Hc2 Hs Hq. pose proof (wf_words_bounds bm Hwf). split; intros (i & Hi & Hb); exists i; (split; [|done]).
  - destruct (Z.lt_ge_cases i (bm_size bm)); [lia|].
    rewrite Hc1, Hc2 in Hb by (rewrite ?Hs; done). congruence.
  - lia.
Qed.

Lemma same_words (bm other : BitMap) : bm_size other = bm_size bm -> size_in_words other = size_in_words bm.
Proof. intros He. unfold size_in_words. by rewrite He. Qed.

(** The comparison of two maps of the same size through their words. *)
Lemma compare_spec (p : Z -> Z -> bool) (q : bool -> bool -> bool) (bm other : BitMap) :
  (forall x y, in_u 64 x -> in_u 64 y ->
     p x y = true <-> exists k, 0 <= k < 64 /\ q (Z.testbit x k) (Z.testbit y k) = true) ->
  q false false = false -> wf bm -> wf other -> clean bm -> clean other -> bm_size other = bm_size bm ->
  exists r, exists_loop p (Z.to_nat (size_in_words bm)) bm other 0 = Some r /\
    (r = true <-> exists i, 0 <= i < bm_size bm /\ q (bit bm i) (bit other i) = true).
Proof.
  intros Hp Hq Hwf Hwo Hc Hco Hs. pose proof (same_words _ _ Hs). pose proof (wf_words_bounds bm Hwf).
  destruct (exists_loop_spec p q bm other (Z.to_nat (size_in_words bm)) 0 Hp Hwf Hwo) as (r & -> & Hr); [lia.. |].
  exists r. split; [done|]. by rewrite Hr, exists_bits_clean.
Qed.
