(* ===== verification/BitMapCorrect.v ===== *)
(** Correctness of the bit maps of BitMap.v against sets of indices: updates of
    bits and ranges, searches, set algebra, counting, iteration, resizing, and
    the compare-and-swap updates by concurrent threads. *)

From S2P Require Import Prelude GlobalDefinitions BitMap.

(** ** Resizing *)

Lemma resize_copied (bm : BitMap) (size_in_bits n : Z) (fresh : list Z) :
  wf bm -> 0 <= size_in_bits < 2 ^ 62 -> zlen fresh = size_in_words (mkBitMap fresh size_in_bits) ->
  Forall (fun w => in_u 64 w) fresh ->
  n = Z.min (size_in_words bm) (size_in_words (mkBitMap fresh size_in_bits)) ->
  exists copied, copy_words n (bm_map bm) = Some copied /\
    let bm1 := mkBitMap (copied ++ drop (Z.to_nat n) fresh) size_in_bits in
    wf bm1 /\ forall i, 0 <= i < 64 * n -> bit bm1 i = bit bm i.
Proof.
  intros Hwf Hs Hl Hf Hn. pose proof (wf_words_bounds bm Hwf). pose proof (wf_len bm Hwf) as Hlen.
  unfold copy_words. rewrite bool_decide_eq_true_2 by lia. eexists. split; [done|]. cbv zeta. split.
  - constructor; cbn; [done | |].
    + rewrite length_app, length_take, length_drop. unfold size_in_words in *. cbn in *. lia.
    + apply Forall_app. split; [apply Forall_take, Hwf | by apply Forall_drop].
  - intros i Hi. unfold bit, load, zget. cbn.
    pose proof (Z.div_mod i 64 ltac:(lia)). pose proof (Z.mod_pos_bound i 64 ltac:(lia)).
    rewrite bool_decide_eq_true_2 by lia.
    rewrite lookup_app_l by (rewrite length_take; lia).
    by rewrite lookup_take_lt by lia.
Qed.

Lemma resize_spec (bm : BitMap) (size_in_bits : Z) (fresh freed : list Z) :
  wf bm -> 0 <= size_in_bits < 2 ^ 62 -> zlen fresh = size_in_words (mkBitMap fresh size_in_bits) ->
  Forall (fun w => in_u 64 w) fresh ->
  exists bm', resize bm size_in_bits fresh freed true = Some bm' /\ wf bm' /\ bm_size bm' = size_in_bits /\
    forall i, 0 <= i < 64 * size_in_words bm' ->
      bit bm' i = if i <? 64 * size_in_words bm then bit bm i else false.
Proof.
  intros Hwf Hs Hl Hf. unfold resize. pose proof (wf_words_bounds bm Hwf).
  destruct (resize_copied bm size_in_bits _ fresh Hwf Hs Hl Hf eq_refl) as (copied & -> & Hwf1 & Hbits).
  cbn [mbind option_bind].
  set (W := size_in_words (mkBitMap fresh size_in_bits)) in *.
  set (bm1 := mkBitMap (copied ++ _) _) in *. assert (HW : W = size_in_words bm1) by done.
  destruct (Z.ltb_spec (size_in_words bm) W).
  - destruct (fill_range_spec false 0 bm1 (size_in_words bm) W) as (bm2 & Hfill & Hp);
      try done; try lia; [intros; apply Z.bits_0|].
    exists bm2. split; [exact Hfill|]. pose proof (changed_words _ _ _ Hp) as Hw2. destruct Hp as (W2 & S & B).
    split; [done|]. split; [done|]. intros i Hi. rewrite B by lia.
    destruct (in_range_spec (64 * size_in_words bm) (64 * W) i),
      (Z.ltb_spec i (64 * size_in_words bm)); done || lia || (apply Hbits; lia).
  - exists bm1. split; [done|]. split; [done|]. split; [done|]. intros i Hi.
    destruct (Z.ltb_spec i (64 * size_in_words bm)); [|lia]. apply Hbits. lia.
Qed.

(** A clean map that does not shrink keeps its bits, and the new ones are clear. *)
Lemma resize_grow (bm : BitMap) (size_in_bits : Z) (fresh freed : list Z) :
  wf bm -> clean bm -> bm_size bm <= size_in_bits < 2 ^ 62 ->
  zlen fresh = size_in_words (mkBitMap fresh size_in_bits) -> Forall (fun w => in_u 64 w) fresh ->
  exists bm', resize bm size_in_bits fresh freed true = Some bm' /\ wf bm' /\ clean bm' /\
    bm_size bm' = size_in_bits /\ forall i, 0 <= i -> bit bm' i = bit bm i.
Proof.
  intros Hwf Hc Hs Hl Hf. pose proof (wf_size bm Hwf).
  destruct (resize_spec bm size_in_bits fresh freed Hwf ltac:(lia) Hl Hf) as (bm' & Hr & Hwf' & Hs' & Hb).
  exists bm'. pose proof (wf_words_bounds bm Hwf). pose proof (wf_words_bounds bm' Hwf').
  assert (Hbits : forall i, 0 <= i -> bit bm' i = bit bm i).
  { intros i Hi. destruct (Z.lt_ge_cases i (64 * size_in_words bm')).
    - rewrite Hb by lia. destruct (Z.ltb_spec i (64 * size_in_words bm)); [done|]. symmetry. apply Hc. lia.
    - rewrite (Hc i) by lia. by apply bit_outside. }
  split; [done|]. split; [done|]. split; [|done]. intros i Hi. rewrite Hbits by lia. apply Hc. lia.
Qed.

(** ** Full and empty maps *)

Lemma full_words_loop_spec (b : bool) (last_ok : Z -> Z -> bool) (bm : BitMap) (fuel : nat) (word rest : Z) :
  (forall w r, in_u 64 w -> 0 < r < 64 -> last_ok w r = true <-> forall k, 0 <= k < r -> Z.testbit w k = b) ->
  wf bm -> 0 <= word -> 0 <= rest -> 64 * word + rest = bm_size bm -> rest < 64 * Z.of_nat fuel ->
  exists r, full_words_loop fuel bm word rest (if b then AllBits else NoBits) last_ok = Some r /\
    (r = true <-> forall i, 64 * word <= i < bm_size bm -> bit bm i = b).
Proof.
  intros Hlast Hwf. pose proof (wf_words_bounds bm Hwf).
  revert word rest. induction fuel as [|fuel IH]; intros word rest Hw Hr Hs Hf; [lia|].
  cbn [full_words_loop]. unfold BitsPerWord. destruct (Z.leb_spec 64 rest).
  - destruct (load_some bm word Hwf ltac:(lia)) as (x & Hx & Hxr). rewrite Hx. cbn [mbind option_bind].
    assert (Hbits : forall k, 0 <= k < 64 -> bit bm (64 * word + k) = Z.testbit x k) by (intros; by rewrite (bit_load bm word x)).
    destruct (x =? _) eqn:He; cbn [negb].
    + destruct (IH (word + 1) (rest - 64)) as (r & -> & Hrr); [lia.. |]. exists r. split; [done|]. rewrite Hrr. split.
      * intros Hall i Hi. destruct (Z.lt_ge_cases i (64 * (word + 1))); [|apply Hall; lia].
        replace i with (64 * word + (i - 64 * word)) by lia. rewrite Hbits by lia.
        rewrite (skip_word_bits (negb b) x); [by destruct b | by destruct b | lia].
      * intros Hall i Hi. apply Hall. lia.
    + exists false. split; [done|]. split; [done|]. intros Hall.
      destruct (word_has_bit (negb b) x Hxr) as (j & Hj & Hbj); [by destruct b|].
      rewrite <- Hbits, Hall in Hbj by lia. by destruct b.
  - destruct (Z.eqb_spec rest 0).
    + exists true. split; [done|]. split; [|done]. intros _ i Hi. lia.
    + destruct (load_some bm word Hwf ltac:(lia)) as (x & Hx & Hxr). rewrite Hx. cbn [mbind option_bind].
      eexists. split; [done|]. rewrite Hlast by (done || lia). split.
      * intros Hall i Hi. replace i with (64 * word + (i - 64 * word)) by lia.
        rewrite <- (bit_load bm word x) by (done || lia). apply Hall. lia.
      * intros Hall k Hk. rewrite (bit_load bm word x) by (done || lia). apply Hall. lia.
Qed.

Lemma right_n_bits_testbit (n k : Z) : 0 <= n < 64 -> 0 <= k < 63 -> Z.testbit (right_n_bits n) k = (k <? n).
Proof.
  intros Hn Hk. unfold right_n_bits, nth_bit, BitsPerWord. destruct (Z.leb_spec 64 n); [lia|].
  rewrite Z.shiftl_1_l. replace (s64 (2 ^ n) - 1) with (s64 (2 ^ n) + -1) by lia.
  rewrite smod_add_l, smod_testbit, Z.min_l by lia.
  replace (2 ^ n + -1) with (Z.ones n) by (rewrite Z.ones_equiv; lia).
  rewrite Z.testbit_ones by lia. destruct (Z.leb_spec 0 k); [done | lia].
Qed.

Lemma right_n_bits_top (n : Z) : 0 <= n < 64 -> Z.testbit (right_n_bits n) 63 = false.
Proof.
  intros Hn. unfold right_n_bits, nth_bit, BitsPerWord. destruct (Z.leb_spec 64 n); [lia|].
  rewrite Z.shiftl_1_l. replace (s64 (2 ^ n) - 1) with (s64 (2 ^ n) + -1) by lia.
  rewrite smod_add_l, smod_testbit, Z.min_l by lia.
  replace (2 ^ n + -1) with (Z.ones n) by (rewrite Z.ones_equiv; lia).
  apply Z.ones_spec_high. lia.
Qed.

Lemma right_n_bits_u64 (n k : Z) : 0 <= n < 64 -> 0 <= k < 64 -> Z.testbit (u64 (right_n_bits n)) k = (k <? n).
Proof.
  intros Hn Hk. rewrite umod_testbit by lia. destruct (Z.ltb_spec k 64); [|lia]. cbn [andb].
  destruct (Z.eq_dec k 63) as [->|]; [|apply right_n_bits_testbit; lia].
  rewrite right_n_bits_top by done. destruct (Z.ltb_spec 63 n); [lia | done].
Qed.

Lemma full_last (w r : Z) : in_u 64 w -> 0 < r < 64 ->
  (Z.lor w (u64 (Z.lnot (right_n_bits r))) =? AllBits) = true <-> forall k, 0 <= k < r -> Z.testbit w k = true.
Proof.
  intros Hw Hr. rewrite Z.eqb_eq.
  assert (Hbit : forall k, 0 <= k < 64 -> Z.testbit (Z.lor w (u64 (Z.lnot (right_n_bits r)))) k = Z.testbit w k || negb (k <? r)).
  { intros k Hk. rewrite Z.lor_spec, testbit_lnot_u by lia. f_equal. f_equal.
    rewrite <- (right_n_bits_u64 r k) by lia. rewrite umod_testbit by lia. by destruct (Z.ltb_spec k 64); [|lia]. }
  split.
  - intros He k Hk. specialize (Hbit k ltac:(lia)). rewrite He, all_bits_testbit in Hbit by lia.
    destruct (Z.ltb_spec k r); [|lia]. by destruct (Z.testbit w k).
  - intros Hall. apply word_ext; [apply lor_range; [lia | done | apply umod_range; lia] | done |].
    intros k Hk. rewrite Hbit, all_bits_testbit by lia. destruct (Z.ltb_spec k r); [by rewrite Hall by lia | btauto].
Qed.

Lemma empty_last (w r : Z) : in_u 64 w -> 0 < r < 64 ->
  (Z.land w (u64 (right_n_bits r)) =? NoBits) = true <-> forall k, 0 <= k < r -> Z.testbit w k = false.
Proof.
  intros Hw Hr. rewrite Z.eqb_eq.
  assert (Hbit : forall k, 0 <= k < 64 -> Z.testbit (Z.land w (u64 (right_n_bits r))) k = Z.testbit w k && (k <? r)).
  { intros k Hk. rewrite Z.land_spec, right_n_bits_u64 by lia. done. }
  split.
  - intros He k Hk. specialize (Hbit k ltac:(lia)). rewrite He, Z.bits_0 in Hbit.
    destruct (Z.ltb_spec k r); [|lia]. by destruct (Z.testbit w k).
  - intros Hall. apply word_ext; [apply land_range_r; [lia | apply umod_range; lia] | done |].
    intros k Hk. rewrite Hbit, Z.bits_0 by lia. destruct (Z.ltb_spec k r); [by rewrite Hall by lia | btauto].
Qed.

Lemma is_full_spec (bm : BitMap) : wf bm ->
  exists r, is_full bm = Some r /\ (r = true <-> forall i, 0 <= i < bm_size bm -> bit bm i = true).
Proof.
  intros Hwf. pose proof (wf_words_bounds bm Hwf). pose proof (wf_size bm Hwf). unfold is_full.
  apply (full_words_loop_spec true); try done; try lia. apply full_last.
Qed.

Lemma is_empty_spec (bm : BitMap) : wf bm ->
  exists r, is_empty bm = Some r /\ (r = true <-> forall i, 0 <= i < bm_size bm -> bit bm i = false).
Proof.
  intros Hwf. pose proof (wf_words_bounds bm Hwf). pose proof (wf_size bm Hwf). unfold is_empty.
  apply (full_words_loop_spec false); try done; try lia. apply empty_last.
Qed.

(** ** Counting *)

(** The number of [n] indices from [l] on with [p]. *)
Fixpoint count (p : Z -> bool) (l : Z) (n : nat) : Z :=
  match n with
  | O => 0
  | S n' => (if p l then 1 else 0) + count p (l + 1) n'
  end.

Lemma count_add (p : Z -> bool) (l : Z) (a b : nat) : count p l (a + b) = count p l a + count p (l + Z.of_nat a) b.
Proof.
  revert l. induction a as [|a IH]; intros l; cbn [count Nat.add]; [by rewrite Z.add_0_r|].
  rewrite IH. replace (l + 1 + Z.of_nat a) with (l + Z.of_nat (S a)) by lia. lia.
Qed.

Lemma count_ext (p q : Z -> bool) (l m : Z) (n : nat) :
  (forall k, 0 <= k < Z.of_nat n -> p (l + k) = q (m + k)) -> count p l n = count q m n.
Proof.
  revert l m. induction n as [|n IH]; intros l m H; cbn [count]; [done|].
  pose proof (H 0 ltac:(lia)) as H0. rewrite !Z.add_0_r in H0. rewrite H0. f_equal. apply IH.
  intros k Hk. specialize (H (k + 1) ltac:(lia)). 
  replace (l + 1 + k) with (l + (k + 1)) by lia. by replace (m + 1 + k) with (m + (k + 1)) by lia.
Qed.

Lemma pop_count_table_spec :
  exists table, init_pop_count_table = Some table /\
    forall c, 0 <= c < 256 -> zget table c = Some (count (Z.testbit c) 0 8).
Proof.
  destruct init_pop_count_table as [table|] eqn:He; [|vm_compute in He; discriminate].
  exists table. split; [done|]. intros c Hc.
  assert (Hall : forallb (fun n => match init_pop_count_table with
      | Some t => match zget t (Z.of_nat n) with Some x => x =? count (Z.testbit (Z.of_nat n)) 0 8 | None => false end
      | None => false end) (seq 0 256) = true) by (vm_compute; reflexivity).
  rewrite forallb_forall in Hall. specialize (Hall (Z.to_nat c)). rewrite He, Z2Nat.id in Hall by lia.
  assert (Hin : In (Z.to_nat c) (seq 0 256)) by (apply in_seq; lia). apply Hall in Hin.
  destruct (zget table c) as [x|]; [|done]. by apply Z.eqb_eq in Hin as ->.
Qed.

Lemma count_bytes_spec (table : list Z) (n : nat) (w sum : Z) :
  (forall c, 0 <= c < 256 -> zget table c = Some (count (Z.testbit c) 0 8)) ->
  count_bytes n table w sum = Some (sum + count (Z.testbit w) 0 (8 * n)).
Proof.
  intros Ht. revert w sum. induction n as [|n IH]; intros w sum; cbn [count_bytes]; [f_equal; cbn; lia|].
  unfold num_set_bits_from_table. pose proof (umod_range 8 (Z.land w 255) ltac:(lia)).
  rewrite Ht by lia. cbn [mbind option_bind]. rewrite IH. f_equal.
  replace (8 * S n)%nat with (8 + 8 * n)%nat by lia. rewrite count_add.
  rewrite (count_ext (Z.testbit (u8 (Z.land w 255))) (Z.testbit w) 0 0 8).
  - rewrite (count_ext (Z.testbit (Z.shiftr w 8)) (Z.testbit w) 0 (0 + Z.of_nat 8) (8 * n)); [lia|].
    intros k Hk. rewrite Z.shiftr_spec by lia. f_equal; lia.
  - intros k Hk. rewrite umod_testbit, Z.land_spec by lia. change 255 with (Z.ones 8).
    rewrite Z.testbit_ones by lia. destruct (Z.ltb_spec (0 + k) 8), (Z.leb_spec 0 (0 + k)); try lia. btauto.
Qed.

Lemma count_words_spec (table : list Z) (bm : BitMap) (n : nat) (i sum : Z) :
  (forall c, 0 <= c < 256 -> zget table c = Some (count (Z.testbit c) 0 8)) ->
  wf bm -> 0 <= i -> i + Z.of_nat n <= size_in_words bm ->
  count_words n table bm i sum = Some (sum + count (bit bm) (64 * i) (64 * n)).
Proof.
  intros Ht Hwf. revert i sum. induction n as [|n IH]; intros i sum Hi Hn; cbn [count_words]; [f_equal; cbn; lia|].
  destruct (load_some bm i Hwf ltac:(lia)) as (x & Hx & Hxr). rewrite Hx. cbn [mbind option_bind].
  rewrite (count_bytes_spec table 8 x sum Ht). cbn [mbind option_bind]. rewrite IH by lia. f_equal.
  replace (64 * S n)%nat with (64 + 64 * n)%nat by lia. rewrite count_add.
  change (8 * 8)%nat with 64%nat. rewrite (count_ext (Z.testbit x) (bit bm) 0 (64 * i) 64).
  - replace (64 * i + Z.of_nat 64) with (64 * (i + 1)) by lia. lia.
  - intros k Hk. by rewrite (bit_load bm i x) by (done || lia).
Qed.

Lemma count_false (p : Z -> bool) (l : Z) (n : nat) :
  (forall k, l <= k < l + Z.of_nat n -> p k = false) -> count p l n = 0.
Proof.
  revert l. induction n as [|n IH]; intros l H; cbn [count]; [done|].
  rewrite H, IH by (intros; try apply H; lia). done.
Qed.

Lemma count_one_bits_spec (bm : BitMap) : wf bm -> clean bm ->
  count_one_bits bm = Some (count (bit bm) 0 (Z.to_nat (bm_size bm))).
Proof.
  intros Hwf Hc. unfold count_one_bits. destruct pop_count_table_spec as (table & -> & Ht). cbn [mbind option_bind].
  pose proof (wf_words_bounds bm Hwf). pose proof (wf_size bm Hwf).
  rewrite (count_words_spec table bm) by (done || lia). f_equal.
  replace (64 * Z.to_nat (size_in_words bm))%nat
    with (Z.to_nat (bm_size bm) + Z.to_nat (64 * size_in_words bm - bm_size bm))%nat by lia.
  rewrite count_add, (count_false _ (64 * 0 + _)); [by rewrite Z.add_0_r|]. intros k Hk. apply Hc. lia.
Qed.

(** ** Set operations *)

Lemma combine_sets_spec (f : Z -> Z -> Z) (g : bool -> bool -> bool) (bm other : BitMap) :
  bitwise_op f g /\ g false false = false ->
  wf bm -> wf other -> bm_size other = bm_size bm -> clean bm -> clean other ->
  exists ch bm', combine f bm other 0 = Some (ch, bm') /\ wf bm' /\ bm_size bm' = bm_size bm /\
    (forall i, 0 <= i < bm_size bm -> bit bm' i = g (bit bm i) (bit other i)) /\
    (ch = true <-> exists i, 0 <= i < bm_size bm /\ bit bm' i <> bit bm i).
Proof.
  intros [Hfg Hg] Hwf Hwo Hs Hc Hco. pose proof (wf_words_bounds bm Hwf). pose proof (same_words _ _ Hs).
  destruct (combine_spec f g bm other 0 Hfg Hwf Hwo) as (ch & bm' & Hr & (W & S & B) & Hch); [lia.. |].
  exists ch, bm'. split; [done|]. split; [done|]. split; [done|]. split; [intros i Hi; apply B; lia|].
  split.
  - intros ->. destruct (decide (Exists (fun k => bit bm' (Z.of_nat k) <> bit bm (Z.of_nat k))
                           (seq 0 (Z.to_nat (bm_size bm))))) as [He|He].
    + apply List.Exists_exists in He as (k & Hk%in_seq & Hne). exists (Z.of_nat k). split; [lia | done].
    + exfalso. assert (true = false); [|done]. apply Hch. intros i Hi.
      destruct (Z.lt_ge_cases i (bm_size bm)).
      * destruct (decide (bit bm' i = bit bm i)); [done|]. exfalso. apply He, List.Exists_exists.
        exists (Z.to_nat i). rewrite Z2Nat.id by lia. split; [apply in_seq; lia | done].
      * rewrite B by lia. change (64 * 0 + i) with i. by rewrite (Hc i), (Hco i) by lia.
  - intros (i & Hi & Hne). destruct ch; [done|]. exfalso. apply Hne, Hch; [done | lia].
Qed.

Lemma bool_iff_neg (r : bool) (P Q : Prop) : (r = true <-> P) -> (Q <-> ~ P) -> negb r = true <-> Q.
Proof. intros Hr HQ. rewrite HQ, <- Hr. destruct r; cbn; intuition congruence. Qed.

Section Compare.
Context (bm other : BitMap) (Hwf : wf bm) (Hwo : wf other) (Hs : bm_size other = bm_size bm).
Context (Hc : clean bm) (Hco : clean other).

Lemma contains_spec :
  exists r, contains bm other = Some r /\
    (r = true <-> forall i, 0 <= i < bm_size bm -> bit other i = true -> bit bm i = true).
Proof.
  destruct (compare_spec (fun a b => negb (Z.lor a b =? a)) (fun a b => negb a && b) bm other) as (r & Hr & Hiff); try done.
  - intros x y Hx Hy. rewrite exists_bit_ne by (done || by apply lor_range).
    setoid_rewrite Z.lor_spec. split; intros (k & Hk & Hb); exists k; (split; [done|]);
      by destruct (Z.testbit x k), (Z.testbit y k).
  - exists (negb r). unfold contains. rewrite Hr. split; [done|]. apply (bool_iff_neg _ _ _ Hiff). split.
    + intros Hall (i & Hi & Hb). apply andb_true_iff in Hb as [Hb1 Hb2]. rewrite (Hall i Hi Hb2) in Hb1. done.
    + intros Hno i Hi Hb. destruct (bit bm i) eqn:He; [done|]. exfalso. apply Hno. exists i. by rewrite He, Hb.
Qed.

Lemma intersects_spec :
  exists r, intersects bm other = Some r /\
    (r = true <-> exists i, 0 <= i < bm_size bm /\ bit bm i && bit other i = true).
Proof.
  apply (compare_spec (fun a b => negb (Z.land a b =? 0)) andb); try done.
  intros x y Hx Hy. rewrite exists_bit by (by apply land_range_r). setoid_rewrite Z.land_spec. done.
Qed.

Lemma is_same_spec :
  exists r, is_same bm other = Some r /\
    (r = true <-> forall i, 0 <= i < bm_size bm -> bit bm i = bit other i).
Proof.
  destruct (compare_spec (fun a b => negb (a =? b)) xorb bm other) as (r & Hr & Hiff); try done.
  - intros x y Hx Hy. by apply exists_bit_ne.
  - exists (negb r). unfold is_same. rewrite Hr. split; [done|]. apply (bool_iff_neg _ _ _ Hiff). split.
    + intros Hall (i & Hi & Hb). rewrite Hall in Hb by done. by destruct (bit other i).
    + intros Hno i Hi. destruct (bit bm i) eqn:H1, (bit other i) eqn:H2; try done;
        exfalso; apply Hno; exists i; by rewrite H1, H2.
Qed.
End Compare.

(** ** Iteration *)

Section Visit.
Context {S : Type} (f : Z -> S -> bool * S).

(** Calls [f] on the [n] indices from [l] on that have [p], in order, until a
    call returns false. *)
Fixpoint visit (p : Z -> bool) (l : Z) (n : nat) (st : S) : bool * S :=
  match n with
  | O => (true, st)
  | Datatypes.S n' =>
      if p l then let '(go, st) := f l st in if go then visit p (l + 1) n' st else (false, st)
      else visit p (l + 1) n' st
  end.

(** The closure, as a callback that leaves the map alone. *)
Definition closure (i : Z) (bm : BitMap) (st : S) : bool * BitMap * S :=
  let '(go, st) := f i st in (go, bm, st).

Lemma visit_add (p : Z -> bool) (l : Z) (a b : nat) (st : S) :
  visit p l (a + b) st = let '(go, st') := visit p l a st in if go then visit p (l + Z.of_nat a) b st' else (false, st').
Proof.
  revert l st. induction a as [|a IH]; intros l st; cbn [visit Nat.add]; [by rewrite Z.add_0_r|].
  replace (l + Z.of_nat (Datatypes.S a)) with (l + 1 + Z.of_nat a) by lia.
  destruct (p l); [destruct (f l st) as [[] st']; [apply IH | done] | apply IH].
Qed.

Lemma visit_none (p : Z -> bool) (l : Z) (n : nat) (st : S) :
  (forall k, l <= k < l + Z.of_nat n -> p k = false) -> visit p l n st = (true, st).
Proof.
  revert l. induction n as [|n IH]; intros l H; cbn [visit]; [done|].
  rewrite H, IH by (intros; try apply H; lia). done.
Qed.

Lemma iterate_word_spec (bm : BitMap) (index w rightOffset : Z) (fuel : nat) (st : S) (offset : Z) :
  0 <= index < 2 ^ 57 -> load bm index = Some w -> in_u 64 w -> 64 * index <= offset <= 64 * (index + 1) ->
  64 * (index + 1) - offset < Z.of_nat fuel ->
  iterate_word closure fuel bm st index offset (Z.shiftr w (offset - 64 * index)) rightOffset =
    let '(go, st') := visit (bit bm) offset (Z.to_nat (Z.min rightOffset (64 * (index + 1)) - offset)) st in
    Some (go, bm, st').
Proof.
  intros Hi Hw Hwr. revert st offset. induction fuel as [|fuel IH]; intros st offset Ho Hf; [lia|].
  cbn [iterate_word].
  assert (Hbits : forall k, 0 <= k < 64 * (index + 1) - offset ->
            bit bm (offset + k) = Z.testbit (Z.shiftr w (offset - 64 * index)) k).
  { intros k Hk. rewrite Z.shiftr_spec by lia. rewrite (bit_load bm index w) by (done || lia). f_equal. lia. }
  destruct (Z.ltb_spec offset rightOffset) as [Hlt|Hge]; cbn [andb].
  2:{ by replace (Z.to_nat _) with 0%nat by lia. }
  destruct (Z.eqb_spec (Z.shiftr w (offset - 64 * index)) NoBits) as [Hz|Hnz]; cbn [negb].
  { rewrite visit_none; [done|]. intros k Hk. replace k with (offset + (k - offset)) by lia.
    rewrite Hbits, Hz by lia. apply Z.bits_0. }
  assert (Hin : offset < 64 * (index + 1)).
  { destruct (Z.eq_dec offset (64 * (index + 1))) as [->|]; [|lia]. exfalso. apply Hnz.
    apply Z.bits_inj'. intros k Hk. rewrite Z.shiftr_spec, Z.bits_0 by lia. apply (testbit_high 64); lia. }
  rewrite land_one, negb_involutive, <- (Hbits 0) by lia. rewrite Z.add_0_r.
  replace (Z.to_nat (Z.min rightOffset (64 * (index + 1)) - offset))
    with (Datatypes.S (Z.to_nat (Z.min rightOffset (64 * (index + 1)) - (offset + 1)))) by lia.
  cbn [visit].
  assert (Hnext : Z.shiftr (Z.shiftr w (offset - 64 * index)) 1 = Z.shiftr w (offset + 1 - 64 * index))
    by (rewrite Z.shiftr_shiftr by lia; f_equal; lia).
  destruct (bit bm offset); [|rewrite Hnext; apply IH; lia].
  unfold closure at 1. destruct (f offset st) as [[] st']; cbn [negb]; [|done].
  rewrite Hw. cbn [mbind option_bind].
  assert (Z.land offset (BitsPerWord - 1) = offset - 64 * index) as ->.
  { change (Z.land offset (BitsPerWord - 1)) with (bit_in_word offset). rewrite bit_in_word_eq.
    symmetry. apply (Z.mod_unique _ _ index); lia. }
  rewrite Hnext. apply IH; lia.
Qed.

(** Binding without unfolding what follows. *)
Lemma bind_Some' {A B : Type} (x : A) (k : A -> option B) : (Some x ≫= k) = k x.
Proof. done. Qed.

Lemma iterate_loop_spec (bm : BitMap) (rightOffset endIndex : Z) (n : nat) (st : S) (index offset : Z) :
  wf bm -> rightOffset <= bm_size bm -> endIndex = Z.min (rightOffset / 64 + 1) (size_in_words bm) ->
  0 <= index -> 64 * index <= offset -> (offset < 64 * (index + 1)) ->
  index <= endIndex -> endIndex - index < Z.of_nat n ->
  iterate_loop closure n bm st index offset rightOffset endIndex =
    let '(go, st') := visit (bit bm) offset (Z.to_nat (rightOffset - offset)) st in Some (go, bm, st').
Proof.
  intros Hwf Hr He. pose proof (wf_words_bounds bm Hwf).
  revert st index offset. induction n as [|n IH]; intros st index offset Hi Ho Ho2 Hie Hn; [lia|].
  cbn [iterate_loop].
  destruct (Z.ltb_spec offset rightOffset) as [Hlt|Hge]; cbn [andb].
  2:{ by replace (Z.to_nat _) with 0%nat by lia. }
  pose proof (Z.div_mod rightOffset 64 ltac:(lia)). pose proof (Z.mod_pos_bound rightOffset 64 ltac:(lia)).
  destruct (Z.ltb_spec index endIndex); [|lia].
  destruct (load_some bm index Hwf ltac:(lia)) as (w & Hw & Hwr). rewrite Hw, bind_Some'.
  assert (Z.land offset (BitsPerWord - 1) = offset - 64 * index) as ->.
  { change (Z.land offset (BitsPerWord - 1)) with (bit_in_word offset). rewrite bit_in_word_eq.
    symmetry. apply (Z.mod_unique _ _ index); lia. }
  rewrite (iterate_word_spec bm index w rightOffset 65) by (done || lia).
  set (a := Z.to_nat (Z.min rightOffset (64 * (index + 1)) - offset)).
  replace (Z.to_nat (rightOffset - offset)) with (a + Z.to_nat (rightOffset - (offset + Z.of_nat a)))%nat by lia.
  rewrite visit_add. destruct (visit (bit bm) offset a st) as [[] st']; rewrite bind_Some'; [|done].
  unfold LogBitsPerWord. rewrite Z.shiftl_mul_pow2, umod_id by lia.
  replace ((index + 1) * 2 ^ 6) with (64 * (index + 1)) by lia.
  destruct (Z.le_gt_cases (64 * (index + 1)) rightOffset).
  - replace (offset + Z.of_nat a) with (64 * (index + 1)) by lia. apply IH; lia.
  - replace (Z.to_nat (rightOffset - (offset + Z.of_nat a))) with 0%nat by lia. cbn [visit].
    destruct n as [|n]; [lia|]. cbn [iterate_loop]. destruct (Z.ltb_spec (64 * (index + 1)) rightOffset); [lia | done].
Qed.

Lemma iterate_spec (bm : BitMap) (st : S) (leftOffset rightOffset : Z) :
  wf bm -> 0 <= leftOffset <= rightOffset -> rightOffset <= bm_size bm ->
  iterate closure bm st leftOffset rightOffset =
    let '(go, st') := visit (bit bm) leftOffset (Z.to_nat (rightOffset - leftOffset)) st in Some (go, bm, st').
Proof.
  intros Hwf Hl Hr. unfold iterate. rewrite !word_index_eq. pose proof (wf_words_bounds bm Hwf).
  pose proof (Z.div_mod rightOffset 64 ltac:(lia)). pose proof (Z.mod_pos_bound rightOffset 64 ltac:(lia)).
  pose proof (Z.div_mod leftOffset 64 ltac:(lia)). pose proof (Z.mod_pos_bound leftOffset 64 ltac:(lia)).
  apply iterate_loop_spec; done || lia.
Qed.
End Visit.

(** ** Concurrent updates

    Threads that run [par_set_bit] (or all [par_clear_bit]) on bits of the same word, each
    with its bit; a step is one access of one of them. *)
Definition par_word (value : bool) (bit : Z) : Z -> Z := if value then par_set_word bit else par_clear_word bit.

Inductive word_step (v : bool) : Z * list (Z * cas_state) -> Z * list (Z * cas_state) -> Prop :=
  | word_access w ts i b t w' t' :
      ts !! i = Some (b, t) -> cas_step (par_word v b) w t = (w', t') -> word_step v (w, ts) (w', <[i := (b, t')]> ts).

(** The number of threads that returned true for a bit, and whether a thread has the bit. *)
Definition won (k : Z) (t : Z * cas_state) : bool :=
  (t.1 mod 64 =? k) && match t.2 with cas_done r => r | _ => false end.
Definition winners (k : Z) (ts : list (Z * cas_state)) : nat := length (List.filter (won k) ts).
Definition targeted (k : Z) (bits : list Z) : bool := existsb (fun b => b mod 64 =? k) bits.

Lemma winners_insert (k : Z) (ts : list (Z * cas_state)) (i : nat) (t t' : Z * cas_state) :
  ts !! i = Some t -> (winners k (<[i := t']> ts) + (if won k t then 1 else 0) = winners k ts + (if won k t' then 1 else 0))%nat.
Proof.
  unfold winners. revert i. induction ts as [|x ts IH]; intros i; [done|]. destruct i as [|i]; intros Hi.
  - injection Hi as ->. change (<[0%nat := t']> (t :: ts)) with (t' :: ts). cbn [List.filter]. destruct (won k t), (won k t'); cbn [length]; lia.
  - specialize (IH i Hi). change (<[S i := t']> (x :: ts)) with (x :: <[i := t']> ts). cbn [List.filter]. destruct (won k x); cbn [length]; lia.
Qed.

Lemma winners_none (k : Z) (ts : list (Z * cas_state)) : targeted k (ts.*1) = false -> winners k ts = 0%nat.
Proof.
  unfold winners, won. induction ts as [|[b t] ts IH]; cbn; [done|]. intros [Hb Hts]%orb_false_iff. rewrite Hb. by apply IH.
Qed.

Lemma par_word_put (v : bool) (b x : Z) : in_u 64 x -> word_put b v x (par_word v b x).
Proof. intros Hx. destruct v; [by apply word_put_set|by apply word_put_clear]. Qed.

(** The update changes the word exactly if the bit has the other value. *)
Lemma par_word_change (v : bool) (b x : Z) : in_u 64 x -> par_word v b x = x <-> Z.testbit x (b mod 64) = v.
Proof.
  intros Hx. destruct (par_word_put v b x Hx) as [Hr Hb]. pose proof (Z.mod_pos_bound b 64 ltac:(lia)) as Hm. split.
  - intros He. specialize (Hb (b mod 64) Hm). by rewrite He, Z.eqb_refl in Hb.
  - intros He. apply word_ext; [done..|]. intros k Hk. rewrite Hb by done. by destruct (Z.eqb_spec k (b mod 64)) as [->|].
Qed.

(** What is known of a thread when the word is [w]: bits that had the value when it read the
    word have it still, and a thread that returned false found its bit changed. *)
Definition thread_ok (v : bool) (w : Z) (t : Z * cas_state) : Prop :=
  match t.2 with
  | cas_start => True
  | cas_read x => in_u 64 x /\ forall k, 0 <= k < 64 -> Z.testbit x k = v -> Z.testbit w k = v
  | cas_done true => True
  | cas_done false => Z.testbit w (t.1 mod 64) = v
  end.

Record threads_ok (v : bool) (w0 : Z) (s : Z * list (Z * cas_state)) : Prop := {
  threads_word : in_u 64 s.1;
  threads_bits : forall k, 0 <= k < 64 -> Z.testbit s.1 k = if (0 <? winners k s.2)%nat then v else Z.testbit w0 k;
  threads_winners : forall k, 0 <= k < 64 -> (winners k s.2 <= 1)%nat /\ (winners k s.2 = 1%nat -> Z.testbit w0 k <> v);
  threads_each : forall i t, s.2 !! i = Some t -> thread_ok v s.1 t;
}.

(** A step that leaves the word as it is. *)
Lemma threads_ok_same (v : bool) (w0 w : Z) (ts : list (Z * cas_state)) (i : nat) (b : Z) (t t' : cas_state) :
  threads_ok v w0 (w, ts) -> ts !! i = Some (b, t) -> (forall k, won k (b, t') = won k (b, t)) -> thread_ok v w (b, t') -> threads_ok v w0 (w, <[i := (b, t')]> ts).
Proof.
  intros [T1 T2 T3 T4] Hi Hsame Ht'. assert (Hw : forall k, winners k (<[i := (b, t')]> ts) = winners k ts).
  { intros k. pose proof (winners_insert k ts i _ (b, t') Hi) as Hk. rewrite Hsame in Hk. lia. }
  split; cbn [fst snd] in *; [done|intros k Hk; rewrite Hw; auto..|].
  intros j x [(_ & <- & _)|[_ Hx]]%list_lookup_insert_Some; [done|by apply (T4 j)].
Qed.

(** The swap of a thread that finds the word as it read it. *)
Lemma threads_ok_swap (v : bool) (w0 w : Z) (ts : list (Z * cas_state)) (i : nat) (b : Z) :
  threads_ok v w0 (w, ts) -> ts !! i = Some (b, cas_read w) -> par_word v b w <> w -> threads_ok v w0 (par_word v b w, <[i := (b, cas_done true)]> ts).
Proof.
  intros [T1 T2 T3 T4] Hi Hf. cbn [fst snd] in *. rewrite (par_word_change v b w T1) in Hf. destruct (par_word_put v b w T1) as [Hr Hb]. pose proof (Z.mod_pos_bound b 64 ltac:(lia)) as Hm.
  assert (Hnone : winners (b mod 64) ts = 0%nat). { specialize (T2 _ Hm). destruct (winners (b mod 64) ts) as [|n]; [done|]. by rewrite T2 in Hf. }
  assert (Hw : forall k, winners k (<[i := (b, cas_done true)]> ts) = (winners k ts + (if (b mod 64 =? k)%Z then 1 else 0))%nat).
  { intros k. pose proof (winners_insert k ts i _ (b, cas_done true) Hi) as Hk. unfold won in Hk. cbn [fst snd] in Hk. rewrite andb_false_r, andb_true_r in Hk. lia. }
  split; cbn [fst snd].
  - done.
  - intros k Hk. rewrite Hb, Hw, Z.eqb_sym by done. destruct (Z.eqb_spec (b mod 64) k) as [<-|]; [by rewrite Hnone|]. rewrite Nat.add_0_r. by apply T2.
  - intros k Hk. rewrite Hw. destruct (Z.eqb_spec (b mod 64) k) as [<-|]; [|rewrite Nat.add_0_r; by apply T3]. rewrite Hnone. split; [lia|]. intros _. by rewrite T2, Hnone in Hf.
  - assert (Hmono : forall k, 0 <= k < 64 -> Z.testbit w k = v -> Z.testbit (par_word v b w) k = v) by (intros k Hk Hv; rewrite Hb by done; by destruct (k =? b mod 64)).
    intros j x [(_ & <- & _)|[_ Hx]]%list_lookup_insert_Some; [done|]. specialize (T4 j x Hx). pose proof (Z.mod_pos_bound x.1 64 ltac:(lia)). unfold thread_ok in *. destruct x.2 as [|y|[]]; [done| |done|auto].
    destruct T4 as [Y1 Y2]. split; [done|]. auto.
Qed.

Lemma threads_ok_step (v : bool) (w0 : Z) (s s' : Z * list (Z * cas_state)) : threads_ok v w0 s -> word_step v s s' -> threads_ok v w0 s' /\ s'.2.*1 = s.2.*1.
Proof.
  intros Hok Hst. destruct Hst as [w ts i b t w' t' Hi Hc]. split.
  - pose proof (threads_each _ _ _ Hok i _ Hi) as Ht. pose proof (threads_word _ _ _ Hok) as Hw. cbn [fst snd] in Hw. destruct t as [|x|r]; cbn in Hc, Ht.
    + injection Hc as <- <-. by apply (threads_ok_same v w0 w ts i b cas_start).
    + destruct Ht as [Hx Hmono]. pose proof (par_word_change v b x Hx) as Hch. pose proof (Z.mod_pos_bound b 64 ltac:(lia)).
      destruct (Z.eqb_spec (par_word v b x) x) as [He|He].
      * injection Hc as <- <-. apply (threads_ok_same v w0 w ts i b (cas_read x)); [done|done|done|]. apply Hmono; [done|by apply Hch].
      * destruct (Z.eqb_spec w x) as [->|Hne]; injection Hc as <- <-; [by apply threads_ok_swap|]. by apply (threads_ok_same v w0 w ts i b (cas_read x)).
    + injection Hc as <- <-. by apply (threads_ok_same v w0 w ts i b (cas_done r)).
  - cbn [snd]. rewrite list_fmap_insert. cbn [fst]. apply list_insert_id. by rewrite list_lookup_fmap, Hi.
Qed.

Lemma threads_ok_steps (v : bool) (w0 : Z) (s s' : Z * list (Z * cas_state)) : threads_ok v w0 s -> rtc (word_step v) s s' -> threads_ok v w0 s' /\ s'.2.*1 = s.2.*1.
Proof.
  intros Hok Hst. induction Hst as [|s s1 s2 Hst _ IH]; [done|]. destruct (threads_ok_step v w0 s s1 Hok Hst) as [H1 <-]. by apply IH.
Qed.

Lemma threads_ok_start (v : bool) (w0 : Z) (bits : list Z) : in_u 64 w0 -> threads_ok v w0 (w0, (fun b => (b, cas_start)) <$> bits).
Proof.
  intros Hw. assert (Hnone : forall k, winners k ((fun b => (b, cas_start)) <$> bits) = 0%nat).
  { intros k. unfold winners, won. induction bits as [|b bits IH]; [done|]. cbn. by rewrite andb_false_r. }
  split; cbn [fst snd]; [done|intros k _; by rewrite Hnone|intros k _; rewrite Hnone; lia|]. intros i t. rewrite list_lookup_fmap. destruct (bits !! i); [|done]. by intros [= <-].
Qed.

(** ** Several bits per slot *)

(** Different bits of different slots have different indices, so that storing one
    does not touch another. *)
Lemma bits_of_slots (bm bm' : BitMap2D) (s1 b1 s2 b2 : Z) (value : bool) :
  wf (bm2_map bm) -> 0 <= b1 < bits_per_slot bm -> 0 <= b2 < bits_per_slot bm -> 0 <= s1 -> 0 <= s2 ->
  s1 * bits_per_slot bm + b1 < bm_size (bm2_map bm) -> s2 * bits_per_slot bm + b2 < bm_size (bm2_map bm) ->
  at_put_2d bm s1 b1 value = Some bm' ->
  at_2d bm' s2 b2 = if (s1 =? s2) && (b1 =? b2) then Some value else at_2d bm s2 b2.
Proof.
  intros Hwf Hb1 Hb2 Hs1 Hs2 Hi1 Hi2 Hput. pose proof (wf_size _ Hwf). unfold at_put_2d, at_2d, bit_index_2d in *.
  assert (0 <= s1 * bits_per_slot bm) by nia. assert (0 <= s2 * bits_per_slot bm) by nia.
  rewrite (umod_id 64 (s1 * _ + b1)) in Hput by lia.
  destruct (at_put_spec (bm2_map bm) (s1 * bits_per_slot bm + b1) value Hwf ltac:(lia)) as (m & Hm & W & S & B).
  rewrite Hm in Hput. cbn in Hput. injection Hput as <-. cbn [bm2_map bits_per_slot].
  rewrite (umod_id 64 (s2 * _ + b2)) by lia. pose proof (wf_words_bounds _ Hwf).
  rewrite !at_spec, B by (done || lia).
  destruct (in_range_spec (s1 * bits_per_slot bm + b1) (s1 * bits_per_slot bm + b1 + 1) (s2 * bits_per_slot bm + b2)),
    (Z.eqb_spec s1 s2), (Z.eqb_spec b1 b2); cbn [andb]; subst; try done; exfalso; nia.
Qed.

(** ** A concrete map of 130 bits with bits 3, 64 and 100 to 129 set *)
Definition sample_map : BitMap := mkBitMap [8; 0xfffffff000000001; 3] 130.

Lemma sample_map_wf : wf sample_map.
Proof. constructor; cbn; [lia | done | repeat constructor; lia]. Qed.

Lemma sample_map_clean : clean sample_map.
Proof.
  intros i Hi. cbn in Hi. destruct (Z.lt_ge_cases i 192).
  - replace i with (64 * 2 + (i - 128)) by lia.
    rewrite <- (bit_load sample_map 2 3) by (done || lia). apply (testbit_high 2); lia.
  - apply bit_outside; [apply sample_map_wf | change (size_in_words sample_map) with 3; lia].
Qed.

(** Both versions of a set operation store [g] of the bits of the two maps, and the one with
    a result tells whether a bit changed. *)
Definition combines (g : bool -> bool -> bool) (bm other : BitMap) (with_result : option (bool * BitMap)) (without : option BitMap) : Prop :=
  exists changed bm', with_result = Some (changed, bm') /\ without = Some bm' /\ wf bm' /\ bm_size bm' = bm_size bm /\
    (forall i, 0 <= i < bm_size bm -> bit bm' i = g (bit bm i) (bit other i)) /\
    (changed = true <-> exists i, 0 <= i < bm_size bm /\ bit bm' i <> bit bm i).

Lemma combines_spec (f : Z -> Z -> Z) (g : bool -> bool -> bool) (bm other : BitMap) :
  bitwise_op f g /\ g false false = false -> wf bm -> wf other -> bm_size other = bm_size bm -> clean bm -> clean other ->
  combines g bm other (combine f bm other 0) (snd <$> combine f bm other 0).
Proof.
  intros Hfg Hwf Hwo Hs Hc Hco. destruct (combine_sets_spec f g bm other Hfg Hwf Hwo Hs Hc Hco) as (ch & bm' & -> & H). by exists ch, bm'.
Qed.

(** ** Correctness *)

(** C8: every range update puts its value into exactly the bits of the range:
    [set_range], [clear_range], their large and hinted versions, and the parallel
    ones when no other thread interferes all succeed and leave a map in which bit
    [i] is [v] for [beg <= i < fin] and unchanged otherwise. *)
Theorem range_operations_correct (bm : BitMap) (beg fin : Z) (v : bool) (hint : RangeSizeHint) :
  wf bm -> 0 <= beg <= fin -> fin <= bm_size bm ->
  forall op,
    op = at_put_range bm beg fin v \/ op = at_put_large_range bm beg fin v \/
    op = (if v then set_range_hint bm beg fin hint else clear_range_hint bm beg fin hint) \/
    op = par_at_put_range bm beg fin v [] [] \/ op = par_at_put_large_range bm beg fin v [] [] \/
    op = (if v then par_set_range bm beg fin hint [] [] else par_clear_range bm beg fin hint [] []) ->
  exists bm', op = Some bm' /\ wf bm' /\ bm_size bm' = bm_size bm /\
    forall i, 0 <= i < bm_size bm -> bit bm' i = if in_range beg fin i then v else bit bm i.
Proof.
  intros Hwf Hb Hf op Hop.
  assert (Hputs : puts v bm beg fin op).
  { destruct Hop as [->|[->|[->|[->|[->| ->]]]]].
    - by apply at_put_range_spec.
    - by apply at_put_large_range_spec.
    - destruct v; [by apply set_range_hint_spec | by apply clear_range_hint_spec].
    - by apply par_at_put_range_spec.
    - by apply par_at_put_large_range_spec.
    - destruct v; by apply par_put_range_hint_spec. }
  destruct Hputs as (bm' & He & W & S & B). exists bm'. split; [done|]. split; [done|]. split; [done|].
  intros i Hi. pose proof (wf_words_bounds bm Hwf). apply B. lia.
Qed.

Lemma range_operations_correct_witness :
  exists bm', at_put_large_range sample_map 5 120 true = Some bm' /\ wf bm' /\ bit bm' 70 = true.
Proof.
  destruct (range_operations_correct sample_map 5 120 true unknown_range sample_map_wf ltac:(lia) ltac:(cbn; lia)
              (at_put_large_range sample_map 5 120 true) (or_intror (or_introl eq_refl))) as (bm' & H1 & H2 & _ & H4).
  exists bm'. split; [exact H1|]. split; [exact H2|]. rewrite (H4 70) by (cbn; lia). reflexivity.
Defined.

(** C25: [get_next_one_offset] and [get_next_zero_offset] terminate and return the
    first set (clear) bit at or after [l], or [r] when there is none before [r];
    the version for an aligned right end returns the same. *)
Theorem search_correct (bm : BitMap) (l r : Z) :
  wf bm -> 0 <= l <= r -> r <= bm_size bm ->
  (exists x, get_next_one_offset bm l r = Some x /\ next_index (bit bm) l r x) /\
  (exists x, get_next_zero_offset bm l r = Some x /\ next_index (fun i => negb (bit bm i)) l r x) /\
  (r mod 64 = 0 -> get_next_one_offset_inline_aligned_right bm l r = get_next_one_offset bm l r).
Proof.
  intros Hwf Hl Hr. split; [by apply get_next_one_offset_spec|]. split; [by apply get_next_zero_offset_spec|].
  intros. by apply aligned_right_eq.
Qed.

Lemma search_correct_witness :
  exists x, get_next_one_offset sample_map 65 130 = Some x /\ next_index (bit sample_map) 65 130 x /\ x = 100.
Proof.
  destruct (search_correct sample_map 65 130 sample_map_wf ltac:(lia) ltac:(cbn; lia)) as [(x & H1 & H2) _].
  exists x. split; [exact H1|]. split; [exact H2|]. vm_compute in H1. injection H1 as <-. reflexivity.
Defined.

(** C34: for two maps of the same size without bits behind their ends,
    [set_union_with_result], [set_difference_with_result] and
    [set_intersection_with_result] compute union, difference and intersection bit by bit,
    with a result that tells whether the map changed; [set_union], [set_difference] and
    [set_intersection] give the same maps; [contains], [intersects] and [is_same] decide inclusion, intersection and
    equality of the sets, [is_full] and [is_empty] decide fullness and emptiness,
    and [count_one_bits] returns the number of set bits. *)
Theorem set_operations_correct (bm other : BitMap) :
  wf bm -> wf other -> bm_size other = bm_size bm -> clean bm -> clean other ->
  combines orb bm other (set_union_with_result bm other) (set_union bm other) /\
  combines (fun a b => a && negb b) bm other (set_difference_with_result bm other) (set_difference bm other) /\
  combines andb bm other (set_intersection_with_result bm other) (set_intersection bm other) /\
  (exists r, contains bm other = Some r /\
     (r = true <-> forall i, 0 <= i < bm_size bm -> bit other i = true -> bit bm i = true)) /\
  (exists r, intersects bm other = Some r /\
     (r = true <-> exists i, 0 <= i < bm_size bm /\ bit bm i && bit other i = true)) /\
  (exists r, is_same bm other = Some r /\
     (r = true <-> forall i, 0 <= i < bm_size bm -> bit bm i = bit other i)) /\
  (exists r, is_full bm = Some r /\ (r = true <-> forall i, 0 <= i < bm_size bm -> bit bm i = true)) /\
  (exists r, is_empty bm = Some r /\ (r = true <-> forall i, 0 <= i < bm_size bm -> bit bm i = false)) /\
  count_one_bits bm = Some (count (bit bm) 0 (Z.to_nat (bm_size bm))).
Proof.
  intros Hwf Hwo Hs Hc Hco. split; [|split; [|split; [|split; [|split; [|split; [|split; [|split]]]]]]].
  - apply combines_spec; try done. split; [apply union_bitwise|done].
  - apply combines_spec; try done. split; [apply difference_bitwise|done].
  - apply combines_spec; try done. split; [apply intersection_bitwise|done].
  - apply contains_spec; done.
  - apply intersects_spec; done.
  - apply is_same_spec; done.
  - by apply is_full_spec.
  - by apply is_empty_spec.
  - by apply count_one_bits_spec.
Qed.

Lemma set_operations_correct_witness :
  count_one_bits sample_map = Some 32 /\ exists r, contains sample_map sample_map = Some r.
Proof.
  destruct (set_operations_correct sample_map sample_map sample_map_wf sample_map_wf eq_refl sample_map_clean sample_map_clean)
    as (_ & _ & _ & (r & H1 & _) & _ & _ & _ & _ & H2).
  split; [rewrite H2; vm_compute; reflexivity | exists r; exact H1].
Defined.

(** C35: [iterate] with a closure that does not touch the map terminates and calls
    the closure on exactly the set bits of [leftOffset, rightOffset), in
    increasing order, stopping after the first call that returns false. *)
Theorem iterate_correct {S : Type} (f : Z -> S -> bool * S) (bm : BitMap) (st : S) (leftOffset rightOffset : Z) :
  wf bm -> 0 <= leftOffset <= rightOffset -> rightOffset <= bm_size bm ->
  iterate (closure f) bm st leftOffset rightOffset =
    let '(go, st') := visit f (bit bm) leftOffset (Z.to_nat (rightOffset - leftOffset)) st in Some (go, bm, st').
Proof. apply iterate_spec. Qed.

Lemma iterate_correct_witness :
  iterate (closure (fun i l => (i <? 102, i :: l))) sample_map [] 4 130 =
    Some (false, sample_map, [102; 101; 100; 64]).
Proof.
  rewrite (iterate_correct (fun i l => (i <? 102, i :: l)) sample_map [] 4 130 sample_map_wf ltac:(lia) ltac:(cbn; lia)).
  vm_compute. reflexivity.
Defined.

(** C26: when any number of threads run [par_set_bit] (or all of them [par_clear_bit]) on bits
    of one word, each on a bit of its own choice, and their accesses interleave in any way,
    then once all have returned the bits of the threads have the value and the others are
    as they were; of the threads with the same bit exactly one has returned true if
    the bit had to be changed, and none otherwise.  A thread alone changes its bit, and
    returns whether it had to be changed. *)
Theorem par_update_one_winner (v : bool) (bits : list Z) (w0 w : Z) (ts : list (Z * cas_state)) :
  in_u 64 w0 -> rtc (word_step v) (w0, (fun b => (b, cas_start)) <$> bits) (w, ts) -> Forall (fun t => exists r, t.2 = cas_done r) ts ->
  (forall k, 0 <= k < 64 -> Z.testbit w k = (if targeted k bits then v else Z.testbit w0 k) /\
     winners k ts = if targeted k bits && negb (Bool.eqb (Z.testbit w0 k) v) then 1%nat else 0%nat) /\
  (forall bm i, wf bm -> 0 <= i < bm_size bm -> exists bm', par_at_put bm i v [] = Some (negb (Bool.eqb (bit bm i) v), bm') /\ put i (i + 1) v bm bm').
Proof.
  intros Hw0 Hsteps Hdone. split; [|intros bm i; apply par_at_put_alone].
  assert (Hok : threads_ok v w0 (w, ts) /\ ts.*1 = bits).
  { destruct (threads_ok_steps v w0 _ _ (threads_ok_start v w0 bits Hw0) Hsteps) as [H1 H2]. cbn [snd] in H2. split; [done|].
    rewrite H2, <- list_fmap_compose. apply list_fmap_id. }
  destruct Hok as [[_ T2 T3 T4] <-]. cbn [fst snd] in *. intros k Hk. specialize (T2 k Hk). specialize (T3 k Hk). destruct (targeted k (ts.*1)) eqn:Ht; cbn [andb].
  2:{ rewrite (winners_none k ts Ht) in *. done. }
  assert (Hv : Z.testbit w k = v).
  { apply existsb_exists in Ht as (b & Hb & Hbk%Z.eqb_eq). apply list_elem_of_In, list_elem_of_fmap in Hb as (t & -> & [i Hi]%list_elem_of_lookup_1). specialize (T4 i t Hi). unfold thread_ok in T4.
    pose proof (Forall_lookup_1 _ _ _ _ Hdone Hi) as (r & Hr). rewrite Hr in T4. destruct r; [|by rewrite Hbk in T4]. rewrite T2.
    destruct (winners k ts) eqn:Hn; [|done]. exfalso. pose proof (winners_insert k ts i t (t.1, cas_start) Hi) as Hins. unfold won in Hins. rewrite Hr, Hbk, Z.eqb_refl in Hins. cbn in Hins. rewrite Hbk, Z.eqb_refl in Hins. cbn in Hins. lia. }
  split; [done|]. rewrite Hv in T2. destruct T3 as [T3 T3']. destruct (Bool.eqb_spec (Z.testbit w0 k) v) as [He|He]; cbn [negb]; destruct (winners k ts) as [|[|n]]; try done; try lia; try congruence; by destruct (T3' eq_refl).
Qed.

(** Two threads set bit 5 and one bit 7 of a word; the second thread for bit 5 finds the
    word changed, reads it again and returns false. *)
Lemma par_update_one_winner_witness :
  exists w ts, rtc (word_step true) (1, (fun b => (b, cas_start)) <$> [5; 5; 7]) (w, ts) /\ winners 5 ts = 1%nat /\ winners 7 ts = 1%nat.
Proof.
  assert (Hsteps : rtc (word_step true) (1, (fun b => (b, cas_start)) <$> [5; 5; 7]) (161, [(5, cas_done true); (5, cas_done false); (7, cas_done true)])).
  { eapply rtc_l; [eapply (word_access true 1 _ 0); reflexivity|].
    eapply rtc_l; [eapply (word_access true 1 _ 1); reflexivity|].
    eapply rtc_l; [eapply (word_access true 1 _ 2); reflexivity|].
    eapply rtc_l; [eapply (word_access true 1 _ 0); reflexivity|].
    eapply rtc_l; [eapply (word_access true 33 _ 1); reflexivity|].
    eapply rtc_l; [eapply (word_access true 33 _ 1); reflexivity|].
    eapply rtc_l; [eapply (word_access true 33 _ 2); reflexivity|].
    eapply rtc_l; [eapply (word_access true 33 _ 2); reflexivity|]. apply rtc_refl. }
  destruct (par_update_one_winner true [5; 5; 7] 1 161 _ ltac:(lia) Hsteps) as [H _]; [repeat constructor; eexists; reflexivity|].
  eexists _, _. split; [exact Hsteps|]. split; [exact (proj2 (H 5 ltac:(lia)))|exact (proj2 (H 7 ltac:(lia)))].
Defined.

(** [at_put_grow] stores the value at any offset, growing the map when the
    offset lies beyond its end, and leaves every other bit alone, new bits being
    clear; the map must not be empty when offset 0 is stored. *)
Lemma at_put_grow_correct (bm : BitMap) (offset : Z) (value : bool) (fresh : list Z) :
  wf bm -> clean bm -> bm_size bm < 2 ^ 60 -> 0 <= offset < 2 ^ 60 -> 0 < Z.max (bm_size bm) offset ->
  zlen fresh = size_in_words (mkBitMap fresh (2 * Z.max (bm_size bm) offset)) ->
  Forall (fun w => in_u 64 w) fresh ->
  exists bm', at_put_grow bm offset value fresh = Some bm' /\ wf bm' /\
    bm_size bm <= bm_size bm' /\ offset < bm_size bm' /\
    forall i, 0 <= i < bm_size bm' -> bit bm' i = if i =? offset then value else bit bm i.
Proof.
  intros Hwf Hc Hs Ho Hpos Hl Hf. unfold at_put_grow. pose proof (wf_size bm Hwf).
  assert (Hput : forall bm1, wf bm1 -> bm_size bm <= bm_size bm1 -> offset < bm_size bm1 ->
    (forall i, 0 <= i -> bit bm1 i = bit bm i) ->
    exists bm', at_put bm1 offset value = Some bm' /\ wf bm' /\ bm_size bm <= bm_size bm' /\ offset < bm_size bm' /\
      forall i, 0 <= i < bm_size bm' -> bit bm' i = if i =? offset then value else bit bm i).
  { intros bm1 W1 S1 O1 B1. destruct (at_put_spec bm1 offset value W1 ltac:(lia)) as (bm' & Ha & W & S & B).
    exists bm'. split; [done|]. split; [done|]. rewrite S. split; [done|]. split; [done|]. intros i Hi.
    pose proof (wf_words_bounds bm1 W1). rewrite B, B1 by lia.
    destruct (in_range_spec offset (offset + 1) i), (Z.eqb_spec i offset); done || lia. }
  destruct (Z.leb_spec (bm_size bm) offset).
  - rewrite umod_id by lia.
    destruct (resize_grow bm (2 * Z.max (bm_size bm) offset) fresh [] Hwf Hc ltac:(lia) Hl Hf)
      as (bm1 & -> & W1 & _ & S1 & B1). cbn [mbind option_bind]. apply Hput; done || lia.
  - cbn [mbind option_bind]. apply Hput; done || lia.
Qed.

Lemma at_put_grow_correct_witness :
  exists bm', at_put_grow sample_map 200 true [7; 7; 7; 7; 7; 7; 7] = Some bm' /\ 200 < bm_size bm'.
Proof.
  destruct (at_put_grow_correct sample_map 200 true [7; 7; 7; 7; 7; 7; 7] sample_map_wf sample_map_clean)
    as (bm' & H1 & _ & _ & H2 & _).
  - cbn. lia.
  - lia.
  - cbn. lia.
  - reflexivity.
  - repeat constructor; lia.
  - exists bm'. split; [exact H1 | exact H2].
Defined.

(** C37: [resize] in the resource area, whatever the new array holds, keeps the bits of all
    words that the old and the new map both have, and clears the new words.  So shrinking to
    [n] bits and resizing again to [m] brings back the bits from [n] to the end of the
    last word that was kept, and only those: they are not zeroed when they become
    addressable. *)
Theorem resize_correct (bm : BitMap) (n m : Z) (fresh1 fresh2 : list Z) :
  wf bm -> 0 <= n < 2 ^ 62 -> 0 <= m < 2 ^ 62 ->
  zlen fresh1 = size_in_words (mkBitMap fresh1 n) -> zlen fresh2 = size_in_words (mkBitMap fresh2 m) ->
  Forall (fun w => in_u 64 w) fresh1 -> Forall (fun w => in_u 64 w) fresh2 ->
  exists bm1 bm2, resize bm n fresh1 [] true = Some bm1 /\ resize bm1 m fresh2 [] true = Some bm2 /\
    wf bm1 /\ bm_size bm1 = n /\ wf bm2 /\ bm_size bm2 = m /\
    (forall i, 0 <= i < n -> bit bm1 i = if i <? 64 * size_in_words bm then bit bm i else false) /\
    (forall i, 0 <= i < m -> bit bm2 i = if i <? 64 * Z.min (size_in_words bm) (size_in_words bm1) then bit bm i else false).
Proof.
  intros Hwf Hn Hm Hl1 Hl2 Hf1 Hf2. destruct (resize_spec bm n fresh1 [] Hwf Hn Hl1 Hf1) as (bm1 & E1 & W1 & S1 & B1).
  destruct (resize_spec bm1 m fresh2 [] W1 Hm Hl2 Hf2) as (bm2 & E2 & W2 & S2 & B2). exists bm1, bm2.
  pose proof (wf_words_bounds bm1 W1). pose proof (wf_words_bounds bm2 W2). do 6 (split; [done|]). split; intros i Hi; [apply B1; lia|].
  rewrite B2 by lia. destruct (Z.ltb_spec i (64 * size_in_words bm1)); [|destruct (Z.ltb_spec i (64 * Z.min (size_in_words bm) (size_in_words bm1))); lia || done].
  rewrite B1 by lia. destruct (Z.ltb_spec i (64 * size_in_words bm)), (Z.ltb_spec i (64 * Z.min (size_in_words bm) (size_in_words bm1))); done || lia.
Qed.

Lemma resize_correct_witness :
  exists bm1 bm2, resize sample_map 70 [3; 3] [] true = Some bm1 /\ resize bm1 130 [7; 7; 7] [] true = Some bm2 /\
    bit bm2 100 = bit sample_map 100 /\ bit bm2 128 = false.
Proof.
  destruct (resize_correct sample_map 70 130 [3; 3] [7; 7; 7]) as (bm1 & bm2 & H1 & H2 & _ & _ & _ & _ & _ & H3);
    [exact sample_map_wf|lia|lia|reflexivity|reflexivity|repeat constructor; lia|repeat constructor; lia|].
  assert (Hw : size_in_words bm1 = 2) by (vm_compute in H1; injection H1 as <-; reflexivity).
  exists bm1, bm2. split; [exact H1|]. split; [exact H2|]. rewrite !H3, Hw by lia. split; reflexivity.
Defined.
