(* ===== verification/Utf8.v ===== *)
(** Conversions between modified UTF-8 and UTF-16 of utilities/utf8.cpp.

    A pointer into a byte string is the list of the bytes from there on to the
    end of the allocated memory; reading past it has no result ([None]).  Bytes
    are numbers below 256, [jchar]s numbers below 65536.  A buffer that is written
    is the list of the bytes written so far, with its capacity where the code
    checks one. *)

From S2P Require Import Prelude.

(** ** Definitions *)

(** *** Decoding *)

(** [UTF8::next]: the character and the pointer behind it. *)
Definition next (str : list Z) : option (Z * list Z) :=
  ch ← str !! 0%nat;
  r ← (let n := Z.shiftr ch 4 in
       if (n =? 0x8) || (n =? 0x9) || (n =? 0xA) || (n =? 0xB) || (n =? 0xF) then Some None
       else if (n =? 0xC) || (n =? 0xD) then
         ch2 ← str !! 1%nat;
         if Z.land ch2 0xC0 =? 0x80 then
           let high_five := Z.land ch 0x1F in
           let low_six := Z.land ch2 0x3F in
           Some (Some (u16 (Z.shiftl high_five 6 + low_six), 2%nat))
         else Some None
       else if n =? 0xE then
         ch2 ← str !! 1%nat;
         if Z.land ch2 0xC0 =? 0x80 then
           ch3 ← str !! 2%nat;
           if Z.land ch3 0xC0 =? 0x80 then
             let high_four := Z.land ch 0x0f in
             let mid_six := Z.land ch2 0x3f in
             let low_six := Z.land ch3 0x3f in
             Some (Some (u16 (Z.shiftl (Z.shiftl high_four 6 + mid_six) 6 + low_six), 3%nat))
           else Some None
         else Some None
       else Some (Some (ch, 1%nat)));
  match r with
  | Some (result, length) => Some (result, drop length str)
  | None => Some (ch, drop 1 str)
  end.

Definition is_supplementary_character (str : list Z) : option bool :=
  let check i mask v k :=
    b ← str !! i; if Z.land b mask =? v then k else Some false in
  check 0%nat 0xFF 0xED (check 1%nat 0xF0 0xA0 (check 2%nat 0xC0 0x80
    (check 3%nat 0xFF 0xED (check 4%nat 0xF0 0xB0 (check 5%nat 0xC0 0x80 (Some true)))))).

Definition get_supplementary_character (str : list Z) : option Z :=
  b1 ← str !! 1%nat; b2 ← str !! 2%nat; b4 ← str !! 4%nat; b5 ← str !! 5%nat;
  Some (0x10000 + Z.shiftl (Z.land b1 0x0f) 16 + Z.shiftl (Z.land b2 0x3f) 10
        + Z.shiftl (Z.land b4 0x0f) 6 + Z.land b5 0x3f).

Definition next_character (str : list Z) : option (Z * list Z) :=
  supplementary ← is_supplementary_character str;
  if (supplementary : bool) then
    value ← get_supplementary_character str; Some (value, drop 6 str)
  else next str.

(** [unicode_length] of the first [len] bytes. *)
Fixpoint unicode_length_loop (len : nat) (str : list Z) (num_chars : Z) : option Z :=
  match len with
  | O => Some num_chars
  | S len' =>
      b ← str !! 0%nat;
      unicode_length_loop len' (drop 1 str) (if Z.land b 0xC0 =? 0x80 then num_chars - 1 else num_chars)
  end.
Definition unicode_length (str : list Z) (len : nat) : option Z := unicode_length_loop len str (Z.of_nat len).

(** [unicode_length] of a string that ends with a zero byte. *)
Fixpoint unicode_length0_loop (str : list Z) (num_chars : Z) : option Z :=
  match str with
  | [] => None
  | b :: str' =>
      if b =? 0 then Some num_chars
      else unicode_length0_loop str' (if negb (Z.land b 0xC0 =? 0x80) then num_chars + 1 else num_chars)
  end.
Definition unicode_length0 (str : list Z) : option Z := unicode_length0_loop str 0.

Fixpoint convert_loop (n : nat) (ptr : list Z) : option (list Z) :=
  match n with
  | O => Some []
  | S n' => '(c, ptr) ← next ptr; cs ← convert_loop n' ptr; Some (c :: cs)
  end.

(** The ASCII loop, followed by the general one. *)
Fixpoint convert_to_unicode (ptr : list Z) (unicode_length : nat) : option (list Z) :=
  match unicode_length with
  | O => Some []
  | S n' =>
      ch ← ptr !! 0%nat;
      if 0x7F <? ch then convert_loop unicode_length ptr
      else cs ← convert_to_unicode (drop 1 ptr) n'; Some (ch :: cs)
  end.

(** *** Encoding *)

Definition utf8_write (ch : Z) : list Z :=
  if negb (ch =? 0) && (ch <=? 0x7f) then [u8 ch]
  else if ch <=? 0x7FF then
    let high_five := u8 (Z.shiftr ch 6) in
    let low_six := u8 (Z.land ch 0x3F) in
    [u8 (Z.lor high_five 0xC0); u8 (Z.lor low_six 0x80)]
  else
    let high_four := s8 (Z.shiftr ch 12) in
    let mid_six := s8 (Z.land (Z.shiftr ch 6) 0x3F) in
    let low_six := s8 (Z.land ch 0x3f) in
    [u8 (Z.lor high_four 0xE0); u8 (Z.lor mid_six 0x80); u8 (Z.lor low_six 0x80)].

Definition utf8_size (c : Z) : Z :=
  if (0x0001 <=? c) && (c <=? 0x007F) then 1 else if c <=? 0x07FF then 2 else 3.

Fixpoint utf8_length_loop (base : list Z) (result : Z) : Z :=
  match base with
  | [] => result
  | c :: base =>
      utf8_length_loop base
        (s32 (if (0x0001 <=? c) && (c <=? 0x007F) then result + 1
              else if c <=? 0x07FF then result + 2 else result + 3))
  end.
Definition utf8_length (base : list Z) : Z := utf8_length_loop base 0.

(** The bytes written, with the terminating zero. *)
Fixpoint convert_to_utf8 (base : list Z) : list Z :=
  match base with
  | [] => [0]
  | c :: base => utf8_write c ++ convert_to_utf8 base
  end.

(** [as_utf8] in the resource area: the array has room for [utf8_len + 1] bytes. *)
Definition as_utf8 (base : list Z) : option (list Z) :=
  let utf8_len := utf8_length base in
  let result := convert_to_utf8 base in
  if bool_decide (zlen result <= utf8_len + 1) then Some result else None.

(** [as_utf8] into a buffer of [buflen] bytes, [p] bytes of which are written. *)
Fixpoint as_utf8_loop (base : list Z) (p buflen : Z) : list Z :=
  match base with
  | [] => [0]
  | c :: base =>
      if buflen <=? p + utf8_size c then [0]
      else utf8_write c ++ as_utf8_loop base (p + zlen (utf8_write c)) buflen
  end.
Definition as_utf8_buf (base : list Z) (buflen : Z) : list Z := as_utf8_loop base 0 buflen.

(** *** Quoted ASCII *)

Definition hex_digit (d : Z) : Z := if d <? 10 then 48 + d else 87 + d.

(** [sprintf(p, "\\u%04x", c)] *)
Definition sprintf_u (c : Z) : list Z :=
  [92; 117; hex_digit (Z.shiftr c 12); hex_digit (Z.land (Z.shiftr c 8) 15);
   hex_digit (Z.land (Z.shiftr c 4) 15); hex_digit (Z.land c 15)].

Definition printable (c : Z) : bool := (32 <=? c) && (c <? 127).

Fixpoint quoted_ascii_length (base : list Z) (result : Z) : Z :=
  match base with
  | [] => result
  | c :: base => quoted_ascii_length base (s32 (if printable c then result + 1 else result + 6))
  end.

Fixpoint as_quoted_ascii_loop (base : list Z) (p buflen : Z) : list Z :=
  match base with
  | [] => [0]
  | c :: base =>
      if printable c then
        if buflen <=? p + 1 then [0] else s8 c :: as_quoted_ascii_loop base (p + 1) buflen
      else
        if buflen <=? p + 6 then [0] else sprintf_u c ++ as_quoted_ascii_loop base (p + 6) buflen
  end.
Definition as_quoted_ascii (base : list Z) (buflen : Z) : list Z := as_quoted_ascii_loop base 0 buflen.

(** The versions that read UTF-8: the pointer runs to [utf8_end], which is the
    point where [rest] bytes are left. *)
Fixpoint utf8_quoted_length_loop (fuel : nat) (ptr : list Z) (rest result : Z) : option Z :=
  match fuel with
  | O => None
  | S fuel' =>
      if rest <? zlen ptr then
        '(c, ptr) ← next ptr;
        utf8_quoted_length_loop fuel' ptr rest (s32 (if printable c then result + 1 else result + 6))
      else Some result
  end.
Definition utf8_quoted_ascii_length (utf8_str : list Z) (utf8_length : Z) : option Z :=
  utf8_quoted_length_loop (S (length utf8_str)) utf8_str (zlen utf8_str - utf8_length) 0.

Fixpoint utf8_as_quoted_loop (fuel : nat) (ptr : list Z) (rest p buflen : Z) : option (list Z) :=
  match fuel with
  | O => None
  | S fuel' =>
      if rest <? zlen ptr then
        '(c, ptr) ← next ptr;
        if printable c then
          if buflen <=? p + 1 then Some [0]
          else out ← utf8_as_quoted_loop fuel' ptr rest (p + 1) buflen; Some (s8 c :: out)
        else
          if buflen <=? p + 6 then Some [0]
          else out ← utf8_as_quoted_loop fuel' ptr rest (p + 6) buflen; Some (sprintf_u c ++ out)
      else Some [0]
  end.
Definition utf8_as_quoted_ascii (utf8_str : list Z) (utf8_length buflen : Z) : option (list Z) :=
  utf8_as_quoted_loop (S (length utf8_str)) utf8_str (zlen utf8_str - utf8_length) 0 buflen.

(** The scan at the start of [from_quoted_ascii] for the first character that is
    not plain: the pointer behind the plain ones. *)
Fixpoint from_quoted_scan (fuel : nat) (ptr : list Z) : option (list Z) :=
  match fuel with
  | O => None
  | S fuel' =>
      b ← ptr !! 0%nat;
      if negb (b =? 0) then
        let c := s8 b in
        if (c <? 32) || (127 <=? c) then Some ptr else from_quoted_scan fuel' ptr
      else Some ptr
  end.

(** One hexadecimal digit; [None] for [ShouldNotReachHere]. *)
Definition quoted_digit (c : Z) : option Z :=
  if (48 <=? c) && (c <=? 57) then Some (c - 48)
  else if (97 <=? c) && (c <=? 102) then Some (10 + c - 97)
  else if (65 <=? c) && (c <=? 70) then Some (10 + c - 65)
  else None.

Fixpoint quoted_value (n : nat) (ptr : list Z) (value : Z) : option (Z * list Z) :=
  match n with
  | O => Some (value, ptr)
  | S n' =>
      c ← ptr !! 0%nat; d ← quoted_digit c;
      quoted_value n' (drop 1 ptr) (u16 (Z.shiftl value 4 + d))
  end.

(** The bytes stored so far, with their index, when there is a buffer. *)
Definition store (buffer : option (list (Z * Z))) (length : Z) (bytes : list Z) : option (list (Z * Z)) :=
  log ← buffer; Some (log ++ imap (fun i b => (length + Z.of_nat i, b)) bytes).

(** One round over the string: the length and the buffer at its end. *)
Fixpoint from_quoted_round (fuel : nat) (ptr : list Z) (length : Z) (buffer : option (list (Z * Z)))
  : option (Z * option (list (Z * Z))) :=
  match fuel with
  | O => None
  | S fuel' =>
      b ← ptr !! 0%nat;
      if negb (b =? 0) then
        if negb (b =? 92) then from_quoted_round fuel' ptr (length + 1) (store buffer length [b])
        else
          e ← ptr !! 1%nat;
          if e =? 117 then
            '(value, ptr) ← quoted_value 4 (drop 2 ptr) 0;
            from_quoted_round fuel' ptr (length + zlen (utf8_write value)) (store buffer length (utf8_write value))
          else
            c ← (if e =? 116 then Some 9 else if e =? 110 then Some 10
                 else if e =? 114 then Some 13 else if e =? 102 then Some 12 else None);
            from_quoted_round fuel' (drop 2 ptr) (length + 1) (store buffer length [c])
      else Some (length, buffer)
  end.

(** The original string, or the bytes stored in the new one. *)
Definition from_quoted_ascii (fuel : nat) (str : list Z) : option (list Z + list (Z * Z)) :=
  ptr ← from_quoted_scan fuel str;
  b ← ptr !! 0%nat;
  if b =? 0 then Some (inl str)
  else
    let length := zlen str - zlen ptr in
    '(length, _) ← from_quoted_round fuel ptr length None;
    '(length, buffer) ← from_quoted_round fuel str length (Some []);
    log ← store buffer length [0];
    Some (inr log).

(** *** Byte strings *)

Fixpoint strrchr (base : list Z) (length : nat) (c : Z) : option (option nat) :=
  match length with
  | O => Some None
  | S n => b ← base !! n; if b =? c then Some (Some n) else strrchr base n c
  end.

Fixpoint equal_loop (n : nat) (base1 base2 : list Z) : option bool :=
  match n with
  | O => Some true
  | S n' =>
      a ← base1 !! 0%nat; b ← base2 !! 0%nat;
      if negb (a =? b) then Some false else equal_loop n' (drop 1 base1) (drop 1 base2)
  end.
Definition equal (base1 : list Z) (length1 : nat) (base2 : list Z) (length2 : nat) : option bool :=
  if negb (Nat.eqb length1 length2) then Some false else equal_loop length1 base1 base2.

(** ** Encoding and decoding one character *)

Definition jchar (c : Z) : Prop := 0 <= c < 65536.

(** Decoding only looks at the bytes of the character. *)
Lemma next_app (l rest : list Z) (v : Z) (r : list Z) :
  next l = Some (v, r) -> next (l ++ rest) = Some (v, r ++ rest).
Proof.
  unfold next. destruct l as [|b l]; [done|]. cbn [lookup list_lookup app mbind option_bind].
  set (n := Z.shiftr b 4). destruct (_ || _ || _ || _ || _); [by intros [= <- <-]|].
  destruct (_ || _).
  - destruct l as [|b2 l]; [done|]. cbn. destruct (Z.land b2 192 =? 128); by intros [= <- <-].
  - destruct (n =? 14); [|by intros [= <- <-]].
    destruct l as [|b2 l]; [done|]. cbn. destruct (Z.land b2 192 =? 128); [|by intros [= <- <-]].
    destruct l as [|b3 l]; [done|]. cbn. destruct (Z.land b3 192 =? 128); by intros [= <- <-].
Qed.

Fixpoint all_from (n : nat) (z : Z) (f : Z -> bool) : bool :=
  match n with O => true | S n' => f z && all_from n' (z + 1) f end.

Lemma all_from_spec (n : nat) (z c : Z) (f : Z -> bool) :
  all_from n z f = true -> z <= c < z + Z.of_nat n -> f c = true.
Proof.
  revert z. induction n as [|n IH]; intros z; cbn [all_from]; [lia|].
  intros [Hz Hn]%andb_true_iff Hc. destruct (Z.eq_dec c z) as [->|]; [done|]. apply (IH (z + 1)); [done|lia].
Qed.

(** The parts of a character: the bits a byte carries, how they are stored, and
    how they are read back. *)
Lemma lead2_byte (h : Z) :
  0 <= h < 32 ->
  u8 (Z.lor (u8 h) 0xC0) = 0xC0 + h /\ (Z.shiftr (0xC0 + h) 4 = 0xC \/ Z.shiftr (0xC0 + h) 4 = 0xD) /\
  Z.land (0xC0 + h) 0x1F = h /\ (Z.land (0xC0 + h) 0xC0 =? 0x80) = false.
Proof.
  intros Hh. pose proof (all_from_spec 32 0 h (fun h => (u8 (Z.lor (u8 h) 0xC0) =? 0xC0 + h) &&
    ((Z.shiftr (0xC0 + h) 4 =? 0xC) || (Z.shiftr (0xC0 + h) 4 =? 0xD)) &&
    (Z.land (0xC0 + h) 0x1F =? h) && negb (Z.land (0xC0 + h) 0xC0 =? 0x80)) eq_refl ltac:(lia)) as H.
  rewrite !andb_true_iff, orb_true_iff, negb_true_iff, !Z.eqb_eq in H. tauto.
Qed.

Lemma lead3_byte (h : Z) :
  0 <= h < 16 ->
  u8 (Z.lor (s8 h) 0xE0) = 0xE0 + h /\ Z.shiftr (0xE0 + h) 4 = 0xE /\ Z.land (0xE0 + h) 0x0f = h /\
  (Z.land (0xE0 + h) 0xC0 =? 0x80) = false /\ Z.land (0xE0 + h) 0xFF = 0xE0 + h.
Proof.
  intros Hh. pose proof (all_from_spec 16 0 h (fun h => (u8 (Z.lor (s8 h) 0xE0) =? 0xE0 + h) &&
    (Z.shiftr (0xE0 + h) 4 =? 0xE) && (Z.land (0xE0 + h) 0x0f =? h) &&
    negb (Z.land (0xE0 + h) 0xC0 =? 0x80) && (Z.land (0xE0 + h) 0xFF =? 0xE0 + h)) eq_refl ltac:(lia)) as H.
  rewrite !andb_true_iff, negb_true_iff, !Z.eqb_eq in H. tauto.
Qed.

Lemma cont_byte (m : Z) :
  0 <= m < 64 ->
  u8 (Z.lor (u8 m) 0x80) = 0x80 + m /\ u8 (Z.lor (s8 m) 0x80) = 0x80 + m /\
  (Z.land (0x80 + m) 0xC0 =? 0x80) = true /\ Z.land (0x80 + m) 0x3F = m.
Proof.
  intros Hm. pose proof (all_from_spec 64 0 m (fun m => (u8 (Z.lor (u8 m) 0x80) =? 0x80 + m) &&
    (u8 (Z.lor (s8 m) 0x80) =? 0x80 + m) && (Z.land (0x80 + m) 0xC0 =? 0x80) &&
    (Z.land (0x80 + m) 0x3F =? m)) eq_refl ltac:(lia)) as H.
  rewrite !andb_true_iff, !Z.eqb_eq in H. rewrite Z.eqb_eq. tauto.
Qed.

(** The encoding of a character, by the number of its bytes. *)
Inductive written (c : Z) : list Z -> Prop :=
| written1 : 0 < c < 0x80 -> written c [c]
| written2 h l :
    c = h * 64 + l -> 0 <= h < 32 -> 0 <= l < 64 -> c = 0 \/ 0x80 <= c -> written c [0xC0 + h; 0x80 + l]
| written3 h m l :
    c = h * 4096 + m * 64 + l -> 0 <= h < 16 -> 0 <= m < 64 -> 0 <= l < 64 -> 0x800 <= c ->
    written c [0xE0 + h; 0x80 + m; 0x80 + l].

Lemma land_0x3f (c : Z) : Z.land c 0x3F = c mod 64.
Proof. change 0x3F with (Z.ones 6). by rewrite Z.land_ones. Qed.

Lemma utf8_write_written (c : Z) : jchar c -> written c (utf8_write c).
Proof.
  unfold jchar. intros Hc. unfold utf8_write. rewrite !land_0x3f, !Z.shiftr_div_pow2 by lia.
  change (2 ^ 6) with 64. change (2 ^ 12) with 4096.
  pose proof (Z.div_mod c 64 ltac:(lia)). pose proof (Z.mod_pos_bound c 64 ltac:(lia)).
  destruct (Z.eqb_spec c 0), (Z.leb_spec c 0x7f); cbn [negb andb];
    try (rewrite umod_id by (cbn; lia); constructor; lia);
    (destruct (Z.leb_spec c 0x7FF); [|try lia]);
    try (rewrite (proj1 (lead2_byte (c / 64) ltac:(lia))), (proj1 (cont_byte (c mod 64) ltac:(lia)));
         constructor; lia).
  pose proof (Z.div_mod (c / 64) 64 ltac:(lia)) as Hq. pose proof (Z.mod_pos_bound (c / 64) 64 ltac:(lia)).
  rewrite Z.div_div in Hq by lia. change (64 * 64) with 4096 in Hq.
  rewrite (proj1 (lead3_byte (c / 4096) ltac:(lia))).
  rewrite (proj1 (proj2 (cont_byte (c mod 64) ltac:(lia)))), (proj1 (proj2 (cont_byte ((c / 64) mod 64) ltac:(lia)))).
  constructor; lia.
Qed.

Lemma next_ascii (b : Z) (l : list Z) : 0 <= b <= 0x7F -> next (b :: l) = Some (b, l).
Proof.
  intros Hb. unfold next. cbn [lookup list_lookup mbind option_bind].
  assert (Hn : Z.shiftr b 4 < 8) by (rewrite Z.shiftr_div_pow2 by lia; apply Z.div_lt_upper_bound; lia).
  repeat match goal with |- context [Z.shiftr b 4 =? ?k] => destruct (Z.eqb_spec (Z.shiftr b 4) k); [lia|] end.
  done.
Qed.

(** The characters of two and of three bytes. *)
Lemma next_two (h l : Z) (rest : list Z) :
  0 <= h < 32 -> 0 <= l < 64 -> next ([0xC0 + h; 0x80 + l] ++ rest) = Some (h * 64 + l, rest).
Proof.
  intros Hh Hl. change rest with ([] ++ rest) at 2. apply next_app. unfold next.
  cbn [lookup list_lookup mbind option_bind].
  destruct (lead2_byte h Hh) as (_ & Hn & Hb & _). destruct (cont_byte l Hl) as (_ & _ & Hk & Hs).
  rewrite Hk, Hb, Hs, Z.shiftl_mul_pow2 by lia. change (2 ^ 6) with 64.
  rewrite umod_id by (change (2 ^ 16) with 65536; lia). by destruct Hn as [-> | ->].
Qed.

Lemma next_three (h m l : Z) (rest : list Z) :
  0 <= h < 16 -> 0 <= m < 64 -> 0 <= l < 64 ->
  next ([0xE0 + h; 0x80 + m; 0x80 + l] ++ rest) = Some (h * 4096 + m * 64 + l, rest).
Proof.
  intros Hh Hm Hl. change rest with ([] ++ rest) at 2. apply next_app. unfold next.
  cbn [lookup list_lookup mbind option_bind].
  destruct (lead3_byte h Hh) as (_ & Hn & Hb & _). destruct (cont_byte m Hm) as (_ & _ & Hk & Hs).
  destruct (cont_byte l Hl) as (_ & _ & Hk2 & Hs2).
  rewrite Hn, Hk, Hk2, Hb, Hs, Hs2, !Z.shiftl_mul_pow2 by lia. change (2 ^ 6) with 64.
  replace ((h * 64 + m) * 64 + l) with (h * 4096 + m * 64 + l) by lia.
  by rewrite (umod_id 16 (h * 4096 + m * 64 + l)) by (change (2 ^ 16) with 65536; lia).
Qed.

Section Char.
Context (c : Z) (Hc : jchar c).

Lemma next_write (rest : list Z) : next (utf8_write c ++ rest) = Some (c, rest).
Proof.
  destruct (utf8_write_written c Hc) as [Hr|h l He Hh Hl _|h m l He Hh Hm Hl _].
  - apply next_ascii. lia.
  - rewrite He. by apply next_two.
  - rewrite He. by apply next_three.
Qed.

Lemma write_size : zlen (utf8_write c) = utf8_size c.
Proof.
  unfold jchar in Hc. unfold utf8_size. destruct (utf8_write_written c Hc); cbn [length];
    repeat match goal with |- context [?a <=? ?b] => destruct (Z.leb_spec a b); cbn [andb] end; lia.
Qed.

Lemma write_bytes (b : Z) : b ∈ utf8_write c -> 0 < b < 256.
Proof.
  destruct (utf8_write_written c Hc); rewrite !elem_of_cons, elem_of_nil; intros; lia.
Qed.

Lemma write_lead :
  exists b l, utf8_write c = b :: l /\ (Z.land b 0xC0 =? 0x80) = false /\
    forall x, x ∈ l -> (Z.land x 0xC0 =? 0x80) = true.
Proof.
  destruct (utf8_write_written c Hc) as [Hr|h l He Hh Hl _|h m l He Hh Hm Hl _]; do 2 eexists; (split; [done|]).
  - split; [|by intros x ?%elem_of_nil]. apply negb_true_iff.
    by apply (all_from_spec 128 0 c (fun c => negb (Z.land c 0xC0 =? 0x80)) eq_refl); lia.
  - split; [apply (lead2_byte h Hh)|]. intros x. rewrite elem_of_cons, elem_of_nil. intros [->|[]].
    apply (cont_byte l Hl).
  - split; [apply (lead3_byte h Hh)|]. intros x. rewrite !elem_of_cons, elem_of_nil.
    intros [->|[->|[]]]; by apply cont_byte.
Qed.
End Char.

(** ** Strings *)

(** The ASCII loop is an optimization of the general one. *)
Lemma convert_to_unicode_eq (n : nat) (ptr : list Z) :
  Forall (fun b => 0 <= b) ptr -> convert_to_unicode ptr n = convert_loop n ptr.
Proof.
  revert ptr. induction n as [|n IH]; intros ptr Hp; [done|].
  destruct ptr as [|b ptr]; [done|]. apply Forall_cons_1 in Hp as [Hb Hp].
  cbn [convert_to_unicode]. cbn [lookup list_lookup mbind option_bind drop].
  destruct (Z.ltb_spec 0x7F b); [done|]. rewrite IH by done.
  cbn [convert_loop]. rewrite next_ascii by lia. done.
Qed.

Lemma convert_loop_encoded (s rest : list Z) :
  Forall jchar s -> convert_loop (length s) (convert_to_utf8 s ++ rest) = Some s.
Proof.
  induction s as [|c s IH]; intros Hs; [done|]. apply Forall_cons_1 in Hs as [Hc Hs].
  cbn [convert_to_utf8 length convert_loop]. rewrite <- app_assoc, next_write by done.
  cbn [mbind option_bind]. by rewrite IH.
Qed.

(** The bytes of the encoded characters, as a number without a bound. *)
Definition encoded_size (s : list Z) : Z := foldr (fun c n => utf8_size c + n) 0 s.

Lemma utf8_length_loop_eq (s : list Z) (r : Z) :
  in_s 32 r -> utf8_length_loop s r = s32 (r + encoded_size s).
Proof.
  revert r. induction s as [|c s IH]; intros r Hr; cbn [utf8_length_loop encoded_size foldr].
  - rewrite Z.add_0_r. symmetry. by apply smod_id.
  - rewrite IH by (by apply smod_range). rewrite smod_add_l by lia. f_equal. unfold utf8_size.
    change (foldr _ 0 s) with (encoded_size s). repeat case_match; lia.
Qed.

Lemma utf8_length_eq (s : list Z) : utf8_length s = s32 (encoded_size s).
Proof. apply utf8_length_loop_eq. cbv; by split. Qed.

Lemma utf8_size_bounds (c : Z) : 1 <= utf8_size c <= 3.
Proof. unfold utf8_size. repeat case_match; lia. Qed.

Lemma encoded_size_bounds (s : list Z) : zlen s <= encoded_size s <= 3 * zlen s.
Proof.
  induction s as [|c s IH]; [done|]. cbn [encoded_size foldr length]. change (foldr _ 0 s) with (encoded_size s).
  pose proof (utf8_size_bounds c). lia.
Qed.

(** Below this length the number of bytes fits in an [int]. *)
Lemma utf8_length_exact (s : list Z) : 3 * zlen s < 2 ^ 31 -> utf8_length s = encoded_size s.
Proof.
  intros Hs. rewrite utf8_length_eq. apply smod_id; [lia|]. pose proof (encoded_size_bounds s).
  change (2 ^ (32 - 1)) with (2 ^ 31). lia.
Qed.

Lemma encoded_length (s : list Z) : Forall jchar s -> zlen (convert_to_utf8 s) = encoded_size s + 1.
Proof.
  induction s as [|c s IH]; intros Hs; [done|]. apply Forall_cons_1 in Hs as [Hc Hs].
  cbn [convert_to_utf8 encoded_size foldr]. change (foldr _ 0 s) with (encoded_size s). rewrite length_app.
  pose proof (write_size c Hc). specialize (IH Hs). lia.
Qed.

Lemma encoded_nonneg (s : list Z) : Forall jchar s -> Forall (fun b => 0 <= b) (convert_to_utf8 s).
Proof.
  induction s as [|c s IH]; intros Hs; [by repeat constructor|]. apply Forall_cons_1 in Hs as [Hc Hs].
  apply Forall_app. split; [|by apply IH]. apply List.Forall_forall. intros b Hb%list_elem_of_In.
  pose proof (write_bytes c Hc b Hb). lia.
Qed.

(** The two counts of characters, over the bytes of one character. *)
Lemma unicode_length_tail (l rest : list Z) (n : nat) (k : Z) :
  (forall x, x ∈ l -> (Z.land x 0xC0 =? 0x80) = true) ->
  unicode_length_loop (length l + n) (l ++ rest) k = unicode_length_loop n rest (k - zlen l).
Proof.
  revert k. induction l as [|b l IH]; intros k Hl; cbn [length Nat.add app unicode_length_loop]; [f_equal; cbn; lia|].
  cbn [lookup list_lookup mbind option_bind drop]. rewrite Hl by constructor.
  rewrite IH by (intros; apply Hl; by constructor). f_equal. lia.
Qed.

Lemma unicode_length_encoded (s : list Z) (k : Z) :
  Forall jchar s ->
  unicode_length_loop (Z.to_nat (encoded_size s)) (convert_to_utf8 s) k = Some (k - encoded_size s + zlen s).
Proof.
  revert k. induction s as [|c s IH]; intros k Hs; [cbn; f_equal; lia|]. apply Forall_cons_1 in Hs as [Hc Hs].
  destruct (write_lead c Hc) as (b & l & Hw & Hb & Hl). pose proof (write_size c Hc) as Hsz. rewrite Hw in Hsz.
  pose proof (encoded_size_bounds s). cbn [convert_to_utf8 encoded_size foldr]. change (foldr _ 0 s) with (encoded_size s). rewrite Hw.
  replace (Z.to_nat (utf8_size c + encoded_size s)) with (S (length l + Z.to_nat (encoded_size s))) by (cbn in Hsz; lia).
  cbn [app unicode_length_loop lookup list_lookup mbind option_bind drop]. rewrite Hb.
  rewrite drop_0, unicode_length_tail by done. rewrite IH by done. f_equal. cbn in *. lia.
Qed.

Lemma unicode_length0_tail (l rest : list Z) (k : Z) :
  (forall x, x ∈ l -> (Z.land x 0xC0 =? 0x80) = true) ->
  unicode_length0_loop (l ++ rest) k = unicode_length0_loop rest k.
Proof.
  induction l as [|b l IH]; intros Hl; [done|]. cbn [app unicode_length0_loop].
  pose proof (Hl b (list_elem_of_here _ _)) as Hb. destruct (Z.eqb_spec b 0) as [->|]; [done|].
  rewrite Hb. cbn [negb]. apply IH. intros; apply Hl. by constructor.
Qed.

Lemma unicode_length0_encoded (s rest : list Z) (k : Z) :
  Forall jchar s -> unicode_length0_loop (convert_to_utf8 s ++ rest) k = Some (k + zlen s).
Proof.
  revert k. induction s as [|c s IH]; intros k Hs; [cbn; f_equal; lia|]. apply Forall_cons_1 in Hs as [Hc Hs].
  destruct (write_lead c Hc) as (b & l & Hw & Hb & Hl). cbn [convert_to_utf8]. rewrite <- app_assoc, Hw.
  cbn [app unicode_length0_loop].
  pose proof (write_bytes c Hc b ltac:(rewrite Hw; constructor)). destruct (Z.eqb_spec b 0); [lia|].
  rewrite Hb. cbn [negb]. rewrite unicode_length0_tail, IH by done. f_equal. cbn. lia.
Qed.

(** ** Truncated output *)

Lemma encoded_size_take (s : list Z) (c : Z) (k : nat) :
  encoded_size (take (S k) (c :: s)) = utf8_size c + encoded_size (take k s).
Proof. done. Qed.

(** The loop stops at the first character that does not leave room for the zero. *)
Lemma as_utf8_loop_spec (s : list Z) (p buflen : Z) :
  Forall jchar s -> p < buflen ->
  exists k, (k <= length s)%nat /\ as_utf8_loop s p buflen = convert_to_utf8 (take k s) /\
    p + encoded_size (take k s) + 1 <= buflen /\
    ((k < length s)%nat -> buflen < p + encoded_size (take (S k) s) + 1).
Proof.
  revert p. induction s as [|c s IH]; intros p Hs Hp; [exists 0%nat; cbn; repeat split; lia|].
  apply Forall_cons_1 in Hs as [Hc Hs]. cbn [as_utf8_loop].
  destruct (Z.leb_spec buflen (p + utf8_size c)).
  - exists 0%nat. rewrite encoded_size_take. split; [lia|]. split; [done|]. change (encoded_size (take 0 (c :: s))) with 0. change (encoded_size (take 0 s)) with 0. lia.
  - rewrite write_size by done. destruct (IH (p + utf8_size c) Hs ltac:(lia)) as (k & Hk & He & Hr & Hm).
    exists (S k). rewrite He, !encoded_size_take. cbn [length firstn convert_to_utf8]. split; [lia|]. split; [done|]. lia.
Qed.

(** The quoted form of one character, and its length. *)
Definition quote (c : Z) : list Z := if printable c then [c] else sprintf_u c.
Definition quoted_size (s : list Z) : Z := foldr (fun c n => zlen (quote c) + n) 0 s.

Lemma quoted_size_bounds (s : list Z) : zlen s <= quoted_size s <= 6 * zlen s.
Proof.
  induction s as [|c s IH]; [done|]. cbn [quoted_size foldr]. change (foldr _ 0 s) with (quoted_size s).
  unfold quote. destruct (printable c); cbn [length sprintf_u]; lia.
Qed.

Lemma quoted_size_take (s : list Z) (c : Z) (k : nat) :
  quoted_size (take (S k) (c :: s)) = zlen (quote c) + quoted_size (take k s).
Proof. done. Qed.

Lemma quoted_ascii_length_eq (s : list Z) (r : Z) :
  in_s 32 r -> quoted_ascii_length s r = s32 (r + quoted_size s).
Proof.
  revert r. induction s as [|c s IH]; intros r Hr; cbn [quoted_ascii_length quoted_size foldr].
  - rewrite Z.add_0_r. symmetry. by apply smod_id.
  - rewrite IH by (by apply smod_range). rewrite smod_add_l by lia. f_equal.
    change (foldr _ 0 s) with (quoted_size s). unfold quote. destruct (printable c); cbn [length sprintf_u]; lia.
Qed.

Lemma s8_printable (c : Z) : printable c = true -> s8 c = c.
Proof. unfold printable. intros H. apply smod_id; [lia|]. cbn. lia. Qed.

Lemma as_quoted_ascii_loop_eq (c : Z) (s : list Z) (p buflen : Z) :
  as_quoted_ascii_loop (c :: s) p buflen =
  if buflen <=? p + zlen (quote c) then [0]
  else quote c ++ as_quoted_ascii_loop s (p + zlen (quote c)) buflen.
Proof.
  cbn [as_quoted_ascii_loop]. unfold quote. destruct (printable c) eqn:Hp; [|done].
  rewrite s8_printable by done. done.
Qed.

Lemma as_quoted_ascii_loop_spec (s : list Z) (p buflen : Z) :
  p < buflen ->
  exists k, (k <= length s)%nat /\ as_quoted_ascii_loop s p buflen = mjoin (quote <$> take k s) ++ [0] /\
    p + quoted_size (take k s) + 1 <= buflen /\
    ((k < length s)%nat -> buflen < p + quoted_size (take (S k) s) + 1).
Proof.
  revert p. induction s as [|c s IH]; intros p Hp; [exists 0%nat; cbn; repeat split; lia|].
  rewrite as_quoted_ascii_loop_eq. destruct (Z.leb_spec buflen (p + zlen (quote c))).
  - exists 0%nat. rewrite quoted_size_take. split; [lia|]. split; [done|]. change (quoted_size (take 0 (c :: s))) with 0. change (quoted_size (take 0 s)) with 0. lia.
  - destruct (IH (p + zlen (quote c)) ltac:(lia)) as (k & Hk & He & Hr & Hm).
    exists (S k). rewrite He. rewrite !quoted_size_take. cbn [length firstn fmap list_fmap]. split; [lia|].
    split; [apply (app_assoc (quote c))|]. lia.
Qed.

Lemma quoted_length (s : list Z) : zlen (mjoin (quote <$> s)) = quoted_size s.
Proof.
  induction s as [|c s IH]; [done|].
  change (zlen (quote c ++ mjoin (quote <$> s)) = zlen (quote c) + quoted_size s). rewrite length_app. lia.
Qed.

(** The versions over UTF-8, which decode as they go, do the same. *)
Lemma utf8_as_quoted_loop_eq (s : list Z) (fuel : nat) (p buflen : Z) :
  Forall jchar s -> (length s < fuel)%nat ->
  utf8_as_quoted_loop fuel (convert_to_utf8 s) 1 p buflen = Some (as_quoted_ascii_loop s p buflen).
Proof.
  revert fuel p. induction s as [|c s IH]; intros [|fuel] p Hs Hf; cbn [length] in Hf; try lia; [done|].
  pose proof (encoded_length _ Hs) as Hl. apply Forall_cons_1 in Hs as [Hc Hs].
  pose proof (encoded_size_bounds (c :: s)). cbn [utf8_as_quoted_loop].
  destruct (Z.ltb_spec 1 (zlen (convert_to_utf8 (c :: s)))); [|cbn [length] in *; lia].
  cbn [convert_to_utf8]. rewrite next_write by done. cbn [mbind option_bind as_quoted_ascii_loop].
  destruct (printable c); case_match; try done; rewrite IH by (done || lia); done.
Qed.

Lemma utf8_quoted_length_loop_eq (s : list Z) (fuel : nat) (r : Z) :
  Forall jchar s -> (length s < fuel)%nat ->
  utf8_quoted_length_loop fuel (convert_to_utf8 s) 1 r = Some (quoted_ascii_length s r).
Proof.
  revert fuel r. induction s as [|c s IH]; intros [|fuel] r Hs Hf; cbn [length] in Hf; try lia; [done|].
  pose proof (encoded_length _ Hs) as Hl. apply Forall_cons_1 in Hs as [Hc Hs].
  pose proof (encoded_size_bounds (c :: s)). cbn [utf8_quoted_length_loop].
  destruct (Z.ltb_spec 1 (zlen (convert_to_utf8 (c :: s)))); [|cbn [length] in *; lia].
  cbn [convert_to_utf8]. rewrite next_write by done. cbn [mbind option_bind quoted_ascii_length].
  apply IH; [done|lia].
Qed.

(** ** Surrogate pairs *)

Definition high_surrogate (c : Z) : bool := (0xD800 <=? c) && (c <? 0xDC00).
Definition low_surrogate (c : Z) : bool := (0xDC00 <=? c) && (c <? 0xE000).

Lemma short_lead (b : Z) : 0 <= b < 0xE0 -> (Z.land b 0xFF =? 0xED) = false.
Proof.
  intros Hb. apply negb_true_iff. by apply (all_from_spec 224 0 b (fun b => negb (Z.land b 0xFF =? 0xED)) eq_refl); lia.
Qed.

Lemma mid_byte (m : Z) :
  0 <= m < 64 -> Z.land (0x80 + m) 0xF0 = 0x80 + m / 16 * 16 /\ Z.land (0x80 + m) 0x0f = m mod 16.
Proof.
  intros Hm. pose proof (all_from_spec 64 0 m (fun m => (Z.land (0x80 + m) 0xF0 =? 0x80 + m / 16 * 16) &&
    (Z.land (0x80 + m) 0x0f =? m mod 16)) eq_refl ltac:(lia)) as H.
  by rewrite andb_true_iff, !Z.eqb_eq in H.
Qed.

(** The three tests on the bytes of a surrogate, with [lo] the upper half of the
    second byte, and the rest of the tests that follow. *)
Definition surrogate_test (str : list Z) (lo : Z) (k : list Z -> option bool) : option bool :=
  b0 ← str !! 0%nat;
  if Z.land b0 0xFF =? 0xED then
    b1 ← str !! 1%nat;
    if Z.land b1 0xF0 =? lo then
      b2 ← str !! 2%nat; if Z.land b2 0xC0 =? 0x80 then k (drop 3 str) else Some false
    else Some false
  else Some false.

Lemma is_supplementary_eq (str : list Z) :
  is_supplementary_character str =
  surrogate_test str 0xA0 (fun str => surrogate_test str 0xB0 (fun _ => Some true)).
Proof.
  unfold is_supplementary_character, surrogate_test. cbn [mbind option_bind].
  destruct str as [|a [|b [|c str]]]; done.
Qed.

(** The tests recognize the encoded characters of a range of 1024. *)
Lemma surrogate_test_write (c lo : Z) (rest : list Z) (k : list Z -> option bool) :
  jchar c -> lo = 0xA0 \/ lo = 0xB0 ->
  surrogate_test (utf8_write c ++ rest) lo k =
  if (0xD000 + (lo - 0x80) * 64 <=? c) && (c <? 0xD400 + (lo - 0x80) * 64) then k rest else Some false.
Proof.
  intros Hc Hlo. unfold surrogate_test.
  destruct (utf8_write_written c Hc) as [Hr|h l He Hh Hl Hr|h m l He Hh Hm Hl Hr];
    cbn [app lookup list_lookup mbind option_bind].
  - rewrite short_lead by lia. destruct (Z.leb_spec (0xD000 + (lo - 0x80) * 64) c); [lia|done].
  - rewrite short_lead by lia. destruct (Z.leb_spec (0xD000 + (lo - 0x80) * 64) c); [lia|done].
  - destruct (lead3_byte h Hh) as (_ & _ & _ & _ & ->). destruct (cont_byte l Hl) as (_ & _ & -> & _).
    destruct (mid_byte m Hm) as [-> _]. pose proof (Z.div_mod m 16 ltac:(lia)).
    pose proof (Z.mod_pos_bound m 16 ltac:(lia)).
    destruct (Z.leb_spec (0xD000 + (lo - 0x80) * 64) c), (Z.ltb_spec c (0xD400 + (lo - 0x80) * 64));
      cbn [andb]; destruct (Z.eqb_spec (224 + h) 237); try lia; try done;
      destruct (Z.eqb_spec (128 + m / 16 * 16) lo); try lia; done.
Qed.

Lemma is_supplementary_write (c d : Z) (rest : list Z) :
  jchar c -> jchar d ->
  is_supplementary_character (utf8_write c ++ utf8_write d ++ rest)
    = Some (high_surrogate c && low_surrogate d).
Proof.
  intros Hc Hd. rewrite is_supplementary_eq, surrogate_test_write, surrogate_test_write by (done || lia).
  change (0xD000 + (0xA0 - 0x80) * 64) with 0xD800. change (0xD400 + (0xA0 - 0x80) * 64) with 0xDC00.
  change (0xD000 + (0xB0 - 0x80) * 64) with 0xDC00. change (0xD400 + (0xB0 - 0x80) * 64) with 0xE000.
  fold (high_surrogate c) (low_surrogate d). by destruct (high_surrogate c), (low_surrogate d).
Qed.

Lemma surrogate_written (c : Z) :
  jchar c -> 0xD800 <= c < 0xE000 ->
  exists m l, utf8_write c = [0xED; 0x80 + m; 0x80 + l] /\ c = 0xD000 + m * 64 + l /\ 0 <= m < 64 /\ 0 <= l < 64.
Proof.
  intros Hc Hr. destruct (utf8_write_written c Hc) as [?|h l ? ? ? ?|h m l ? ? ? ? ?]; [lia|lia|].
  exists m, l. replace h with 13 by lia. repeat split; lia.
Qed.

Lemma get_supplementary_pair (c d : Z) (rest : list Z) :
  jchar c -> jchar d -> high_surrogate c && low_surrogate d = true ->
  get_supplementary_character (utf8_write c ++ utf8_write d ++ rest)
    = Some (0x10000 + (c - 0xD800) * 1024 + (d - 0xDC00)) /\
  drop 6 (utf8_write c ++ utf8_write d ++ rest) = rest.
Proof.
  unfold high_surrogate, low_surrogate. intros Hc Hd Hs.
  destruct (surrogate_written c Hc ltac:(lia)) as (m & l & -> & He & Hm & Hl).
  destruct (surrogate_written d Hd ltac:(lia)) as (m' & l' & -> & He' & Hm' & Hl').
  unfold get_supplementary_character. cbn [app lookup list_lookup mbind option_bind]. split; [|done].
  destruct (mid_byte m Hm) as [_ ->], (mid_byte m' Hm') as [_ ->].
  destruct (cont_byte l Hl) as (_ & _ & _ & ->), (cont_byte l' Hl') as (_ & _ & _ & ->).
  rewrite !Z.shiftl_mul_pow2 by lia. f_equal.
  replace (m mod 16) with (m - 32) by (apply (Z.mod_unique_pos _ _ 2); lia).
  replace (m' mod 16) with (m' - 48) by (apply (Z.mod_unique_pos _ _ 3); lia). lia.
Qed.

(** ** Loops that do not advance *)

Lemma from_quoted_scan_stuck (fuel : nat) (b : Z) (str ptr : list Z) :
  b <> 0 -> from_quoted_scan fuel (b :: str) = Some ptr ->
  ptr = b :: str /\ (s8 b < 32 \/ 127 <= s8 b).
Proof.
  intros Hb. induction fuel as [|fuel IH]; [done|]. cbn [from_quoted_scan lookup list_lookup mbind option_bind].
  destruct (Z.eqb_spec b 0); [done|]. cbn [negb].
  destruct (Z.ltb_spec (s8 b) 32), (Z.leb_spec 127 (s8 b)); cbn [orb]; [intros [= <-]; split; lia || done..|exact IH].
Qed.

Lemma from_quoted_round_stuck (fuel : nat) (b : Z) (str : list Z) (n : Z) (buffer : option (list (Z * Z))) :
  b <> 0 -> b <> 92 -> from_quoted_round fuel (b :: str) n buffer = None.
Proof.
  intros H0 H92. revert n buffer. induction fuel as [|fuel IH]; intros n buffer; [done|].
  cbn [from_quoted_round lookup list_lookup mbind option_bind].
  destruct (Z.eqb_spec b 0); [done|]. destruct (Z.eqb_spec b 92); [done|]. apply IH.
Qed.

(** ** Comparisons *)

Lemma equal_loop_eq (n : nat) (l1 l2 : list Z) :
  (n <= length l1)%nat -> (n <= length l2)%nat ->
  equal_loop n l1 l2 = Some (bool_decide (take n l1 = take n l2)).
Proof.
  revert l1 l2. induction n as [|n IH]; intros [|a l1] [|b l2] H1 H2; cbn [length] in *; try lia; try done.
  cbn [equal_loop lookup list_lookup mbind option_bind firstn]. change (drop 1 (a :: l1)) with l1. change (drop 1 (b :: l2)) with l2.
  destruct (Z.eqb_spec a b) as [->|Hne]; cbn [negb].
  - rewrite IH by lia. f_equal. apply bool_decide_ext. split; [by intros ->|by intros [= ->]].
  - rewrite bool_decide_false; [done|]. congruence.
Qed.

Lemma strrchr_eq (base : list Z) (n : nat) (c : Z) :
  (n <= length base)%nat ->
  exists r, strrchr base n c = Some r /\
    match r with
    | Some i => (i < n)%nat /\ base !! i = Some c /\ (forall j, (i < j < n)%nat -> base !! j <> Some c)
    | None => forall j, (j < n)%nat -> base !! j <> Some c
    end.
Proof.
  induction n as [|n IH]; intros Hn; [exists None; split; [done|lia]|]. cbn [strrchr].
  destruct (lookup_lt_is_Some_2 base n Hn) as [b Hb]. rewrite Hb. cbn [mbind option_bind].
  destruct (Z.eqb_spec b c) as [->|Hne].
  - exists (Some n). split; [done|]. split; [lia|]. split; [done|lia].
  - destruct (IH ltac:(lia)) as (r & Hr & Hs). exists r. split; [done|].
    destruct r as [i|].
    + destruct Hs as (Hi & Hc & Hj). split; [lia|]. split; [done|]. intros j Hlt.
      destruct (decide (j = n)) as [->|]; [congruence|]. apply Hj. lia.
    + intros j Hlt. destruct (decide (j = n)) as [->|]; [congruence|]. apply Hs. lia.
Qed.

(** ** Properties *)

(** C24: The modified UTF-8 encoding round-trips.  For a string of 16-bit characters
    whose encoding fits an [int], [as_utf8] fills exactly the array it allocates;
    the bytes before the terminating zero are not zero, even for the character 0;
    decoding with [convert_to_unicode] (the ASCII loop included) gives the string
    back; and both versions of [unicode_length] count its characters. *)
Theorem utf8_roundtrip (s : list Z) :
  Forall jchar s -> 3 * zlen s < 2 ^ 31 ->
  exists bytes, as_utf8 s = Some (bytes ++ [0]) /\ convert_to_utf8 s = bytes ++ [0] /\
    zlen bytes = utf8_length s /\ Forall (fun b => 0 < b < 256) bytes /\
    convert_to_unicode (bytes ++ [0]) (length s) = Some s /\
    unicode_length (bytes ++ [0]) (length bytes) = Some (zlen s) /\
    unicode_length0 (bytes ++ [0]) = Some (zlen s).
Proof.
  intros Hs Hb. pose proof (utf8_length_exact s Hb) as Hl. pose proof (encoded_length s Hs) as He.
  assert (Hx : exists bytes, convert_to_utf8 s = bytes ++ [0] /\ Forall (fun b => 0 < b < 256) bytes).
  { clear -Hs. induction s as [|c s IH]; [by exists []|]. apply Forall_cons_1 in Hs as [Hc Hs].
    destruct (IH Hs) as (bytes & Hw & Hf). exists (utf8_write c ++ bytes). cbn [convert_to_utf8]. rewrite Hw.
    split; [apply app_assoc|]. apply Forall_app. split; [|done].
    apply List.Forall_forall. intros b Hin%list_elem_of_In. by apply (write_bytes c Hc). }
  destruct Hx as (bytes & Hw & Hf). exists bytes. rewrite <- Hw.
  assert (Hn : zlen bytes = encoded_size s) by (rewrite Hw, length_app in He; cbn in He; lia).
  split; [unfold as_utf8; by rewrite bool_decide_true by lia|]. split; [done|]. split; [lia|]. split; [done|].
  split; [|split].
  - rewrite convert_to_unicode_eq by (by apply encoded_nonneg).
    rewrite <- (app_nil_r (convert_to_utf8 s)). by apply convert_loop_encoded.
  - unfold unicode_length. replace (length bytes) with (Z.to_nat (encoded_size s)) by lia.
    rewrite unicode_length_encoded by done. f_equal. lia.
  - unfold unicode_length0. rewrite <- (app_nil_r (convert_to_utf8 s)).
    by rewrite unicode_length0_encoded.
Qed.

Lemma utf8_roundtrip_witness :
  exists bytes, as_utf8 [72; 0; 0xE9; 0x20AC; 0xD83D; 0xDE00] = Some (bytes ++ [0]) /\ zlen bytes = 14.
Proof.
  destruct (utf8_roundtrip [72; 0; 0xE9; 0x20AC; 0xD83D; 0xDE00]) as (bytes & H1 & _ & H2 & _);
    [by repeat constructor|done|]. exists bytes. split; [exact H1|exact H2].
Defined.

(** C36: Output into a buffer of [buflen] bytes is the longest prefix of the string
    that fits together with its terminating zero.  This holds for [as_utf8], for
    [UNICODE::as_quoted_ascii] and for [UTF8::as_quoted_ascii], which decodes the
    encoded string and writes the same bytes; [quoted_ascii_length] of both classes
    is the length of the untruncated output. *)
Theorem truncated_output_correct (s : list Z) (buflen : Z) :
  Forall jchar s -> 6 * zlen s < 2 ^ 31 -> 0 < buflen ->
  (exists k, (k <= length s)%nat /\ as_utf8_buf s buflen = convert_to_utf8 (take k s) /\
     zlen (as_utf8_buf s buflen) <= buflen /\
     ((k < length s)%nat -> buflen < zlen (convert_to_utf8 (take (S k) s)))) /\
  (exists k, (k <= length s)%nat /\ as_quoted_ascii s buflen = mjoin (quote <$> take k s) ++ [0] /\
     zlen (as_quoted_ascii s buflen) <= buflen /\
     ((k < length s)%nat -> buflen < zlen (mjoin (quote <$> take (S k) s) ++ [0]))) /\
  utf8_as_quoted_ascii (convert_to_utf8 s) (utf8_length s) buflen = Some (as_quoted_ascii s buflen) /\
  quoted_ascii_length s 0 = zlen (mjoin (quote <$> s)) /\
  utf8_quoted_ascii_length (convert_to_utf8 s) (utf8_length s) = Some (quoted_ascii_length s 0).
Proof.
  intros Hs Hb Hp. assert (Htake : forall k, Forall jchar (take k s)) by (intros; by apply Forall_take).
  pose proof (encoded_length s Hs) as He. pose proof (encoded_size_bounds s).
  rewrite utf8_length_exact by lia. split; [|split; [|split; [|split]]].
  - destruct (as_utf8_loop_spec s 0 buflen Hs Hp) as (k & Hk & Hw & Hl & Hm). exists k.
    unfold as_utf8_buf. rewrite Hw, !encoded_length by done. split; [done|]. split; [done|]. lia.
  - destruct (as_quoted_ascii_loop_spec s 0 buflen Hp) as (k & Hk & Hw & Hl & Hm). exists k.
    unfold as_quoted_ascii. rewrite Hw, !length_app, !Nat2Z.inj_add, !quoted_length.
    split; [done|]. split; [done|]. cbn [length]. lia.
  - unfold utf8_as_quoted_ascii. replace (zlen (convert_to_utf8 s) - encoded_size s) with 1 by lia.
    apply utf8_as_quoted_loop_eq; [done|lia].
  - rewrite quoted_length, quoted_ascii_length_eq by (cbn; lia). apply smod_id; [lia|].
    pose proof (quoted_size_bounds s). change (2 ^ (32 - 1)) with (2 ^ 31). lia.
  - unfold utf8_quoted_ascii_length. replace (zlen (convert_to_utf8 s) - encoded_size s) with 1 by lia.
    apply utf8_quoted_length_loop_eq; [done|lia].
Qed.

Lemma truncated_output_correct_witness :
  utf8_as_quoted_ascii (convert_to_utf8 [65; 0xE9; 66]) (utf8_length [65; 0xE9; 66]) 8
    = Some [65; 92; 117; 48; 48; 101; 57; 0].
Proof.
  destruct (truncated_output_correct [65; 0xE9; 66] 8) as (_ & _ & H & _); [by repeat constructor|done|done|].
  rewrite H. reflexivity.
Defined.

(** [next_character] on an encoded string decodes a surrogate pair as the one
    supplementary character it stands for, behind its six bytes; any other
    character, an unpaired surrogate included, is decoded alone. *)
Lemma next_character_correct (c d : Z) (rest : list Z) :
  jchar c -> jchar d ->
  next_character (utf8_write c ++ utf8_write d ++ rest) =
  if high_surrogate c && low_surrogate d
  then Some (0x10000 + (c - 0xD800) * 1024 + (d - 0xDC00), rest)
  else Some (c, utf8_write d ++ rest).
Proof.
  intros Hc Hd. unfold next_character. rewrite is_supplementary_write by done. cbn [mbind option_bind].
  destruct (high_surrogate c && low_surrogate d) eqn:Hs; [|by apply next_write].
  destruct (get_supplementary_pair c d rest Hc Hd Hs) as [-> Hr]. cbn [mbind option_bind]. by rewrite Hr.
Qed.

Lemma next_character_correct_witness :
  next_character (utf8_write 0xD83D ++ utf8_write 0xDE00 ++ [0]) = Some (0x1F600, [0]).
Proof. rewrite next_character_correct by done. reflexivity. Defined.

(** C38: [UTF8::from_quoted_ascii] returns only for the empty string.  Neither the
    scan for a character to convert nor the conversion of a plain character moves
    the pointer, so on every other string one of the two loops never ends: no
    number of iterations gives a result. *)
Theorem from_quoted_ascii_diverges (str : list Z) (b : Z) :
  b <> 0 ->
  (forall fuel, from_quoted_ascii fuel (b :: str) = None) /\
  from_quoted_ascii 1 (0 :: str) = Some (inl (0 :: str)).
Proof.
  intros Hb. split; [|done]. intros fuel. unfold from_quoted_ascii.
  destruct (from_quoted_scan fuel (b :: str)) as [ptr|] eqn:Hs; [|done].
  apply from_quoted_scan_stuck in Hs as [-> Hr]; [|done].
  cbn [lookup list_lookup mbind option_bind]. destruct (Z.eqb_spec b 0); [done|].
  rewrite from_quoted_round_stuck; [done|done|]. intros ->. change (s8 92) with 92 in Hr. lia.
Qed.

Lemma from_quoted_ascii_diverges_witness : 65 <> 0 /\ from_quoted_ascii 1000 [65; 92; 110; 0] = None.
Proof. split; [done|]. apply (proj1 (from_quoted_ascii_diverges [92; 110; 0] 65 ltac:(done))). Defined.

(** [UNICODE::utf8_length] is the number of bytes of the encoding modulo 2^32,
    as an [int]: exact while three bytes per character fit, and negative for the
    [jchar] 0x800 repeated 715827883 times, for which [as_utf8] asks for an array
    of negative size. *)
Lemma utf8_length_wraps (s : list Z) :
  Forall jchar s ->
  utf8_length s = s32 (zlen (convert_to_utf8 s) - 1) /\
  (3 * zlen s < 2 ^ 31 -> utf8_length s = zlen (convert_to_utf8 s) - 1) /\
  forall n : nat, Z.of_nat n = 715827883 ->
    utf8_length (replicate n 0x800) = - 2147483647 /\ as_utf8 (replicate n 0x800) = None.
Proof.
  intros Hs. rewrite encoded_length by done. replace (encoded_size s + 1 - 1) with (encoded_size s) by lia.
  split; [apply utf8_length_eq|]. split; [apply utf8_length_exact|]. intros n Hn.
  assert (He : encoded_size (replicate n 0x800) = 3 * Z.of_nat n).
  { clear. induction n as [|n IH]; [done|]. cbn [replicate encoded_size foldr].
    change (foldr _ 0 (replicate n 2048)) with (encoded_size (replicate n 2048)). rewrite IH.
    change (utf8_size 2048) with 3. lia. }
  assert (Hl : utf8_length (replicate n 0x800) = - 2147483647) by (rewrite utf8_length_eq, He, Hn; reflexivity).
  split; [done|]. unfold as_utf8. rewrite Hl. rewrite bool_decide_false; [done|]. lia.
Qed.

Lemma utf8_length_wraps_witness : utf8_length [65; 0x20AC] = 4.
Proof. apply (proj1 (utf8_length_wraps [65; 0x20AC] ltac:(by repeat constructor))). Defined.
