(* ===== verification/TaskQueue.v ===== *)
(** The work-stealing queues of utilities/taskqueue.hpp.

    One owner thread pushes and pops at the bottom of a queue while any number of
    other threads steal from its top.  Every access of the code to a shared field
    is one step, so the threads interleave between any two accesses; the fences of
    the code order its accesses, and a step sees all earlier ones.  [N] is the
    template parameter, the number of slots of the array. *)

From S2P Require Import Prelude.

(** ** Definitions *)

Section Definitions.
Context (N : Z) {E : Type}.

(** *** Index arithmetic of TaskQueueSuper *)

Definition MOD_N_MASK : Z := N - 1.
Definition increment_index (ind : Z) : Z := Z.land (u32 (ind + 1)) MOD_N_MASK.
Definition decrement_index (ind : Z) : Z := Z.land (u32 (ind - 1)) MOD_N_MASK.
Definition dirty_size (bot top : Z) : Z := Z.land (u32 (bot - top)) MOD_N_MASK.
Definition size (bot top : Z) : Z :=
  let sz := dirty_size bot top in
  if sz =? N - 1 then 0 else sz.
Definition max_elems : Z := N - 2.

(** *** Age

    [epoch] is not in the code and no condition reads it: it counts the
    increments of the tag without a bound, the tag being its low 32 bits. *)
Record Age := mkAge { _top : Z; _tag : Z; epoch : Z }.

Definition increment (a : Age) : Age :=
  let top := increment_index (_top a) in
  if top =? 0 then mkAge top (u32 (_tag a + 1)) (epoch a + 1) else mkAge top (_tag a) (epoch a).

(** [Age(localBot, oldAge.tag() + 1)] *)
Definition next_tag (localBot : Z) (oldAge : Age) : Age :=
  mkAge localBot (u32 (_tag oldAge + 1)) (epoch oldAge + 1).

(** [operator ==] compares [_data], the two fields as one word. *)
Definition age_eq (a b : Age) : bool := (_top a =? _top b) && (_tag a =? _tag b).

Record TaskQueue := mkQueue { _bottom : Z; _age : Age; _elems : list E }.

Definition initialize (garbage : list E) : TaskQueue := mkQueue 0 (mkAge 0 0 0) garbage.

Definition set_bottom (q : TaskQueue) (b : Z) : TaskQueue := mkQueue b (_age q) (_elems q).
Definition set_age (q : TaskQueue) (a : Age) : TaskQueue := mkQueue (_bottom q) a (_elems q).

(** [Age::cmpxchg]: the value read, and the queue after the operation. *)
Definition cmpxchg (q : TaskQueue) (new_age old_age : Age) : Age * TaskQueue :=
  (_age q, if age_eq (_age q) old_age then set_age q new_age else q).

Definition queue_size (q : TaskQueue) : Z := size (_bottom q) (_top (_age q)).
Definition queue_dirty_size (q : TaskQueue) : Z := dirty_size (_bottom q) (_top (_age q)).
Definition peek (q : TaskQueue) : bool := negb (_bottom q =? _top (_age q)).
Definition is_empty (q : TaskQueue) : bool := queue_size q =? 0.
Definition set_empty (q : TaskQueue) : TaskQueue := mkQueue 0 (mkAge 0 0 0) (_elems q).

(** *** The owner *)

(** Where the owner is in [push], [pop_local] or [pop_local_slow]: before the
    access named on the right. *)
Inductive owner :=
| OIdle
| OPush (t : E) (localBot : Z)                 (* _elems[localBot] = t *)
| OPushStore (t : E) (localBot : Z)            (* release_store(&_bottom, ...) *)
| OPop (localBot : Z)                          (* _bottom = localBot *)
| OPopRead (localBot : Z)                      (* t = _elems[localBot] *)
| OPopTop (t : E) (localBot : Z)               (* tp = _age.top() *)
| OPopAge (t : E) (localBot : Z)               (* _age.get() *)
| OPopSlow (t : E) (localBot : Z) (oldAge : Age) (* _age.cmpxchg(newAge, oldAge) *)
| OPopLose (newAge : Age).                     (* _age.set(newAge) *)

(** What an operation that returns reports. *)
Inductive event :=
| Push (t : E)        (* push returns true *)
| PushFull (t : E)    (* push returns false *)
| PopLocal (t : E)    (* pop_local returns true *)
| PopEmpty            (* pop_local returns false *)
| Steal (t : E)       (* pop_global returns true *)
| StealFail.          (* pop_global returns false *)

(** The reads at the start of [push]; only the owner writes [_bottom]. *)
Definition push_slow (q : TaskQueue) (t : E) (dirty_n_elems : Z) : owner * option event :=
  if dirty_n_elems =? N - 1 then (OPush t (_bottom q), None) else (OIdle, Some (PushFull t)).

Definition push_begin (q : TaskQueue) (t : E) : owner * option event :=
  let localBot := _bottom q in
  let top := _top (_age q) in
  let dirty_n_elems := dirty_size localBot top in
  if dirty_n_elems <? max_elems then (OPush t localBot, None) else push_slow q t dirty_n_elems.

Definition pop_local_begin (q : TaskQueue) : owner * option event :=
  let localBot := _bottom q in
  let dirty_n_elems := dirty_size localBot (_top (_age q)) in
  if dirty_n_elems =? 0 then (OIdle, Some PopEmpty) else (OPop (decrement_index localBot), None).

Definition pop_local_slow_begin (t : E) (localBot : Z) (oldAge : Age) : owner :=
  let newAge := next_tag localBot oldAge in
  if localBot =? _top oldAge then OPopSlow t localBot oldAge else OPopLose newAge.

(** One access of the owner; none outside of the array. *)
Definition owner_next (q : TaskQueue) (o : owner) : option (TaskQueue * owner * option event) :=
  match o with
  | OIdle => None
  | OPush t localBot =>
      elems ← zset (_elems q) localBot t;
      Some (mkQueue (_bottom q) (_age q) elems, OPushStore t localBot, None)
  | OPushStore t localBot => Some (set_bottom q (increment_index localBot), OIdle, Some (Push t))
  | OPop localBot => Some (set_bottom q localBot, OPopRead localBot, None)
  | OPopRead localBot => t ← zget (_elems q) localBot; Some (q, OPopTop t localBot, None)
  | OPopTop t localBot =>
      let tp := _top (_age q) in
      if 0 <? size localBot tp then Some (q, OIdle, Some (PopLocal t)) else Some (q, OPopAge t localBot, None)
  | OPopAge t localBot => Some (q, pop_local_slow_begin t localBot (_age q), None)
  | OPopSlow t localBot oldAge =>
      let newAge := next_tag localBot oldAge in
      let '(tempAge, q') := cmpxchg q newAge oldAge in
      if age_eq tempAge oldAge then Some (q', OIdle, Some (PopLocal t)) else Some (q', OPopLose newAge, None)
  | OPopLose newAge => Some (set_age q newAge, OIdle, Some PopEmpty)
  end.

(** *** The thieves *)

(** Where a thread is in [pop_global]. *)
Inductive thief :=
| TIdle                           (* _age.get() *)
| TBottom (oldAge : Age)          (* load_acquire(&_bottom) *)
| TRead (oldAge : Age)            (* t = _elems[oldAge.top()] *)
| TCas (t : E) (oldAge : Age).    (* _age.cmpxchg(newAge, oldAge) *)

Definition pop_global_begin (q : TaskQueue) : thief := TBottom (_age q).

Definition thief_next (q : TaskQueue) (th : thief) : option (TaskQueue * thief * option event) :=
  match th with
  | TIdle => None
  | TBottom oldAge =>
      let localBot := _bottom q in
      let n_elems := size localBot (_top oldAge) in
      if n_elems =? 0 then Some (q, TIdle, Some StealFail) else Some (q, TRead oldAge, None)
  | TRead oldAge => t ← zget (_elems q) (_top oldAge); Some (q, TCas t oldAge, None)
  | TCas t oldAge =>
      let newAge := increment oldAge in
      let '(resAge, q') := cmpxchg q newAge oldAge in
      Some (q', TIdle, Some (if age_eq resAge oldAge then Steal t else StealFail))
  end.

(** *** Whole operations, of a thread that is not interrupted *)

Fixpoint owner_run (fuel : nat) (q : TaskQueue) (o : owner) (ev : option event) : option (TaskQueue * event) :=
  match ev with
  | Some ev => Some (q, ev)
  | None =>
      match fuel with
      | O => None
      | S fuel' => '(q, o, ev) ← owner_next q o; owner_run fuel' q o ev
      end
  end.

Fixpoint thief_run (fuel : nat) (q : TaskQueue) (th : thief) (ev : option event) : option (TaskQueue * event) :=
  match ev with
  | Some ev => Some (q, ev)
  | None =>
      match fuel with
      | O => None
      | S fuel' => '(q, th, ev) ← thief_next q th; thief_run fuel' q th ev
      end
  end.

Definition push (q : TaskQueue) (t : E) : option (TaskQueue * event) :=
  let '(o, ev) := push_begin q t in owner_run 2 q o ev.
Definition pop_local (q : TaskQueue) : option (TaskQueue * event) :=
  let '(o, ev) := pop_local_begin q in owner_run 6 q o ev.
Definition pop_global (q : TaskQueue) : option (TaskQueue * event) :=
  thief_run 3 q (pop_global_begin q) None.

(** [oops_do]: the entries the closure is applied to, in order. *)
Fixpoint oops_do_loop (iters : nat) (q : TaskQueue) (index : Z) : option (list E) :=
  match iters with
  | O => Some []
  | S iters' =>
      let index := decrement_index index in
      t ← zget (_elems q) index; ts ← oops_do_loop iters' q index; Some (t :: ts)
  end.
Definition oops_do (q : TaskQueue) : option (list E) := oops_do_loop (Z.to_nat (queue_size q)) q (_bottom q).

(** *** Interleavings *)

Record config := mkConfig { queue : TaskQueue; own : owner; thieves : gmap nat thief }.

(** Who takes a step: the owner, or a thief with its number. *)
Inductive actor := Owner | Thief (i : nat).

Inductive step : config -> actor -> option event -> config -> Prop :=
| step_push q t o ev ths :
    push_begin q t = (o, ev) -> step (mkConfig q OIdle ths) Owner ev (mkConfig q o ths)
| step_pop_local q o ev ths :
    pop_local_begin q = (o, ev) -> step (mkConfig q OIdle ths) Owner ev (mkConfig q o ths)
| step_owner q o q' o' ev ths :
    owner_next q o = Some (q', o', ev) -> step (mkConfig q o ths) Owner ev (mkConfig q' o' ths)
| step_pop_global q o ths i :
    default TIdle (ths !! i) = TIdle ->
    step (mkConfig q o ths) (Thief i) None (mkConfig q o (<[i := pop_global_begin q]> ths))
| step_thief q o ths i th q' th' ev :
    ths !! i = Some th -> thief_next q th = Some (q', th', ev) ->
    step (mkConfig q o ths) (Thief i) ev (mkConfig q' o (<[i := th']> ths)).

(** The age a thief has read. *)
Definition snapshot (th : thief) : option Age :=
  match th with TIdle => None | TBottom a | TRead a | TCas _ a => Some a end.

(** No thief holds an age that is 2^32 tags old: the comparison of ages cannot
    take it for the present one. *)
Definition fresh (c : config) : Prop :=
  forall i th a, thieves c !! i = Some th -> snapshot th = Some a -> epoch (_age (queue c)) - epoch a < 2 ^ 32.

(** The states that a queue reaches, with the actors and what they reported. *)
Inductive reachable (garbage : list E) : list (actor * option event) -> config -> Prop :=
| reachable_init : reachable garbage [] (mkConfig (initialize garbage) OIdle ∅)
| reachable_step tr c a ev c' :
    reachable garbage tr c -> fresh c -> step c a ev c' -> reachable garbage (tr ++ [(a, ev)]) c'.
End Definitions.

Arguments OIdle {E}.
Arguments OPush {E} _ _.
Arguments OPushStore {E} _ _.
Arguments OPop {E} _.
Arguments OPopRead {E} _.
Arguments OPopTop {E} _ _.
Arguments OPopAge {E} _ _.
Arguments OPopSlow {E} _ _ _.
Arguments OPopLose {E} _.
Arguments TIdle {E}.
Arguments TBottom {E} _.
Arguments TRead {E} _.
Arguments TCas {E} _ _.
Arguments Push {E} _.
Arguments PushFull {E} _.
Arguments PopLocal {E} _.
Arguments PopEmpty {E}.
Arguments Steal {E} _.
Arguments StealFail {E}.

(** ** Invariant *)

Section Invariant.
Context (N k : Z) (HN : N = 2 ^ k) (Hk : 2 <= k <= 31) {E : Type}.
Implicit Types (q : @TaskQueue E) (l : list E) (o : @owner E) (th : @thief E).

Lemma N_bounds : 4 <= N <= 2 ^ 31.
Proof.
  subst N. split; [change 4 with (2 ^ 2)|]; apply Z.pow_le_mono_r; lia.
Qed.

Lemma mask_mod (x : Z) : Z.land (u32 x) (MOD_N_MASK N) = x mod N.
Proof.
  unfold MOD_N_MASK, umod. subst N. replace (2 ^ k - 1) with (Z.ones k) by (rewrite Z.ones_equiv; lia).
  rewrite Z.land_ones by lia. symmetry. apply Znumtheory.Zmod_div_mod; [lia|lia|].
  exists (2 ^ (32 - k)). rewrite <- Z.pow_add_r by lia. f_equal. lia.
Qed.

Lemma increment_index_eq (i : Z) : increment_index N i = (i + 1) mod N.
Proof. apply mask_mod. Qed.
Lemma decrement_index_eq (i : Z) : decrement_index N i = (i - 1) mod N.
Proof. apply mask_mod. Qed.

(** The distance of two indices, seen from the upper one. *)
Lemma dirty_size_add (top n : Z) : dirty_size N ((top + n) mod N) top = n mod N.
Proof. unfold dirty_size. rewrite mask_mod, Zminus_mod_idemp_l. f_equal. lia. Qed.

Lemma mod_range (x : Z) : 0 <= x mod N < N.
Proof. pose proof N_bounds. apply Z.mod_pos_bound. lia. Qed.

Lemma mod_minus_one : (-1) mod N = N - 1.
Proof. pose proof N_bounds. symmetry. apply (Z.mod_unique_pos _ _ (-1)); lia. Qed.

(** Nearby indices are different. *)
Lemma mod_neq (x i j : Z) : i < j < i + N -> (x + i) mod N <> (x + j) mod N.
Proof.
  intros Hij He. pose proof N_bounds.
  assert (Hd : (j - i) mod N = 0).
  { replace (j - i) with ((x + j) - (x + i)) by lia. rewrite Zminus_mod, He, Z.sub_diag. done. }
  rewrite Z.mod_small in Hd by lia. lia.
Qed.

(** Ages grow in lexicographic order. *)
Definition age_wf (a : Age) : Prop := 0 <= _top a < N /\ _tag a = u32 (epoch a).
Definition age_lt (a b : Age) : Prop := epoch a < epoch b \/ (epoch a = epoch b /\ _top a < _top b).

Lemma age_lt_irrefl (a b : Age) : age_lt a b -> a <> b.
Proof. intros H ->. unfold age_lt in H. lia. Qed.

Lemma age_lt_trans (a b c : Age) : age_lt a b -> age_lt b c -> age_lt a c.
Proof. unfold age_lt. lia. Qed.

Lemma age_ext (a b : Age) : age_wf a -> age_wf b -> epoch a = epoch b -> _top a = _top b -> a = b.
Proof. intros [_ Ha] [_ Hb] He Ht. destruct a, b. cbn in *. congruence. Qed.

Lemma age_eq_spec (a b : Age) :
  age_wf a -> age_wf b -> (a = b \/ age_lt a b) -> epoch b - epoch a < 2 ^ 32 ->
  age_eq b a = true -> a = b.
Proof.
  intros Ha Hb Hle Hf [Ht%Z.eqb_eq Hg%Z.eqb_eq]%andb_true_iff. apply age_ext; [done|done| |done].
  destruct Ha as [_ Ha], Hb as [_ Hb]. rewrite Ha, Hb in Hg. unfold umod in Hg.
  assert (Hd : (epoch b - epoch a) mod 2 ^ 32 = 0) by (rewrite Zminus_mod, Hg, Z.sub_diag; done).
  assert (epoch a <= epoch b) by (destruct Hle as [->|Hle]; unfold age_lt in *; lia).
  rewrite Z.mod_small in Hd by lia. lia.
Qed.

Lemma age_eq_refl (a : Age) : age_eq a a = true.
Proof. unfold age_eq. by rewrite !Z.eqb_refl. Qed.

Lemma increment_top (a : Age) : _top (increment N a) = (_top a + 1) mod N.
Proof. unfold increment. rewrite increment_index_eq. by case_match. Qed.

Lemma increment_wf (a : Age) : age_wf a -> age_wf (increment N a).
Proof.
  intros [Ht Hg]. split; [rewrite increment_top; apply mod_range|].
  unfold increment. case_match; cbn; [|done]. rewrite Hg. unfold umod. by rewrite Zplus_mod_idemp_l.
Qed.

Lemma increment_lt (a : Age) : age_wf a -> age_lt a (increment N a).
Proof.
  intros [Ht _]. unfold increment. rewrite increment_index_eq. pose proof N_bounds.
  destruct (Z.eqb_spec ((_top a + 1) mod N) 0) as [|Hne]; unfold age_lt; cbn; [lia|].
  destruct (Z.eq_dec (_top a + 1) N) as [He|]; [by rewrite He, Z_mod_same_full in Hne|].
  rewrite Z.mod_small by lia. lia.
Qed.

Lemma next_tag_wf (lb : Z) (a : Age) : 0 <= lb < N -> age_wf a -> age_wf (next_tag lb a).
Proof.
  intros Hl [_ Ha]. split; [done|]. cbn. rewrite Ha. unfold umod. by rewrite Zplus_mod_idemp_l.
Qed.

(** The list [l] of the tasks in the queue, oldest first, in the slots from the
    top on. *)
Definition slots q l : Prop :=
  forall i x, l !! i = Some x -> zget (_elems q) ((_top (_age q) + Z.of_nat i) mod N) = Some x.

(** The bottom lies [n] slots behind the top. *)
Definition bottom_at q (n : Z) : Prop := _bottom q = (_top (_age q) + n) mod N.

(** What holds where the owner is; while it pops, [_bottom] excludes the last
    task, which a thief can still take if it is the only one. *)
Definition owner_ok q l o : Prop :=
  match o with
  | OIdle => bottom_at q (zlen l)
  | OPush t lb => bottom_at q (zlen l) /\ lb = _bottom q /\ zlen l < N - 2
  | OPushStore t lb =>
      bottom_at q (zlen l) /\ lb = _bottom q /\ zlen l < N - 2 /\ zget (_elems q) lb = Some t
  | OPop lb => bottom_at q (zlen l) /\ lb = (_bottom q - 1) mod N
  | OPopRead lb => bottom_at q (zlen l - 1) /\ lb = _bottom q
  | OPopTop t lb => bottom_at q (zlen l - 1) /\ lb = _bottom q /\ (l <> [] -> exists l', l = l' ++ [t])
  | OPopAge t lb =>
      bottom_at q (zlen l - 1) /\ lb = _bottom q /\ (l <> [] -> exists l', l = l' ++ [t]) /\ zlen l <= 1
  | OPopSlow t lb a =>
      bottom_at q (zlen l - 1) /\ lb = _bottom q /\ lb = _top a /\ age_wf a /\
      ((l = [t] /\ _age q = a) \/ (l = [] /\ _age q = increment N a))
  | OPopLose a => bottom_at q (-1) /\ l = [] /\ _top a = _bottom q /\ age_wf a /\ age_lt (_age q) a
  end.

(** A thief whose age is not the present one cannot succeed any more. *)
Definition thief_ok q l th : Prop :=
  forall a, snapshot th = Some a ->
    age_wf a /\ (a = _age q \/ age_lt a (_age q)) /\
    (a = _age q -> match th with TRead _ => l <> [] | TCas t _ => exists l', l = t :: l' | _ => True end).

Record inv (c : config) (l : list E) : Prop := {
  inv_age : age_wf (_age (queue c));
  inv_bottom : 0 <= _bottom (queue c) < N;
  inv_elems : zlen (_elems (queue c)) = N;
  inv_length : zlen l <= N - 2;
  inv_slots : slots (queue c) l;
  inv_owner : owner_ok (queue c) l (own c);
  inv_thieves : forall i th, thieves c !! i = Some th -> thief_ok (queue c) l th;
}.

(** *** The abstract queue: what each reported event does to the list of tasks *)
Inductive deque : list E -> event -> list E -> Prop :=
| deque_push l t : zlen l < max_elems N -> deque l (Push t) (l ++ [t])
| deque_full l t : zlen l = max_elems N -> deque l (PushFull t) l
| deque_pop l t : deque (l ++ [t]) (PopLocal t) l
| deque_empty : deque [] PopEmpty []
| deque_steal t l : deque (t :: l) (Steal t) l
| deque_steal_fail l : deque l StealFail l.

Definition deque_opt (l : list E) (ev : option event) (l' : list E) : Prop :=
  match ev with Some ev => deque l ev l' | None => l' = l end.

(** *** Steps of the thieves *)

Lemma bottom_dirty q (n : Z) : bottom_at q n -> dirty_size N (_bottom q) (_top (_age q)) = n mod N.
Proof. intros ->. apply dirty_size_add. Qed.

Lemma bottom_size q (n : Z) : 0 <= n <= N - 2 -> bottom_at q n -> size N (_bottom q) (_top (_age q)) = n.
Proof.
  intros Hn Hb. pose proof N_bounds. unfold size. rewrite (bottom_dirty q n Hb), (Z.mod_small n) by lia.
  cbn zeta. destruct (Z.eqb_spec n (N - 1)); lia.
Qed.

Lemma bottom_size_empty q : bottom_at q (-1) -> size N (_bottom q) (_top (_age q)) = 0.
Proof.
  intros Hb. unfold size. by rewrite (bottom_dirty q _ Hb), mod_minus_one, Z.eqb_refl.
Qed.

(** The bottom is behind the last task, or on it while the owner pops. *)
Lemma owner_bottom q l o : owner_ok q l o -> bottom_at q (zlen l) \/ bottom_at q (zlen l - 1).
Proof. destruct o; cbn; intuition (subst; cbn; auto). Qed.

Lemma size_nonempty q l o :
  owner_ok q l o -> zlen l <= N - 2 -> size N (_bottom q) (_top (_age q)) <> 0 -> l <> [].
Proof.
  intros Ho Hl Hs ->. apply Hs. cbn in Hl. pose proof N_bounds.
  destruct (owner_bottom _ _ _ Ho); [apply bottom_size; [cbn; lia|done]|by apply bottom_size_empty].
Qed.

Lemma steal_bottom q t l (n : Z) :
  bottom_at q (zlen (t :: l) + n) -> bottom_at (set_age q (increment N (_age q))) (zlen l + n).
Proof.
  unfold bottom_at. cbn [set_age _bottom _age]. intros ->. rewrite increment_top, Zplus_mod_idemp_l.
  f_equal. cbn [length]. lia.
Qed.

(** A successful steal takes the first task, wherever the owner is. *)
Lemma steal_owner_ok q t l o :
  age_wf (_age q) -> owner_ok q (t :: l) o -> owner_ok (set_age q (increment N (_age q))) l o.
Proof.
  intros Ha. pose proof (steal_bottom q t l 0) as H0. pose proof (steal_bottom q t l (-1)) as H1.
  rewrite !Z.add_0_r in H0.
  destruct o as [|u lb|u lb|lb|lb|u lb|u lb|u lb a|a]; cbn [owner_ok set_age _bottom _age _elems length] in *.
  - done.
  - intros (Hb & He & Hl). split; [by apply H0|]. split; [done|lia].
  - intros (Hb & He & Hl & Hg). split; [by apply H0|]. split; [done|]. split; [lia|done].
  - intros (Hb & He). split; [by apply H0|done].
  - intros (Hb & He). split; [by apply H1|done].
  - intros (Hb & He & Hx). split; [by apply H1|]. split; [done|]. intros Hl.
    destruct (Hx ltac:(done)) as ([|y l'] & Hy); [by injection Hy as -> ->|]. injection Hy as -> ->. by exists l'.
  - intros (Hb & He & Hx & Hn). split; [by apply H1|]. split; [done|]. destruct l; [|cbn in Hn; lia]. done.
  - intros (Hb & He & Ht & Hw & [[Hx Hy]|[Hx Hy]]); [|done]. injection Hx as -> ->. split; [by apply H1|].
    split; [done|]. split; [done|]. split; [done|]. right. by rewrite Hy.
  - intros (_ & Hx & _). done.
Qed.

Lemma steal_slots q t l : slots q (t :: l) -> slots (set_age q (increment N (_age q))) l.
Proof.
  intros Hs i x Hi. cbn [set_age _age _elems]. rewrite increment_top, Zplus_mod_idemp_l.
  specialize (Hs (S i) x Hi). rewrite <- Hs. do 2 f_equal. lia.
Qed.

(** Every age read so far is older than one that is installed. *)
Lemma thief_ok_newer q l th b l' :
  age_lt (_age q) b -> thief_ok q l th -> thief_ok (set_age q b) l' th.
Proof.
  intros Hlt Ho a Ha. destruct (Ho a Ha) as (Hw & Hle & _). cbn [set_age _age].
  assert (Hl : age_lt a b) by (destruct Hle as [->|Hle]; [done|by apply (age_lt_trans _ (_age q))]).
  split; [done|]. split; [by right|]. intros He. by apply age_lt_irrefl in Hl.
Qed.

Lemma thief_ok_idle q l : thief_ok q l TIdle.
Proof. intros a. done. Qed.

Lemma thieves_insert (ths : gmap nat (@thief E)) i th (P : thief -> Prop) :
  (forall j th, ths !! j = Some th -> P th) -> P th -> forall j th', <[i := th]> ths !! j = Some th' -> P th'.
Proof. intros Hp Hth j th' [[<- <-]|[_ Hj]]%lookup_insert_Some; [done|by apply (Hp j)]. Qed.

Lemma thief_step_ok (c : config) l i th q' th' ev :
  inv c l -> fresh c -> thieves c !! i = Some th -> thief_next N (queue c) th = Some (q', th', ev) ->
  exists l', inv (mkConfig q' (own c) (<[i := th']> (thieves c))) l' /\ deque_opt l ev l'.
Proof.
  intros [Ha Hb He Hl Hs Ho Ht] Hf Hi Hn. pose proof (Ht i th Hi) as Hth.
  destruct th as [|a|a|t a]; cbn [thief_next] in Hn; [done| | |].
  - (* load_acquire(&_bottom) *)
    destruct (Z.eqb_spec (size N (_bottom (queue c)) (_top a)) 0) as [Hz|Hz]; injection Hn as <- <- <-; exists l.
    + split; [|apply deque_steal_fail]. split; try done. cbn. apply thieves_insert; [done|apply thief_ok_idle].
    + split; [|done]. split; try done. cbn. apply thieves_insert; [done|].
      intros b [= <-]. destruct (Hth a eq_refl) as (Hw & Hle & _). split; [done|]. split; [done|].
      intros ->. by apply (size_nonempty (queue c) l (own c)).
  - (* t = _elems[oldAge.top()] *)
    destruct (zget _ _) as [t|] eqn:Hg; [|done]. injection Hn as <- <- <-. exists l. split; [|done].
    split; try done. cbn. apply thieves_insert; [done|].
    intros b [= <-]. destruct (Hth a eq_refl) as (Hw & Hle & Hx). split; [done|]. split; [done|].
    intros Heq. specialize (Hx Heq). subst a. destruct l as [|x l]; [done|]. exists l. f_equal.
    specialize (Hs 0%nat x eq_refl). rewrite Z.add_0_r, Z.mod_small in Hs by apply Hw. congruence.
  - (* cmpxchg *)
    destruct (Hth a eq_refl) as (Hw & Hle & Hx). pose proof (Hf i _ a Hi eq_refl) as Hfr.
    unfold cmpxchg in Hn. destruct (age_eq (_age (queue c)) a) eqn:Heq; injection Hn as <- <- <-.
    + apply age_eq_spec in Heq as ->; [|done..]. destruct (Hx eq_refl) as (l' & ->).
      exists l'. split; [|apply deque_steal]. cbn [length] in Hl.
      split; cbn; try done; [by apply increment_wf|lia|by apply steal_slots with t|by apply steal_owner_ok with t|].
      apply thieves_insert; [|apply thief_ok_idle]. intros j th Hj.
      apply (thief_ok_newer _ (t :: l')); [by apply increment_lt|by apply (Ht j)].
    + exists l. split; [|apply deque_steal_fail]. split; try done. cbn. apply thieves_insert; [done|apply thief_ok_idle].
Qed.

(** *** Steps of the owner *)

Lemma push_begin_ok q l t :
  zlen l <= N - 2 -> bottom_at q (zlen l) ->
  push_begin N q t =
  if zlen l <? max_elems N then (OPush t (_bottom q), None) else (OIdle, Some (PushFull t)).
Proof.
  intros Hl Hb. pose proof N_bounds. unfold push_begin, push_slow, max_elems.
  rewrite (bottom_dirty q _ Hb), Z.mod_small by lia.
  destruct (Z.ltb_spec (zlen l) (N - 2)); [done|]. destruct (Z.eqb_spec (zlen l) (N - 1)); [lia|done].
Qed.

Lemma pop_local_begin_ok q l :
  zlen l <= N - 2 -> bottom_at q (zlen l) ->
  pop_local_begin N q = match l with [] => (OIdle, Some PopEmpty) | _ => (OPop ((_bottom q - 1) mod N), None) end.
Proof.
  intros Hl Hb. pose proof N_bounds. unfold pop_local_begin.
  rewrite (bottom_dirty q _ Hb), Z.mod_small, decrement_index_eq by lia.
  destruct l; [done|]. by destruct (Z.eqb_spec (zlen (e :: l)) 0).
Qed.

(** Changes that leave the age and the first task alone do not matter to a thief. *)
Lemma thief_ok_same q q' l l' th :
  _age q' = _age q -> (l = [] \/ exists x r r', l = x :: r /\ l' = x :: r') ->
  thief_ok q l th -> thief_ok q' l' th.
Proof.
  intros He Hl Ho a Ha. rewrite He. destruct (Ho a Ha) as (Hw & Hle & Hx). split; [done|]. split; [done|].
  intros Hq. specialize (Hx Hq). destruct th as [| | |t]; try done.
  - destruct Hl as [->|(x & r & r' & -> & ->)]; done.
  - destruct Hx as (r0 & ->). destruct Hl as [?|(x & r & r' & Hr & ->)]; [done|]. injection Hr as -> ->. by exists r'.
Qed.

Lemma app_head {A} (l l' : list A) : l' = [] \/ exists (x : A) r r', l' = x :: r /\ l' ++ l = x :: r'.
Proof. destruct l' as [|x r]; [by left|]. right. by exists x, r, (r ++ l). Qed.

Lemma slots_push q l t elems :
  slots q l -> zlen l < N -> bottom_at q (zlen l) -> zset (_elems q) (_bottom q) t = Some elems ->
  slots (mkQueue (_bottom q) (_age q) elems) l.
Proof.
  intros Hs Hl Hb Hz i x Hi. cbn [_age _elems]. rewrite (zget_zset _ _ _ _ _ Hz).
  rewrite bool_decide_false; [by apply Hs|]. rewrite Hb. apply lookup_lt_Some in Hi.
  intros Heq. symmetry in Heq. by apply mod_neq in Heq; [|lia].
Qed.

Lemma slots_app q l t :
  slots q l -> zget (_elems q) ((_top (_age q) + zlen l) mod N) = Some t -> slots q (l ++ [t]).
Proof.
  intros Hs Ht i x [Hi|[Hlen Hi]]%lookup_app_Some; [by apply Hs|].
  destruct (i - length l)%nat as [|m] eqn:Hm; [|done]. injection Hi as <-. rewrite <- Ht. do 2 f_equal. lia.
Qed.

Lemma slots_prefix q l l' : slots q (l ++ l') -> slots q l.
Proof. intros Hs i x Hi. apply Hs. by apply lookup_app_l_Some. Qed.

Lemma bottom_increment q (n : Z) :
  bottom_at q n -> bottom_at (set_bottom q (increment_index N (_bottom q))) (n + 1).
Proof.
  unfold bottom_at. cbn [set_bottom _bottom _age]. intros ->. rewrite increment_index_eq, Zplus_mod_idemp_l.
  f_equal. lia.
Qed.

Lemma bottom_decrement q (n : Z) : bottom_at q n -> bottom_at (set_bottom q ((_bottom q - 1) mod N)) (n - 1).
Proof.
  unfold bottom_at. cbn [set_bottom _bottom _age]. intros ->. rewrite Zminus_mod_idemp_l. f_equal. lia.
Qed.

(** The slot at the bottom of a queue that is popped holds the last task. *)
Lemma slots_last q l t x :
  slots q (l ++ [x]) -> bottom_at q (zlen (l ++ [x]) - 1) -> zget (_elems q) (_bottom q) = Some t -> t = x.
Proof.
  intros Hs Hb Hg. specialize (Hs (length l) x). rewrite list_lookup_middle in Hs by done. specialize (Hs eq_refl).
  rewrite Hb, length_app in Hg. cbn [length] in Hg.
  replace (Z.of_nat (length l + 1) - 1) with (zlen l) in Hg by lia. congruence.
Qed.

(** When the size without the last task is positive, a task is left for the thieves. *)
Lemma pop_top_size q l :
  zlen l <= N - 2 -> bottom_at q (zlen l - 1) ->
  size N (_bottom q) (_top (_age q)) = Z.max 0 (zlen l - 1).
Proof.
  intros Hl Hb. destruct l as [|x l]; [by apply bottom_size_empty|]. cbn [length] in *.
  rewrite (bottom_size q (Z.of_nat (S (length l)) - 1)) by (done || lia). lia.
Qed.

Lemma list_last_case (l : list E) : l = [] \/ exists l' x, l = l' ++ [x].
Proof. induction l as [|x l _] using rev_ind; [by left|]. right. by exists l, x. Qed.

Lemma owner_push_ok (c : config) l q' o' ev :
  inv c l -> owner_next N (queue c) (own c) = Some (q', o', ev) ->
  (exists t lb, own c = OPush t lb \/ own c = OPushStore t lb) ->
  exists l', inv (mkConfig q' o' (thieves c)) l' /\ deque_opt l ev l'.
Proof.
  intros [Ha Hb He Hl Hs Ho Ht] Hn (t & lb & [Hc|Hc]); rewrite Hc in Ho, Hn; cbn [owner_next owner_ok] in Ho, Hn.
  - destruct Ho as (Hbot & -> & Hroom). destruct (zset _ _ _) as [elems|] eqn:Hz; [|done].
    injection Hn as <- <- <-. exists l. split; [|done]. split; cbn; try done.
    + by rewrite (zset_length _ _ _ _ Hz).
    + apply (slots_push _ _ t); [done|lia|done|done].
    + repeat split; try done. rewrite (zget_zset _ _ _ _ _ Hz), bool_decide_true by done. done.
  - destruct Ho as (Hbot & -> & Hroom & Hg). injection Hn as <- <- <-. exists (l ++ [t]).
    split; [|by apply deque_push]. split; cbn; try done.
    + rewrite increment_index_eq. apply mod_range.
    + rewrite length_app. cbn. lia.
    + apply slots_app; [done|]. by rewrite <- Hg, Hbot.
    + rewrite length_app, Nat2Z.inj_add. by apply bottom_increment.
    + intros i th Hi. apply (thief_ok_same (queue c) _ l); [done|apply app_head|by apply (Ht i)].
Qed.

(** The steps of [pop_local] up to the second read of the age. *)
Lemma owner_pop_ok (c : config) l q' o' ev :
  inv c l -> owner_next N (queue c) (own c) = Some (q', o', ev) ->
  (exists lb, own c = OPop lb \/ own c = OPopRead lb) ->
  exists l', inv (mkConfig q' o' (thieves c)) l' /\ deque_opt l ev l'.
Proof.
  intros [Ha Hb He Hl Hs Ho Ht] Hn (lb & [Hc|Hc]); rewrite Hc in Ho, Hn; cbn [owner_next owner_ok] in Ho, Hn.
  - destruct Ho as (Hbot & ->). injection Hn as <- <- <-. exists l. split; [|done]. split; cbn; try done.
    + apply mod_range.
    + split; [by apply bottom_decrement|done].
  - destruct Ho as (Hbot & ->). destruct (zget _ _) as [t|] eqn:Hg; [|done]. injection Hn as <- <- <-.
    exists l. split; [|done]. split; cbn; try done. split; [done|]. split; [done|].
    intros Hne. destruct (list_last_case l) as [?|(l' & x & ->)]; [done|]. exists l'.
    by rewrite (slots_last _ _ _ _ Hs Hbot Hg).
Qed.

Lemma owner_pop_top_ok (c : config) l q' o' ev t lb :
  inv c l -> owner_next N (queue c) (own c) = Some (q', o', ev) -> own c = OPopTop t lb ->
  exists l', inv (mkConfig q' o' (thieves c)) l' /\ deque_opt l ev l'.
Proof.
  intros [Ha Hb He Hl Hs Ho Ht] Hn Hc. rewrite Hc in Ho, Hn. cbn [owner_next owner_ok] in Ho, Hn.
  destruct Ho as (Hbot & -> & Hlast). rewrite (pop_top_size _ l Hl Hbot) in Hn.
  destruct (Z.ltb_spec 0 (Z.max 0 (zlen l - 1))) as [Hpos|Hpos]; injection Hn as <- <- <-.
  - destruct (Hlast ltac:(intros ->; cbn in Hpos; lia)) as (l' & ->). rewrite length_app in *. cbn [length] in *.
    exists l'. split; [|apply deque_pop]. split; cbn; try done; [lia|by apply slots_prefix in Hs| |].
    + by replace (zlen l') with (Z.of_nat (length l' + 1) - 1) by lia.
    + intros i th Hi. apply (thief_ok_same (queue c) _ (l' ++ [t])); [done| |by apply (Ht i)].
      destruct l' as [|x r]; [cbn in Hpos; lia|]. right. by exists x, (r ++ [t]), r.
  - exists l. split; [|done]. split; cbn; try done. repeat split; try done. lia.
Qed.

Lemma next_tag_lt (lb : Z) (a : Age) : age_lt a (next_tag lb a).
Proof. left. cbn. lia. Qed.

Lemma bottom_zero_top q : 0 <= _bottom q < N -> bottom_at q 0 -> age_wf (_age q) -> _bottom q = _top (_age q).
Proof. intros _ Hb [Ht _]. rewrite Hb, Z.add_0_r. by apply Z.mod_small. Qed.

Lemma bottom_minus_top q :
  0 <= _bottom q < N -> bottom_at q (-1) -> age_wf (_age q) -> _top (_age q) = (_bottom q + 1) mod N.
Proof.
  intros _ Hb [Ht _]. rewrite Hb, Zplus_mod_idemp_l. replace (_ + -1 + 1) with (_top (_age q)) by lia.
  by rewrite Z.mod_small.
Qed.

Lemma succ_mod_neq (x : Z) : 0 <= x < N -> (x + 1) mod N <> x.
Proof.
  intros Hx He. pose proof N_bounds. apply (mod_neq x 0 1); [lia|]. rewrite Z.add_0_r, He. by apply Z.mod_small.
Qed.

(** The reads and writes of [pop_local_slow]. *)
Lemma owner_pop_age_ok (c : config) l q' o' ev t lb :
  inv c l -> owner_next N (queue c) (own c) = Some (q', o', ev) -> own c = OPopAge t lb ->
  exists l', inv (mkConfig q' o' (thieves c)) l' /\ deque_opt l ev l'.
Proof.
  intros [Ha Hb He Hl Hs Ho Ht] Hn Hc. rewrite Hc in Ho, Hn. cbn [owner_next owner_ok] in Ho, Hn.
  destruct Ho as (Hbot & -> & Hlast & Hone). injection Hn as <- <- <-. exists l. split; [|done].
  split; cbn [queue own thieves]; try done. unfold pop_local_slow_begin.
  destruct (Z.eqb_spec (_bottom (queue c)) (_top (_age (queue c)))) as [Htop|Htop]; cbn [owner_ok].
  - split; [done|]. split; [done|]. split; [done|]. split; [done|]. left. split; [|done].
    destruct l as [|x [|]]; [|destruct (Hlast ltac:(done)) as ([|y [|]] & Hy); by inversion Hy|cbn in Hone; lia].
    exfalso. apply (succ_mod_neq (_bottom (queue c)) Hb). by rewrite <- (bottom_minus_top _ Hb Hbot Ha).
  - assert (l = []) as ->.
    { destruct l as [|x [|]]; [done| |cbn in Hone; lia]. by destruct (Htop (bottom_zero_top _ Hb Hbot Ha)). }
    split; [done|]. split; [done|]. split; [done|]. split; [by apply next_tag_wf|apply next_tag_lt].
Qed.

Lemma owner_pop_lose_ok (c : config) l q' o' ev a :
  inv c l -> owner_next N (queue c) (own c) = Some (q', o', ev) -> own c = OPopLose a ->
  exists l', inv (mkConfig q' o' (thieves c)) l' /\ deque_opt l ev l'.
Proof.
  intros [Ha Hb He Hl Hs Ho Ht] Hn Hc. rewrite Hc in Ho, Hn. cbn [owner_next owner_ok] in Ho, Hn.
  destruct Ho as (Hbot & -> & Htop & Hw & Hlt). injection Hn as <- <- <-. exists []. split; [|apply deque_empty].
  split; cbn; try done.
  - unfold bottom_at. cbn. rewrite Htop, Z.add_0_r. by rewrite Z.mod_small.
  - intros i th Hi. apply (thief_ok_newer _ []); [done|by apply (Ht i)].
Qed.

Lemma increment_next_tag (a : Age) : age_wf a -> age_lt (increment N a) (next_tag (_top a) a).
Proof.
  intros [Ht _]. unfold increment, age_lt. rewrite increment_index_eq. pose proof N_bounds.
  destruct (Z.eqb_spec ((_top a + 1) mod N) 0) as [Hz|Hz]; cbn; [|lia]. right. split; [done|]. rewrite Hz.
  destruct (Z.eq_dec (_top a) 0) as [H0|]; [|lia]. rewrite H0, Z.mod_small in Hz by lia. lia.
Qed.

Lemma owner_pop_slow_ok (c : config) l q' o' ev t lb a :
  inv c l -> owner_next N (queue c) (own c) = Some (q', o', ev) -> own c = OPopSlow t lb a ->
  exists l', inv (mkConfig q' o' (thieves c)) l' /\ deque_opt l ev l'.
Proof.
  intros [Ha Hb He Hl Hs Ho Ht] Hn Hc. rewrite Hc in Ho, Hn. unfold owner_next, cmpxchg in Hn.
  destruct Ho as (Hbot & -> & Htop & Hw & [[-> Hage]|[-> Hage]]).
  - rewrite Hage, age_eq_refl in Hn. injection Hn as <- <- <-. exists []. split; [|apply (deque_pop [])].
    split; cbn; try done; [by apply next_tag_wf|lia| |].
    + unfold bottom_at. cbn. rewrite Z.add_0_r. by rewrite Z.mod_small.
    + intros i th Hi. apply (thief_ok_newer _ [t]); [rewrite Hage; apply next_tag_lt|by apply (Ht i)].
  - assert (Hne : age_eq (_age (queue c)) a = false).
    { unfold age_eq. rewrite Hage, increment_top. apply andb_false_iff. left. apply Z.eqb_neq.
      apply succ_mod_neq. apply Hw. }
    rewrite Hne in Hn. injection Hn as <- <- <-. exists []. split; [|done]. split; cbn [queue own thieves]; try done.
    split; [done|]. split; [done|]. split; [done|]. split; [by apply next_tag_wf|].
    rewrite Hage, Htop. by apply increment_next_tag.
Qed.

Lemma owner_step_ok (c : config) l q' o' ev :
  inv c l -> owner_next N (queue c) (own c) = Some (q', o', ev) ->
  exists l', inv (mkConfig q' o' (thieves c)) l' /\ deque_opt l ev l'.
Proof.
  intros Hi Hn. destruct (own c) as [|t lb|t lb|lb|lb|t lb|t lb|t lb a|a] eqn:Ho; [done|..]; rewrite <- Ho in Hn;
    eauto using owner_push_ok, owner_pop_ok, owner_pop_top_ok, owner_pop_age_ok, owner_pop_slow_ok, owner_pop_lose_ok.
Qed.

(** Starting an operation. *)
Lemma owner_begin_ok q l ths o ev :
  inv (mkConfig q OIdle ths) l ->
  (exists t, push_begin N q t = (o, ev)) \/ pop_local_begin N q = (o, ev) ->
  inv (mkConfig q o ths) l /\ deque_opt l ev l.
Proof.
  intros [Ha Hb He Hl Hs Ho Ht] Hx. cbn [queue own thieves] in *.
  assert (Hok : owner_ok q l o /\ deque_opt l ev l).
  { destruct Hx as [[t Hx]|Hx].
    - rewrite (push_begin_ok q l t Hl Ho) in Hx. unfold max_elems in Hx.
      destruct (Z.ltb_spec (zlen l) (N - 2)); injection Hx as <- <-; [done|].
      split; [done|]. apply deque_full. unfold max_elems. lia.
    - rewrite (pop_local_begin_ok q l Hl Ho) in Hx. destruct l; injection Hx as <- <-; [split; [done|apply deque_empty]|done]. }
  destruct Hok. split; [|done]. by split.
Qed.

Lemma pop_global_begin_ok (c : config) l i :
  inv c l -> inv (mkConfig (queue c) (own c) (<[i := pop_global_begin (queue c)]> (thieves c))) l.
Proof.
  intros [Ha Hb He Hl Hs Ho Ht]. split; cbn; try done. apply thieves_insert; [done|].
  intros a [= <-]. split; [done|]. split; [by left|done].
Qed.

Lemma step_inv (c : config) l a ev c' :
  inv c l -> fresh c -> step N c a ev c' -> exists l', inv c' l' /\ deque_opt l ev l'.
Proof.
  intros Hi Hf Hs. destruct Hs as [q t o ev ths Hp|q o ev ths Hp|q o q' o' ev ths Hn|q o ths i Hd|q o ths i th q' th' ev Hth Hn].
  - exists l. apply owner_begin_ok; [done|]. left. by exists t.
  - exists l. apply owner_begin_ok; [done|]. by right.
  - by apply (owner_step_ok (mkConfig q o ths)).
  - exists l. split; [|done]. by apply (pop_global_begin_ok (mkConfig q o ths)).
  - by apply (thief_step_ok (mkConfig q o ths) l i th).
Qed.

Lemma init_inv (garbage : list E) : zlen garbage = N -> inv (mkConfig (initialize garbage) OIdle ∅) [].
Proof.
  intros Hg. pose proof N_bounds. split; cbn; try done; try lia. split; cbn; [lia|done].
Qed.

(** The events of a run, as operations on the abstract queue. *)
Inductive deque_run : list (actor * option event) -> list E -> Prop :=
| deque_run_nil : deque_run [] []
| deque_run_snoc tr a ev l l' : deque_run tr l -> deque_opt l ev l' -> deque_run (tr ++ [(a, ev)]) l'.

Lemma reachable_inv (garbage : list E) tr c :
  zlen garbage = N -> reachable N garbage tr c -> exists l, inv c l /\ deque_run tr l.
Proof.
  intros Hg Hr. induction Hr as [|tr c a ev c' Hr (l & Hi & Hd) Hf Hs].
  - exists []. split; [by apply init_inv|constructor].
  - destruct (step_inv c l a ev c' Hi Hf Hs) as (l' & Hi' & Hd'). exists l'. split; [done|]. by apply (deque_run_snoc _ _ _ l).
Qed.

(** No thread is ever stuck: every access is inside the array. *)
Lemma owner_progress (c : config) l : inv c l -> own c <> OIdle -> is_Some (owner_next N (queue c) (own c)).
Proof using HN Hk.
  intros [Ha Hb He Hl Hs Ho Ht] Hi. destruct (own c) as [|t lb|t lb|lb|lb|t lb|t lb|t lb a|a] eqn:Hc; try done;
    cbn [owner_next owner_ok] in *.
  - destruct Ho as (_ & -> & _). unfold zset. rewrite bool_decide_true by lia. by eexists.
  - destruct Ho as (_ & ->). destruct (lookup_lt_is_Some_2 (_elems (queue c)) (Z.to_nat (_bottom (queue c))) ltac:(lia)) as [x Hx].
    unfold zget. rewrite bool_decide_true by lia. rewrite Hx. by eexists.
  - case_match; by eexists.
  - unfold cmpxchg. case_match; by eexists.
Qed.

Lemma thief_progress (c : config) l i th :
  inv c l -> thieves c !! i = Some th -> th <> TIdle -> is_Some (thief_next N (queue c) th).
Proof using HN Hk.
  intros [Ha Hb He Hl Hs Ho Ht] Hi Hne. pose proof (Ht i th Hi) as Hth. destruct th as [|a|a|t a]; [done|..];
    cbn [thief_next].
  - case_match; by eexists.
  - destruct (Hth a eq_refl) as ([Hw _] & _). 
    destruct (lookup_lt_is_Some_2 (_elems (queue c)) (Z.to_nat (_top a)) ltac:(lia)) as [x Hx].
    unfold zget. rewrite bool_decide_true by lia. rewrite Hx. by eexists.
  - unfold cmpxchg. by eexists.
Qed.

(** *** Bounded operations *)

(** The accesses an operation still makes at most. *)
Definition owner_rank o : nat :=
  match o with
  | OIdle => 0
  | OPush _ _ => 2 | OPushStore _ _ => 1
  | OPop _ => 6 | OPopRead _ => 5 | OPopTop _ _ => 4 | OPopAge _ _ => 3
  | OPopSlow _ _ _ => 2 | OPopLose _ => 1
  end.
Definition thief_rank th : nat :=
  match th with TIdle => 0 | TBottom _ => 3 | TRead _ => 2 | TCas _ _ => 1 end.

Lemma owner_next_rank q o q' o' ev :
  owner_next N q o = Some (q', o', ev) ->
  (o' = OIdle /\ is_Some ev) \/ (o' <> OIdle /\ ev = None /\ (owner_rank o' < owner_rank o)%nat).
Proof using Type.
  clear HN Hk.
  destruct o as [|t lb|t lb|lb|lb|t lb|t lb|t lb a|a]; cbn [owner_next]; unfold cmpxchg, pop_local_slow_begin; intros H;
    repeat (case_match; try done); simplify_option_eq; cbn; eauto with lia;
    try (right; split; [done|split; [done|lia]]).
Qed.

Lemma thief_next_rank q th q' th' ev :
  thief_next N q th = Some (q', th', ev) ->
  (th' = TIdle /\ is_Some ev) \/ (th' <> TIdle /\ ev = None /\ (thief_rank th' < thief_rank th)%nat).
Proof using Type.
  clear HN Hk.
  destruct th as [|a|a|t a]; cbn [thief_next]; unfold cmpxchg; intros H;
    repeat (case_match; try done); simplify_option_eq; cbn; eauto with lia;
    try (right; split; [done|split; [done|lia]]).
Qed.

(** *** Operations without interference *)

(** What an operation can report. *)
Definition op_event o (e : event) : Prop :=
  match o with
  | OPush t _ | OPushStore t _ => e = Push t
  | _ => e = PopEmpty \/ exists t, e = PopLocal t
  end.

Lemma owner_next_kind q o q' o' ev :
  owner_next N q o = Some (q', o', ev) ->
  match ev with Some e => op_event o e | None => forall e, op_event o' e -> op_event o e end.
Proof.
  destruct o; cbn [owner_next]; unfold cmpxchg, pop_local_slow_begin; intros H;
    repeat (case_match; try done); simplify_option_eq; cbn; eauto.
Qed.

Lemma owner_run_ok (fuel : nat) q o l :
  inv (mkConfig q o ∅) l -> o <> OIdle -> (owner_rank o <= fuel)%nat ->
  exists q' e l', owner_run N fuel q o None = Some (q', e) /\ inv (mkConfig q' OIdle ∅) l' /\ deque l e l' /\ op_event o e.
Proof.
  revert q o l. induction fuel as [|fuel IH]; intros q o l Hi Hne Hr; [by destruct o; cbn in Hr; try lia|].
  destruct (owner_progress _ _ Hi Hne) as [[[q' o'] ev] Hn]. cbn [queue own] in Hn.
  destruct (owner_step_ok _ _ _ _ _ Hi Hn) as (l1 & Hi1 & Hd). cbn [thieves] in Hi1.
  pose proof (owner_next_kind _ _ _ _ _ Hn) as Hkind.
  cbn [owner_run]. rewrite Hn. cbn [mbind option_bind].
  destruct (owner_next_rank _ _ _ _ _ Hn) as [[-> [e ->]]|(Hne' & -> & Hlt)].
  - exists q', e, l1. split; [by destruct fuel|]. done.
  - cbn in Hd. subst l1. destruct (IH q' o' l Hi1 Hne' ltac:(lia)) as (q2 & e & l2 & H1 & H2 & H3 & H4).
    exists q2, e, l2. split; [done|]. split; [done|]. split; [done|by apply Hkind].
Qed.

(** A queue at rest holds the list [l]. *)
Definition represents q l : Prop := inv (mkConfig q OIdle ∅) l.

Lemma push_seq q l t :
  represents q l ->
  exists q', push N q t = Some (q', if zlen l <? max_elems N then Push t else PushFull t) /\
    represents q' (if zlen l <? max_elems N then l ++ [t] else l).
Proof.
  intros Hr. pose proof (inv_owner _ _ Hr) as Ho. pose proof (inv_length _ _ Hr) as Hl.
  pose proof (push_begin_ok q l t Hl Ho) as Hb. unfold push. rewrite Hb.
  destruct (zlen l <? max_elems N); [|by exists q].
  assert (Hi : inv (mkConfig q (OPush t (_bottom q)) ∅) l).
  { apply (owner_begin_ok q l ∅ _ None); [done|]. left. exists t. rewrite Hb. done. }
  destruct (owner_run_ok 2 q _ l Hi ltac:(done) ltac:(done)) as (q' & e & l' & -> & Hi' & Hd & He).
  exists q'. cbn in He. subst e. split; [done|]. by inversion Hd; subst.
Qed.

Lemma pop_local_seq q l :
  represents q l ->
  exists q' e l', pop_local N q = Some (q', e) /\ represents q' l' /\
    ((l = [] /\ l' = [] /\ e = PopEmpty) \/ exists t, l = l' ++ [t] /\ e = PopLocal t).
Proof.
  intros Hr. pose proof (inv_owner _ _ Hr) as Ho. pose proof (inv_length _ _ Hr) as Hl.
  pose proof (pop_local_begin_ok q l Hl Ho) as Hb. unfold pop_local. rewrite Hb.
  destruct l as [|x l]; [exists q, PopEmpty, []; split; [done|]; split; [done|by left]|].
  assert (Hi : inv (mkConfig q (OPop ((_bottom q - 1) mod N)) ∅) (x :: l)).
  { apply (owner_begin_ok q (x :: l) ∅ _ None); [done|]. right. by rewrite Hb. }
  destruct (owner_run_ok 6 q _ _ Hi ltac:(done) ltac:(done)) as (q' & e & l' & -> & Hi' & Hd & He).
  exists q', e, l'. split; [done|]. split; [done|]. right.
  destruct He as [->|[t ->]]; inversion Hd; subst. by exists t.
Qed.

Lemma pop_global_seq q l :
  represents q l ->
  exists q', pop_global N q = Some (q', match l with t :: _ => Steal t | [] => StealFail end) /\
    represents q' (tail l).
Proof.
  intros Hr. destruct Hr as [Ha Hb He Hl Hs Ho Ht]. cbn [queue own thieves] in *.
  pose proof (bottom_size q (zlen l) ltac:(lia) Ho) as Hz.
  unfold pop_global, pop_global_begin. cbn [thief_run thief_next]. rewrite Hz.
  destruct l as [|x l]; [exists q; split; [done|]; by split|].
  destruct (Z.eqb_spec (zlen (x :: l)) 0); [done|]. cbn [mbind option_bind thief_run thief_next].
  pose proof (Hs 0%nat x eq_refl) as Hx. rewrite Z.add_0_r, Z.mod_small in Hx by apply Ha. rewrite Hx.
  cbn [mbind option_bind thief_run thief_next]. unfold cmpxchg. rewrite age_eq_refl. cbn [mbind option_bind thief_run].
  eexists. split; [done|]. cbn [tail]. cbn [length] in Hl.
  split; cbn; try done; [by apply increment_wf|lia|by apply steal_slots with x|].
  by apply (steal_owner_ok q x l OIdle).
Qed.

(** [oops_do] visits the tasks from the newest to the oldest. *)
Lemma oops_do_loop_ok q l l' :
  slots q (l ++ l') -> oops_do_loop N (length l) q ((_top (_age q) + zlen l) mod N) = Some (reverse l).
Proof.
  revert l'. induction l as [|x l IH] using rev_ind; intros l' Hs; [done|].
  rewrite length_app, Nat.add_comm. cbn [length Nat.add oops_do_loop]. rewrite decrement_index_eq, Zminus_mod_idemp_l.
  replace (_top (_age q) + Z.of_nat (S (length l)) - 1) with (_top (_age q) + zlen l) by lia.
  rewrite <- app_assoc in Hs. pose proof (Hs (length l) x ltac:(by apply list_lookup_middle)) as Hx.
  rewrite Hx. cbn [mbind option_bind]. rewrite (IH _ Hs). cbn [mbind option_bind]. by rewrite reverse_snoc.
Qed.

Lemma observers_seq q l :
  represents q l ->
  queue_size N q = zlen l /\ queue_dirty_size N q = zlen l /\ is_empty N q = bool_decide (l = []) /\
  peek q = negb (bool_decide (l = [])) /\ oops_do N q = Some (reverse l).
Proof.
  intros Hr. destruct Hr as [Ha Hb He Hl Hs Ho Ht]. cbn [queue own thieves] in *.
  pose proof (bottom_size q (zlen l) ltac:(lia) Ho) as Hz. pose proof N_bounds.
  assert (Hd : dirty_size N (_bottom q) (_top (_age q)) = zlen l).
  { rewrite (bottom_dirty q _ Ho). apply Z.mod_small. lia. }
  unfold queue_size, queue_dirty_size, is_empty, oops_do, queue_size. rewrite Hz. split; [done|]. split; [done|].
  split; [by destruct l|]. split.
  - unfold peek. f_equal. destruct l as [|x l]; [by rewrite (bottom_zero_top q Hb Ho Ha), Z.eqb_refl|].
    apply Z.eqb_neq. intros Hq. rewrite Hq in Hd. unfold dirty_size in Hd. by rewrite mask_mod, Z.sub_diag in Hd.
  - rewrite Nat2Z.id, Ho. apply (oops_do_loop_ok q l []). by rewrite app_nil_r.
Qed.
End Invariant.
