(* ===== verification/TaskQueueCorrect.v ===== *)
(** Properties of the work-stealing queues of [TaskQueue]: linearizability against
    a list, wait-freedom, and the behaviour of uninterrupted operations. *)

From S2P Require Import Prelude TaskQueue.

(** ** Executable schedules *)

Section Schedule.
Context (N : Z) {E : Type}.

(** Which thread moves next; an idle owner starts the given operation, an idle
    thief starts [pop_global]. *)
Inductive command := DoPush (t : E) | DoPop | DoOwner | DoThief (i : nat).

Definition exec1 (c : @config E) (cmd : command) : option (actor * option event * config) :=
  match cmd with
  | DoPush t =>
      match own c with
      | OIdle => let '(o, ev) := push_begin N (queue c) t in Some (Owner, ev, mkConfig (queue c) o (thieves c))
      | _ => None
      end
  | DoPop =>
      match own c with
      | OIdle => let '(o, ev) := pop_local_begin N (queue c) in Some (Owner, ev, mkConfig (queue c) o (thieves c))
      | _ => None
      end
  | DoOwner => '(q, o, ev) ← owner_next N (queue c) (own c); Some (Owner, ev, mkConfig q o (thieves c))
  | DoThief i =>
      match default TIdle (thieves c !! i) with
      | TIdle => Some (Thief i, None, mkConfig (queue c) (own c) (<[i := pop_global_begin (queue c)]> (thieves c)))
      | th => '(q, th', ev) ← thief_next N (queue c) th; Some (Thief i, ev, mkConfig q (own c) (<[i := th']> (thieves c)))
      end
  end.

Definition fresh_thief (q : @TaskQueue E) (th : @thief E) : Prop :=
  match snapshot th with Some a => epoch (_age q) - epoch a < 2 ^ 32 | None => True end.
#[global] Instance fresh_thief_dec q th : Decision (fresh_thief q th).
Proof. unfold fresh_thief. destruct (snapshot th); apply _. Defined.

Definition freshb (c : @config E) : bool := bool_decide (map_Forall (fun _ th => fresh_thief (queue c) th) (thieves c)).

Fixpoint exec (c : @config E) (cmds : list command) : option (list (actor * option event) * config) :=
  match cmds with
  | [] => Some ([], c)
  | cmd :: cmds =>
      if freshb c then
        '(a, ev, c1) ← exec1 c cmd; '(tr, c2) ← exec c1 cmds; Some ((a, ev) :: tr, c2)
      else None
  end.

Lemma exec1_step c cmd a ev c' : exec1 c cmd = Some (a, ev, c') -> step N c a ev c'.
Proof.
  destruct c as [q o ths]. destruct cmd as [t| | |i]; cbn [exec1 queue own thieves].
  - destruct o; try done. destruct (push_begin N q t) as [o' e] eqn:Hp. intros [= <- <- <-]. by apply (step_push _ _ t).
  - destruct o; try done. destruct (pop_local_begin N q) as [o' e] eqn:Hp. intros [= <- <- <-]. by apply step_pop_local.
  - destruct (owner_next N q o) as [[[q' o'] e]|] eqn:Hn; [|done]. intros [= <- <- <-]. by apply step_owner.
  - destruct (ths !! i) as [th|] eqn:Hi; cbn [default from_option].
    + destruct th as [|b|b|t b] eqn:Hth; cbn [id];
        [intros [= <- <- <-]; apply step_pop_global; by rewrite Hi|..];
        rewrite <- Hth in *; destruct (thief_next N q th) as [[[q' th'] e]|] eqn:Hn; cbn [mbind option_bind]; try done;
        intros [= <- <- <-]; by apply (step_thief _ _ _ _ _ th).
    + intros [= <- <- <-]. apply step_pop_global. by rewrite Hi.
Qed.

Lemma freshb_fresh c : freshb c = true -> fresh c.
Proof.
  intros Hf%bool_decide_eq_true i th a Hi Ha. specialize (Hf i th Hi). unfold fresh_thief in Hf. by rewrite Ha in Hf.
Qed.

Lemma exec_reachable garbage tr c cmds tr' c' :
  reachable N garbage tr c -> exec c cmds = Some (tr', c') -> reachable N garbage (tr ++ tr') c'.
Proof.
  revert tr c tr'. induction cmds as [|cmd cmds IH]; intros tr c tr' Hr; cbn [exec].
  - intros [= <- <-]. by rewrite app_nil_r.
  - destruct (freshb c) eqn:Hf; [|done]. destruct (exec1 c cmd) as [[[a ev] c1]|] eqn:H1; [|done]. cbn [mbind option_bind].
    destruct (exec c1 cmds) as [[tr2 c2]|] eqn:H2; [|done]. intros [= <- <-].
    change ((a, ev) :: tr2) with ([(a, ev)] ++ tr2). rewrite app_assoc. apply (IH _ c1); [|done].
    apply (reachable_step _ _ _ c); [done|by apply freshb_fresh|by apply (exec1_step _ cmd)].
Qed.
End Schedule.
Arguments DoPush {E} _.
Arguments DoPop {E}.
Arguments DoOwner {E}.
Arguments DoThief {E} _.

(** ** Conservation of tasks *)

Definition event_pushed {E} (x : actor * option (@event E)) : list E :=
  match snd x with Some (Push t) => [t] | _ => [] end.
Definition event_taken {E} (x : actor * option (@event E)) : list E :=
  match snd x with Some (PopLocal t) | Some (Steal t) => [t] | _ => [] end.

(** The tasks that were pushed, and those that were handed out. *)
Definition pushed {E} (tr : list (actor * option (@event E))) : list E := mjoin (event_pushed <$> tr).
Definition taken {E} (tr : list (actor * option (@event E))) : list E := mjoin (event_taken <$> tr).

Lemma mjoin_snoc {A B} (f : A -> list B) (l : list A) (x : A) : mjoin (f <$> (l ++ [x])) = mjoin (f <$> l) ++ f x.
Proof. rewrite fmap_app, join_app. f_equal. apply app_nil_r. Qed.

Lemma deque_run_conserve {E} (N : Z) (tr : list (actor * option (@event E))) (l : list E) :
  deque_run N tr l -> pushed tr ≡ₚ taken tr ++ l.
Proof.
  induction 1 as [|tr a ev l l' Hr IH Hd]; [done|]. unfold pushed, taken in *. rewrite !mjoin_snoc.
  destruct ev as [ev|]; cbn in Hd; [|subst; cbn; by rewrite !app_nil_r].
  destruct Hd; cbn; rewrite ?app_nil_r, IH; try done.
  all: rewrite <- ?app_assoc; try done.
  - apply Permutation_app_head. by rewrite Permutation_app_comm.
  - by rewrite app_nil_r.
Qed.

(** ** Steps of one thread among those of the others *)

Section Threads.
Context (N : Z) {E : Type}.

Inductive steps : @config E -> list (actor * option event) -> config -> Prop :=
| steps_nil c : steps c [] c
| steps_cons c a ev c1 tr c2 : step N c a ev c1 -> steps c1 tr c2 -> steps c ((a, ev) :: tr) c2.

#[global] Instance actor_eq_dec : EqDecision actor.
Proof. solve_decision. Defined.

Definition own_steps (a : actor) (tr : list (actor * option (@event E))) : nat :=
  length (filter (fun x => fst x = a) tr).

Lemma own_steps_cons (a b : actor) ev tr :
  own_steps a ((b, ev) :: tr) = ((if decide (b = a) then 1 else 0) + own_steps a tr)%nat.
Proof. unfold own_steps. rewrite filter_cons. cbn [fst]. by destruct (decide (b = a)). Qed.

Lemma step_owner_rank (c : @config E) a ev c' :
  step N c a ev c' -> own c <> OIdle ->
  if decide (a = Owner) then is_Some ev \/ (own c' <> OIdle /\ (owner_rank (own c') < owner_rank (own c))%nat)
  else own c' = own c.
Proof.
  intros Hs Hne. destruct Hs as [q t o ev ths Hp|q o ev ths Hp|q o q' o' ev ths Hn|q o ths i Hd|q o ths i th q' th' ev Hth Hn];
    cbn in *; try done.
  destruct (owner_next_rank _ _ _ _ _ _ Hn) as [[_ ?]|(? & _ & ?)]; [by left|by right].
Qed.

Lemma step_thief_rank (c : @config E) a ev c' i th :
  step N c a ev c' -> thieves c !! i = Some th -> th <> TIdle ->
  if decide (a = Thief i)
  then is_Some ev \/ exists th', thieves c' !! i = Some th' /\ th' <> TIdle /\ (thief_rank th' < thief_rank th)%nat
  else thieves c' !! i = Some th.
Proof.
  intros Hs Hi Hne. destruct Hs as [q t o ev ths Hp|q o ev ths Hp|q o q' o' ev ths Hn|q o ths j Hd|q o ths j th1 q' th' ev Hth Hn];
    cbn in *; try done.
  - case_decide as Ha; [injection Ha as ->; by rewrite Hi in Hd|]. rewrite lookup_insert_ne; [done|congruence].
  - case_decide as Ha; [|rewrite lookup_insert_ne; [done|congruence]]. injection Ha as ->.
    rewrite Hi in Hth. injection Hth as <-.
    destruct (thief_next_rank _ _ _ _ _ _ Hn) as [[_ ?]|(? & _ & ?)]; [by left|].
    right. exists th'. by rewrite lookup_insert_eq.
Qed.

Lemma owner_returns (c : @config E) tr c' :
  steps c tr c' -> own c <> OIdle -> (owner_rank (own c) <= own_steps Owner tr)%nat ->
  exists ev, (Owner, Some ev) ∈ tr.
Proof.
  induction 1 as [c|c a ev c1 tr c2 Hs Hr IH]; intros Hne Hle; [by destruct (own c); cbn in Hle; try lia|].
  rewrite own_steps_cons in Hle. pose proof (step_owner_rank _ _ _ _ Hs Hne) as Hx. case_decide as Ha.
  - destruct Hx as [[e ->]|[H1 H2]]; [exists e; subst; constructor|].
    destruct (IH H1 ltac:(lia)) as [e He]. exists e. by constructor.
  - rewrite Hx in IH. destruct (IH Hne Hle) as [e He]. exists e. by constructor.
Qed.

Lemma thief_returns (c : @config E) tr c' i th :
  steps c tr c' -> thieves c !! i = Some th -> th <> TIdle -> (thief_rank th <= own_steps (Thief i) tr)%nat ->
  exists ev, (Thief i, Some ev) ∈ tr.
Proof.
  intros Hs. revert th. induction Hs as [c|c a ev c1 tr c2 Hs Hr IH]; intros th Hi Hne Hle;
    [by destruct th; cbn in Hle; try lia|].
  rewrite own_steps_cons in Hle. pose proof (step_thief_rank _ _ _ _ _ _ Hs Hi Hne) as Hx. case_decide as Ha.
  - destruct Hx as [[e ->]|(th' & H1 & H2 & H3)]; [exists e; subst; constructor|].
    destruct (IH th' H1 H2 ltac:(lia)) as [e He]. exists e. by constructor.
  - destruct (IH th Hx Hne Hle) as [e He]. exists e. by constructor.
Qed.
End Threads.

(** ** Properties *)

(** C1: The work-stealing queue is linearizable.  Take any interleaving of the
    accesses of an owner that runs [push] and [pop_local] and of any number of
    threads that run [pop_global], from the empty queue, in which no thread holds
    an age that is 2^32 tags old.  Then the results that were reported are those of
    a list to which [push] appends unless it has N - 2 tasks, from which
    [pop_local] takes the newest and [pop_global] the oldest task, and on which
    [pop_local] fails only if it is empty.  So no task is lost and none is handed
    out twice; and when the owner is between operations, the array holds the tasks
    of the list. *)
Theorem work_stealing_linearizable {E} (N k : Z) (garbage : list E) tr (c : config) :
  N = 2 ^ k -> 2 <= k <= 31 -> zlen garbage = N -> reachable N garbage tr c ->
  exists l, deque_run N tr l /\ pushed tr ≡ₚ taken tr ++ l /\ zlen l <= max_elems N /\
    (own c = OIdle -> represents N (queue c) l /\
       queue_size N (queue c) = zlen l /\ oops_do N (queue c) = Some (reverse l)).
Proof.
  intros HN Hk Hg Hr. destruct (reachable_inv N k HN Hk garbage tr c Hg Hr) as (l & Hi & Hd). exists l.
  split; [done|]. split; [by apply (deque_run_conserve N)|]. split; [apply (inv_length _ _ _ Hi)|]. intros Ho.
  assert (Hrep : represents N (queue c) l).
  { destruct Hi as [Ha Hb He Hl Hs Hown _]. rewrite Ho in Hown. by split. }
  split; [done|].
  pose proof (observers_seq N k HN Hk _ _ Hrep). tauto.
Qed.

(** A race for the only task: a thief takes it after the owner has decremented
    [_bottom]. *)
Definition race : list (@command Z) :=
  [DoPush 7; DoOwner; DoOwner; DoThief 0; DoThief 0; DoPop; DoOwner; DoThief 0; DoOwner; DoOwner; DoThief 0;
   DoOwner; DoOwner; DoPush 8; DoOwner; DoOwner].
Definition race_result : list (actor * option (@event Z)) * config :=
  default ([], mkConfig (initialize []) OIdle ∅) (exec 4 (mkConfig (initialize [0; 0; 0; 0]) OIdle ∅) race).

Lemma race_reachable : reachable 4 [0; 0; 0; 0] (fst race_result) (snd race_result).
Proof.
  apply (exec_reachable 4 [0; 0; 0; 0] [] (mkConfig (initialize [0; 0; 0; 0]) OIdle ∅) race); [constructor|].
  vm_compute. reflexivity.
Qed.

Lemma work_stealing_linearizable_witness :
  pushed (fst race_result) = [7; 8] /\ taken (fst race_result) = [7] /\
  exists l, deque_run 4 (fst race_result) l /\ zlen l <= 2.
Proof.
  split; [reflexivity|]. split; [reflexivity|].
  destruct (work_stealing_linearizable 4 2 [0; 0; 0; 0] (fst race_result) (snd race_result)) as (l & H1 & _ & H3 & _);
    [reflexivity|lia|reflexivity|exact race_reachable|].
  exists l. split; [exact H1|exact H3].
Defined.

(** C27: The operations are wait-free.  In every reachable state a thread inside an
    operation can take its next step, which also means that it does not leave the
    array; and whatever the other threads do, the owner returns within 6 steps of
    its own and a thread in [pop_global] within 3. *)
Theorem operations_wait_free {E} (N k : Z) (garbage : list E) tr (c : config) :
  N = 2 ^ k -> 2 <= k <= 31 -> zlen garbage = N -> reachable N garbage tr c ->
  (own c <> OIdle ->
     (exists ev c', step N c Owner ev c') /\
     forall tr' c', steps N c tr' c' -> (6 <= own_steps Owner tr')%nat -> exists ev, (Owner, Some ev) ∈ tr') /\
  (forall i th, thieves c !! i = Some th -> th <> TIdle ->
     (exists ev c', step N c (Thief i) ev c') /\
     forall tr' c', steps N c tr' c' -> (3 <= own_steps (Thief i) tr')%nat -> exists ev, (Thief i, Some ev) ∈ tr').
Proof.
  intros HN Hk Hg Hr. destruct (reachable_inv N k HN Hk garbage tr c Hg Hr) as (l & Hi & _). destruct c as [q o ths].
  split.
  - intros Ho. split.
    + destruct (owner_progress N k HN Hk _ l Hi Ho) as [[[q' o'] ev] Hn]. eexists _, _. by apply step_owner.
    + intros tr' c' Hs H6. apply (owner_returns N _ _ _ Hs Ho). destruct o; cbn; lia.
  - intros i th Hth Hne. split.
    + destruct (thief_progress N k HN Hk _ l i th Hi Hth Hne) as [[[q' th'] ev] Hn]. eexists _, _.
      by apply (step_thief _ _ _ _ _ th).
    + intros tr' c' Hs H3. apply (thief_returns N _ _ _ i th Hs Hth Hne). destruct th; cbn; lia.
Qed.

Lemma operations_wait_free_witness :
  exists ev c', step 4 (mkConfig (initialize [0; 0; 0; 0]) (OPush 5 0) ∅) Owner ev c'.
Proof.
  destruct (operations_wait_free 4 2 [0; 0; 0; 0] [(Owner, None)] (mkConfig (initialize [0; 0; 0; 0]) (OPush 5 0) ∅))
    as [H _]; [reflexivity|lia|reflexivity| |exact (proj1 (H ltac:(discriminate)))].
  apply (exec_reachable 4 [0; 0; 0; 0] [] (mkConfig (initialize [0; 0; 0; 0]) OIdle ∅) [DoPush 5]); [constructor|].
  vm_compute. reflexivity.
Defined.

(** C28: Operations that are not interrupted do what their comments say, on a queue
    that holds the tasks [l]: [push] appends or reports that N - 2 tasks are in the
    queue, [pop_local] returns the most recently and [pop_global] the least
    recently pushed task, and the observers see the length of the queue; [oops_do]
    visits every task once. *)
Theorem sequential_operations {E} (N k : Z) (q : TaskQueue) (l : list E) (t : E) :
  N = 2 ^ k -> 2 <= k <= 31 -> represents N q l ->
  (exists q', push N q t = Some (q', if zlen l <? max_elems N then Push t else PushFull t) /\
     represents N q' (if zlen l <? max_elems N then l ++ [t] else l)) /\
  (exists q' e l', pop_local N q = Some (q', e) /\ represents N q' l' /\
     ((l = [] /\ l' = [] /\ e = PopEmpty) \/ exists x, l = l' ++ [x] /\ e = PopLocal x)) /\
  (exists q', pop_global N q = Some (q', match l with x :: _ => Steal x | [] => StealFail end) /\
     represents N q' (tail l)) /\
  queue_size N q = zlen l /\ queue_dirty_size N q = zlen l /\ is_empty N q = bool_decide (l = []) /\
  peek q = negb (bool_decide (l = [])) /\ oops_do N q = Some (reverse l).
Proof.
  intros HN Hk Hr. split; [by apply (push_seq N k HN Hk)|]. split; [by apply (pop_local_seq N k HN Hk)|].
  split; [by apply (pop_global_seq N k HN Hk)|]. by apply (observers_seq N k HN Hk).
Qed.

Lemma sequential_operations_witness :
  exists q', push 4 (initialize [0; 0; 0; 0]) 5 = Some (q', Push 5) /\ represents 4 q' [5].
Proof.
  destruct (sequential_operations 4 2 (initialize [0; 0; 0; 0]) [] 5) as [H _]; [reflexivity|lia| |exact H].
  apply (init_inv 4 2 eq_refl ltac:(lia)). reflexivity.
Defined.
