(* ===== verification/Stack.v ===== *)
(** The segmented stacks of utilities/stack.hpp.

    The segments a stack has allocated are a map from their addresses to their
    elements and link field; [NULL] is 0.  An access to an address that is not
    allocated, or outside of a segment, has no result.  The allocator is a
    parameter: the address it returns, and what the new memory holds. *)

From S2P Require Import Prelude GlobalDefinitions.

(** ** Definitions *)

Record segment {E : Type} := mkSegment { elements : list E; link : Z }.
Arguments segment : clear implicits.
Arguments mkSegment {E} _ _.
Abbreviation memory E := (gmap Z (segment E)).

Definition sizeof_ptr : Z := 8.

(** What [Stack::alloc] is documented to do: it returns [bytes] bytes of storage that is not
    in use, and does not return if there are none.  The storage of a segment has room for
    as many elements as fit in front of its link. *)
Class Allocator (E : Type) := {
  element_size : Z;
  alloc : memory E -> Z -> Z;
  alloc_contents : memory E -> Z -> segment E;
  element_size_pos : 0 < element_size;
  alloc_fresh : forall h bytes, h !! alloc h bytes = None /\ alloc h bytes <> 0;
  alloc_room : forall h bytes, sizeof_ptr <= bytes -> zlen (elements (alloc_contents h bytes)) = (bytes - sizeof_ptr) / element_size;
}.

Section Definitions.
Context {E : Type} `{Allocator E}.

Record Stack := mkStack {
  _seg_size : Z; _max_size : Z; _max_cache_size : Z;
  _cur_seg_size : Z; _full_seg_size : Z; _cache_size : Z;
  _cur_seg : Z; _cache : Z;
}.

(** *** Sizes *)

Section Sizes.
Context (sizeof_E : Z).

Definition max_uintx : Z := 2 ^ 64 - 1.

Definition adjust_max_size (max_size seg_size : Z) : Z :=
  let limit := u64 (max_uintx - (seg_size - 1)) in
  let max_size := if (max_size =? 0) || (limit <? max_size) then limit else max_size in
  u64 (u64 (max_size + seg_size - 1) / seg_size * seg_size).

Definition adjust_segment_size (seg_size : Z) : Z :=
  if sizeof_E <? sizeof_ptr then align_size_up (u64 (seg_size * sizeof_E)) sizeof_ptr / sizeof_E else seg_size.

Definition link_offset (st : Stack) : Z := align_size_up (u64 (_seg_size st * sizeof_E)) sizeof_ptr.
Definition segment_bytes (st : Stack) : Z := u64 (link_offset st + sizeof_ptr).
End Sizes.

(** *** Memory *)

Definition get_link (h : memory E) (seg : Z) : option Z := s ← h !! seg; Some (link s).
Definition set_link (h : memory E) (new_seg old_seg : Z) : option (memory E) :=
  s ← h !! new_seg; Some (<[new_seg := mkSegment (elements s) old_seg]> h).
Definition get_elem (h : memory E) (seg i : Z) : option E := s ← h !! seg; zget (elements s) i.
Definition set_elem (h : memory E) (seg i : Z) (x : E) : option (memory E) :=
  s ← h !! seg; els ← zset (elements s) i x; Some (<[seg := mkSegment els (link s)]> h).
Definition free (h : memory E) (addr : Z) : option (memory E) := _ ← h !! addr; Some (delete addr h).

(** *** Operations *)

Definition reset (st : Stack) (reset_cache : bool) : Stack :=
  mkStack (_seg_size st) (_max_size st) (_max_cache_size st) (_seg_size st) 0
    (if reset_cache then 0 else _cache_size st) 0 (if reset_cache then 0 else _cache st).

Definition new_stack (sizeof_E segment_size max_cache_size max_size : Z) : Stack :=
  let seg_size := adjust_segment_size sizeof_E segment_size in
  reset (mkStack seg_size (adjust_max_size max_size seg_size) max_cache_size 0 0 0 0 0) true.

Definition is_empty (st : Stack) : bool := _cur_seg st =? 0.
Definition is_full (st : Stack) : bool := _max_size st <=? _full_seg_size st.
Definition size (st : Stack) : Z := if is_empty st then 0 else u64 (_full_seg_size st + _cur_seg_size st).

Definition push_segment (st : Stack) (h : memory E) : option (Stack * memory E) :=
  '(next, h, cache, cache_size) ←
    (if 0 <? _cache_size st then
       let next := _cache st in
       cache ← get_link h (_cache st);
       Some (next, h, cache, u64 (_cache_size st - 1))
     else
       let bytes := segment_bytes element_size st in
       let next := alloc h bytes in
       Some (next, <[next := alloc_contents h bytes]> h, _cache st, _cache_size st));
  let at_empty_transition := is_empty st in
  h ← set_link h next (_cur_seg st);
  Some (mkStack (_seg_size st) (_max_size st) (_max_cache_size st) 0
          (u64 (_full_seg_size st + if at_empty_transition then 0 else _seg_size st)) cache_size next cache, h).

Definition pop_segment (st : Stack) (h : memory E) : option (Stack * memory E) :=
  prev ← get_link h (_cur_seg st);
  '(h, cache, cache_size) ←
    (if _cache_size st <? _max_cache_size st then
       h ← set_link h (_cur_seg st) (_cache st); Some (h, _cur_seg st, u64 (_cache_size st + 1))
     else h ← free h (_cur_seg st); Some (h, _cache st, _cache_size st));
  let at_empty_transition := prev =? 0 in
  Some (mkStack (_seg_size st) (_max_size st) (_max_cache_size st) (_seg_size st)
          (u64 (_full_seg_size st - if at_empty_transition then 0 else _seg_size st)) cache_size prev cache, h).

Definition with_cur_seg_size (st : Stack) (n : Z) : Stack :=
  mkStack (_seg_size st) (_max_size st) (_max_cache_size st) n (_full_seg_size st) (_cache_size st)
    (_cur_seg st) (_cache st).

Definition push (st : Stack) (h : memory E) (item : E) : option (Stack * memory E) :=
  '(st, h) ← (if _cur_seg_size st =? _seg_size st then push_segment st h else Some (st, h));
  h ← set_elem h (_cur_seg st) (_cur_seg_size st) item;
  Some (with_cur_seg_size st (u64 (_cur_seg_size st + 1)), h).

Definition pop (st : Stack) (h : memory E) : option (E * Stack * memory E) :=
  if _cur_seg_size st =? 1 then
    let st := with_cur_seg_size st (u64 (_cur_seg_size st - 1)) in
    tmp ← get_elem h (_cur_seg st) (_cur_seg_size st);
    '(st, h) ← pop_segment st h;
    Some (tmp, st, h)
  else
    let st := with_cur_seg_size st (u64 (_cur_seg_size st - 1)) in
    tmp ← get_elem h (_cur_seg st) (_cur_seg_size st);
    Some (tmp, st, h).

(** The loop over the links; [fuel] bounds the number of segments. *)
Fixpoint free_segments (fuel : nat) (h : memory E) (seg : Z) : option (memory E) :=
  if seg =? 0 then Some h
  else
    match fuel with
    | O => None
    | S fuel' => prev ← get_link h seg; h ← free h seg; free_segments fuel' h prev
    end.

Definition clear (st : Stack) (h : memory E) (clear_cache : bool) : option (Stack * memory E) :=
  h ← free_segments (S (base.size h)) h (_cur_seg st);
  h ← (if clear_cache then free_segments (S (base.size h)) h (_cache st) else Some h);
  Some (reset st clear_cache, h).

(** *** StackIterator *)

Record StackIterator := mkIterator { it_cur_seg_size : Z; it_cur_seg : Z; it_full_seg_size : Z }.

Definition sync (st : Stack) : StackIterator := mkIterator (_cur_seg_size st) (_cur_seg st) (_full_seg_size st).
Definition it_is_empty (it : StackIterator) : bool := it_cur_seg it =? 0.

Definition next (st : Stack) (h : memory E) (it : StackIterator) : option (E * StackIterator) :=
  if it_cur_seg_size it =? 1 then
    x ← get_elem h (it_cur_seg it) 0;
    prev ← get_link h (it_cur_seg it);
    Some (x, mkIterator (_seg_size st) prev (u64 (it_full_seg_size it - _seg_size st)))
  else
    let n := u64 (it_cur_seg_size it - 1) in
    x ← get_elem h (it_cur_seg it) n;
    Some (x, mkIterator n (it_cur_seg it) (it_full_seg_size it)).

(** The loop of the clients: [while (!it.is_empty()) ... it.next()]. *)
Fixpoint iterate (fuel : nat) (st : Stack) (h : memory E) (it : StackIterator) : option (list E) :=
  if it_is_empty it then Some []
  else
    match fuel with
    | O => None
    | S fuel' => '(x, it) ← next st h it; xs ← iterate fuel' st h it; Some (x :: xs)
    end.
End Definitions.

(** ** Sizes *)

Lemma align_up_8 (x : Z) :
  0 <= x < 2 ^ 63 - 8 -> (8 | align_size_up x 8) /\ x <= align_size_up x 8 < x + 8 /\ ((8 | x) -> align_size_up x 8 = x).
Proof.
  intros Hx. rewrite align_size_up_eq by (done || lia). destruct (align_up_bounds 8 ltac:(lia) x) as [H1 H2].
  split; [done|]. split; [done|]. intros [y ->]. destruct H1 as [z Hz]. lia.
Qed.

(** The number of elements of a segment, rounded so that they fill whole words. *)
Lemma adjust_segment_size_ok (sizeof_E segment_size : Z) :
  (exists k, 0 <= k <= 3 /\ sizeof_E = 2 ^ k) \/ (0 < sizeof_E /\ (8 | sizeof_E)) ->
  1 <= segment_size -> segment_size * sizeof_E < 2 ^ 62 ->
  let n := adjust_segment_size sizeof_E segment_size in
  0 < sizeof_E /\ segment_size <= n < segment_size + 8 /\ n * sizeof_E < 2 ^ 62 + 8 /\ (8 | n * sizeof_E).
Proof.
  intros Hsz H1 Hb n. unfold n, adjust_segment_size, sizeof_ptr.
  destruct Hsz as [(k & Hk & Hp)|(Hpos & q & Hq)].
  - assert (Hc : sizeof_E = 1 \/ sizeof_E = 2 \/ sizeof_E = 4 \/ sizeof_E = 8).
    { assert (k = 0 \/ k = 1 \/ k = 2 \/ k = 3) as [->|[->|[->| ->]]] by lia; lia. }
    destruct (Z.ltb_spec sizeof_E 8) as [Hlt|Hge]; [|split; [lia|split; [lia|split; [lia|exists segment_size; lia]]]].
    rewrite umod_id by lia.
    destruct (align_up_8 (segment_size * sizeof_E) ltac:(lia)) as ([z Hz] & Hr & _).
    assert (Hd : align_size_up (segment_size * sizeof_E) 8 = align_size_up (segment_size * sizeof_E) 8 / sizeof_E * sizeof_E).
    { assert (Hw : exists w, 8 = w * sizeof_E) by (destruct Hc as [->|[->|[->| ->]]]; [by exists 8|by exists 4|by exists 2|by exists 1]).
      destruct Hw as [w Hw]. rewrite Hz. replace (z * 8) with (z * w * sizeof_E) by lia. rewrite Z.div_mul; lia. }
    set (m := align_size_up _ _ / sizeof_E) in *. split; [lia|]. rewrite <- Hd, Hz. split; [nia|]. split; [lia|by exists z].
  - destruct (Z.ltb_spec sizeof_E 8) as [Hlt|Hge]; [lia|].
    split; [lia|]. split; [lia|]. split; [lia|]. exists (segment_size * q). lia.
Qed.

(** ** Invariant *)

Section Invariant.
Context {E : Type} `{Allocator E}.
Implicit Types (st : Stack) (h : memory E) (items : list E).

(** The segments of a list, from the first one on. *)
Fixpoint chain (n : Z) h (p : Z) (addrs : list Z) : Prop :=
  match addrs with
  | [] => p = 0
  | a :: addrs =>
      p = a /\ a <> 0 /\ exists s, h !! a = Some s /\ zlen (elements s) = n /\ chain n h (link s) addrs
  end.

(** The elements of the segments, newest first: [k] of the first segment, all of
    the others. *)
Fixpoint items_of (n : nat) h (k : nat) (addrs : list Z) : list E :=
  match addrs with
  | [] => []
  | a :: addrs =>
      match h !! a with Some s => reverse (take k (elements s)) | None => [] end ++ items_of n h n addrs
  end.

Lemma chain_frame (n : Z) h h' (p : Z) (addrs : list Z) :
  (forall a, a ∈ addrs -> h' !! a = h !! a) -> chain n h p addrs -> chain n h' p addrs.
Proof.
  revert p. induction addrs as [|a addrs IH]; intros p Hf; cbn [chain]; [done|].
  intros (-> & Ha & s & Hs & Hl & Hc). split; [done|]. split; [done|]. exists s.
  rewrite Hf by constructor. split; [done|]. split; [done|]. apply IH; [|done]. intros b Hb. apply Hf. by constructor.
Qed.

Lemma items_of_frame (n : nat) h h' (k : nat) (addrs : list Z) :
  (forall a, a ∈ addrs -> elements <$> h' !! a = elements <$> h !! a) -> items_of n h' k addrs = items_of n h k addrs.
Proof.
  revert k. induction addrs as [|a addrs IH]; intros k Hf; cbn [items_of]; [done|].
  rewrite IH by (intros b Hb; apply Hf; by constructor). f_equal. specialize (Hf a ltac:(constructor)).
  destruct (h' !! a), (h !! a); cbn in Hf; try done. by injection Hf as ->.
Qed.

(** A stack with segments [curs] in use and segments [cachs] in its cache, which
    are all the segments it has. *)
Record segs st h (curs cachs : list Z) : Prop := {
  segs_seg_size : 1 <= _seg_size st < 2 ^ 64 /\ link_offset element_size st = _seg_size st * element_size /\ _seg_size st * element_size + sizeof_ptr < 2 ^ 64;
  segs_chain : chain (_seg_size st) h (_cur_seg st) curs;
  segs_cache : chain (_seg_size st) h (_cache st) cachs;
  segs_nodup : NoDup (curs ++ cachs);
  segs_dom : forall a, is_Some (h !! a) <-> a ∈ curs ++ cachs;
  segs_cache_size : _cache_size st = zlen cachs /\ zlen cachs <= _max_cache_size st < 2 ^ 64;
  segs_full_size : _full_seg_size st = Z.max 0 (zlen curs - 1) * _seg_size st /\ _full_seg_size st < 2 ^ 64;
}.

(** It holds the items, newest first. *)
Record rep st h items (curs cachs : list Z) : Prop := {
  rep_segs : segs st h curs cachs;
  rep_items : items = items_of (Z.to_nat (_seg_size st)) h (Z.to_nat (_cur_seg_size st)) curs;
  rep_cur_size : 1 <= _cur_seg_size st <= _seg_size st;
  rep_empty : curs = [] -> _cur_seg_size st = _seg_size st;
}.

Lemma chain_nil (n : Z) h (p : Z) (addrs : list Z) : chain n h p addrs -> p = 0 <-> addrs = [].
Proof. destruct addrs as [|a addrs]; cbn; [done|]. intros (-> & Ha & _). split; [lia|done]. Qed.

Lemma items_of_length (n : Z) h (p : Z) (k : Z) (addrs : list Z) :
  chain n h p addrs -> 0 <= k <= n ->
  zlen (items_of (Z.to_nat n) h (Z.to_nat k) addrs) = match addrs with [] => 0 | _ => k + (zlen addrs - 1) * n end.
Proof.
  revert p k. induction addrs as [|a addrs IH]; intros p k; cbn [chain items_of]; [done|].
  intros (-> & Ha & s & Hs & Hl & Hc) Hk. rewrite Hs, length_app, length_reverse, length_take, Nat2Z.inj_add.
  rewrite (IH _ n Hc) by lia. cbn [length]. destruct addrs; cbn [length]; lia.
Qed.

Lemma rep_length st h items curs cachs :
  rep st h items curs cachs ->
  zlen items = if is_empty st then 0 else _full_seg_size st + _cur_seg_size st.
Proof.
  intros [[H1 H2 H3 H4 H5 H6 [H9 _]] -> H7 H8]. pose proof (chain_nil _ _ _ _ H2) as Hn. unfold is_empty.
  rewrite (items_of_length _ _ _ _ _ H2) by lia.
  destruct curs as [|a curs]; [by rewrite (proj2 Hn eq_refl), Z.eqb_refl|].
  destruct (Z.eqb_spec (_cur_seg st) 0) as [Hz|_]; [by apply Hn in Hz|]. rewrite H9. cbn [length]. lia.
Qed.

(** *** The segments *)

Lemma set_link_ok h a s p : h !! a = Some s -> set_link h a p = Some (<[a := mkSegment (elements s) p]> h).
Proof. intros Hs. unfold set_link. by rewrite Hs. Qed.

Lemma chain_insert (n : Z) h (p a : Z) s (addrs : list Z) :
  a ∉ addrs -> chain n h p addrs -> chain n (<[a := s]> h) p addrs.
Proof.
  intros Ha. apply chain_frame. intros b Hb. apply lookup_insert_ne. by intros ->.
Qed.

Lemma chain_delete (n : Z) h (p a : Z) (addrs : list Z) :
  a ∉ addrs -> chain n h p addrs -> chain n (delete a h) p addrs.
Proof.
  intros Ha. apply chain_frame. intros b Hb. apply lookup_delete_ne. by intros ->.
Qed.

(** Linking a segment in front of a list. *)
Lemma chain_cons (n : Z) h (p a : Z) (els : list E) (addrs : list Z) :
  a ∉ addrs -> a <> 0 -> zlen els = n -> chain n h p addrs -> chain n (<[a := mkSegment els p]> h) a (a :: addrs).
Proof.
  intros Ha H0 Hl Hc. split; [done|]. split; [done|]. exists (mkSegment els p).
  rewrite lookup_insert_eq. split; [done|]. split; [done|]. by apply chain_insert.
Qed.

Lemma dom_insert h (a : Z) s (l l' : list Z) :
  (forall b, is_Some (h !! b) <-> b ∈ l) -> (forall b, b ∈ l' <-> b = a \/ b ∈ l) ->
  forall b, is_Some (<[a := s]> h !! b) <-> b ∈ l'.
Proof. intros Hd Hl b. rewrite lookup_insert_is_Some', Hl, Hd. naive_solver. Qed.

Lemma elements_insert h (a b : Z) s : a <> b -> elements <$> <[a := s]> h !! b = elements <$> h !! b.
Proof. intros Hn. by rewrite lookup_insert_ne. Qed.

Ltac fields := cbn [_seg_size _max_size _max_cache_size _cur_seg_size _full_seg_size _cache_size _cur_seg _cache].

Lemma push_segment_ok st h curs cachs :
  segs st h curs cachs -> zlen curs * _seg_size st < 2 ^ 64 ->
  exists st' h' a cachs', push_segment st h = Some (st', h') /\ segs st' h' (a :: curs) cachs' /\
    _cur_seg_size st' = 0 /\ _seg_size st' = _seg_size st /\ _max_size st' = _max_size st /\
    forall b, b ∈ curs -> elements <$> h' !! b = elements <$> h !! b.
Proof.
  intros [H1 H2 H3 H4 H5 [H6 H6'] [H7 H7']] Hb. pose proof (chain_nil _ _ _ _ H2) as Hn.
  assert (Hfull : u64 (_full_seg_size st + (if is_empty st then 0 else _seg_size st)) = zlen curs * _seg_size st).
  { unfold is_empty. rewrite H7. destruct (Z.eqb_spec (_cur_seg st) 0) as [Hz|Hz].
    - apply Hn in Hz as ->. cbn. by rewrite umod_id by lia.
    - destruct curs as [|c curs]; [by destruct Hz; apply Hn|]. cbn [length] in *. rewrite umod_id by lia. lia. }
  assert (Hnew : forall a els h' cachs' cache,
    a ∉ curs -> a <> 0 -> zlen els = _seg_size st -> h' = <[a := mkSegment els (_cur_seg st)]> h ->
    chain (_seg_size st) h cache cachs' -> NoDup (a :: curs ++ cachs') -> zlen cachs' <= zlen cachs ->
    (forall b, b ∈ a :: curs ++ cachs' <-> b = a \/ b ∈ curs ++ cachs) ->
    segs (mkStack (_seg_size st) (_max_size st) (_max_cache_size st) 0 (zlen curs * _seg_size st) (zlen cachs') a cache)
      h' (a :: curs) cachs').
  { intros a els h' cachs' cache Ha H0 Hl -> Hc Hnd Hle Hd. pose proof Hnd as [Hna _]%list.NoDup_cons. rewrite not_elem_of_app in Hna.
    split; fields; try done; [by apply chain_cons|apply chain_insert; [tauto|done]| |lia|cbn [length]; lia].
    intros b. cbn [app]. by rewrite (dom_insert h a _ (curs ++ cachs) (a :: curs ++ cachs')). }
  unfold push_segment. destruct (Z.ltb_spec 0 (_cache_size st)) as [Hpos|Hpos].
  - destruct cachs as [|a cachs]; [cbn in *; lia|]. destruct H3 as (Hca & H0 & s & Hs & Hl & Hc). unfold get_link.
    rewrite Hca, Hs. cbn [mbind option_bind]. rewrite (set_link_ok _ _ s) by done. cbn [mbind option_bind].
    rewrite Hfull. pose proof H4 as (_ & Hx & _)%list.NoDup_app. assert (Hac : a ∉ curs) by (intros Hin; apply (Hx a Hin); constructor).
    eexists _, _, a, cachs. split; [done|]. fields. split; [|split; [done|split; [done|split; [done|]]]].
    + rewrite H6. replace (u64 (zlen (a :: cachs) - 1)) with (zlen cachs) by (rewrite umod_id; cbn [length] in *; lia).
      apply (Hnew a (elements s)); try done; [|cbn [length]; lia|].
      * by rewrite Permutation_middle.
      * intros b. rewrite !elem_of_cons, !elem_of_app, elem_of_cons. tauto.
    + intros b Hbc. apply elements_insert. by intros ->.
  - set (bytes := segment_bytes element_size st). destruct (alloc_fresh h bytes) as [Hf H0]. set (a := alloc h bytes) in *. cbn [mbind option_bind].
    assert (Hnin : a ∉ curs ++ cachs) by (rewrite <- H5, Hf; by intros [? ?]).
    pose proof Hnin as Hnin2. rewrite not_elem_of_app in Hnin2.
    rewrite (set_link_ok _ _ (alloc_contents h bytes)) by apply lookup_insert_eq. cbn [mbind option_bind].
    rewrite Hfull, insert_insert_eq, H6.
    eexists _, _, a, cachs. split; [done|]. fields. split; [|split; [done|split; [done|split; [done|]]]].
    + apply (Hnew a (elements (alloc_contents h bytes))); try done; try tauto.
      * destruct H1 as (H1 & H1' & H1''). pose proof element_size_pos. assert (Hbytes : bytes = _seg_size st * element_size + sizeof_ptr) by (unfold bytes, segment_bytes; rewrite H1'; apply umod_id; unfold sizeof_ptr in *; nia).
        rewrite alloc_room, Hbytes by (unfold sizeof_ptr in *; nia). rewrite Z.add_simpl_r. by apply Z.div_mul; lia.
      * by constructor.
      * intros b. rewrite elem_of_cons. tauto.
    + intros b Hbc. apply elements_insert. intros ->. tauto.
Qed.

(** *** Elements *)

Lemma segs_top st h a curs cachs :
  segs st h (a :: curs) cachs ->
  _cur_seg st = a /\ a <> 0 /\ a ∉ curs /\ a ∉ cachs /\
  exists s, h !! a = Some s /\ zlen (elements s) = _seg_size st /\ chain (_seg_size st) h (link s) curs.
Proof.
  intros [H1 H2 H3 H4 H5 H6 H7]. destruct H2 as (Hc & H0 & s & Hs & Hl & Hr).
  apply list.NoDup_cons in H4 as [Hn _]. rewrite not_elem_of_app in Hn. repeat split; try tauto. by exists s.
Qed.

(** Storing into the current segment. *)
Lemma segs_update st h a curs cachs s els :
  segs st h (a :: curs) cachs -> h !! a = Some s -> length els = length (elements s) ->
  segs st (<[a := mkSegment els (link s)]> h) (a :: curs) cachs.
Proof.
  intros Hs Ha Hl. destruct (segs_top _ _ _ _ _ Hs) as (Hc & H0 & Hn1 & Hn2 & s' & Hs' & Hlen & Hch).
  rewrite Ha in Hs'. injection Hs' as <-. destruct Hs as [H1 H2 H3 H4 H5 H6 H7].
  split; try done; [rewrite Hc; apply chain_cons; [done|done|lia|done]|by apply chain_insert|].
  apply (dom_insert _ _ _ (a :: curs ++ cachs)); [done|]. intros b. cbn [app]. rewrite !elem_of_cons. tauto.
Qed.

Lemma segs_with_size st h curs cachs n : segs st h curs cachs -> segs (with_cur_seg_size st n) h curs cachs.
Proof. intros [H1 H2 H3 H4 H5 H6 H7]. by split. Qed.

Lemma take_insert_snoc {A} (l : list A) (i : nat) (x : A) : (i < length l)%nat -> take (S i) (<[i := x]> l) = take i l ++ [x].
Proof.
  intros Hi. rewrite (take_S_r _ _ x) by (by apply list_lookup_insert_eq). f_equal. apply take_insert_ge. lia.
Qed.

Lemma store_ok st h a curs cachs (i : Z) x :
  segs st h (a :: curs) cachs -> 0 <= i < _seg_size st ->
  exists h', set_elem h a i x = Some h' /\ segs st h' (a :: curs) cachs /\
    items_of (Z.to_nat (_seg_size st)) h' (Z.to_nat (i + 1)) (a :: curs)
      = x :: items_of (Z.to_nat (_seg_size st)) h (Z.to_nat i) (a :: curs).
Proof.
  intros Hs Hi. destruct (segs_top _ _ _ _ _ Hs) as (Hc & H0 & Hn1 & Hn2 & s & Ha & Hlen & Hch).
  unfold set_elem, zset. rewrite Ha. cbn [mbind option_bind]. rewrite bool_decide_true by lia. cbn [mbind option_bind].
  eexists. split; [done|]. split; [apply segs_update; [done|done|apply length_insert]|].
  cbn [items_of]. rewrite lookup_insert_eq, Ha. cbn [elements].
  replace (Z.to_nat (i + 1)) with (S (Z.to_nat i)) by lia.
  rewrite take_insert_snoc, reverse_snoc by lia. cbn [app]. f_equal. f_equal.
  apply items_of_frame. intros b Hb. apply elements_insert. by intros ->.
Qed.

Lemma push_ok st h items curs cachs x :
  rep st h items curs cachs -> zlen items < 2 ^ 64 ->
  exists st' h' curs' cachs', push st h x = Some (st', h') /\ rep st' h' (x :: items) curs' cachs' /\
    _seg_size st' = _seg_size st /\ _max_size st' = _max_size st.
Proof.
  intros Hr Hlt. pose proof (rep_length _ _ _ _ _ Hr) as Hlen. destruct Hr as [Hs Hit Hcur Hemp].
  pose proof (segs_full_size _ _ _ _ Hs) as [Hfull _]. pose proof (segs_seg_size _ _ _ _ Hs).
  pose proof (chain_nil _ _ _ _ (segs_chain _ _ _ _ Hs)) as Hnil. unfold push.
  destruct (Z.eqb_spec (_cur_seg_size st) (_seg_size st)) as [Heq|Hne].
  - assert (Hb : zlen curs * _seg_size st < 2 ^ 64).
    { destruct curs as [|a curs]; [cbn; lia|]. unfold is_empty in Hlen.
      destruct (Z.eqb_spec (_cur_seg st) 0) as [Hz|_]; [by apply Hnil in Hz|]. cbn [length] in *. lia. }
    destruct (push_segment_ok st h curs cachs Hs Hb) as (st1 & h1 & a & cachs' & -> & Hs1 & Hz & Hseg & Hmax & Hel).
    cbn [mbind option_bind]. destruct (segs_top _ _ _ _ _ Hs1) as (-> & _).
    destruct (store_ok st1 h1 a curs cachs' 0 x Hs1 ltac:(lia)) as (h2 & Hst & Hs2 & Hit2).
    rewrite Hz, Hst. cbn [mbind option_bind]. eexists _, _, (a :: curs), cachs'. split; [done|].
    split; [|done]. split; [by apply segs_with_size| | |done]; cbn [with_cur_seg_size _seg_size _cur_seg_size]; [|rewrite umod_id; lia].
    rewrite (umod_id 64 (0 + 1)), Hit2, Hit, Heq, Hseg by lia. f_equal. cbn [items_of].
    rewrite (items_of_frame _ h h1) by done. by destruct (h1 !! a).
  - destruct curs as [|a curs]; [by rewrite Hemp in Hne|]. destruct (segs_top _ _ _ _ _ Hs) as (Hca & _). cbn [mbind option_bind].
    rewrite Hca. destruct (store_ok st h a curs cachs (_cur_seg_size st) x Hs ltac:(lia)) as (h2 & -> & Hs2 & Hit2).
    cbn [mbind option_bind]. eexists _, _, (a :: curs), cachs. split; [done|]. split; [|done].
    split; [by apply segs_with_size| | |done]; cbn [with_cur_seg_size _seg_size _cur_seg_size]; rewrite umod_id by lia; [|lia].
    by rewrite Hit2, Hit.
Qed.

Lemma chain_nonzero (n : Z) h (p : Z) (addrs : list Z) : chain n h p addrs -> 0 ∉ addrs.
Proof.
  revert p. induction addrs as [|a addrs IH]; intros p; cbn [chain]; [by intros _ ?%elem_of_nil|].
  intros (-> & Ha & s & _ & _ & Hc) [He|Hin]%elem_of_cons; [by subst|]. by apply (IH _ Hc).
Qed.

Lemma pop_segment_ok st h a curs cachs :
  segs st h (a :: curs) cachs ->
  exists st' h' cachs', pop_segment st h = Some (st', h') /\ segs st' h' curs cachs' /\
    _cur_seg_size st' = _seg_size st /\ _seg_size st' = _seg_size st /\ _max_size st' = _max_size st /\
    forall b, b ∈ curs -> elements <$> h' !! b = elements <$> h !! b.
Proof.
  intros Hs. destruct (segs_top _ _ _ _ _ Hs) as (Hc & H0 & Hn1 & Hn2 & s & Ha & Hlen & Hch).
  destruct Hs as [H1 H2 H3 H4 H5 [H6 H6'] [H7 H7']]. pose proof (chain_nil _ _ _ _ Hch) as Hn.
  assert (Hfull : u64 (_full_seg_size st - (if link s =? 0 then 0 else _seg_size st)) = Z.max 0 (zlen curs - 1) * _seg_size st).
  { rewrite H7 in *. cbn [length] in *. destruct (Z.eqb_spec (link s) 0) as [Hz|Hz].
    - apply Hn in Hz as ->. cbn. rewrite umod_id; lia.
    - destruct curs as [|c curs]; [by destruct Hz; apply Hn|]. cbn [length] in *. rewrite umod_id by lia. lia. }
  assert (Hle : Z.max 0 (zlen curs - 1) * _seg_size st < 2 ^ 64) by (cbn [length] in *; lia).
  unfold pop_segment, get_link. rewrite Hc, Ha. cbn [mbind option_bind]. rewrite Hfull.
  destruct (Z.ltb_spec (_cache_size st) (_max_cache_size st)) as [Hlt|Hge].
  - rewrite (set_link_ok _ _ s) by done. cbn [mbind option_bind]. eexists _, _, (a :: cachs). split; [done|].
    fields. split; [|split; [done|split; [done|split; [done|]]]].
    + split; fields; try done; [by apply chain_insert|by apply chain_cons|by rewrite <- Permutation_middle| |].
      * apply (dom_insert _ _ _ (a :: curs ++ cachs)); [done|]. intros b.
        rewrite !elem_of_app, !elem_of_cons, elem_of_app. tauto.
      * rewrite umod_id by lia. cbn [length]. lia.
    + intros b Hb. apply elements_insert. by intros ->.
  - unfold free. rewrite Ha. cbn [mbind option_bind]. eexists _, _, cachs. split; [done|].
    fields. split; [|split; [done|split; [done|split; [done|]]]].
    + cbn [app] in H4. apply list.NoDup_cons in H4 as [Hna Hnd].
      split; fields; try done; [by apply chain_delete|by apply chain_delete|].
      intros b. rewrite lookup_delete_is_Some, H5. cbn [app]. rewrite elem_of_cons.
      split; [intros [? [?|?]]; [congruence|done]|]. intros Hb. split; [by intros ->|by right].
    + intros b Hb. rewrite lookup_delete_ne; [done|]. by intros ->.
Qed.

Lemma take_S_nth {A} (l : list A) (i : nat) : (i < length l)%nat -> exists x, l !! i = Some x /\ take (S i) l = take i l ++ [x].
Proof. intros Hi. destruct (lookup_lt_is_Some_2 l i Hi) as [x Hx]. exists x. split; [done|]. by apply take_S_r. Qed.

(** Reading the newest element. *)
Lemma load_ok st h a curs cachs (i : Z) :
  segs st h (a :: curs) cachs -> 0 <= i < _seg_size st ->
  exists x, get_elem h a i = Some x /\
    items_of (Z.to_nat (_seg_size st)) h (Z.to_nat (i + 1)) (a :: curs)
      = x :: items_of (Z.to_nat (_seg_size st)) h (Z.to_nat i) (a :: curs).
Proof.
  intros Hs Hi. destruct (segs_top _ _ _ _ _ Hs) as (_ & _ & _ & _ & s & Ha & Hlen & _).
  destruct (take_S_nth (elements s) (Z.to_nat i) ltac:(lia)) as (x & Hx & Ht). exists x.
  unfold get_elem, zget. rewrite Ha. cbn [mbind option_bind]. rewrite bool_decide_true by lia. split; [done|].
  cbn [items_of]. rewrite Ha. replace (Z.to_nat (i + 1)) with (S (Z.to_nat i)) by lia. by rewrite Ht, reverse_snoc.
Qed.

Lemma pop_ok st h items curs cachs x :
  rep st h (x :: items) curs cachs ->
  exists st' h' curs' cachs', pop st h = Some (x, st', h') /\ rep st' h' items curs' cachs' /\
    _seg_size st' = _seg_size st /\ _max_size st' = _max_size st.
Proof.
  intros [Hs Hit Hcur Hemp]. pose proof (segs_seg_size _ _ _ _ Hs). destruct curs as [|a curs]; [done|].
  destruct (segs_top _ _ _ _ _ Hs) as (Hca & _).
  destruct (load_ok st h a curs cachs (_cur_seg_size st - 1) Hs ltac:(lia)) as (y & Hy & Hld).
  replace (_cur_seg_size st - 1 + 1) with (_cur_seg_size st) in Hld by lia.
  rewrite Hld in Hit. injection Hit as <- Hit. unfold pop, with_cur_seg_size. fields. rewrite Hca, umod_id, Hy by lia.
  cbn [mbind option_bind]. destruct (Z.eqb_spec (_cur_seg_size st) 1) as [Heq|Hne].
  - rewrite Heq in *. destruct (pop_segment_ok _ h a curs cachs (segs_with_size _ _ _ _ 0 Hs)) as (st1 & h1 & cachs' & Hp & Hs1 & Hz & Hseg & Hmax & Hel).
    unfold with_cur_seg_size in Hp. rewrite Hca in Hp. change (1 - 1) with 0. rewrite Hp. cbn [mbind option_bind].
    eexists _, _, curs, cachs'. split; [done|]. split; [|done]. cbn in Hz, Hseg. split; [done| |lia|lia].
    rewrite Hz, Hseg, (items_of_frame _ h h1) by done. rewrite Hit. cbn [items_of]. by destruct (h !! a).
  - eexists _, _, (a :: curs), cachs. split; [by rewrite <- Hca|]. split; [|done]. rewrite Hca.
    split; fields; [|done|lia|done]. pose proof (segs_with_size _ _ _ _ (_cur_seg_size st - 1) Hs) as Hw.
    unfold with_cur_seg_size in Hw. by rewrite Hca in Hw.
Qed.

Lemma pop_empty st h curs cachs : rep st h [] curs cachs -> pop st h = None.
Proof.
  intros Hr. pose proof (rep_length _ _ _ _ _ Hr) as Hl. destruct Hr as [Hs Hit Hcur Hemp].
  pose proof (segs_full_size _ _ _ _ Hs) as [Hf _]. pose proof (segs_seg_size _ _ _ _ Hs). unfold is_empty in Hl.
  assert (Hpos : 0 <= _full_seg_size st) by (rewrite Hf; apply Z.mul_nonneg_nonneg; lia).
  destruct (Z.eqb_spec (_cur_seg st) 0) as [Hz|Hz]; [|cbn in Hl; lia].
  assert (Hnone : h !! 0 = None).
  { destruct (h !! 0) eqn:Hx; [|done]. destruct Hs as [S1 S2 S3 S4 S5 S6 S7].
    assert (Hin : 0 ∈ curs ++ cachs) by (apply S5; by rewrite Hx).
    apply elem_of_app in Hin as [?|?]; [by apply chain_nonzero in S2|by apply chain_nonzero in S3]. }
  unfold pop, get_elem, with_cur_seg_size. fields. rewrite Hz, Hnone. by destruct (_cur_seg_size st =? 1).
Qed.

(** *** Freeing and iterating *)

Lemma free_segments_ok (n : Z) (fuel : nat) h (p : Z) (addrs : list Z) :
  chain n h p addrs -> NoDup addrs -> (length addrs <= fuel)%nat ->
  exists h', free_segments fuel h p = Some h' /\ forall b, h' !! b = if bool_decide (b ∈ addrs) then None else h !! b.
Proof.
  revert h p addrs. induction fuel as [|fuel IH]; intros h p [|a addrs] Hc Hn Hf; cbn [length] in *; try lia;
    [cbn in *; subst; exists h; by split..|].
  destruct Hc as (-> & H0 & s & Hs & Hl & Hc). cbn [free_segments]. destruct (Z.eqb_spec a 0); [done|].
  unfold get_link, free. rewrite Hs. cbn [mbind option_bind]. apply list.NoDup_cons in Hn as [Hna Hnd].
  destruct (IH (delete a h) (link s) addrs) as (h' & Hr & Hh); [by apply chain_delete|done|lia|].
  exists h'. split; [done|]. intros b. rewrite Hh. destruct (decide (b = a)) as [->|Hne].
  - rewrite lookup_delete_eq, bool_decide_false, bool_decide_true by (done || constructor). done.
  - rewrite lookup_delete_ne by done. rewrite (bool_decide_ext (b ∈ addrs) (b ∈ a :: addrs)); [done|].
    rewrite elem_of_cons. tauto.
Qed.

Lemma segments_bound h (l : list Z) :
  NoDup l -> (forall a, a ∈ l -> is_Some (h !! a)) -> (length l <= base.size h)%nat.
Proof.
  intros Hn Hin. rewrite <- (size_list_to_set (C := gset Z) l) by done. rewrite <- size_dom.
  apply subseteq_size. intros a Ha%elem_of_list_to_set. apply elem_of_dom. by apply Hin.
Qed.

Lemma clear_ok st h items curs cachs (clear_cache : bool) :
  rep st h items curs cachs ->
  exists h', clear st h clear_cache = Some (reset st clear_cache, h') /\
    rep (reset st clear_cache) h' [] [] (if clear_cache then [] else cachs) /\ (clear_cache = true -> h' = ∅).
Proof.
  intros [[S1 S2 S3 S4 S5 S6 S7] _ _ _]. pose proof S4 as (Hn1 & Hdis & Hn2)%list.NoDup_app. unfold clear.
  destruct (free_segments_ok _ (S (base.size h)) h _ curs S2 Hn1) as (h1 & -> & Hh1).
  { apply le_S, segments_bound; [done|]. intros a Ha. apply S5, elem_of_app. by left. }
  cbn [mbind option_bind]. assert (Hc1 : chain (_seg_size st) h1 (_cache st) cachs).
  { apply (chain_frame _ h); [|done]. intros a Ha. rewrite Hh1, bool_decide_false; [done|]. intros Hin. by apply (Hdis a). }
  assert (Hd1 : forall b, is_Some (h1 !! b) <-> b ∈ cachs).
  { intros b. rewrite Hh1. case_bool_decide as Hb; [split; [by intros [? ?]|intros Hx; by destruct (Hdis b Hb)]|].
    rewrite S5, elem_of_app. tauto. }
  destruct clear_cache.
  - destruct (free_segments_ok _ (S (base.size h1)) h1 _ cachs Hc1 Hn2) as (h2 & -> & Hh2).
    { apply le_S, segments_bound; [done|]. intros a Ha. by apply Hd1. }
    cbn [mbind option_bind]. assert (h2 = ∅) as ->.
    { apply map_eq. intros b. rewrite Hh2, lookup_empty. case_bool_decide as Hb; [done|].
      destruct (h1 !! b) eqn:He; [|done]. destruct Hb. apply Hd1. by rewrite He. }
    exists ∅. split; [done|]. split; [|done]. split; cbn; [split; cbn; try done; try lia; [by apply list.NoDup_nil|]|done|lia|done].
    intros b. rewrite lookup_empty, elem_of_nil. split; [by intros [? ?]|done].
  - exists h1. split; [done|]. split; [|done]. split; cbn; [split; cbn; try done; lia|done|lia|done].
Qed.

Lemma iterate_ok st h (fuel : nat) (it : StackIterator) (addrs : list Z) :
  chain (_seg_size st) h (it_cur_seg it) addrs -> 1 <= it_cur_seg_size it <= _seg_size st -> _seg_size st < 2 ^ 64 ->
  (length (items_of (Z.to_nat (_seg_size st)) h (Z.to_nat (it_cur_seg_size it)) addrs) <= fuel)%nat ->
  iterate fuel st h it = Some (items_of (Z.to_nat (_seg_size st)) h (Z.to_nat (it_cur_seg_size it)) addrs).
Proof.
  revert it addrs. induction fuel as [|fuel IH]; intros [n p full] addrs Hc Hn Hmax; cbn [it_cur_seg it_cur_seg_size] in *;
    (destruct addrs as [|a addrs]; [cbn in Hc; subst; done|]);
    destruct Hc as (-> & H0 & s & Hs & Hl & Hc); cbn [items_of]; rewrite Hs;
    destruct (take_S_nth (elements s) (Z.to_nat (n - 1)) ltac:(lia)) as (x & Hx & Ht);
    replace (S (Z.to_nat (n - 1))) with (Z.to_nat n) in Ht by lia; rewrite Ht, reverse_snoc; cbn [app length]; [lia|].
  intros Hf. cbn [iterate]. unfold it_is_empty. cbn [it_cur_seg]. destruct (Z.eqb_spec a 0); [done|].
  unfold next, get_elem, get_link, zget. cbn [it_cur_seg it_cur_seg_size it_full_seg_size]. rewrite Hs. cbn [mbind option_bind].
  destruct (Z.eqb_spec n 1) as [->|Hne].
  - change (Z.to_nat (1 - 1)) with 0%nat in *. rewrite bool_decide_true by lia. change (Z.to_nat 0) with 0%nat. rewrite Hx. cbn [mbind option_bind]. rewrite take_0, reverse_nil in *. cbn [app] in *.
    rewrite (IH _ addrs); cbn [it_cur_seg it_cur_seg_size]; [done|done|lia|done|lia].
  - rewrite umod_id, bool_decide_true, Hx by lia. cbn [mbind option_bind].
    rewrite (IH _ (a :: addrs)); cbn [it_cur_seg it_cur_seg_size items_of]; rewrite ?Hs; [done| |lia|done|lia].
    split; [done|]. split; [done|]. by exists s.
Qed.

Lemma is_empty_ok st h items curs cachs : rep st h items curs cachs -> is_empty st = bool_decide (items = []).
Proof.
  intros Hr. pose proof (rep_length _ _ _ _ _ Hr) as Hl. destruct Hr as [Hs _ Hcur _].
  pose proof (segs_full_size _ _ _ _ Hs) as [Hf _]. pose proof (segs_seg_size _ _ _ _ Hs).
  assert (0 <= _full_seg_size st) by (rewrite Hf; apply Z.mul_nonneg_nonneg; lia).
  destruct (is_empty st), items; cbn [length] in Hl; try lia; done.
Qed.

(** *** Sizes *)

Lemma adjust_max_size_ok (max_size seg_size : Z) :
  1 <= seg_size < 2 ^ 63 -> 0 <= max_size < 2 ^ 64 ->
  (seg_size | adjust_max_size max_size seg_size) /\ 0 < adjust_max_size max_size seg_size < 2 ^ 64 /\
  (0 < max_size <= 2 ^ 64 - seg_size -> max_size <= adjust_max_size max_size seg_size < max_size + seg_size).
Proof.
  intros Hs Hm. unfold adjust_max_size, max_uintx. rewrite (umod_id 64 (2 ^ 64 - 1 - (seg_size - 1))) by lia.
  set (m := if (max_size =? 0) || _ then _ else _).
  assert (Hb : 1 <= m <= 2 ^ 64 - seg_size /\ (0 < max_size <= 2 ^ 64 - seg_size -> m = max_size)).
  { subst m. destruct (Z.eqb_spec max_size 0), (Z.ltb_spec (2 ^ 64 - 1 - (seg_size - 1)) max_size); cbn [orb]; lia. }
  destruct Hb as [Hb He]. clearbody m. rewrite (umod_id 64 (m + seg_size - 1)) by lia.
  pose proof (Z.div_mod (m + seg_size - 1) seg_size ltac:(lia)). pose proof (Z.mod_pos_bound (m + seg_size - 1) seg_size ltac:(lia)).
  set (q := (m + seg_size - 1) / seg_size) in *. rewrite umod_id by lia.
  split; [by exists q|]. split; [lia|]. intros Hr. specialize (He Hr). lia.
Qed.

Lemma new_stack_ok (segment_size max_cache_size max_size : Z) :
  (exists k, 0 <= k <= 3 /\ element_size = 2 ^ k) \/ (0 < element_size /\ (8 | element_size)) ->
  1 <= segment_size -> segment_size * element_size < 2 ^ 62 -> 0 <= max_cache_size < 2 ^ 64 ->
  rep (new_stack element_size segment_size max_cache_size max_size) ∅ [] [] [].
Proof.
  intros Hsz H1 Hb Hc. destruct (adjust_segment_size_ok _ _ Hsz H1 Hb) as (Hpos & Hr & Hlt & Hd). set (n := adjust_segment_size element_size segment_size) in *.
  assert (Hs : 1 <= n < 2 ^ 64 /\ align_size_up (u64 (n * element_size)) sizeof_ptr = n * element_size /\ n * element_size + sizeof_ptr < 2 ^ 64).
  { assert (n <= n * element_size) by nia. rewrite umod_id by lia. split; [lia|]. split; [by apply (align_up_8 (n * element_size)); [lia|]|unfold sizeof_ptr; lia]. }
  split; cbn; [split; cbn; try done; try lia; [by apply list.NoDup_nil|]|done|lia|done].
  intros b. rewrite lookup_empty, elem_of_nil. split; [by intros [? ?]|done].
Qed.
End Invariant.

(** ** Properties *)

(** C10: A stack of linked segments behaves as a list of its items, newest first.
    It starts empty; [push] adds an item and [pop] returns and removes the newest
    one, or reads through [NULL] if there is none; [size], [is_empty] and the
    iterator see the list; [clear] empties it.  The segments in use and those in
    the cache are distinct and are all the memory the stack has, so nothing is
    leaked: when the cache is cleared too, no segment is left. *)
Theorem stack_refines_list {E} `{Allocator E} (st : Stack) (h : memory E) (items : list E) (curs cachs : list Z) :
  rep st h items curs cachs -> zlen items < 2 ^ 64 ->
  (forall x, exists st' h' curs' cachs', push st h x = Some (st', h') /\ rep st' h' (x :: items) curs' cachs') /\
  match items with
  | [] => pop st h = None
  | x :: items' => exists st' h' curs' cachs', pop st h = Some (x, st', h') /\ rep st' h' items' curs' cachs'
  end /\
  size st = zlen items /\ is_empty st = bool_decide (items = []) /\
  iterate (length items) st h (sync st) = Some items /\
  (forall clear_cache, exists h' cachs', clear st h clear_cache = Some (reset st clear_cache, h') /\
     rep (reset st clear_cache) h' [] [] cachs' /\ (clear_cache = true -> h' = ∅)).
Proof.
  intros Hr Hlt. pose proof (rep_length _ _ _ _ _ Hr) as Hl. split; [|split; [|split; [|split; [|split]]]].
  - intros x. destruct (push_ok _ _ _ _ _ x Hr Hlt) as (st' & h' & curs' & cachs' & H1 & H2 & _). by exists st', h', curs', cachs'.
  - destruct items as [|x items]; [by apply (pop_empty _ _ _ _ Hr)|].
    destruct (pop_ok _ _ _ _ _ _ Hr) as (st' & h' & curs' & cachs' & H1 & H2 & _). by exists st', h', curs', cachs'.
  - unfold size. destruct (is_empty st); [done|]. rewrite umod_id; [done|]. lia.
  - by apply (is_empty_ok _ _ _ _ _ Hr).
  - destruct Hr as [Hs Hit Hcur _]. pose proof (segs_seg_size _ _ _ _ Hs) as [[_ Hm] _]. rewrite Hit at 2. rewrite Hit at 1.
    apply (iterate_ok st h _ (sync st)); [apply (segs_chain _ _ _ _ Hs)|done|done|done].
  - intros cc. destruct (clear_ok _ _ _ _ _ cc Hr) as (h' & H1 & H2 & H3). by exists h', (if cc then [] else cachs).
Qed.

(** An allocator that takes the address above all others. *)
Definition next_address {E} (h : memory E) : Z := map_fold (fun a _ m => Z.max (a + 1) m) 1 h.

Lemma next_address_ok {E} (h : memory E) : 1 <= next_address h /\ forall a, is_Some (h !! a) -> a < next_address h.
Proof.
  apply (map_fold_weak_ind (fun m (h : memory E) => 1 <= m /\ forall a, is_Some (h !! a) -> a < m)).
  - split; [lia|]. intros a. rewrite lookup_empty. by intros [? ?].
  - intros a s h' m Ha [H1 H2]. split; [lia|]. intros b Hb%lookup_insert_is_Some'. destruct Hb as [->|Hb]; [lia|].
    specialize (H2 b Hb). lia.
Qed.

#[refine] Instance sample_allocator : Allocator Z := {
  element_size := 8;
  alloc h _ := next_address h;
  alloc_contents _ bytes := mkSegment (replicate (Z.to_nat ((bytes - sizeof_ptr) / 8)) 0) 0;
}.
Proof.
  - lia.
  - intros h n. destruct (next_address_ok h) as [H1 H2]. split; [|lia].
    destruct (h !! next_address h) eqn:He; [|done]. specialize (H2 (next_address h) ltac:(by rewrite He)). lia.
  - intros h n Hn. cbn [elements]. rewrite length_replicate, Z2Nat.id; [done|]. apply Z.div_pos; lia.
Defined.

Lemma stack_refines_list_witness :
  exists h', clear (new_stack 8 2 4 2) ∅ true = Some (reset (new_stack 8 2 4 2) true, h') /\ (true = true -> h' = (∅ : memory Z)).
Proof.
  destruct (stack_refines_list (new_stack 8 2 4 2) (∅ : memory Z) [] [] []) as (_ & _ & _ & _ & _ & H);
    [change (new_stack 8 2 4 2) with (new_stack (element_size (E := Z)) 2 4 2); apply new_stack_ok; [left; exists 3; split; [lia|reflexivity]|lia|reflexivity|lia]|vm_compute; reflexivity|].
  destruct (H true) as (h' & cachs' & H1 & _ & H3). exists h'. split; [exact H1|exact H3].
Defined.

(** The sizes a stack computes: the maximum is rounded up to whole segments
    without overflow; a segment has room for the requested elements, and its link
    field starts right behind them at a multiple of the size of a pointer. *)
Lemma stack_sizes (sizeof_E segment_size max_cache_size max_size : Z) :
  (exists k, 0 <= k <= 3 /\ sizeof_E = 2 ^ k) \/ (0 < sizeof_E /\ (8 | sizeof_E)) ->
  1 <= segment_size -> segment_size * sizeof_E < 2 ^ 62 -> 0 <= max_size < 2 ^ 64 ->
  let st := new_stack sizeof_E segment_size max_cache_size max_size in
  segment_size <= _seg_size st < segment_size + 8 /\
  link_offset sizeof_E st = _seg_size st * sizeof_E /\ (8 | link_offset sizeof_E st) /\
  segment_bytes sizeof_E st = _seg_size st * sizeof_E + 8 /\
  (_seg_size st | _max_size st) /\ 0 < _max_size st < 2 ^ 64 /\
  (0 < max_size <= 2 ^ 64 - _seg_size st -> max_size <= _max_size st < max_size + _seg_size st).
Proof.
  intros Hsz H1 Hb Hm st. destruct (adjust_segment_size_ok _ _ Hsz H1 Hb) as (Hpos & Hr & Hlt & Hd).
  assert (Hseg : _seg_size st = adjust_segment_size sizeof_E segment_size) by done.
  set (n := adjust_segment_size sizeof_E segment_size) in *.
  assert (Hn : n <= n * sizeof_E) by nia.
  assert (Hoff : link_offset sizeof_E st = n * sizeof_E).
  { unfold link_offset, sizeof_ptr. rewrite Hseg, umod_id by lia. by apply (align_up_8 (n * sizeof_E)); [lia|]. }
  destruct (adjust_max_size_ok max_size n ltac:(lia) Hm) as (M1 & M2 & M3).
  split; [by rewrite Hseg|]. split; [by rewrite Hoff, Hseg|]. split; [by rewrite Hoff|].
  split; [|by rewrite Hseg]. unfold segment_bytes, sizeof_ptr. rewrite Hoff, Hseg. apply umod_id. lia.
Qed.

Lemma stack_sizes_witness :
  let st := new_stack 2 5 4 0 in link_offset 2 st = _seg_size st * 2.
Proof.
  refine (proj1 (proj2 (stack_sizes 2 5 4 0 _ _ _ _))); [left; exists 1|..]; lia.
Defined.

(** [is_full] does not say that the stack has reached its maximum.  Of a stack
    with one segment of two elements and a maximum size of two, [is_full] is false
    when two items are in it; a third [push] is accepted, and then more than the
    maximum is in it. *)
Lemma is_full_is_late :
  exists st h st' h', let new := new_stack 8 2 4 2 in
    ('(st, h) ← push new ∅ 10; push st h 20) = Some (st, h) /\
    _max_size st = 2 /\ size st = 2 /\ is_full st = false /\
    push st h 30 = Some (st', h') /\ size st' = 3.
Proof.
  assert (Hb : match ('(st, h) ← push (new_stack 8 2 4 2) ∅ 10; push st h 20) with
               | Some (st, h) =>
                   (_max_size st =? 2) && (size st =? 2) && negb (is_full st) &&
                   match push st h 30 with Some (st', _) => size st' =? 3 | None => false end
               | None => false
               end = true) by (vm_compute; reflexivity).
  destruct ('(st, h) ← push (new_stack 8 2 4 2) ∅ 10; push st h 20) as [[st h]|] eqn:H1; [|done].
  rewrite !andb_true_iff, !Z.eqb_eq, negb_true_iff in Hb. destruct Hb as [[[H2 H3] H4] H5].
  destruct (push st h 30) as [[st' h']|] eqn:H6; [|done]. apply Z.eqb_eq in H5. exists st, h, st', h'. by cbn zeta.
Qed.
