(* ===== verification/WorkStealing.v ===== *)
(** Sets of work-stealing queues and the termination protocol of
    utilities/taskqueue.hpp and taskqueue.cpp: the random choice of a victim,
    stealing from the larger of two queues, queues with an overflow stack, and
    [ParallelTaskTerminator]. *)

From Stdlib Require Import Znumtheory Zpow_facts.
From S2P Require Import Prelude Stack TaskQueue.

(** ** Definitions *)

(** *** TaskQueueSetSuper *)

(** The new seed, which is also the result. *)
Definition randomParkAndMiller (seed0 : Z) : Z :=
  let a := 16807 in
  let m := 2147483647 in
  let q := 127773 in
  let r := 2836 in
  let seed := seed0 in
  let hi := Z.quot seed q in
  let lo := Z.rem seed q in
  let test := s32 (s32 (a * lo) - s32 (r * hi)) in
  if 0 <? test then test else s32 (test + m).

(** *** GenericTaskQueueSet *)

Section QueueSet.
Context (N : Z) {E : Type}.

Definition register_queue (queues : list (@TaskQueue E)) (i : Z) (q : TaskQueue) : option (list TaskQueue) :=
  zset queues i q.
Definition queue_at (queues : list (@TaskQueue E)) (i : Z) : option TaskQueue := zget queues i.





Fixpoint set_peek (queues : list (@TaskQueue E)) : bool :=
  match queues with
  | [] => false
  | q :: queues => if peek q then true else set_peek queues
  end.

(** *** OverflowTaskQueue *)

Context `{Allocator E}.

Record OverflowTaskQueue := mkOverflow { taskqueue : @TaskQueue E; overflow_stack : Stack; overflow_memory : memory E }.

Definition overflow_push (o : OverflowTaskQueue) (t : E) : option (OverflowTaskQueue * bool) :=
  '(q, ev) ← push N (taskqueue o) t;
  match ev with
  | Push _ => Some (mkOverflow q (overflow_stack o) (overflow_memory o), true)
  | _ =>
      '(st, h) ← Stack.push (overflow_stack o) (overflow_memory o) t;
      Some (mkOverflow q st h, true)
  end.

Definition overflow_empty (o : OverflowTaskQueue) : bool := Stack.is_empty (overflow_stack o).
Definition taskqueue_empty (o : OverflowTaskQueue) : bool := is_empty N (taskqueue o).
Definition overflow_is_empty (o : OverflowTaskQueue) : bool := taskqueue_empty o && overflow_empty o.

Definition pop_overflow (o : OverflowTaskQueue) : option (OverflowTaskQueue * option E) :=
  if overflow_empty o then Some (o, None)
  else
    '(t, st, h) ← pop (overflow_stack o) (overflow_memory o);
    Some (mkOverflow (taskqueue o) st h, Some t).

Definition try_push_to_taskqueue (o : OverflowTaskQueue) (t : E) : option (OverflowTaskQueue * bool) :=
  '(q, ev) ← push N (taskqueue o) t;
  Some (mkOverflow q (overflow_stack o) (overflow_memory o), match ev with Push _ => true | _ => false end).
End QueueSet.

(** *** ParallelTaskTerminator *)

(** The flags of the waiting loop. *)
Record spin_flags := mkSpinFlags {
  WorkStealingHardSpins : Z; WorkStealingSpinToYieldRatio : Z; WorkStealingYieldsBeforeSleep : Z;
}.

(** The local variables of [offer_termination]. *)
Record spin_state := mkSpin { yield_count : Z; hard_spin_count : Z; hard_spin_limit : Z; hard_spin_start : Z }.

Definition spin_init (f : spin_flags) : spin_state :=
  let hard_spin_limit := u32 (WorkStealingHardSpins f) in
  let hard_spin_limit :=
    if 0 <? WorkStealingSpinToYieldRatio f
    then Z.max (u32 (Z.shiftr (WorkStealingHardSpins f) (WorkStealingSpinToYieldRatio f))) 1
    else hard_spin_limit in
  mkSpin 0 0 hard_spin_limit hard_spin_limit.

(** What a thread does while it waits: [SpinPause] a number of times, [yield] or
    [sleep]. *)
Inductive pause := SpinPause (n : Z) | Yield | Sleep.

Definition spin (f : spin_flags) (s : spin_state) : spin_state * pause :=
  if yield_count s <=? WorkStealingYieldsBeforeSleep f then
    let yield_count := u32 (yield_count s + 1) in
    if WorkStealingSpinToYieldRatio f <? hard_spin_count s then
      (mkSpin yield_count 0 (hard_spin_start s) (hard_spin_start s), Yield)
    else
      let hard_spin_limit := Z.min (u32 (2 * hard_spin_limit s)) (u32 (WorkStealingHardSpins f)) in
      (mkSpin yield_count (u32 (hard_spin_count s + 1)) hard_spin_limit (hard_spin_start s), SpinPause hard_spin_limit)
  else (mkSpin 0 (hard_spin_count s) (hard_spin_limit s) (hard_spin_start s), Sleep).

(** Where a thread is: at work with a number of tasks in hand, in
    [offer_termination] before the test of [_offered_termination], before the look
    for more work, before the decrement, or after the return of true. *)
Inductive worker := Working (tasks : nat) | Testing | Peeking | Leaving | Terminated.
#[export] Instance worker_eq_dec : EqDecision worker.
Proof. solve_decision. Defined.

Record terminator := mkTerminator { _n_threads : Z; _offered_termination : Z }.

(** [offer_termination] up to the loop, the test, the look for work (with the answer
    of [peek_in_queue_set() || should_exit_termination()]), and the decrement. *)
Definition offer_begin (t : terminator) : terminator * worker :=
  (mkTerminator (_n_threads t) (_offered_termination t + 1), Testing).
Definition offer_test (t : terminator) : worker :=
  if _offered_termination t =? _n_threads t then Terminated else Peeking.
Definition offer_peek (more_work : bool) : worker := if more_work then Leaving else Testing.
Definition offer_leave (t : terminator) : terminator * worker :=
  (mkTerminator (_n_threads t) (_offered_termination t - 1), Working 0).

Definition reset_for_reuse (t : terminator) : terminator :=
  if negb (_offered_termination t =? 0) then mkTerminator (_n_threads t) 0 else t.
Definition reset_for_reuse_n (t : terminator) (n_threads : Z) : terminator :=
  mkTerminator n_threads (_offered_termination (reset_for_reuse t)).

(** ** The random numbers *)

Definition pm_m : Z := 2147483647.
Definition pm_a : Z := 16807.
Definition seed_ok (seed : Z) : Prop := 1 <= seed <= pm_m - 1.

Lemma pm_test_nonzero (hi lo : Z) :
  0 <= lo < 127773 -> 0 <= hi <= 16807 -> 0 < 127773 * hi + lo < pm_m -> 16807 * lo - 2836 * hi <> 0.
Proof.
  unfold pm_m. intros Hlo Hhi Hs He.
  assert (Hd : (16807 | hi)).
  { apply (Gauss 16807 2836); [exists lo; lia|]. apply bezout_rel_prime, (Bezout_intro _ _ _ (-977) 5790). reflexivity. }
  destruct Hd as [z Hz]. assert (z = 0 \/ z = 1) as [->| ->] by lia; lia.
Qed.

(** Schrage's decomposition computes the product modulo 2^31 - 1 in 32 bits. *)
Lemma randomParkAndMiller_eq (seed : Z) :
  seed_ok seed -> randomParkAndMiller seed = (pm_a * seed) mod pm_m /\ seed_ok (randomParkAndMiller seed).
Proof.
  unfold seed_ok, pm_m, pm_a. intros Hs. unfold randomParkAndMiller.
  rewrite Z.quot_div_nonneg, Z.rem_mod_nonneg by lia.
  pose proof (Z.div_mod seed 127773 ltac:(lia)) as Hd. pose proof (Z.mod_pos_bound seed 127773 ltac:(lia)) as Hlo.
  set (hi := seed / 127773) in *. set (lo := seed mod 127773) in *.
  assert (Hhi : 0 <= hi <= 16807) by lia.
  pose proof (pm_test_nonzero hi lo Hlo Hhi ltac:(unfold pm_m; lia)) as Hne.
  rewrite (smod_id 32 (16807 * lo)), (smod_id 32 (2836 * hi)), (smod_id 32 (_ - _)) by (pow2_norm; lia).
  destruct (Z.ltb_spec 0 (16807 * lo - 2836 * hi)).
  - split; [|lia]. apply (Z.mod_unique_pos _ _ hi); lia.
  - rewrite smod_id by (pow2_norm; lia). split; [|lia]. apply (Z.mod_unique_pos _ _ (hi - 1)); lia.
Qed.

(** *** The period

    2^31 - 1 is prime and 16807 generates its residues, so the generator runs
    through all numbers from 1 to 2^31 - 2. *)

(** No divisor [d] with [2 <= d < 2 + n]; and the same for the numbers around the
    multiples of 6. *)
Fixpoint trial (p : Z) (n : nat) (d : Z) : bool :=
  match n with O => true | S n' => if p mod d =? 0 then false else trial p n' (d + 1) end.
Fixpoint trial6 (p : Z) (n : nat) (d : Z) : bool :=
  match n with
  | O => true
  | S n' => if p mod d =? 0 then false else if p mod (d + 2) =? 0 then false else trial6 p n' (d + 6)
  end.

Lemma trial_spec (p : Z) (n : nat) (d e : Z) :
  trial p n d = true -> d <= e < d + Z.of_nat n -> p mod e <> 0.
Proof.
  revert d. induction n as [|n IH]; intros d; cbn [trial]; [lia|].
  destruct (Z.eqb_spec (p mod d) 0); [done|]. intros Ht He. destruct (Z.eq_dec e d) as [->|]; [done|].
  apply (IH (d + 1)); [done|lia].
Qed.

Lemma trial6_spec (p : Z) (n : nat) (d j : Z) :
  trial6 p n d = true -> 0 <= j < Z.of_nat n -> p mod (d + 6 * j) <> 0 /\ p mod (d + 6 * j + 2) <> 0.
Proof.
  revert d j. induction n as [|n IH]; intros d j; cbn [trial6]; [lia|].
  destruct (Z.eqb_spec (p mod d) 0); [done|]. destruct (Z.eqb_spec (p mod (d + 2)) 0); [done|]. intros Ht Hj.
  destruct (Z.eq_dec j 0) as [->|]; [by rewrite Z.mul_0_r, Z.add_0_r|].
  replace (d + 6 * j) with (d + 6 + 6 * (j - 1)) by lia. apply IH; [done|lia].
Qed.

Lemma small_prime (p : Z) : 1 < p -> trial p (Z.to_nat (p - 2)) 2 = true -> prime p.
Proof.
  intros Hp Ht. apply prime_alt. split; [done|]. intros n Hn Hd.
  apply (trial_spec p _ 2 n Ht); [lia|]. by apply Z.mod_divide; [lia|].
Qed.

(** A factor of a number that is not a multiple of 2 or 3 is next to a multiple of 6. *)
Lemma trial6_factor (n : Z) : trial6 pm_m (Z.to_nat 7724) 5 = true -> 1 < n <= 46341 -> pm_m mod n <> 0.
Proof.
  intros Ht Hn Hd. apply Z.mod_divide in Hd; [|lia].
  assert (H2 : n mod 2 <> 0).
  { intros H2%Z.mod_divide; [|lia]. destruct (Z.divide_trans _ _ _ H2 Hd) as [z Hz]. unfold pm_m in Hz. lia. }
  assert (H3 : n mod 3 <> 0).
  { intros H3%Z.mod_divide; [|lia]. destruct (Z.divide_trans _ _ _ H3 Hd) as [z Hz]. unfold pm_m in Hz. lia. }
  pose proof (Z.div_mod (n - 5) 6 ltac:(lia)). pose proof (Z.mod_pos_bound (n - 5) 6 ltac:(lia)).
  pose proof (Z.div_mod n 2 ltac:(lia)). pose proof (Z.mod_pos_bound n 2 ltac:(lia)).
  pose proof (Z.div_mod n 3 ltac:(lia)). pose proof (Z.mod_pos_bound n 3 ltac:(lia)).
  assert (Hr : (n - 5) mod 6 = 0 \/ (n - 5) mod 6 = 2) by lia.
  destruct (trial6_spec pm_m (Z.to_nat 7724) 5 ((n - 5) / 6) Ht ltac:(lia)) as [Ha Hb].
  destruct Hr as [Hr|Hr]; [apply Ha|apply Hb]; apply Z.mod_divide; (lia || (replace (_ + _) with n by lia; done)).
Qed.

Lemma pm_prime : prime pm_m.
Proof.
  assert (Ht : trial6 pm_m (Z.to_nat 7724) 5 = true) by (vm_compute; reflexivity).
  apply prime_alt. split; [done|]. intros n Hn Hd. pose proof Hd as [k Hk].
  assert (Hk1 : 1 < k < pm_m) by (unfold pm_m in *; nia).
  destruct (Z.le_gt_cases n 46341).
  - apply (trial6_factor n Ht); [lia|]. apply Z.mod_divide; [lia|done].
  - apply (trial6_factor k Ht); [unfold pm_m in *; nia|]. apply Z.mod_divide; [lia|]. exists n. lia.
Qed.

(** The exponents with which 16807 gives 1. *)
Definition is_one (e : Z) : Prop := pm_a ^ e mod pm_m = 1.

Fixpoint powmod (p : positive) : Z :=
  match p with
  | xH => pm_a mod pm_m
  | xO p => let x := powmod p in x * x mod pm_m
  | xI p => let x := powmod p in (x * x mod pm_m) * pm_a mod pm_m
  end.

Lemma powmod_eq (p : positive) : powmod p = pm_a ^ Zpos p mod pm_m.
Proof.
  induction p as [p IH|p IH|]; cbn [powmod]; [| |by rewrite Z.pow_1_r].
  - rewrite IH, <- Zmult_mod. rewrite Zmult_mod_idemp_l. f_equal.
    rewrite Pos2Z.inj_xI, Z.pow_add_r, Z.pow_1_r, Z.pow_twice_r by lia. lia.
  - rewrite IH, <- Zmult_mod. f_equal. rewrite Pos2Z.inj_xO, Z.pow_twice_r. done.
Qed.

Lemma is_one_mul (d k : Z) : 0 <= d -> 0 <= k -> is_one d -> is_one (d * k).
Proof.
  intros Hd Hk H. unfold is_one in *. rewrite Z.pow_mul_r by lia. rewrite Zpower_mod by (unfold pm_m; lia).
  rewrite H, Z.pow_1_l by lia. done.
Qed.

Lemma is_one_mod (d e : Z) : 0 < d -> 0 <= e -> is_one d -> is_one e -> is_one (e mod d).
Proof.
  intros Hd He H1 H2. pose proof (Z.div_mod e d ltac:(lia)) as Hq. pose proof (Z.mod_pos_bound e d Hd).
  pose proof (is_one_mul d (e / d) ltac:(lia) ltac:(apply Z.div_pos; lia) H1) as H3. unfold is_one in *.
  rewrite Hq, Z.pow_add_r, Zmult_mod, H3, Z.mul_1_l, Zmod_mod in H2 by (try apply Z.mul_nonneg_nonneg; try apply Z.div_pos; lia). done.
Qed.

Lemma is_one_gcd (n : nat) (d e : Z) :
  0 <= d <= Z.of_nat n -> 0 <= e -> is_one d -> is_one e -> is_one (Z.gcd d e).
Proof.
  revert d e. induction n as [|n IH]; intros d e Hd He H1 H2.
  - replace d with 0 by lia. rewrite Z.gcd_0_l, Z.abs_eq by lia. done.
  - destruct (Z.eq_dec d 0) as [->|]; [rewrite Z.gcd_0_l, Z.abs_eq by lia; done|].
    rewrite <- Z.gcd_mod by lia. pose proof (Z.mod_pos_bound e d ltac:(lia)).
    apply IH; [lia|lia| |done]. apply is_one_mod; (done || lia).
Qed.

(** The prime factors of 2^31 - 2. *)
Definition pm_factors : list Z := [2; 3; 7; 11; 31; 151; 331].

Lemma pm_factors_prime (p : Z) : p ∈ pm_factors -> prime p.
Proof.
  intros Hp. assert (Hb : forallb (fun p => (1 <? p) && trial p (Z.to_nat (p - 2)) 2) pm_factors = true) by reflexivity.
  rewrite forallb_forall in Hb. specialize (Hb p ltac:(by apply list_elem_of_In)). apply andb_true_iff in Hb as [H1 H2].
  apply small_prime; [lia|done].
Qed.

Lemma pm_powers (p : Z) : p ∈ pm_factors -> ~ is_one ((pm_m - 1) / p).
Proof.
  intros Hp. assert (Hb : forallb (fun p => match (pm_m - 1) / p with Zpos e => negb (powmod e =? 1) | _ => false end) pm_factors = true)
    by (vm_compute; reflexivity).
  rewrite forallb_forall in Hb. specialize (Hb p ltac:(by apply list_elem_of_In)). cbn beta in Hb.
  destruct ((pm_m - 1) / p); try done. rewrite powmod_eq in Hb. unfold is_one. by destruct (Z.eqb_spec (pm_a ^ Zpos p0 mod pm_m) 1).
Qed.

Lemma pm_fermat : is_one (pm_m - 1).
Proof. unfold is_one. change (pm_m - 1) with (Zpos 2147483646). rewrite <- powmod_eq. vm_compute. reflexivity. Qed.

(** A proper divisor of 2^31 - 2 divides it with one of the prime factors taken out. *)
Lemma pm_cofactor (g : Z) : (g | pm_m - 1) -> 0 < g < pm_m - 1 -> exists p, p ∈ pm_factors /\ (g | (pm_m - 1) / p).
Proof.
  intros [c Hc] Hg. assert (Hc1 : 1 < c) by nia.
  destruct (List.Exists_dec (fun p => (p | c)) pm_factors (fun p => Zdivide_dec p c)) as [Hex|Hno].
  - apply List.Exists_exists in Hex as (p & Hp%list_elem_of_In & q & Hq). exists p. split; [done|]. exists q.
    pose proof (pm_factors_prime p Hp) as [Hp1 _]. rewrite Hc, Hq. replace (q * p * g) with (q * g * p) by lia.
    rewrite Z.div_mul; lia.
  - exfalso. assert (Hr : forall p, p ∈ pm_factors -> rel_prime c p).
    { intros p Hp. apply rel_prime_sym, prime_rel_prime; [by apply pm_factors_prime|]. intros Hd. apply Hno.
      apply List.Exists_exists. exists p. split; [by apply list_elem_of_In|done]. }
    assert (Hrel : rel_prime c (pm_m - 1)).
    { change (pm_m - 1) with (2 * (3 * (3 * (7 * (11 * (31 * (151 * 331))))))).
      repeat apply rel_prime_mult; apply Hr; unfold pm_factors; set_solver. }
    assert (Hd1 : (c | 1)) by (apply (Gauss c (pm_m - 1)); [exists g; lia|done]).
    apply Z.divide_1_r_nonneg in Hd1; lia.
Qed.

Lemma pm_order (d : Z) : 0 < d < pm_m - 1 -> ~ is_one d.
Proof.
  intros Hd H1. pose proof (is_one_gcd (Z.to_nat d) d (pm_m - 1) ltac:(lia) ltac:(lia) H1 pm_fermat) as Hg.
  pose proof (Z.gcd_divide_l d (pm_m - 1)) as Hl. pose proof (Z.gcd_divide_r d (pm_m - 1)) as Hr.
  pose proof (Z.gcd_nonneg d (pm_m - 1)) as Hn. set (g := Z.gcd d (pm_m - 1)) in *.
  assert (Hpos : g <> 0) by (intros E; destruct Hl as [z Hz]; rewrite E in Hz; lia).
  assert (0 < g <= d) by (split; [lia|apply Z.divide_pos_le; [lia|done]]).
  destruct (pm_cofactor g Hr ltac:(lia)) as (p & Hp & q & Hq). apply (pm_powers p Hp). rewrite Hq, Z.mul_comm.
  pose proof (pm_factors_prime p Hp) as [Hp1 _].
  apply is_one_mul; [lia| |done]. apply Z.mul_nonneg_cancel_r with g; [lia|]. rewrite <- Hq. apply Z.div_pos; unfold pm_m; lia.
Qed.

(** The seed after [j] calls. *)
Fixpoint seed_after (j : nat) (seed : Z) : Z :=
  match j with O => seed | S j' => seed_after j' (randomParkAndMiller seed) end.

Lemma seed_after_eq (j : nat) (seed : Z) :
  seed_ok seed -> seed_after j seed = (pm_a ^ Z.of_nat j * seed) mod pm_m /\ seed_ok (seed_after j seed).
Proof.
  revert seed. induction j as [|j IH]; intros seed Hs; cbn [seed_after].
  - split; [|done]. unfold seed_ok in Hs. rewrite Z.pow_0_r, Z.mul_1_l, Z.mod_small; lia.
  - destruct (randomParkAndMiller_eq seed Hs) as [He Hr]. destruct (IH _ Hr) as [H1 H2]. split; [|done].
    rewrite H1, He, Zmult_mod_idemp_r. f_equal. rewrite Nat2Z.inj_succ, Z.pow_succ_r by lia. lia.
Qed.

Lemma mod_mul_one (d x : Z) : rel_prime x pm_m -> (d * x) mod pm_m = x mod pm_m -> d mod pm_m = 1.
Proof.
  intros Hr He. assert (Hd : (pm_m | d - 1)).
  { apply (Gauss pm_m x); [|by apply rel_prime_sym]. apply Z.mod_divide; [done|].
    replace (x * (d - 1)) with (d * x - x) by lia. rewrite Zminus_mod, He, Z.sub_diag. done. }
  destruct Hd as [z Hz]. symmetry. apply (Z.mod_unique_pos _ _ z); unfold pm_m in *; lia.
Qed.

Lemma seed_rel_prime (x : Z) : seed_ok x -> rel_prime x pm_m.
Proof. intros Hx. apply rel_prime_le_prime; [apply pm_prime|]. unfold seed_ok in Hx. lia. Qed.

Lemma seed_after_inj (i j : nat) (seed : Z) :
  seed_ok seed -> (i < j)%nat -> Z.of_nat (j - i) < pm_m - 1 -> seed_after i seed <> seed_after j seed.
Proof.
  intros Hs Hij Hlt He. destruct (seed_after_eq i seed Hs) as [Hi Ho]. destruct (seed_after_eq j seed Hs) as [Hj _].
  apply (pm_order (Z.of_nat (j - i))); [lia|]. apply (mod_mul_one _ (seed_after i seed)); [by apply seed_rel_prime|].
  rewrite Hi at 1. rewrite Zmult_mod_idemp_r, Z.mul_assoc, <- Z.pow_add_r by lia.
  replace (Z.of_nat (j - i) + Z.of_nat i) with (Z.of_nat j) by lia. rewrite <- Hj, <- He.
  unfold seed_ok in Ho. rewrite Z.mod_small; lia.
Qed.

Lemma NoDup_map_seq {A} (f : nat -> A) (b n : nat) :
  (forall i j, (b <= i)%nat -> (i < j)%nat -> (j < b + n)%nat -> f i <> f j) -> List.NoDup (map f (seq b n)).
Proof.
  revert b. induction n as [|n IH]; intros b Hf; cbn [seq map]; constructor.
  - rewrite in_map_iff. intros (j & He & Hj%in_seq). apply (Hf b j); [lia|lia|lia|done].
  - apply IH. intros i j H1 H2 H3. apply Hf; lia.
Qed.

(** Every number from 1 to 2^31 - 2 comes up. *)
Lemma seed_after_surj (seed v : Z) :
  seed_ok seed -> seed_ok v -> exists j, (1 <= j <= Z.to_nat (pm_m - 1))%nat /\ seed_after j seed = v.
Proof.
  intros Hs Hv. set (M := Z.to_nat (pm_m - 1)). assert (HM : Z.of_nat M = pm_m - 1) by (unfold M; apply Z2Nat.id; unfold pm_m; lia).
  clearbody M. set (L := map (fun j => seed_after j seed) (seq 1 M)). set (R := map Z.of_nat (seq 1 M)).
  assert (Hincl : incl R L).
  { apply NoDup_length_incl.
    - apply NoDup_map_seq. intros i j H1 H2 H3. apply seed_after_inj; [done|done|lia].
    - unfold L, R. by rewrite !length_map.
    - intros x (j & <- & Hj)%in_map_iff. destruct (seed_after_eq j seed Hs) as [_ Ho]. unfold seed_ok in Ho.
      apply in_map_iff. exists (Z.to_nat (seed_after j seed)). split; [lia|]. apply in_seq. lia. }
  assert (Hin : In v L).
  { apply Hincl, in_map_iff. exists (Z.to_nat v). unfold seed_ok in Hv. split; [lia|]. apply in_seq. lia. }
  apply in_map_iff in Hin as (j & Hj & Hr%in_seq). exists j. split; [lia|done].
Qed.



(** ** Stealing from a set of queues *)

Section QueueSetCorrect.
Context (N k : Z) (HN : N = 2 ^ k) (Hk : 2 <= k <= 31) (fuel : nat) (Hfuel : pm_m <= Z.of_nat fuel) {E : Type}.
Implicit Types (queues : list (@TaskQueue E)) (ls : list (list E)).

(** Queues at rest, and the tasks in each of them. *)
Abbreviation holds := (Forall2 (represents N)).






End QueueSetCorrect.

(** ** Termination of a group of threads *)

(** The threads with their positions, and the number of tasks in the queue of each. *)
Record group := mkGroup { term : terminator; workers : list worker; tasks : list nat }.

(** The steps of the clients: a thread with a task in hand pushes another one or
    finishes it; a thread takes a task from any queue that has one; it offers
    termination when it has none and its own queue is empty.  The steps of
    [offer_termination]: the look for more work can give any answer, since the
    queues are read one after the other and [should_exit_termination] is not known. *)
Inductive group_step : group -> nat -> group -> Prop :=
| group_push t ws qs i n m :
    ws !! i = Some (Working (S n)) -> qs !! i = Some m ->
    group_step (mkGroup t ws qs) i (mkGroup t ws (<[i := S m]> qs))
| group_finish t ws qs i n :
    ws !! i = Some (Working (S n)) -> group_step (mkGroup t ws qs) i (mkGroup t (<[i := Working n]> ws) qs)
| group_take t ws qs i n j m :
    ws !! i = Some (Working n) -> qs !! j = Some (S m) ->
    group_step (mkGroup t ws qs) i (mkGroup t (<[i := Working (S n)]> ws) (<[j := m]> qs))
| group_offer t ws qs i t' w :
    ws !! i = Some (Working 0) -> qs !! i = Some O -> offer_begin t = (t', w) ->
    group_step (mkGroup t ws qs) i (mkGroup t' (<[i := w]> ws) qs)
| group_test t ws qs i :
    ws !! i = Some Testing -> group_step (mkGroup t ws qs) i (mkGroup t (<[i := offer_test t]> ws) qs)
| group_peek t ws qs i more_work :
    ws !! i = Some Peeking -> group_step (mkGroup t ws qs) i (mkGroup t (<[i := offer_peek more_work]> ws) qs)
| group_leave t ws qs i t' w :
    ws !! i = Some Leaving -> offer_leave t = (t', w) -> group_step (mkGroup t ws qs) i (mkGroup t' (<[i := w]> ws) qs).

Definition group_move (g g' : group) : Prop := exists i, group_step g i g'.

Definition working (w : worker) : bool := match w with Working _ => true | _ => false end.
Definition idle (w : worker) : Prop := match w with Working n => n = O | _ => True end.
Definition offered (ws : list worker) : nat := length (filter (fun w => working w = false) ws).

(** No thread has a task and no queue holds one. *)
Definition all_done (g : group) : Prop :=
  (forall i w, workers g !! i = Some w -> idle w) /\ (forall i n, tasks g !! i = Some n -> n = O).

Record group_inv (g : group) : Prop := {
  group_threads : _n_threads (term g) = zlen (workers g) /\ length (tasks g) = length (workers g);
  group_count : _offered_termination (term g) = Z.of_nat (offered (workers g));
  group_queues : forall i w, workers g !! i = Some w -> working w = false -> tasks g !! i = Some O;
  group_done : forall i, workers g !! i = Some Terminated -> all_done g;
}.

Lemma offered_insert (ws : list worker) (i : nat) (w w' : worker) :
  ws !! i = Some w ->
  (offered (<[i := w']> ws) + (if working w then 0 else 1) = offered ws + (if working w' then 0 else 1))%nat.
Proof.
  intros Hw. pose proof (take_drop_middle ws i w Hw) as Hs. pose proof (lookup_lt_Some _ _ _ Hw) as Hl.
  rewrite insert_take_drop by done. rewrite <- Hs at 3. unfold offered.
  rewrite !list.filter_app, !list.filter_cons, !length_app. destruct (working w) eqn:H1, (working w') eqn:H2; repeat case_decide; cbn [length]; try done; lia.
Qed.

Lemma offered_le (ws : list worker) : (offered ws <= length ws)%nat.
Proof. apply length_filter. Qed.

Lemma offered_all (ws : list worker) (i : nat) (w : worker) :
  offered ws = length ws -> ws !! i = Some w -> working w = false.
Proof.
  intros Ho Hw. destruct (working w) eqn:Hx; [|done]. pose proof (offered_insert ws i w Testing Hw) as Hi. rewrite Hx in Hi. cbn in Hi.
  pose proof (offered_le (<[i := Testing]> ws)) as Hle. rewrite length_insert in Hle. lia.
Qed.

(** Replacing the position of one thread. *)
Lemma group_inv_worker (g : group) (i : nat) (w w' : worker) (t' : terminator) (qs : list nat) :
  group_inv g -> workers g !! i = Some w -> _n_threads t' = _n_threads (term g) -> length qs = length (tasks g) ->
  _offered_termination t' = _offered_termination (term g) - (if working w then 0 else 1) + (if working w' then 0 else 1) ->
  (forall j, tasks g !! j = Some O -> qs !! j = Some O) ->
  (working w' = false -> qs !! i = Some O) ->
  (all_done g -> all_done (mkGroup t' (<[i := w']> (workers g)) qs)) ->
  (w' = Terminated -> all_done (mkGroup t' (<[i := w']> (workers g)) qs)) ->
  group_inv (mkGroup t' (<[i := w']> (workers g)) qs).
Proof.
  intros [[G1 G1'] G2 G3 G4] Hw Hn Hl Ho Hq Hi Hd Ht. pose proof (offered_insert (workers g) i w w' Hw) as Hc.
  split; cbn [term workers tasks].
  - rewrite length_insert. split; [congruence|lia].
  - destruct (working w), (working w'); lia.
  - intros j x [(<- & <- & _)|[Hne Hx]]%list_lookup_insert_Some Hwx; [by apply Hi|]. apply Hq. by apply (G3 j x).
  - intros j [(<- & He & _)|[Hne Hx]]%list_lookup_insert_Some; [by apply Ht|]. by apply Hd, (G4 j).
Qed.

Lemma all_done_worker (g : group) (i : nat) (w' : worker) (t' : terminator) :
  idle w' -> all_done g -> all_done (mkGroup t' (<[i := w']> (workers g)) (tasks g)).
Proof.
  intros Hi [H1 H2]. split; [|done]. cbn. intros j x [(_ & <- & _)|[_ Hx]]%list_lookup_insert_Some; [done|]. by apply (H1 j).
Qed.

Lemma group_step_inv (g : group) (i : nat) (g' : group) : group_inv g -> group_step g i g' -> group_inv g'.
Proof.
  intros Hi Hs. pose proof Hi as [[G1 G1'] G2 G3 G4].
  destruct Hs as [t ws qs i n m Hw Hq|t ws qs i n Hw|t ws qs i n j m Hw Hq|t ws qs i t' w Hw Hq Ho|t ws qs i Hw|t ws qs i b Hw|t ws qs i t' w Hw Ho];
    cbn [term workers tasks] in *.
  - (* push *)
    split; cbn [term workers tasks]; rewrite ?length_insert; try done.
    + intros j w Hj Hwk. rewrite list_lookup_insert_ne; [by apply (G3 j w)|]. intros ->. rewrite Hw in Hj. by injection Hj as <-.
    + intros j Hj. destruct (G4 j Hj) as [Hx _]. by specialize (Hx i _ Hw).
  - apply (group_inv_worker (mkGroup t ws qs) i (Working (S n))); cbn; try done; [lia|].
    intros [Hx _]. by specialize (Hx i _ Hw).
  - (* take *)
    apply (group_inv_worker (mkGroup t ws qs) i (Working n)); cbn; try done; [by rewrite length_insert|lia| |].
    + intros j' Hj'. rewrite list_lookup_insert_ne; [done|]. intros ->. congruence.
    + intros [_ Hx]. by specialize (Hx j _ Hq).
  - injection Ho as <- <-. apply (group_inv_worker (mkGroup t ws qs) i (Working 0)); cbn; try done; [lia|].
    by apply (all_done_worker (mkGroup t ws qs)).
  - (* test *)
    unfold offer_test. destruct (Z.eqb_spec (_offered_termination t) (_n_threads t)) as [He|];
      apply (group_inv_worker (mkGroup t ws qs) i Testing); cbn; try done; try lia; try (by intros _; apply (G3 i _ Hw));
      try (by apply (all_done_worker (mkGroup t ws qs))).
    intros _. assert (Hall : offered ws = length ws) by lia.
    apply (all_done_worker (mkGroup t ws qs)); [done|]. split; cbn.
    + intros j w Hj. pose proof (offered_all ws j w Hall Hj). by destruct w.
    + intros j m Hj. destruct (lookup_lt_is_Some_2 ws j) as [w Hwj]; [apply lookup_lt_Some in Hj; lia|].
      specialize (G3 j w Hwj (offered_all ws j w Hall Hwj)). congruence.
  - unfold offer_peek. destruct b; apply (group_inv_worker (mkGroup t ws qs) i Peeking); cbn; try done; try lia;
      try (by intros _; apply (G3 i _ Hw)); by apply (all_done_worker (mkGroup t ws qs)).
  - injection Ho as <- <-. apply (group_inv_worker (mkGroup t ws qs) i Leaving); cbn; try done; [lia|].
    by apply (all_done_worker (mkGroup t ws qs)).
Qed.

(** A group at the start: nobody has offered termination. *)
Definition group_start (n : nat) (hands qs : list nat) : group :=
  mkGroup (mkTerminator (Z.of_nat n) 0) (Working <$> hands) qs.

Lemma group_start_inv (n : nat) (hands qs : list nat) :
  length hands = n -> length qs = n -> group_inv (group_start n hands qs).
Proof.
  intros Hh Hq. assert (Hwork : forall i w, (Working <$> hands) !! i = Some w -> working w = true).
  { intros i w. rewrite list_lookup_fmap. destruct (hands !! i); cbn; [by intros [= <-]|done]. }
  split; cbn.
  - rewrite length_fmap. split; [by subst|congruence].
  - clear. unfold offered. induction hands as [|h hands IH]; [done|]. cbn [fmap list_fmap]. rewrite list.filter_cons. by rewrite decide_False.
  - intros i w Hw Hf. by rewrite (Hwork i w Hw) in Hf.
  - intros i Hi. by specialize (Hwork i _ Hi).
Qed.

Lemma group_reach_inv (g g' : group) : group_inv g -> rtc group_move g g' -> group_inv g'.
Proof. intros Hi Hr. induction Hr as [|g g1 g2 [i Hs] Hr IH]; [done|]. apply IH. by apply (group_step_inv g i). Qed.

(** While everybody offers and nobody has seen work, tests succeed. *)
Definition all_waiting (g : group) : Prop :=
  forall i w, workers g !! i = Some w -> w = Testing \/ w = Peeking \/ w = Terminated.

(** Steps in which the look for more work finds none. *)
Inductive quiet_steps : group -> list nat -> group -> Prop :=
| quiet_nil g : quiet_steps g [] g
| quiet_cons g i g1 sched g2 :
    group_step g i g1 -> workers g1 !! i <> Some Leaving -> quiet_steps g1 sched g2 -> quiet_steps g (i :: sched) g2.

Lemma offered_full (ws : list worker) :
  (forall i w, ws !! i = Some w -> working w = false) -> offered ws = length ws.
Proof.
  induction ws as [|w ws IH]; intros Hw; [done|]. unfold offered. rewrite list.filter_cons, decide_True by (by apply (Hw 0%nat)).
  cbn [length]. f_equal. apply IH. intros i x Hx. by apply (Hw (S i)).
Qed.

Lemma all_waiting_step (g g' : group) (i : nat) :
  group_inv g -> all_waiting g -> group_step g i g' -> workers g' !! i <> Some Leaving ->
  all_waiting g' /\ (forall j, j <> i -> workers g' !! j = workers g !! j) /\
  exists w w', workers g !! i = Some w /\ workers g' !! i = Some w' /\ (w = Testing /\ w' = Terminated \/ w = Peeking /\ w' = Testing).
Proof.
  intros Hi Ha Hs Hl. pose proof Hi as [[G1 _] G2 _ _].
  assert (Hall : forall t ws qs, g = mkGroup t ws qs -> _offered_termination t = _n_threads t).
  { intros t ws qs ->. cbn in *. rewrite G1, G2. f_equal. apply offered_full. intros j w Hw.
    destruct (Ha j w Hw) as [->|[->| ->]]; done. }
  assert (Hins : forall t ws qs w, g = mkGroup t ws qs -> (w = Testing \/ w = Peeking \/ w = Terminated) -> all_waiting (mkGroup t (<[i := w]> ws) qs)).
  { intros t ws qs w -> Hw j x [(_ & <- & _)|[_ Hx]]%list_lookup_insert_Some; [done|]. by apply (Ha j). }
  destruct Hs as [t ws qs i n m Hw Hq|t ws qs i n Hw|t ws qs i n j m Hw Hq|t ws qs i t' w Hw Hq Ho|t ws qs i Hw|t ws qs i b Hw|t ws qs i t' w Hw Ho];
    cbn [workers] in *; try (by destruct (Ha i _ Hw) as [?|[?|?]]);
    pose proof (lookup_lt_Some _ _ _ Hw) as Hlt; rewrite list_lookup_insert_eq in * by done.
  - unfold offer_test. rewrite (proj2 (Z.eqb_eq _ _) (Hall _ _ _ eq_refl)).
    split; [apply Hins; tauto|]. split; [intros j Hj; by apply list_lookup_insert_ne|].
    exists Testing, Terminated. tauto.
  - destruct b; [done|]. split; [apply Hins; tauto|]. split; [intros j Hj; by apply list_lookup_insert_ne|].
    exists Peeking, Testing. tauto.
Qed.

Definition worker_rank (w : worker) : nat := match w with Peeking => 2 | Testing => 1 | _ => 0 end.
Definition own_moves (i : nat) (sched : list nat) : nat := length (filter (fun j => j = i) sched).

Lemma quiet_terminates (g g' : group) (sched : list nat) (i : nat) (w : worker) :
  quiet_steps g sched g' -> group_inv g -> all_waiting g -> workers g !! i = Some w ->
  (worker_rank w <= own_moves i sched)%nat -> workers g' !! i = Some Terminated.
Proof.
  intros Hq. revert w. induction Hq as [g|g j g1 sched g2 Hs Hl Hr IH]; intros w Hi Ha Hw Hk.
  - destruct (Ha i w Hw) as [->|[->| ->]]; cbn in Hk; [lia|lia|done].
  - destruct (all_waiting_step g g1 j Hi Ha Hs Hl) as (Ha1 & Hne & v & v' & Hv & Hv' & Hc).
    pose proof (group_step_inv g j g1 Hi Hs) as Hi1. unfold own_moves in Hk. rewrite list.filter_cons in Hk.
    destruct (decide (j = i)) as [->|Hji].
    + apply (IH v' Hi1 Ha1 Hv'). unfold own_moves. assert (v = w) as -> by congruence.
      destruct Hc as [[-> ->]|[-> ->]]; cbn in *; lia.
    + apply (IH w Hi1 Ha1); [by rewrite Hne by done|done].
Qed.

(** The steps that are left in a quiet run. *)
Fixpoint total_rank (ws : list worker) : nat := match ws with [] => 0 | w :: ws => worker_rank w + total_rank ws end.

Lemma total_rank_le (ws : list worker) : (total_rank ws <= 2 * length ws)%nat.
Proof. induction ws as [|w ws IH]; cbn [total_rank length]; [lia|]. destruct w; cbn; lia. Qed.

Lemma total_rank_step (ws ws' : list worker) (i : nat) (w w' : worker) :
  length ws' = length ws -> ws !! i = Some w -> ws' !! i = Some w' -> (forall j, j <> i -> ws' !! j = ws !! j) ->
  (total_rank ws + worker_rank w' = total_rank ws' + worker_rank w)%nat.
Proof.
  intros Hl Hw Hw' Hne. assert (ws' = <[i := w']> ws) as ->.
  { apply list_eq. intros j. destruct (decide (j = i)) as [->|Hj]; [rewrite list_lookup_insert_eq by (by apply lookup_lt_Some in Hw); done|]. rewrite list_lookup_insert_ne by done. by apply Hne. }
  clear Hl Hw' Hne. revert i Hw. induction ws as [|x ws IH]; intros [|i] Hw; [done..| |].
  - injection Hw as ->. cbn. lia.
  - specialize (IH i Hw). change (<[S i := w']> (x :: ws)) with (x :: <[i := w']> ws). cbn [total_rank]. lia.
Qed.

Lemma group_step_length (g g' : group) (i : nat) : group_step g i g' -> length (workers g') = length (workers g).
Proof. intros Hs. destruct Hs; cbn [workers]; rewrite ?length_insert; done. Qed.

Lemma group_reach_length (n : nat) (hands qs : list nat) (g : group) :
  length hands = n -> length qs = n -> rtc group_move (group_start n hands qs) g -> length (workers g) = n.
Proof.
  intros Hh Hq Hr. assert (Hl : length (workers (group_start n hands qs)) = n) by (cbn; by rewrite length_fmap).
  revert Hl. clear Hh Hq. induction Hr as [|g g1 g2 [i Hst] Hr IH]; [done|]. intros Hl. apply IH. by rewrite (group_step_length g g1 i Hst).
Qed.

Lemma quiet_waiting (g g' : group) (sched : list nat) :
  quiet_steps g sched g' -> group_inv g -> all_waiting g ->
  group_inv g' /\ all_waiting g' /\ length (workers g') = length (workers g) /\ (length sched + total_rank (workers g') = total_rank (workers g))%nat.
Proof.
  intros Hq. induction Hq as [g|g j g1 sched g2 Hs Hl Hr IH]; intros Hi Ha; [done|].
  destruct (all_waiting_step g g1 j Hi Ha Hs Hl) as (Ha1 & Hne & v & v' & Hv & Hv' & Hc). pose proof (group_step_length g g1 j Hs) as Hlen.
  destruct (IH (group_step_inv g j g1 Hi Hs) Ha1) as (I1 & I2 & I3 & I4). split; [done|]. split; [done|]. split; [congruence|].
  pose proof (total_rank_step (workers g) (workers g1) j v v' Hlen Hv Hv' Hne). cbn [length]. destruct Hc as [[-> ->]|[-> ->]]; cbn [worker_rank] in *; lia.
Qed.

Lemma waiting_done (g : group) : group_inv g -> all_waiting g -> all_done g.
Proof.
  intros [[_ G1] _ G3 _] Ha. assert (Hw : forall i w, workers g !! i = Some w -> working w = false) by (intros i w Hi; by destruct (Ha i w Hi) as [->|[->| ->]]).
  split; [intros i w Hi; specialize (Hw i w Hi); by destruct w|]. intros i m Hm. destruct (lookup_lt_is_Some_2 (workers g) i) as [w Hi]; [apply lookup_lt_Some in Hm; lia|].
  specialize (G3 i w Hi (Hw i w Hi)). congruence.
Qed.

(** A thread that waits can take a step on which it stays. *)
Lemma waiting_moves (g : group) :
  all_waiting g -> (forall i, (i < length (workers g))%nat -> workers g !! i = Some Terminated) \/ exists i g', quiet_steps g [i] g'.
Proof.
  intros Ha. destruct (decide (Exists (fun w => w <> Terminated) (workers g))) as [Hex|Hno].
  - right. apply list.Exists_exists in Hex as (w & [i Hi]%list_elem_of_lookup_1 & Hne). exists i. destruct g as [t ws qs]. cbn [workers] in *. pose proof (lookup_lt_Some _ _ _ Hi).
    destruct (Ha i w Hi) as [->|[->| ->]]; [| |done].
    + exists (mkGroup t (<[i := offer_test t]> ws) qs). eapply quiet_cons; [by apply group_test| |apply quiet_nil]. cbn [workers]. rewrite list_lookup_insert_eq by done. unfold offer_test. by destruct (_ =? _).
    + exists (mkGroup t (<[i := Testing]> ws) qs). eapply quiet_cons; [by apply (group_peek _ _ _ _ false)| |apply quiet_nil]. cbn [workers]. by rewrite list_lookup_insert_eq.
  - left. intros i Hi. destruct (lookup_lt_is_Some_2 _ _ Hi) as [w Hw]. rewrite Hw. f_equal. destruct (decide (w = Terminated)) as [|Hne]; [done|]. destruct Hno. apply list.Exists_exists. exists w. split; [by apply list_elem_of_lookup_2 in Hw|done].
Qed.

Lemma terminated_stays (g : group) (j : nat) (g' : group) (i : nat) :
  group_step g j g' -> workers g !! i = Some Terminated -> workers g' !! i = Some Terminated.
Proof.
  intros Hs Hi. destruct (decide (j = i)) as [->|Hne].
  - destruct Hs; cbn [workers] in *; congruence.
  - destruct Hs; cbn [workers] in *; rewrite ?list_lookup_insert_ne by done; done.
Qed.

(** ** Queues with an overflow stack *)

(** [push] always succeeds, [pop_overflow] takes the newest task of the stack, and
    the queue is empty only if both parts are. *)
Lemma overflow_queue_ok {E} `{Allocator E} (N k : Z) (o : OverflowTaskQueue) (l items : list E) curs cachs (t : E) :
  N = 2 ^ k -> 2 <= k <= 31 -> represents N (taskqueue o) l ->
  rep (overflow_stack o) (overflow_memory o) items curs cachs -> zlen items < 2 ^ 64 ->
  (exists o' curs' cachs', overflow_push N o t = Some (o', true) /\
     represents N (taskqueue o') (if zlen l <? max_elems N then l ++ [t] else l) /\
     rep (overflow_stack o') (overflow_memory o') (if zlen l <? max_elems N then items else t :: items) curs' cachs') /\
  overflow_is_empty N o = bool_decide (l = [] /\ items = []).
Proof.
  intros HN Hk Hl Hr Hlen. split.
  - unfold overflow_push. destruct (push_seq N k HN Hk _ _ t Hl) as (q' & -> & Hq'). cbn [mbind option_bind].
    destruct (zlen l <? max_elems N); [by eexists _, curs, cachs|].
    destruct (push_ok _ _ _ _ _ t Hr Hlen) as (st & h & curs' & cachs' & -> & Hp & _). cbn [mbind option_bind].
    by eexists _, curs', cachs'.
  - destruct (observers_seq N k HN Hk _ _ Hl) as (_ & _ & He & _).
    unfold overflow_is_empty, taskqueue_empty, overflow_empty. rewrite He.
    assert (Hs : Stack.is_empty (overflow_stack o) = bool_decide (items = [])) by (by apply (is_empty_ok _ _ _ _ _ Hr)).
    rewrite Hs. by rewrite <- bool_decide_and.
Qed.

(** ** Properties *)

(** C39: [randomParkAndMiller] computes 16807 * seed modulo 2^31 - 1 without leaving
    32 bits, stays between 1 and 2^31 - 2, and from any seed runs through all of
    these numbers. *)
Theorem random_full_period (seed v : Z) :
  seed_ok seed -> seed_ok v ->
  randomParkAndMiller seed = (16807 * seed) mod (2 ^ 31 - 1) /\ seed_ok (randomParkAndMiller seed) /\
  exists j, 1 <= Z.of_nat j <= 2 ^ 31 - 2 /\ seed_after j seed = v.
Proof.
  intros Hs Hv. destruct (randomParkAndMiller_eq seed Hs) as [H1 H2]. split; [exact H1|]. split; [exact H2|].
  destruct (seed_after_surj seed v Hs Hv) as (j & Hj & He). exists j. split; [|exact He].
  change (2 ^ 31 - 2) with (pm_m - 1). lia.
Qed.

Lemma random_full_period_witness : randomParkAndMiller 17 = 285719.
Proof.
  assert (Hs : seed_ok 17) by (unfold seed_ok, pm_m; lia).
  rewrite (proj1 (random_full_period 17 17 Hs Hs)). reflexivity.
Defined.



(** C12: Termination is detected only when there is no work.  In any run of a group
    of threads that push, take and finish tasks and offer termination when they
    have none and their own queue is empty, the counter is the number of threads
    that have offered and not left again, so it never exceeds their number and is
    below it while some thread works; and once [offer_termination] has returned true
    to some thread, no thread has a task, no queue holds one, and this stays so. *)
Theorem terminator_safe (n : nat) (hands qs : list nat) (g : group) :
  length hands = n -> length qs = n -> rtc group_move (group_start n hands qs) g ->
  _offered_termination (term g) = Z.of_nat (offered (workers g)) /\ _offered_termination (term g) <= Z.of_nat n /\
  (forall i m, workers g !! i = Some (Working m) -> _offered_termination (term g) < Z.of_nat n) /\
  forall i, workers g !! i = Some Terminated ->
    all_done g /\ forall g', rtc group_move g g' -> all_done g'.
Proof.
  intros Hh Hq Hr. pose proof (group_start_inv n hands qs Hh Hq) as Hs. pose proof (group_reach_inv _ _ Hs Hr) as Hg.
  pose proof (group_reach_length n hands qs g Hh Hq Hr) as Hlen.
  pose proof (group_count _ Hg) as Hc. pose proof (offered_le (workers g)). split; [done|]. split; [lia|]. split.
  - intros i m Hw. pose proof (offered_insert (workers g) i _ Testing Hw) as Hi. cbn in Hi.
    pose proof (offered_le (<[i := Testing]> (workers g))) as Hle. rewrite length_insert in Hle. lia.
  - intros i Hi. split; [by apply (group_done _ Hg i)|]. intros g' Hr'.
    assert (Hstay : workers g' !! i = Some Terminated /\ group_inv g').
    { clear -Hg Hi Hr'. induction Hr' as [|g g1 g2 [j Hst] Hr' IH]; [done|].
      apply IH; [by apply (group_step_inv g j)|by apply (terminated_stays g j)]. }
    destruct Hstay as [Hst Hinv]. by apply (group_done _ Hinv i).
Qed.

(** Of two threads one has a task, and the other takes a task from its queue; both finish
    and offer termination. *)
Definition sample_group (o : Z) (w1 w2 : worker) (m : nat) : group := mkGroup (mkTerminator 2 o) [w1; w2] [m; 0%nat].
Lemma sample_group_steps : rtc group_move (group_start 2 [1%nat; 0%nat] [1%nat; 0%nat]) (sample_group 2 Testing Terminated 0).
Proof.
  apply (rtc_l _ _ (sample_group 0 (Working 1) (Working 1) 0)); [exists 1%nat; by apply (group_take (mkTerminator 2 0) [Working 1; Working 0] [1%nat; 0%nat] 1 0 0 0)|].
  apply (rtc_l _ _ (sample_group 0 (Working 0) (Working 1) 0)); [exists 0%nat; by apply (group_finish (mkTerminator 2 0) [Working 1; Working 1] [0%nat; 0%nat] 0 0)|].
  apply (rtc_l _ _ (sample_group 1 Testing (Working 1) 0)); [exists 0%nat; by apply (group_offer (mkTerminator 2 0) [Working 0; Working 1] [0%nat; 0%nat] 0)|].
  apply (rtc_l _ _ (sample_group 1 Testing (Working 0) 0)); [exists 1%nat; by apply (group_finish (mkTerminator 2 1) [Testing; Working 1] [0%nat; 0%nat] 1 0)|].
  apply (rtc_l _ _ (sample_group 2 Testing Testing 0)); [exists 1%nat; by apply (group_offer (mkTerminator 2 1) [Testing; Working 0] [0%nat; 0%nat] 1)|].
  apply rtc_once. exists 1%nat. by apply (group_test (mkTerminator 2 2) [Testing; Testing] [0%nat; 0%nat] 1).
Qed.

Lemma terminator_safe_witness : all_done (sample_group 2 Testing Terminated 0).
Proof.
  destruct (terminator_safe 2 [1%nat; 0%nat] [1%nat; 0%nat] (sample_group 2 Testing Terminated 0) eq_refl eq_refl sample_group_steps) as (_ & _ & _ & H).
  exact (proj1 (H 1%nat eq_refl)).
Defined.

(** C30: When in a run of the group every thread is in the loop of [offer_termination] and
    none is about to leave it, no work is left, and as long as no look for work or
    [should_exit_termination] makes a thread leave, all of them return true: however
    their steps interleave, each thread has returned true after two of its own steps, there
    are at most two steps per thread, and some thread can take one until all have
    returned. *)
Theorem terminator_live (n : nat) (hands qs : list nat) (g : group) :
  length hands = n -> length qs = n -> rtc group_move (group_start n hands qs) g -> all_waiting g ->
  all_done g /\
  forall sched g', quiet_steps g sched g' ->
    (length sched <= 2 * n)%nat /\
    (forall i, (i < n)%nat -> (2 <= own_moves i sched)%nat -> workers g' !! i = Some Terminated) /\
    ((forall i, (i < n)%nat -> workers g' !! i = Some Terminated) \/ exists i g'', quiet_steps g' [i] g'').
Proof.
  intros Hh Hq Hr Ha. pose proof (group_reach_inv _ _ (group_start_inv n hands qs Hh Hq) Hr) as Hi. pose proof (group_reach_length n hands qs g Hh Hq Hr) as Hlen.
  split; [by apply waiting_done|]. intros sched g' Hqs. destruct (quiet_waiting g g' sched Hqs Hi Ha) as (Hi' & Ha' & Hlen' & Hrank). pose proof (total_rank_le (workers g)). split; [lia|]. split.
  - intros i Hn H2. destruct (lookup_lt_is_Some_2 (workers g) i ltac:(lia)) as [w Hw]. apply (quiet_terminates g g' sched i w Hqs Hi Ha Hw). destruct (Ha i w Hw) as [->|[->| ->]]; cbn; lia.
  - destruct (waiting_moves g' Ha') as [Hall|Hstep]; [left|by right]. intros i Hn. apply Hall. lia.
Qed.

Lemma terminator_live_witness :
  all_done (sample_group 2 Testing Terminated 0) /\ exists g', quiet_steps (sample_group 2 Testing Terminated 0) [0%nat] g' /\ (length [0%nat] <= 2 * 2)%nat.
Proof.
  destruct (terminator_live 2 [1%nat; 0%nat] [1%nat; 0%nat] (sample_group 2 Testing Terminated 0) eq_refl eq_refl sample_group_steps) as [H1 H2].
  - intros [|[|i]] w; [intros [= <-]; left; reflexivity|intros [= <-]; right; right; reflexivity|discriminate].
  - split; [exact H1|]. exists (sample_group 2 Terminated Terminated 0).
    assert (Hq : quiet_steps (sample_group 2 Testing Terminated 0) [0%nat] (sample_group 2 Terminated Terminated 0)).
    { apply (quiet_cons _ 0%nat (sample_group 2 Terminated Terminated 0)); [apply (group_test (mkTerminator 2 2) [Testing; Terminated] [0%nat; 0%nat] 0); reflexivity|discriminate|apply quiet_nil]. }
    split; [exact Hq|exact (proj1 (H2 _ _ Hq))].
Defined.

(** [offer_termination] can return true to one thread and false to another in the
    same round: a thread that has seen a task in a queue is still counted until it
    leaves, so the last other thread can take that task, finish it, offer
    termination and find the counter full. *)
Lemma terminated_while_leaving :
  exists g g', rtc group_move (group_start 2 [0%nat; 1%nat] [0%nat; 0%nat]) g /\
    workers g = [Leaving; Terminated] /\ group_step g 0 g' /\ workers g' = [Working 0; Terminated].
Proof.
  set (g := mkGroup (mkTerminator 2 2) [Leaving; Terminated] [0%nat; 0%nat]).
  exists g, (mkGroup (mkTerminator 2 1) [Working 0; Terminated] [0%nat; 0%nat]).
  split; [|split; [done|split; [|done]]].
  - set (a := fun o w v m => mkGroup (mkTerminator 2 o) [w; v] [0%nat; m]).
    apply (rtc_l _ _ (a 0 (Working 0) (Working 1) 1%nat)); [exists 1%nat; by apply (group_push _ [Working 0; Working 1] [0%nat; 0%nat] 1 0 0)|].
    apply (rtc_l _ _ (a 1 Testing (Working 1) 1%nat)); [exists 0%nat; by apply (group_offer (mkTerminator 2 0) [Working 0; Working 1] [0%nat; 1%nat] 0)|].
    apply (rtc_l _ _ (a 1 Peeking (Working 1) 1%nat)); [exists 0%nat; by apply (group_test (mkTerminator 2 1) [Testing; Working 1] [0%nat; 1%nat] 0)|].
    apply (rtc_l _ _ (a 1 Leaving (Working 1) 1%nat)); [exists 0%nat; by apply (group_peek (mkTerminator 2 1) [Peeking; Working 1] [0%nat; 1%nat] 0 true)|].
    apply (rtc_l _ _ (a 1 Leaving (Working 2) 0%nat)); [exists 1%nat; by apply (group_take (mkTerminator 2 1) [Leaving; Working 1] [0%nat; 1%nat] 1 1 1 0)|].
    apply (rtc_l _ _ (a 1 Leaving (Working 1) 0%nat)); [exists 1%nat; by apply (group_finish (mkTerminator 2 1) [Leaving; Working 2] [0%nat; 0%nat] 1 1)|].
    apply (rtc_l _ _ (a 1 Leaving (Working 0) 0%nat)); [exists 1%nat; by apply (group_finish (mkTerminator 2 1) [Leaving; Working 1] [0%nat; 0%nat] 1 0)|].
    apply (rtc_l _ _ (a 2 Leaving Testing 0%nat)); [exists 1%nat; by apply (group_offer (mkTerminator 2 1) [Leaving; Working 0] [0%nat; 0%nat] 1)|].
    apply rtc_once. exists 1%nat. by apply (group_test (mkTerminator 2 2) [Leaving; Testing] [0%nat; 0%nat] 1).
  - by apply (group_leave (mkTerminator 2 2) [Leaving; Terminated] [0%nat; 0%nat] 0).
Qed.

(** A hard spin never exceeds the flag, and the thread sleeps after at most
    WorkStealingYieldsBeforeSleep + 1 pauses. *)
Lemma spin_bounded (f : spin_flags) (s : spin_state) :
  match snd (spin f s) with
  | SpinPause n => n <= u32 (WorkStealingHardSpins f)
  | Yield => hard_spin_count (fst (spin f s)) = 0
  | Sleep => WorkStealingYieldsBeforeSleep f < yield_count s /\ yield_count (fst (spin f s)) = 0
  end /\
  (snd (spin f s) <> Sleep -> yield_count (fst (spin f s)) = u32 (yield_count s + 1)).
Proof.
  unfold spin. destruct (Z.leb_spec (yield_count s) (WorkStealingYieldsBeforeSleep f)); [|done].
  destruct (_ <? _); cbn; [done|]. split; [lia|done].
Qed.
