(* ===== verification/QuickSort.v ===== *)
(** The in-place sort of utilities/quickSort.hpp.

    The array is a list; [array] in the code is a pointer into it, here the index
    [base] of its first element.  An access outside of the array has no result.
    Indices are [int]s and stay below the length of the array. *)

From Stdlib Require Import Sorting.Sorted.
From S2P Require Import Prelude.

(** What the sort needs of a comparator: it returns -1, 0 or 1 and is a total
    preorder. *)
Class Comparator {T : Type} (comparator : T -> T -> Z) := {
  cmp_range : forall a b, comparator a b = -1 \/ comparator a b = 0 \/ comparator a b = 1;
  cmp_opp : forall a b, comparator b a = - comparator a b;
  cmp_trans : forall a b c, comparator a b <= 0 -> comparator b c <= 0 -> comparator a c <= 0;
}.

(** ** Definitions *)

Section Definitions.
Context {T : Type} (comparator : T -> T -> Z).

Definition swap (array : list T) (base x y : Z) : option (list T) :=
  tmp ← zget array (base + x);
  ay ← zget array (base + y);
  array ← zset array (base + x) ay;
  zset array (base + y) tmp.

(** [if (comparator(array[x], array[y]) == 1) swap(array, x, y)] *)
Definition order (array : list T) (base x y : Z) : option (list T) :=
  ax ← zget array (base + x);
  ay ← zget array (base + y);
  if comparator ax ay =? 1 then swap array base x y else Some array.

Definition find_pivot (array : list T) (base length : Z) : option (list T * Z) :=
  let middle_index := Z.quot length 2 in
  let last_index := length - 1 in
  array ← order array base 0 middle_index;
  array ← order array base 0 last_index;
  array ← order array base middle_index last_index;
  Some (array, middle_index).

(** [do { left_index++; } while (comparator(array[left_index], pivot_val) == -1)] *)
Fixpoint scan_left (fuel : nat) (array : list T) (base left_index : Z) (pivot_val : T) : option Z :=
  match fuel with
  | O => None
  | S fuel' =>
      let left_index := left_index + 1 in
      x ← zget array (base + left_index);
      if comparator x pivot_val =? -1 then scan_left fuel' array base left_index pivot_val else Some left_index
  end.

Fixpoint scan_right (fuel : nat) (array : list T) (base right_index : Z) (pivot_val : T) : option Z :=
  match fuel with
  | O => None
  | S fuel' =>
      let right_index := right_index - 1 in
      x ← zget array (base + right_index);
      if comparator x pivot_val =? 1 then scan_right fuel' array base right_index pivot_val else Some right_index
  end.

(** The loop of [partition]; [fuel] bounds the rounds and the steps of each scan. *)
Fixpoint partition_loop (fuel : nat) (idempotent : bool) (array : list T) (base left_index right_index : Z)
  (pivot_val : T) : option (list T * Z) :=
  match fuel with
  | O => None
  | S fuel' =>
      left_index ← scan_left (S (length array)) array base left_index pivot_val;
      right_index ← scan_right (S (length array)) array base right_index pivot_val;
      if left_index <? right_index then
        al ← zget array (base + left_index);
        ar ← zget array (base + right_index);
        array ← (if negb idempotent || negb (comparator al ar =? 0) then swap array base left_index right_index
                 else Some array);
        partition_loop fuel' idempotent array base left_index right_index pivot_val
      else Some (array, right_index)
  end.

Definition partition (idempotent : bool) (array : list T) (base pivot len : Z) : option (list T * Z) :=
  let left_index := -1 in
  let right_index := len in
  pivot_val ← zget array (base + pivot);
  partition_loop (S (length array)) idempotent array base left_index right_index pivot_val.

Fixpoint inner_sort (fuel : nat) (idempotent : bool) (array : list T) (base len : Z) : option (list T) :=
  match fuel with
  | O => None
  | S fuel' =>
      if len <? 2 then Some array
      else
        '(array, pivot) ← find_pivot array base len;
        if len <? 4 then Some array
        else
          '(array, split) ← partition idempotent array base pivot len;
          let first_part_length := split + 1 in
          array ← inner_sort fuel' idempotent array base first_part_length;
          inner_sort fuel' idempotent array (base + first_part_length) (len - first_part_length)
  end.

Definition sort (array : list T) (len : Z) (idempotent : bool) : option (list T) :=
  if idempotent then inner_sort (S (length array)) true array 0 len
  else inner_sort (S (length array)) false array 0 len.
End Definitions.

(** ** Rearranging a part of the array *)

Section Rearrange.
Context {T : Type}.
Implicit Types (array : list T) (base len : Z).

(** The array is permuted, and only inside of [base, base + len). *)
Record rearranged base len array array' : Prop := {
  re_perm : array' ≡ₚ array;
  re_frame : forall i, i < base \/ base + len <= i -> zget array' i = zget array i;
  re_from : forall i x, base <= i < base + len -> zget array' i = Some x ->
    exists j, base <= j < base + len /\ zget array j = Some x;
}.

Lemma rearranged_refl base len array : rearranged base len array array.
Proof. split; [done|done|]. intros i x Hi Hx. by exists i. Qed.

Lemma rearranged_trans base len a1 a2 a3 :
  rearranged base len a1 a2 -> rearranged base len a2 a3 -> rearranged base len a1 a3.
Proof.
  intros [P1 F1 G1] [P2 F2 G2]. split.
  - by rewrite P2.
  - intros i Hi. by rewrite F2, F1.
  - intros i x Hi Hx. destruct (G2 i x Hi Hx) as (j & Hj & Hy). by apply (G1 j x).
Qed.

Lemma rearranged_widen base len base' len' array array' :
  base <= base' -> base' + len' <= base + len -> rearranged base' len' array array' -> rearranged base len array array'.
Proof.
  intros Hb Hl [P F G]. split; [done|intros i Hi; apply F; lia|]. intros i x Hi Hx.
  destruct (decide (base' <= i < base' + len')) as [Hin|Hout].
  - destruct (G i x Hin Hx) as (j & Hj & Hy). exists j. split; [lia|done].
  - exists i. split; [done|]. rewrite <- F; [done|lia].
Qed.

Lemma rearranged_length base len array array' : rearranged base len array array' -> length array' = length array.
Proof. intros [P _ _]. by rewrite P. Qed.

(** What holds of all elements of the part still does. *)
Lemma rearranged_all (P : T -> Prop) base len array array' :
  rearranged base len array array' -> (forall i x, base <= i < base + len -> zget array i = Some x -> P x) ->
  forall i x, base <= i < base + len -> zget array' i = Some x -> P x.
Proof. intros [_ _ G] Hp i x Hi Hx. destruct (G i x Hi Hx) as (j & Hj & Hy). by apply (Hp j). Qed.

Lemma zget_Some array (i : Z) : 0 <= i < zlen array -> exists x, zget array i = Some x.
Proof.
  intros Hi. destruct (lookup_lt_is_Some_2 array (Z.to_nat i) ltac:(lia)) as [x Hx]. exists x.
  unfold zget. by rewrite bool_decide_true by lia.
Qed.

Lemma delete_insert_same (l : list T) (i : nat) (x : T) : delete i (<[i := x]> l) = delete i l.
Proof. revert i. induction l as [|y l IH]; intros [|i]; cbn; [done|done|done|]. f_equal. apply IH. Qed.

Lemma insert_twice_perm (l : list T) (i j : nat) (a b : T) :
  l !! i = Some a -> l !! j = Some b -> <[j := a]> (<[i := b]> l) ≡ₚ l.
Proof.
  intros Hi Hj. destruct (decide (i = j)) as [->|Hne].
  - rewrite list_insert_insert_eq. by rewrite list_insert_id by congruence.
  - set (l1 := <[i := b]> l). assert (H1 : l1 !! j = Some b) by (unfold l1; by rewrite list_lookup_insert_ne).
    assert (Hl1 : l1 !! i = Some b) by (apply list_lookup_insert_eq; by apply lookup_lt_Some in Hi).
    pose proof (delete_Permutation l1 j b H1) as P1. pose proof (delete_Permutation l1 i b Hl1) as P2.
    pose proof (delete_Permutation l i a Hi) as P3.
    assert (H2 : <[j := a]> l1 !! j = Some a) by (apply list_lookup_insert_eq; by apply lookup_lt_Some in H1).
    pose proof (delete_Permutation _ j a H2) as P4. rewrite delete_insert_same in P4.
    unfold l1 in P2 at 2. rewrite delete_insert_same in P2. rewrite P4, P3. constructor.
    apply (Permutation_cons_inv (a := b)). by rewrite <- P1, <- P2.
Qed.

Lemma swap_ok array base len (x y : Z) ax ay :
  zget array (base + x) = Some ax -> zget array (base + y) = Some ay -> 0 <= x < len -> 0 <= y < len ->
  exists array', swap array base x y = Some array' /\ rearranged base len array array' /\
    zget array' (base + x) = Some ay /\ zget array' (base + y) = Some ax /\
    forall i, i <> base + x -> i <> base + y -> zget array' i = zget array i.
Proof.
  intros Hx Hy Hrx Hry. pose proof (zget_Some_range _ _ _ Hx). pose proof (zget_Some_range _ _ _ Hy).
  unfold swap. rewrite Hx, Hy. cbn [mbind option_bind].
  destruct (zset array (base + x) ay) as [a1|] eqn:H1; [|unfold zset in H1; by rewrite bool_decide_true in H1 by lia].
  cbn [mbind option_bind]. pose proof (zset_length _ _ _ _ H1) as Hl1.
  destruct (zset a1 (base + y) ax) as [a2|] eqn:H2; [|unfold zset in H2; rewrite bool_decide_true in H2 by lia; done].
  assert (Hg : forall i, zget a2 i = if bool_decide (base + y = i) then Some ax else if bool_decide (base + x = i) then Some ay else zget array i).
  { intros i. by rewrite (zget_zset _ _ _ _ i H2), (zget_zset _ _ _ _ i H1). }
  exists a2. split; [done|]. split; [|split; [|split]].
  - split.
    + apply zset_Some in H2 as [_ ->], H1 as [_ ->]. unfold zget in Hx, Hy. rewrite bool_decide_true in Hx, Hy by lia. by apply insert_twice_perm.
    + intros i Hi. rewrite Hg, !bool_decide_false by lia. done.
    + intros i z Hi. rewrite Hg. repeat case_bool_decide; intros Hz; [injection Hz as <-; by exists (base + x); split; [lia|]|injection Hz as <-; by exists (base + y); split; [lia|]|by exists i].
  - rewrite Hg. case_bool_decide as He; [|by rewrite bool_decide_true]. rewrite <- He in Hx. congruence.
  - by rewrite Hg, bool_decide_true.
  - intros i H3 H4. rewrite Hg, !bool_decide_false by lia. done.
Qed.
End Rearrange.

(** ** Partitioning *)

Section Correct.
Context {T : Type} (comparator : T -> T -> Z) `{!Comparator comparator}.
Implicit Types (array : list T) (base len : Z).

Let opp := cmp_opp (comparator := comparator).
Let range := cmp_range (comparator := comparator).
Let trans := cmp_trans (comparator := comparator).

Definition leq (x y : T) : Prop := comparator x y <= 0.

Lemma leq_refl x : leq x x.
Proof. unfold leq. pose proof (opp x x). lia. Qed.
Lemma not_less x y : comparator x y <> -1 -> leq y x.
Proof. unfold leq. rewrite (opp x y). destruct (range x y) as [|[|]]; lia. Qed.
Lemma not_greater x y : comparator x y <> 1 -> leq x y.
Proof. unfold leq. destruct (range x y) as [|[|]]; lia. Qed.
Lemma leq_total x y : leq x y \/ leq y x.
Proof. unfold leq. rewrite (opp x y). lia. Qed.

Lemma scan_left_ok (fuel : nat) array base (l s : Z) (p v : T) :
  0 <= base + l + 1 -> l < s -> s - l <= Z.of_nat fuel -> zget array (base + s) = Some v -> comparator v p <> -1 ->
  exists l' x, scan_left comparator fuel array base l p = Some l' /\ l < l' <= s /\
    zget array (base + l') = Some x /\ leq p x /\
    forall i y, l < i < l' -> zget array (base + i) = Some y -> leq y p.
Proof.
  revert l. induction fuel as [|fuel IH]; intros l Hb Hs Hf Hv Hc; [lia|]. cbn [scan_left].
  pose proof (zget_Some_range _ _ _ Hv). destruct (zget_Some array (base + (l + 1)) ltac:(lia)) as [x Hx].
  rewrite Hx. cbn [mbind option_bind]. destruct (Z.eqb_spec (comparator x p) (-1)) as [He|Hne].
  - assert (s <> l + 1) by congruence. destruct (IH (l + 1) ltac:(lia) ltac:(lia) ltac:(lia) Hv Hc) as (l' & z & H1 & H2 & H3 & H4 & H5).
    exists l', z. split; [done|]. split; [lia|]. split; [done|]. split; [done|]. intros i y Hi Hy.
    destruct (Z.eq_dec i (l + 1)) as [->|]; [|apply (H5 i); [lia|done]]. assert (y = x) as -> by congruence. unfold leq. lia.
  - exists (l + 1), x. split; [done|]. split; [lia|]. split; [done|]. split; [by apply not_less|lia].
Qed.

Lemma scan_right_ok (fuel : nat) array base (r s : Z) (p v : T) :
  base + r <= zlen array -> s < r -> r - s <= Z.of_nat fuel -> zget array (base + s) = Some v -> comparator v p <> 1 ->
  exists r' x, scan_right comparator fuel array base r p = Some r' /\ s <= r' < r /\
    zget array (base + r') = Some x /\ leq x p /\
    forall i y, r' < i < r -> zget array (base + i) = Some y -> leq p y.
Proof.
  revert r. induction fuel as [|fuel IH]; intros r Hb Hs Hf Hv Hc; [lia|]. cbn [scan_right].
  pose proof (zget_Some_range _ _ _ Hv). destruct (zget_Some array (base + (r - 1)) ltac:(lia)) as [x Hx].
  rewrite Hx. cbn [mbind option_bind]. destruct (Z.eqb_spec (comparator x p) 1) as [He|Hne].
  - assert (s <> r - 1) by congruence. destruct (IH (r - 1) ltac:(lia) ltac:(lia) ltac:(lia) Hv Hc) as (r' & z & H1 & H2 & H3 & H4 & H5).
    exists r', z. split; [done|]. split; [lia|]. split; [done|]. split; [done|]. intros i y Hi Hy.
    destruct (Z.eq_dec i (r - 1)) as [->|]; [|apply (H5 i); [lia|done]]. assert (y = x) as -> by congruence. apply not_less. lia.
  - exists (r - 1), x. split; [done|]. split; [lia|]. split; [done|]. split; [by apply not_greater|lia].
Qed.

(** Around the indices: smaller elements to the left, larger ones to the right. *)
Definition left_part array base (l : Z) (p : T) : Prop :=
  forall i x, 0 <= i <= l -> zget array (base + i) = Some x -> leq x p.
Definition right_part array base len (r : Z) (p : T) : Prop :=
  forall i x, r <= i < len -> zget array (base + i) = Some x -> leq p x.

Lemma partition_loop_ok (fuel : nat) (idempotent : bool) array base len (l r sl sr : Z) (p vl vr : T) :
  0 <= base -> base + len <= zlen array -> -1 <= l -> l < r <= len -> r - l <= Z.of_nat fuel ->
  left_part array base l p -> right_part array base len r p ->
  l < sl < len -> sl <= r -> zget array (base + sl) = Some vl -> comparator vl p <> -1 ->
  0 <= sr < r -> l <= sr -> zget array (base + sr) = Some vr -> comparator vr p <> 1 ->
  sl <= len - 2 \/ r <= len - 1 ->
  exists array' r', partition_loop comparator fuel idempotent array base l r p = Some (array', r') /\
    rearranged base len array array' /\ 0 <= r' <= len - 2 /\
    left_part array' base r' p /\ right_part array' base len (r' + 1) p.
Proof.
  revert array l r sl sr vl vr. induction fuel as [|fuel IH];
    intros array l r sl sr vl vr Hb Hlen Hl Hlr Hf HL HR Hsl Hslr Hvl Hcl Hsr Hlsr Hvr Hcr Hend; [lia|].
  cbn [partition_loop].
  destruct (scan_left_ok (S (length array)) array base l sl p vl) as (l' & x & -> & Hl' & Hx & Hpx & Hxs); [lia|lia|lia|done|done|].
  cbn [mbind option_bind].
  destruct (scan_right_ok (S (length array)) array base r sr p vr) as (r' & y & -> & Hr' & Hy & Hyp & Hys); [lia|lia|lia|done|done|].
  cbn [mbind option_bind].
  assert (HL' : left_part array base (l' - 1) p).
  { intros i z Hi Hz. destruct (Z.le_gt_cases i l); [by apply (HL i); [lia|]|by apply (Hxs i); [lia|]]. }
  assert (HR' : right_part array base len (r' + 1) p).
  { intros i z Hi Hz. destruct (Z.le_gt_cases r i); [by apply (HR i); [lia|]|by apply (Hys i); [lia|]]. }
  destruct (Z.ltb_spec l' r') as [Hlt|Hge].
  - rewrite Hx, Hy. cbn [mbind option_bind].
    assert (Hstep : exists a1, (if negb idempotent || negb (comparator x y =? 0) then swap array base l' r' else Some array) = Some a1 /\
      rearranged base len array a1 /\ (exists u v, zget a1 (base + l') = Some u /\ leq u p /\ zget a1 (base + r') = Some v /\ leq p v) /\
      forall i, i <> base + l' -> i <> base + r' -> zget a1 i = zget array i).
    { destruct (negb idempotent || _) eqn:Hsw.
      - destruct (swap_ok array base len l' r' x y Hx Hy ltac:(lia) ltac:(lia)) as (a1 & H1 & H2 & H3 & H4 & H5).
        exists a1. split; [done|]. split; [done|]. split; [by exists y, x|done].
      - exists array. split; [done|]. split; [apply rearranged_refl|]. split; [|done]. exists x, y.
        apply orb_false_iff in Hsw as [_ Heq]. apply negb_false_iff, Z.eqb_eq in Heq.
        assert (leq x y) by (unfold leq; lia). assert (leq y x) by (unfold leq; rewrite (opp x y); lia).
        split; [done|]. split; [by apply (trans x y p)|]. split; [done|]. by apply (trans p x y). }
    destruct Hstep as (a1 & -> & Hre & (u & v & Hu & Hup & Hv & Hpv) & Hsame). cbn [mbind option_bind].
    destruct (IH a1 l' r' r' l' v u) as (a2 & r2 & -> & Hre2 & Hb2 & HL2 & HR2); try done; try lia.
    + rewrite (rearranged_length _ _ _ _ Hre). lia.
    + intros i z Hi. destruct (Z.eq_dec i l') as [->|]; [rewrite Hu; by intros [= <-]|]. rewrite Hsame by lia. apply HL'. lia.
    + intros i z Hi. destruct (Z.eq_dec i r') as [->|]; [rewrite Hv; by intros [= <-]|]. rewrite Hsame by lia. apply HR'. lia.
    + unfold leq in Hpv. rewrite (opp v p) in Hpv. lia.
    + unfold leq in Hup. lia.
    + exists a2, r2. split; [done|]. split; [by apply (rearranged_trans _ _ _ a1)|]. done.
  - exists array, r'. split; [done|]. split; [apply rearranged_refl|]. split; [lia|]. split; [|done].
    intros i z Hi Hz. destruct (Z.eq_dec i r') as [->|]; [congruence|]. apply (HL' i); [lia|done].
Qed.

(** ** Sorting *)

Definition sorted_part array base len : Prop :=
  forall i j x y, 0 <= i < j -> j < len -> zget array (base + i) = Some x -> zget array (base + j) = Some y -> leq x y.

Lemma order_ok array base len (i j : Z) (x y : T) :
  zget array (base + i) = Some x -> zget array (base + j) = Some y -> 0 <= i < len -> 0 <= j < len ->
  exists array' u v, order comparator array base i j = Some array' /\ rearranged base len array array' /\
    zget array' (base + i) = Some u /\ zget array' (base + j) = Some v /\ leq u v /\
    ((u = x /\ v = y) \/ (u = y /\ v = x /\ leq y x)) /\
    forall k, k <> base + i -> k <> base + j -> zget array' k = zget array k.
Proof.
  intros Hx Hy Hi Hj. unfold order. rewrite Hx, Hy. cbn [mbind option_bind].
  destruct (Z.eqb_spec (comparator x y) 1) as [He|Hne].
  - destruct (swap_ok array base len i j x y Hx Hy Hi Hj) as (a & H1 & H2 & H3 & H4 & H5).
    assert (leq y x) by (unfold leq; rewrite (opp x y); lia). exists a, y, x. repeat split; auto; apply H2.
  - exists array, x, y. split; [done|]. split; [apply rearranged_refl|]. split; [done|]. split; [done|].
    split; [by apply not_greater|]. split; [by left|done].
Qed.

(** Up to three elements are sorted by the choice of the pivot. *)
Lemma find_pivot_ok array base len :
  0 <= base -> base + len <= zlen array -> 2 <= len ->
  exists array', find_pivot comparator array base len = Some (array', Z.quot len 2) /\ rearranged base len array array' /\
    (len < 4 -> sorted_part array' base len).
Proof.
  intros Hb Hlen H2. unfold find_pivot. rewrite Z.quot_div_nonneg by lia. set (m := len / 2).
  assert (Hm : 1 <= m < len /\ 2 * m <= len <= 2 * m + 1).
  { unfold m. pose proof (Z.div_mod len 2 ltac:(lia)). pose proof (Z.mod_pos_bound len 2 ltac:(lia)). lia. }
  clearbody m. destruct (zget_Some array (base + 0) ltac:(lia)) as [x Hx]. destruct (zget_Some array (base + m) ltac:(lia)) as [y Hy].
  destruct (order_ok array base len 0 m x y Hx Hy ltac:(lia) ltac:(lia)) as (a1 & u1 & v1 & -> & R1 & U1 & V1 & L1 & _ & S1).
  cbn [mbind option_bind]. pose proof (rearranged_length _ _ _ _ R1).
  destruct (zget_Some a1 (base + (len - 1)) ltac:(lia)) as [z Hz].
  destruct (order_ok a1 base len 0 (len - 1) u1 z U1 Hz ltac:(lia) ltac:(lia)) as (a2 & u2 & w2 & -> & R2 & U2 & W2 & L2 & C2 & S2).
  cbn [mbind option_bind].
  assert (Hmid : exists v2, zget a2 (base + m) = Some v2 /\ leq u2 v2).
  { destruct (Z.eq_dec m (len - 1)) as [->|Hne]; [by exists w2|]. exists v1. rewrite S2 by lia. split; [done|].
    destruct C2 as [[-> ->]|(-> & -> & Hl)]; [done|]. by apply (trans z u1 v1). }
  destruct Hmid as (v2 & V2 & L2'). pose proof (rearranged_length _ _ _ _ R2).
  destruct (order_ok a2 base len m (len - 1) v2 w2 V2 W2 ltac:(lia) ltac:(lia)) as (a3 & v3 & w3 & -> & R3 & V3 & W3 & L3 & C3 & S3).
  cbn [mbind option_bind]. exists a3. split; [done|]. split; [by apply (rearranged_trans _ _ _ a2), R3; apply (rearranged_trans _ _ _ a1)|].
  intros H4 i j p q Hij Hj Hp Hq. assert (U3 : zget a3 (base + 0) = Some u2) by (by rewrite S3 by lia).
  assert (Hlow : leq u2 v3 /\ leq u2 w3) by (destruct C3 as [[-> ->]|(-> & -> & _)]; done).
  assert (i = 0 \/ i = m /\ j = len - 1) as [->|[-> ->]] by lia; [|congruence].
  assert (p = u2) as -> by congruence. assert (j = m \/ j = len - 1) as [->| ->] by lia; intuition congruence.
Qed.

Lemma partition_ok (idempotent : bool) array base len :
  0 <= base -> base + len <= zlen array -> 4 <= len ->
  exists array' split p, partition comparator idempotent array base (Z.quot len 2) len = Some (array', split) /\
    rearranged base len array array' /\ 0 <= split <= len - 2 /\
    left_part array' base split p /\ right_part array' base len (split + 1) p.
Proof.
  intros Hb Hlen H4. rewrite Z.quot_div_nonneg by lia. set (m := len / 2).
  assert (Hm : 2 <= m <= len - 2).
  { unfold m. pose proof (Z.div_mod len 2 ltac:(lia)). pose proof (Z.mod_pos_bound len 2 ltac:(lia)). lia. }
  unfold partition. destruct (zget_Some array (base + m) ltac:(lia)) as [p Hp]. rewrite Hp. cbn [mbind option_bind].
  pose proof (opp p p). destruct (partition_loop_ok (S (length array)) idempotent array base len (-1) len m m p p p) as (a & s & H1 & H2 & H3 & H5 & H6);
    try done; try lia; [intros i x Hi; lia|intros i x Hi; lia|].
  by exists a, s, p.
Qed.

(** Two sorted parts with a pivot between them. *)
Lemma sorted_join array base len (s : Z) (p : T) :
  left_part array base s p -> right_part array base len (s + 1) p -> -1 <= s < len ->
  sorted_part array base (s + 1) -> sorted_part array (base + (s + 1)) (len - (s + 1)) -> sorted_part array base len.
Proof.
  intros HL HR Hs S1 S2 i j x y Hij Hj Hx Hy. destruct (Z.le_gt_cases j s); [by apply (S1 i j); [lia|lia|..]|].
  destruct (Z.le_gt_cases i s); [apply (trans x p y); [by apply (HL i); [lia|]|by apply (HR j); [lia|]]|].
  apply (S2 (i - (s + 1)) (j - (s + 1))); [lia|lia|by rewrite <- Hx; f_equal; lia|by rewrite <- Hy; f_equal; lia].
Qed.

Lemma inner_sort_ok (fuel : nat) (idempotent : bool) array base len :
  0 <= base -> base + len <= zlen array -> 0 <= len <= Z.of_nat fuel -> (0 < fuel)%nat ->
  exists array', inner_sort comparator fuel idempotent array base len = Some array' /\ rearranged base len array array' /\
    sorted_part array' base len.
Proof.
  revert array base len. induction fuel as [|fuel IH]; intros array base len Hb Hlen Hf H0; [lia|]. cbn [inner_sort].
  destruct (Z.ltb_spec len 2); [exists array; split; [done|]; split; [apply rearranged_refl|intros i j x y ? ?; lia]|].
  destruct (find_pivot_ok array base len Hb Hlen ltac:(lia)) as (a1 & -> & R1 & S1). cbn [mbind option_bind].
  destruct (Z.ltb_spec len 4); [exists a1; split; [done|]; split; [done|by apply S1]|].
  pose proof (rearranged_length _ _ _ _ R1).
  destruct (partition_ok idempotent a1 base len Hb ltac:(lia) ltac:(lia)) as (a2 & s & p & -> & R2 & Hs & HL & HR).
  cbn [mbind option_bind]. pose proof (rearranged_length _ _ _ _ R2).
  destruct (IH a2 base (s + 1)) as (a3 & -> & R3 & S3); [lia|lia|lia|lia|]. cbn [mbind option_bind].
  pose proof (rearranged_length _ _ _ _ R3).
  destruct (IH a3 (base + (s + 1)) (len - (s + 1))) as (a4 & He4 & R4 & S4); [lia|lia|lia|lia|].
  exists a4. split; [done|]. pose proof (rearranged_widen base len base (s + 1) _ _ ltac:(lia) ltac:(lia) R3) as R3'.
  pose proof (rearranged_widen base len (base + (s + 1)) (len - (s + 1)) _ _ ltac:(lia) ltac:(lia) R4) as R4'.
  split; [by apply (rearranged_trans _ _ _ a3), R4'; apply (rearranged_trans _ _ _ a2), R3'; apply (rearranged_trans _ _ _ a1)|].
  apply (sorted_join a4 base len s p); [| |lia| |done].
  - intros i x Hi Hx. rewrite (re_frame _ _ _ _ R4) in Hx by lia.
    apply (rearranged_all (fun x => leq x p) _ _ _ _ R3) with (i := base + i); [|lia|done].
    intros j y Hj Hy. apply (HL (j - base)); [lia|]. by replace (base + (j - base)) with j by lia.
  - intros i x Hi Hx. apply (rearranged_all (fun x => leq p x) _ _ _ _ R4) with (i := base + i); [|lia|done].
    intros j y Hj Hy. rewrite (re_frame _ _ _ _ R3) in Hy by lia. apply (HR (j - base)); [lia|].
    by replace (base + (j - base)) with j by lia.
  - intros i j x y Hij Hj Hx Hy. rewrite (re_frame _ _ _ _ R4) in Hx, Hy by lia. by apply (S3 i j).
Qed.

(** ** Sorting what is sorted *)

Lemma order_sorted array base len (i j : Z) array' :
  sorted_part array base len -> 0 <= i <= j -> j < len -> order comparator array base i j = Some array' -> array' = array.
Proof.
  intros Hs Hi Hj. unfold order. destruct (zget array (base + i)) as [x|] eqn:Hx; [|done].
  destruct (zget array (base + j)) as [y|] eqn:Hy; [|done]. cbn [mbind option_bind].
  assert (Hxy : leq x y).
  { destruct (Z.eq_dec i j) as [->|]; [assert (x = y) as -> by congruence; apply leq_refl|by apply (Hs i j); [lia|..]]. }
  unfold leq in Hxy. destruct (Z.eqb_spec (comparator x y) 1); [lia|]. by intros [= <-].
Qed.

Lemma scan_left_result (fuel : nat) array base (l l' : Z) (p : T) :
  scan_left comparator fuel array base l p = Some l' ->
  l < l' /\ exists x, zget array (base + l') = Some x /\ leq p x.
Proof.
  revert l. induction fuel as [|fuel IH]; intros l; cbn [scan_left]; [done|].
  destruct (zget array (base + (l + 1))) as [x|] eqn:Hx; cbn [mbind option_bind]; [|done]. destruct (Z.eqb_spec (comparator x p) (-1)).
  - intros [H1 H2]%IH. split; [lia|done].
  - intros [= <-]. split; [lia|]. exists x. split; [done|by apply not_less].
Qed.

Lemma scan_right_result (fuel : nat) array base (r r' : Z) (p : T) :
  scan_right comparator fuel array base r p = Some r' ->
  r' < r /\ exists x, zget array (base + r') = Some x /\ leq x p.
Proof.
  revert r. induction fuel as [|fuel IH]; intros r; cbn [scan_right]; [done|].
  destruct (zget array (base + (r - 1))) as [x|] eqn:Hx; cbn [mbind option_bind]; [|done]. destruct (Z.eqb_spec (comparator x p) 1).
  - intros [H1 H2]%IH. split; [lia|done].
  - intros [= <-]. split; [lia|]. exists x. split; [done|by apply not_greater].
Qed.

Lemma partition_loop_sorted (fuel : nat) array base len (l r : Z) (p : T) array' r' :
  sorted_part array base len -> -1 <= l -> r <= len ->
  partition_loop comparator fuel true array base l r p = Some (array', r') -> array' = array.
Proof.
  intros Hs. revert l r. induction fuel as [|fuel IH]; intros l r Hl Hr; cbn [partition_loop]; [done|].
  destruct (scan_left _ _ _ _ _ _) as [l1|] eqn:Hsl; cbn [mbind option_bind]; [|done].
  apply scan_left_result in Hsl as (Hl1 & x & Hx & Hpx).
  destruct (scan_right _ _ _ _ _ _) as [r1|] eqn:Hsr; cbn [mbind option_bind]; [|done].
  apply scan_right_result in Hsr as (Hr1 & y & Hy & Hyp).
  destruct (Z.ltb_spec l1 r1); [|by intros [= <- <-]]. rewrite Hx, Hy. cbn [mbind option_bind].
  assert (Hxy : leq x y) by (apply (Hs l1 r1); [lia|lia|done|done]).
  assert (Hyx : leq y x) by (by apply (trans y p x)). unfold leq in Hxy, Hyx. rewrite (opp x y) in Hyx.
  assert (He : comparator x y = 0) by lia. rewrite He. cbn [negb orb Z.eqb mbind option_bind]. apply IH; lia.
Qed.

Lemma inner_sort_sorted (fuel : nat) array base len :
  0 <= base -> base + len <= zlen array -> 0 <= len <= Z.of_nat fuel -> (0 < fuel)%nat -> sorted_part array base len ->
  inner_sort comparator fuel true array base len = Some array.
Proof.
  revert base len. induction fuel as [|fuel IH]; intros base len Hb Hlen Hf H0 Hs; [lia|]. cbn [inner_sort].
  destruct (Z.ltb_spec len 2); [done|].
  assert (Hpiv : find_pivot comparator array base len = Some (array, Z.quot len 2)).
  { destruct (find_pivot_ok array base len Hb Hlen ltac:(lia)) as (a & He & _). unfold find_pivot in *.
    rewrite Z.quot_div_nonneg in * by lia. pose proof (Z.div_mod len 2 ltac:(lia)). pose proof (Z.mod_pos_bound len 2 ltac:(lia)).
    destruct (order _ array base 0 (len / 2)) as [a1|] eqn:O1; cbn [mbind option_bind] in *; [|done].
    apply (order_sorted _ _ len) in O1 as ->; [|done|lia|lia].
    destruct (order _ array base 0 (len - 1)) as [a2|] eqn:O2; cbn [mbind option_bind] in *; [|done].
    apply (order_sorted _ _ len) in O2 as ->; [|done|lia|lia].
    destruct (order _ array base (len / 2) (len - 1)) as [a3|] eqn:O3; cbn [mbind option_bind] in *; [|done].
    apply (order_sorted _ _ len) in O3 as ->; [|done|lia|lia]. done. }
  rewrite Hpiv. cbn [mbind option_bind]. destruct (Z.ltb_spec len 4); [done|].
  destruct (partition_ok true array base len Hb Hlen ltac:(lia)) as (a & s & p & Hp & _ & Hsr & _).
  assert (a = array) as ->.
  { unfold partition in Hp. destruct (zget array _) as [v|]; cbn [mbind option_bind] in Hp; [|done].
    apply (partition_loop_sorted _ _ _ len) in Hp; [done|done|lia|lia]. }
  rewrite Hp. cbn [mbind option_bind]. rewrite IH; [|lia|lia|lia|lia|intros i j x y ? ?; apply Hs; lia].
  cbn [mbind option_bind]. apply IH; [lia|lia|lia|lia|]. intros i j x y Hij Hj Hx Hy.
  apply (Hs (s + 1 + i) (s + 1 + j)); [lia|lia|by rewrite <- Hx; f_equal; lia|by rewrite <- Hy; f_equal; lia].
Qed.
End Correct.

(** ** Properties *)

Lemma sorted_list {T} (comparator : T -> T -> Z) (array : list T) :
  sorted_part comparator array 0 (zlen array) <-> Sorted.StronglySorted (leq comparator) array.
Proof.
  induction array as [|x array IH]; split; intros Hs; [constructor|intros i j y z Hij Hj; cbn in Hj; lia|..].
  - constructor.
    + apply IH. intros i j y z Hij Hj Hy Hz. apply (Hs (i + 1) (j + 1)); [lia|cbn [length]; lia| |];
        unfold zget in *; rewrite bool_decide_true in * by lia; [rewrite <- Hy|rewrite <- Hz];
        [replace (Z.to_nat (0 + (i + 1))) with (S (Z.to_nat (0 + i))) by lia|replace (Z.to_nat (0 + (j + 1))) with (S (Z.to_nat (0 + j))) by lia]; done.
    + apply list.Forall_lookup. intros i y Hy. apply (Hs 0 (Z.of_nat (S i))); [lia| |done|].
      * apply lookup_lt_Some in Hy. cbn [length]. lia.
      * unfold zget. rewrite bool_decide_true by lia. by rewrite Z.add_0_l, Nat2Z.id.
  - inversion Hs as [|? ? Hss Hall]; subst. apply IH in Hss. intros i j y z Hij Hj Hy Hz.
    rewrite Z.add_0_l in *. unfold zget in Hy, Hz. rewrite bool_decide_true in Hy, Hz by lia.
    replace (Z.to_nat j) with (S (Z.to_nat (j - 1))) in Hz by lia. cbn in Hz. destruct (Z.eq_dec i 0) as [->|].
    + injection Hy as <-. by apply (list.Forall_lookup_1 _ _ _ _ Hall Hz).
    + replace (Z.to_nat i) with (S (Z.to_nat (i - 1))) in Hy by lia. cbn in Hy, Hj.
      apply (Hss (i - 1) (j - 1)); [lia|lia| |]; unfold zget; rewrite bool_decide_true by lia; by rewrite Z.add_0_l.
Qed.

(** C11: [QuickSort::sort] returns, stays inside the array, and leaves it sorted and
    with the same elements, for any comparator that is a total preorder and any
    array.  With [idempotent] set, an array that is already sorted is not changed,
    even where elements compare as equal. *)
Theorem quick_sort_correct {T} (comparator : T -> T -> Z) `{!Comparator comparator} (array : list T) (idempotent : bool) :
  exists array', sort comparator array (zlen array) idempotent = Some array' /\ array' ≡ₚ array /\
    Sorted.StronglySorted (leq comparator) array' /\
    (idempotent = true -> Sorted.StronglySorted (leq comparator) array -> array' = array).
Proof.
  destruct (inner_sort_ok comparator (S (length array)) idempotent array 0 (zlen array)) as (a & H1 & H2 & H3);
    [lia|lia|lia|lia|].
  exists a. split; [by destruct idempotent|]. split; [apply H2|].
  pose proof (rearranged_length _ _ _ _ H2) as Hl. rewrite <- Hl in H3. split; [by apply sorted_list|].
  intros -> Hs%sorted_list. rewrite inner_sort_sorted in H1; [congruence|done|lia|lia|lia|lia|done].
Qed.

(** The order of addresses, as [Symbol::fast_compare] computes it. *)
Definition fast_compare (a b : Z) : Z := if a <? b then -1 else if a =? b then 0 else 1.

#[export] Instance fast_compare_comparator : Comparator fast_compare.
Proof.
  split; unfold fast_compare.
  - intros a b. destruct (a <? b), (a =? b); auto.
  - intros a b. destruct (Z.ltb_spec a b), (Z.ltb_spec b a), (Z.eqb_spec a b), (Z.eqb_spec b a); lia.
  - intros a b c. destruct (Z.ltb_spec a b), (Z.ltb_spec b c), (Z.ltb_spec a c), (Z.eqb_spec a b), (Z.eqb_spec b c), (Z.eqb_spec a c); lia.
Qed.

Lemma quick_sort_correct_witness :
  sort fast_compare [5; 3; 9; 3; 1; 7; 2] 7 false = Some [1; 2; 3; 3; 5; 7; 9] /\ [1; 2; 3; 3; 5; 7; 9] ≡ₚ [5; 3; 9; 3; 1; 7; 2].
Proof.
  assert (He : sort fast_compare [5; 3; 9; 3; 1; 7; 2] 7 false = Some [1; 2; 3; 3; 5; 7; 9]) by (vm_compute; reflexivity).
  destruct (quick_sort_correct fast_compare [5; 3; 9; 3; 1; 7; 2] false) as (a & H & Hp & _). split; [exact He|].
  change (zlen [5; 3; 9; 3; 1; 7; 2]) with 7 in H. rewrite He in H. injection H as <-. exact Hp.
Defined.
