(* ===== verification/MethodLookup.v ===== *)
(** The method array of a class: sorting by name (oops/method.cpp) and lookup by
    binary search (oops/instanceKlass.cpp).

    A [Symbol*] is its address; names and signatures are compared as pointers, as
    in the code.  An array of methods is a list. *)

From S2P Require Import Prelude QuickSort.

(** ** Definitions *)

Record Method := mkMethod {
  name : Z; signature : Z;
  is_overpass : bool; is_static : bool; is_private : bool;
  method_idnum : Z; orig_method_idnum : Z;
}.

Definition method_comparator (a b : Method) : Z := fast_compare (name a) (name b).

Definition set_idnum (i : nat) (m : Method) : Method :=
  mkMethod (name m) (signature m) (is_overpass m) (is_static m) (is_private m) (u16 (Z.of_nat i)) (u16 (Z.of_nat i)).

Definition sort_methods (methods : list Method) (idempotent set_idnums : bool) : option (list Method) :=
  let length := zlen methods in
  if 1 <? length then
    methods ← sort method_comparator methods length idempotent;
    Some (if set_idnums then imap set_idnum methods else methods)
  else Some methods.

Fixpoint linear_search_from (methods : list Method) (index nm sig : Z) : Z :=
  match methods with
  | [] => -1
  | m :: methods =>
      if (signature m =? sig) && (name m =? nm) then index else linear_search_from methods (index + 1) nm sig
  end.
Definition linear_search (methods : list Method) (nm sig : Z) : Z := linear_search_from methods 0 nm sig.

Fixpoint binary_search_loop (fuel : nat) (methods : list Method) (nm l h : Z) : option Z :=
  match fuel with
  | O => None
  | S fuel' =>
      if l <=? h then
        let mid := Z.shiftr (s32 (l + h)) 1 in
        m ← zget methods mid;
        let res := fast_compare (name m) nm in
        if res =? 0 then Some mid
        else if res <? 0 then binary_search_loop fuel' methods nm (mid + 1) h
        else binary_search_loop fuel' methods nm l (mid - 1)
      else Some (-1)
  end.
Definition binary_search (methods : list Method) (nm : Z) : option Z :=
  let len := zlen methods in binary_search_loop (S (length methods)) methods nm 0 (len - 1).

Inductive OverpassLookupMode := find_overpass | skip_overpass.
Inductive StaticLookupMode := find_static | skip_static.
Inductive PrivateLookupMode := find_private | skip_private.

Definition method_matches (m : Method) (sig : Z) (skipping_overpass skipping_static skipping_private : bool) : bool :=
  (signature m =? sig) &&
  (negb skipping_overpass || negb (is_overpass m)) &&
  (negb skipping_static || negb (is_static m)) &&
  (negb skipping_private || negb (is_private m)).

(** The search through the methods of the same name from [i] in direction [dir]; a
    break and the end of the loop give no index. *)
Fixpoint search_overloads (fuel : nat) (methods : list Method) (nm : Z) (matches : Method -> bool) (i dir : Z)
  : option (option Z) :=
  match fuel with
  | O => None
  | S fuel' =>
      if (0 <=? i) && (i <? zlen methods) then
        m ← zget methods i;
        if negb (name m =? nm) then Some None
        else if matches m then Some (Some i)
        else search_overloads fuel' methods nm matches (i + dir) dir
      else Some None
  end.

(** [method_matches] with the flags of the modes. *)
Definition lookup_matches (sig : Z) (overpass_mode : OverpassLookupMode) (static_mode : StaticLookupMode)
  (private_mode : PrivateLookupMode) (m : Method) : bool :=
  let skipping_overpass := match overpass_mode with skip_overpass => true | find_overpass => false end in
  let skipping_static := match static_mode with skip_static => true | find_static => false end in
  let skipping_private := match private_mode with skip_private => true | find_private => false end in
  method_matches m sig skipping_overpass skipping_static skipping_private.

Definition find_method_index (methods : list Method) (nm sig : Z) (overpass_mode : OverpassLookupMode)
  (static_mode : StaticLookupMode) (private_mode : PrivateLookupMode) : option Z :=
  hit ← binary_search methods nm;
  if negb (hit =? -1) then
    m ← zget methods hit;
    if lookup_matches sig overpass_mode static_mode private_mode m then Some hit
    else
      down ← search_overloads (S (length methods)) methods nm
        (lookup_matches sig overpass_mode static_mode private_mode) (hit - 1) (-1);
      match down with
      | Some i => Some i
      | None =>
          up ← search_overloads (S (length methods)) methods nm
        (lookup_matches sig overpass_mode static_mode private_mode) (hit + 1) 1;
          match up with Some i => Some i | None => Some (-1) end
      end
  else Some (-1).

Definition find_method_impl (methods : list Method) (nm sig : Z) (overpass_mode : OverpassLookupMode)
  (static_mode : StaticLookupMode) (private_mode : PrivateLookupMode) : option (option Method) :=
  hit ← find_method_index methods nm sig overpass_mode static_mode private_mode;
  if 0 <=? hit then m ← zget methods hit; Some (Some m) else Some None.

Definition find_method (methods : list Method) (nm sig : Z) : option (option Method) :=
  find_method_impl methods nm sig find_overpass find_static find_private.
Definition find_instance_method (methods : list Method) (nm sig : Z) (private_mode : PrivateLookupMode) : option (option Method) :=
  find_method_impl methods nm sig find_overpass skip_static private_mode.
Definition find_local_method (methods : list Method) (nm sig : Z) (overpass_mode : OverpassLookupMode)
  (static_mode : StaticLookupMode) (private_mode : PrivateLookupMode) : option (option Method) :=
  find_method_impl methods nm sig overpass_mode static_mode private_mode.

(** The two [while] loops of [find_method_by_name]. *)
Fixpoint extend_start (fuel : nat) (methods : list Method) (nm start : Z) : option Z :=
  match fuel with
  | O => None
  | S fuel' =>
      if 0 <=? start - 1 then
        m ← zget methods (start - 1);
        if name m =? nm then extend_start fuel' methods nm (start - 1) else Some start
      else Some start
  end.
Fixpoint extend_end (fuel : nat) (methods : list Method) (nm end_ : Z) : option Z :=
  match fuel with
  | O => None
  | S fuel' =>
      if end_ <? zlen methods then
        m ← zget methods end_;
        if name m =? nm then extend_end fuel' methods nm (end_ + 1) else Some end_
      else Some end_
  end.

(** The range of the methods with the name, if there is one. *)
Definition find_method_by_name (methods : list Method) (nm : Z) : option (option (Z * Z)) :=
  start ← binary_search methods nm;
  let end_ := start + 1 in
  if negb (start =? -1) then
    start ← extend_start (S (length methods)) methods nm start;
    end_ ← extend_end (S (length methods)) methods nm end_;
    Some (Some (start, end_))
  else Some None.

(** The method arrays of a class and its superclasses. *)
Fixpoint uncached_lookup_method (klasses : list (list Method)) (nm sig : Z) (overpass_local_mode : OverpassLookupMode)
  : option (option Method) :=
  match klasses with
  | [] => Some None
  | methods :: klasses =>
      method ← find_method_impl methods nm sig overpass_local_mode find_static find_private;
      match method with
      | Some m => Some (Some m)
      | None => uncached_lookup_method klasses nm sig skip_overpass
      end
  end.

(** ** Lookup in a sorted array *)

Lemma fast_compare_spec (a b : Z) :
  (fast_compare a b = 0 /\ a = b) \/ (fast_compare a b = -1 /\ a < b) \/ (fast_compare a b = 1 /\ b < a).
Proof. unfold fast_compare. destruct (Z.ltb_spec a b), (Z.eqb_spec a b); lia. Qed.

Section Sorted.
Context (methods : list Method).

Definition names_sorted : Prop :=
  forall i j a b, i <= j -> zget methods i = Some a -> zget methods j = Some b -> name a <= name b.

Hypothesis Hsorted : names_sorted.
Hypothesis Hlen : zlen methods < 2 ^ 30.

Lemma binary_search_loop_ok (fuel : nat) (nm l h : Z) :
  0 <= l -> h < zlen methods -> l <= h + 1 -> h - l + 1 < Z.of_nat fuel ->
  (forall i m, i < l \/ h < i -> zget methods i = Some m -> name m <> nm) ->
  exists r, binary_search_loop fuel methods nm l h = Some r /\
    ((r = -1 /\ forall i m, zget methods i = Some m -> name m <> nm) \/
     exists m, 0 <= r /\ zget methods r = Some m /\ name m = nm).
Proof.
  revert l h. induction fuel as [|fuel IH]; intros l h Hl Hh Hlh Hf Hout; [lia|]. cbn [binary_search_loop].
  destruct (Z.leb_spec l h).
  - rewrite smod_id by (pow2_norm; lia). rewrite Z.shiftr_div_pow2 by lia. change (2 ^ 1) with 2.
    pose proof (Z.div_mod (l + h) 2 ltac:(lia)). pose proof (Z.mod_pos_bound (l + h) 2 ltac:(lia)). set (mid := (l + h) / 2) in *.
    destruct (zget_Some methods mid ltac:(lia)) as [m Hm]. rewrite Hm. cbn [mbind option_bind].
    destruct (fast_compare_spec (name m) nm) as [[-> He]|[[-> Hlt]|[-> Hgt]]]; cbn [Z.eqb Z.ltb Z.compare].
    + exists mid. split; [done|]. right. exists m. split; [lia|done].
    + apply IH; [lia|lia|lia|lia|]. intros i a Hi Ha. destruct Hi as [Hi|Hi]; [|apply (Hout i); [by right|done]].
      pose proof (Hsorted i mid a m ltac:(lia) Ha Hm). lia.
    + apply IH; [lia|lia|lia|lia|]. intros i a Hi Ha. destruct Hi as [Hi|Hi]; [apply (Hout i); [by left|done]|].
      pose proof (Hsorted mid i m a ltac:(lia) Hm Ha). lia.
  - exists (-1). split; [done|]. left. split; [done|]. intros i m Hm. apply (Hout i); [lia|done].
Qed.

Lemma binary_search_ok (nm : Z) :
  exists r, binary_search methods nm = Some r /\
    ((r = -1 /\ forall i m, zget methods i = Some m -> name m <> nm) \/
     exists m, 0 <= r /\ zget methods r = Some m /\ name m = nm).
Proof.
  apply binary_search_loop_ok; [lia|lia|lia|lia|]. intros i m Hi Hm. apply zget_Some_range in Hm. lia.
Qed.

(** From a method with the name on, in either direction, the search meets all the
    methods with the name. *)
Lemma search_overloads_ok (fuel : nat) (nm : Z) (matches : Method -> bool) (i dir h : Z) (mh : Method) :
  dir = 1 \/ dir = -1 -> zget methods h = Some mh -> name mh = nm -> 0 < dir * (i - h) ->
  (if dir =? 1 then zlen methods - i else i + 1) < Z.of_nat fuel -> -1 <= i <= zlen methods ->
  exists r, search_overloads fuel methods nm matches i dir = Some r /\
    match r with
    | Some j => exists m, zget methods j = Some m /\ name m = nm /\ matches m = true
    | None => forall j m, 0 <= dir * (j - i) -> zget methods j = Some m -> name m = nm -> matches m = false
    end.
Proof.
  intros Hdir Hh Hnm. revert i. induction fuel as [|fuel IH]; intros i Hpos Hf Hi; [destruct Hdir as [->| ->]; cbn in Hf; lia|].
  cbn [search_overloads]. destruct (Z.leb_spec 0 i), (Z.ltb_spec i (zlen methods)); cbn [andb];
    try (eexists; split; [done|]; intros j m Hj Hm; pose proof (zget_Some_range _ _ _ Hm); pose proof (zget_Some_range _ _ _ Hh); destruct Hdir as [->| ->]; lia).
  destruct (zget_Some methods i ltac:(lia)) as [m Hm]. rewrite Hm. cbn [mbind option_bind].
  destruct (Z.eqb_spec (name m) nm) as [He|Hne]; cbn [negb].
  - destruct (matches m) eqn:Hmt; [exists (Some i); split; [done|by exists m]|].
    destruct (IH (i + dir)) as (r & Hr & Hs); [destruct Hdir as [->| ->]; lia|destruct Hdir as [->| ->]; cbn in *; lia|lia|].
    exists r. split; [done|]. destruct r; [done|]. intros j mj Hj Hmj Hnj.
    destruct (Z.eq_dec j i) as [->|]; [congruence|]. apply (Hs j); [destruct Hdir as [->| ->]; lia|done|done].
  - exists None. split; [done|]. intros j mj Hj Hmj Hnj. exfalso. apply Hne. destruct Hdir as [->| ->].
    + pose proof (Hsorted h i _ _ ltac:(lia) Hh Hm). pose proof (Hsorted i j _ _ ltac:(lia) Hm Hmj). lia.
    + pose proof (Hsorted i h _ _ ltac:(lia) Hm Hh). pose proof (Hsorted j i _ _ ltac:(lia) Hmj Hm). lia.
Qed.

(** The modes as a condition on a method. *)
Definition wanted (nm sig : Z) (om : OverpassLookupMode) (sm : StaticLookupMode) (pm : PrivateLookupMode) (m : Method) : Prop :=
  name m = nm /\ signature m = sig /\
  (om = skip_overpass -> is_overpass m = false) /\ (sm = skip_static -> is_static m = false) /\
  (pm = skip_private -> is_private m = false).

Lemma lookup_matches_wanted (nm sig : Z) om sm pm (m : Method) :
  name m = nm ->
  lookup_matches sig om sm pm m = true <-> wanted nm sig om sm pm m.
Proof.
  intros Hn. unfold lookup_matches, method_matches, wanted. rewrite !andb_true_iff, Z.eqb_eq.
  destruct om, sm, pm; cbn; rewrite ?negb_true_iff; naive_solver.
Qed.

Lemma find_method_index_ok (nm sig : Z) om sm pm :
  exists r, find_method_index methods nm sig om sm pm = Some r /\
    ((r = -1 /\ forall i m, zget methods i = Some m -> ~ wanted nm sig om sm pm m) \/
     exists m, 0 <= r /\ zget methods r = Some m /\ wanted nm sig om sm pm m).
Proof.
  unfold find_method_index. set (matches := lookup_matches sig om sm pm).
  assert (Hmt : forall m, name m = nm -> matches m = true <-> wanted nm sig om sm pm m) by (intros m; apply lookup_matches_wanted).
  clearbody matches. destruct (binary_search_ok nm) as (h & -> & [[-> Hno]|(mh & H0 & Hh & Hn)]); cbn [mbind option_bind].
  - exists (-1). split; [done|]. left. split; [done|]. intros i m Hm [Hw _]. by apply (Hno i m).
  - destruct (Z.eqb_spec h (-1)); [lia|]. cbn [negb]. rewrite Hh. cbn [mbind option_bind].
    pose proof (zget_Some_range _ _ _ Hh). destruct (matches mh) eqn:Hm; [exists h; split; [done|]; right; exists mh; by rewrite <- Hmt|].
    destruct (search_overloads_ok (S (length methods)) nm matches (h - 1) (-1) h mh) as (d & -> & Hd); try done; try (cbn; lia).
    cbn [mbind option_bind]. destruct d as [j|].
    + destruct Hd as (m & Hj & Hnj & Hmj). exists j. split; [done|]. right. exists m. rewrite <- Hmt by done.
      split; [apply zget_Some_range in Hj; lia|done].
    + destruct (search_overloads_ok (S (length methods)) nm matches (h + 1) 1 h mh) as (u & -> & Hu); try done; try (cbn; lia).
      cbn [mbind option_bind]. destruct u as [j|].
      * destruct Hu as (m & Hj & Hnj & Hmj). exists j. split; [done|]. right. exists m. rewrite <- Hmt by done.
        split; [apply zget_Some_range in Hj; lia|done].
      * exists (-1). split; [done|]. left. split; [done|]. intros i m Him Hw. pose proof (proj1 Hw) as Hnm. apply Hmt in Hw; [|done].
        destruct (Z.lt_trichotomy i h) as [Hlt|[->|Hgt]]; [|congruence|].
        -- rewrite (Hd i m) in Hw by (done || lia). done.
        -- rewrite (Hu i m) in Hw by (done || lia). done.
Qed.

Lemma extend_start_ok (fuel : nat) (nm start : Z) (m : Method) :
  zget methods start = Some m -> name m = nm -> start < Z.of_nat fuel ->
  exists s, extend_start fuel methods nm start = Some s /\ 0 <= s <= start /\
    (forall i a, s <= i <= start -> zget methods i = Some a -> name a = nm) /\
    (forall i a, i < s -> zget methods i = Some a -> name a <> nm).
Proof.
  revert start m. induction fuel as [|fuel IH]; intros start m Hm Hn Hf; pose proof (zget_Some_range _ _ _ Hm); [lia|].
  assert (Hone : forall i a, start <= i <= start -> zget methods i = Some a -> name a = nm).
  { intros i a Hi Ha. assert (i = start) as -> by lia. congruence. }
  cbn [extend_start]. destruct (Z.leb_spec 0 (start - 1)).
  - destruct (zget_Some methods (start - 1) ltac:(lia)) as [a Ha]. rewrite Ha. cbn [mbind option_bind].
    destruct (Z.eqb_spec (name a) nm) as [He|Hne].
    + destruct (IH (start - 1) a Ha He ltac:(lia)) as (s & Hs & Hr & H1 & H2). exists s. split; [done|]. split; [lia|].
      split; [|done]. intros i b Hi Hb. destruct (Z.eq_dec i start) as [->|]; [congruence|]. apply (H1 i); [lia|done].
    + exists start. split; [done|]. split; [lia|]. split; [done|]. intros i b Hi Hb Hnb. apply Hne.
      pose proof (Hsorted i (start - 1) b a ltac:(lia) Hb Ha). pose proof (Hsorted (start - 1) start a m ltac:(lia) Ha Hm). lia.
  - exists start. split; [done|]. split; [lia|]. split; [done|]. intros i b Hi Hb. apply zget_Some_range in Hb. lia.
Qed.

Lemma extend_end_ok (fuel : nat) (nm start : Z) (m : Method) :
  zget methods start = Some m -> name m = nm -> zlen methods - start <= Z.of_nat fuel ->
  exists e, extend_end fuel methods nm (start + 1) = Some e /\ start < e <= zlen methods /\
    (forall i a, start <= i < e -> zget methods i = Some a -> name a = nm) /\
    (forall i a, e <= i -> zget methods i = Some a -> name a <> nm).
Proof.
  revert start m. induction fuel as [|fuel IH]; intros start m Hm Hn Hf; pose proof (zget_Some_range _ _ _ Hm); [lia|].
  assert (Hone : forall i a, start <= i < start + 1 -> zget methods i = Some a -> name a = nm).
  { intros i a Hi Ha. assert (i = start) as -> by lia. congruence. }
  cbn [extend_end]. destruct (Z.ltb_spec (start + 1) (zlen methods)).
  - destruct (zget_Some methods (start + 1) ltac:(lia)) as [a Ha]. rewrite Ha. cbn [mbind option_bind].
    destruct (Z.eqb_spec (name a) nm) as [He|Hne].
    + destruct (IH (start + 1) a Ha He ltac:(lia)) as (e & Hs & Hr & H1 & H2). exists e. split; [done|]. split; [lia|].
      split; [|done]. intros i b Hi Hb. destruct (Z.eq_dec i start) as [->|]; [congruence|]. apply (H1 i); [lia|done].
    + exists (start + 1). split; [done|]. split; [lia|]. split; [done|]. intros i b Hi Hb Hnb. apply Hne.
      pose proof (Hsorted (start + 1) i a b ltac:(lia) Ha Hb). pose proof (Hsorted start (start + 1) m a ltac:(lia) Hm Ha). lia.
  - exists (start + 1). split; [done|]. split; [lia|]. split; [done|]. intros i b Hi Hb. apply zget_Some_range in Hb. lia.
Qed.

Lemma find_method_by_name_ok (nm : Z) :
  exists r, find_method_by_name methods nm = Some r /\
    match r with
    | Some (s, e) => 0 <= s < e /\ e <= zlen methods /\
        forall i m, zget methods i = Some m -> name m = nm <-> s <= i < e
    | None => forall i m, zget methods i = Some m -> name m <> nm
    end.
Proof.
  unfold find_method_by_name. destruct (binary_search_ok nm) as (h & -> & [[-> Hno]|(m & H0 & Hh & Hn)]); cbn [mbind option_bind].
  - exists None. by split.
  - destruct (Z.eqb_spec h (-1)); [lia|]. cbn [negb]. pose proof (zget_Some_range _ _ _ Hh).
    destruct (extend_start_ok (S (length methods)) nm h m Hh Hn ltac:(lia)) as (s & -> & Hs & S1 & S2). cbn [mbind option_bind].
    destruct (extend_end_ok (S (length methods)) nm h m Hh Hn ltac:(lia)) as (e & -> & He & E1 & E2). cbn [mbind option_bind].
    exists (Some (s, e)). split; [done|]. split; [lia|]. split; [lia|]. intros i a Ha. split.
    + intros Hna. split.
      * destruct (Z.le_gt_cases s i); [done|]. by destruct (S2 i a).
      * destruct (Z.le_gt_cases e i); [|done]. by destruct (E2 i a).
    + intros Hi. destruct (Z.le_gt_cases i h); [apply (S1 i); [lia|done]|apply (E1 i); [lia|done]].
Qed.

Lemma find_method_impl_ok (nm sig : Z) om sm pm :
  exists r, find_method_impl methods nm sig om sm pm = Some r /\
    match r with
    | Some m => m ∈ methods /\ wanted nm sig om sm pm m
    | None => forall m, m ∈ methods -> ~ wanted nm sig om sm pm m
    end.
Proof.
  unfold find_method_impl. destruct (find_method_index_ok nm sig om sm pm) as (h & -> & [[-> Hno]|(m & H0 & Hh & Hw)]); cbn [mbind option_bind].
  - exists None. split; [done|]. intros m (i & Hi)%list_elem_of_lookup. apply (Hno (Z.of_nat i)).
    unfold zget. rewrite bool_decide_true by lia. by rewrite Nat2Z.id.
  - destruct (Z.leb_spec 0 h); [|lia]. rewrite Hh. cbn [mbind option_bind]. exists (Some m). split; [done|]. split; [|done].
    unfold zget in Hh. case_bool_decide; [|done]. by apply list_elem_of_lookup_2 in Hh.
Qed.
End Sorted.

(** ** Sorting the methods of a class *)

#[export] Instance method_comparator_ok : Comparator method_comparator.
Proof.
  split; unfold method_comparator; intros; [apply cmp_range|apply cmp_opp|by eapply cmp_trans].
Qed.

Lemma method_leq (a b : Method) : leq method_comparator a b <-> name a <= name b.
Proof.
  unfold leq, method_comparator. destruct (fast_compare_spec (name a) (name b)) as [[-> H]|[[-> H]|[-> H]]]; lia.
Qed.

(** A method without the numbers [sort_methods] assigns. *)
Definition key (m : Method) : Z * Z * bool * bool * bool := (name m, signature m, is_overpass m, is_static m, is_private m).

Lemma wanted_key (nm sig : Z) om sm pm (a b : Method) : key a = key b -> wanted nm sig om sm pm a -> wanted nm sig om sm pm b.
Proof. intros [= H1 H2 H3 H4 H5]. unfold wanted. by rewrite H1, H2, H3, H4, H5. Qed.

Lemma keys_set_idnum (methods : list Method) : key <$> imap set_idnum methods = key <$> methods.
Proof.
  apply list_eq. intros i. rewrite !list_lookup_fmap, list_lookup_imap. by destruct (methods !! i).
Qed.

Lemma keys_sorted (l l' : list Method) : key <$> l = key <$> l' -> names_sorted l -> names_sorted l'.
Proof.
  intros Hk Hs i j a b Hij Ha Hb.
  assert (Hget : forall i m, zget l' i = Some m -> exists m', zget l i = Some m' /\ name m' = name m).
  { intros i' m Hm. unfold zget in *. case_bool_decide; [|done]. assert (He : (key <$> l) !! Z.to_nat i' = Some (key m)) by (rewrite Hk, list_lookup_fmap, Hm; done).
    rewrite list_lookup_fmap in He. destruct (l !! Z.to_nat i') as [m'|]; [|done]. cbn in He. exists m'. split; [done|]. by injection He. }
  destruct (Hget i a Ha) as (a' & Ha' & <-). destruct (Hget j b Hb) as (b' & Hb' & <-). by apply (Hs i j).
Qed.

Lemma sort_methods_ok (methods : list Method) (idempotent set_idnums : bool) :
  exists ms, sort_methods methods idempotent set_idnums = Some ms /\ names_sorted ms /\
    key <$> ms ≡ₚ key <$> methods /\
    (set_idnums = true -> 1 < zlen methods -> forall i m, ms !! i = Some m -> method_idnum m = u16 (Z.of_nat i)).
Proof.
  unfold sort_methods. destruct (Z.ltb_spec 1 (zlen methods)).
  - destruct (inner_sort_ok method_comparator (S (length methods)) idempotent methods 0 (zlen methods)) as (ms & Hs & Hr & Ho); [lia|lia|lia|lia|].
    assert (He : sort method_comparator methods (zlen methods) idempotent = Some ms) by (by destruct idempotent).
    rewrite He. cbn [mbind option_bind]. eexists. split; [done|]. pose proof (rearranged_length _ _ _ _ Hr) as Hl.
    assert (Hsort : names_sorted ms).
    { intros i j a b Hij Ha Hb. pose proof (zget_Some_range _ _ _ Ha). pose proof (zget_Some_range _ _ _ Hb).
      destruct (Z.eq_dec i j) as [->|]; [assert (a = b) as -> by congruence; lia|]. apply method_leq.
      apply (Ho i j); [lia|lia|done|done]. }
    destruct set_idnums; (split; [|split; [|intros Hset Hlt]]); try done.
    + apply (keys_sorted ms); [|done]. by rewrite keys_set_idnum.
    + rewrite keys_set_idnum. by rewrite (re_perm _ _ _ _ Hr).
    + intros i m Hm. rewrite list_lookup_imap in Hm. destruct (ms !! i); [|done]. by injection Hm as <-.
    + by rewrite (re_perm _ _ _ _ Hr).
  - exists methods. split; [done|]. split; [|split; [done|lia]]. intros i j a b Hij Ha Hb.
    pose proof (zget_Some_range _ _ _ Ha). pose proof (zget_Some_range _ _ _ Hb). assert (i = j) as -> by lia.
    assert (a = b) as -> by congruence. lia.
Qed.

(** ** Properties *)

(** C13: Method lookup is complete and correct.  After [sort_methods], for any array
    of less than 2^30 methods, the array has the same methods in order of their
    names; looking up a name and signature by binary search in any of the lookup
    modes returns a method of the class with this name and signature that the modes
    do not skip, and returns none only if the class has no such method; and
    [find_method_by_name] returns exactly the range of the methods with the name. *)
Theorem method_lookup_correct (methods : list Method) (idempotent set_idnums : bool) :
  zlen methods < 2 ^ 30 ->
  exists ms, sort_methods methods idempotent set_idnums = Some ms /\ names_sorted ms /\ key <$> ms ≡ₚ key <$> methods /\
  (forall nm sig om sm pm, exists r, find_method_impl ms nm sig om sm pm = Some r /\
     match r with
     | Some m => m ∈ ms /\ wanted nm sig om sm pm m
     | None => forall m, m ∈ methods -> ~ wanted nm sig om sm pm m
     end) /\
  (forall nm, exists r, find_method_by_name ms nm = Some r /\
     match r with
     | Some (s, e) => 0 <= s < e /\ e <= zlen ms /\ forall i m, zget ms i = Some m -> name m = nm <-> s <= i < e
     | None => forall m, m ∈ methods -> name m <> nm
     end).
Proof.
  intros Hlen. destruct (sort_methods_ok methods idempotent set_idnums) as (ms & Hs & Hsort & Hkeys & _). exists ms.
  assert (Hl : zlen ms = zlen methods) by (apply Permutation_length in Hkeys; rewrite !length_fmap in Hkeys; lia).
  assert (Hin : forall m, m ∈ methods -> exists m', m' ∈ ms /\ key m' = key m).
  { intros m Hm. assert (Hk : key m ∈ key <$> ms) by (rewrite Hkeys; by apply list_elem_of_fmap_2).
    apply list_elem_of_fmap in Hk as (m' & He & Hm'). by exists m'. }
  split; [done|]. split; [done|]. split; [done|]. split.
  - intros nm sig om sm pm. destruct (find_method_impl_ok ms Hsort ltac:(lia) nm sig om sm pm) as (r & Hr & Hw).
    exists r. split; [done|]. destruct r as [m|]; [done|]. intros m Hm Hwm. destruct (Hin m Hm) as (m' & Hm' & He).
    apply (Hw m' Hm'). by apply (wanted_key nm sig om sm pm m).
  - intros nm. destruct (find_method_by_name_ok ms Hsort ltac:(lia) nm) as (r & Hr & Hw). exists r. split; [done|].
    destruct r as [[s e]|]; [done|]. intros m Hm Hn. destruct (Hin m Hm) as (m' & Hm' & He). injection He as He _ _ _ _.
    apply list_elem_of_lookup in Hm' as [i Hi]. apply (Hw (Z.of_nat i) m'); [|congruence].
    unfold zget. rewrite bool_decide_true by lia. by rewrite Nat2Z.id.
Qed.

Lemma method_lookup_correct_witness :
  exists ms, sort_methods [mkMethod 7 1 false true false 0 0; mkMethod 3 1 false false false 0 0;
                           mkMethod 7 2 false false false 0 0] false true = Some ms /\ names_sorted ms.
Proof.
  destruct (method_lookup_correct [mkMethod 7 1 false true false 0 0; mkMethod 3 1 false false false 0 0;
                           mkMethod 7 2 false false false 0 0] false true) as (ms & H1 & H2 & _); [reflexivity|].
  exists ms. split; [exact H1|exact H2].
Defined.

(** The first class of the chain that has the method provides it, overpass methods
    counting only in the first class. *)
Lemma uncached_lookup_method_ok (klasses : list (list Method)) (nm sig : Z) (om : OverpassLookupMode) :
  (forall methods, methods ∈ klasses -> names_sorted methods /\ zlen methods < 2 ^ 30) ->
  exists r, uncached_lookup_method klasses nm sig om = Some r /\
    match r with
    | Some m => exists i methods, klasses !! i = Some methods /\ m ∈ methods /\
        wanted nm sig (if bool_decide (i = O) then om else skip_overpass) find_static find_private m /\
        forall j ms, (j < i)%nat -> klasses !! j = Some ms ->
          forall m', m' ∈ ms -> ~ wanted nm sig (if bool_decide (j = O) then om else skip_overpass) find_static find_private m'
    | None => forall i methods, klasses !! i = Some methods ->
        forall m, m ∈ methods -> ~ wanted nm sig (if bool_decide (i = O) then om else skip_overpass) find_static find_private m
    end.
Proof.
  revert om. induction klasses as [|methods klasses IH]; intros om Hk; [by exists None|]. cbn [uncached_lookup_method].
  destruct (Hk methods ltac:(constructor)) as [Hs Hl].
  destruct (find_method_impl_ok methods Hs Hl nm sig om find_static find_private) as (r & -> & Hr). cbn [mbind option_bind].
  destruct r as [m|].
  - exists (Some m). split; [done|]. exists O, methods. destruct Hr. split; [done|]. split; [done|]. split; [done|lia].
  - destruct (IH skip_overpass) as (r & -> & Hr2); [intros ms Hms; apply Hk; by constructor|]. exists r. split; [done|].
    assert (Hskip : forall i, (if bool_decide (i = O) then skip_overpass else skip_overpass) = skip_overpass) by (intros i; by case_bool_decide).
    destruct r as [m|].
    + destruct Hr2 as (i & ms & H1 & H2 & H3 & H4). rewrite Hskip in H3. exists (S i), ms. split; [done|]. split; [done|]. split; [done|].
      intros [|j] ms' Hj Hms; [by injection Hms as <-|]. specialize (H4 j ms' ltac:(lia) Hms). by rewrite Hskip in H4.
    + intros [|i] ms Hi; [by injection Hi as <-|]. specialize (Hr2 i ms Hi). by rewrite Hskip in Hr2.
Qed.
