(* ===== verification/ClassFileStream.v ===== *)
(** The input stream of the class file parser (classfile/classFileStream.hpp and
    .cpp, cpu/x86/vm/bytes_x86.hpp), with the monad the parser is written in.

    A stream is the buffer it reads and the position of the next byte in it.  A
    computation of the parser ends with a value, with the exception it throws, or
    not at all: [Stuck] is a read outside of the memory the code owns, a failed
    assertion of the sources' control flow, or a loop that has run out of fuel. *)

From S2P Require Import Prelude.

(** ** Definitions *)

(** *** Exceptions *)

(** The first two are a [ClassFormatError]; the second one has a message of its own. *)
Inductive error :=
| ClassFormatError
| TruncatedClassFile
| InternalError.

Inductive outcome (A : Type) :=
| Done (a : A)
| Throw (e : error)
| Stuck.
Arguments Done {A} a.
Arguments Throw {A} e.
Arguments Stuck {A}.

#[export] Instance outcome_ret : MRet outcome := fun A a => Done a.
#[export] Instance outcome_bind : MBind outcome := fun A B k m =>
  match m with
  | Done a => k a
  | Throw e => Throw e
  | Stuck => Stuck
  end.

(** A value the memory may not have. *)
Definition defined {A} (m : option A) : outcome A :=
  match m with Some a => Done a | None => Stuck end.

(** [guarantee_property] and the parse errors of the class file parser. *)
Definition guarantee_property (b : bool) : outcome () := if b then Done tt else Throw ClassFormatError.

(** *** Byte order *)

(** The bytes of a number, the least significant one first, and back. *)
Fixpoint native_bytes (n : nat) (x : Z) : list Z :=
  match n with O => [] | S n' => x mod 256 :: native_bytes n' (x / 256) end.
Fixpoint native_value (l : list Z) : Z :=
  match l with [] => 0 | b :: l' => b + 256 * native_value l' end.

(** [swap_u2], [swap_u4] and [swap_u8] reverse the bytes of a number. *)
Definition swap_bytes (n : nat) (x : Z) : Z := native_value (rev (native_bytes n x)).

(** [n] bytes of memory at [p]. *)
Fixpoint get_bytes (n : nat) (buffer : list Z) (p : Z) : option (list Z) :=
  match n with
  | O => Some []
  | S n' => b ← zget buffer p; l ← get_bytes n' buffer (p + 1); Some (b :: l)
  end.
Definition get_native (n : nat) (buffer : list Z) (p : Z) : option Z :=
  l ← get_bytes n buffer p; Some (native_value l).
Definition get_Java (n : nat) (buffer : list Z) (p : Z) : option Z :=
  x ← get_native n buffer p; Some (swap_bytes n x).

(** *** The stream *)

Record ClassFileStream := {
  buffer : list Z;
  current : Z;
  stream_need_verify : bool;
}.

Definition new_stream (buffer : list Z) (need_verify : bool) : ClassFileStream :=
  {| buffer := buffer; current := 0; stream_need_verify := need_verify |}.
Definition set_current (s : ClassFileStream) (pos : Z) : ClassFileStream :=
  {| buffer := buffer s; current := pos; stream_need_verify := stream_need_verify s |}.

Definition check_truncated_file (b : bool) : outcome () := if b then Throw TruncatedClassFile else Done tt.

(** [size] is an [int], compared as an [unsigned int]. *)
Definition guarantee_more (size : Z) (s : ClassFileStream) : outcome () :=
  let remaining := u64 (zlen (buffer s) - current s) in
  let usize := u32 size in
  check_truncated_file (remaining <? usize).

(** The reads without a check. *)
Definition get_fast (n : nat) (s : ClassFileStream) : outcome (Z * ClassFileStream) :=
  res ← defined (get_Java n (buffer s) (current s));
  Done (res, set_current s (current s + Z.of_nat n)).
Definition get_u1_fast (s : ClassFileStream) : outcome (Z * ClassFileStream) :=
  res ← defined (zget (buffer s) (current s)); Done (res, set_current s (current s + 1)).
Definition get_u2_fast := get_fast 2.
Definition get_u4_fast := get_fast 4.
Definition get_u8_fast := get_fast 8.
Definition skip_u1_fast (length : Z) (s : ClassFileStream) : ClassFileStream := set_current s (current s + length).
Definition skip_u2_fast (length : Z) (s : ClassFileStream) : ClassFileStream := set_current s (current s + s32 (2 * length)).
Definition skip_u4_fast (length : Z) (s : ClassFileStream) : ClassFileStream := set_current s (current s + s32 (4 * length)).
Definition at_eos (s : ClassFileStream) : bool := current s =? zlen (buffer s).

(** The reads that check, in a stream that is verified. *)
Definition verify_more (size : Z) (s : ClassFileStream) : outcome () :=
  if stream_need_verify s then guarantee_more size s else Done tt.
Definition get_u1 (s : ClassFileStream) : outcome (Z * ClassFileStream) :=
  verify_more 1 s;; get_u1_fast s.
Definition get_u2 (s : ClassFileStream) : outcome (Z * ClassFileStream) :=
  verify_more 2 s;; get_u2_fast s.
Definition get_u4 (s : ClassFileStream) : outcome (Z * ClassFileStream) :=
  verify_more 4 s;; get_u4_fast s.
Definition get_u8 (s : ClassFileStream) : outcome (Z * ClassFileStream) :=
  verify_more 8 s;; get_u8_fast s.

(** [length] is an [int]; so are its multiples. *)
Definition skip_u1 (length : Z) (s : ClassFileStream) : outcome ClassFileStream :=
  verify_more length s;; Done (set_current s (current s + length)).
Definition skip_u2 (length : Z) (s : ClassFileStream) : outcome ClassFileStream :=
  verify_more (s32 (length * 2)) s;; Done (set_current s (current s + s32 (length * 2))).
Definition skip_u4 (length : Z) (s : ClassFileStream) : outcome ClassFileStream :=
  verify_more (s32 (length * 4)) s;; Done (set_current s (current s + s32 (length * 4))).

(** ** Byte order *)

(** A number from its bytes, the most significant one first. *)
Definition java_value (l : list Z) : Z := fold_left (fun x b => x * 256 + b) l 0.

Lemma native_value_app (l1 l2 : list Z) :
  native_value (l1 ++ l2) = native_value l1 + 256 ^ zlen l1 * native_value l2.
Proof.
  induction l1 as [|b l1 IH]; cbn [app native_value length]; [lia|].
  rewrite IH, Nat2Z.inj_succ, Z.pow_succ_r by lia. lia.
Qed.

Lemma native_value_rev (l : list Z) : native_value (rev l) = java_value l.
Proof.
  unfold java_value. rewrite <- fold_left_rev_right. induction l as [|b l IH] using rev_ind; [done|].
  rewrite rev_app_distr. cbn [rev app native_value fold_right]. rewrite IH. lia.
Qed.

Lemma native_bytes_value (l : list Z) :
  Forall (fun b => in_u 8 b) l -> native_bytes (length l) (native_value l) = l.
Proof.
  induction 1 as [|b l Hb _ IH]; [done|]. cbn [length native_bytes native_value].
  rewrite Z.mul_comm, Z_mod_plus_full, Z_div_plus_full, Z.mod_small, Z.div_small by lia. by rewrite Z.add_0_l, IH.
Qed.

Lemma java_value_range (l : list Z) :
  Forall (fun b => in_u 8 b) l -> 0 <= java_value l < 256 ^ zlen l.
Proof.
  unfold java_value. induction l as [|b l IH] using rev_ind; intros Hl; [cbn; lia|].
  apply Forall_app in Hl as [Hl Hb]. apply IH in Hl. apply Forall_inv in Hb.
  rewrite fold_left_app, length_app. cbn [fold_left length].
  rewrite Nat.add_1_r, Nat2Z.inj_succ, Z.pow_succ_r by lia. lia.
Qed.

Lemma get_bytes_some (n : nat) (buffer : list Z) (p : Z) :
  0 <= p -> p + Z.of_nat n <= zlen buffer ->
  get_bytes n buffer p = Some (take n (drop (Z.to_nat p) buffer)).
Proof.
  revert p. induction n as [|n IH]; intros p Hp Hn; [done|]. cbn [get_bytes]. unfold zget.
  rewrite bool_decide_true by done.
  destruct (lookup_lt_is_Some_2 buffer (Z.to_nat p) ltac:(lia)) as [b Hb]. rewrite Hb. cbn [mbind option_bind].
  rewrite IH by lia. cbn [mbind option_bind]. rewrite (drop_S _ _ _ Hb). cbn [take].
  by replace (Z.to_nat (p + 1)) with (S (Z.to_nat p)) by lia.
Qed.

Lemma get_Java_some (n : nat) (buffer : list Z) (p : Z) :
  0 <= p -> p + Z.of_nat n <= zlen buffer -> Forall (fun b => in_u 8 b) buffer ->
  get_Java n buffer p = Some (java_value (take n (drop (Z.to_nat p) buffer))).
Proof.
  intros Hp Hn Hb. unfold get_Java, get_native. rewrite get_bytes_some by done. cbn [mbind option_bind].
  unfold swap_bytes. f_equal. rewrite <- native_value_rev. do 2 f_equal.
  assert (Hl : length (take n (drop (Z.to_nat p) buffer)) = n) by (rewrite length_take, length_drop; lia).
  rewrite <- Hl at 1. apply native_bytes_value. by apply Forall_take, Forall_drop.
Qed.

(** ** The stream *)

(** A verified stream inside of its buffer, whose length is an [int]. *)
Record stream_ok (s : ClassFileStream) : Prop := {
  ok_verify : stream_need_verify s = true;
  ok_current : 0 <= current s <= zlen (buffer s);
  ok_length : zlen (buffer s) < 2 ^ 31;
  ok_bytes : Forall (fun b => in_u 8 b) (buffer s);
}.

Definition remaining (s : ClassFileStream) : Z := zlen (buffer s) - current s.

(** The bytes that follow. *)
Definition ahead (n : Z) (s : ClassFileStream) : list Z :=
  take (Z.to_nat n) (drop (Z.to_nat (current s)) (buffer s)).

Lemma guarantee_more_eq (s : ClassFileStream) (size : Z) :
  stream_ok s -> in_s 32 size ->
  guarantee_more size s = if (size <? 0) || (remaining s <? size) then Throw TruncatedClassFile else Done tt.
Proof.
  intros [_ Hc Hl _] Hs. pow2_norm. unfold guarantee_more, check_truncated_file, remaining.
  rewrite umod_id by (pow2_norm; lia). destruct (Z.ltb_spec size 0); cbn [orb].
  - replace (u32 size) with (size + 2 ^ 32) by (apply (Z.mod_unique_pos _ _ (-1)); pow2_norm; lia).
    destruct (Z.ltb_spec (zlen (buffer s) - current s) (size + 2 ^ 32)); [done | pow2_norm; lia].
  - by rewrite umod_id by (pow2_norm; lia).
Qed.

Lemma set_current_ok (s : ClassFileStream) (pos : Z) :
  stream_ok s -> 0 <= pos <= zlen (buffer s) -> stream_ok (set_current s pos).
Proof. intros [Hv Hc Hl Hb] Hp. by constructor. Qed.

Lemma get_fast_ok (n : nat) (s : ClassFileStream) :
  stream_ok s -> Z.of_nat n <= remaining s ->
  get_fast n s = Done (java_value (ahead (Z.of_nat n) s), set_current s (current s + Z.of_nat n)) /\
  0 <= java_value (ahead (Z.of_nat n) s) < 256 ^ Z.of_nat n /\
  stream_ok (set_current s (current s + Z.of_nat n)).
Proof.
  intros Hs Hn. destruct (Hs) as [Hv Hc Hl Hb]. unfold remaining in Hn. unfold get_fast, ahead.
  rewrite get_Java_some, Nat2Z.id by (done || lia). cbn. split; [done|]. split; [|apply set_current_ok; [done|lia]].
  pose proof (java_value_range (take n (drop (Z.to_nat (current s)) (buffer s)))) as Hr.
  rewrite length_take, length_drop in Hr. replace (Z.of_nat (_ `min` _)%nat) with (Z.of_nat n) in Hr by lia.
  apply Hr. by apply Forall_take, Forall_drop.
Qed.

Lemma verify_more_eq (s : ClassFileStream) (size : Z) :
  stream_ok s -> verify_more size s = guarantee_more size s.
Proof. intros Hs. unfold verify_more. by rewrite (ok_verify s Hs). Qed.

Lemma get_u1_fast_eq (s : ClassFileStream) :
  stream_ok s -> 1 <= remaining s -> get_u1_fast s = get_fast 1 s.
Proof.
  intros Hs Hr. destruct (Hs) as [_ Hc _ Hb]. unfold remaining in Hr. unfold get_u1_fast, get_fast.
  rewrite (get_Java_some 1) by (done || lia). unfold zget. rewrite bool_decide_true by lia.
  destruct (lookup_lt_is_Some_2 (buffer s) (Z.to_nat (current s)) ltac:(lia)) as [b Hl].
  rewrite Hl, (drop_S _ _ _ Hl). done.
Qed.

(** A read of [n] bytes that checks first. *)
Lemma get_checked (n : nat) (s : ClassFileStream) (get : ClassFileStream -> outcome (Z * ClassFileStream)) :
  (n < 16)%nat -> stream_ok s -> (Z.of_nat n <= remaining s -> get s = get_fast n s) ->
  (verify_more (Z.of_nat n) s;; get s) =
    (if Z.of_nat n <=? remaining s
     then Done (java_value (ahead (Z.of_nat n) s), set_current s (current s + Z.of_nat n))
     else Throw TruncatedClassFile).
Proof.
  intros Hn Hs Hg. rewrite verify_more_eq, guarantee_more_eq by (done || pow2_norm; lia).
  destruct (Z.leb_spec (Z.of_nat n) (remaining s)), (Z.ltb_spec (remaining s) (Z.of_nat n)),
    (Z.ltb_spec (Z.of_nat n) 0); try lia; cbn; [|done].
  rewrite Hg by done. by apply get_fast_ok.
Qed.

(** A skip of [size] bytes that checks first. *)
Lemma skip_checked (s : ClassFileStream) (size : Z) :
  stream_ok s -> in_s 32 size ->
  (verify_more size s;; Done (set_current s (current s + size))) =
    (if (0 <=? size) && (size <=? remaining s) then Done (set_current s (current s + size))
     else Throw TruncatedClassFile).
Proof.
  intros Hs Hn. rewrite verify_more_eq, guarantee_more_eq by done.
  destruct (Z.leb_spec 0 size), (Z.leb_spec size (remaining s)), (Z.ltb_spec (remaining s) size),
    (Z.ltb_spec size 0); by try lia.
Qed.

(** ** The properties *)

(** C23: On every verified stream a read of 1, 2, 4 or 8 bytes returns the big-endian value of the next
    bytes and moves behind them if that many bytes are left, and throws the truncated class file
    error otherwise.  A skip of any number of elements, negative numbers and numbers whose size in
    bytes overflows included, moves forward inside of the buffer or throws.  So no sequence of reads
    and skips leaves the buffer. *)
Theorem class_file_stream_safe (s : ClassFileStream) (n : Z) :
  stream_ok s -> in_s 32 n ->
  (let read (k : Z) :=
     if k <=? remaining s then Done (java_value (ahead k s), set_current s (current s + k))
     else Throw TruncatedClassFile in
   get_u1 s = read 1 /\ get_u2 s = read 2 /\ get_u4 s = read 4 /\ get_u8 s = read 8) /\
  (let skip (size : Z) :=
     if (0 <=? size) && (size <=? remaining s) then Done (set_current s (current s + size))
     else Throw TruncatedClassFile in
   skip_u1 n s = skip n /\ skip_u2 n s = skip (s32 (n * 2)) /\ skip_u4 n s = skip (s32 (n * 4))) /\
  (forall k, 0 <= k <= remaining s ->
     stream_ok (set_current s (current s + k)) /\ 0 <= java_value (ahead k s) < 256 ^ k).
Proof.
  intros Hs Hn. split; [|split].
  - cbv zeta. split; [|split; [|split]];
      [apply (get_checked 1 s get_u1_fast) | apply (get_checked 2 s (get_fast 2))
      |apply (get_checked 4 s (get_fast 4)) | apply (get_checked 8 s (get_fast 8))]; try lia; try done.
    by apply get_u1_fast_eq.
  - cbv zeta. split; [|split]; apply skip_checked; try done; by apply smod_range.
  - intros k Hk. destruct (get_fast_ok (Z.to_nat k) s) as (_ & ? & ?); [done|lia|].
    by rewrite Z2Nat.id in * by lia.
Qed.

Lemma class_file_stream_safe_witness :
  let s := set_current (new_stream [0xCA; 0xFE; 0xBA; 0xBE; 0; 0; 0; 52] true) 2 in
  get_u4 s = Done (0xBABE0000, set_current s 6) /\ get_u8 s = Throw TruncatedClassFile /\
  skip_u1 (-1) s = Throw TruncatedClassFile /\ skip_u4 0x40000000 s = Done s.
Proof.
  intros s. assert (Hs : stream_ok s) by (constructor; [done|cbn; lia|cbn; lia|repeat constructor; lia]).
  destruct (class_file_stream_safe s (-1) Hs ltac:(lia)) as ((_ & _ & -> & ->) & (-> & _ & _) & _).
  destruct (class_file_stream_safe s 0x40000000 Hs ltac:(lia)) as (_ & (_ & _ & ->) & _).
  repeat split; reflexivity.
Defined.
