(* ===== verification/FormatChecker.v ===== *)
(** The format checker of the class file parser: modifiers, versions, UTF-8
    strings, names and signatures (classfile/classFileParser.cpp, from
    [verify_legal_class_modifiers] on).

    A symbol is the list of its bytes.  A pointer into a string is an index into
    the memory the string is in: [as_utf8_flexible_buffer] has copied the symbol
    there with a zero byte behind it.  [NULL] is [None].  The checker calls two
    methods of java.lang.Character, which are variables of the model: [None] is an
    exception pending after the call. *)

From S2P Require Import Prelude Utf8 ClassFileStream.

(** ** Definitions *)

Definition JAVA_MIN_SUPPORTED_VERSION : Z := 45.
Definition JAVA_MAX_SUPPORTED_VERSION : Z := 52.
Definition JAVA_MAX_SUPPORTED_MINOR_VERSION : Z := 0.
Definition JAVA_1_5_VERSION : Z := 49.
Definition JAVA_6_VERSION : Z := 50.
Definition JAVA_7_VERSION : Z := 51.
Definition JAVA_8_VERSION : Z := 52.

Definition JVM_ACC_PUBLIC : Z := 0x0001.
Definition JVM_ACC_PRIVATE : Z := 0x0002.
Definition JVM_ACC_PROTECTED : Z := 0x0004.
Definition JVM_ACC_STATIC : Z := 0x0008.
Definition JVM_ACC_FINAL : Z := 0x0010.
Definition JVM_ACC_SYNCHRONIZED : Z := 0x0020.
Definition JVM_ACC_SUPER : Z := 0x0020.
Definition JVM_ACC_VOLATILE : Z := 0x0040.
Definition JVM_ACC_BRIDGE : Z := 0x0040.
Definition JVM_ACC_TRANSIENT : Z := 0x0080.
Definition JVM_ACC_NATIVE : Z := 0x0100.
Definition JVM_ACC_INTERFACE : Z := 0x0200.
Definition JVM_ACC_ABSTRACT : Z := 0x0400.
Definition JVM_ACC_STRICT : Z := 0x0800.
Definition JVM_ACC_ANNOTATION : Z := 0x2000.
Definition JVM_ACC_ENUM : Z := 0x4000.

(** The fields of the parser the checker reads. *)
Record Parser := {
  need_verify : bool;
  relax_verify : bool;
  major_version : Z;
}.

(** [vmSymbols::object_initializer_name()] and [class_initializer_name()]: <init>
    and <clinit>. *)
Definition object_initializer_name : list Z := [60; 105; 110; 105; 116; 62].
Definition class_initializer_name : list Z := [60; 99; 108; 105; 110; 105; 116; 62].

Definition symbol_eq (s t : list Z) : bool := bool_decide (s = t).

(** *** Modifiers and versions *)

Definition flag (flags bit : Z) : bool := negb (Z.land flags bit =? 0).

Definition verify_legal_class_modifiers (P : Parser) (flags : Z) : outcome () :=
  if negb (need_verify P) then Done tt else
  let is_interface := flag flags JVM_ACC_INTERFACE in
  let is_abstract := flag flags JVM_ACC_ABSTRACT in
  let is_final := flag flags JVM_ACC_FINAL in
  let is_super := flag flags JVM_ACC_SUPER in
  let is_enum := flag flags JVM_ACC_ENUM in
  let is_annotation := flag flags JVM_ACC_ANNOTATION in
  let major_gte_15 := JAVA_1_5_VERSION <=? major_version P in
  if (is_abstract && is_final) ||
     (is_interface && negb is_abstract) ||
     (is_interface && major_gte_15 && (is_super || is_enum)) ||
     (negb is_interface && major_gte_15 && is_annotation)
  then Throw ClassFormatError else Done tt.

Definition has_illegal_visibility (flags : Z) : bool :=
  let is_public := flag flags JVM_ACC_PUBLIC in
  let is_protected := flag flags JVM_ACC_PROTECTED in
  let is_private := flag flags JVM_ACC_PRIVATE in
  (is_public && is_protected) || (is_public && is_private) || (is_protected && is_private).

(** The version of the JDK is the two results of [JDK_Version]. *)
Definition is_supported_version (is_gte_jdk17x is_gte_jdk16x : bool) (major minor : Z) : bool :=
  let max_version :=
    if is_gte_jdk17x then JAVA_MAX_SUPPORTED_VERSION
    else if is_gte_jdk16x then JAVA_6_VERSION else JAVA_1_5_VERSION in
  (JAVA_MIN_SUPPORTED_VERSION <=? major) && (major <=? max_version) &&
  (negb (major =? max_version) || (minor <=? JAVA_MAX_SUPPORTED_MINOR_VERSION)).

Definition verify_legal_field_modifiers (P : Parser) (flags : Z) (is_interface : bool) : outcome () :=
  if negb (need_verify P) then Done tt else
  let is_public := flag flags JVM_ACC_PUBLIC in
  let is_protected := flag flags JVM_ACC_PROTECTED in
  let is_private := flag flags JVM_ACC_PRIVATE in
  let is_static := flag flags JVM_ACC_STATIC in
  let is_final := flag flags JVM_ACC_FINAL in
  let is_volatile := flag flags JVM_ACC_VOLATILE in
  let is_transient := flag flags JVM_ACC_TRANSIENT in
  let is_enum := flag flags JVM_ACC_ENUM in
  let major_gte_15 := JAVA_1_5_VERSION <=? major_version P in
  let is_illegal :=
    if is_interface then
      negb is_public || negb is_static || negb is_final || is_private ||
      is_protected || is_volatile || is_transient || (major_gte_15 && is_enum)
    else has_illegal_visibility flags || (is_final && is_volatile) in
  if is_illegal then Throw ClassFormatError else Done tt.

Definition verify_legal_method_modifiers (P : Parser) (flags : Z) (is_interface : bool) (name : list Z) : outcome () :=
  if negb (need_verify P) then Done tt else
  let is_public := flag flags JVM_ACC_PUBLIC in
  let is_private := flag flags JVM_ACC_PRIVATE in
  let is_static := flag flags JVM_ACC_STATIC in
  let is_final := flag flags JVM_ACC_FINAL in
  let is_native := flag flags JVM_ACC_NATIVE in
  let is_abstract := flag flags JVM_ACC_ABSTRACT in
  let is_bridge := flag flags JVM_ACC_BRIDGE in
  let is_strict := flag flags JVM_ACC_STRICT in
  let is_synchronized := flag flags JVM_ACC_SYNCHRONIZED in
  let is_protected := flag flags JVM_ACC_PROTECTED in
  let major_gte_15 := JAVA_1_5_VERSION <=? major_version P in
  let major_gte_8 := JAVA_8_VERSION <=? major_version P in
  let is_initializer := symbol_eq name object_initializer_name in
  let is_illegal :=
    if is_interface then
      if major_gte_8 then
        eqb is_public is_private || (is_native || is_protected || is_final || is_synchronized) ||
        (is_abstract && (is_private || is_static || is_strict))
      else if major_gte_15 then
        negb is_public || is_static || is_final || is_synchronized || is_native || negb is_abstract || is_strict
      else negb is_public || is_static || is_final || is_native || negb is_abstract
    else if is_initializer then
      is_static || is_final || is_synchronized || is_native || is_abstract || (major_gte_15 && is_bridge)
    else
      (is_abstract && (is_final || is_native || is_private || is_static ||
                       (major_gte_15 && (is_synchronized || is_strict)))) ||
      has_illegal_visibility flags in
  if is_illegal then Throw ClassFormatError else Done tt.

(** *** UTF-8 *)

(** The first loop of [verify_legal_utf8]: groups of four bytes from 1 to 127. *)
Fixpoint utf8_quick_loop (count : nat) (buffer : list Z) (i : Z) : outcome Z :=
  match count with
  | O => Done i
  | S count' =>
      b0 ← defined (zget buffer i);
      b1 ← defined (zget buffer (i + 1));
      b2 ← defined (zget buffer (i + 2));
      b3 ← defined (zget buffer (i + 3));
      let res := u8 (Z.lor (Z.lor (Z.lor (Z.lor b0 (b0 - 1)) (Z.lor b1 (b1 - 1))) (Z.lor b2 (b2 - 1)))
                       (Z.lor b3 (b3 - 1))) in
      if 128 <=? res then Done i else utf8_quick_loop count' buffer (i + 4)
  end.

(** The [switch] on the first byte of a character that is not ASCII and does not
    begin a supplementary one: the index of its last byte. *)
Definition verify_utf8_char (P : Parser) (buffer : list Z) (length i b : Z) : outcome Z :=
  let n := Z.shiftr b 4 in
  let continuation (b : Z) : bool := Z.land b 0xC0 =? 0x80 in
  if (n =? 0x8) || (n =? 0x9) || (n =? 0xA) || (n =? 0xB) || (n =? 0xF) then Throw ClassFormatError
  else if (n =? 0xC) || (n =? 0xD) then
    let c := u16 (Z.shiftl (Z.land b 0x1F) 6) in
    let i := i + 1 in
    if i <? length then
      b1 ← defined (zget buffer i);
      if continuation b1 then
        let c := u16 (c + Z.land b1 0x3F) in
        guarantee_property ((major_version P <=? 47) || (c =? 0) || (0x80 <=? c));; Done i
      else Throw ClassFormatError
    else Throw ClassFormatError
  else if n =? 0xE then
    let c := u16 (Z.shiftl (Z.land b 0xF) 12) in
    let i := i + 2 in
    if i <? length then
      b1 ← defined (zget buffer (i - 1));
      if continuation b1 then
        b2 ← defined (zget buffer i);
        if continuation b2 then
          let c := u16 (c + (Z.shiftl (Z.land b1 0x3F) 6 + Z.land b2 0x3F)) in
          guarantee_property ((major_version P <=? 47) || (0x800 <=? c));; Done i
        else Throw ClassFormatError
      else Throw ClassFormatError
    else Throw ClassFormatError
  else Done i.

Fixpoint verify_utf8_loop (fuel : nat) (P : Parser) (buffer : list Z) (length i : Z) : outcome () :=
  if i <? length then
    match fuel with
    | O => Stuck
    | S fuel =>
        b ← defined (zget buffer i);
        guarantee_property (negb (b =? 0));;
        if b <? 128 then verify_utf8_loop fuel P buffer length (i + 1) else
        supplementary ← (if i + 5 <? length then defined (is_supplementary_character (drop (Z.to_nat i) buffer))
                         else Done false);
        if (supplementary : bool) then
          defined (get_supplementary_character (drop (Z.to_nat i) buffer));;
          verify_utf8_loop fuel P buffer length (i + 5 + 1)
        else
          i ← verify_utf8_char P buffer length i b;
          verify_utf8_loop fuel P buffer length (i + 1)
    end
  else Done tt.

Definition verify_legal_utf8 (P : Parser) (buffer : list Z) (length : Z) : outcome () :=
  i ← utf8_quick_loop (Z.to_nat (Z.shiftr length 2)) buffer 0;
  verify_utf8_loop (Z.to_nat length) P buffer length i.

(** *** Names *)

(** [as_utf8_flexible_buffer]: the memory that holds the bytes of a symbol. *)
Definition as_utf8_flexible_buffer (symbol : list Z) : list Z := symbol ++ [0].

Inductive legality := LegalClass | LegalField | LegalMethod.
#[export] Instance legality_eq_dec : EqDecision legality.
Proof. solve_decision. Defined.

(** [for (char* p = name; p != name + length; )] *)
Fixpoint verify_unqualified_loop (fuel : nat) (buf : list Z) (fin : Z) (type : legality) (p : Z) : outcome bool :=
  if p =? fin then Done true else
  match fuel with
  | O => Stuck
  | S fuel =>
      b ← defined (zget buf p);
      let ch := u16 (s8 b) in
      if ch <? 128 then
        if (ch =? 46) || (ch =? 59) || (ch =? 91) then Done false
        else if negb (bool_decide (type = LegalClass)) && (ch =? 47) then Done false
        else if bool_decide (type = LegalMethod) && ((ch =? 60) || (ch =? 62)) then Done false
        else verify_unqualified_loop fuel buf fin type (p + 1)
      else
        '(_, tmp_p) ← defined (next (drop (Z.to_nat p) buf));
        verify_unqualified_loop fuel buf fin type (zlen buf - zlen tmp_p)
  end.

Definition verify_unqualified_name (buf : list Z) (name length : Z) (type : legality) : outcome bool :=
  verify_unqualified_loop (Z.to_nat length) buf (name + length) type name.

(** The ASCII characters of a name; a digit does not begin one. *)
Definition ascii_name_char (ch : Z) (not_first_ch : bool) : bool :=
  ((97 <=? ch) && (ch <=? 122)) || ((65 <=? ch) && (ch <=? 90)) ||
  ((ch =? 95) || (ch =? 36)) || (not_first_ch && (48 <=? ch) && (ch <=? 57)).

(** The result where the characters of the name end. *)
Definition name_end (not_first_ch : bool) (p : Z) : outcome (option Z) :=
  Done (if not_first_ch then Some p else None).

Section Checker.
Context (isJavaIdentifierStart isJavaIdentifierPart : Z -> option bool).

Fixpoint skip_name_loop (fuel : nat) (buf : list Z) (fin : Z) (slash_ok : bool)
    (p : Z) (last_is_slash not_first_ch : bool) : outcome (option Z) :=
  if p =? fin then name_end not_first_ch p else
  match fuel with
  | O => Stuck
  | S fuel =>
      b ← defined (zget buf p);
      let ch := u16 (s8 b) in
      if ch <? 128 then
        if ascii_name_char ch not_first_ch then skip_name_loop fuel buf fin slash_ok (p + 1) false true
        else if slash_ok && (ch =? 47) then
          if last_is_slash then Done None else skip_name_loop fuel buf fin slash_ok (p + 1) true true
        else name_end not_first_ch p
      else
        '(unicode_ch, tmp_p) ← defined (next_character (drop (Z.to_nat p) buf));
        let next_p := zlen buf - zlen tmp_p in
        match isJavaIdentifierStart unicode_ch with
        | None => Done None
        | Some true => skip_name_loop fuel buf fin slash_ok next_p false true
        | Some false =>
            if not_first_ch then
              match isJavaIdentifierPart unicode_ch with
              | None => Done None
              | Some true => skip_name_loop fuel buf fin slash_ok next_p false true
              | Some false => name_end not_first_ch p
              end
            else name_end not_first_ch p
        end
  end.

Definition skip_over_field_name (buf : list Z) (name : Z) (slash_ok : bool) (length : Z) : outcome (option Z) :=
  skip_name_loop (Z.to_nat length) buf (name + length) slash_ok name false false.

(** *** Signatures *)

Definition JVM_SIGNATURE_ARRAY : Z := 91.
Definition JVM_SIGNATURE_BYTE : Z := 66.
Definition JVM_SIGNATURE_CHAR : Z := 67.
Definition JVM_SIGNATURE_CLASS : Z := 76.
Definition JVM_SIGNATURE_FLOAT : Z := 70.
Definition JVM_SIGNATURE_DOUBLE : Z := 68.
Definition JVM_SIGNATURE_FUNC : Z := 40.
Definition JVM_SIGNATURE_ENDFUNC : Z := 41.
Definition JVM_SIGNATURE_INT : Z := 73.
Definition JVM_SIGNATURE_LONG : Z := 74.
Definition JVM_SIGNATURE_SHORT : Z := 83.
Definition JVM_SIGNATURE_VOID : Z := 86.
Definition JVM_SIGNATURE_BOOLEAN : Z := 90.

(** The cases of the [switch] that return the next character. *)
Definition is_primitive_signature (c : Z) : bool :=
  (c =? JVM_SIGNATURE_BOOLEAN) || (c =? JVM_SIGNATURE_BYTE) || (c =? JVM_SIGNATURE_CHAR) ||
  (c =? JVM_SIGNATURE_SHORT) || (c =? JVM_SIGNATURE_INT) || (c =? JVM_SIGNATURE_FLOAT) ||
  (c =? JVM_SIGNATURE_LONG) || (c =? JVM_SIGNATURE_DOUBLE).

(** The loop over a class name, from version 49 on. *)
Fixpoint skip_class_loop (fuel : nat) (buf : list Z) (signature length : Z) : outcome (option Z) :=
  c ← defined (zget buf signature);
  if (0 <? length) && negb (c =? 59) then
    match fuel with
    | O => Stuck
    | S fuel =>
        guarantee_property (negb (c =? 46));;
        skip_class_loop fuel buf (signature + 1) (length - 1)
    end
  else Done (if c =? 59 then Some (signature + 1) else None).

Fixpoint skip_signature_loop (fuel : nat) (P : Parser) (buf : list Z) (signature : Z) (void_ok : bool)
    (length array_dim : Z) : outcome (option Z) :=
  if 0 <? length then
    match fuel with
    | O => Stuck
    | S fuel =>
        c ← defined (zget buf signature);
        if c =? JVM_SIGNATURE_VOID then Done (if void_ok then Some (signature + 1) else None)
        else if is_primitive_signature c then Done (Some (signature + 1))
        else if c =? JVM_SIGNATURE_CLASS then
          if major_version P <? JAVA_1_5_VERSION then
            p ← skip_over_field_name buf (signature + 1) true (length - 1);
            match p with
            | Some p =>
                if 1 <? p - signature then
                  c ← defined (zget buf p); Done (if c =? 59 then Some (p + 1) else None)
                else Done None
            | None => Done None
            end
          else skip_class_loop (Z.to_nat (length - 1)) buf (signature + 1) (length - 1)
        else if c =? JVM_SIGNATURE_ARRAY then
          guarantee_property (negb (255 <? array_dim + 1));;
          skip_signature_loop fuel P buf (signature + 1) false (length - 1) (array_dim + 1)
        else Done None
    end
  else Done None.

Definition skip_over_field_signature (P : Parser) (buf : list Z) (signature : Z) (void_ok : bool) (length : Z)
    : outcome (option Z) :=
  skip_signature_loop (Z.to_nat length) P buf signature void_ok length 0.

(** [legal = (p != NULL) && ((p - bytes) == (int)length)] *)
Definition whole (p : option Z) (length : Z) : bool :=
  match p with Some p => p =? length | None => false end.

Definition verify_legal_class_name (P : Parser) (name : list Z) : outcome () :=
  if negb (need_verify P) || relax_verify P then Done tt else
  let bytes := as_utf8_flexible_buffer name in
  let length := zlen name in
  legal ← (if 0 <? length then
             b ← defined (zget bytes 0);
             if b =? JVM_SIGNATURE_ARRAY then
               p ← skip_over_field_signature P bytes 0 false length; Done (whole p length)
             else if major_version P <? JAVA_1_5_VERSION then
               if negb (b =? 60) then
                 p ← skip_over_field_name bytes 0 true length; Done (whole p length)
               else Done false
             else verify_unqualified_name bytes 0 length LegalClass
           else Done false);
  guarantee_property legal.

Definition verify_legal_field_name (P : Parser) (name : list Z) : outcome () :=
  if negb (need_verify P) || relax_verify P then Done tt else
  let bytes := as_utf8_flexible_buffer name in
  let length := zlen name in
  legal ← (if 0 <? length then
             if major_version P <? JAVA_1_5_VERSION then
               b ← defined (zget bytes 0);
               if negb (b =? 60) then
                 p ← skip_over_field_name bytes 0 false length; Done (whole p length)
               else Done false
             else verify_unqualified_name bytes 0 length LegalField
           else Done false);
  guarantee_property legal.

Definition verify_legal_method_name (P : Parser) (name : list Z) : outcome () :=
  if negb (need_verify P) || relax_verify P then Done tt else
  let bytes := as_utf8_flexible_buffer name in
  let length := zlen name in
  legal ← (if 0 <? length then
             b ← defined (zget bytes 0);
             if b =? 60 then
               Done (symbol_eq name object_initializer_name || symbol_eq name class_initializer_name)
             else if major_version P <? JAVA_1_5_VERSION then
               p ← skip_over_field_name bytes 0 false length; Done (whole p length)
             else verify_unqualified_name bytes 0 length LegalMethod
           else Done false);
  guarantee_property legal.

Definition verify_legal_field_signature (P : Parser) (signature : list Z) : outcome () :=
  if negb (need_verify P) then Done tt else
  let bytes := as_utf8_flexible_buffer signature in
  let length := zlen signature in
  p ← skip_over_field_signature P bytes 0 false length;
  guarantee_property (whole p length).

(** The loop over the parameters: where it ends, what is left, and the size of the
    arguments. *)
Fixpoint method_args_loop (fuel : nat) (P : Parser) (buf : list Z) (p length args_size : Z) (nextp : option Z)
    : outcome (Z * Z * Z) :=
  match nextp with
  | Some nextp =>
      if 0 <? length then
        match fuel with
        | O => Stuck
        | S fuel =>
            let args_size := u32 (args_size + 1) in
            c ← defined (zget buf p);
            let args_size :=
              if (c =? JVM_SIGNATURE_LONG) || (c =? JVM_SIGNATURE_DOUBLE) then u32 (args_size + 1) else args_size in
            let length := length - (nextp - p) in
            next ← skip_over_field_signature P buf nextp false length;
            method_args_loop fuel P buf nextp length args_size next
        end
      else Done (p, length, args_size)
  | None => Done (p, length, args_size)
  end.

Definition verify_legal_method_signature (P : Parser) (name signature : list Z) : outcome Z :=
  if negb (need_verify P) then Done (-2) else
  let buf := as_utf8_flexible_buffer signature in
  let length := zlen signature in
  c ← defined (zget buf 0);
  if (0 <? length) && (c =? JVM_SIGNATURE_FUNC) then
    nextp ← skip_over_field_signature P buf 1 false (length - 1);
    '(p, length, args_size) ← method_args_loop (Z.to_nat length) P buf 1 (length - 1) 0 nextp;
    c ← defined (zget buf p);
    if (0 <? length) && (c =? JVM_SIGNATURE_ENDFUNC) then
      let p := p + 1 in
      let length := length - 1 in
      if (0 <? zlen name) && bool_decide (name !! 0%nat = Some 60) then
        c ← defined (zget buf p);
        if (length =? 1) && (c =? JVM_SIGNATURE_VOID) then Done (s32 args_size) else Throw ClassFormatError
      else
        nextp ← skip_over_field_signature P buf p true length;
        match nextp with
        | Some nextp => if length =? nextp - p then Done (s32 args_size) else Throw ClassFormatError
        | None => Throw ClassFormatError
        end
    else Throw ClassFormatError
  else Throw ClassFormatError.
End Checker.

(** ** Characters of a class file string *)

(** The forms a character may have: up to version 47 it need not be the shortest one. *)
Inductive char_form (P : Parser) (c : Z) : list Z -> Prop :=
| form1 : 0 < c < 0x80 -> char_form P c [c]
| form2 h l :
    c = h * 64 + l -> 0 <= h < 32 -> 0 <= l < 64 -> major_version P <= 47 \/ c = 0 \/ 0x80 <= c ->
    char_form P c [0xC0 + h; 0x80 + l]
| form3 h m l :
    c = h * 4096 + m * 64 + l -> 0 <= h < 16 -> 0 <= m < 64 -> 0 <= l < 64 ->
    major_version P <= 47 \/ 0x800 <= c -> char_form P c [0xE0 + h; 0x80 + m; 0x80 + l].

(** A string of characters. *)
Inductive legal_utf8 (P : Parser) : list Z -> Prop :=
| legal_nil : legal_utf8 P []
| legal_char c bs l : char_form P c bs -> legal_utf8 P l -> legal_utf8 P (bs ++ l).

Lemma written_unique (c : Z) (bs bs' : list Z) : written c bs -> written c bs' -> bs = bs'.
Proof.
  intros [?|h l ????|h m l ?????] [?|h' l' ????|h' m' l' ?????]; try lia; [done| |].
  - assert (h = h' /\ l = l') as [-> ->] by lia. done.
  - assert (h = h' /\ m = m' /\ l = l') as (-> & -> & ->) by lia. done.
Qed.

Lemma char_form_jchar P c bs : char_form P c bs -> jchar c.
Proof. unfold jchar. destruct 1; lia. Qed.

(** From version 48 on, the characters are those [utf8_write] writes. *)
Lemma char_form_write P c bs : 47 < major_version P -> char_form P c bs <-> jchar c /\ bs = utf8_write c.
Proof.
  intros Hv. split.
  - intros Hf. pose proof (char_form_jchar _ _ _ Hf) as Hc. split; [done|].
    apply (written_unique c); [|by apply utf8_write_written]. destruct Hf; constructor; lia.
  - intros [Hc ->]. destruct (utf8_write_written c Hc); constructor; lia.
Qed.

Lemma legal_utf8_write P l :
  47 < major_version P ->
  legal_utf8 P l <-> exists s, Forall jchar s /\ l = mjoin (utf8_write <$> s).
Proof.
  intros Hv. split.
  - induction 1 as [|c bs l Hf _ (s & Hs & ->)]; [by exists []|].
    apply char_form_write in Hf as [Hc ->]; [|done]. exists (c :: s). by split; [constructor|].
  - intros (s & Hs & ->). induction Hs as [|c s Hc _ IH]; [constructor|].
    cbn. apply (legal_char P c); [|done]. by apply char_form_write.
Qed.

(** Bytes *)
Lemma continuation_byte (b : Z) : in_u 8 b -> (Z.land b 0xC0 =? 0x80) = (0x80 <=? b) && (b <? 0xC0).
Proof.
  intros Hb. pose proof (all_from_spec 256 0 b (fun b => eqb (Z.land b 0xC0 =? 0x80) ((0x80 <=? b) && (b <? 0xC0)))
    ltac:(vm_compute; reflexivity) ltac:(cbn; lia)) as H. by apply eqb_prop in H.
Qed.

Lemma quick_byte (b : Z) : in_u 8 b -> Z.testbit (Z.lor b (b - 1)) 7 = (b =? 0) || (128 <=? b).
Proof.
  intros Hb. pose proof (all_from_spec 256 0 b (fun b => eqb (Z.testbit (Z.lor b (b - 1)) 7) ((b =? 0) || (128 <=? b)))
    ltac:(vm_compute; reflexivity) ltac:(cbn; lia)) as H. by apply eqb_prop in H.
Qed.

(** A form of two or three bytes is a lead byte and continuation bytes. *)
Lemma char_form_bytes P c bs b : char_form P c bs -> b ∈ bs -> 0 < b < 256.
Proof. destruct 1; rewrite ?elem_of_cons, elem_of_nil; intros; lia. Qed.

Lemma char_form_wide P c bs : char_form P c bs -> (length bs > 1)%nat -> forall b, b ∈ bs -> 128 <= b.
Proof. destruct 1; cbn [length]; intros ? b; rewrite ?elem_of_cons, elem_of_nil; intros; lia. Qed.

Lemma legal_bytes P l : legal_utf8 P l -> Forall (fun b => 0 < b < 256) l.
Proof.
  induction 1; [constructor|]. apply Forall_app. split; [|done].
  apply list.Forall_forall. intros b. by eapply char_form_bytes.
Qed.

(** The first byte decides the form. *)
Lemma legal_ascii P b l : 0 < b < 128 -> legal_utf8 P (b :: l) <-> legal_utf8 P l.
Proof.
  intros Hb. split.
  - intros Hl. inversion Hl as [|c bs l' Hf Hl' He]; subst. destruct Hf; injection He; intros; subst; try lia. done.
  - intros Hl. apply (legal_char P b [b]); [by constructor|done].
Qed.

(** The decomposition of a string that begins with a byte that is not ASCII. *)
Definition legal_wide (P : Parser) (b : Z) (l : list Z) : Prop :=
  exists c bs l', b :: l = bs ++ l' /\ char_form P c bs /\ legal_utf8 P l'.

Lemma legal_cons P b l : legal_utf8 P (b :: l) <-> legal_wide P b l.
Proof.
  split.
  - intros Hl. inversion Hl as [|c bs l' Hf Hl' He]. by exists c, bs, l'.
  - intros (c & bs & l' & -> & Hf & Hl). by apply (legal_char P c).
Qed.

Lemma zget_drop {A} (l r : list A) (x : A) (i : Z) : 0 <= i -> drop (Z.to_nat i) l = x :: r -> zget l i = Some x.
Proof.
  intros Hi He. unfold zget. rewrite bool_decide_true by done.
  rewrite <- (Nat.add_0_r (Z.to_nat i)), <- lookup_drop. by rewrite He.
Qed.

Lemma drop_next {A} (l r : list A) (x : A) (i : Z) :
  0 <= i -> drop (Z.to_nat i) l = x :: r -> drop (Z.to_nat (i + 1)) l = r.
Proof.
  intros Hi He. replace (Z.to_nat (i + 1)) with (Z.to_nat i + 1)%nat by lia. by rewrite <- drop_drop, He.
Qed.

Lemma drop_length_Z {A} (l r : list A) (i : Z) :
  0 <= i <= zlen l -> drop (Z.to_nat i) l = r -> zlen r = zlen l - i.
Proof. intros Hi <-. rewrite length_drop. lia. Qed.

Lemma u8_high (x : Z) : (128 <=? u8 x) = Z.testbit x 7.
Proof.
  pose proof (umod_testbit 8 x 7 ltac:(lia) ltac:(lia)) as Ht. cbn [Z.ltb Z.compare Pos.compare Pos.compare_cont andb] in Ht.
  rewrite <- Ht. pose proof (umod_range 8 x ltac:(lia)) as Hr. pow2_norm.
  pose proof (Z.testbit_spec' (u8 x) 7 ltac:(lia)) as He. change (2 ^ 7) with 128 in He.
  destruct (Z.leb_spec 128 (u8 x)); destruct (Z.testbit (u8 x) 7); try done; cbn [Z.b2z] in He; exfalso.
  - rewrite <- (Z.div_unique (u8 x) 128 1 (u8 x - 128)) in He by lia. by vm_compute in He.
  - rewrite Z.div_small in He by lia. by vm_compute in He.
Qed.

Lemma quick_loop_ok P (count : nat) (buf : list Z) (i : Z) :
  Forall (fun b => in_u 8 b) buf -> 0 <= i -> i + 4 * Z.of_nat count <= zlen buf ->
  exists j, utf8_quick_loop count buf i = Done j /\ i <= j <= zlen buf /\
    (legal_utf8 P (drop (Z.to_nat i) buf) <-> legal_utf8 P (drop (Z.to_nat j) buf)).
Proof.
  intros Hb. revert i. induction count as [|count IH]; intros i Hi Hl; cbn [utf8_quick_loop]; [by exists i; split; [|split; [lia|]]|].
  destruct (drop (Z.to_nat i) buf) as [|b0 [|b1 [|b2 [|b3 r]]]] eqn:Hd;
    try (apply (f_equal length) in Hd; rewrite length_drop in Hd; cbn [length] in Hd; lia).
  pose proof (drop_next _ _ _ _ Hi Hd) as H1. pose proof (drop_next _ _ _ (i + 1) ltac:(lia) H1) as H2.
  pose proof (drop_next _ _ _ (i + 1 + 1) ltac:(lia) H2) as H3. pose proof (drop_next _ _ _ (i + 1 + 1 + 1) ltac:(lia) H3) as H4.
  replace (i + 1 + 1 + 1 + 1) with (i + 4) in H4 by lia. replace (i + 1 + 1 + 1) with (i + 3) in H3 by lia.
  replace (i + 1 + 1) with (i + 2) in H2 by lia.
  rewrite (zget_drop _ _ _ _ Hi Hd), (zget_drop _ _ _ (i + 1) ltac:(lia) H1), (zget_drop _ _ _ (i + 2) ltac:(lia) H2),
    (zget_drop _ _ _ (i + 3) ltac:(lia) H3). cbn [defined mbind outcome_bind].
  rewrite u8_high, !Z.lor_spec.
  assert (Hbs : Forall (fun b => in_u 8 b) [b0; b1; b2; b3]).
  { apply (Forall_app _ _ r). change ([b0; b1; b2; b3] ++ r) with (b0 :: b1 :: b2 :: b3 :: r). rewrite <- Hd. by apply Forall_drop. }
  rewrite !list.Forall_cons in Hbs. destruct Hbs as (Hb0 & Hb1 & Hb2 & Hb3 & _).
  rewrite <- (Z.lor_spec b0), <- (Z.lor_spec b1), <- (Z.lor_spec b2), <- (Z.lor_spec b3), !quick_byte by done.
  destruct (_ || _ || (_ || _) || _) eqn:Hq; [by exists i; rewrite Hd; split; [|split; [lia|]]|].
  destruct (IH (i + 4) ltac:(lia) ltac:(lia)) as (j & -> & Hj & Heq). exists j. split; [done|]. split; [lia|].
  rewrite !orb_false_iff, !Z.eqb_neq, !Z.leb_gt in Hq. rewrite <- Heq, H4, !legal_ascii by lia. done.
Qed.

Lemma land_0x1f (b : Z) : Z.land b 0x1F = b mod 32.
Proof. change 0x1F with (Z.ones 5). by rewrite Z.land_ones. Qed.
Lemma land_0xf (b : Z) : Z.land b 0xF = b mod 16.
Proof. change 0xF with (Z.ones 4). by rewrite Z.land_ones. Qed.

(** No form begins with a byte that is not a lead byte, or lacks its continuation bytes. *)
Lemma no_form1 P c bs l b r : char_form P c bs -> b :: r = bs ++ l -> 128 <= b < 0xC0 \/ 0xF0 <= b < 256 -> False.
Proof. destruct 1; cbn [app]; intros [= -> ->]; lia. Qed.

Lemma no_form2 P c bs l b r :
  char_form P c bs -> b :: r = bs ++ l -> 0xC0 <= b < 0xE0 ->
  exists b1, r = b1 :: l /\ 0x80 <= b1 < 0xC0 /\ c = (b - 0xC0) * 64 + (b1 - 0x80) /\
    (major_version P <= 47 \/ c = 0 \/ 0x80 <= c).
Proof. destruct 1; cbn [app]; intros [= -> ->]; intros; try lia. eexists. repeat split; try done; lia. Qed.

Lemma no_form3 P c bs l b r :
  char_form P c bs -> b :: r = bs ++ l -> 0xE0 <= b < 0xF0 ->
  exists b1 b2, r = b1 :: b2 :: l /\ 0x80 <= b1 < 0xC0 /\ 0x80 <= b2 < 0xC0 /\
    c = (b - 0xE0) * 4096 + (b1 - 0x80) * 64 + (b2 - 0x80) /\ (major_version P <= 47 \/ 0x800 <= c).
Proof. destruct 1; cbn [app]; intros [= -> ->]; intros; try lia. do 2 eexists. repeat split; try done; lia. Qed.

(** The check of one character: the index of its last byte, or an error if there is none. *)
Definition char_result (P : Parser) (i : Z) (l : list Z) (res : outcome Z) : Prop :=
  (exists c bs l', l = bs ++ l' /\ char_form P c bs /\ res = Done (i + zlen bs - 1)) \/
  (res = Throw ClassFormatError /\ forall c bs l', l = bs ++ l' -> ~ char_form P c bs).

Lemma lead_byte (b : Z) :
  128 <= b < 256 ->
  let n := Z.shiftr b 4 in
  (n =? 0x8) || (n =? 0x9) || (n =? 0xA) || (n =? 0xB) || (n =? 0xF) = (b <? 0xC0) || (0xF0 <=? b) /\
  (n =? 0xC) || (n =? 0xD) = (0xC0 <=? b) && (b <? 0xE0) /\
  (n =? 0xE) = (0xE0 <=? b) && (b <? 0xF0).
Proof.
  intros Hb. pose proof (all_from_spec 128 128 b (fun b => let n := Z.shiftr b 4 in
    eqb ((n =? 0x8) || (n =? 0x9) || (n =? 0xA) || (n =? 0xB) || (n =? 0xF)) ((b <? 0xC0) || (0xF0 <=? b)) &&
    eqb ((n =? 0xC) || (n =? 0xD)) ((0xC0 <=? b) && (b <? 0xE0)) &&
    eqb (n =? 0xE) ((0xE0 <=? b) && (b <? 0xF0))) ltac:(vm_compute; reflexivity) ltac:(cbn; lia)) as H.
  cbv zeta in H |- *. rewrite !andb_true_iff in H. destruct H as [[H1%eqb_prop H2%eqb_prop] H3%eqb_prop]. done.
Qed.

Lemma char_next (buf r : list Z) (i b : Z) (k : nat) :
  0 <= i -> drop (Z.to_nat i) buf = b :: r -> zget buf (i + 1 + Z.of_nat k) = r !! k.
Proof.
  intros Hi Hd. unfold zget. rewrite bool_decide_true by lia.
  rewrite <- (drop_next _ _ _ _ Hi Hd), lookup_drop. f_equal. lia.
Qed.

Lemma char_room (buf r : list Z) (i b k : Z) :
  0 <= i -> drop (Z.to_nat i) buf = b :: r -> 0 < k -> (i + k <? zlen buf) = (k <=? zlen r).
Proof.
  intros Hi Hd Hk. apply (f_equal length) in Hd. rewrite length_drop in Hd. cbn [length] in Hd.
  destruct (Z.ltb_spec (i + k) (zlen buf)), (Z.leb_spec k (zlen r)); lia.
Qed.

Lemma char2_ok P (buf r : list Z) (i b : Z) :
  0 <= i -> drop (Z.to_nat i) buf = b :: r -> Forall (fun b => in_u 8 b) r -> 0xC0 <= b < 0xE0 ->
  char_result P i (b :: r) (verify_utf8_char P buf (zlen buf) i b).
Proof.
  intros Hi Hd Hr Hb. unfold verify_utf8_char. destruct (lead_byte b ltac:(lia)) as (-> & -> & _).
  destruct (Z.ltb_spec b 0xC0), (Z.leb_spec 0xF0 b), (Z.leb_spec 0xC0 b), (Z.ltb_spec b 0xE0); try lia; cbn [orb andb].
  rewrite land_0x1f. replace (b mod 32) with (b - 0xC0) by (apply (Z.mod_unique_pos _ _ 6); lia).
  rewrite (char_room _ _ _ _ 1 Hi Hd) by lia. destruct r as [|b1 r'].
  { right. split; [done|]. intros c bs l' He Hf. by destruct (no_form2 _ _ _ _ _ _ Hf He Hb) as (? & ? & _). }
  destruct (Z.leb_spec 1 (zlen (b1 :: r'))) as [_|Hz]; [|cbn [length] in Hz; lia].
  pose proof (char_next _ _ _ _ 0 Hi Hd) as Hg. rewrite Z.add_0_r in Hg. rewrite Hg. cbn [defined mbind outcome_bind lookup list_lookup].
  apply Forall_inv in Hr as Hb1. rewrite continuation_byte by done.
  destruct (Z.leb_spec 0x80 b1), (Z.ltb_spec b1 0xC0); cbn [andb];
    try (right; split; [done|]; intros c bs l' He Hf;
         destruct (no_form2 _ _ _ _ _ _ Hf He Hb) as (? & [= <- <-] & ? & _); lia).
  rewrite land_0x3f, Z.shiftl_mul_pow2 by lia. change (2 ^ 6) with 64.
  replace (b1 mod 64) with (b1 - 0x80) by (apply (Z.mod_unique_pos _ _ 2); lia).
  rewrite !umod_id by (pow2_norm; rewrite ?umod_id by (pow2_norm; lia); lia).
  set (c := (b - 0xC0) * 64 + (b1 - 0x80)).
  destruct ((major_version P <=? 47) || (c =? 0) || (0x80 <=? c)) eqn:Hc; cbn [guarantee_property mbind outcome_bind].
  - left. exists c, [b; b1], r'. split; [done|]. split; [|cbn [length]; f_equal; lia].
    replace [b; b1] with [0xC0 + (b - 0xC0); 0x80 + (b1 - 0x80)] by (repeat f_equal; lia). constructor; lia.
  - right. split; [done|]. intros c' bs l' He Hf.
    destruct (no_form2 _ _ _ _ _ _ Hf He Hb) as (? & [= <- <-] & _ & -> & Hv). fold c in Hv. lia.
Qed.

Lemma char3_ok P (buf r : list Z) (i b : Z) :
  0 <= i -> drop (Z.to_nat i) buf = b :: r -> Forall (fun b => in_u 8 b) r -> 0xE0 <= b < 0xF0 ->
  char_result P i (b :: r) (verify_utf8_char P buf (zlen buf) i b).
Proof.
  intros Hi Hd Hr Hb. unfold verify_utf8_char. destruct (lead_byte b ltac:(lia)) as (-> & -> & ->).
  destruct (Z.ltb_spec b 0xC0), (Z.leb_spec 0xF0 b), (Z.leb_spec 0xC0 b), (Z.ltb_spec b 0xE0), (Z.leb_spec 0xE0 b),
    (Z.ltb_spec b 0xF0); try lia; cbn [orb andb].
  rewrite land_0xf. replace (b mod 16) with (b - 0xE0) by (apply (Z.mod_unique_pos _ _ 14); lia).
  rewrite (char_room _ _ _ _ 2 Hi Hd) by lia. destruct r as [|b1 [|b2 r']];
    [right; split; [done|]; intros c bs l' He Hf; by destruct (no_form3 _ _ _ _ _ _ Hf He Hb) as (? & ? & ? & _)..|].
  destruct (Z.leb_spec 2 (zlen (b1 :: b2 :: r'))) as [_|Hz]; [|cbn [length] in Hz; lia].
  pose proof (char_next _ _ _ _ 0 Hi Hd) as Hg. pose proof (char_next _ _ _ _ 1 Hi Hd) as Hg2.
  replace (i + 2 - 1) with (i + 1 + Z.of_nat 0) by lia. replace (i + 2) with (i + 1 + Z.of_nat 1) by lia.
  rewrite Hg, Hg2. cbn [defined mbind outcome_bind lookup list_lookup].
  rewrite !list.Forall_cons in Hr. destruct Hr as (Hb1 & Hb2 & _). rewrite !continuation_byte by done.
  destruct (Z.leb_spec 0x80 b1), (Z.ltb_spec b1 0xC0), (Z.leb_spec 0x80 b2), (Z.ltb_spec b2 0xC0); cbn [andb];
    try (right; split; [done|]; intros c bs l' He Hf;
         destruct (no_form3 _ _ _ _ _ _ Hf He Hb) as (? & ? & [= <- <- <-] & ? & ? & _); lia).
  rewrite !land_0x3f, !Z.shiftl_mul_pow2 by lia. change (2 ^ 6) with 64. change (2 ^ 12) with 4096.
  replace (b1 mod 64) with (b1 - 0x80) by (apply (Z.mod_unique_pos _ _ 2); lia).
  replace (b2 mod 64) with (b2 - 0x80) by (apply (Z.mod_unique_pos _ _ 2); lia).
  rewrite !umod_id by (pow2_norm; rewrite ?umod_id by (pow2_norm; lia); lia).
  set (c := (b - 0xE0) * 4096 + ((b1 - 0x80) * 64 + (b2 - 0x80))).
  destruct ((major_version P <=? 47) || (0x800 <=? c)) eqn:Hc; cbn [guarantee_property mbind outcome_bind].
  - left. exists c, [b; b1; b2], r'. split; [done|]. split; [|cbn [length]; f_equal; lia].
    replace [b; b1; b2] with [0xE0 + (b - 0xE0); 0x80 + (b1 - 0x80); 0x80 + (b2 - 0x80)] by (repeat f_equal; lia).
    constructor; lia.
  - right. split; [done|]. intros c' bs l' He Hf.
    destruct (no_form3 _ _ _ _ _ _ Hf He Hb) as (? & ? & [= <- <- <-] & _ & _ & -> & Hv). lia.
Qed.

Lemma verify_utf8_char_ok P (buf r : list Z) (i b : Z) :
  0 <= i -> drop (Z.to_nat i) buf = b :: r -> Forall (fun b => in_u 8 b) r -> 128 <= b < 256 ->
  char_result P i (b :: r) (verify_utf8_char P buf (zlen buf) i b).
Proof.
  intros Hi Hd Hr Hb.
  destruct (Z.lt_ge_cases b 0xC0) as [Hlt|Hge]; [|destruct (Z.lt_ge_cases b 0xE0);
    [by apply char2_ok|destruct (Z.lt_ge_cases b 0xF0); [by apply char3_ok|]]];
    (right; split; [|intros c bs l' He Hf; apply (no_form1 _ _ _ _ _ _ Hf He); lia]);
    unfold verify_utf8_char; destruct (lead_byte b ltac:(lia)) as (-> & _);
    destruct (Z.ltb_spec b 0xC0), (Z.leb_spec 0xF0 b); try lia; done.
Qed.

(** *** Supplementary characters *)

Lemma land_0xff (b : Z) : in_u 8 b -> Z.land b 0xFF = b.
Proof. intros Hb. change 0xFF with (Z.ones 8). rewrite Z.land_ones by lia. by apply Z.mod_small. Qed.

Lemma land_0xf0 (b : Z) : in_u 8 b -> Z.land b 0xF0 = b - b mod 16.
Proof.
  intros Hb. pose proof (all_from_spec 256 0 b (fun b => Z.land b 0xF0 =? b - b mod 16)
    ltac:(vm_compute; reflexivity) ltac:(cbn; lia)) as H. by apply Z.eqb_eq in H.
Qed.

(** The tests succeed on two surrogates, and only there. *)
Lemma supplementary_true P (l : list Z) :
  Forall (fun b => in_u 8 b) l -> is_supplementary_character l = Some true ->
  exists c d bs bs' r, l = bs ++ bs' ++ r /\ char_form P c bs /\ char_form P d bs' /\
    zlen bs = 3 /\ zlen bs' = 3 /\ high_surrogate c = true /\ low_surrogate d = true.
Proof.
  intros Hl Hs. unfold is_supplementary_character in Hs.
  destruct l as [|b0 [|b1 [|b2 [|b3 [|b4 [|b5 r]]]]]]; cbn [lookup list_lookup mbind option_bind] in Hs; try done;
    repeat case_match; try done.
  rewrite !list.Forall_cons in Hl. destruct Hl as (Hx0 & Hx1 & Hx2 & Hx3 & Hx4 & Hx5 & _).
  repeat match goal with H : (Z.land _ _ =? _) = true |- _ =>
    first [rewrite continuation_byte in H by done | rewrite land_0xff in H by done | rewrite land_0xf0 in H by done] end.
  pose proof (Z.mod_pos_bound b1 16 ltac:(lia)). pose proof (Z.mod_pos_bound b4 16 ltac:(lia)).
  exists (0xD000 + (b1 - 0x80) * 64 + (b2 - 0x80)), (0xD000 + (b4 - 0x80) * 64 + (b5 - 0x80)),
    [b0; b1; b2], [b3; b4; b5], r. split; [done|].
  assert (Hf : forall x y z, x = 0xED -> 0x80 <= y < 0xC0 -> 0x80 <= z < 0xC0 ->
    char_form P (0xD000 + (y - 0x80) * 64 + (z - 0x80)) [x; y; z]).
  { intros x y z -> Hy Hz.
    replace [0xED; y; z] with [0xE0 + 13; 0x80 + (y - 0x80); 0x80 + (z - 0x80)] by (repeat f_equal; lia).
    constructor; lia. }
  split; [apply Hf; lia|]. split; [apply Hf; lia|]. do 2 (split; [done|]).
  unfold high_surrogate, low_surrogate. rewrite !andb_true_iff. lia.
Qed.

Lemma supplementary_defined (l : list Z) :
  6 <= zlen l -> (exists s, is_supplementary_character l = Some s) /\ (exists v, get_supplementary_character l = Some v).
Proof.
  intros Hl. destruct l as [|b0 [|b1 [|b2 [|b3 [|b4 [|b5 r]]]]]]; cbn [length] in Hl; try lia.
  unfold is_supplementary_character, get_supplementary_character. cbn [lookup list_lookup mbind option_bind].
  split; [|by eexists]. repeat case_match; by eexists.
Qed.

(** ** Strings *)

Lemma form_prefix P c c' bs bs' l l' :
  char_form P c bs -> char_form P c' bs' -> bs ++ l = bs' ++ l' -> bs = bs' /\ l = l' /\ c = c'.
Proof. intros [] []; cbn [app]; intros [= ]; subst; try lia; repeat split; try done; lia || (repeat f_equal; lia). Qed.

Lemma legal_form P c bs l : char_form P c bs -> legal_utf8 P (bs ++ l) <-> legal_utf8 P l.
Proof.
  intros Hf. split; [|by apply (legal_char P c)].
  intros Hl. inversion Hl as [He|c' bs' l' Hf' Hl' He].
  - destruct Hf; done.
  - by destruct (form_prefix _ _ _ _ _ _ _ Hf' Hf He) as (_ & <- & _).
Qed.

(** Whether a verified string goes on from [i], the result of the loop tells. *)
Definition checked (P : Parser) (l : list Z) (res : outcome ()) : Prop :=
  (res = Done tt /\ legal_utf8 P l) \/ (res = Throw ClassFormatError /\ ~ legal_utf8 P l).

Lemma checked_form P c bs l res : char_form P c bs -> checked P l res -> checked P (bs ++ l) res.
Proof. intros Hf. unfold checked. by rewrite (legal_form P c bs l Hf). Qed.

Lemma drop_app_Z {A} (buf bs l : list A) (i : Z) :
  0 <= i -> drop (Z.to_nat i) buf = bs ++ l -> drop (Z.to_nat (i + zlen bs)) buf = l.
Proof.
  intros Hi Hd. replace (Z.to_nat (i + zlen bs)) with (Z.to_nat i + length bs)%nat by lia.
  by rewrite <- drop_drop, Hd, drop_app_length.
Qed.

Lemma char_form_length P c bs : char_form P c bs -> 1 <= zlen bs.
Proof. destruct 1; cbn [length]; lia. Qed.

(** A character that is not ASCII, and what follows it. *)
Lemma wide_char_ok P (buf r : list Z) (i b : Z) (loop : Z -> outcome ()) :
  0 <= i -> drop (Z.to_nat i) buf = b :: r -> Forall (fun b => in_u 8 b) (b :: r) -> 128 <= b ->
  (forall j, i < j <= zlen buf -> checked P (drop (Z.to_nat j) buf) (loop j)) ->
  checked P (b :: r)
    (supplementary ← (if i + 5 <? zlen buf then defined (is_supplementary_character (drop (Z.to_nat i) buf))
                      else Done false);
     if (supplementary : bool) then
       defined (get_supplementary_character (drop (Z.to_nat i) buf));; loop (i + 5 + 1)
     else i ← verify_utf8_char P buf (zlen buf) i b; loop (i + 1)).
Proof.
  intros Hi Hd Hb Hb0 HL. apply list.Forall_cons in Hb as Hbr. destruct Hbr as [Hb1 Hr]. rewrite Hd.
  rewrite (char_room _ _ _ _ 5 Hi Hd) by lia.
  assert (Hlen : zlen (b :: r) = zlen buf - i).
  { rewrite <- Hd, length_drop. apply (f_equal length) in Hd. rewrite length_drop in Hd. cbn in Hd. lia. }
  assert (Hchar : checked P (b :: r) (i ← verify_utf8_char P buf (zlen buf) i b; loop (i + 1))).
  { destruct (verify_utf8_char_ok P buf r i b Hi Hd Hr ltac:(lia)) as [(c & bs & l' & He & Hf & ->)|[-> Hno]]; cbn [mbind outcome_bind].
    - rewrite He in *. apply (checked_form P c); [done|]. rewrite <- (drop_app_Z _ _ _ _ Hi Hd) at 1.
      rewrite length_app in Hlen. pose proof (char_form_length _ _ _ Hf).
      replace (i + zlen bs - 1 + 1) with (i + zlen bs) by lia. apply HL. lia.
    - right. split; [done|]. rewrite legal_cons. intros (c & bs & l' & He & Hf & _). by apply (Hno c bs l' He). }
  destruct (Z.leb_spec 5 (zlen r)); [|done].
  destruct (supplementary_defined (b :: r)) as [[s Hs] [v Hv]]; [cbn [length]; lia|].
  rewrite Hs, Hv. cbn [defined mbind outcome_bind]. destruct s; [|done].
  destruct (supplementary_true P _ Hb Hs) as (c & d & bs & bs' & l' & He & Hf & Hf' & Hl1 & Hl2 & _).
  rewrite He in *. apply (checked_form P c); [done|]. apply (checked_form P d); [done|].
  rewrite app_assoc in Hd. rewrite <- (drop_app_Z _ _ _ _ Hi Hd) at 1.
  rewrite !length_app in *. replace (i + 5 + 1) with (i + Z.of_nat (length bs + length bs')) by lia. apply HL. lia.
Qed.

Lemma verify_utf8_loop_ok P (buf : list Z) (fuel : nat) (i : Z) :
  Forall (fun b => in_u 8 b) buf -> 0 <= i <= zlen buf -> zlen buf - i <= Z.of_nat fuel ->
  checked P (drop (Z.to_nat i) buf) (verify_utf8_loop fuel P buf (zlen buf) i).
Proof.
  intros Hb. revert i. induction fuel as [|fuel IH]; intros i Hi Hf; cbn [verify_utf8_loop];
    (destruct (Z.ltb_spec i (zlen buf)); [try lia|left; split; [done|]; rewrite drop_ge by lia; constructor]).
  destruct (drop (Z.to_nat i) buf) as [|b r] eqn:Hd;
    [apply (f_equal length) in Hd; rewrite length_drop in Hd; cbn in Hd; lia|].
  pose proof (Forall_drop _ (Z.to_nat i) _ Hb) as Hbr. rewrite Hd in Hbr. apply list.Forall_cons in Hbr as Hb0.
  destruct Hb0 as [Hb0 Hr]. rewrite (zget_drop _ _ _ _ (proj1 Hi) Hd). cbn [defined mbind outcome_bind].
  destruct (Z.eqb_spec b 0) as [->|Hb1]; cbn [negb guarantee_property mbind outcome_bind].
  { right. split; [done|]. intros Hl%legal_bytes%Forall_inv. lia. }
  destruct (Z.ltb_spec b 128).
  - unfold checked. rewrite (legal_ascii P b r), <- (drop_next _ _ _ _ (proj1 Hi) Hd) by lia. apply IH; lia.
  - pose proof (wide_char_ok P buf r i b (verify_utf8_loop fuel P buf (zlen buf)) (proj1 Hi) Hd Hbr ltac:(lia)) as Hw.
    rewrite Hd in Hw. apply Hw. intros j Hj. apply IH; lia.
Qed.

Lemma verify_legal_utf8_ok P (buf : list Z) :
  Forall (fun b => in_u 8 b) buf -> checked P buf (verify_legal_utf8 P buf (zlen buf)).
Proof.
  intros Hb. unfold verify_legal_utf8. pose proof (Z.div_mod (zlen buf) 4 ltac:(lia)).
  pose proof (Z.mod_pos_bound (zlen buf) 4 ltac:(lia)).
  destruct (quick_loop_ok P (Z.to_nat (Z.shiftr (zlen buf) 2)) buf 0 Hb) as (j & -> & Hj & Hl);
    [lia|rewrite Z.shiftr_div_pow2 by lia; change (2 ^ 2) with 4; lia|].
  change (drop (Z.to_nat 0) buf) with buf in Hl. cbn [mbind outcome_bind].
  unfold checked. rewrite Hl. apply verify_utf8_loop_ok; [done|lia|lia].
Qed.

(** ** Names *)

(** The characters of a string as the checker reads it: ASCII bytes, and other
    characters with their bytes; two surrogates are one character. *)
Inductive token :=
| Ascii (b : Z)
| Wide (c : Z) (bs : list Z).

Definition token_bytes (t : token) : list Z := match t with Ascii b => [b] | Wide _ bs => bs end.
Definition tokens_bytes (ts : list token) : list Z := mjoin (token_bytes <$> ts).

(** A surrogate pair begins here. *)
Definition begins_low (P : Parser) (l : list Z) : Prop :=
  exists d bs l', l = bs ++ l' /\ char_form P d bs /\ low_surrogate d = true.

Inductive tokens (P : Parser) : list token -> Prop :=
| tokens_nil : tokens P []
| tokens_ascii b ts : 0 < b < 128 -> tokens P ts -> tokens P (Ascii b :: ts)
| tokens_wide c bs ts :
    char_form P c bs -> (length bs > 1)%nat -> ~ (high_surrogate c = true /\ begins_low P (tokens_bytes ts)) ->
    tokens P ts -> tokens P (Wide c bs :: ts)
| tokens_pair c d bs bs' ts :
    char_form P c bs -> char_form P d bs' -> high_surrogate c = true -> low_surrogate d = true ->
    tokens P ts -> tokens P (Wide (0x10000 + (c - 0xD800) * 1024 + (d - 0xDC00)) (bs ++ bs') :: ts).

Lemma tokens_bytes_cons (t : token) (ts : list token) : tokens_bytes (t :: ts) = token_bytes t ++ tokens_bytes ts.
Proof. done. Qed.

Lemma tokens_bytes_app (ts ts' : list token) : tokens_bytes (ts ++ ts') = tokens_bytes ts ++ tokens_bytes ts'.
Proof. unfold tokens_bytes. by rewrite fmap_app, join_app. Qed.

Lemma tokens_legal P ts : tokens P ts -> legal_utf8 P (tokens_bytes ts).
Proof.
  induction 1 as [|b ts Hb _ IH|c bs ts Hf _ _ _ IH|c d bs bs' ts Hc Hd _ _ _ IH]; rewrite ?tokens_bytes_cons; cbn [token_bytes app].
  - constructor.
  - by apply legal_ascii.
  - by apply (legal_char P c).
  - rewrite <- app_assoc. apply (legal_char P c); [done|]. by apply (legal_char P d).
Qed.

Lemma char_form_short P c bs : char_form P c bs -> (length bs > 1)%nat \/ (bs = [c] /\ 0 < c < 128).
Proof. destruct 1; cbn [length]; (right; split; [done|lia]) || (left; lia). Qed.

(** Every legal string is a list of them. *)
Lemma legal_tokens P l : legal_utf8 P l -> exists ts, tokens P ts /\ tokens_bytes ts = l.
Proof.
  remember (length l) as n eqn:Hn. revert l Hn. induction (lt_wf n) as [n _ IH]. intros l -> Hl.
  destruct Hl as [|c bs l Hf Hl]; [exists []; by split; [constructor|]|].
  pose proof (char_form_length _ _ _ Hf) as Hlen. rewrite length_app in IH.
  destruct (IH (length l) ltac:(lia) l eq_refl Hl) as (ts & Hts & Hb).
  destruct (char_form_short _ _ _ Hf) as [Hw|[-> Hc]];
    [|exists (Ascii c :: ts); split; [by constructor|by rewrite tokens_bytes_cons, Hb]].
  destruct (high_surrogate c) eqn:Hh; [|exists (Wide c bs :: ts); split; [apply tokens_wide; [done|done|rewrite Hh; naive_solver|done]|by rewrite tokens_bytes_cons, Hb]].
  destruct Hl as [|d bs' l' Hf' Hl'].
  { exists (Wide c bs :: ts). split; [|by rewrite tokens_bytes_cons, Hb]. apply tokens_wide; try done.
    rewrite Hb. intros [_ (d & bs' & l' & He & Hd & _)]. destruct Hd; done. }
  destruct (low_surrogate d) eqn:Hd.
  - rewrite length_app in IH. destruct (IH (length l') ltac:(lia) l' eq_refl Hl') as (ts' & Hts' & Hb').
    eexists (Wide _ (bs ++ bs') :: ts'). split; [by apply (tokens_pair P c d)|].
    rewrite tokens_bytes_cons, Hb'. cbn [token_bytes]. by rewrite <- app_assoc.
  - exists (Wide c bs :: ts). split; [|by rewrite tokens_bytes_cons, Hb]. apply tokens_wide; try done.
    rewrite Hb. intros [_ (d' & bs1 & l1 & He & Hd' & Hlow)].
    destruct (form_prefix _ _ _ _ _ _ _ Hf' Hd' He) as (_ & _ & <-). congruence.
Qed.

Lemma tokens_app P ts b ts' : tokens P ts -> tokens P (Ascii b :: ts') -> tokens P (ts ++ Ascii b :: ts').
Proof.
  intros Hts Hb. induction Hts as [|b' ts Hb' _ IH|c bs ts Hf Hw Hn _ IH|c d bs bs' ts Hc Hd ? ? _ IH]; cbn [app];
    [done|by constructor| |by apply (tokens_pair P c d)].
  apply tokens_wide; try done. intros [Hh (d & bs' & l' & He & Hd & Hlow)]. apply Hn. split; [done|].
  rewrite tokens_bytes_app, tokens_bytes_cons in He. cbn [token_bytes app] in He.
  unfold low_surrogate in Hlow. inversion Hb; subst.
  assert (exists l2, tokens_bytes ts = bs' ++ l2) as [l2 ->]; [|by exists d, bs', l2].
  assert (Hall : forall x, x ∈ bs' -> 128 <= x)
    by (apply (char_form_wide P d); [done|destruct (char_form_short _ _ _ Hd) as [|[_ ?]]; [done|lia]]).
  clear -He Hall H1. revert He Hall. generalize (tokens_bytes ts) as l. induction bs' as [|x bs' IH]; intros l He Hall; [by eexists|].
  destruct l as [|y l]; cbn [app] in He; injection He as <- He.
  - specialize (Hall b (list_elem_of_here _ _)). lia.
  - destruct (IH l He) as [l2 ->]; [|by exists l2]. intros. apply Hall. by apply list_elem_of_further.
Qed.

Lemma next_form P c bs rest : char_form P c bs -> next (bs ++ rest) = Some (c, rest).
Proof.
  destruct 1 as [Hr|h l -> Hh Hl _|h m l -> Hh Hm Hl _].
  - apply next_ascii. lia.
  - by apply next_two.
  - by apply next_three.
Qed.

(** The tests for a supplementary character stop at a zero byte. *)
Lemma supplementary_stops (l : list Z) : exists s, is_supplementary_character (l ++ [0]) = Some s.
Proof.
  unfold is_supplementary_character.
  destruct l as [|b0 [|b1 [|b2 [|b3 [|b4 [|b5 l]]]]]]; cbn [app lookup list_lookup mbind option_bind];
    repeat match goal with |- context [if ?b then _ else _] => destruct b eqn:? end; try discriminate; by eexists.
Qed.

Lemma prefix_nonzero (bs l r : list Z) :
  (forall b, b ∈ bs -> 0 < b) -> l ++ [0] = bs ++ r -> exists l', l = bs ++ l'.
Proof.
  revert l. induction bs as [|x bs IH]; intros l Hb He; [by eexists|].
  destruct l as [|y l]; cbn [app] in He; injection He as <- He.
  - specialize (Hb 0 (list_elem_of_here _ _)). lia.
  - destruct (IH l) as [l' ->]; [|done|by exists l']. intros b ?. apply Hb. by apply list_elem_of_further.
Qed.

Lemma get_supplementary_forms P c d bs bs' rest :
  char_form P c bs -> char_form P d bs' -> high_surrogate c = true -> low_surrogate d = true ->
  is_supplementary_character (bs ++ bs' ++ rest) = Some true /\
  get_supplementary_character (bs ++ bs' ++ rest) = Some (0x10000 + (c - 0xD800) * 1024 + (d - 0xDC00)) /\
  drop 6 (bs ++ bs' ++ rest) = rest.
Proof.
  intros Hc Hd Hh Hl.
  assert (Hw : forall e es, char_form P e es -> 0xD800 <= e < 0xE000 -> es = utf8_write e /\ jchar e).
  { intros e es He Hr. pose proof (char_form_jchar _ _ _ He) as Hj. split; [|done].
    apply (written_unique e); [|by apply utf8_write_written]. destruct He; constructor; lia. }
  unfold high_surrogate in Hh. unfold low_surrogate in Hl.
  destruct (Hw c bs Hc ltac:(lia)) as [-> Hcj], (Hw d bs' Hd ltac:(lia)) as [-> Hdj].
  assert (Hp : high_surrogate c && low_surrogate d = true) by (unfold high_surrogate, low_surrogate; lia).
  rewrite is_supplementary_write, Hp by done. split; [done|]. by apply get_supplementary_pair.
Qed.

(** Reading a character that is not ASCII. *)
Lemma next_character_token P c bs ts :
  tokens P (Wide c bs :: ts) ->
  next_character (bs ++ tokens_bytes ts ++ [0]) = Some (c, tokens_bytes ts ++ [0]).
Proof.
  intros Ht. unfold next_character. inversion Ht as [| |c' bs' ts' Hf Hw Hn Hts|c1 d1 bs1 bs2 ts' Hc Hd Hh Hl Hts]; subst.
  - destruct (supplementary_stops (bs ++ tokens_bytes ts)) as [s Hs]. rewrite <- app_assoc in Hs. rewrite Hs.
    cbn [mbind option_bind]. destruct s; [|by apply (next_form P)].
    assert (Hb : Forall (fun b => in_u 8 b) (bs ++ tokens_bytes ts ++ [0])).
    { apply tokens_legal in Ht. apply legal_bytes in Ht. rewrite tokens_bytes_cons in Ht. cbn [token_bytes] in Ht.
      rewrite app_assoc. apply Forall_app. split; [|repeat constructor; lia]. eapply list.Forall_impl; [exact Ht|]. cbn. lia. }
    destruct (supplementary_true P _ Hb Hs) as (c1 & d1 & bs1 & bs2 & r & He & Hc & Hd & _ & _ & Hh & Hl).
    destruct (form_prefix _ _ _ _ _ _ _ Hf Hc He) as (<- & He' & <-). exfalso. apply Hn. split; [done|].
    destruct (prefix_nonzero bs2 (tokens_bytes ts) r) as [l' Hl']; [intros b Hb2; by apply (char_form_bytes P d1 bs2)|done|].
    by exists d1, bs2, l'.
  - rewrite <- app_assoc. destruct (get_supplementary_forms P c1 d1 bs1 bs2 (tokens_bytes ts ++ [0])) as (-> & -> & Hdr); try done.
    cbn [mbind option_bind]. by rewrite Hdr.
Qed.

Section Names.
Context (isJavaIdentifierStart isJavaIdentifierPart : Z -> option bool).

(** What the loop does with a character: it goes on, it ends the name before the
    character, or there is no name. *)
Inductive verdict := Continue | Stop | Null.

Definition name_verdict (slash_ok last_is_slash not_first_ch : bool) (t : token) : verdict :=
  match t with
  | Ascii b =>
      if ascii_name_char b not_first_ch then Continue
      else if slash_ok && (b =? 47) then if last_is_slash then Null else Continue else Stop
  | Wide c _ =>
      match isJavaIdentifierStart c with
      | None => Null
      | Some true => Continue
      | Some false =>
          if not_first_ch then
            match isJavaIdentifierPart c with None => Null | Some true => Continue | Some false => Stop end
          else Stop
      end
  end.

Definition is_slash (t : token) : bool := match t with Ascii b => b =? 47 | Wide _ _ => false end.

(** The number of characters of the name. *)
Fixpoint name_scan (slash_ok last_is_slash not_first_ch : bool) (ts : list token) : option nat :=
  match ts with
  | [] => if not_first_ch then Some 0%nat else None
  | t :: ts =>
      match name_verdict slash_ok last_is_slash not_first_ch t with
      | Continue => S <$> name_scan slash_ok (is_slash t) true ts
      | Stop => if not_first_ch then Some 0%nat else None
      | Null => None
      end
  end.

Lemma signed_char (b : Z) : in_u 8 b -> u16 (s8 b) = if b <? 128 then b else b + 0xFF00.
Proof.
  intros Hb. pose proof (all_from_spec 256 0 b (fun b => u16 (s8 b) =? if b <? 128 then b else b + 0xFF00)
    ltac:(vm_compute; reflexivity) ltac:(cbn; lia)) as H. by apply Z.eqb_eq in H.
Qed.

Lemma ascii_not_slash (b : Z) (nf : bool) : ascii_name_char b nf = true -> (b =? 47) = false.
Proof. unfold ascii_name_char. intros H. destruct nf; lia. Qed.

Lemma wide_head P c bs ts : tokens P (Wide c bs :: ts) -> exists b bs', bs = b :: bs' /\ 128 <= b < 256.
Proof.
  intros Ht. inversion Ht as [| |c' bs' ts' Hf Hw _ _|c1 d1 bs1 bs2 ts' Hc Hd Hh Hl _]; subst.
  - destruct Hf; [cbn in Hw; lia|eexists _, _; split; [done|lia]..].
  - unfold high_surrogate in Hh. destruct Hc; [lia|eexists _, _; split; [done|lia]..].
Qed.

Lemma tokens_tail P t ts : tokens P (t :: ts) -> tokens P ts.
Proof. by inversion 1. Qed.

Definition tokens_size (ts : list token) : Z := zlen (tokens_bytes ts).

Lemma skip_name_loop_eq P (buf : list Z) (slash_ok : bool) (ts : list token) (fuel : nat) (p : Z) (last nf : bool) :
  tokens P ts -> 0 <= p -> drop (Z.to_nat p) buf = tokens_bytes ts ++ [0] -> tokens_size ts <= Z.of_nat fuel ->
  skip_name_loop isJavaIdentifierStart isJavaIdentifierPart fuel buf (p + tokens_size ts) slash_ok p last nf =
  Done ((fun k => p + tokens_size (take k ts)) <$> name_scan slash_ok last nf ts).
Proof.
  unfold tokens_size. revert fuel p last nf. induction ts as [|t ts IH]; intros fuel p last nf Hts Hp Hd Hf.
  { destruct fuel; cbn [skip_name_loop name_scan tokens_bytes fmap list_fmap mjoin list_join length];
      rewrite Z.add_0_r, Z.eqb_refl; unfold name_end; destruct nf; cbn; by rewrite ?Z.add_0_r. }
  pose proof (tokens_tail _ _ _ Hts) as Hts'. rewrite tokens_bytes_cons, length_app in Hf |- *.
  rewrite tokens_bytes_cons, <- app_assoc in Hd. pose proof (drop_app_Z _ _ _ _ Hp Hd) as Hd'.
  assert (Hlen : 0 < zlen (token_bytes t)).
  { destruct t as [b|c bs]; [cbn; lia|]. destruct (wide_head _ _ _ _ Hts) as (b & bs' & -> & _). cbn [token_bytes length]. lia. }
  destruct fuel as [|fuel]; [lia|]. cbn [skip_name_loop name_scan].
  destruct (Z.eqb_spec p (p + Z.of_nat (length (token_bytes t) + length (tokens_bytes ts)))); [lia|].
  assert (Hgo : forall last nf',
    skip_name_loop isJavaIdentifierStart isJavaIdentifierPart fuel buf
      (p + Z.of_nat (length (token_bytes t) + length (tokens_bytes ts))) slash_ok (p + zlen (token_bytes t)) last nf' =
    Done ((fun k => p + zlen (tokens_bytes (take k (t :: ts)))) <$> (S <$> name_scan slash_ok last nf' ts))).
  { intros last' nf'. replace (p + Z.of_nat _) with (p + zlen (token_bytes t) + zlen (tokens_bytes ts)) by lia.
    rewrite IH by (done || lia). f_equal. destruct (name_scan slash_ok last' nf' ts) as [k|]; [|done]. cbn [fmap option_fmap option_map take].
    rewrite tokens_bytes_cons, length_app. f_equal. lia. }
  assert (Hstop : name_end nf p = Done ((fun k => p + zlen (tokens_bytes (take k (t :: ts)))) <$> (if nf then Some 0%nat else None))).
  { unfold name_end. destruct nf; [|done]. cbn. by rewrite Z.add_0_r. }
  destruct t as [b|c bs]; cbn [token_bytes app length] in *.
  - inversion Hts; subst. rewrite (zget_drop _ _ _ _ Hp Hd). cbn [defined mbind outcome_bind name_verdict is_slash].
    rewrite signed_char by lia. destruct (Z.ltb_spec b 128); [|lia]. destruct (Z.ltb_spec b 128); [|lia].
    destruct (ascii_name_char b nf) eqn:Ha; [by rewrite Hgo, (ascii_not_slash b nf)|].
    destruct (slash_ok && (b =? 47)) eqn:Hs; [|done]. apply andb_true_iff in Hs as [_ ->]. destruct last; [done|apply Hgo].
  - destruct (wide_head _ _ _ _ Hts) as (b & bs' & Hbs & Hb).
    assert (Hz : zget buf p = Some b) by (apply (zget_drop buf (bs' ++ tokens_bytes ts ++ [0])); [done|by rewrite Hd, Hbs]).
    rewrite Hz, Hd, (next_character_token P c bs ts Hts). cbn [defined mbind outcome_bind name_verdict is_slash].
    rewrite signed_char by lia. destruct (Z.ltb_spec b 128); [lia|]. destruct (Z.ltb_spec (b + 0xFF00) 128); [lia|].
    replace (zlen buf - zlen (tokens_bytes ts ++ [0])) with (p + zlen bs).
    2:{ rewrite <- Hd'. rewrite length_drop. apply (f_equal length) in Hd'. rewrite length_drop, length_app in Hd'. cbn in Hd'. lia. }
    destruct (isJavaIdentifierStart c) as [[]|]; [apply Hgo| |done]. destruct nf; [|done].
    destruct (isJavaIdentifierPart c) as [[]|]; [apply Hgo|done|done].
Qed.
End Names.

(** *** Legal names *)

Section LegalNames.
Context (isJavaIdentifierStart isJavaIdentifierPart : Z -> option bool).

Definition identifier_start (t : token) : Prop :=
  match t with
  | Ascii b => ascii_name_char b false = true
  | Wide c _ => isJavaIdentifierStart c = Some true
  end.

Definition identifier_part (t : token) : Prop :=
  match t with
  | Ascii b => ascii_name_char b true = true
  | Wide c _ =>
      isJavaIdentifierStart c = Some true \/
      (isJavaIdentifierStart c = Some false /\ isJavaIdentifierPart c = Some true)
  end.

(** A name before version 49: a character of an identifier, or a slash where
    slashes are allowed, at each place, and no two slashes side by side. *)
Record legal_name (slash_ok : bool) (ts : list token) : Prop := {
  name_nonempty : ts <> [];
  name_first t : ts !! 0%nat = Some t -> (slash_ok = true /\ is_slash t = true) \/ identifier_start t;
  name_rest i t : ts !! S i = Some t -> (slash_ok = true /\ is_slash t = true) \/ identifier_part t;
  name_slashes i t t' : ts !! i = Some t -> ts !! S i = Some t' -> is_slash t && is_slash t' = false;
}.

Abbreviation verdict_of := (name_verdict isJavaIdentifierStart isJavaIdentifierPart).
Abbreviation scan := (name_scan isJavaIdentifierStart isJavaIdentifierPart).

(** The loop goes on through all of these characters. *)
Fixpoint name_run (slash_ok last nf : bool) (ts : list token) : Prop :=
  match ts with
  | [] => True
  | t :: ts => verdict_of slash_ok last nf t = Continue /\ name_run slash_ok (is_slash t) true ts
  end.

Lemma verdict_continue (slash_ok last nf : bool) (t : token) :
  verdict_of slash_ok last nf t = Continue <->
  last && is_slash t = false /\
  ((slash_ok = true /\ is_slash t = true) \/ (if nf then identifier_part t else identifier_start t)).
Proof.
  destruct t as [b|c bs]; cbn [name_verdict is_slash identifier_part identifier_start].
  - destruct (ascii_name_char b nf) eqn:Ha.
    + rewrite (ascii_not_slash b nf Ha), andb_false_r. destruct nf; naive_solver.
    + destruct slash_ok, (b =? 47), last; cbn [andb]; destruct nf; rewrite Ha; naive_solver.
  - rewrite andb_false_r. destruct (isJavaIdentifierStart c) as [[]|], nf; try naive_solver.
    destruct (isJavaIdentifierPart c) as [[]|]; naive_solver.
Qed.

Lemma name_run_iff (slash_ok last nf : bool) (ts : list token) :
  name_run slash_ok last nf ts <->
  (forall t, ts !! 0%nat = Some t -> verdict_of slash_ok last nf t = Continue) /\
  (forall i t, ts !! S i = Some t -> (slash_ok = true /\ is_slash t = true) \/ identifier_part t) /\
  (forall i t t', ts !! i = Some t -> ts !! S i = Some t' -> is_slash t && is_slash t' = false).
Proof.
  revert last nf. induction ts as [|t ts IH]; intros last nf; cbn [name_run].
  { split; [|done]. intros _. repeat split; intros; done. }
  rewrite IH. split.
  - intros (H0 & H1 & H2 & H3). split; [by intros t' [= <-]|]. split.
    + intros [|i] t' Ht; cbn in Ht; [|by apply (H2 i)]. apply H1, verdict_continue in Ht. naive_solver.
    + intros [|i] t1 t2 Ht1 Ht2; cbn in Ht1, Ht2; [|by apply (H3 i)]. injection Ht1 as <-.
      apply H1, verdict_continue in Ht2. naive_solver.
  - intros (H0 & H2 & H3). split; [by apply H0|]. split; [|split].
    + intros t' Ht. apply verdict_continue. split; [by apply (H3 0%nat)|]. by apply (H2 0%nat).
    + intros i t' Ht. by apply (H2 (S i)).
    + intros i t1 t2 Ht1 Ht2. by apply (H3 (S i)).
Qed.

Lemma legal_name_run (slash_ok : bool) (ts : list token) :
  legal_name slash_ok ts <-> ts <> [] /\ name_run slash_ok false false ts.
Proof.
  rewrite name_run_iff. split.
  - intros [H0 H1 H2 H3]. split; [done|]. split; [|done]. intros t Ht. apply verdict_continue. split; [done|]. by apply H1.
  - intros (H0 & H1 & H2 & H3). split; try done. intros t Ht. by apply H1, verdict_continue in Ht as [_ ?].
Qed.

Lemma name_scan_sound (slash_ok last nf : bool) (ts : list token) (k : nat) :
  scan slash_ok last nf ts = Some k ->
  (k <= length ts)%nat /\ name_run slash_ok last nf (take k ts) /\ (nf = true \/ take k ts <> []).
Proof.
  revert last nf k. induction ts as [|t ts IH]; intros last nf k; cbn [name_scan].
  { destruct nf; [|done]. intros [= <-]. naive_solver. }
  destruct (verdict_of slash_ok last nf t) eqn:Hv.
  - destruct (scan slash_ok (is_slash t) true ts) as [k'|] eqn:Hk; [|done]. intros [= <-].
    apply IH in Hk as (Hl & Hr & _). cbn [length take name_run]. split; [lia|]. split; [done|]. by right.
  - destruct nf; [|done]. intros [= <-]. cbn. split; [lia|]. naive_solver.
  - done.
Qed.

Lemma name_scan_complete (slash_ok last nf : bool) (ts rest : list token) :
  name_run slash_ok last nf ts -> nf = true \/ ts <> [] ->
  (forall t last', rest !! 0%nat = Some t -> verdict_of slash_ok last' true t = Stop) ->
  scan slash_ok last nf (ts ++ rest) = Some (length ts).
Proof.
  intros Hr Hn Hs. revert last nf Hr Hn. induction ts as [|t ts IH]; intros last nf Hr Hn; cbn [name_scan app length].
  - destruct Hn as [->|]; [|done]. destruct rest as [|t rest]; [done|]. cbn [name_scan]. by rewrite (Hs t last).
  - destruct Hr as [-> Hr]. rewrite IH by (done || by left). done.
Qed.

(** The whole of the string is a name exactly if it is legal. *)
Lemma name_scan_whole (slash_ok : bool) (ts : list token) :
  scan slash_ok false false ts = Some (length ts) <-> legal_name slash_ok ts.
Proof.
  rewrite legal_name_run. split.
  - intros (_ & Hr & Hn)%name_scan_sound. rewrite take_ge in Hr, Hn by lia. naive_solver.
  - intros [Hn Hr]. rewrite <- (app_nil_r ts) at 1. apply name_scan_complete; [done|by right|done].
Qed.
End LegalNames.

(** *** Unqualified names *)

Definition forbidden (type : legality) (b : Z) : bool :=
  (b =? 46) || (b =? 59) || (b =? 91) || (negb (bool_decide (type = LegalClass)) && (b =? 47)) ||
  (bool_decide (type = LegalMethod) && ((b =? 60) || (b =? 62))).

Lemma forbidden_wide (type : legality) (bs : list Z) :
  (forall b, b ∈ bs -> 128 <= b) -> forallb (fun b => negb (forbidden type b)) bs = true.
Proof.
  intros Hb. apply forallb_forall. intros b Hin%list_elem_of_In%Hb. unfold forbidden.
  repeat match goal with |- context [b =? ?k] => destruct (Z.eqb_spec b k); [lia|] end. by rewrite !andb_false_r.
Qed.

Lemma legal_char_inv P (c : Z) (bs : list Z) : char_form P c bs ->
  (bs = [c] /\ 0 < c < 128) \/ (exists b bs', bs = b :: bs' /\ 128 <= b < 256 /\ forall x, x ∈ bs -> 128 <= x).
Proof.
  intros Hf. destruct (char_form_short _ _ _ Hf) as [Hw|[-> Hc]]; [right|by left].
  pose proof (char_form_wide _ _ _ Hf Hw) as Ha. pose proof (fun x => char_form_bytes _ _ _ x Hf) as Hbs.
  destruct bs as [|b bs]; [cbn in Hw; lia|]. exists b, bs. split; [done|]. split; [|done].
  specialize (Ha b (list_elem_of_here _ _)). specialize (Hbs b (list_elem_of_here _ _)). lia.
Qed.

Lemma verify_unqualified_loop_eq P (buf : list Z) (type : legality) (l : list Z) :
  legal_utf8 P l -> forall (fuel : nat) (p : Z),
  0 <= p -> drop (Z.to_nat p) buf = l ++ [0] -> zlen l <= Z.of_nat fuel ->
  verify_unqualified_loop fuel buf (p + zlen l) type p = Done (forallb (fun b => negb (forbidden type b)) l).
Proof.
  induction 1 as [|c bs l Hf Hl IH]; intros fuel p Hp Hd Hfu.
  { destruct fuel; cbn [verify_unqualified_loop length]; by rewrite Z.add_0_r, Z.eqb_refl. }
  rewrite <- app_assoc in Hd. pose proof (drop_app_Z _ _ _ _ Hp Hd) as Hd'. rewrite length_app in Hfu |- *.
  pose proof (char_form_length _ _ _ Hf). destruct fuel as [|fuel]; [lia|]. cbn [verify_unqualified_loop].
  destruct (Z.eqb_spec p (p + Z.of_nat (length bs + length l))); [lia|].
  specialize (IH fuel (p + zlen bs) ltac:(lia) Hd' ltac:(lia)).
  replace (p + zlen bs + zlen l) with (p + Z.of_nat (length bs + length l)) in IH by lia. rewrite forallb_app.
  destruct (legal_char_inv P c bs Hf) as [[-> Hc]|(b & bs' & -> & Hb & Hw)].
  - cbn [app length forallb] in *. rewrite (zget_drop _ _ _ _ Hp Hd). cbn [defined mbind outcome_bind].
    rewrite signed_char by lia. destruct (Z.ltb_spec c 128); [|lia]. destruct (Z.ltb_spec c 128); [|lia].
    change (Z.of_nat 1) with 1 in IH. rewrite IH. unfold forbidden at 2. rewrite andb_true_r.
    destruct ((c =? 46) || (c =? 59) || (c =? 91)); [done|]. cbn [orb].
    destruct (negb (bool_decide (type = LegalClass)) && (c =? 47)); [done|]. cbn [orb].
    by destruct (bool_decide (type = LegalMethod) && ((c =? 60) || (c =? 62))).
  - rewrite (zget_drop buf (bs' ++ l ++ [0]) b p Hp Hd). cbn [defined mbind outcome_bind].
    rewrite signed_char by lia. destruct (Z.ltb_spec b 128); [lia|]. destruct (Z.ltb_spec (b + 0xFF00) 128); [lia|].
    rewrite Hd, (next_form P c _ _ Hf). cbn [defined mbind outcome_bind]. rewrite forbidden_wide by done. cbn [andb].
    rewrite <- IH. f_equal. rewrite <- Hd', length_drop.
    apply (f_equal length) in Hd'. rewrite length_drop, length_app in Hd'. cbn [length] in Hd' |- *. lia.
Qed.

(** ** Signatures *)

Lemma legal_app_inv P l l' : legal_utf8 P l -> legal_utf8 P (l ++ l') -> legal_utf8 P l'.
Proof.
  induction 1 as [|c bs l Hf _ IH]; [done|]. rewrite <- app_assoc. intros Hl. by apply IH, (legal_form P c bs).
Qed.

(** A string has one list of characters. *)
Lemma tokens_unique P ts ts' : tokens P ts -> tokens P ts' -> tokens_bytes ts = tokens_bytes ts' -> ts = ts'.
Proof.
  intros Hts. revert ts'.
  induction Hts as [|b ts Hb _ IH|c bs ts Hf Hw Hn _ IH|c d bs bs' ts Hc Hd Hh Hl _ IH]; intros ts' Hts' He.
  - destruct Hts' as [|b' ts' Hb' _|c' bs' ts' Hf' Hw' _ _|c' d' bs1 bs2 ts' Hc' Hd' _ _ _]; [done|done|..];
      rewrite tokens_bytes_cons in He; [destruct Hf'; done|destruct Hc'; done].
  - destruct Hts' as [|b' ts' Hb' Ht'|c' bs' ts' Hf' Hw' _ _|c' d' bs1 bs2 ts' Hc' Hd' Hh' _ _]; [done|..];
      rewrite !tokens_bytes_cons in He; cbn [token_bytes app] in He.
    + injection He as -> He. f_equal. by apply IH.
    + destruct Hf'; cbn [app length] in *; injection He; intros; lia.
    + unfold high_surrogate in Hh'. destruct Hc'; cbn [app] in He; injection He; intros; lia.
  - destruct Hts' as [|b' ts' Hb' _|c' bs' ts' Hf' Hw' Hn' Ht'|c' d' bs1 bs2 ts' Hc' Hd' Hh' Hl' Ht'];
      rewrite ?tokens_bytes_cons in He; cbn [token_bytes app] in He.
    + destruct Hf; done.
    + destruct Hf; cbn [app length] in *; injection He; intros; lia.
    + destruct (form_prefix _ _ _ _ _ _ _ Hf Hf' He) as (<- & He' & <-). f_equal. by apply IH.
    + rewrite <- app_assoc in He. destruct (form_prefix _ _ _ _ _ _ _ Hf Hc' He) as (<- & He' & <-).
      exfalso. apply Hn. split; [done|]. rewrite He'. by exists d', bs2, (tokens_bytes ts').
  - destruct Hts' as [|b' ts' Hb' _|c' bs1 ts' Hf' Hw' Hn' Ht'|c' d' bs1 bs2 ts' Hc' Hd' Hh' Hl' Ht'];
      rewrite ?tokens_bytes_cons in He; cbn [token_bytes app] in He; rewrite <- app_assoc in He.
    + destruct Hc; done.
    + unfold high_surrogate in Hh. destruct Hc; cbn [app] in He; injection He; intros; lia.
    + destruct (form_prefix _ _ _ _ _ _ _ Hc Hf' He) as (<- & He' & <-). exfalso. apply Hn'. split; [done|].
      rewrite <- He'. by exists d, bs', (tokens_bytes ts).
    + rewrite <- app_assoc in He. destruct (form_prefix _ _ _ _ _ _ _ Hc Hc' He) as (<- & He' & <-).
      destruct (form_prefix _ _ _ _ _ _ _ Hd Hd' He') as (<- & He'' & <-). f_equal. by apply IH.
Qed.

(** The types of the Java virtual machine, and how a signature writes them.
    [Prim] is a base type or [void], by its letter. *)
Inductive jtype :=
| Prim (c : Z)
| Class (name : list Z)
| ArrayOf (t : jtype).

Fixpoint print (t : jtype) : list Z :=
  match t with
  | Prim c => [c]
  | Class name => JVM_SIGNATURE_CLASS :: name ++ [59]
  | ArrayOf t => JVM_SIGNATURE_ARRAY :: print t
  end.

Fixpoint dimensions (t : jtype) : Z := match t with ArrayOf t => 1 + dimensions t | _ => 0 end.

(** The size of an argument in words. *)
Definition slots (t : jtype) : Z :=
  match t with
  | Prim c => if (c =? JVM_SIGNATURE_LONG) || (c =? JVM_SIGNATURE_DOUBLE) then 2 else 1
  | _ => 1
  end.

Lemma dimensions_nonneg (t : jtype) : 0 <= dimensions t.
Proof. induction t; cbn [dimensions]; lia. Qed.

Lemma print_cons (t : jtype) : exists c l, print t = c :: l.
Proof. destruct t; by eexists _, _. Qed.

Lemma skip_class_loop_ok (buf : list Z) (l : list Z) (fuel : nat) (pos : Z) :
  0 <= pos -> drop (Z.to_nat pos) buf = l ++ [0] -> zlen l <= Z.of_nat fuel ->
  let res := skip_class_loop fuel buf pos (zlen l) in
  (exists n r, l = n ++ 59 :: r /\ 59 ∉ n /\ 46 ∉ n /\ res = Done (Some (pos + zlen n + 1))) \/
  ((res = Done None \/ res = Throw ClassFormatError) /\ forall n r, l = n ++ 59 :: r -> 59 ∉ n -> 46 ∉ n -> False).
Proof.
  revert fuel pos. induction l as [|c l IH]; intros fuel pos Hp Hd Hf res; unfold res; clear res.
  { right. split; [|intros [|] r; done]. left. destruct fuel; cbn [skip_class_loop length app] in *;
      by rewrite (zget_drop _ _ _ _ Hp Hd). }
  destruct fuel as [|fuel]; [cbn [length] in Hf; lia|]. cbn [skip_class_loop].
  rewrite (zget_drop buf (l ++ [0]) c pos Hp Hd). cbn [defined mbind outcome_bind].
  destruct (Z.ltb_spec 0 (zlen (c :: l))) as [_|Hz]; [|cbn [length] in Hz; lia].
  destruct (Z.eqb_spec c 59) as [->|Hc]; cbn [negb andb].
  { left. exists [], l. repeat split; try apply not_elem_of_nil. cbn [length]. do 2 f_equal. lia. }
  destruct (Z.eqb_spec c 46) as [->|Hc']; cbn [negb guarantee_property mbind outcome_bind].
  { right. split; [by right|]. intros [|x n] r He H1 H2; [done|]. injection He as <- ->.
    apply H2, list_elem_of_here. }
  cbn [length] in Hf. replace (zlen (c :: l) - 1) with (zlen l) by (cbn [length]; lia).
  destruct (IH fuel (pos + 1) ltac:(lia) (drop_next _ _ _ _ Hp Hd) ltac:(lia)) as [(n & r & -> & Hn & Hn' & ->)|[Hr Hno]].
  - left. exists (c :: n), r. rewrite !not_elem_of_cons. repeat split; try done. cbn [length]. do 2 f_equal. lia.
  - right. split; [done|]. intros [|x n] r He H1 H2; [by injection He|]. injection He as -> ->.
    apply not_elem_of_cons in H1, H2. apply (Hno n r eq_refl); tauto.
Qed.

Section Signatures.
Context (isJavaIdentifierStart isJavaIdentifierPart : Z -> option bool) (P : Parser).

(** The name in a signature. *)
Definition legal_class (name : list Z) : Prop :=
  if major_version P <? JAVA_1_5_VERSION then
    exists ts, tokens P ts /\ tokens_bytes ts = name /\ legal_name isJavaIdentifierStart isJavaIdentifierPart true ts
  else 59 ∉ name /\ 46 ∉ name.

Fixpoint legal_type (void_ok : bool) (t : jtype) : Prop :=
  match t with
  | Prim c => is_primitive_signature c = true \/ (void_ok = true /\ c = JVM_SIGNATURE_VOID)
  | Class name => legal_class name
  | ArrayOf t => legal_type false t
  end.

Abbreviation skip_name := (skip_over_field_name isJavaIdentifierStart isJavaIdentifierPart).
Abbreviation skip_loop := (skip_signature_loop isJavaIdentifierStart isJavaIdentifierPart).

(** What the skipping functions find: the end of the text of something legal at the
    beginning of [l], or that there is none. *)
Definition found {A} (text : A -> list Z) (legal : A -> Prop) (pos : Z) (l : list Z) (res : outcome (option Z)) : Prop :=
  (exists a r, l = text a ++ r /\ legal a /\ res = Done (Some (pos + zlen (text a)))) \/
  ((res = Done None \/ res = Throw ClassFormatError) /\ forall a r, l = text a ++ r -> ~ legal a).

Definition class_text (name : list Z) : list Z := name ++ [59].

Lemma semicolon_stops (slash_ok last : bool) :
  name_verdict isJavaIdentifierStart isJavaIdentifierPart slash_ok last true (Ascii 59) = Stop.
Proof. cbn. by rewrite andb_false_r. Qed.

(** A legal name in front of a semicolon is what the loop reads. *)
Lemma scan_class (ts tn : list token) (r : list Z) :
  tokens P ts -> tokens P tn -> legal_name isJavaIdentifierStart isJavaIdentifierPart true tn ->
  tokens_bytes ts = tokens_bytes tn ++ 59 :: r ->
  name_scan isJavaIdentifierStart isJavaIdentifierPart true false false ts = Some (length tn) /\
  take (length tn) ts = tn.
Proof.
  intros Hts Htn Hn He. pose proof (tokens_legal P ts Hts) as Hl. rewrite He in Hl.
  apply legal_app_inv in Hl; [|by apply tokens_legal]. apply legal_ascii in Hl; [|lia].
  destruct (legal_tokens P r Hl) as (tr & Htr & <-).
  replace ts with (tn ++ Ascii 59 :: tr).
  2:{ apply (tokens_unique P); [|done|].
      - apply tokens_app; [done|]. by constructor.
      - by rewrite tokens_bytes_app, tokens_bytes_cons, He. }
  split; [|by rewrite take_app_length]. apply legal_name_run in Hn as [Hne Hr].
  apply name_scan_complete; [done|by right|]. intros t last [= <-]. apply semicolon_stops.
Qed.

Lemma tokens_take (ts : list token) (k : nat) : tokens P ts -> tokens P (take k ts).
Proof.
  intros Hts. revert k. induction Hts as [|b ts Hb _ IH|c bs ts Hf Hw Hn _ IH|c d bs bs' ts Hc Hd Hh Hl _ IH];
    intros [|k]; cbn [take]; try apply tokens_nil.
  - by apply tokens_ascii.
  - apply tokens_wide; [done|done| |apply IH].
    intros [Hh (d & bs' & l' & He & Hd & Hlow)]. apply Hn. split; [done|].
    exists d, bs', (l' ++ tokens_bytes (drop k ts)). split; [|done].
    rewrite app_assoc, <- He, <- tokens_bytes_app. by rewrite take_drop.
  - by apply tokens_pair.
Qed.

Lemma tokens_size_pos (ts : list token) : tokens P ts -> ts <> [] -> 0 < tokens_size ts.
Proof.
  intros Hts Hn. unfold tokens_size. destruct ts as [|t ts]; [done|]. rewrite tokens_bytes_cons, length_app.
  destruct t as [b|c bs]; [cbn; lia|]. destruct (wide_head _ _ _ _ Hts) as (b & bs' & -> & _). cbn [token_bytes length]. lia.
Qed.

Lemma tokens_drop (ts : list token) (k : nat) : tokens P ts -> tokens P (drop k ts).
Proof.
  revert ts. induction k as [|k IH]; intros ts Hts; [by rewrite drop_0|].
  destruct ts as [|t ts]; [done|]. apply IH. by eapply tokens_tail.
Qed.

Lemma tokens_head (ts : list token) (b : Z) (r : list Z) :
  tokens P ts -> tokens_bytes ts = b :: r -> b < 128 -> ts !! 0%nat = Some (Ascii b).
Proof.
  intros Hts He Hb. destruct ts as [|[b'|c bs] ts]; [done|by injection He as ->|].
  destruct (wide_head _ _ _ _ Hts) as (b' & bs' & -> & ?). injection He; intros; lia.
Qed.

(** The class name of a signature before version 49. *)
Lemma old_class_found (buf l : list Z) (sig : Z) :
  major_version P < JAVA_1_5_VERSION -> legal_utf8 P l -> 0 <= sig -> drop (Z.to_nat (sig + 1)) buf = l ++ [0] ->
  found class_text legal_class (sig + 1) l
    (p ← skip_name buf (sig + 1) true (zlen l);
     match p with
     | Some p =>
         if 1 <? p - sig then c ← defined (zget buf p); Done (if c =? 59 then Some (p + 1) else None) else Done None
     | None => Done None
     end).
Proof.
  intros Hv Hl Hs Hd. destruct (legal_tokens P l Hl) as (ts & Hts & <-). unfold skip_over_field_name.
  fold (tokens_size ts). rewrite (skip_name_loop_eq _ _ P) by (done || lia). cbn [mbind outcome_bind].
  assert (Hcl : forall name, legal_class name <-> exists tn, tokens P tn /\ tokens_bytes tn = name /\
    legal_name isJavaIdentifierStart isJavaIdentifierPart true tn).
  { intros name. unfold legal_class. by destruct (Z.ltb_spec (major_version P) JAVA_1_5_VERSION); [|lia]. }
  assert (Hother : forall k, name_scan isJavaIdentifierStart isJavaIdentifierPart true false false ts = k ->
    (forall n, k = Some n -> drop n ts !! 0%nat <> Some (Ascii 59)) ->
    forall name r, tokens_bytes ts = class_text name ++ r -> ~ legal_class name).
  { intros k Hk Hne name r He Hn. apply Hcl in Hn as (tn & Htn & <- & Hn). unfold class_text in He. rewrite <- app_assoc in He.
    destruct (scan_class ts tn r Hts Htn Hn He) as [Hsc Htk]. rewrite Hk in Hsc. apply (Hne _ Hsc).
    rewrite <- (take_drop (length tn) ts), Htk, tokens_bytes_app in He. apply app_inv_head in He.
    apply (tokens_head _ 59 r); [by apply tokens_drop|done|lia]. }
  destruct (name_scan isJavaIdentifierStart isJavaIdentifierPart true false false ts) as [k|] eqn:Hk;
    cbn [fmap option_fmap option_map]; [|right; split; [by left|by apply (Hother None)]].
  destruct (name_scan_sound _ _ _ _ _ _ _ Hk) as (Hkl & Hrun & [?|Hne]); [done|].
  pose proof (tokens_size_pos _ (tokens_take _ k Hts) Hne). destruct (Z.ltb_spec 1 (sig + 1 + tokens_size (take k ts) - sig)); [|lia].
  assert (Hdk : drop (Z.to_nat (sig + 1 + tokens_size (take k ts))) buf = tokens_bytes (drop k ts) ++ [0]).
  { apply (drop_app_Z buf (tokens_bytes (take k ts))); [lia|].
    by rewrite app_assoc, <- tokens_bytes_app, take_drop. }
  assert (Hp : 0 <= sig + 1 + tokens_size (take k ts)) by lia.
  destruct (tokens_bytes (drop k ts)) as [|b r] eqn:Hb.
  { rewrite (zget_drop _ _ _ _ Hp Hdk). cbn [defined mbind outcome_bind]. right. split; [by left|].
    apply (Hother (Some k)); [done|]. intros n [= <-] H1. destruct (drop k ts); [done|].
    injection H1 as ->. by rewrite tokens_bytes_cons in Hb. }
  rewrite (zget_drop _ _ _ _ Hp Hdk). cbn [defined mbind outcome_bind].
  destruct (Z.eqb_spec b 59) as [->|Hb59].
  - left. exists (tokens_bytes (take k ts)), r. unfold class_text. split; [|split].
    + rewrite <- app_assoc. cbn [app]. rewrite <- Hb, <- tokens_bytes_app. by rewrite take_drop.
    + apply Hcl. exists (take k ts). split; [by apply tokens_take|]. split; [done|]. by apply legal_name_run.
    + rewrite length_app. cbn [length]. unfold tokens_size. do 2 f_equal. lia.
  - right. split; [by left|]. apply (Hother (Some k)); [done|]. intros n [= <-] H1.
    destruct (drop k ts); [done|]. injection H1 as ->. rewrite tokens_bytes_cons in Hb. by injection Hb.
Qed.

Lemma new_class_found (buf l : list Z) (sig : Z) :
  JAVA_1_5_VERSION <= major_version P -> 0 <= sig -> drop (Z.to_nat (sig + 1)) buf = l ++ [0] ->
  found class_text legal_class (sig + 1) l (skip_class_loop (Z.to_nat (zlen l)) buf (sig + 1) (zlen l)).
Proof.
  intros Hv Hs Hd. unfold found, legal_class, class_text. destruct (Z.ltb_spec (major_version P) JAVA_1_5_VERSION); [lia|].
  destruct (skip_class_loop_ok buf l (Z.to_nat (zlen l)) (sig + 1)) as [(n & r & -> & Hn & Hn' & ->)|[Hr Hno]]; [lia|done|lia|..].
  - left. exists n, r. rewrite <- app_assoc. split; [done|]. split; [done|]. rewrite length_app. cbn [length]. do 2 f_equal. lia.
  - right. split; [done|]. intros n r He [H1 H2]. rewrite <- app_assoc in He. by apply (Hno n r).
Qed.

(** A type of at most [limit] dimensions. *)
Definition legal_within (void_ok : bool) (limit : Z) (t : jtype) : Prop := legal_type void_ok t /\ dimensions t <= limit.

Lemma primitive_not_void (c : Z) : is_primitive_signature c = true -> c <> JVM_SIGNATURE_VOID.
Proof. unfold is_primitive_signature. intros H ->. by vm_compute in H. Qed.

Lemma primitive_not_class (c : Z) : is_primitive_signature c = true -> c <> JVM_SIGNATURE_CLASS.
Proof. unfold is_primitive_signature. intros H ->. by vm_compute in H. Qed.

Lemma primitive_not_array (c : Z) : is_primitive_signature c = true -> c <> JVM_SIGNATURE_ARRAY.
Proof. unfold is_primitive_signature. intros H ->. by vm_compute in H. Qed.

(** The first letter of a type decides its kind. *)
Lemma print_letter (void_ok : bool) (t : jtype) (c : Z) (l r : list Z) :
  legal_type void_ok t -> c :: l = print t ++ r ->
  (is_primitive_signature c = true /\ t = Prim c) \/ (c = JVM_SIGNATURE_VOID /\ t = Prim c /\ void_ok = true) \/
  (c = JVM_SIGNATURE_CLASS /\ exists name, t = Class name /\ l = class_text name ++ r) \/
  (c = JVM_SIGNATURE_ARRAY /\ exists t', t = ArrayOf t' /\ l = print t' ++ r).
Proof.
  destruct t as [c'|name|t']; cbn [print app legal_type]; intros Hl [= -> ->].
  - destruct Hl as [?|[-> ->]]; [by left|right; left; done].
  - right. right. left. split; [done|]. by exists name.
  - do 3 right. split; [done|]. by exists t'.
Qed.

Lemma found_class (void_ok : bool) (limit sig : Z) (l : list Z) (res : outcome (option Z)) :
  0 <= limit -> found class_text legal_class (sig + 1) l res ->
  found print (legal_within void_ok limit) sig (JVM_SIGNATURE_CLASS :: l) res.
Proof.
  intros Hk [(name & r & -> & Hn & ->)|[Hr Hno]].
  - left. exists (Class name), r. split; [done|]. split; [done|]. cbn [print length]. unfold class_text.
    do 2 f_equal. lia.
  - right. split; [done|]. intros t r He [Ht _].
    destruct (print_letter _ _ _ _ _ Ht He) as [[?%primitive_not_class _]|[[? _]|[(_ & name & -> & Hl)|[? _]]]]; try done.
    by apply (Hno name r).
Qed.

Lemma found_array (void_ok : bool) (limit sig : Z) (l : list Z) (res : outcome (option Z)) :
  found print (legal_within false (limit - 1)) (sig + 1) l res ->
  found print (legal_within void_ok limit) sig (JVM_SIGNATURE_ARRAY :: l) res.
Proof.
  intros [(t & r & -> & [Ht Hdim] & ->)|[Hr Hno]].
  - left. exists (ArrayOf t), r. split; [done|]. split; [split; [done|cbn [dimensions]; lia]|].
    cbn [print length]. do 2 f_equal. lia.
  - right. split; [done|]. intros t r He [Ht Hdim].
    destruct (print_letter _ _ _ _ _ Ht He) as [[?%primitive_not_array _]|[[? _]|[[? _]|(_ & t' & -> & Hl)]]]; try done.
    apply (Hno t' r Hl). split; [done|]. cbn [dimensions] in Hdim. lia.
Qed.

Lemma skip_signature_found (buf : list Z) (fuel : nat) (l : list Z) (sig : Z) (void_ok : bool) (array_dim : Z) :
  legal_utf8 P l -> 0 <= sig -> drop (Z.to_nat sig) buf = l ++ [0] -> zlen l <= Z.of_nat fuel -> 0 <= array_dim <= 255 ->
  found print (legal_within void_ok (255 - array_dim)) sig l (skip_loop fuel P buf sig void_ok (zlen l) array_dim).
Proof.
  intros Hl. revert l sig void_ok array_dim Hl. induction fuel as [|fuel IH]; intros l sig void_ok array_dim Hl Hs Hd Hf Ha;
    (destruct l as [|c l];
     [right; split; [by left|]; intros t r He; destruct (print_cons t) as (? & ? & Hpr); by rewrite Hpr in He|]); cbn [length] in Hf; [lia|].
  cbn [skip_signature_loop]. destruct (Z.ltb_spec 0 (zlen (c :: l))) as [_|Hz]; [|cbn [length] in Hz; lia].
  rewrite (zget_drop buf (l ++ [0]) c sig Hs Hd). cbn [defined mbind outcome_bind].
  pose proof (drop_next _ _ _ _ Hs Hd) as Hd'. replace (zlen (c :: l) - 1) with (zlen l) by (cbn [length]; lia).
  destruct (Z.eqb_spec c JVM_SIGNATURE_VOID) as [->|Hv].
  { destruct void_ok.
    - left. exists (Prim JVM_SIGNATURE_VOID), l. repeat split; [by right|cbn; lia].
    - right. split; [by left|]. intros t r He [Ht _].
      destruct (print_letter _ _ _ _ _ Ht He) as [[? _]|[(_ & _ & ?)|[[? _]|[? _]]]]; done. }
  destruct (is_primitive_signature c) eqn:Hp.
  { left. exists (Prim c), l. repeat split; [by left|cbn; lia]. }
  destruct (Z.eqb_spec c JVM_SIGNATURE_CLASS) as [->|Hc].
  { apply legal_ascii in Hl; [|unfold JVM_SIGNATURE_CLASS; lia]. apply found_class; [lia|].
    destruct (Z.ltb_spec (major_version P) JAVA_1_5_VERSION); [by apply old_class_found|by apply new_class_found]. }
  destruct (Z.eqb_spec c JVM_SIGNATURE_ARRAY) as [->|Har].
  { apply legal_ascii in Hl; [|unfold JVM_SIGNATURE_ARRAY; lia]. apply found_array.
    destruct (Z.ltb_spec 255 (array_dim + 1)) as [Hgt|]; cbn [negb guarantee_property mbind outcome_bind].
    - right. split; [by right|]. intros t r _ [_ Hdim]. pose proof (dimensions_nonneg t). lia.
    - replace (255 - array_dim - 1) with (255 - (array_dim + 1)) by lia. apply IH; done || lia. }
  right. split; [by left|]. intros t r He [Ht _].
  destruct (print_letter _ _ _ _ _ Ht He) as [[? _]|[[? _]|[[? _]|[? _]]]]; congruence.
Qed.

(** *** A text determines its type *)

Lemma wide_bytes (c : Z) (bs : list Z) (ts : list token) :
  tokens P (Wide c bs :: ts) -> forall b, b ∈ bs -> 128 <= b.
Proof.
  intros Ht b Hb. inversion Ht as [| |c' bs' ts' Hf Hw _ _|c1 d1 bs1 bs2 ts' Hc Hd Hh Hl _]; subst;
    [by apply (char_form_wide P c bs)|]. unfold high_surrogate in Hh. unfold low_surrogate in Hl.
  apply elem_of_app in Hb as [Hb|Hb]; [apply (char_form_wide P c1 bs1)|apply (char_form_wide P d1 bs2)]; try done;
    [destruct (char_form_short _ _ _ Hc) as [|[_ ?]]|destruct (char_form_short _ _ _ Hd) as [|[_ ?]]]; done || lia.
Qed.

Lemma ascii_token (ts : list token) (b : Z) :
  tokens P ts -> b ∈ tokens_bytes ts -> b < 128 -> Ascii b ∈ ts.
Proof.
  intros Hts. induction ts as [|t ts IH]; [by intros ?%elem_of_nil|]. rewrite tokens_bytes_cons, elem_of_app, elem_of_cons.
  intros [Hb|Hb] Hlt; [left|right; by apply IH; [eapply tokens_tail|..]].
  destruct t as [b'|c bs]; [by apply list_elem_of_singleton in Hb as ->|].
  pose proof (wide_bytes _ _ _ Hts b Hb). lia.
Qed.

Lemma legal_class_semicolon (name : list Z) : legal_class name -> 59 ∉ name.
Proof.
  unfold legal_class. destruct (_ <? _); [|tauto]. intros (ts & Hts & <- & [_ H0 Hr _]) Hin.
  apply ascii_token in Hin as [[|i] Hi]%list_elem_of_lookup_1; [apply H0 in Hi|apply Hr in Hi|done|lia]; cbn in Hi; naive_solver.
Qed.

Lemma split_semicolon (n n' r r' : list Z) : 59 ∉ n -> 59 ∉ n' -> n ++ 59 :: r = n' ++ 59 :: r' -> n = n' /\ r = r'.
Proof.
  revert n'. induction n as [|x n IH]; intros [|x' n'] Hn Hn' He; cbn [app] in He.
  - by injection He.
  - injection He as <- _. by destruct Hn'; apply list_elem_of_here.
  - injection He as -> _. by destruct Hn; apply list_elem_of_here.
  - injection He as -> He. rewrite not_elem_of_cons in Hn, Hn'. destruct (IH n') as [-> ->]; [tauto|tauto|done|done].
Qed.

Lemma print_prefix (t t' : jtype) (v v' : bool) (r r' : list Z) :
  legal_type v t -> legal_type v' t' -> print t ++ r = print t' ++ r' -> t = t' /\ r = r'.
Proof.
  revert t' v v'. induction t as [c|name|t IH]; intros t' v v' Ht Ht' He.
  - cbn [print app] in He. destruct (print_letter v' t' c r r' Ht' He) as [[Hp ->]|[(-> & -> & _)|[(-> & n & -> & Hl)|(-> & t2 & -> & Hl)]]];
      cbn in He; [by injection He|by injection He|exfalso..];
      (destruct Ht as [Hp|[_ Hp]]; [by vm_compute in Hp|done]).
  - cbn [print app] in He. destruct (print_letter v' t' _ _ r' Ht' He) as [[Hp ->]|[(? & _)|[(_ & n & -> & Hl)|(? & _)]]]; try done.
    unfold class_text in Hl. rewrite <- !app_assoc in Hl. cbn [app] in Hl.
    destruct (split_semicolon name n r r') as [-> ->]; [by apply legal_class_semicolon..|done|done].
  - cbn [print app] in He. destruct (print_letter v' t' _ _ r' Ht' He) as [[Hp ->]|[(? & _)|[(? & _)|(_ & t2 & -> & Hl)]]]; try done.
    destruct (IH t2 false false Ht Ht' Hl) as [-> ->]. done.
Qed.

(** *** Fields and methods *)

Abbreviation skip_signature := (skip_over_field_signature isJavaIdentifierStart isJavaIdentifierPart).

Lemma skip_signature_ok (buf l : list Z) (sig : Z) (void_ok : bool) :
  legal_utf8 P l -> 0 <= sig -> drop (Z.to_nat sig) buf = l ++ [0] ->
  found print (legal_within void_ok 255) sig l (skip_signature P buf sig void_ok (zlen l)).
Proof. intros Hl Hs Hd. apply (skip_signature_found buf _ l sig void_ok 0); done || lia. Qed.

(** The text of a type, whatever follows, is skipped. *)
Lemma skip_signature_print (buf r : list Z) (t : jtype) (sig : Z) (void_ok : bool) :
  legal_within void_ok 255 t -> legal_utf8 P (print t ++ r) -> 0 <= sig ->
  drop (Z.to_nat sig) buf = (print t ++ r) ++ [0] ->
  skip_signature P buf sig void_ok (zlen (print t ++ r)) = Done (Some (sig + zlen (print t))).
Proof.
  intros [Ht Hdim] Hl Hs Hd.
  destruct (skip_signature_ok buf _ sig void_ok Hl Hs Hd) as [(t' & r' & He & [Ht' _] & ->)|[_ Hno]].
  - by destruct (print_prefix _ _ _ _ _ _ Ht Ht' He) as [<- _].
  - by destruct (Hno t r eq_refl).
Qed.

Lemma skip_signature_func (buf r : list Z) (sig : Z) (void_ok : bool) :
  0 <= sig -> drop (Z.to_nat sig) buf = (JVM_SIGNATURE_ENDFUNC :: r) ++ [0] ->
  skip_signature P buf sig void_ok (zlen (JVM_SIGNATURE_ENDFUNC :: r)) = Done None.
Proof.
  intros Hs Hd. unfold skip_over_field_signature. replace (Z.to_nat (zlen _)) with (S (length r)) by (cbn [length]; lia).
  cbn [skip_signature_loop]. destruct (0 <? _); [|done]. by rewrite (zget_drop _ _ _ _ Hs Hd).
Qed.

Definition prints (args : list jtype) : list Z := mjoin (print <$> args).
Definition args_slots (args : list jtype) : Z := foldr (fun t n => slots t + n) 0 args.

Lemma prints_cons (t : jtype) (args : list jtype) : prints (t :: args) = print t ++ prints args.
Proof. done. Qed.

(** The first letter tells the size of an argument. *)
Lemma slots_letter (t : jtype) (l r : list Z) (c : Z) (a : Z) :
  c :: l = print t ++ r ->
  (if (c =? JVM_SIGNATURE_LONG) || (c =? JVM_SIGNATURE_DOUBLE) then u32 (u32 (a + 1) + 1) else u32 (a + 1)) = u32 (a + slots t).
Proof.
  assert (H2 : u32 (u32 (a + 1) + 1) = u32 (a + 2)).
  { unfold umod. rewrite Zplus_mod_idemp_l. f_equal. lia. }
  destruct t; cbn [print app slots]; intros [= -> ->]; [|done|done].
  destruct (_ || _); [done|done].
Qed.

Lemma print_pos (t : jtype) : 0 < zlen (print t).
Proof. destruct (print_cons t) as (c & l & ->). cbn [length]. lia. Qed.

Abbreviation args_loop := (method_args_loop isJavaIdentifierStart isJavaIdentifierPart).

Lemma umod_add_l (w x y : Z) : umod w (umod w x + y) = umod w (x + y).
Proof. unfold umod. apply Zplus_mod_idemp_l. Qed.

(** A string goes on legally behind an ASCII character, and so behind a type. *)
Lemma legal_after_ascii (l0 : list Z) :
  legal_utf8 P l0 -> forall l b r, l0 = l ++ b :: r -> 0 <= b < 128 -> legal_utf8 P r.
Proof.
  induction 1 as [|c bs l0 Hf Hl IH]; intros l b r He Hb; [by destruct l|].
  destruct Hf as [Hr|h k He' Hh Hk _|h m k He' Hh Hm Hk _]; cbn [app] in He.
  - destruct l as [|x l]; cbn [app] in He; injection He as -> He; [by subst|by apply (IH l b)].
  - destruct l as [|x [|y l]]; cbn [app] in He; injection He; intros; try lia. by apply (IH l b).
  - destruct l as [|x [|y [|z l]]]; cbn [app] in He; injection He; intros; try lia. by apply (IH l b).
Qed.

Lemma print_last (v : bool) (t : jtype) : legal_type v t -> exists l b, print t = l ++ [b] /\ 0 <= b < 128.
Proof.
  revert v. induction t as [c|name|t IH]; intros v Ht.
  - exists [], c. split; [done|]. destruct Ht as [Ht|[_ ->]]; [|unfold JVM_SIGNATURE_VOID; lia].
    unfold is_primitive_signature in Ht. rewrite !orb_true_iff, !Z.eqb_eq in Ht.
    unfold JVM_SIGNATURE_BOOLEAN, JVM_SIGNATURE_BYTE, JVM_SIGNATURE_CHAR, JVM_SIGNATURE_SHORT, JVM_SIGNATURE_INT,
      JVM_SIGNATURE_FLOAT, JVM_SIGNATURE_LONG, JVM_SIGNATURE_DOUBLE in Ht. lia.
  - exists (JVM_SIGNATURE_CLASS :: name), 59. split; [done|lia].
  - destruct (IH false Ht) as (l & b & He & Hb). exists (JVM_SIGNATURE_ARRAY :: l), b. cbn [print]. by rewrite He.
Qed.

Lemma legal_after_print (v : bool) (t : jtype) (r : list Z) : legal_type v t -> legal_utf8 P (print t ++ r) -> legal_utf8 P r.
Proof.
  intros Ht Hl. destruct (print_last v t Ht) as (l & b & He & Hb).
  apply (legal_after_ascii _ Hl l b); [|done]. by rewrite He, <- app_assoc.
Qed.

(** Where the loop over the arguments may end. *)
Definition args_end (l : list Z) (p a : Z) (res : outcome (Z * Z * Z)) (args : list jtype) (l' : list Z) : Prop :=
  l = prints args ++ l' /\ Forall (legal_within false 255) args /\
  res = Done (p + zlen (prints args), zlen l', u32 (a + args_slots args)).

(** It does end at the parenthesis, if what is in front of it is legal. *)
Definition args_result (l : list Z) (p a : Z) (res : outcome (Z * Z * Z)) : Prop :=
  (res = Throw ClassFormatError \/ exists args l', args_end l p a res args l') /\
  (forall args m, l = prints args ++ JVM_SIGNATURE_ENDFUNC :: m -> Forall (legal_within false 255) args ->
     args_end l p a res args (JVM_SIGNATURE_ENDFUNC :: m)).

Lemma skip_args_done (buf l m : list Z) (args : list jtype) (p : Z) :
  legal_utf8 P l -> 0 <= p -> drop (Z.to_nat p) buf = l ++ [0] ->
  l = prints args ++ JVM_SIGNATURE_ENDFUNC :: m -> Forall (legal_within false 255) args ->
  skip_signature P buf p false (zlen l) = Done (match args with [] => None | t :: _ => Some (p + zlen (print t)) end).
Proof.
  intros Hl Hp Hd -> Hargs. destruct Hargs as [|t args Ht _]; [by apply skip_signature_func|].
  assert (He : prints (t :: args) ++ JVM_SIGNATURE_ENDFUNC :: m = print t ++ prints args ++ JVM_SIGNATURE_ENDFUNC :: m)
    by (rewrite prints_cons; by rewrite app_assoc).
  rewrite He in *. by apply skip_signature_print.
Qed.

Lemma args_end_cons (t : jtype) (r l' : list Z) (p a : Z) (res : outcome (Z * Z * Z)) (args : list jtype) :
  legal_within false 255 t -> args_end r (p + zlen (print t)) (a + slots t) res args l' ->
  args_end (print t ++ r) p a res (t :: args) l'.
Proof.
  intros Ht (-> & Hargs & ->). split; [by rewrite prints_cons, app_assoc|]. split; [by constructor|].
  rewrite prints_cons, length_app. cbn [args_slots foldr]. fold (args_slots args). do 2 f_equal; [f_equal|f_equal]; lia.
Qed.

Lemma args_result_cons (t : jtype) (r : list Z) (p a : Z) (res : outcome (Z * Z * Z)) :
  legal_within false 255 t -> args_result r (p + zlen (print t)) (a + slots t) res ->
  args_result (print t ++ r) p a res.
Proof.
  intros Ht [Hr Hc]. split.
  - destruct Hr as [->|(args & l' & He)]; [by left|right]. exists (t :: args), l'. by apply args_end_cons.
  - intros [|t' args] m He Hargs.
    + destruct (print_letter false t JVM_SIGNATURE_ENDFUNC m r (proj1 Ht)) as [[H _]|[[H _]|[[H _]|[H _]]]]; [by symmetry|..];
        by vm_compute in H.
    + apply list.Forall_cons in Hargs as [Ht' Hargs]. rewrite prints_cons, <- app_assoc in He.
      destruct (print_prefix _ _ _ _ _ _ (proj1 Ht) (proj1 Ht') He) as [<- Hr']. apply args_end_cons; [done|]. by apply Hc.
Qed.

Lemma method_args_ok (buf : list Z) (fuel : nat) (l : list Z) (p a : Z) (nextp : option Z) :
  legal_utf8 P l -> 0 <= p -> drop (Z.to_nat p) buf = l ++ [0] -> zlen l <= Z.of_nat fuel ->
  skip_signature P buf p false (zlen l) = Done nextp ->
  args_result l p a (args_loop fuel P buf p (zlen l) (u32 a) nextp).
Proof.
  revert l p a nextp. induction fuel as [|fuel IH]; intros l p a nextp Hl Hp Hd Hf Hn;
    (destruct (skip_signature_ok buf l p false Hl Hp Hd) as [(t & r & -> & Ht & Hr)|[[Hr|Hr] Hno]];
     rewrite Hn in Hr; try done; injection Hr as ->; [|split;
       [right; exists [], l; split; [done|split; [constructor|]]
       |intros [|t args] m He Hargs; [split; [done|split; [done|]]|exfalso; apply list.Forall_cons in Hargs as [Ht _];
          rewrite prints_cons, <- app_assoc in He; by apply (Hno t _ He)]];
       cbn [method_args_loop prints fmap list_fmap mjoin list_join length args_slots foldr]; by rewrite !Z.add_0_r, ?He]).
  { pose proof (print_pos t). rewrite length_app in Hf. lia. }
  apply args_result_cons; [done|]. cbn [method_args_loop]. pose proof (print_pos t).
  destruct (Z.ltb_spec 0 (zlen (print t ++ r))) as [_|Hz]; [|rewrite length_app in Hz; lia].
  destruct (print t ++ r) as [|c l'] eqn:Hpr; [destruct (print_cons t) as (? & ? & Hc); by rewrite Hc in Hpr|].
  rewrite (zget_drop buf (l' ++ [0]) c p Hp Hd). cbn [defined mbind outcome_bind].
  rewrite (umod_add_l 32 a 1), (slots_letter t l' r c a) by done. rewrite <- Hpr in *.
  assert (Hd' : drop (Z.to_nat (p + zlen (print t))) buf = r ++ [0]) by (apply drop_app_Z; [done|by rewrite app_assoc]).
  replace (zlen (print t ++ r) - (p + zlen (print t) - p)) with (zlen r) by (rewrite length_app; lia).
  assert (Hlr : legal_utf8 P r) by (by apply (legal_after_print false t); [apply Ht|]).
  destruct (skip_signature P buf (p + zlen (print t)) false (zlen r)) as [nextp'|e|] eqn:Hn'; cbn [mbind outcome_bind].
  - apply IH; [done|lia|done|rewrite length_app in Hf; lia|done].
  - split; [left; destruct (skip_signature_ok buf r (p + zlen (print t)) false) as [(? & ? & _ & _ & H')|[[H'|H'] _]];
      [done|lia|done|..]; rewrite Hn' in H'; congruence|].
    intros args m He Hargs. rewrite (skip_args_done buf r m args) in Hn' by (done || lia). done.
  - exfalso. destruct (skip_signature_ok buf r (p + zlen (print t)) false) as [(? & ? & _ & _ & H')|[[H'|H'] _]];
      [done|lia|done|..]; rewrite Hn' in H'; done.
Qed.
End Signatures.

(** ** The checks decide *)

(** A check that returns or throws, according to a property. *)
Definition decides (res : outcome ()) (Q : Prop) : Prop :=
  (res = Done tt /\ Q) \/ (res = Throw ClassFormatError /\ ~ Q).

Lemma guarantee_decides (b : bool) (Q : Prop) : (b = true <-> Q) -> decides (guarantee_property b) Q.
Proof. intros H. destruct b; [left|right]; naive_solver. Qed.

Section Decisions.
Context (isJavaIdentifierStart isJavaIdentifierPart : Z -> option bool) (P : Parser).

Abbreviation legal_type_within := (legal_within isJavaIdentifierStart isJavaIdentifierPart P).

(** A name of identifiers (before version 49), and one without certain characters. *)
Definition legal_identifiers (slash_ok : bool) (name : list Z) : Prop :=
  exists ts, tokens P ts /\ tokens_bytes ts = name /\
    legal_name isJavaIdentifierStart isJavaIdentifierPart slash_ok ts.
Definition legal_unqualified (type : legality) (name : list Z) : Prop :=
  name <> [] /\ forall b, b ∈ name -> forbidden type b = false.

Lemma skip_name_whole (name : list Z) (slash_ok : bool) :
  legal_utf8 P name ->
  exists p, skip_over_field_name isJavaIdentifierStart isJavaIdentifierPart (as_utf8_flexible_buffer name) 0 slash_ok (zlen name)
    = Done p /\ (whole p (zlen name) = true <-> legal_identifiers slash_ok name).
Proof.
  intros Hl. destruct (legal_tokens P name Hl) as (ts & Hts & <-). unfold skip_over_field_name. fold (tokens_size ts).
  rewrite (skip_name_loop_eq _ _ P) by (done || lia). eexists. split; [done|].
  assert (Hi : legal_identifiers slash_ok (tokens_bytes ts) <-> legal_name isJavaIdentifierStart isJavaIdentifierPart slash_ok ts).
  { split; [|by intros; exists ts]. intros (ts' & Hts' & He & Hn). by rewrite <- (tokens_unique P ts' ts Hts' Hts He). }
  rewrite Hi, <- name_scan_whole. destruct (name_scan _ _ _ _ _ ts) as [k|] eqn:Hk; cbn [fmap option_fmap option_map whole]; [|done].
  rewrite Z.eqb_eq, Z.add_0_l. destruct (name_scan_sound _ _ _ _ _ _ _ Hk) as (Hle & _ & _).
  split; [|intros [= ->]; by rewrite take_ge].
  intros He. destruct (Nat.eq_dec k (length ts)) as [->|Hne]; [done|]. exfalso.
  rewrite <- (take_drop k ts) in He at 2. unfold tokens_size in He. rewrite tokens_bytes_app, length_app in He.
  pose proof (tokens_size_pos P (drop k ts) (tokens_drop P ts k Hts)) as Hpos. unfold tokens_size in Hpos.
  destruct (drop k ts) eqn:Hdk; [apply (f_equal length) in Hdk; rewrite length_drop in Hdk; cbn in Hdk; lia|].
  specialize (Hpos ltac:(done)). lia.
Qed.

Lemma unqualified_whole (name : list Z) (type : legality) :
  legal_utf8 P name -> name <> [] ->
  exists b, verify_unqualified_name (as_utf8_flexible_buffer name) 0 (zlen name) type = Done b /\
    (b = true <-> legal_unqualified type name).
Proof.
  intros Hl Hn. unfold verify_unqualified_name. rewrite (verify_unqualified_loop_eq P) by (done || lia).
  eexists. split; [done|]. unfold legal_unqualified. rewrite forallb_forall. setoid_rewrite <- list_elem_of_In.
  setoid_rewrite negb_true_iff. naive_solver.
Qed.

Lemma skip_signature_whole (sig : list Z) :
  legal_utf8 P sig ->
  decides (p ← skip_over_field_signature isJavaIdentifierStart isJavaIdentifierPart P (as_utf8_flexible_buffer sig) 0 false (zlen sig);
           guarantee_property (whole p (zlen sig)))
    (exists t, legal_type_within false 255 t /\ sig = print t).
Proof.
  intros Hl. destruct (skip_signature_ok isJavaIdentifierStart isJavaIdentifierPart P (as_utf8_flexible_buffer sig) sig 0 false Hl)
    as [(t & r & He & Ht & ->)|[Hr Hno]]; [lia|done|..]; cbn [mbind outcome_bind].
  - apply guarantee_decides. cbn [whole]. rewrite Z.eqb_eq. split.
    + intros Hz. exists t. split; [done|]. rewrite He, length_app in Hz. destruct r; [by rewrite He, app_nil_r|cbn [length] in Hz; lia].
    + intros (t' & Ht' & ->). rewrite <- (app_nil_r (print t')) in He.
      destruct (print_prefix isJavaIdentifierStart isJavaIdentifierPart P _ _ _ _ _ _ (proj1 Ht') (proj1 Ht) He) as [<- _]. lia.
  - right. split; [by destruct Hr as [-> | ->]|]. intros (t & Ht & ->). apply (Hno t []); [by rewrite app_nil_r|done].
Qed.
End Decisions.
