(* ===== verification/FormatCheckerCorrect.v ===== *)
(** What the format checker of the class file parser accepts: UTF-8 strings, names,
    field and method signatures, and modifiers. *)

From S2P Require Import Prelude Utf8 ClassFileStream FormatChecker.

(** ** Sample data *)

(** The Java predicates on the characters of Latin-1. *)
Definition sample_start (c : Z) : option bool := Some ((0xC0 <=? c) && (c <=? 0xFF)).
Definition sample_part (c : Z) : option bool := Some ((0xC0 <=? c) && (c <=? 0xFF)).

Definition sample_parser (major : Z) : Parser :=
  {| need_verify := true; relax_verify := false; major_version := major |}.

Lemma legal_ascii_string P (l : list Z) : forallb (fun b => (0 <? b) && (b <? 128)) l = true -> legal_utf8 P l.
Proof.
  induction l as [|b l IH]; [constructor|]. cbn [forallb]. intros [Hb Hl]%andb_true_iff. apply legal_ascii; [lia|by apply IH].
Qed.

(** ** UTF-8 *)

(** C21: On every buffer of bytes the check of a UTF-8 constant, with its unrolled loop over ASCII
    bytes, returns or throws a class format error and reads nothing behind the buffer; it returns
    exactly on the strings of characters of one, two or three bytes, without a zero byte.  From
    class file version 48 on these are exactly the strings that the encoder of the virtual machine
    writes for some string of UTF-16 characters. *)
Theorem verify_legal_utf8_correct (P : Parser) (buf : list Z) :
  Forall (fun b => in_u 8 b) buf ->
  decides (verify_legal_utf8 P buf (zlen buf)) (legal_utf8 P buf) /\
  (47 < major_version P ->
   decides (verify_legal_utf8 P buf (zlen buf)) (exists s, Forall jchar s /\ buf = mjoin (utf8_write <$> s))).
Proof.
  intros Hb. pose proof (verify_legal_utf8_ok P buf Hb) as Hc. split; [done|].
  intros Hv. unfold decides. by rewrite <- (legal_utf8_write P buf Hv).
Qed.

Lemma verify_legal_utf8_correct_witness :
  decides (verify_legal_utf8 (sample_parser 52) [65; 66; 67; 68; 0xC3; 0xA9; 0xED; 0xA0; 0x80; 0xED; 0xB0; 0x80] 12)
    (exists s, Forall jchar s /\ [65; 66; 67; 68; 0xC3; 0xA9; 0xED; 0xA0; 0x80; 0xED; 0xB0; 0x80] = mjoin (utf8_write <$> s)) /\
  verify_legal_utf8 (sample_parser 52) [0xC1; 0x81] 2 = Throw ClassFormatError /\
  verify_legal_utf8 (sample_parser 47) [0xC1; 0x81] 2 = Done tt.
Proof.
  split; [|split; reflexivity].
  apply (verify_legal_utf8_correct (sample_parser 52)); [repeat constructor; lia|cbn; lia].
Defined.

(** ** Names *)

Section PlainNames.
Context (start part : Z -> option bool) (P : Parser) (name : list Z) (Hl : legal_utf8 P name).

(** The check of a name that is not a special case. *)
Definition legal_plain (slash_ok : bool) (type : legality) : Prop :=
  (major_version P < JAVA_1_5_VERSION /\ legal_identifiers start part P slash_ok name) \/
  (JAVA_1_5_VERSION <= major_version P /\ legal_unqualified type name).

Lemma plain_decides (slash_ok : bool) (type : legality) :
  name <> [] ->
  decides (legal ← (if major_version P <? JAVA_1_5_VERSION then
                      p ← skip_over_field_name start part (as_utf8_flexible_buffer name) 0 slash_ok (zlen name);
                      Done (whole p (zlen name))
                    else verify_unqualified_name (as_utf8_flexible_buffer name) 0 (zlen name) type);
           guarantee_property legal)
    (legal_plain slash_ok type).
Proof using Hl.
  intros Hn. unfold legal_plain. destruct (Z.ltb_spec (major_version P) JAVA_1_5_VERSION).
  - destruct (skip_name_whole start part P name slash_ok Hl) as (p & -> & Hp). cbn [mbind outcome_bind].
    apply guarantee_decides. rewrite Hp. intuition lia.
  - destruct (unqualified_whole start part P name type Hl Hn) as (b & -> & Hb). cbn [mbind outcome_bind].
    apply guarantee_decides. rewrite Hb. intuition lia.
Qed.

Lemma plain_empty (slash_ok : bool) (type : legality) : name = [] -> ~ legal_plain slash_ok type.
Proof.
  intros Hnil [[_ (ts & Hts & He & Hn)]|[_ [Hn _]]]; [|done]. rewrite Hnil in He. destruct Hts as [|b ts|c bs ts Hf|c d bs bs' ts Hf];
    rewrite ?tokens_bytes_cons in He; cbn [token_bytes app] in He;
    [by destruct Hn|discriminate|by destruct Hf|by destruct Hf].
Qed.

(** No identifier begins with <. *)
Lemma identifiers_head (slash_ok : bool) (r : list Z) : name = 60 :: r -> ~ legal_identifiers start part P slash_ok name.
Proof.
  intros Hname (ts & Hts & He & [_ H0 _ _]). rewrite Hname in He. apply (tokens_head P ts 60 r) in He; [|done|lia].
  destruct (H0 _ He) as [[_ H]|H]; by vm_compute in H.
Qed.
End PlainNames.

Lemma class_name_decides (start part : Z -> option bool) (P : Parser) (name : list Z) :
  need_verify P = true -> relax_verify P = false -> legal_utf8 P name ->
  decides (verify_legal_class_name start part P name)
    ((exists t, name = print (ArrayOf t) /\ legal_within start part P false 255 (ArrayOf t)) \/
     (name !! 0%nat <> Some JVM_SIGNATURE_ARRAY /\ legal_plain start part P name true LegalClass)).
Proof.
  intros Hv Hr Hl. unfold verify_legal_class_name. rewrite Hv, Hr. cbn [negb orb].
  destruct name as [|b r]; [right; split; [done|]; intros [(t & ? & _)|[_ H]]; [done|by apply plain_empty in H]|].
  destruct (Z.ltb_spec 0 (zlen (b :: r))) as [_|Hz]; [|cbn [length] in Hz; lia].
  change (zget (as_utf8_flexible_buffer (b :: r)) 0) with (Some b). cbn [defined mbind outcome_bind].
  destruct (Z.eqb_spec b JVM_SIGNATURE_ARRAY) as [->|Hb].
  - destruct (skip_signature_whole start part P _ Hl) as [[Hd (t & Ht & He)]|[Hd Hno]].
    + left. split.
      * rewrite <- Hd. by destruct (skip_over_field_signature _ _ _ _ _ _ _).
      * left. destruct t as [c|n|t]; [|done|by exists t]. injection He as -> ->.
        by destruct Ht as [[H|[H _]] _]; [vm_compute in H|].
    + right. split.
      * rewrite <- Hd. by destruct (skip_over_field_signature _ _ _ _ _ _ _).
      * intros [(t & He & Ht)|[H _]]; [|done]. apply Hno. by exists (ArrayOf t).
  - assert (Hq : forall Q, ((exists t, b :: r = print (ArrayOf t) /\ legal_within start part P false 255 (ArrayOf t)) \/
       ((b :: r) !! 0%nat <> Some JVM_SIGNATURE_ARRAY /\ Q)) <-> Q).
    { intros Q. split; [|intros; right; split; [|done]; cbn; congruence]. by intros [(t & [= ?] & _)|[_ ?]]. }
    unfold decides. rewrite Hq. pose proof (plain_decides start part P (b :: r) Hl true LegalClass ltac:(done)) as Hp.
    destruct (major_version P <? JAVA_1_5_VERSION) eqn:Hold; [|done].
    destruct (Z.eqb_spec b 60) as [->|]; cbn [negb]; [|done].
    right. split; [done|]. intros [[_ H]|[H _]]; [by apply (identifiers_head start part P _ _ r) in H|lia].
Qed.

Lemma field_name_decides (start part : Z -> option bool) (P : Parser) (name : list Z) :
  need_verify P = true -> relax_verify P = false -> legal_utf8 P name ->
  decides (verify_legal_field_name start part P name) (legal_plain start part P name false LegalField).
Proof.
  intros Hv Hr Hl. unfold verify_legal_field_name. rewrite Hv, Hr. cbn [negb orb].
  destruct name as [|b r]; [right; split; [done|]; by apply plain_empty|].
  destruct (Z.ltb_spec 0 (zlen (b :: r))) as [_|Hz]; [|cbn [length] in Hz; lia].
  change (zget (as_utf8_flexible_buffer (b :: r)) 0) with (Some b).
  pose proof (plain_decides start part P (b :: r) Hl false LegalField ltac:(done)) as Hp.
  destruct (major_version P <? JAVA_1_5_VERSION) eqn:Hold; [|done]. cbn [defined mbind outcome_bind].
  destruct (Z.eqb_spec b 60) as [->|]; cbn [negb]; [|done].
  right. split; [done|]. intros [[_ H]|[H _]]; [by apply (identifiers_head start part P _ _ r) in H|lia].
Qed.

Lemma method_name_decides (start part : Z -> option bool) (P : Parser) (name : list Z) :
  need_verify P = true -> relax_verify P = false -> legal_utf8 P name ->
  decides (verify_legal_method_name start part P name)
    (name = object_initializer_name \/ name = class_initializer_name \/
     (name !! 0%nat <> Some 60 /\ legal_plain start part P name false LegalMethod)).
Proof.
  intros Hv Hr Hl. unfold verify_legal_method_name. rewrite Hv, Hr. cbn [negb orb].
  destruct name as [|b r]; [right; split; [done|]; intros [?|[?|[_ H]]]; [done|done|by apply plain_empty in H]|].
  destruct (Z.ltb_spec 0 (zlen (b :: r))) as [_|Hz]; [|cbn [length] in Hz; lia].
  change (zget (as_utf8_flexible_buffer (b :: r)) 0) with (Some b). cbn [defined mbind outcome_bind].
  destruct (Z.eqb_spec b 60) as [->|Hb].
  - cbn [mbind outcome_bind]. apply guarantee_decides. unfold symbol_eq. rewrite orb_true_iff, !bool_decide_eq_true. naive_solver.
  - pose proof (plain_decides start part P (b :: r) Hl false LegalMethod ltac:(done)) as Hp.
    assert (Hq : forall Q, (b :: r = object_initializer_name \/ b :: r = class_initializer_name \/
      ((b :: r) !! 0%nat <> Some 60 /\ Q)) <-> Q).
    { intros Q. split; [|intros; right; right; split; [|done]; cbn; congruence].
      by intros [[= ? _]|[[= ? _]|[_ ?]]]. }
    unfold decides. by rewrite Hq.
Qed.

(** C22: In a class that is verified ([need_verify]) without relaxation ([relax_verify] false), for
    every string that the UTF-8 check has accepted: a name of a class, field or method passes its check exactly if it is legal.  Before version 49 it is a sequence of
    identifier characters (as java.lang.Character tells for those that are not ASCII), with single
    slashes between them in a class name; from then on it is any string without the characters
    that have a meaning in signatures, in a class name with slashes between parts that may be
    empty, so a//b is accepted.  An array class is a signature of at most 255 dimensions; a
    method may also be <init> or <clinit>, and no other name with an initial <.  In all other
    cases the check throws, and it never reads behind the string, even where its loops advance by
    whole characters. *)
Theorem legal_names_correct (start part : Z -> option bool) (P : Parser) (name : list Z) :
  need_verify P = true -> relax_verify P = false -> legal_utf8 P name ->
  let old := major_version P < JAVA_1_5_VERSION in
  let new := JAVA_1_5_VERSION <= major_version P in
  decides (verify_legal_class_name start part P name)
    ((exists t, name = print (ArrayOf t) /\ legal_within start part P false 255 (ArrayOf t)) \/
     (name !! 0%nat <> Some JVM_SIGNATURE_ARRAY /\
      (old /\ legal_identifiers start part P true name \/ new /\ legal_unqualified LegalClass name))) /\
  decides (verify_legal_field_name start part P name)
    (old /\ legal_identifiers start part P false name \/ new /\ legal_unqualified LegalField name) /\
  decides (verify_legal_method_name start part P name)
    (name = object_initializer_name \/ name = class_initializer_name \/
     (name !! 0%nat <> Some 60 /\
      (old /\ legal_identifiers start part P false name \/ new /\ legal_unqualified LegalMethod name))).
Proof.
  intros Hv Hr Hl old new.
  split; [by apply class_name_decides|]. split; [by apply field_name_decides|by apply method_name_decides].
Qed.

Lemma legal_names_correct_witness :
  let java_lang_Object := [106; 97; 118; 97; 47; 108; 97; 110; 103; 47; 79; 98; 106; 101; 99; 116] in
  decides (verify_legal_class_name sample_start sample_part (sample_parser 48) java_lang_Object)
    ((exists t, java_lang_Object = print (ArrayOf t) /\
        legal_within sample_start sample_part (sample_parser 48) false 255 (ArrayOf t)) \/
     (java_lang_Object !! 0%nat <> Some JVM_SIGNATURE_ARRAY /\
      (48 < 49 /\ legal_identifiers sample_start sample_part (sample_parser 48) true java_lang_Object \/
       49 <= 48 /\ legal_unqualified LegalClass java_lang_Object))) /\
  verify_legal_class_name sample_start sample_part (sample_parser 48) java_lang_Object = Done tt.
Proof.
  intros s. split; [|reflexivity].
  apply (legal_names_correct sample_start sample_part (sample_parser 48) s); [reflexivity|reflexivity|].
  apply legal_ascii_string. reflexivity.
Defined.

(** ** Signatures *)

Section MethodSignatures.
Context (start part : Z -> option bool) (P : Parser).

Abbreviation legal_within_P := (legal_within start part P).

(** The signature of a method with arguments [args] and result [ret]; methods whose
    name begins with < return nothing. *)
Definition legal_method_signature (name : list Z) (args : list jtype) (ret : jtype) (signature : list Z) : Prop :=
  signature = JVM_SIGNATURE_FUNC :: prints args ++ JVM_SIGNATURE_ENDFUNC :: print ret /\
  Forall (legal_within_P false 255) args /\ legal_within_P true 255 ret /\
  (name !! 0%nat = Some 60 -> ret = Prim JVM_SIGNATURE_VOID).

Lemma prints_unique (args args' : list jtype) (m m' : list Z) :
  Forall (legal_within_P false 255) args -> Forall (legal_within_P false 255) args' ->
  prints args ++ JVM_SIGNATURE_ENDFUNC :: m = prints args' ++ JVM_SIGNATURE_ENDFUNC :: m' -> args = args' /\ m = m'.
Proof.
  intros Ha. revert args'.
  assert (Hno : forall t r x, legal_within_P false 255 t -> JVM_SIGNATURE_ENDFUNC :: x = print t ++ r -> False).
  { intros t r x [Ht _] He. by destruct (print_letter start part P _ _ _ _ _ Ht He) as [[H _]|[[H _]|[[H _]|[H _]]]]; vm_compute in H. }
  induction Ha as [|t args Ht Hargs IH]; intros [|t' args'] Ha' He.
  - by injection He.
  - apply list.Forall_cons in Ha' as [Ht' _]. rewrite prints_cons, <- app_assoc in He. by destruct (Hno _ _ _ Ht' He).
  - rewrite prints_cons, <- app_assoc in He. by destruct (Hno _ _ _ Ht (eq_sym He)).
  - apply list.Forall_cons in Ha' as [Ht' Ha']. rewrite !prints_cons, <- !app_assoc in He.
    destruct (print_prefix start part P _ _ _ _ _ _ (proj1 Ht) (proj1 Ht') He) as [<- He'].
    by destruct (IH args' Ha' He') as [-> ->].
Qed.

(** What follows the arguments: the result of the method. *)
Lemma return_type_ok (name buf m : list Z) (p n : Z) :
  legal_utf8 P m -> 0 <= p -> drop (Z.to_nat p) buf = m ++ [0] ->
  let res :=
    if (0 <? zlen name) && bool_decide (name !! 0%nat = Some 60) then
      c ← defined (zget buf p);
      if (zlen m =? 1) && (c =? JVM_SIGNATURE_VOID) then Done n else Throw ClassFormatError
    else
      nextp ← skip_over_field_signature start part P buf p true (zlen m);
      match nextp with
      | Some nextp => if zlen m =? nextp - p then Done n else Throw ClassFormatError
      | None => Throw ClassFormatError
      end in
  let legal ret := m = print ret /\ legal_within_P true 255 ret /\ (name !! 0%nat = Some 60 -> ret = Prim JVM_SIGNATURE_VOID) in
  (res = Done n /\ exists ret, legal ret) \/ (res = Throw ClassFormatError /\ forall ret, ~ legal ret).
Proof.
  intros Hl Hp Hd. cbv zeta.
  destruct ((0 <? zlen name) && bool_decide (name !! 0%nat = Some 60)) eqn:Hname.
  - apply andb_true_iff in Hname as [_ Hname%bool_decide_eq_true].
    destruct m as [|c m]; [rewrite (zget_drop _ _ _ _ Hp Hd)|rewrite (zget_drop buf (m ++ [0]) c p Hp Hd)]; cbn [defined mbind outcome_bind].
    + right. split; [done|]. intros ret (He & _). destruct (print_cons ret) as (? & ? & H). by rewrite H in He.
    + destruct ((zlen (c :: m) =? 1) && (c =? JVM_SIGNATURE_VOID)) eqn:Hc.
      * left. split; [done|]. apply andb_true_iff in Hc as [Hz%Z.eqb_eq ->%Z.eqb_eq]. exists (Prim JVM_SIGNATURE_VOID).
        destruct m; [|cbn [length] in Hz; lia]. split; [done|]. split; [split; [by right|cbn; lia]|done].
      * right. split; [done|]. intros ret (He & _ & Hret). rewrite (Hret Hname) in He. injection He as -> ->. by vm_compute in Hc.
  - assert (Hn : name !! 0%nat <> Some 60).
    { intros H0. rewrite bool_decide_true, andb_true_r in Hname by done. apply Z.ltb_ge in Hname.
      destruct name; [done|cbn [length] in Hname; lia]. }
    destruct (skip_signature_ok start part P buf m p true Hl Hp Hd) as [(t & r & -> & Ht & ->)|[Hr Hno]]; cbn [mbind outcome_bind].
    + rewrite length_app. destruct (Z.eqb_spec (Z.of_nat (length (print t) + length r)) (p + zlen (print t) - p)) as [Hz|Hz].
      * left. split; [done|]. exists t. destruct r; [|cbn [length] in Hz; lia]. by rewrite app_nil_r.
      * right. split; [done|]. intros ret (He & Hret & _). rewrite <- (app_nil_r (print ret)) in He.
        destruct (print_prefix start part P _ _ _ _ _ _ (proj1 Ht) (proj1 Hret) He) as [_ ->]. cbn [length] in Hz. lia.
    + right. split; [by destruct Hr as [-> | ->]|]. intros ret (He & Hret & _). apply (Hno ret []); [by rewrite app_nil_r|done].
Qed.

Lemma slots_bounds (args : list jtype) : 0 <= args_slots args <= 2 * zlen (prints args).
Proof.
  induction args as [|t args IH]; [cbn; lia|]. rewrite prints_cons, length_app. cbn [args_slots foldr]. fold (args_slots args).
  pose proof (print_pos t). assert (0 <= slots t <= 2) by (destruct t; cbn [slots]; try case_match; lia). lia.
Qed.

Lemma method_signature_decides (name signature : list Z) :
  need_verify P = true -> legal_utf8 P signature -> zlen signature < 2 ^ 30 ->
  let res := verify_legal_method_signature start part P name signature in
  (exists args ret, legal_method_signature name args ret signature /\ res = Done (args_slots args)) \/
  (res = Throw ClassFormatError /\ forall args ret, ~ legal_method_signature name args ret signature).
Proof.
  intros Hv Hl Hlen. cbv zeta. unfold verify_legal_method_signature. rewrite Hv. cbn [negb].
  destruct signature as [|c l]; [right; split; [done|]; by intros args ret [H _]|].
  change (zget (as_utf8_flexible_buffer (c :: l)) 0) with (Some c). cbn [defined mbind outcome_bind].
  destruct (Z.ltb_spec 0 (zlen (c :: l))) as [_|Hz]; [|cbn [length] in Hz; lia].
  destruct (Z.eqb_spec c JVM_SIGNATURE_FUNC) as [->|Hc]; cbn [andb]; [|right; split; [done|]; by intros args ret [[= ?] _]].
  apply legal_ascii in Hl; [|unfold JVM_SIGNATURE_FUNC; lia]. replace (zlen (JVM_SIGNATURE_FUNC :: l) - 1) with (zlen l) by (cbn [length]; lia).
  set (buf := as_utf8_flexible_buffer _). assert (Hd : drop (Z.to_nat 1) buf = l ++ [0]) by done.
  assert (Hno : forall args ret, legal_method_signature name args ret (JVM_SIGNATURE_FUNC :: l) ->
    l = prints args ++ JVM_SIGNATURE_ENDFUNC :: print ret /\ Forall (legal_within_P false 255) args)
    by (intros args ret ([= He] & Ha & _); done).
  destruct (skip_over_field_signature start part P buf 1 false (zlen l)) as [nextp|e|] eqn:Hn; cbn [mbind outcome_bind].
  2,3: pose proof (skip_signature_ok start part P buf l 1 false Hl ltac:(lia) Hd) as Hf; rewrite Hn in Hf.
  2:{ destruct Hf as [(? & ? & _ & _ & H')|[[H'|H'] _]]; [done|done|injection H' as ->]. right. split; [done|].
      intros args ret [He Ha]%Hno.
      by rewrite (skip_args_done start part P buf l (print ret) args 1 Hl ltac:(lia) Hd He Ha) in Hn. }
  2:{ by destruct Hf as [(? & ? & _ & _ & H')|[[H'|H'] _]]. }
  destruct (method_args_ok start part P buf (Z.to_nat (zlen (JVM_SIGNATURE_FUNC :: l))) l 1 0 nextp Hl ltac:(lia) Hd
    ltac:(cbn [length]; lia) Hn) as [[Hr|(args & l' & He & Ha & Hr)] Hcomp]; change (u32 0) with 0 in *;
    rewrite Hr in *; cbn [mbind outcome_bind].
  { right. split; [done|]. intros args ret [He Ha]%Hno. by destruct (Hcomp _ _ He Ha) as (_ & _ & ?). }
  assert (Hd' : drop (Z.to_nat (1 + zlen (prints args))) buf = l' ++ [0])
    by (apply drop_app_Z; [lia|by rewrite Hd, He, app_assoc]).
  assert (Hend : forall args2 ret, legal_method_signature name args2 ret (JVM_SIGNATURE_FUNC :: l) ->
    l' = JVM_SIGNATURE_ENDFUNC :: print ret).
  { intros args2 ret [He2 Ha2]%Hno. destruct (Hcomp _ _ He2 Ha2) as (_ & _ & [= Hp _ _]).
    rewrite He in He2. apply app_inj_1 in He2 as [_ He2]; [done|lia]. }
  assert (Hp : 0 <= 1 + zlen (prints args)) by lia. destruct l' as [|c m].
  { rewrite (zget_drop buf [] 0 _ Hp Hd'). cbn. right. split; [done|]. by intros args2 ret H%Hend. }
  rewrite (zget_drop buf (m ++ [0]) c _ Hp Hd'). cbn [defined mbind outcome_bind].
  destruct (Z.ltb_spec 0 (zlen (c :: m))) as [_|Hz]; [|cbn [length] in Hz; lia].
  destruct (Z.eqb_spec c JVM_SIGNATURE_ENDFUNC) as [->|Hc]; cbn [andb]; [|right; split; [done|]; by intros args2 ret [= ?]%Hend].
  replace (zlen (JVM_SIGNATURE_ENDFUNC :: m) - 1) with (zlen m) by (cbn [length]; lia).
  assert (Hslots : s32 (u32 (0 + args_slots args)) = args_slots args).
  { pose proof (slots_bounds args). cbn [length] in Hlen. rewrite He, length_app in Hlen. pow2_norm.
    rewrite smod_umod, smod_id by (pow2_norm; lia). lia. }
  rewrite Hslots.
  destruct (return_type_ok name buf m (1 + zlen (prints args) + 1) (args_slots args)) as [[-> (ret & Hm & Hret & Hv2)]|[-> Hno2]].
  - apply (legal_after_ascii P l Hl (prints args) JVM_SIGNATURE_ENDFUNC); [done|unfold JVM_SIGNATURE_ENDFUNC; lia].
  - lia.
  - by apply (drop_next _ _ JVM_SIGNATURE_ENDFUNC); [lia|].
  - left. exists args, ret. split; [|done]. split; [by rewrite He, Hm|]. done.
  - right. split; [done|]. intros args2 ret Hleg. pose proof (Hend args2 ret Hleg) as [= ->].
    destruct Hleg as (_ & _ & ? & ?). by apply (Hno2 ret).
Qed.
End MethodSignatures.

(** C9: In a class that is verified ([need_verify]), for every string that the UTF-8 check has accepted: a field signature
    passes its check exactly if it is the text of a type of at most 255 array dimensions, and a
    method signature exactly if it is the text of argument types and a result type (void for
    <init> and <clinit>), in which case the check returns the number of words the arguments take,
    two for a long or a double, and not the number of parameters.
    All other strings are refused with a class format error, and no string makes the check read
    behind its terminating zero byte or loop. *)
Theorem signatures_correct (start part : Z -> option bool) (P : Parser) (name signature : list Z) :
  need_verify P = true -> legal_utf8 P signature -> zlen signature < 2 ^ 30 ->
  decides (verify_legal_field_signature start part P signature)
    (exists t, legal_within start part P false 255 t /\ signature = print t) /\
  (let res := verify_legal_method_signature start part P name signature in
   (exists args ret, legal_method_signature start part P name args ret signature /\ res = Done (args_slots args)) \/
   (res = Throw ClassFormatError /\ forall args ret, ~ legal_method_signature start part P name args ret signature)).
Proof.
  intros Hv Hl Hlen. split; [|by apply method_signature_decides].
  unfold verify_legal_field_signature. rewrite Hv. by apply skip_signature_whole.
Qed.

Lemma signatures_correct_witness :
  let sig := [40; 73; 74; 91; 76; 65; 59; 41; 86] in
  decides (verify_legal_field_signature sample_start sample_part (sample_parser 52) sig)
    (exists t, legal_within sample_start sample_part (sample_parser 52) false 255 t /\ sig = print t) /\
  verify_legal_method_signature sample_start sample_part (sample_parser 52) object_initializer_name sig = Done 4.
Proof.
  intros sig. split; [|reflexivity].
  apply (signatures_correct sample_start sample_part (sample_parser 52) [] sig);
    [reflexivity | apply legal_ascii_string; reflexivity | cbn; lia].
Defined.

(** ** Modifiers *)

(** The flags that are set. *)
Definition has (flags bit : Z) : Prop := Z.land flags bit <> 0.

Lemma flag_spec (flags bit : Z) : flag flags bit = true <-> has flags bit.
Proof. unfold flag, has. by rewrite negb_true_iff, Z.eqb_neq. Qed.

Ltac decide_flags :=
  repeat match goal with |- context [flag ?f ?b] => let H := fresh "Hf" in
    pose proof (flag_spec f b) as H; destruct (flag f b); cbn [negb andb orb eqb] in *;
    [assert (has f b) by (by apply H)|assert (~ has f b) by (intros Hno; apply H in Hno; done)]; clear H end.

Ltac by_flags :=
  repeat match goal with |- context [?a <=? ?b] => destruct (Z.leb_spec a b);
    [try (assert (a <= b) by done)|assert (~ a <= b) by lia] end;
  decide_flags; first [left; split; [done|]; tauto | right; split; [done|]; tauto].

(** The rules of the class file format on the flags of classes, fields and methods. *)
Definition legal_class_flags (major flags : Z) : Prop :=
  ~ (has flags JVM_ACC_ABSTRACT /\ has flags JVM_ACC_FINAL) /\
  (has flags JVM_ACC_INTERFACE -> has flags JVM_ACC_ABSTRACT) /\
  (JAVA_1_5_VERSION <= major ->
    (has flags JVM_ACC_INTERFACE -> ~ has flags JVM_ACC_SUPER /\ ~ has flags JVM_ACC_ENUM) /\
    (has flags JVM_ACC_ANNOTATION -> has flags JVM_ACC_INTERFACE)).

Definition one_visibility (flags : Z) : Prop :=
  ~ (has flags JVM_ACC_PUBLIC /\ has flags JVM_ACC_PRIVATE) /\
  ~ (has flags JVM_ACC_PUBLIC /\ has flags JVM_ACC_PROTECTED) /\
  ~ (has flags JVM_ACC_PRIVATE /\ has flags JVM_ACC_PROTECTED).

Definition legal_field_flags (major flags : Z) (is_interface : bool) : Prop :=
  one_visibility flags /\ ~ (has flags JVM_ACC_FINAL /\ has flags JVM_ACC_VOLATILE) /\
  (if is_interface then
    has flags JVM_ACC_PUBLIC /\ has flags JVM_ACC_STATIC /\ has flags JVM_ACC_FINAL /\
    ~ has flags JVM_ACC_TRANSIENT /\ (JAVA_1_5_VERSION <= major -> ~ has flags JVM_ACC_ENUM)
   else True).

Definition legal_abstract_flags (major flags : Z) : Prop :=
  ~ has flags JVM_ACC_FINAL /\ ~ has flags JVM_ACC_NATIVE /\ ~ has flags JVM_ACC_PRIVATE /\
  ~ has flags JVM_ACC_STATIC /\
  (JAVA_1_5_VERSION <= major -> ~ has flags JVM_ACC_SYNCHRONIZED /\ ~ has flags JVM_ACC_STRICT).

(** The methods of a class that are not initializers. *)
Definition legal_method_flags (major flags : Z) : Prop :=
  one_visibility flags /\ (has flags JVM_ACC_ABSTRACT -> legal_abstract_flags major flags).

(** The methods of an interface from version 52 on, where they may have code. *)
Definition legal_interface_flags (flags : Z) : Prop :=
  (has flags JVM_ACC_PUBLIC <-> ~ has flags JVM_ACC_PRIVATE) /\
  ~ has flags JVM_ACC_PROTECTED /\ ~ has flags JVM_ACC_FINAL /\ ~ has flags JVM_ACC_SYNCHRONIZED /\
  ~ has flags JVM_ACC_NATIVE /\
  (has flags JVM_ACC_ABSTRACT -> ~ has flags JVM_ACC_PRIVATE /\ ~ has flags JVM_ACC_STATIC /\ ~ has flags JVM_ACC_STRICT).

Lemma class_modifiers_decide (P : Parser) (flags : Z) :
  need_verify P = true -> decides (verify_legal_class_modifiers P flags) (legal_class_flags (major_version P) flags).
Proof.
  intros Hv. unfold verify_legal_class_modifiers, legal_class_flags. rewrite Hv. cbn [negb]. by_flags.
Qed.

Lemma field_modifiers_decide (P : Parser) (flags : Z) (is_interface : bool) :
  need_verify P = true ->
  decides (verify_legal_field_modifiers P flags is_interface) (legal_field_flags (major_version P) flags is_interface).
Proof.
  intros Hv. unfold verify_legal_field_modifiers, legal_field_flags, has_illegal_visibility, one_visibility. rewrite Hv.
  cbn [negb]. destruct is_interface; by_flags.
Qed.

Lemma method_modifiers_decide (P : Parser) (flags : Z) (name : list Z) :
  need_verify P = true -> name <> object_initializer_name ->
  decides (verify_legal_method_modifiers P flags false name) (legal_method_flags (major_version P) flags) /\
  (JAVA_8_VERSION <= major_version P ->
   decides (verify_legal_method_modifiers P flags true name) (legal_interface_flags flags)).
Proof.
  intros Hv Hn. unfold verify_legal_method_modifiers, legal_method_flags, legal_abstract_flags, legal_interface_flags,
    has_illegal_visibility, one_visibility, symbol_eq. rewrite Hv, bool_decide_false by done. cbn [negb].
  split; [by_flags|]. intros H8. destruct (Z.leb_spec JAVA_8_VERSION (major_version P)); [|lia]. by_flags.
Qed.

(** ** Divergences *)

(** From version 49 on, empty identifiers between slashes are accepted in class names, and an
    empty class name in a signature, although an unqualified name has at least one character. *)
Lemma empty_names_accepted (start part : Z -> option bool) :
  let a__b := [97; 47; 47; 98] in
  verify_legal_class_name start part (sample_parser 52) a__b = Done tt /\
  verify_legal_class_name start part (sample_parser 52) [47] = Done tt /\
  verify_legal_field_signature start part (sample_parser 52) [76; 59] = Done tt /\
  verify_legal_class_name start part (sample_parser 48) a__b = Throw ClassFormatError /\
  verify_legal_field_signature start part (sample_parser 48) [76; 59] = Throw ClassFormatError.
Proof. repeat split; reflexivity. Qed.
