(* ===== verification/ConstantPool.v ===== *)
(** The constant pool of a class file: its representation (oops/constantPool.hpp and
    .cpp, utilities/constantTag.hpp), and how the class file parser fills and checks it
    ([parse_constant_pool_entries], [parse_constant_pool] and [patch_constant_pool] of
    classfile/classFileParser.cpp).

    Symbols are interned, so a [Symbol*] is the list of its bytes.  A slot of the pool
    holds an integer, a symbol, a symbol marked as the name of an unresolved class, or
    a class; a read as anything else than what was stored has no result.  The result
    of the symbol table's lock-free lookup is a variable: other threads add symbols. *)

From S2P Require Import Prelude GlobalDefinitions Utf8 ClassFileStream FormatChecker.

(** ** Definitions *)

Definition JVM_CONSTANT_Invalid : Z := 0.
Definition JVM_CONSTANT_Utf8 : Z := 1.
Definition JVM_CONSTANT_Integer : Z := 3.
Definition JVM_CONSTANT_Float : Z := 4.
Definition JVM_CONSTANT_Long : Z := 5.
Definition JVM_CONSTANT_Double : Z := 6.
Definition JVM_CONSTANT_Class : Z := 7.
Definition JVM_CONSTANT_String : Z := 8.
Definition JVM_CONSTANT_Fieldref : Z := 9.
Definition JVM_CONSTANT_Methodref : Z := 10.
Definition JVM_CONSTANT_InterfaceMethodref : Z := 11.
Definition JVM_CONSTANT_NameAndType : Z := 12.
Definition JVM_CONSTANT_MethodHandle : Z := 15.
Definition JVM_CONSTANT_MethodType : Z := 16.
Definition JVM_CONSTANT_InvokeDynamic : Z := 18.
Definition JVM_CONSTANT_UnresolvedClass : Z := 100.
Definition JVM_CONSTANT_ClassIndex : Z := 101.
Definition JVM_CONSTANT_StringIndex : Z := 102.
Definition JVM_CONSTANT_UnresolvedClassInError : Z := 103.

Definition JVM_REF_getField : Z := 1.
Definition JVM_REF_getStatic : Z := 2.
Definition JVM_REF_putField : Z := 3.
Definition JVM_REF_putStatic : Z := 4.
Definition JVM_REF_invokeVirtual : Z := 5.
Definition JVM_REF_invokeStatic : Z := 6.
Definition JVM_REF_invokeSpecial : Z := 7.
Definition JVM_REF_newInvokeSpecial : Z := 8.
Definition JVM_REF_invokeInterface : Z := 9.

Definition INVOKEDYNAMIC_MAJOR_VERSION : Z := 51.
Definition symbol_alloc_batch_size : Z := 8.
Definition max_symbol_length : Z := 2 ^ 16 - 1.

(** *** Representation *)

Inductive slot :=
| SlotInt (x : Z)
| SlotSymbol (s : list Z)
| SlotUnresolved (s : list Z)
| SlotKlass (k : Z).

Record ConstantPool := {
  tags : list Z;
  base : list slot;
}.

Definition pool_length (cp : ConstantPool) : Z := zlen (tags cp).

(** [ConstantPool::allocate] *)
Definition allocate (length : Z) : ConstantPool :=
  {| tags := replicate (Z.to_nat length) JVM_CONSTANT_Invalid; base := replicate (Z.to_nat length) (SlotInt 0) |}.

(** The tag and the slot are stored in two steps. *)
Definition entry_at_put (cp : ConstantPool) (which tag : Z) (s : slot) : outcome ConstantPool :=
  tags ← defined (zset (tags cp) which tag);
  base ← defined (zset (base cp) which s);
  Done {| tags := tags; base := base |}.

(** Two 16-bit indices in an [int]. *)
Definition two_shorts (high low : Z) : slot := SlotInt (s32 (Z.lor (Z.shiftl high 16) low)).

Definition klass_at_put cp which k := entry_at_put cp which JVM_CONSTANT_Class (SlotKlass k).
Definition klass_index_at_put cp which name_index := entry_at_put cp which JVM_CONSTANT_ClassIndex (SlotInt name_index).
Definition unresolved_klass_at_put cp which s := entry_at_put cp which JVM_CONSTANT_UnresolvedClass (SlotUnresolved s).
Definition method_handle_index_at_put cp which ref_kind ref_index :=
  entry_at_put cp which JVM_CONSTANT_MethodHandle (two_shorts ref_index ref_kind).
Definition method_type_index_at_put cp which ref_index := entry_at_put cp which JVM_CONSTANT_MethodType (SlotInt ref_index).
Definition invoke_dynamic_at_put cp which bootstrap_specifier_index name_and_type_index :=
  entry_at_put cp which JVM_CONSTANT_InvokeDynamic (two_shorts name_and_type_index bootstrap_specifier_index).
Definition unresolved_string_at_put cp which s := entry_at_put cp which JVM_CONSTANT_String (SlotSymbol s).
Definition int_at_put cp which i := entry_at_put cp which JVM_CONSTANT_Integer (SlotInt i).
Definition long_at_put cp which l := entry_at_put cp which JVM_CONSTANT_Long (SlotInt l).
Definition float_at_put cp which f := entry_at_put cp which JVM_CONSTANT_Float (SlotInt f).
Definition double_at_put cp which d := entry_at_put cp which JVM_CONSTANT_Double (SlotInt d).
Definition symbol_at_put cp which s := entry_at_put cp which JVM_CONSTANT_Utf8 (SlotSymbol s).
Definition string_index_at_put cp which string_index := entry_at_put cp which JVM_CONSTANT_StringIndex (SlotInt string_index).
Definition field_at_put cp which class_index name_and_type_index :=
  entry_at_put cp which JVM_CONSTANT_Fieldref (two_shorts name_and_type_index class_index).
Definition method_at_put cp which class_index name_and_type_index :=
  entry_at_put cp which JVM_CONSTANT_Methodref (two_shorts name_and_type_index class_index).
Definition interface_method_at_put cp which class_index name_and_type_index :=
  entry_at_put cp which JVM_CONSTANT_InterfaceMethodref (two_shorts name_and_type_index class_index).
Definition name_and_type_at_put cp which name_index signature_index :=
  entry_at_put cp which JVM_CONSTANT_NameAndType (two_shorts signature_index name_index).

(** *** Queries *)

Definition tag_at (cp : ConstantPool) (which : Z) : outcome Z := defined (zget (tags cp) which).
Definition slot_at (cp : ConstantPool) (which : Z) : outcome slot := defined (zget (base cp) which).

Definition int_at_addr (cp : ConstantPool) (which : Z) : outcome Z :=
  s ← slot_at cp which; match s with SlotInt x => Done x | _ => Stuck end.
Definition symbol_at (cp : ConstantPool) (which : Z) : outcome (list Z) :=
  s ← slot_at cp which; match s with SlotSymbol s => Done s | _ => Stuck end.
Definition unresolved_klass_at (cp : ConstantPool) (which : Z) : outcome (list Z) :=
  s ← slot_at cp which; match s with SlotUnresolved s => Done s | _ => Stuck end.

Definition low_short_at (cp : ConstantPool) (which : Z) : outcome Z :=
  x ← int_at_addr cp which; Done (extract_low_short_from_int x).
Definition high_short_at (cp : ConstantPool) (which : Z) : outcome Z :=
  x ← int_at_addr cp which; Done (extract_high_short_from_int x).

Definition klass_index_at := int_at_addr.
Definition string_index_at := int_at_addr.
Definition method_type_index_at := int_at_addr.
Definition method_handle_ref_kind_at := low_short_at.
Definition method_handle_index_at := high_short_at.
Definition invoke_dynamic_name_and_type_ref_index_at := high_short_at.
Definition klass_ref_index_at := low_short_at.
Definition name_ref_index_at := low_short_at.
Definition signature_ref_index_at := high_short_at.

(** [impl_name_and_type_ref_index_at] while there is no constant pool cache. *)
Definition name_and_type_ref_index_at (cp : ConstantPool) (which : Z) : outcome Z :=
  tag ← tag_at cp which;
  if tag =? JVM_CONSTANT_InvokeDynamic then invoke_dynamic_name_and_type_ref_index_at cp which
  else high_short_at cp which.

Definition method_type_signature_at (cp : ConstantPool) (which : Z) : outcome (list Z) :=
  sym ← method_type_index_at cp which; symbol_at cp sym.

Definition is_klass_reference (tag : Z) : bool :=
  (tag =? JVM_CONSTANT_ClassIndex) ||
  ((tag =? JVM_CONSTANT_UnresolvedClass) || (tag =? JVM_CONSTANT_UnresolvedClassInError)).
Definition is_klass_or_reference (tag : Z) : bool := (tag =? JVM_CONSTANT_Class) || is_klass_reference tag.

Definition is_within_bounds (cp : ConstantPool) (index : Z) : bool := (0 <=? index) && (index <? pool_length cp).
Definition valid_cp_range (index length : Z) : bool := (0 <? index) && (index <? length).

(** A test of the tag of an entry, if there is one. *)
Definition tag_test (cp : ConstantPool) (in_range : bool) (index : Z) (test : Z -> bool) : outcome bool :=
  if in_range then tag ← tag_at cp index; Done (test tag) else Done false.
Definition valid_symbol_at (cp : ConstantPool) (index : Z) : outcome bool :=
  tag_test cp (is_within_bounds cp index) index (fun tag => tag =? JVM_CONSTANT_Utf8).

(** *** Patches

    An anonymous class may override entries of its constant pool with objects: strings,
    classes (which may be primitive), boxed values by their basic type and bits, others. *)

Definition T_FLOAT : Z := 6.
Definition T_DOUBLE : Z := 7.
Definition T_INT : Z := 10.
Definition T_LONG : Z := 11.
Definition T_ILLEGAL : Z := 99.

Inductive patch :=
| PatchString (chars : list Z)
| PatchClass (primitive : bool) (k : Z)
| PatchBox (type value : Z)
| PatchOther.

(** The state of the parser: the stream, the pool, the largest bootstrap specifier
    seen, and the patches that are left ([None] is [NULL]). *)
Record State := {
  cfs : ClassFileStream;
  cp : ConstantPool;
  max_bootstrap_specifier_index : Z;
  cp_patches : option (list (option patch));
}.

Definition set_cfs (st : State) (s : ClassFileStream) : State :=
  {| cfs := s; cp := cp st; max_bootstrap_specifier_index := max_bootstrap_specifier_index st; cp_patches := cp_patches st |}.
Definition set_cp (st : State) (c : ConstantPool) : State :=
  {| cfs := cfs st; cp := c; max_bootstrap_specifier_index := max_bootstrap_specifier_index st; cp_patches := cp_patches st |}.
Definition set_max_bootstrap (st : State) (n : Z) : State :=
  {| cfs := cfs st; cp := cp st; max_bootstrap_specifier_index := n; cp_patches := cp_patches st |}.
Definition set_cp_patches (st : State) (ps : option (list (option patch))) : State :=
  {| cfs := cfs st; cp := cp st; max_bootstrap_specifier_index := max_bootstrap_specifier_index st; cp_patches := ps |}.

Definition cp_patch_at (st : State) (index : Z) : option patch := ps ← cp_patches st; mjoin (zget ps index).
Definition has_cp_patch_at (st : State) (index : Z) : bool := bool_decide (is_Some (cp_patch_at st index)).
Definition clear_cp_patch_at (st : State) (index : Z) : outcome State :=
  ps ← defined (ps ← cp_patches st; zset ps index None); Done (set_cp_patches st (Some ps)).

(** [strlen] *)
Fixpoint strlen (s : list Z) : option Z :=
  match s with [] => None | b :: s => if b =? 0 then Some 0 else n ← strlen s; Some (1 + n) end.

(** *** Entries *)

Section Parser.
Context (isJavaIdentifierStart isJavaIdentifierPart : Z -> option bool).
Context (EnableInvokeDynamic : bool).
(** [SymbolTable::lookup_only], by the index of the entry. *)
Context (lookup_only : Z -> bool).

Definition check_property (P : Parser) (b : bool) : outcome () :=
  if need_verify P then guarantee_property b else Done tt.

(** [SymbolTable::new_symbols]: the symbols of a batch, with the indices of their entries. *)
Fixpoint new_symbols (cp : ConstantPool) (names : list (Z * list Z)) : outcome ConstantPool :=
  match names with
  | [] => Done cp
  | (index, name) :: names => cp ← symbol_at_put cp index name; new_symbols cp names
  end.

(** [u2 a; u2 b] *)
Definition get_two (s : ClassFileStream) : outcome (Z * Z * ClassFileStream) :=
  guarantee_more 5 s;;
  '(a, s) ← get_u2_fast s; '(b, s) ← get_u2_fast s; Done (a, b, s).

(** The tags of method handles, method types and invokedynamic. *)
Definition check_indy (P : Parser) : outcome () :=
  if major_version P <? INVOKEDYNAMIC_MAJOR_VERSION then Throw ClassFormatError
  else if negb EnableInvokeDynamic then Throw ClassFormatError else Done tt.

(** The bytes of a UTF-8 entry, or of the string that replaces it. *)
Definition utf8_entry (P : Parser) (st : State) (index : Z) : outcome (list Z * State) :=
  guarantee_more 2 (cfs st);;
  '(utf8_length, s) ← get_u2_fast (cfs st);
  guarantee_more (utf8_length + 1) s;;
  name ← defined (get_bytes (Z.to_nat utf8_length) (buffer s) (current s));
  let st := set_cfs st (skip_u1_fast utf8_length s) in
  (if need_verify P then verify_legal_utf8 P name utf8_length else Done tt);;
  if EnableInvokeDynamic && has_cp_patch_at st index then
    match cp_patch_at st index with
    | Some (PatchString chars) =>
        st ← clear_cp_patch_at st index;
        str ← defined (as_utf8 chars);
        n ← defined (strlen str);
        let utf8_length := u16 n in
        name ← defined (get_bytes (Z.to_nat utf8_length) str 0);
        Done (name, st)
    | _ => Throw ClassFormatError
    end
  else Done (name, st).

(** One round of the loop over the entries: the index of the last slot the entry takes,
    the new state and the pending batch of symbols. *)
Definition parse_entry (P : Parser) (length index : Z) (st : State) (names : list (Z * list Z))
    : outcome (Z * State * list (Z * list Z)) :=
  '(tag, s) ← get_u1_fast (cfs st);
  let st := set_cfs st s in
  let store (index : Z) (s : ClassFileStream) (m : outcome ConstantPool) : outcome (Z * State * list (Z * list Z)) :=
    c ← m; Done (index, set_cp (set_cfs st s) c, names) in
  if tag =? JVM_CONSTANT_Class then
    guarantee_more 3 s;; '(name_index, s) ← get_u2_fast s; store index s (klass_index_at_put (cp st) index name_index)
  else if tag =? JVM_CONSTANT_Fieldref then
    '(a, b, s) ← get_two s; store index s (field_at_put (cp st) index a b)
  else if tag =? JVM_CONSTANT_Methodref then
    '(a, b, s) ← get_two s; store index s (method_at_put (cp st) index a b)
  else if tag =? JVM_CONSTANT_InterfaceMethodref then
    '(a, b, s) ← get_two s; store index s (interface_method_at_put (cp st) index a b)
  else if tag =? JVM_CONSTANT_String then
    guarantee_more 3 s;; '(string_index, s) ← get_u2_fast s; store index s (string_index_at_put (cp st) index string_index)
  else if tag =? JVM_CONSTANT_MethodHandle then
    check_indy P;; guarantee_more 4 s;;
    '(ref_kind, s) ← get_u1_fast s; '(method_index, s) ← get_u2_fast s;
    store index s (method_handle_index_at_put (cp st) index ref_kind method_index)
  else if tag =? JVM_CONSTANT_MethodType then
    check_indy P;; guarantee_more 3 s;;
    '(signature_index, s) ← get_u2_fast s; store index s (method_type_index_at_put (cp st) index signature_index)
  else if tag =? JVM_CONSTANT_InvokeDynamic then
    check_indy P;; '(a, b, s) ← get_two s;
    c ← invoke_dynamic_at_put (cp st) index a b;
    let st := if max_bootstrap_specifier_index st <? a then set_max_bootstrap st a else st in
    Done (index, set_cp (set_cfs st s) c, names)
  else if tag =? JVM_CONSTANT_Integer then
    guarantee_more 5 s;; '(bytes, s) ← get_u4_fast s; store index s (int_at_put (cp st) index (s32 bytes))
  else if tag =? JVM_CONSTANT_Float then
    guarantee_more 5 s;; '(bytes, s) ← get_u4_fast s; store index s (float_at_put (cp st) index bytes)
  else if tag =? JVM_CONSTANT_Long then
    guarantee_property (index + 1 <? length);;
    guarantee_more 9 s;; '(bytes, s) ← get_u8_fast s; store (index + 1) s (long_at_put (cp st) index (s64 bytes))
  else if tag =? JVM_CONSTANT_Double then
    guarantee_property (index + 1 <? length);;
    guarantee_more 9 s;; '(bytes, s) ← get_u8_fast s; store (index + 1) s (double_at_put (cp st) index bytes)
  else if tag =? JVM_CONSTANT_NameAndType then
    '(a, b, s) ← get_two s; store index s (name_and_type_at_put (cp st) index a b)
  else if tag =? JVM_CONSTANT_Utf8 then
    '(name, st) ← utf8_entry P st index;
    if lookup_only index then
      c ← symbol_at_put (cp st) index name; Done (index, set_cp st c, names)
    else
      let names := names ++ [(index, name)] in
      if zlen names =? symbol_alloc_batch_size then
        c ← new_symbols (cp st) names; Done (index, set_cp st c, [])
      else Done (index, st, names)
  else Throw ClassFormatError.

(** [for (int index = 1; index < length; index++)], and the rest of the batch. *)
Fixpoint parse_entries_loop (fuel : nat) (P : Parser) (length index : Z) (st : State) (names : list (Z * list Z))
    : outcome State :=
  if index <? length then
    match fuel with
    | O => Stuck
    | S fuel =>
        '(index, st, names) ← parse_entry P length index st names;
        parse_entries_loop fuel P length (index + 1) st names
    end
  else c ← new_symbols (cp st) names; Done (set_cp st c).

Definition parse_constant_pool_entries (P : Parser) (length : Z) (st : State) : outcome State :=
  parse_entries_loop (Z.to_nat length) P length 1 st [].

(** *** First pass: cross references, and the names of classes and strings *)

Definition valid_klass_reference_at (cp : ConstantPool) (index : Z) : outcome bool :=
  tag_test cp (is_within_bounds cp index) index (if EnableInvokeDynamic then is_klass_or_reference else is_klass_reference).

Definition valid_name_and_type_at (cp : ConstantPool) (index length : Z) : outcome bool :=
  tag_test cp (valid_cp_range index length) index (fun tag => tag =? JVM_CONSTANT_NameAndType).

(** The tag that the kind of a method handle asks for. *)
Definition check_ref_kind (P : Parser) (ref_kind tag : Z) : outcome () :=
  if (ref_kind =? JVM_REF_getField) || (ref_kind =? JVM_REF_getStatic) || (ref_kind =? JVM_REF_putField) ||
     (ref_kind =? JVM_REF_putStatic)
  then check_property P (tag =? JVM_CONSTANT_Fieldref)
  else if (ref_kind =? JVM_REF_invokeVirtual) || (ref_kind =? JVM_REF_newInvokeSpecial) then
    check_property P (tag =? JVM_CONSTANT_Methodref)
  else if (ref_kind =? JVM_REF_invokeStatic) || (ref_kind =? JVM_REF_invokeSpecial) then
    check_property P ((tag =? JVM_CONSTANT_Methodref) ||
                      ((JAVA_8_VERSION <=? major_version P) && (tag =? JVM_CONSTANT_InterfaceMethodref)))
  else if ref_kind =? JVM_REF_invokeInterface then check_property P (tag =? JVM_CONSTANT_InterfaceMethodref)
  else Throw ClassFormatError.

(** One round of the loop: the index of the last slot of the entry, and the pool. *)
Definition check_entry (P : Parser) (length index : Z) (cp : ConstantPool) : outcome (Z * ConstantPool) :=
  tag ← tag_at cp index;
  if (tag =? JVM_CONSTANT_Fieldref) || (tag =? JVM_CONSTANT_Methodref) || (tag =? JVM_CONSTANT_InterfaceMethodref) then
    if negb (need_verify P) then Done (index, cp) else
    klass_ref_index ← klass_ref_index_at cp index;
    name_and_type_ref_index ← name_and_type_ref_index_at cp index;
    b ← valid_klass_reference_at cp klass_ref_index; check_property P b;;
    b ← valid_name_and_type_at cp name_and_type_ref_index length; check_property P b;;
    Done (index, cp)
  else if (tag =? JVM_CONSTANT_Integer) || (tag =? JVM_CONSTANT_Float) || (tag =? JVM_CONSTANT_Utf8) then Done (index, cp)
  else if (tag =? JVM_CONSTANT_Long) || (tag =? JVM_CONSTANT_Double) then
    let index := index + 1 in
    b ← tag_test cp (index <? length) index (fun tag => tag =? JVM_CONSTANT_Invalid); check_property P b;;
    Done (index, cp)
  else if tag =? JVM_CONSTANT_NameAndType then
    if negb (need_verify P) then Done (index, cp) else
    name_ref_index ← name_ref_index_at cp index;
    signature_ref_index ← signature_ref_index_at cp index;
    b ← valid_symbol_at cp name_ref_index; check_property P b;;
    b ← valid_symbol_at cp signature_ref_index; check_property P b;;
    Done (index, cp)
  else if tag =? JVM_CONSTANT_ClassIndex then
    class_index ← klass_index_at cp index;
    b ← valid_symbol_at cp class_index; check_property P b;;
    sym ← symbol_at cp class_index;
    cp ← unresolved_klass_at_put cp index sym; Done (index, cp)
  else if tag =? JVM_CONSTANT_StringIndex then
    string_index ← string_index_at cp index;
    b ← valid_symbol_at cp string_index; check_property P b;;
    sym ← symbol_at cp string_index;
    cp ← unresolved_string_at_put cp index sym; Done (index, cp)
  else if tag =? JVM_CONSTANT_MethodHandle then
    ref_index ← method_handle_index_at cp index;
    check_property P (valid_cp_range ref_index length && EnableInvokeDynamic);;
    tag ← tag_at cp ref_index;
    ref_kind ← method_handle_ref_kind_at cp index;
    check_ref_kind P ref_kind tag;; Done (index, cp)
  else if tag =? JVM_CONSTANT_MethodType then
    ref_index ← method_type_index_at cp index;
    b ← valid_symbol_at cp ref_index; check_property P (b && EnableInvokeDynamic);; Done (index, cp)
  else if tag =? JVM_CONSTANT_InvokeDynamic then
    name_and_type_ref_index ← invoke_dynamic_name_and_type_ref_index_at cp index;
    b ← valid_name_and_type_at cp name_and_type_ref_index length; check_property P b;; Done (index, cp)
  else Stuck.

Fixpoint check_entries_loop (fuel : nat) (P : Parser) (length index : Z) (cp : ConstantPool) : outcome ConstantPool :=
  if index <? length then
    match fuel with
    | O => Stuck
    | S fuel => '(index, cp) ← check_entry P length index cp; check_entries_loop fuel P length (index + 1) cp
    end
  else Done cp.

(** *** Patches *)

(** [java_lang_boxing_object::get_value]: the type of a boxed value. *)
Definition get_value (p : patch) : Z * Z := match p with PatchBox type value => (type, value) | _ => (T_ILLEGAL, 0) end.

(** [java_lang_String::as_symbol], [SymbolTable::lookup_unicode] *)
Definition as_symbol (chars : list Z) : outcome (list Z) :=
  str ← defined (as_utf8 chars);
  let n := utf8_length chars in
  if max_symbol_length <? n then Throw InternalError else name ← defined (get_bytes (Z.to_nat n) str 0); Done name.

Definition patch_constant_pool (index : Z) (p : patch) (st : State) : outcome State :=
  tag ← tag_at (cp st) index;
  let patch_prim (type : Z) (put : ConstantPool -> Z -> Z -> outcome ConstantPool) : outcome State :=
    let '(value_type, value) := get_value p in
    guarantee_property (value_type =? type);;
    c ← put (cp st) index value; clear_cp_patch_at (set_cp st c) index in
  if tag =? JVM_CONSTANT_UnresolvedClass then
    match p with
    | PatchClass primitive k =>
        guarantee_property (negb primitive);;
        c ← klass_at_put (cp st) index k; clear_cp_patch_at (set_cp st c) index
    | PatchString chars =>
        name ← as_symbol chars;
        c ← unresolved_klass_at_put (cp st) index name; clear_cp_patch_at (set_cp st c) index
    | _ => Throw ClassFormatError
    end
  else if tag =? JVM_CONSTANT_String then Done st
  else if tag =? JVM_CONSTANT_Integer then patch_prim T_INT int_at_put
  else if tag =? JVM_CONSTANT_Float then patch_prim T_FLOAT float_at_put
  else if tag =? JVM_CONSTANT_Long then patch_prim T_LONG long_at_put
  else if tag =? JVM_CONSTANT_Double then patch_prim T_DOUBLE double_at_put
  else guarantee_property (negb (has_cp_patch_at st index));; Done st.

Fixpoint patch_loop (fuel : nat) (length this_class_index index : Z) (st : State) : outcome State :=
  if index <? length then
    match fuel with
    | O => Stuck
    | S fuel =>
        st ← match cp_patch_at st index with
             | Some p => guarantee_property (negb (index =? this_class_index));; patch_constant_pool index p st
             | None => Done st
             end;
        patch_loop fuel length this_class_index (index + 1) st
    end
  else Done st.

Definition apply_patches (length : Z) (st : State) : outcome State :=
  match cp_patches st with
  | None => Done st
  | Some _ =>
      guarantee_more 8 (cfs st);;
      '(_, s) ← get_u2_fast (cfs st); '(this_class_index, _) ← get_u2_fast s;
      patch_loop (Z.to_nat length) length this_class_index 1 st
  end.

(** *** Second pass: the format of names and signatures *)

Abbreviation legal_class_name := (verify_legal_class_name isJavaIdentifierStart isJavaIdentifierPart).
Abbreviation legal_field_name := (verify_legal_field_name isJavaIdentifierStart isJavaIdentifierPart).
Abbreviation legal_method_name := (verify_legal_method_name isJavaIdentifierStart isJavaIdentifierPart).
Abbreviation legal_field_signature := (verify_legal_field_signature isJavaIdentifierStart isJavaIdentifierPart).
Abbreviation legal_method_signature := (verify_legal_method_signature isJavaIdentifierStart isJavaIdentifierPart).

(** [s->byte_at(0) == b] *)
Definition first_byte_is (s : list Z) (b : Z) : outcome bool := c ← defined (s !! 0%nat); Done (c =? b).

(** A reference to a field or method. *)
Definition check_member (P : Parser) (tag : Z) (name signature : list Z) : outcome () :=
  if tag =? JVM_CONSTANT_Fieldref then
    legal_field_name P name;;
    if need_verify P && (JAVA_7_VERSION <=? major_version P) then
      illegal ← (if zlen signature =? 0 then Done true else first_byte_is signature JVM_SIGNATURE_FUNC);
      if (illegal : bool) then Throw ClassFormatError else Done tt
    else legal_field_signature P signature
  else
    legal_method_name P name;;
    (if need_verify P && (JAVA_7_VERSION <=? major_version P) then
       illegal ← (if zlen signature =? 0 then Done true
                  else b ← first_byte_is signature JVM_SIGNATURE_FUNC; Done (negb b));
       if (illegal : bool) then Throw ClassFormatError else Done tt
     else _ ← legal_method_signature P name signature; Done tt);;
    if tag =? JVM_CONSTANT_Methodref then
      b ← (if zlen name =? 0 then Done false else first_byte_is name 60);
      if (b : bool) && negb (symbol_eq name object_initializer_name) then Throw ClassFormatError else Done tt
    else Done tt.

(** The name of the method of a method handle. *)
Definition check_handle_name (cp : ConstantPool) (ref_kind ref_index : Z) : outcome () :=
  if (ref_kind =? JVM_REF_invokeVirtual) || (ref_kind =? JVM_REF_invokeStatic) || (ref_kind =? JVM_REF_invokeSpecial) ||
     (ref_kind =? JVM_REF_newInvokeSpecial)
  then
    name_and_type_ref_index ← name_and_type_ref_index_at cp ref_index;
    name_ref_index ← name_ref_index_at cp name_and_type_ref_index;
    name ← symbol_at cp name_ref_index;
    if ref_kind =? JVM_REF_newInvokeSpecial then guarantee_property (symbol_eq name object_initializer_name)
    else guarantee_property (negb (symbol_eq name object_initializer_name))
  else Done tt.

(** [vmSymbols::type_name()]: type *)
Definition type_name : list Z := [116; 121; 112; 101].

Definition check_format (P : Parser) (cp : ConstantPool) (index : Z) : outcome () :=
  tag ← tag_at cp index;
  if tag =? JVM_CONSTANT_UnresolvedClass then
    class_name ← unresolved_klass_at cp index; legal_class_name P class_name
  else if tag =? JVM_CONSTANT_NameAndType then
    if need_verify P && (JAVA_7_VERSION <=? major_version P) then
      sig_index ← signature_ref_index_at cp index;
      name_index ← name_ref_index_at cp index;
      name ← symbol_at cp name_index;
      sig ← symbol_at cp sig_index;
      guarantee_property (negb (zlen sig =? 0));;
      b ← first_byte_is sig JVM_SIGNATURE_FUNC;
      if (b : bool) then _ ← legal_method_signature P name sig; Done tt else legal_field_signature P sig
    else Done tt
  else if (tag =? JVM_CONSTANT_InvokeDynamic) || (tag =? JVM_CONSTANT_Fieldref) || (tag =? JVM_CONSTANT_Methodref) ||
          (tag =? JVM_CONSTANT_InterfaceMethodref) then
    name_and_type_ref_index ← name_and_type_ref_index_at cp index;
    name_ref_index ← name_ref_index_at cp name_and_type_ref_index;
    signature_ref_index ← signature_ref_index_at cp name_and_type_ref_index;
    name ← symbol_at cp name_ref_index;
    signature ← symbol_at cp signature_ref_index;
    check_member P tag name signature
  else if tag =? JVM_CONSTANT_MethodHandle then
    ref_index ← method_handle_index_at cp index;
    ref_kind ← method_handle_ref_kind_at cp index;
    check_handle_name cp ref_kind ref_index
  else if tag =? JVM_CONSTANT_MethodType then
    signature ← method_type_signature_at cp index;
    _ ← legal_method_signature P type_name signature; Done tt
  else Done tt.

Fixpoint check_format_loop (fuel : nat) (P : Parser) (cp : ConstantPool) (length index : Z) : outcome () :=
  if index <? length then
    match fuel with
    | O => Stuck
    | S fuel => check_format P cp index;; check_format_loop fuel P cp length (index + 1)
    end
  else Done tt.

Definition parse_constant_pool (P : Parser) (st : State) : outcome State :=
  guarantee_more 3 (cfs st);;
  '(length, s) ← get_u2_fast (cfs st);
  guarantee_property (1 <=? length);;
  st ← parse_constant_pool_entries P length (set_cp (set_cfs st s) (allocate length));
  c ← check_entries_loop (Z.to_nat length) P length 1 (cp st);
  st ← apply_patches length (set_cp st c);
  (if need_verify P then check_format_loop (Z.to_nat length) P (cp st) length 1 else Done tt);;
  Done st.
End Parser.
