(* ===== verification/ConstantPoolCorrect.v ===== *)
(** The parser of the constant pool accepts exactly the well-formed constant pools, and
    builds the pool that the bytes describe. *)

From S2P Require Import Prelude GlobalDefinitions Utf8 ClassFileStream FormatChecker FormatCheckerCorrect ConstantPool.

(** ** The constants of a class file *)

(** An entry of the pool as the class file has it.  [Hole] is the unused entry 0 and
    the second entry of a long or double. *)
Inductive cell :=
| Hole
| CUtf8 (s : list Z)
| CInteger (x : Z)
| CFloat (x : Z)
| CLong (x : Z)
| CDouble (x : Z)
| CClass (name_index : Z)
| CString (string_index : Z)
| CField (class_index name_and_type_index : Z)
| CMethod (class_index name_and_type_index : Z)
| CInterfaceMethod (class_index name_and_type_index : Z)
| CNameAndType (name_index signature_index : Z)
| CMethodHandle (ref_kind ref_index : Z)
| CMethodType (signature_index : Z)
| CInvokeDynamic (bootstrap_specifier_index name_and_type_index : Z).

(** A number in [n] bytes, the most significant one first. *)
Definition java_bytes (n : nat) (x : Z) : list Z := rev (native_bytes n x).

Definition encode (c : cell) : list Z :=
  match c with
  | Hole => []
  | CUtf8 s => JVM_CONSTANT_Utf8 :: java_bytes 2 (zlen s) ++ s
  | CInteger x => JVM_CONSTANT_Integer :: java_bytes 4 (u32 x)
  | CFloat x => JVM_CONSTANT_Float :: java_bytes 4 x
  | CLong x => JVM_CONSTANT_Long :: java_bytes 8 (u64 x)
  | CDouble x => JVM_CONSTANT_Double :: java_bytes 8 x
  | CClass i => JVM_CONSTANT_Class :: java_bytes 2 i
  | CString i => JVM_CONSTANT_String :: java_bytes 2 i
  | CField a b => JVM_CONSTANT_Fieldref :: java_bytes 2 a ++ java_bytes 2 b
  | CMethod a b => JVM_CONSTANT_Methodref :: java_bytes 2 a ++ java_bytes 2 b
  | CInterfaceMethod a b => JVM_CONSTANT_InterfaceMethodref :: java_bytes 2 a ++ java_bytes 2 b
  | CNameAndType a b => JVM_CONSTANT_NameAndType :: java_bytes 2 a ++ java_bytes 2 b
  | CMethodHandle k i => JVM_CONSTANT_MethodHandle :: k :: java_bytes 2 i
  | CMethodType i => JVM_CONSTANT_MethodType :: java_bytes 2 i
  | CInvokeDynamic a b => JVM_CONSTANT_InvokeDynamic :: java_bytes 2 a ++ java_bytes 2 b
  end.

(** The number of entries a constant takes, and the entries. *)
Definition layout (c : cell) : list cell :=
  match c with CLong _ | CDouble _ => [c; Hole] | _ => [c] end.
Definition cell_size (c : cell) : Z := zlen (layout c).

(** The tag and the slot of an entry before the names are resolved. *)
Definition raw_tag (c : cell) : Z :=
  match c with
  | Hole => JVM_CONSTANT_Invalid
  | CUtf8 _ => JVM_CONSTANT_Utf8
  | CInteger _ => JVM_CONSTANT_Integer
  | CFloat _ => JVM_CONSTANT_Float
  | CLong _ => JVM_CONSTANT_Long
  | CDouble _ => JVM_CONSTANT_Double
  | CClass _ => JVM_CONSTANT_ClassIndex
  | CString _ => JVM_CONSTANT_StringIndex
  | CField _ _ => JVM_CONSTANT_Fieldref
  | CMethod _ _ => JVM_CONSTANT_Methodref
  | CInterfaceMethod _ _ => JVM_CONSTANT_InterfaceMethodref
  | CNameAndType _ _ => JVM_CONSTANT_NameAndType
  | CMethodHandle _ _ => JVM_CONSTANT_MethodHandle
  | CMethodType _ => JVM_CONSTANT_MethodType
  | CInvokeDynamic _ _ => JVM_CONSTANT_InvokeDynamic
  end.

Definition raw_slot (c : cell) : slot :=
  match c with
  | Hole => SlotInt 0
  | CUtf8 s => SlotSymbol s
  | CInteger x | CFloat x | CLong x | CDouble x | CClass x | CString x | CMethodType x => SlotInt x
  | CField a b | CMethod a b | CInterfaceMethod a b | CNameAndType a b | CInvokeDynamic a b => two_shorts b a
  | CMethodHandle k i => two_shorts i k
  end.

Definition raw_pool (cells : list cell) : ConstantPool :=
  {| tags := raw_tag <$> cells; base := raw_slot <$> cells |}.

Section Cells.
Context (P : Parser) (EnableInvokeDynamic : bool).

(** Method handles, method types and invokedynamic are allowed. *)
Definition indy_ok : Prop := INVOKEDYNAMIC_MAJOR_VERSION <= major_version P /\ EnableInvokeDynamic = true.

(** A constant in the range of its fields. *)
Definition cell_ok (c : cell) : Prop :=
  match c with
  | Hole => False
  | CUtf8 s => legal_utf8 P s /\ zlen s < 2 ^ 16
  | CInteger x => in_s 32 x
  | CFloat x => in_u 32 x
  | CLong x => in_s 64 x
  | CDouble x => in_u 64 x
  | CClass i | CString i => in_u 16 i
  | CField a b | CMethod a b | CInterfaceMethod a b | CNameAndType a b => in_u 16 a /\ in_u 16 b
  | CMethodHandle k i => indy_ok /\ in_u 8 k /\ in_u 16 i
  | CMethodType i => indy_ok /\ in_u 16 i
  | CInvokeDynamic a b => indy_ok /\ in_u 16 a /\ in_u 16 b
  end.
End Cells.

(** ** Bytes *)

Lemma java_bytes_length (n : nat) (x : Z) : length (java_bytes n x) = n.
Proof. unfold java_bytes. rewrite length_rev. revert x. induction n as [|n IH]; intros x; [done|]. cbn. by rewrite IH. Qed.

Lemma java_value_bytes (n : nat) (x : Z) : 0 <= x < 256 ^ Z.of_nat n -> java_value (java_bytes n x) = x.
Proof.
  intros Hx. unfold java_bytes. rewrite <- native_value_rev, rev_involutive. revert x Hx.
  induction n as [|n IH]; intros x Hx; cbn [native_bytes native_value]; [cbn in Hx; lia|].
  rewrite Nat2Z.inj_succ, Z.pow_succ_r in Hx by lia.
  rewrite IH by (split; [apply Z.div_pos; lia|apply Z.div_lt_upper_bound; lia]).
  pose proof (Z.div_mod x 256). lia.
Qed.

Lemma java_bytes_value (n : nat) (l : list Z) :
  length l = n -> Forall (fun b => in_u 8 b) l -> java_bytes n (java_value l) = l.
Proof.
  intros <- Hl. unfold java_bytes. rewrite <- native_value_rev, <- (length_rev l), native_bytes_value, rev_involutive;
    [done|]. by apply Forall_rev.
Qed.

(** Reads of the bytes ahead. *)
Definition rest_of (s : ClassFileStream) : list Z := drop (Z.to_nat (current s)) (buffer s).

Lemma rest_length (s : ClassFileStream) : stream_ok s -> zlen (rest_of s) = remaining s.
Proof. intros [_ Hc _ _]. unfold rest_of, remaining. rewrite length_drop. lia. Qed.

Lemma rest_bytes (s : ClassFileStream) : stream_ok s -> Forall (fun b => in_u 8 b) (rest_of s).
Proof. intros [_ _ _ Hb]. by apply Forall_drop. Qed.

(** The stream behind [n] more bytes. *)
Definition advance (n : Z) (s : ClassFileStream) : ClassFileStream := set_current s (current s + n).

Lemma advance_ok (s : ClassFileStream) (l r : list Z) :
  stream_ok s -> rest_of s = l ++ r -> stream_ok (advance (zlen l) s) /\ rest_of (advance (zlen l) s) = r.
Proof.
  intros Hs Hr. pose proof (rest_length s Hs) as Hl. rewrite Hr, length_app in Hl. unfold remaining in Hl.
  pose proof (ok_current s Hs). split; [apply set_current_ok; [done|lia]|].
  unfold rest_of, advance in *. cbn [set_current current buffer]. apply drop_app_Z; [lia|done].
Qed.

Lemma advance_advance (s : ClassFileStream) (a b : Z) : advance b (advance a s) = advance (a + b) s.
Proof. unfold advance, set_current. cbn. f_equal. lia. Qed.

Lemma guarantee_rest (s : ClassFileStream) (n : Z) :
  stream_ok s -> 0 <= n < 2 ^ 31 ->
  guarantee_more n s = if zlen (rest_of s) <? n then Throw TruncatedClassFile else Done tt.
Proof.
  intros Hs Hn. rewrite guarantee_more_eq by (done || lia). rewrite rest_length by done.
  destruct (Z.ltb_spec n 0); [lia|done].
Qed.

Lemma get_fast_rest (n : nat) (s : ClassFileStream) (l r : list Z) :
  stream_ok s -> rest_of s = l ++ r -> length l = n ->
  get_fast n s = Done (java_value l, advance (Z.of_nat n) s) /\ 0 <= java_value l < 256 ^ Z.of_nat n /\
  java_bytes n (java_value l) = l.
Proof.
  intros Hs Hr Hl. pose proof (rest_length s Hs) as Hrl. rewrite Hr, length_app in Hrl.
  destruct (get_fast_ok n s Hs ltac:(lia)) as (He & Hv & _). unfold ahead in He, Hv. fold (rest_of s) in He, Hv.
  rewrite Hr, Nat2Z.id, take_app_length' in He, Hv by done. repeat split; try done; try lia.
  apply java_bytes_value; [done|]. pose proof (rest_bytes s Hs) as Hb. rewrite Hr in Hb. by apply Forall_app in Hb as [? _].
Qed.

Lemma get_u1_rest (s : ClassFileStream) (b : Z) (r : list Z) :
  stream_ok s -> rest_of s = b :: r -> get_u1_fast s = Done (b, advance 1 s) /\ in_u 8 b.
Proof.
  intros Hs Hr. pose proof (rest_length s Hs) as Hrl. rewrite Hr in Hrl. cbn [length] in Hrl. pose proof (rest_bytes s Hs) as Hb.
  rewrite get_u1_fast_eq by (done || lia). destruct (get_fast_rest 1 s [b] r Hs Hr eq_refl) as (-> & _ & _).
  rewrite Hr in Hb. apply Forall_inv in Hb. split; [|done]. cbn. do 2 f_equal.
Qed.

(** ** Reads that check for one byte more *)

Lemma split_rest (l : list Z) (n : nat) :
  Z.of_nat n < zlen l -> exists a r, l = a ++ r /\ length a = n /\ r <> [].
Proof.
  intros Hl. exists (take n l), (drop n l). split; [by rewrite take_drop|].
  split; [rewrite length_take; lia|]. intros Hn. apply (f_equal length) in Hn. rewrite length_drop in Hn. cbn in Hn. lia.
Qed.

Lemma read_number {A} (n : nat) (s : ClassFileStream) (k : Z -> ClassFileStream -> outcome A) :
  stream_ok s -> (n < 16)%nat ->
  let res := (guarantee_more (Z.of_nat n + 1) s;; '(x, s) ← get_fast n s; k x s) in
  (exists x r, rest_of s = java_bytes n x ++ r /\ r <> [] /\ 0 <= x < 256 ^ Z.of_nat n /\
    res = k x (advance (Z.of_nat n) s)) \/
  (res = Throw TruncatedClassFile /\ forall x r, rest_of s = java_bytes n x ++ r -> r = []).
Proof.
  intros Hs Hn. cbv zeta. rewrite guarantee_rest by (done || pow2_norm; lia).
  destruct (Z.ltb_spec (zlen (rest_of s)) (Z.of_nat n + 1)) as [Hlt|Hge].
  - right. split; [done|]. intros x r He. rewrite He, length_app, java_bytes_length in Hlt. destruct r; [done|cbn [length] in Hlt; lia].
  - left. destruct (split_rest (rest_of s) n ltac:(lia)) as (a & r & He & Ha & Hr).
    destruct (get_fast_rest n s a r Hs He Ha) as (Hg & Hv & Hb). exists (java_value a), r. rewrite Hb. cbn [mbind outcome_bind].
    by rewrite Hg.
Qed.

Lemma read_two {A} (s : ClassFileStream) (k : Z * Z * ClassFileStream -> outcome A) :
  stream_ok s ->
  let res := (get_two s ≫= k) in
  (exists a b r, rest_of s = java_bytes 2 a ++ java_bytes 2 b ++ r /\ r <> [] /\ in_u 16 a /\ in_u 16 b /\
    res = k (a, b, advance 4 s)) \/
  (res = Throw TruncatedClassFile /\ forall a b r, rest_of s = java_bytes 2 a ++ java_bytes 2 b ++ r -> r = []).
Proof.
  intros Hs. cbv zeta. unfold get_two. rewrite guarantee_rest by (done || pow2_norm; lia).
  destruct (Z.ltb_spec (zlen (rest_of s)) 5) as [Hlt|Hge].
  - right. split; [done|]. intros a b r He. rewrite He, !length_app, !java_bytes_length in Hlt. destruct r; [done|cbn [length] in Hlt; lia].
  - left. destruct (split_rest (rest_of s) 2 ltac:(lia)) as (a & l & He & Ha & Hl).
    destruct (get_fast_rest 2 s a l Hs He Ha) as (Hg & Hv & Hb). cbn [mbind outcome_bind]. unfold get_u2_fast. rewrite Hg.
    destruct (advance_ok s a l Hs He) as [Hs' Hr']. rewrite He, length_app in Hge.
    destruct (split_rest l 2 ltac:(lia)) as (b & r & -> & Hbl & Hr).
    rewrite Ha in Hs', Hr'. destruct (get_fast_rest 2 _ b r Hs' Hr' Hbl) as (Hg' & Hv' & Hb'). cbn [mbind outcome_bind].
    exists (java_value a), (java_value b), r. rewrite Hb, Hb', Hg'. cbn [mbind outcome_bind]. rewrite advance_advance. done.
Qed.

(** ** Storing an entry *)

(** The pool with one entry changed, and with the symbols of a batch. *)
Definition put (c : ConstantPool) (i tag : Z) (s : slot) : ConstantPool :=
  {| tags := <[Z.to_nat i := tag]> (tags c); base := <[Z.to_nat i := s]> (base c) |}.
Definition flush (c : ConstantPool) (names : list (Z * list Z)) : ConstantPool :=
  fold_left (fun c '(i, s) => put c i JVM_CONSTANT_Utf8 (SlotSymbol s)) names c.

(** A pool of a given size. *)
Definition sized (c : ConstantPool) (n : Z) : Prop := zlen (tags c) = n /\ zlen (base c) = n.

Lemma put_sized (c : ConstantPool) (n i tag : Z) (s : slot) : sized c n -> sized (put c i tag s) n.
Proof. unfold sized, put. cbn. by rewrite !length_insert. Qed.

Lemma flush_sized (names : list (Z * list Z)) (c : ConstantPool) (n : Z) : sized c n -> sized (flush c names) n.
Proof. revert c. induction names as [|[i s] names IH]; intros c Hc; [done|]. cbn. by apply IH, put_sized. Qed.

Lemma entry_at_put_eq (c : ConstantPool) (n i tag : Z) (s : slot) :
  sized c n -> 0 <= i < n -> entry_at_put c i tag s = Done (put c i tag s).
Proof.
  intros [Ht Hb] Hi. unfold entry_at_put, zset. rewrite !bool_decide_true by lia. done.
Qed.

Lemma put_comm (c : ConstantPool) (i j tag tag' : Z) (s s' : slot) :
  0 <= i -> 0 <= j -> i <> j -> put (put c i tag s) j tag' s' = put (put c j tag' s') i tag s.
Proof.
  intros Hi Hj Hij. unfold put. cbn. f_equal; apply list_insert_insert_ne; lia.
Qed.

(** The indices of a batch are below [n]. *)
Definition batch_ok (n : Z) (names : list (Z * list Z)) : Prop := Forall (fun p => 0 <= p.1 < n) names.

Lemma flush_put (names : list (Z * list Z)) (c : ConstantPool) (i tag : Z) (s : slot) :
  batch_ok i names -> flush (put c i tag s) names = put (flush c names) i tag s.
Proof.
  intros Hn. revert c. induction Hn as [|[j s'] names Hj _ IH]; intros c; [done|]. cbn in *.
  rewrite put_comm by lia. apply IH.
Qed.

Lemma new_symbols_eq (names : list (Z * list Z)) (c : ConstantPool) (n : Z) :
  sized c n -> batch_ok n names -> new_symbols c names = Done (flush c names).
Proof.
  intros Hc Hn. revert c Hc. induction Hn as [|[j s'] names Hj _ IH]; intros c Hc; [done|]. cbn [new_symbols flush fold_left].
  unfold symbol_at_put. rewrite (entry_at_put_eq c n) by done. cbn [mbind outcome_bind]. apply IH. by apply put_sized.
Qed.

Lemma batch_weaken (n m : Z) (names : list (Z * list Z)) : n <= m -> batch_ok n names -> batch_ok m names.
Proof. intros Hnm Hn. eapply list.Forall_impl; [exact Hn|]. cbn. lia. Qed.

Lemma raw_pool_put (cells : list cell) (i : nat) (c : cell) :
  put (raw_pool cells) (Z.of_nat i) (raw_tag c) (raw_slot c) = raw_pool (<[i := c]> cells).
Proof. unfold put, raw_pool. cbn. by rewrite Nat2Z.id, !list_fmap_insert. Qed.

(** ** One entry *)

Section Entry.
Context (P : Parser) (EnableInvokeDynamic : bool) (lookup_only : Z -> bool).
Context (Hverify : need_verify P = true).

Abbreviation ok := (cell_ok P EnableInvokeDynamic).

(** The bytes of a string of known length. *)
Lemma counted_inj (a l name r : list Z) :
  length a = 2%nat -> in_u 16 (zlen name) -> a ++ l = (java_bytes 2 (zlen name) ++ name) ++ r ->
  java_value a = zlen name /\ l = name ++ r.
Proof.
  intros Ha Hn He. rewrite <- app_assoc in He. apply app_inj_1 in He as [-> ->]; [|by rewrite Ha, java_bytes_length].
  by rewrite java_value_bytes.
Qed.

Lemma utf8_entry_ok (st : State) (index : Z) :
  cp_patches st = None -> stream_ok (cfs st) ->
  let res := utf8_entry EnableInvokeDynamic P st index in
  (exists name r, rest_of (cfs st) = (java_bytes 2 (zlen name) ++ name) ++ r /\ r <> [] /\ ok (CUtf8 name) /\
    res = Done (name, set_cfs st (advance (2 + zlen name) (cfs st)))) \/
  ((exists e, res = Throw e) /\
   forall name r, rest_of (cfs st) = (java_bytes 2 (zlen name) ++ name) ++ r -> r <> [] -> ~ ok (CUtf8 name)).
Proof.
  intros Hpa Hs. cbv zeta. unfold utf8_entry. set (s := cfs st) in *. rewrite guarantee_rest by (done || pow2_norm; lia).
  destruct (Z.ltb_spec (zlen (rest_of s)) 2) as [Hlt|Hge].
  { right. split; [by eexists|]. intros name r He Hr _. rewrite He, !length_app, java_bytes_length in Hlt. lia. }
  assert (exists a l, rest_of s = a ++ l /\ length a = 2%nat) as (a & l & He & Ha).
  { exists (take 2 (rest_of s)), (drop 2 (rest_of s)). rewrite take_drop, length_take. split; [done|lia]. }
  destruct (get_fast_rest 2 s a l Hs He Ha) as (Hg & Hv & Hb). destruct (advance_ok s a l Hs He) as [Hs1 Hl].
  rewrite Ha in Hs1, Hl. unfold get_u2_fast. cbn [mbind outcome_bind]. rewrite Hg. cbn [mbind outcome_bind].
  change (256 ^ Z.of_nat 2) with 65536 in Hv. change (Z.of_nat 2) with 2 in *. set (n := java_value a) in *.
  rewrite guarantee_rest, Hl by (done || pow2_norm; lia). destruct (Z.ltb_spec (zlen l) (n + 1)) as [Hlt|Hge2].
  { right. split; [by eexists|]. intros name r Hr Hne [_ Hk]. rewrite He in Hr.
    destruct (counted_inj a l name r Ha ltac:(lia) Hr) as [Hn ->]. fold n in Hn. rewrite length_app in Hlt.
    destruct r; [done|cbn [length] in Hlt; lia]. }
  destruct (split_rest l (Z.to_nat n) ltac:(lia)) as (name & r & -> & Hname & Hr).
  assert (Hgb : get_bytes (Z.to_nat n) (buffer (advance 2 s)) (current (advance 2 s)) = Some name).
  { pose proof (ok_current _ Hs1). pose proof (rest_length _ Hs1) as Hrl. rewrite Hl, length_app in Hrl. unfold remaining in Hrl.
    rewrite get_bytes_some by lia. fold (rest_of (advance 2 s)). rewrite Hl. by rewrite take_app_length'. }
  cbn [mbind outcome_bind defined]. rewrite Hgb, Hverify. cbn [mbind outcome_bind defined].
  assert (Hn : zlen name = n) by lia.
  assert (Hbn : Forall (fun b => in_u 8 b) name).
  { pose proof (rest_bytes _ Hs1) as Hbl. rewrite Hl in Hbl. by apply Forall_app in Hbl as [? _]. }
  pose proof (verify_legal_utf8_ok P name Hbn) as Hc. rewrite Hn in Hc. destruct Hc as [[-> Hleg]|[-> Hleg]]; cbn [mbind outcome_bind].
  - left. exists name, r. rewrite Hn. split; [by rewrite Hb, <- app_assoc|]. split; [done|]. split; [by split; [|pow2_norm; lia]|].
    unfold has_cp_patch_at, cp_patch_at. cbn [set_cfs cp_patches]. rewrite Hpa. cbn [mbind option_bind].
    rewrite bool_decide_false, andb_false_r by (by intros [? ?]). unfold skip_u1_fast. fold (advance n (advance 2 s)).
    by rewrite advance_advance.
  - right. split; [by eexists|]. intros name' r' Hr' Hne [Hleg' Hk]. rewrite He in Hr'.
    destruct (counted_inj a (name ++ r) name' r' Ha ltac:(lia) Hr') as [Hn' He']. fold n in Hn'.
    apply app_inj_1 in He' as [<- _]; [done|lia].
Qed.

(** The largest bootstrap specifier seen. *)
Definition bootstrap_max (m : Z) (c : cell) : Z := match c with CInvokeDynamic a _ => Z.max m a | _ => m end.

(** The entry has been read, and stored or added to the batch. *)
Definition entry_done (length : Z) (st : State) (names : list (Z * list Z)) (index : Z) (c : cell)
    (res : outcome (Z * State * list (Z * list Z))) : Prop :=
  exists st' names', res = Done (index + cell_size c - 1, st', names') /\
    cfs st' = advance (zlen (encode c)) (cfs st) /\ cp_patches st' = None /\
    max_bootstrap_specifier_index st' = bootstrap_max (max_bootstrap_specifier_index st) c /\
    sized (cp st') length /\ batch_ok (index + 1) names' /\
    flush (cp st') names' = put (flush (cp st) names) index (raw_tag c) (raw_slot c).

(** The result for the entry at the beginning of [l]. *)
Definition entry_result (length : Z) (st : State) (names : list (Z * list Z)) (index : Z) (l : list Z)
    (res : outcome (Z * State * list (Z * list Z))) : Prop :=
  (exists c r, l = encode c ++ r /\ r <> [] /\ ok c /\ index + cell_size c <= length /\ entry_done length st names index c res) \/
  ((exists e, res = Throw e) /\
   forall c r, l = encode c ++ r -> r <> [] -> ok c -> index + cell_size c <= length -> False).

Context (len : Z) (st : State) (names : list (Z * list Z)) (index : Z).
Context (Hpatches : cp_patches st = None) (Hstream : stream_ok (cfs st)) (Hsized : sized (cp st) len).
Context (Hbatch : batch_ok index names) (Hindex : 0 <= index < len).

Lemma stored_ok (c : cell) (last : Z) (s1 s' : ClassFileStream) :
  bootstrap_max (max_bootstrap_specifier_index st) c = max_bootstrap_specifier_index st ->
  s' = advance (zlen (encode c)) (cfs st) -> last = index + cell_size c - 1 ->
  entry_done len st names index c
    (c' ← entry_at_put (cp st) index (raw_tag c) (raw_slot c);
     Done (last, set_cp (set_cfs (set_cfs st s1) s') c', names)).
Proof using Hpatches Hsized Hbatch Hindex.
  intros Hm -> ->. rewrite (entry_at_put_eq _ len) by done. cbn [mbind outcome_bind]. eexists _, _. split; [done|].
  cbn [set_cp set_cfs cfs cp cp_patches max_bootstrap_specifier_index]. split; [done|]. split; [done|]. split; [done|].
  split; [by apply put_sized|]. split; [by apply (batch_weaken index); [lia|]|]. by apply flush_put.
Qed.

(** An entry that is one number. *)
Lemma number_entry (n : nat) (s : ClassFileStream) (l : list Z) (tag : Z) (mk : Z -> cell)
    (res : outcome (Z * State * list (Z * list Z))) (k : Z -> ClassFileStream -> outcome (Z * State * list (Z * list Z))) :
  (n < 16)%nat -> rest_of (cfs st) = tag :: l -> s = advance 1 (cfs st) ->
  res = (guarantee_more (Z.of_nat n + 1) s;; '(x, s) ← get_fast n s; k x s) ->
  (forall x, 0 <= x < 256 ^ Z.of_nat n -> encode (mk x) = tag :: java_bytes n x /\ ok (mk x) /\
     index + cell_size (mk x) <= len /\ entry_done len st names index (mk x) (k x (advance (Z.of_nat n) s))) ->
  (forall c r, encode c ++ r = tag :: l -> ok c -> exists x, encode c = tag :: java_bytes n x) ->
  entry_result len st names index (tag :: l) res.
Proof using Hstream.
  intros Hn Hr -> -> Hmk Hno. destruct (advance_ok (cfs st) [tag] l Hstream Hr) as [Hs1 Hl].
  destruct (read_number n (advance 1 (cfs st)) k Hs1 Hn) as [(x & r & He & Hne & Hx & ->)|[-> Hno']];
    change (zlen [tag]) with 1 in *; rewrite Hl in *.
  - left. destruct (Hmk x Hx) as (Henc & Hok & Hsz & Hd). exists (mk x), r. rewrite Henc, He. done.
  - right. split; [by eexists|]. intros c r He Hne Hok _. destruct (Hno c r) as [x Hx]; [done|done|].
    rewrite Hx in He. injection He as He. by apply Hne, (Hno' x).
Qed.

(** An entry of two indices. *)
Lemma pair_entry (s : ClassFileStream) (l : list Z) (tag : Z) (mk : Z -> Z -> cell)
    (res : outcome (Z * State * list (Z * list Z))) (k : Z * Z * ClassFileStream -> outcome (Z * State * list (Z * list Z))) :
  rest_of (cfs st) = tag :: l -> s = advance 1 (cfs st) -> res = (get_two s ≫= k) ->
  (forall a b, in_u 16 a -> in_u 16 b -> encode (mk a b) = tag :: java_bytes 2 a ++ java_bytes 2 b /\ ok (mk a b) /\
     index + cell_size (mk a b) <= len /\ entry_done len st names index (mk a b) (k (a, b, advance 4 s))) ->
  (forall c r, encode c ++ r = tag :: l -> ok c -> exists a b, encode c = tag :: java_bytes 2 a ++ java_bytes 2 b) ->
  entry_result len st names index (tag :: l) res.
Proof using Hstream.
  intros Hr -> -> Hmk Hno. destruct (advance_ok (cfs st) [tag] l Hstream Hr) as [Hs1 Hl].
  destruct (read_two (advance 1 (cfs st)) k Hs1) as [(a & b & r & He & Hne & Ha & Hb & ->)|[-> Hno']];
    change (zlen [tag]) with 1 in *; rewrite Hl in *.
  - left. destruct (Hmk a b Ha Hb) as (Henc & Hok & Hsz & Hd). exists (mk a b), r. rewrite Henc, He. cbn [app]. by rewrite app_assoc.
  - right. split; [by eexists|]. intros c r He Hne Hok _. destruct (Hno c r) as (a & b & Hx); [done|done|].
    rewrite Hx in He. apply (f_equal (drop 1)) in He. cbn [drop app] in He. rewrite <- app_assoc in He. by apply Hne, (Hno' a b).
Qed.

Lemma encode_length (c : cell) : ok c ->
  zlen (encode c) =
  match c with
  | Hole => 0
  | CUtf8 s => 3 + zlen s
  | CInteger _ | CFloat _ | CField _ _ | CMethod _ _ | CInterfaceMethod _ _ | CNameAndType _ _ | CInvokeDynamic _ _ => 5
  | CLong _ | CDouble _ => 9
  | CClass _ | CString _ | CMethodType _ => 3
  | CMethodHandle _ _ => 4
  end.
Proof using.
  intros _. destruct c; cbn [encode length]; rewrite ?length_app, ?java_bytes_length; cbn [length]; lia.
Qed.

(** The constants with a given tag. *)
Ltac by_tag :=
  intros [] ? Htag Hok; cbn [encode app] in Htag; try discriminate Htag; try (by destruct Hok); by repeat eexists.

Ltac size := unfold cell_size; cbn [layout length]; lia.

Ltac stored := apply stored_ok; [done|cbn [encode length]; rewrite ?length_app, ?java_bytes_length, ?advance_advance; done|size].

Abbreviation parse := (parse_entry EnableInvokeDynamic lookup_only P len index st names).

(** Long and double need a second entry. *)
Lemma wide_entry (tag : Z) (l : list Z) (k : outcome (Z * State * list (Z * list Z))) :
  (forall c r, encode c ++ r = tag :: l -> ok c -> cell_size c = 2) ->
  (index + 1 < len -> entry_result len st names index (tag :: l) k) ->
  entry_result len st names index (tag :: l) (guarantee_property (index + 1 <? len);; k).
Proof using.
  intros Hsz Hk. destruct (Z.ltb_spec (index + 1) len); cbn [guarantee_property mbind outcome_bind]; [by apply Hk|].
  right. split; [by eexists|]. intros c r He _ Hok Hle. rewrite (Hsz c r) in Hle by done. lia.
Qed.

(** The constants of JSR 292. *)
Lemma indy_entry (tag : Z) (l : list Z) (k : outcome (Z * State * list (Z * list Z))) :
  (forall c r, encode c ++ r = tag :: l -> ok c -> indy_ok P EnableInvokeDynamic) ->
  (indy_ok P EnableInvokeDynamic -> entry_result len st names index (tag :: l) k) ->
  entry_result len st names index (tag :: l) (check_indy EnableInvokeDynamic P;; k).
Proof using.
  intros Hc Hk. unfold check_indy. unfold indy_ok in *.
  destruct (Z.ltb_spec (major_version P) INVOKEDYNAMIC_MAJOR_VERSION); [|destruct (negb EnableInvokeDynamic) eqn:HE].
  3:{ apply negb_false_iff in HE. by apply Hk. }
  all: right; split; [by eexists|]; intros c r He _ Hok _; destruct (Hc c r) as [? HE']; [congruence|done|].
  - lia.
  - by rewrite HE' in HE.
Qed.

(** The entry begins with a tag. *)
Context (tag : Z) (l : list Z) (Hrest : rest_of (cfs st) = tag :: l).

Ltac tag_known :=
  unfold parse_entry; rewrite (proj1 (get_u1_rest (cfs st) tag l Hstream Hrest)); cbn [mbind outcome_bind]; subst tag;
  cbn [Z.eqb Pos.eqb JVM_CONSTANT_Class JVM_CONSTANT_String JVM_CONSTANT_Integer JVM_CONSTANT_Float JVM_CONSTANT_Long
    JVM_CONSTANT_Double JVM_CONSTANT_Fieldref JVM_CONSTANT_Methodref JVM_CONSTANT_InterfaceMethodref JVM_CONSTANT_NameAndType
    JVM_CONSTANT_MethodHandle JVM_CONSTANT_MethodType JVM_CONSTANT_InvokeDynamic JVM_CONSTANT_Utf8].

Ltac one_number n mk :=
  apply (number_entry n (advance 1 (cfs st)) l _ mk _ _ ltac:(lia) Hrest eq_refl eq_refl); [|by_tag].

Lemma class_entry : tag = JVM_CONSTANT_Class -> entry_result len st names index (tag :: l) parse.
Proof using All.
  intros Ht. tag_known. one_number 2%nat CClass. intros x Hx. repeat split; [lia|pow2_norm; lia|size|stored].
Qed.

Lemma string_entry : tag = JVM_CONSTANT_String -> entry_result len st names index (tag :: l) parse.
Proof using All.
  intros Ht. tag_known. one_number 2%nat CString. intros x Hx. repeat split; [lia|pow2_norm; lia|size|stored].
Qed.

Lemma integer_entry : tag = JVM_CONSTANT_Integer -> entry_result len st names index (tag :: l) parse.
Proof using All.
  intros Ht. tag_known. one_number 4%nat (fun x => CInteger (s32 x)). intros x Hx.
  split; [cbn [encode]; by rewrite umod_smod, umod_id|]. split; [by apply smod_range|]. split; [size|stored].
Qed.

Lemma float_entry : tag = JVM_CONSTANT_Float -> entry_result len st names index (tag :: l) parse.
Proof using All.
  intros Ht. tag_known. one_number 4%nat CFloat. intros x Hx. repeat split; [lia|pow2_norm; lia|size|stored].
Qed.

Ltac wide_size := intros [] ? Htag Hok; cbn [encode app] in Htag; try discriminate Htag; by try destruct Hok.

Lemma long_entry : tag = JVM_CONSTANT_Long -> entry_result len st names index (tag :: l) parse.
Proof using All.
  intros Ht. tag_known. apply wide_entry; [wide_size|]. intros Hi. one_number 8%nat (fun x => CLong (s64 x)). intros x Hx.
  split; [cbn [encode]; by rewrite umod_smod, umod_id|]. split; [by apply smod_range|]. split; [size|stored].
Qed.

Lemma double_entry : tag = JVM_CONSTANT_Double -> entry_result len st names index (tag :: l) parse.
Proof using All.
  intros Ht. tag_known. apply wide_entry; [wide_size|]. intros Hi. one_number 8%nat CDouble. intros x Hx.
  repeat split; [lia|pow2_norm; lia|size|stored].
Qed.

Ltac two_indices mk :=
  apply (pair_entry (advance 1 (cfs st)) l _ mk _ _ Hrest eq_refl eq_refl); [|by_tag].

Lemma field_entry : tag = JVM_CONSTANT_Fieldref -> entry_result len st names index (tag :: l) parse.
Proof using All. intros Ht. tag_known. two_indices CField. intros a b Ha Hb. repeat split; try lia; [size|stored]. Qed.

Lemma method_entry : tag = JVM_CONSTANT_Methodref -> entry_result len st names index (tag :: l) parse.
Proof using All. intros Ht. tag_known. two_indices CMethod. intros a b Ha Hb. repeat split; try lia; [size|stored]. Qed.

Lemma interface_entry : tag = JVM_CONSTANT_InterfaceMethodref -> entry_result len st names index (tag :: l) parse.
Proof using All. intros Ht. tag_known. two_indices CInterfaceMethod. intros a b Ha Hb. repeat split; try lia; [size|stored]. Qed.

Lemma name_and_type_entry : tag = JVM_CONSTANT_NameAndType -> entry_result len st names index (tag :: l) parse.
Proof using All. intros Ht. tag_known. two_indices CNameAndType. intros a b Ha Hb. repeat split; try lia; [size|stored]. Qed.

Ltac indy := intros [] ? Htag Hok; cbn [encode app] in Htag; try discriminate Htag; try (by destruct Hok).

Lemma method_type_entry : tag = JVM_CONSTANT_MethodType -> entry_result len st names index (tag :: l) parse.
Proof using All.
  intros Ht. tag_known. apply indy_entry; [indy|]. intros Hi. one_number 2%nat CMethodType. intros x Hx.
  repeat split; [apply Hi|apply Hi|lia|pow2_norm; lia|size|stored].
Qed.

Lemma invoke_dynamic_entry : tag = JVM_CONSTANT_InvokeDynamic -> entry_result len st names index (tag :: l) parse.
Proof using All.
  intros Ht. tag_known. apply indy_entry; [indy|]. intros Hi. two_indices CInvokeDynamic. intros a b Ha Hb.
  repeat split; try lia; [apply Hi|apply Hi|size|]. unfold invoke_dynamic_at_put. cbn [set_cfs cp].
  rewrite (entry_at_put_eq _ len) by done. cbn [mbind outcome_bind]. eexists _, _. split; [do 3 f_equal; size|].
  cbn [set_cp set_cfs cfs cp cp_patches max_bootstrap_specifier_index bootstrap_max].
  split; [cbn [encode length]; by rewrite length_app, !java_bytes_length, advance_advance|].
  split; [by destruct (_ <? _)|]. split; [destruct (Z.ltb_spec (max_bootstrap_specifier_index st) a); cbn; lia|].
  split; [by apply put_sized|]. split; [by apply (batch_weaken index); [lia|]|]. by apply flush_put.
Qed.

Lemma method_handle_entry : tag = JVM_CONSTANT_MethodHandle -> entry_result len st names index (tag :: l) parse.
Proof using All.
  intros Ht. tag_known. apply indy_entry; [indy|]. intros Hi.
  destruct (advance_ok (cfs st) [JVM_CONSTANT_MethodHandle] l Hstream Hrest) as [Hs1 Hl]. change (zlen [_]) with 1 in *.
  rewrite guarantee_rest, Hl by (done || pow2_norm; lia).
  destruct (Z.ltb_spec (zlen l) 4) as [Hlt|Hge]; cbn [mbind outcome_bind].
  { right. split; [by eexists|]. intros c r He Hne Hok _. destruct c; cbn [encode app] in He; try discriminate He; try (by destruct Hok).
    apply (f_equal (fun l => zlen l)) in He. cbn [length] in He. rewrite !length_app, java_bytes_length in He.
    destruct r; [done|cbn [length] in He; lia]. }
  destruct l as [|kind l']; [cbn [length] in Hge; lia|]. destruct (get_u1_rest _ kind l' Hs1 Hl) as [-> Hk].
  destruct (advance_ok (advance 1 (cfs st)) [kind] l' Hs1 Hl) as [Hs2 Hl2]. change (zlen [_]) with 1 in *. cbn [mbind outcome_bind length] in *.
  destruct (split_rest l' 2 ltac:(lia)) as (a & r & -> & Ha & Hr). destruct (get_fast_rest 2 _ a r Hs2 Hl2 Ha) as (Hg & Hv & Hb).
  unfold get_u2_fast. rewrite Hg. cbn [mbind outcome_bind]. left. exists (CMethodHandle kind (java_value a)), r.
  cbn [encode]. rewrite Hb. split; [done|]. split; [done|]. split; [done|]. split; [size|]. stored.
Qed.

(** A symbol goes into the pool, into the batch, or into the pool with the full batch. *)
Lemma symbol_done (name : list Z) (st1 : State) :
  cp st1 = cp st -> cp_patches st1 = None -> cfs st1 = advance (zlen (encode (CUtf8 name))) (cfs st) ->
  max_bootstrap_specifier_index st1 = max_bootstrap_specifier_index st ->
  entry_done len st names index (CUtf8 name)
    (if lookup_only index then
       c ← symbol_at_put (cp st1) index name; Done (index, set_cp st1 c, names)
     else
       let names := names ++ [(index, name)] in
       if zlen names =? symbol_alloc_batch_size then
         c ← new_symbols (cp st1) names; Done (index, set_cp st1 c, [])
       else Done (index, st1, names)).
Proof using Hsized Hbatch Hindex.
  intros Hcp Hpa Hcfs Hmax. unfold entry_done. replace (index + cell_size (CUtf8 name) - 1) with index by size.
  assert (Hb : batch_ok (index + 1) (names ++ [(index, name)])).
  { apply Forall_app. split; [by apply (batch_weaken index); [lia|]|]. repeat constructor; cbn; lia. }
  assert (Hf : flush (cp st) (names ++ [(index, name)]) = put (flush (cp st) names) index JVM_CONSTANT_Utf8 (SlotSymbol name))
    by (unfold flush; by rewrite fold_left_app).
  unfold symbol_at_put. rewrite Hcp, (entry_at_put_eq _ len) by done. cbn [mbind outcome_bind].
  destruct (lookup_only index); [|cbv zeta; destruct (_ =? symbol_alloc_batch_size)].
  - eexists _, _. split; [done|]. cbn [set_cp cfs cp cp_patches max_bootstrap_specifier_index bootstrap_max].
    repeat split; try done; [by apply put_sized..|by apply (batch_weaken index); [lia|]|]. by apply flush_put.
  - rewrite (new_symbols_eq _ _ len) by (done || by apply (batch_weaken (index + 1)); [lia|]). cbn [mbind outcome_bind].
    eexists _, _. split; [done|]. cbn [set_cp cfs cp cp_patches max_bootstrap_specifier_index bootstrap_max].
    repeat split; try done; [by apply flush_sized..|constructor].
  - eexists _, _. split; [done|]. cbn [bootstrap_max]. rewrite Hcp. repeat split; try done; apply Hsized.
Qed.

Lemma utf8_entry_result : tag = JVM_CONSTANT_Utf8 -> entry_result len st names index (tag :: l) parse.
Proof using All.
  intros Ht. tag_known. destruct (advance_ok (cfs st) [JVM_CONSTANT_Utf8] l Hstream Hrest) as [Hs1 Hl]. change (zlen [_]) with 1 in *.
  destruct (utf8_entry_ok (set_cfs st (advance 1 (cfs st))) index Hpatches Hs1) as [(name & r & He & Hne & Hok & ->)|[[e ->] Hno]];
    cbn [set_cfs cfs] in *; rewrite Hl in *; cbn [mbind outcome_bind].
  - left. exists (CUtf8 name), r. split; [by rewrite He|]. split; [done|]. split; [done|]. split; [size|].
    apply symbol_done; try done. cbn [set_cfs cfs]. rewrite advance_advance, encode_length by done. f_equal. lia.
  - right. split; [by eexists|]. intros c r He Hne Hok _. destruct c; cbn [encode app] in He; try discriminate He; [done|].
    apply (f_equal (drop 1)) in He. cbn [drop] in He. by apply (Hno s r He).
Qed.

Lemma parse_entry_ok : entry_result len st names index (tag :: l) parse.
Proof using All.
  destruct (Z.eqb_spec tag JVM_CONSTANT_Class); [by apply class_entry|].
  destruct (Z.eqb_spec tag JVM_CONSTANT_Fieldref); [by apply field_entry|].
  destruct (Z.eqb_spec tag JVM_CONSTANT_Methodref); [by apply method_entry|].
  destruct (Z.eqb_spec tag JVM_CONSTANT_InterfaceMethodref); [by apply interface_entry|].
  destruct (Z.eqb_spec tag JVM_CONSTANT_String); [by apply string_entry|].
  destruct (Z.eqb_spec tag JVM_CONSTANT_MethodHandle); [by apply method_handle_entry|].
  destruct (Z.eqb_spec tag JVM_CONSTANT_MethodType); [by apply method_type_entry|].
  destruct (Z.eqb_spec tag JVM_CONSTANT_InvokeDynamic); [by apply invoke_dynamic_entry|].
  destruct (Z.eqb_spec tag JVM_CONSTANT_Integer); [by apply integer_entry|].
  destruct (Z.eqb_spec tag JVM_CONSTANT_Float); [by apply float_entry|].
  destruct (Z.eqb_spec tag JVM_CONSTANT_Long); [by apply long_entry|].
  destruct (Z.eqb_spec tag JVM_CONSTANT_Double); [by apply double_entry|].
  destruct (Z.eqb_spec tag JVM_CONSTANT_NameAndType); [by apply name_and_type_entry|].
  destruct (Z.eqb_spec tag JVM_CONSTANT_Utf8); [by apply utf8_entry_result|].
  right. split.
  - exists ClassFormatError. unfold parse_entry. rewrite (proj1 (get_u1_rest (cfs st) tag l Hstream Hrest)). cbn [mbind outcome_bind].
    by repeat match goal with |- context [tag =? ?k] => destruct (Z.eqb_spec tag k); [done|] end.
  - intros [] r He Hne Hok _; cbn [encode app] in He; try (by injection He); by destruct Hok.
Qed.
End Entry.

(** ** All entries *)

Lemma java_bytes_inj (n : nat) (x y : Z) :
  0 <= x < 256 ^ Z.of_nat n -> 0 <= y < 256 ^ Z.of_nat n -> java_bytes n x = java_bytes n y -> x = y.
Proof. intros Hx Hy He. by rewrite <- (java_value_bytes n x Hx), <- (java_value_bytes n y Hy), He. Qed.

Lemma java_bytes_app (n : nat) (x y : Z) (l l' : list Z) :
  0 <= x < 256 ^ Z.of_nat n -> 0 <= y < 256 ^ Z.of_nat n -> java_bytes n x ++ l = java_bytes n y ++ l' -> x = y /\ l = l'.
Proof.
  intros Hx Hy He. apply app_inj_1 in He as [He ->]; [|by rewrite !java_bytes_length]. by apply java_bytes_inj in He.
Qed.

Section Loop.
Context (P : Parser) (EnableInvokeDynamic : bool) (lookup_only : Z -> bool).
Context (Hverify : need_verify P = true).
Abbreviation ok := (cell_ok P EnableInvokeDynamic).

(** Two indices in their bytes. *)
Lemma index_inj (x y : Z) (l l' : list Z) :
  in_u 16 x -> in_u 16 y -> java_bytes 2 x ++ l = java_bytes 2 y ++ l' -> x = y /\ l = l'.
Proof. intros Hx Hy. by apply java_bytes_app. Qed.

Lemma encode_prefix (c c' : cell) (r r' : list Z) : ok c -> ok c' -> encode c ++ r = encode c' ++ r' -> c = c' /\ r = r'.
Proof using.
  intros Hc Hc' He.
  destruct c, c'; cbn [encode app] in He; try discriminate He; try (by destruct Hc); try (by destruct Hc');
    apply (f_equal (drop 1)) in He; cbn [drop] in He; rewrite <- ?app_assoc in He; cbn [cell_ok] in Hc, Hc'.
  - destruct Hc as [_ Hc], Hc' as [_ Hc']. apply java_bytes_app in He as [Hn He]; [|lia..]. apply app_inj_1 in He as [-> ->]; [done|lia].
  - apply java_bytes_app in He as [Hn ->]; [|apply umod_range; lia..]. split; [|done]. f_equal.
    by rewrite <- (smod_umod_id 32 x), <- (smod_umod_id 32 x0), Hn.
  - apply java_bytes_app in He as [-> ->]; [done|done|done].
  - apply java_bytes_app in He as [Hn ->]; [|apply umod_range; lia..]. split; [|done]. f_equal.
    by rewrite <- (smod_umod_id 64 x), <- (smod_umod_id 64 x0), Hn.
  - apply java_bytes_app in He as [-> ->]; [done|done|done].
  - by apply index_inj in He as [-> ->].
  - by apply index_inj in He as [-> ->].
  - destruct Hc, Hc'. apply index_inj in He as [-> He]; [|done|done]. by apply index_inj in He as [-> ->].
  - destruct Hc, Hc'. apply index_inj in He as [-> He]; [|done|done]. by apply index_inj in He as [-> ->].
  - destruct Hc, Hc'. apply index_inj in He as [-> He]; [|done|done]. by apply index_inj in He as [-> ->].
  - destruct Hc, Hc'. apply index_inj in He as [-> He]; [|done|done]. by apply index_inj in He as [-> ->].
  - destruct Hc as (_ & _ & Hc), Hc' as (_ & _ & Hc'). apply (app_inj_1 [ref_kind] [ref_kind0]) in He as [[= ->] He]; [|done].
    by apply index_inj in He as [-> ->].
  - destruct Hc as (_ & Hc), Hc' as (_ & Hc'). by apply index_inj in He as [-> ->].
  - destruct Hc as (_ & Hc1 & Hc2), Hc' as (_ & Hc1' & Hc2'). apply index_inj in He as [-> He]; [|done|done].
    by apply index_inj in He as [-> ->].
Qed.

Definition encodes (es : list cell) : list Z := mjoin (encode <$> es).
Definition layouts (es : list cell) : list cell := mjoin (layout <$> es).

Lemma encodes_cons (c : cell) (es : list cell) : encodes (c :: es) = encode c ++ encodes es.
Proof using. done. Qed.
Lemma layouts_cons (c : cell) (es : list cell) : layouts (c :: es) = layout c ++ layouts es.
Proof using. done. Qed.

Lemma cell_size_bounds (c : cell) : 1 <= cell_size c <= 2.
Proof using. unfold cell_size. destruct c; cbn [layout length]; lia. Qed.

Lemma insert_layout (pre : list cell) (k : nat) (c : cell) :
  cell_size c <= Z.of_nat k ->
  <[length pre := c]> (pre ++ replicate k Hole) = (pre ++ layout c) ++ replicate (k - length (layout c)) Hole.
Proof using.
  intros Hk. unfold cell_size in Hk. rewrite <- (Nat.add_0_r (length pre)), insert_app_r, <- app_assoc. f_equal.
  destruct c; destruct k as [|[|k]]; cbn [layout length] in Hk |- *; try lia; cbn [replicate insert list_insert app Nat.sub];
    by rewrite ?Nat.sub_0_r.
Qed.

(** The entries that begin at [l] fill the pool up to its length. *)
Definition loop_result (len : Z) (st : State) (pre : list cell) (l : list Z) (res : outcome State) : Prop :=
  let fills es r := l = encodes es ++ r /\ r <> [] /\ Forall ok es /\ zlen (pre ++ layouts es) = len in
  (exists es r, fills es r /\ exists st', res = Done st' /\
     cfs st' = advance (zlen (encodes es)) (cfs st) /\ cp st' = raw_pool (pre ++ layouts es) /\ cp_patches st' = None /\
     max_bootstrap_specifier_index st' = fold_left bootstrap_max es (max_bootstrap_specifier_index st)) \/
  ((exists e, res = Throw e) /\ forall es r, ~ fills es r).

Lemma loop_result_cons (len : Z) (st st1 : State) (pre : list cell) (c : cell) (l : list Z) (res : outcome State) :
  ok c -> cfs st1 = advance (zlen (encode c)) (cfs st) ->
  max_bootstrap_specifier_index st1 = bootstrap_max (max_bootstrap_specifier_index st) c ->
  zlen pre < len -> loop_result len st1 (pre ++ layout c) l res -> loop_result len st pre (encode c ++ l) res.
Proof using.
  intros Hc Hs Hm Hlen [(es & r & (-> & Hr & Hes & Hsz) & st' & -> & Hs' & Hcp & Hpa & Hm')|[He Hno]].
  - left. exists (c :: es), r. rewrite encodes_cons, layouts_cons, <- !app_assoc in *. split; [by repeat split; [..|constructor|]|].
    exists st'. split; [done|]. rewrite Hs', Hs, advance_advance, length_app, Nat2Z.inj_add. repeat split; try done. by rewrite Hm', Hm.
  - right. split; [done|]. intros [|c' es] r (He' & Hr & Hes & Hsz).
    + cbn [layouts fmap list_fmap mjoin list_join] in Hsz. rewrite app_nil_r in Hsz. lia.
    + apply list.Forall_cons in Hes as [Hc' Hes]. rewrite encodes_cons, <- app_assoc in He'.
      destruct (encode_prefix c c' l _ Hc Hc' He') as [<- ->]. apply (Hno es r). rewrite layouts_cons, app_assoc in Hsz. done.
Qed.

Lemma parse_entries_loop_ok (len : Z) (fuel : nat) (st : State) (names : list (Z * list Z)) (pre : list cell) :
  cp_patches st = None -> stream_ok (cfs st) -> rest_of (cfs st) <> [] -> sized (cp st) len ->
  batch_ok (zlen pre) names -> zlen pre <= len -> len - zlen pre <= Z.of_nat fuel ->
  flush (cp st) names = raw_pool (pre ++ replicate (Z.to_nat (len - zlen pre)) Hole) ->
  loop_result len st pre (rest_of (cfs st))
    (parse_entries_loop EnableInvokeDynamic lookup_only fuel P len (zlen pre) st names).
Proof using Hverify.
  revert st names pre. induction fuel as [|fuel IH]; intros st names pre Hpa Hs Hr Hsz Hb Hle Hf Hfl;
    cbn [parse_entries_loop]; (destruct (Z.ltb_spec (zlen pre) len) as [Hlt|Hge]; [try lia|]).
  1,3: rewrite (new_symbols_eq _ _ len) by (done || by apply (batch_weaken (zlen pre)));
    left; exists [], (rest_of (cfs st)); cbn [mbind outcome_bind]; rewrite Hfl;
    replace (Z.to_nat (len - zlen pre)) with 0%nat by lia; rewrite !app_nil_r;
    (split; [by repeat split; [..|constructor|lia]|]); eexists; (split; [done|]); cbn; unfold advance;
    by rewrite Z.add_0_r; destruct (cfs st).
  destruct (rest_of (cfs st)) as [|tag l] eqn:Hrest; [done|].
  destruct (parse_entry_ok P EnableInvokeDynamic lookup_only Hverify len st names (zlen pre) Hpa Hs Hsz Hb ltac:(lia) tag l Hrest)
    as [(c & r & He & Hne & Hok & Hfit & st1 & names1 & -> & Hs1 & Hpa1 & Hm1 & Hsz1 & Hb1 & Hfl1)|[[e ->] Hno]]; cbn [mbind outcome_bind].
  - rewrite He. apply (loop_result_cons len st st1); [done|done|done|lia|].
    pose proof (cell_size_bounds c) as Hcs. unfold cell_size in Hcs.
    destruct (advance_ok (cfs st) (encode c) r Hs ltac:(by rewrite Hrest)) as [Hs2 Hr2]. rewrite <- Hs1 in Hs2, Hr2. rewrite <- Hr2.
    replace (zlen pre + cell_size c - 1 + 1) with (zlen (pre ++ layout c)) by (rewrite length_app; unfold cell_size; lia).
    unfold cell_size in Hfit.
    apply IH; try done; rewrite ?Hr2; try done; rewrite ?length_app; try lia.
    + apply (batch_weaken (zlen pre + 1)); [lia|done].
    + rewrite Hfl1, Hfl, raw_pool_put, insert_layout by (unfold cell_size; lia). do 3 f_equal. lia.
  - right. split; [by eexists|]. intros [|c es] r (He & Hne & Hes & Hfill).
    + cbn [layouts fmap list_fmap mjoin list_join] in Hfill. rewrite app_nil_r in Hfill. lia.
    + apply list.Forall_cons in Hes as [Hc Hes]. rewrite encodes_cons, <- app_assoc in He.
      rewrite layouts_cons, !length_app in Hfill. apply (Hno c (encodes es ++ r) He); [|done|unfold cell_size; lia].
      intros Hn%app_nil. by destruct Hn.
Qed.
End Loop.

(** ** References *)

Lemma two_shorts_low (h l : Z) :
  in_u 16 h -> in_u 16 l -> extract_low_short_from_int (s32 (Z.lor (Z.shiftl h 16) l)) = l.
Proof.
  intros Hh Hl. unfold extract_low_short_from_int. change 0xffff with (Z.ones 16). rewrite Z.land_ones by lia.
  apply (bits_inj_w 16); [lia|by apply umod_range|done|]. intros i Hi. rewrite Z.mod_pow2_bits_low by lia.
  rewrite smod_testbit by lia. rewrite Z.min_l, Z.lor_spec, Z.shiftl_spec_low by lia. done.
Qed.

Lemma two_shorts_high (h l : Z) :
  in_u 16 h -> in_u 16 l -> extract_high_short_from_int (s32 (Z.lor (Z.shiftl h 16) l)) = h.
Proof.
  intros Hh Hl. unfold extract_high_short_from_int. change 0xffff with (Z.ones 16). rewrite Z.land_ones by lia.
  apply (bits_inj_w 16); [lia|by apply umod_range|done|]. intros i Hi. rewrite Z.mod_pow2_bits_low, Z.shiftr_spec by lia.
  rewrite smod_testbit by lia. rewrite Z.min_l, Z.lor_spec, Z.shiftl_spec by lia.
  rewrite (testbit_high 16 l) by lia. rewrite orb_false_r. f_equal. lia.
Qed.

(** The symbol at an index. *)
Definition symbol_of (cells : list cell) (i : Z) : list Z :=
  match zget cells i with Some (CUtf8 s) => s | _ => [] end.

(** The tag and the slot after the names are resolved. *)
Definition resolved_tag (c : cell) : Z :=
  match c with
  | CClass _ => JVM_CONSTANT_UnresolvedClass
  | CString _ => JVM_CONSTANT_String
  | _ => raw_tag c
  end.
Definition resolved_slot (cells : list cell) (c : cell) : slot :=
  match c with
  | CClass i => SlotUnresolved (symbol_of cells i)
  | CString i => SlotSymbol (symbol_of cells i)
  | _ => raw_slot c
  end.

(** The pool in which the entries below [k] are resolved. *)
Definition resolved_pool (cells : list cell) (k : Z) : ConstantPool :=
  {| tags := imap (fun j c => if Z.of_nat j <? k then resolved_tag c else raw_tag c) cells;
     base := imap (fun j c => if Z.of_nat j <? k then resolved_slot cells c else raw_slot c) cells |}.

Definition tag_of (k i : Z) (c : cell) : Z := if i <? k then resolved_tag c else raw_tag c.
Definition slot_of (cells : list cell) (k i : Z) (c : cell) : slot := if i <? k then resolved_slot cells c else raw_slot c.

Lemma resolved_length (cells : list cell) (k : Z) : sized (resolved_pool cells k) (zlen cells).
Proof. split; cbn; by rewrite length_imap. Qed.

Lemma resolved_start (cells : list cell) : raw_pool cells = resolved_pool cells 0.
Proof.
  unfold raw_pool, resolved_pool. f_equal; apply list_eq; intros j; rewrite list_lookup_fmap, list_lookup_imap;
    destruct (cells !! j); cbn; try done; by destruct (Z.ltb_spec (Z.of_nat j) 0); [lia|].
Qed.

Lemma resolved_tag_at (cells : list cell) (k i : Z) :
  zget (tags (resolved_pool cells k)) i = tag_of k i <$> zget cells i.
Proof.
  unfold zget. case_bool_decide; [|done]. cbn [tags resolved_pool]. rewrite list_lookup_imap. unfold tag_of.
  by rewrite Z2Nat.id.
Qed.

Lemma resolved_slot_at (cells : list cell) (k i : Z) :
  zget (base (resolved_pool cells k)) i = slot_of cells k i <$> zget cells i.
Proof.
  unfold zget. case_bool_decide; [|done]. cbn [base resolved_pool]. rewrite list_lookup_imap. unfold slot_of.
  by rewrite Z2Nat.id.
Qed.

(** Resolving one more entry. *)
Lemma resolve_put (cells : list cell) (k : Z) (c : cell) :
  zget cells k = Some c ->
  put (resolved_pool cells k) k (resolved_tag c) (resolved_slot cells c) = resolved_pool cells (k + 1).
Proof.
  intros Hc. pose proof (zget_Some_range _ _ _ Hc) as Hk. unfold zget in Hc. rewrite bool_decide_true in Hc by lia.
  unfold put, resolved_pool. cbn [tags base]. f_equal; apply list_eq; intros j;
    (destruct (decide (j = Z.to_nat k)) as [->|Hj];
     [rewrite list_lookup_insert_eq by (rewrite length_imap; lia); rewrite list_lookup_imap, Hc; cbn;
      by destruct (Z.ltb_spec (Z.of_nat (Z.to_nat k)) (k + 1)); [|lia]
     |rewrite list_lookup_insert_ne by done; rewrite !list_lookup_imap; destruct (cells !! j); [cbn|done]; f_equal;
      destruct (Z.ltb_spec (Z.of_nat j) k), (Z.ltb_spec (Z.of_nat j) (k + 1)); try lia; done]).
Qed.

Lemma resolve_same (cells : list cell) (k : Z) (c : cell) :
  zget cells k = Some c -> resolved_tag c = raw_tag c -> resolved_slot cells c = raw_slot c ->
  resolved_pool cells (k + 1) = resolved_pool cells k.
Proof.
  intros Hc Ht Hs. pose proof (zget_Some_range _ _ _ Hc) as Hk. unfold zget in Hc. rewrite bool_decide_true in Hc by lia.
  unfold resolved_pool. f_equal; apply list_eq; intros j; rewrite !list_lookup_imap; destruct (cells !! j) as [c'|] eqn:Hj; try done; cbn;
    f_equal; destruct (Z.ltb_spec (Z.of_nat j) k), (Z.ltb_spec (Z.of_nat j) (k + 1)); try lia; try done;
    assert (j = Z.to_nat k) as -> by lia; congruence.
Qed.

Definition is_utf8 (c : cell) : bool := match c with CUtf8 _ => true | _ => false end.
Definition is_class (c : cell) : bool := match c with CClass _ => true | _ => false end.
Definition is_name_and_type (c : cell) : bool := match c with CNameAndType _ _ => true | _ => false end.
Definition is_field (c : cell) : bool := match c with CField _ _ => true | _ => false end.
Definition is_method (c : cell) : bool := match c with CMethod _ _ => true | _ => false end.
Definition is_interface_method (c : cell) : bool := match c with CInterfaceMethod _ _ => true | _ => false end.

(** There is an entry of some kind at an index. *)
Definition has_cell (cells : list cell) (i : Z) (f : cell -> bool) : bool := from_option f false (zget cells i).

(** The member a method handle of some kind refers to. *)
Definition kind_ok (major ref_kind : Z) (c : cell) : bool :=
  if (1 <=? ref_kind) && (ref_kind <=? 4) then is_field c
  else if (ref_kind =? 5) || (ref_kind =? 8) then is_method c
  else if (ref_kind =? 6) || (ref_kind =? 7) then is_method c || ((52 <=? major) && is_interface_method c)
  else if ref_kind =? 9 then is_interface_method c
  else false.

(** The indices of a constant refer to constants of the right kinds. *)
Definition refs_ok (major : Z) (cells : list cell) (c : cell) : bool :=
  match c with
  | CClass i | CString i | CMethodType i => has_cell cells i is_utf8
  | CField a b | CMethod a b | CInterfaceMethod a b => has_cell cells a is_class && has_cell cells b is_name_and_type
  | CNameAndType a b => has_cell cells a is_utf8 && has_cell cells b is_utf8
  | CMethodHandle k i => has_cell cells i (kind_ok major k)
  | CInvokeDynamic _ b => has_cell cells b is_name_and_type
  | _ => true
  end.

(** The branch that a constant tag selects. *)
Ltac decide_tags :=
  repeat match goal with
  | |- context [if ?b then _ else _] =>
      let v := eval vm_compute in b in
      match v with true => change b with true | false => change b with false end; cbv iota
  end.

Section References.
Context (P : Parser) (EnableInvokeDynamic : bool) (Hverify : need_verify P = true).
Context (cells : list cell) (Hhole : cells !! 0%nat = Some Hole).

Abbreviation pool k := (resolved_pool cells k).

(** A test of tags that does not depend on whether the names are resolved. *)
Lemma tag_test_eq (k i : Z) (in_range : bool) (test : Z -> bool) (f : cell -> bool) :
  (forall c, test (resolved_tag c) = f c /\ test (raw_tag c) = f c) -> f Hole = false ->
  (in_range = true -> 0 <= i < zlen cells) -> (0 < i < zlen cells -> in_range = true) ->
  tag_test (pool k) in_range i test = Done (has_cell cells i f).
Proof using Hhole.
  intros Hf H0 Hin Hout. unfold tag_test, tag_at, has_cell. destruct in_range.
  - specialize (Hin eq_refl). rewrite resolved_tag_at. unfold zget. rewrite bool_decide_true by lia.
    destruct (lookup_lt_is_Some_2 cells (Z.to_nat i) ltac:(lia)) as [c Hc]. rewrite Hc. cbn. unfold tag_of.
    destruct (Hf c) as [H1 H2]. destruct (i <? k); by rewrite ?H1, ?H2.
  - destruct (zget cells i) as [c|] eqn:Hc; [|done]. cbn. pose proof (zget_Some_range _ _ _ Hc).
    destruct (Z.eq_dec i 0) as [->|]; [|by specialize (Hout ltac:(lia))].
    change (zget cells 0) with (cells !! 0%nat) in Hc. rewrite Hhole in Hc. injection Hc as <-. by rewrite H0.
Qed.

Lemma bounds_spec (k i : Z) : is_within_bounds (pool k) i = (0 <=? i) && (i <? zlen cells).
Proof using. unfold is_within_bounds, pool_length. by rewrite (proj1 (resolved_length cells k)). Qed.

Lemma valid_symbol_eq (k i : Z) : valid_symbol_at (pool k) i = Done (has_cell cells i is_utf8).
Proof using Hhole.
  unfold valid_symbol_at. apply tag_test_eq; [by intros []|done|rewrite bounds_spec; lia..].
Qed.

Lemma valid_klass_eq (k i : Z) :
  valid_klass_reference_at EnableInvokeDynamic (pool k) i = Done (has_cell cells i is_class).
Proof using Hhole.
  unfold valid_klass_reference_at. apply tag_test_eq; [|done|rewrite bounds_spec; lia..].
  by destruct EnableInvokeDynamic; intros [].
Qed.

Lemma valid_nt_eq (k i : Z) : valid_name_and_type_at (pool k) i (zlen cells) = Done (has_cell cells i is_name_and_type).
Proof using Hhole.
  unfold valid_name_and_type_at. apply tag_test_eq; [by intros []|done|unfold valid_cp_range; lia..].
Qed.

(** What is stored at an index. *)
Lemma int_at_eq (k i : Z) (c : cell) (x : Z) :
  zget cells i = Some c -> slot_of cells k i c = SlotInt x -> int_at_addr (pool k) i = Done x.
Proof using.
  intros Hc Hs. unfold int_at_addr, slot_at. rewrite resolved_slot_at, Hc. cbn. by rewrite Hs.
Qed.

Lemma symbol_at_eq (k i : Z) (s : list Z) : zget cells i = Some (CUtf8 s) -> symbol_at (pool k) i = Done s.
Proof using.
  intros Hc. unfold symbol_at, slot_at. rewrite resolved_slot_at, Hc. cbn. unfold slot_of. by destruct (i <? k).
Qed.

Lemma shorts_at_eq (k i h l : Z) (c : cell) :
  zget cells i = Some c -> raw_slot c = two_shorts h l -> resolved_slot cells c = two_shorts h l ->
  in_u 16 h -> in_u 16 l ->
  high_short_at (pool k) i = Done h /\ low_short_at (pool k) i = Done l.
Proof using.
  intros Hc Hr Hr' Hh Hl. unfold high_short_at, low_short_at.
  rewrite (int_at_eq k i c (s32 (Z.lor (Z.shiftl h 16) l))); [|done|unfold slot_of; by destruct (i <? k)].
  cbn. by rewrite two_shorts_high, two_shorts_low.
Qed.

Lemma tag_at_eq (k i : Z) (c : cell) : zget cells i = Some c -> tag_at (pool k) i = Done (tag_of k i c).
Proof using. intros Hc. unfold tag_at. rewrite resolved_tag_at, Hc. done. Qed.

Lemma raw_tag_at (i : Z) (c : cell) : zget cells i = Some c -> tag_at (pool i) i = Done (raw_tag c).
Proof using. intros Hc. rewrite (tag_at_eq i i c Hc). unfold tag_of. by rewrite Z.ltb_irrefl. Qed.

Lemma check_property_eq (b : bool) : check_property P b = if b then Done tt else Throw ClassFormatError.
Proof using Hverify. unfold check_property. by rewrite Hverify. Qed.

Lemma check_ref_kind_eq (ref_kind k i : Z) (c : cell) :
  check_ref_kind P ref_kind (tag_of k i c) = if kind_ok (major_version P) ref_kind c then Done tt else Throw ClassFormatError.
Proof using Hverify.
  unfold check_ref_kind, kind_ok, JAVA_8_VERSION, JVM_REF_getField, JVM_REF_getStatic, JVM_REF_putField, JVM_REF_putStatic,
    JVM_REF_invokeVirtual, JVM_REF_newInvokeSpecial, JVM_REF_invokeStatic, JVM_REF_invokeSpecial, JVM_REF_invokeInterface.
  assert (Hf : (tag_of k i c =? JVM_CONSTANT_Fieldref) = is_field c) by (unfold tag_of; by destruct (i <? k), c).
  assert (Hm : (tag_of k i c =? JVM_CONSTANT_Methodref) = is_method c) by (unfold tag_of; by destruct (i <? k), c).
  assert (Hi : (tag_of k i c =? JVM_CONSTANT_InterfaceMethodref) = is_interface_method c)
    by (unfold tag_of; by destruct (i <? k), c).
  rewrite Hf, Hm, Hi.
  replace ((1 <=? ref_kind) && (ref_kind <=? 4)) with
    ((ref_kind =? 1) || (ref_kind =? 2) || (ref_kind =? 3) || (ref_kind =? 4)) by lia.
  rewrite !check_property_eq. repeat case_match; congruence.
Qed.

(** The result of one round. *)
Definition round (index : Z) (c : cell) : outcome (Z * ConstantPool) :=
  if refs_ok (major_version P) cells c then Done (index + cell_size c - 1, pool (index + cell_size c))
  else Throw ClassFormatError.

Lemma round_same (index : Z) (c : cell) (b : bool) :
  zget cells index = Some c -> resolved_tag c = raw_tag c -> resolved_slot cells c = raw_slot c -> cell_size c = 1 ->
  refs_ok (major_version P) cells c = b ->
  (if b then Done (index, pool index) else Throw ClassFormatError) = round index c.
Proof using.
  intros Hc Ht Hs Hsz Hb. unfold round. rewrite Hb, Hsz, (resolve_same cells index c Hc Ht Hs).
  by replace (index + 1 - 1) with index by lia.
Qed.

Lemma has_utf8 (i : Z) : has_cell cells i is_utf8 = true -> zget cells i = Some (CUtf8 (symbol_of cells i)).
Proof using. unfold has_cell, symbol_of. destruct (zget cells i) as [[]|]; by cbn. Qed.

(** The entry of a class or string refers to its name. *)
Lemma round_name (index i : Z) (c : cell) (next : ConstantPool -> list Z -> outcome ConstantPool) :
  zget cells index = Some c -> c = CClass i \/ c = CString i -> 
  next (pool index) (symbol_of cells i) = Done (put (pool index) index (resolved_tag c) (resolved_slot cells c)) ->
  (b ← valid_symbol_at (pool index) i; check_property P b;; sym ← symbol_at (pool index) i;
   cp ← next (pool index) sym; Done (index, cp)) = round index c.
Proof using Hhole Hverify.
  intros Hc Hi Hn. rewrite valid_symbol_eq. cbn [mbind outcome_bind]. rewrite check_property_eq.
  unfold round. replace (refs_ok (major_version P) cells c) with (has_cell cells i is_utf8) by (by destruct Hi as [->| ->]).
  destruct (has_cell cells i is_utf8) eqn:Hu; [|done]. cbn [mbind outcome_bind].
  rewrite (symbol_at_eq index i _ (has_utf8 i Hu)). cbn [mbind outcome_bind]. rewrite Hn. cbn [mbind outcome_bind].
  rewrite (resolve_put cells index c Hc). replace (cell_size c) with 1 by (by destruct Hi as [->| ->]).
  by replace (index + 1 - 1) with index by lia.
Qed.

(** A reference to a member. *)
Lemma round_member (index a b : Z) (c : cell) :
  zget cells index = Some c -> c = CField a b \/ c = CMethod a b \/ c = CInterfaceMethod a b -> in_u 16 a -> in_u 16 b ->
  (klass_ref_index ← klass_ref_index_at (pool index) index;
   name_and_type_ref_index ← name_and_type_ref_index_at (pool index) index;
   b ← valid_klass_reference_at EnableInvokeDynamic (pool index) klass_ref_index; check_property P b;;
   b ← valid_name_and_type_at (pool index) name_and_type_ref_index (zlen cells); check_property P b;;
   Done (index, pool index)) = round index c.
Proof using Hhole Hverify.
  intros Hc Hi Ha Hb. unfold name_and_type_ref_index_at. rewrite (raw_tag_at index c Hc).
  destruct (shorts_at_eq index index b a c Hc) as [Hh Hl]; [by destruct Hi as [->|[->| ->]]..|done|done|].
  unfold klass_ref_index_at. rewrite Hl. cbn [mbind outcome_bind].
  replace (raw_tag c =? JVM_CONSTANT_InvokeDynamic) with false by (by destruct Hi as [->|[->| ->]]).
  rewrite Hh. cbn [mbind outcome_bind]. rewrite valid_klass_eq, valid_nt_eq. cbn [mbind outcome_bind].
  rewrite !check_property_eq.
  assert (Hr : refs_ok (major_version P) cells c = has_cell cells a is_class && has_cell cells b is_name_and_type)
    by (by destruct Hi as [->|[->| ->]]).
  erewrite <- (round_same index c); [|done|by destruct Hi as [->|[->| ->]]..|apply Hr].
  by destruct (has_cell cells a is_class), (has_cell cells b is_name_and_type).
Qed.

Lemma kind_ok_hole (major k : Z) : kind_ok major k Hole = false.
Proof using. unfold kind_ok. cbn [is_field is_method is_interface_method orb]. rewrite andb_false_r. by repeat case_match. Qed.

Lemma zget_is_Some {A} (l : list A) (i : Z) : 0 <= i < zlen l -> exists x, zget l i = Some x.
Proof using. intros Hi. unfold zget. rewrite bool_decide_true by lia. apply lookup_lt_is_Some_2. lia. Qed.

Lemma round_shorts (index h l : Z) (c : cell) (next : outcome (Z * ConstantPool)) (f : Z -> outcome (Z * ConstantPool)) :
  zget cells index = Some c -> raw_slot c = two_shorts h l -> resolved_slot cells c = two_shorts h l ->
  in_u 16 h -> in_u 16 l -> f h = next -> (x ← high_short_at (pool index) index; f x) = next.
Proof using.
  intros Hc Hr Hr' Hh Hl Hf. destruct (shorts_at_eq index index h l c Hc Hr Hr' Hh Hl) as [-> _]. done.
Qed.

Lemma round_handle (index k i : Z) :
  zget cells index = Some (CMethodHandle k i) -> in_u 8 k -> in_u 16 i -> EnableInvokeDynamic = true ->
  (ref_index ← method_handle_index_at (pool index) index;
   check_property P (valid_cp_range ref_index (zlen cells) && EnableInvokeDynamic);;
   tag ← tag_at (pool index) ref_index;
   ref_kind ← method_handle_ref_kind_at (pool index) index;
   check_ref_kind P ref_kind tag;; Done (index, pool index)) = round index (CMethodHandle k i).
Proof using Hhole Hverify.
  intros Hc Hk Hi Hindy. assert (in_u 16 k) by lia.
  destruct (shorts_at_eq index index i k _ Hc) as [Hh Hl]; [done..|].
  unfold method_handle_index_at, method_handle_ref_kind_at. rewrite Hh. cbn [mbind outcome_bind].
  rewrite check_property_eq, Hindy, andb_true_r.
  erewrite <- (round_same index _); [|done..]. cbn [refs_ok]. unfold has_cell, valid_cp_range.
  destruct (zget cells i) as [c|] eqn:Hci; [pose proof (zget_Some_range _ _ _ Hci) as Hr|].
  - destruct (Z.ltb_spec 0 i) as [Hpos|Hneg]; cbn [andb].
    + destruct (Z.ltb_spec i (zlen cells)); [|lia]. cbn [mbind outcome_bind]. rewrite (tag_at_eq index i c Hci), Hl. cbn [mbind outcome_bind].
      rewrite check_ref_kind_eq. cbn. by destruct (kind_ok _ _ _).
    + assert (i = 0) as -> by lia. change (zget cells 0) with (cells !! 0%nat) in Hci. rewrite Hhole in Hci.
      injection Hci as <-. cbn [from_option]. by rewrite kind_ok_hole.
  - destruct (Z.ltb_spec 0 i), (Z.ltb_spec i (zlen cells)); cbn; try done.
    by destruct (zget_is_Some cells i ltac:(lia)) as [c Hci']; rewrite Hci' in Hci.
Qed.

(** The entry behind a long or double is not used. *)
Lemma round_wide (index : Z) (c : cell) :
  zget cells index = Some c -> zget cells (index + 1) = Some Hole -> (exists x, c = CLong x \/ c = CDouble x) ->
  (b ← tag_test (pool index) (index + 1 <? zlen cells) (index + 1) (fun tag => tag =? JVM_CONSTANT_Invalid); check_property P b;;
   Done (index + 1, pool index)) = round index c.
Proof using Hverify.
  intros Hc Hn Hx. pose proof (zget_Some_range _ _ _ Hn) as Hr. unfold tag_test.
  destruct (Z.ltb_spec (index + 1) (zlen cells)); [|lia]. rewrite (tag_at_eq index (index + 1) Hole Hn).
  cbn [mbind outcome_bind]. unfold tag_of. rewrite check_property_eq.
  assert (Hs : resolved_pool cells (index + 2) = pool index).
  { replace (index + 2) with (index + 1 + 1) by lia. rewrite (resolve_same cells (index + 1) Hole) by done.
    destruct Hx as (x & [->| ->]); by rewrite (resolve_same cells index _ Hc). }
  unfold round. destruct (index + 1 <? index); destruct Hx as (x & [->| ->]); cbn [refs_ok]; decide_tags; cbn [mbind outcome_bind];
    change (cell_size _) with 2; rewrite Hs; by replace (index + 2 - 1) with (index + 1) by lia.
Qed.

Lemma check_entry_eq (index : Z) (c : cell) :
  zget cells index = Some c -> cell_ok P EnableInvokeDynamic c ->
  (cell_size c = 2 -> zget cells (index + 1) = Some Hole) ->
  check_entry EnableInvokeDynamic P (zlen cells) index (pool index) = round index c.
Proof using Hhole Hverify.
  intros Hc Hok Hnext. pose proof (zget_Some_range _ _ _ Hc). unfold check_entry. rewrite (raw_tag_at index c Hc). cbn [mbind outcome_bind].
  destruct c as [|s|x|x|x|x|i|i|a b|a b|a b|a b|k i|i|a b]; cbn [cell_ok] in Hok; try done; cbn [raw_tag]; decide_tags; rewrite ?Hverify; cbn [negb].
  1-3: by apply (round_same index _ true).
  1-2: apply round_wide; [done|by apply Hnext|exists x; by auto].
  - unfold klass_index_at. rewrite (int_at_eq index index _ i Hc) by (unfold slot_of; by rewrite Z.ltb_irrefl).
    cbn [mbind outcome_bind].
    apply (round_name index i _ (fun cp sym => unresolved_klass_at_put cp index sym)); [done|by left|].
    by apply (entry_at_put_eq _ (zlen cells)); [apply resolved_length|].
  - unfold string_index_at. rewrite (int_at_eq index index _ i Hc) by (unfold slot_of; by rewrite Z.ltb_irrefl).
    cbn [mbind outcome_bind].
    apply (round_name index i _ (fun cp sym => unresolved_string_at_put cp index sym)); [done|by right|].
    by apply (entry_at_put_eq _ (zlen cells)); [apply resolved_length|].
  - destruct Hok. by apply (round_member index a b); [|left|..].
  - destruct Hok. by apply (round_member index a b); [|right; left|..].
  - destruct Hok. by apply (round_member index a b); [|right; right|..].
  - destruct Hok as [Ha Hb]. destruct (shorts_at_eq index index b a _ Hc) as [Hh Hl]; [done..|].
    unfold name_ref_index_at, signature_ref_index_at. rewrite Hh, Hl. cbn [mbind outcome_bind].
    rewrite !valid_symbol_eq. cbn [mbind outcome_bind]. rewrite !check_property_eq.
    erewrite <- (round_same index _); [|done..]. cbn [refs_ok].
    by destruct (has_cell cells a is_utf8), (has_cell cells b is_utf8).
  - destruct Hok as ([_ Hindy] & Hk & Hi). by apply round_handle.
  - destruct Hok as ([_ Hindy] & Hi). unfold method_type_index_at.
    rewrite (int_at_eq index index _ i Hc) by (unfold slot_of; by rewrite Z.ltb_irrefl). cbn [mbind outcome_bind].
    rewrite valid_symbol_eq. cbn [mbind outcome_bind]. rewrite check_property_eq, Hindy, andb_true_r.
    erewrite <- (round_same index _); [|done..]. cbn [refs_ok]. by destruct (has_cell cells i is_utf8).
  - destruct Hok as (_ & Ha & Hb). apply (round_shorts index b a _ _ _ Hc); [done..|].
    rewrite valid_nt_eq. cbn [mbind outcome_bind]. rewrite check_property_eq.
    erewrite <- (round_same index _); [|done..]. cbn [refs_ok]. by destruct (has_cell cells b is_name_and_type).
Qed.

Lemma zget_app_mid {A} (pre l : list A) (x : A) : zget (pre ++ x :: l) (zlen pre) = Some x.
Proof using.
  unfold zget. rewrite bool_decide_true by lia. rewrite Nat2Z.id, lookup_app_r by lia. by rewrite Nat.sub_diag.
Qed.

Lemma zget_app_next {A} (pre l : list A) (x y : A) : zget (pre ++ x :: y :: l) (zlen pre + 1) = Some y.
Proof using.
  rewrite (cons_middle x pre (y :: l)), app_assoc. replace (zlen pre + 1) with (zlen (pre ++ [x])); [apply zget_app_mid|].
  rewrite length_app. cbn [length]. lia.
Qed.

Lemma check_entries_loop_eq (fuel : nat) (pre es : list cell) :
  cells = pre ++ layouts es -> Forall (cell_ok P EnableInvokeDynamic) es -> zlen cells - zlen pre <= Z.of_nat fuel ->
  check_entries_loop EnableInvokeDynamic fuel P (zlen cells) (zlen pre) (pool (zlen pre)) =
    if forallb (refs_ok (major_version P) cells) es then Done (pool (zlen cells)) else Throw ClassFormatError.
Proof using Hhole Hverify.
  revert fuel pre. induction es as [|c es IH]; intros fuel pre Hcells Hes Hf.
  - cbn [layouts fmap list_fmap mjoin list_join] in Hcells. rewrite app_nil_r in Hcells.
    replace (zlen pre) with (zlen cells) by (by rewrite Hcells).
    destruct fuel; cbn [check_entries_loop]; by rewrite Z.ltb_irrefl.
  - apply list.Forall_cons in Hes as [Hc Hes]. rewrite layouts_cons in Hcells.
    assert (Hsz : 1 <= cell_size c) by (unfold cell_size; destruct c; cbn [layout length]; lia).
    assert (Hlen : zlen cells = zlen pre + cell_size c + zlen (layouts es))
      by (unfold cell_size; rewrite Hcells, !length_app; lia).
    destruct fuel as [|fuel]; cbn [check_entries_loop]; (destruct (Z.ltb_spec (zlen pre) (zlen cells)); [try lia|lia]).
    rewrite (check_entry_eq (zlen pre) c).
    + unfold round. cbn [forallb]. destruct (refs_ok (major_version P) cells c); [|done]. cbn [mbind outcome_bind andb].
      replace (zlen pre + cell_size c) with (zlen (pre ++ layout c)) by (rewrite length_app; unfold cell_size; lia).
      rewrite Z.sub_add. apply IH; [by rewrite <- app_assoc|done|]. rewrite length_app. unfold cell_size in *. lia.
    + rewrite Hcells. destruct c; cbn [layout app]; apply zget_app_mid.
    + done.
    + unfold cell_size. intros H2. rewrite Hcells. destruct c; cbn [layout length] in H2; try lia; cbn [layout app]; apply zget_app_next.
Qed.
End References.

(** ** Names and signatures *)

Section FormatSpec.
Context (start part : Z -> option bool) (P : Parser) (cells : list cell).

(** The name and the signature that a name-and-type entry refers to. *)
Definition name_of (i : Z) : list Z :=
  match zget cells i with Some (CNameAndType n _) => symbol_of cells n | _ => [] end.
Definition signature_of (i : Z) : list Z :=
  match zget cells i with Some (CNameAndType _ s) => symbol_of cells s | _ => [] end.

(** The name of the method a method handle refers to. *)
Definition handle_name (i : Z) : list Z :=
  match zget cells i with Some (CMethod _ b | CInterfaceMethod _ b) => name_of b | _ => [] end.

Definition class_name_ok (name : list Z) : Prop :=
  (exists t, name = print (ArrayOf t) /\ legal_within start part P false 255 (ArrayOf t)) \/
  (name !! 0%nat <> Some JVM_SIGNATURE_ARRAY /\ legal_plain start part P name true LegalClass).
Definition field_name_ok (name : list Z) : Prop := legal_plain start part P name false LegalField.
Definition method_name_ok (name : list Z) : Prop :=
  name = object_initializer_name \/ name = class_initializer_name \/
  (name !! 0%nat <> Some 60 /\ legal_plain start part P name false LegalMethod).

Definition field_signature_ok (sig : list Z) : Prop := exists t, legal_within start part P false 255 t /\ sig = print t.
Definition method_signature_ok (name sig : list Z) : Prop :=
  exists args ret, legal_method_signature start part P name args ret sig.
Definition is_method_signature (sig : list Z) : Prop := sig !! 0%nat = Some JVM_SIGNATURE_FUNC.

(** The name and the signature that belong together. *)
Definition name_and_type_ok (name sig : list Z) : Prop :=
  (is_method_signature sig /\ method_signature_ok name sig) \/ (~ is_method_signature sig /\ field_signature_ok sig).

Definition handle_ok (ref_kind : Z) (name : list Z) : Prop :=
  (ref_kind = JVM_REF_newInvokeSpecial -> name = object_initializer_name) /\
  (JVM_REF_invokeVirtual <= ref_kind <= JVM_REF_invokeSpecial -> name <> object_initializer_name).

(** The names and signatures of a constant are legal. *)
Definition format_ok (c : cell) : Prop :=
  match c with
  | CClass i => class_name_ok (symbol_of cells i)
  | CNameAndType n s => JAVA_7_VERSION <= major_version P -> name_and_type_ok (symbol_of cells n) (symbol_of cells s)
  | CField _ b => field_name_ok (name_of b) /\ field_signature_ok (signature_of b)
  | CMethod _ b =>
      method_name_ok (name_of b) /\ method_signature_ok (name_of b) (signature_of b) /\
      (name_of b !! 0%nat = Some 60 -> name_of b = object_initializer_name)
  | CInterfaceMethod _ b | CInvokeDynamic _ b =>
      method_name_ok (name_of b) /\ method_signature_ok (name_of b) (signature_of b)
  | CMethodHandle k i => handle_ok k (handle_name i)
  | CMethodType i => method_signature_ok type_name (symbol_of cells i)
  | _ => True
  end.

(** What the code looks at: from version 51 on the signature of a member is checked
    where its name-and-type entry is. *)
Definition member_ok (field : bool) (name sig : list Z) : Prop :=
  if JAVA_7_VERSION <=? major_version P then sig <> [] /\ (is_method_signature sig <-> field = false)
  else if field then field_signature_ok sig else method_signature_ok name sig.
Definition local_ok (c : cell) : Prop :=
  match c with
  | CField _ b => field_name_ok (name_of b) /\ member_ok true (name_of b) (signature_of b)
  | CMethod _ b =>
      method_name_ok (name_of b) /\ member_ok false (name_of b) (signature_of b) /\
      (name_of b !! 0%nat = Some 60 -> name_of b = object_initializer_name)
  | CInterfaceMethod _ b | CInvokeDynamic _ b =>
      method_name_ok (name_of b) /\ member_ok false (name_of b) (signature_of b)
  | _ => format_ok c
  end.

Lemma print_first (t : jtype) : legal_within start part P false 255 t -> print t <> [] /\ ~ is_method_signature (print t).
Proof.
  intros [Ht _]. assert (He : print t = print t ++ []) by (by rewrite app_nil_r).
  unfold is_method_signature. destruct (print t) as [|b l] eqn:Hp; [by destruct t|]. split; [done|]. intros [= ->].
  rewrite <- Hp in He. rewrite Hp in He at 1.
  by destruct (print_letter start part P _ _ _ _ _ Ht He) as [[H _]|[[H _]|[[H _]|[H _]]]]; vm_compute in H.
Qed.

Lemma member_ok_iff (field : bool) (name sig : list Z) :
  (JAVA_7_VERSION <= major_version P -> name_and_type_ok name sig) ->
  member_ok field name sig <-> (if field then field_signature_ok sig else method_signature_ok name sig).
Proof.
  intros Hnt. unfold member_ok. destruct (Z.leb_spec JAVA_7_VERSION (major_version P)) as [H7|]; [|done].
  specialize (Hnt H7).
  assert (Hf : field_signature_ok sig -> sig <> [] /\ ~ is_method_signature sig).
  { intros (t & Ht & ->). by apply print_first. }
  assert (Hm : method_signature_ok name sig -> sig <> [] /\ is_method_signature sig).
  { intros (args & ret & -> & _). done. }
  unfold name_and_type_ok in Hnt. destruct field; naive_solver.
Qed.

(** The checks of the code are enough for every constant to be legal. *)
Lemma local_ok_all (es : list cell) :
  (forall i n s, zget cells i = Some (CNameAndType n s) -> CNameAndType n s ∈ es) ->
  Forall (fun c => refs_ok (major_version P) cells c = true) es ->
  Forall local_ok es <-> Forall format_ok es.
Proof.
  intros Hnts Hrefs. rewrite !list.Forall_forall in *.
  assert (Hiff : (forall n s, CNameAndType n s ∈ es -> format_ok (CNameAndType n s)) ->
    forall c, c ∈ es -> local_ok c <-> format_ok c).
  { intros Hnt c Hc. specialize (Hrefs c Hc). unfold has_cell in Hrefs.
    assert (Hb : forall b field, has_cell cells b is_name_and_type = true ->
      member_ok field (name_of b) (signature_of b) <->
      (if field then field_signature_ok (signature_of b) else method_signature_ok (name_of b) (signature_of b))).
    { intros b field Hb. apply member_ok_iff. unfold has_cell in Hb. unfold name_of, signature_of.
      destruct (zget cells b) as [[]|] eqn:Hz; try done. by apply Hnt, (Hnts b). }
    destruct c as [|s|x|x|x|x|i|i|a b|a b|a b|a b|k i|i|a b]; try done; cbn [refs_ok] in Hrefs; cbn [local_ok format_ok];
      try apply andb_true_iff in Hrefs as [_ Hrefs]; by rewrite (Hb b _ Hrefs). }
  split; intros H c Hc; apply Hiff; auto; intros n s Hn; try apply (H _ Hn).
Qed.
End FormatSpec.

Lemma decides_bind (r1 r2 : outcome ()) (Q1 Q2 : Prop) :
  decides r1 Q1 -> (Q1 -> decides r2 Q2) -> decides (r1;; r2) (Q1 /\ Q2).
Proof.
  intros [[-> H1]|[-> H1]] H2; cbn [mbind outcome_bind].
  - destruct (H2 H1) as [[-> H]|[-> H]]; [left|right]; naive_solver.
  - right. naive_solver.
Qed.

Lemma decides_iff (r : outcome ()) (Q Q' : Prop) : (Q <-> Q') -> decides r Q -> decides r Q'.
Proof. unfold decides. naive_solver. Qed.

Lemma first_byte_eq (s : list Z) (b : Z) : s <> [] -> first_byte_is s b = Done (bool_decide (s !! 0%nat = Some b)).
Proof.
  intros Hs. destruct s as [|c s]; [done|]. unfold first_byte_is. cbn. f_equal. apply Bool.eq_iff_eq_true.
  rewrite Z.eqb_eq, bool_decide_eq_true. naive_solver.
Qed.

Lemma bind_done {A} (r : outcome A) (f : A -> outcome A) : (forall x, f x = Done x) -> (x ← r; f x) = r.
Proof. intros Hf. destruct r; cbn [mbind outcome_bind]; [apply Hf|done|done]. Qed.

Section Formats.
Context (start part : Z -> option bool) (P : Parser) (Hv : need_verify P = true) (Hr : relax_verify P = false).

Definition symbol_ok (s : list Z) : Prop := legal_utf8 P s /\ zlen s < 2 ^ 16.

Lemma method_signature_format (name sig : list Z) :
  symbol_ok sig ->
  decides (_ ← verify_legal_method_signature start part P name sig; Done tt) (method_signature_ok start part P name sig).
Proof using Hv.
  intros [Hl Hlen]. unfold method_signature_ok.
  destruct (method_signature_decides start part P name sig Hv Hl ltac:(lia)) as [(args & ret & H & ->)|[-> H]]; cbn [mbind outcome_bind].
  - left. naive_solver.
  - right. naive_solver.
Qed.

Lemma field_signature_format (sig : list Z) :
  symbol_ok sig -> decides (verify_legal_field_signature start part P sig) (field_signature_ok start part P sig).
Proof using Hv. intros [Hl _]. unfold verify_legal_field_signature. rewrite Hv. by apply skip_signature_whole. Qed.

(** The signature of a member, without its parts from version 51 on. *)
Lemma member_signature_format (field : bool) (name sig : list Z) :
  symbol_ok sig ->
  decides (if need_verify P && (JAVA_7_VERSION <=? major_version P) then
             illegal ← (if zlen sig =? 0 then Done true
                        else b ← first_byte_is sig JVM_SIGNATURE_FUNC; Done (if field then b else negb b));
             if (illegal : bool) then Throw ClassFormatError else Done tt
           else if field then verify_legal_field_signature start part P sig
           else _ ← verify_legal_method_signature start part P name sig; Done tt)
    (member_ok start part P field name sig).
Proof using Hv.
  intros Hs. unfold member_ok. rewrite Hv. cbn [andb]. destruct (JAVA_7_VERSION <=? major_version P).
  2: { destruct field; [by apply field_signature_format|by apply method_signature_format]. }
  destruct (decide (sig = [])) as [->|Hne]; [right; naive_solver|].
  destruct (Z.eqb_spec (zlen sig) 0) as [Hz|_]; [destruct sig; [done|cbn [length] in Hz; lia]|].
  rewrite first_byte_eq by done. cbn [mbind outcome_bind]. unfold is_method_signature.
  case_bool_decide; destruct field; cbn [negb]; (left; split; [done|naive_solver]) || (right; split; [done|naive_solver]).
Qed.

(** A reference to a member, by its tag. *)
Lemma check_member_field (name sig : list Z) :
  symbol_ok name -> symbol_ok sig ->
  decides (check_member start part P JVM_CONSTANT_Fieldref name sig)
    (field_name_ok start part P name /\ member_ok start part P true name sig).
Proof using Hv Hr.
  intros Hn Hs. unfold check_member. decide_tags. apply decides_bind; [by apply field_name_decides; [..|apply Hn]|].
  intros _. eapply decides_iff; [reflexivity|]. pose proof (member_signature_format true name sig Hs) as H.
  destruct (need_verify P && _); [|done]. by rewrite bind_done in H by (by intros []).
Qed.

Lemma check_member_method (tag : Z) (name sig : list Z) :
  (tag =? JVM_CONSTANT_Fieldref) = false -> symbol_ok name -> symbol_ok sig ->
  decides (check_member start part P tag name sig)
    ((method_name_ok start part P name /\ member_ok start part P false name sig) /\
     ((tag =? JVM_CONSTANT_Methodref) = true -> name !! 0%nat = Some 60 -> name = object_initializer_name)).
Proof using Hv Hr.
  intros Ht Hn Hs. unfold check_member. rewrite Ht.
  pose proof (member_signature_format false name sig Hs) as Hm. pose proof (method_name_decides start part P name Hv Hr (proj1 Hn)) as Hd.
  eapply decides_iff; [apply and_assoc|]. apply decides_bind; [exact Hd|]. intros _. apply decides_bind; [exact Hm|]. intros _.
  destruct (tag =? JVM_CONSTANT_Methodref); [|by left]. destruct name as [|b l]; [by left|].
  destruct (Z.eqb_spec (zlen (b :: l)) 0) as [Hz|_]; [cbn [length] in Hz; lia|]. rewrite first_byte_eq by done. cbn [mbind outcome_bind].
  unfold symbol_eq. do 2 case_bool_decide; cbn [andb negb]; (left; split; [done|naive_solver]) || (right; split; [done|naive_solver]).
Qed.

Section Pool.
Context (EnableInvokeDynamic : bool) (cells : list cell).
Context (Hcells : forall i c, zget cells i = Some c ->
  c = Hole \/ (cell_ok P EnableInvokeDynamic c /\ refs_ok (major_version P) cells c = true)).

Abbreviation done_pool := (resolved_pool cells (zlen cells)).

Lemma done_tag_at (i : Z) (c : cell) : zget cells i = Some c -> tag_at done_pool i = Done (resolved_tag c).
Proof using.
  intros Hc. pose proof (zget_Some_range _ _ _ Hc). rewrite (tag_at_eq cells (zlen cells) i c Hc). unfold tag_of.
  by destruct (Z.ltb_spec i (zlen cells)); [|lia].
Qed.

Lemma has_cell_ok (i : Z) (c : cell) :
  zget cells i = Some c -> c <> Hole -> cell_ok P EnableInvokeDynamic c /\ refs_ok (major_version P) cells c = true.
Proof using Hcells. intros Hc Hh. by destruct (Hcells i c Hc). Qed.

Lemma symbol_at_done (i : Z) :
  has_cell cells i is_utf8 = true -> symbol_at done_pool i = Done (symbol_of cells i) /\ symbol_ok (symbol_of cells i).
Proof using Hcells.
  intros Hi%has_utf8. split; [by apply symbol_at_eq|]. by destruct (has_cell_ok i _ Hi) as [Hok _].
Qed.

Lemma shorts_done (i h l : Z) (c : cell) :
  zget cells i = Some c -> raw_slot c = two_shorts h l -> resolved_slot cells c = two_shorts h l -> in_u 16 h -> in_u 16 l ->
  high_short_at done_pool i = Done h /\ low_short_at done_pool i = Done l.
Proof using. apply shorts_at_eq. Qed.

(** The name and the signature behind a name-and-type entry. *)
Lemma name_and_type_done (b : Z) :
  has_cell cells b is_name_and_type = true ->
  exists n s, zget cells b = Some (CNameAndType n s) /\
    name_ref_index_at done_pool b = Done n /\ signature_ref_index_at done_pool b = Done s /\
    symbol_at done_pool n = Done (name_of cells b) /\ symbol_at done_pool s = Done (signature_of cells b) /\
    symbol_ok (name_of cells b) /\ symbol_ok (signature_of cells b).
Proof using Hcells.
  unfold has_cell. destruct (zget cells b) as [[]|] eqn:Hb; try done. intros _. exists name_index, signature_index. split; [done|].
  destruct (has_cell_ok b _ Hb ltac:(done)) as [[Hn Hs] [Hn' Hs']%andb_true_iff].
  destruct (shorts_done b signature_index name_index _ Hb) as [Hh Hl]; [done..|].
  unfold name_of, signature_of. rewrite Hb. destruct (symbol_at_done _ Hn'), (symbol_at_done _ Hs'). done.
Qed.

Lemma member_format (index b : Z) (c : cell) (Q : Prop) :
  zget cells index = Some c -> high_short_at done_pool index = Done b -> has_cell cells b is_name_and_type = true ->
  (symbol_ok (name_of cells b) -> symbol_ok (signature_of cells b) ->
   decides (check_member start part P (resolved_tag c) (name_of cells b) (signature_of cells b)) Q) ->
  decides (name_and_type_ref_index ← name_and_type_ref_index_at done_pool index;
           name_ref_index ← name_ref_index_at done_pool name_and_type_ref_index;
           signature_ref_index ← signature_ref_index_at done_pool name_and_type_ref_index;
           name ← symbol_at done_pool name_ref_index;
           signature ← symbol_at done_pool signature_ref_index;
           check_member start part P (resolved_tag c) name signature) Q.
Proof using Hcells.
  intros Hc Hh Hb Hd. unfold name_and_type_ref_index_at, invoke_dynamic_name_and_type_ref_index_at.
  rewrite (done_tag_at index c Hc), Hh. cbn [mbind outcome_bind].
  destruct (name_and_type_done b Hb) as (n & s & _ & Hn & Hs & Hn' & Hs' & Hon & Hos).
  destruct (resolved_tag c =? JVM_CONSTANT_InvokeDynamic); cbn [mbind outcome_bind]; rewrite Hn; cbn [mbind outcome_bind];
    rewrite Hs; cbn [mbind outcome_bind]; rewrite Hn'; cbn [mbind outcome_bind]; rewrite Hs'; by apply Hd.
Qed.

Lemma method_handle_target (k i : Z) :
  5 <= k <= 8 -> has_cell cells i (kind_ok (major_version P) k) = true ->
  exists c a b, zget cells i = Some c /\ (c = CMethod a b \/ c = CInterfaceMethod a b).
Proof using.
  intros Hk. unfold has_cell. destruct (zget cells i) as [c|] eqn:Hi; [|done]. cbn [from_option]. unfold kind_ok.
  destruct (Z.leb_spec 1 k); [|lia]. destruct (Z.leb_spec k 4); [lia|]. cbn [andb].
  destruct c; cbn [is_method is_interface_method orb]; rewrite ?andb_false_r; try (by repeat case_match); intros _; eauto 6.
Qed.

Lemma handle_format (k i : Z) :
  has_cell cells i (kind_ok (major_version P) k) = true ->
  decides (check_handle_name done_pool k i) (handle_ok k (handle_name cells i)).
Proof using Hcells.
  intros Hi. unfold check_handle_name, handle_ok, JVM_REF_invokeVirtual, JVM_REF_invokeStatic, JVM_REF_invokeSpecial, JVM_REF_newInvokeSpecial.
  destruct ((k =? 5) || (k =? 6) || (k =? 7) || (k =? 8)) eqn:Hk; [|left; split; [done|lia]].
  destruct (method_handle_target k i ltac:(lia) Hi) as (c & a & b & Hc & Hm).
  destruct (has_cell_ok i c Hc ltac:(by destruct Hm as [->| ->])) as [Hok Hrefs].
  assert (Hb : in_u 16 a /\ in_u 16 b) by (by destruct Hm as [->| ->]).
  assert (Hnt : has_cell cells b is_name_and_type = true) by (destruct Hm as [->| ->]; by apply andb_true_iff in Hrefs as [_ ?]).
  destruct (shorts_done i b a c Hc) as [Hh _]; [by destruct Hm as [->| ->]..|apply Hb|apply Hb|].
  destruct (name_and_type_done b Hnt) as (n & s & _ & Hn & _ & Hn' & _).
  assert (Hname : handle_name cells i = name_of cells b) by (unfold handle_name; rewrite Hc; by destruct Hm as [->| ->]).
  unfold name_and_type_ref_index_at. rewrite (done_tag_at i c Hc), Hh. cbn [mbind outcome_bind].
  replace (resolved_tag c =? JVM_CONSTANT_InvokeDynamic) with false by (by destruct Hm as [->| ->]). cbn [mbind outcome_bind].
  rewrite Hn. cbn [mbind outcome_bind]. rewrite Hn'. cbn [mbind outcome_bind]. rewrite Hname.
  destruct (Z.eqb_spec k 8) as [->|]; apply guarantee_decides; unfold symbol_eq;
    rewrite ?negb_true_iff, ?bool_decide_eq_true, ?bool_decide_eq_false; split; intros H; try split; intros; try done; try lia.
  - by apply H.
  - apply H. lia.
Qed.

Lemma name_and_type_format (index n s : Z) :
  zget cells index = Some (CNameAndType n s) -> 
  decides (if need_verify P && (JAVA_7_VERSION <=? major_version P) then
             sig_index ← signature_ref_index_at done_pool index;
             name_index ← name_ref_index_at done_pool index;
             name ← symbol_at done_pool name_index;
             sig ← symbol_at done_pool sig_index;
             guarantee_property (negb (zlen sig =? 0));;
             b ← first_byte_is sig JVM_SIGNATURE_FUNC;
             if (b : bool) then _ ← verify_legal_method_signature start part P name sig; Done tt
             else verify_legal_field_signature start part P sig
           else Done tt)
    (format_ok start part P cells (CNameAndType n s)).
Proof using Hv Hcells.
  intros Hc. cbn [format_ok]. rewrite Hv. cbn [andb].
  destruct (Z.leb_spec JAVA_7_VERSION (major_version P)) as [H7|]; [|left; split; [done|lia]].
  destruct (name_and_type_done index ltac:(unfold has_cell; by rewrite Hc)) as (n' & s' & Hc' & -> & -> & Hn & Hs & Hon & Hos).
  unfold name_of, signature_of in *. rewrite Hc in *. injection Hc' as <- <-. cbn [mbind outcome_bind]. rewrite Hn, Hs. cbn [mbind outcome_bind].
  set (sig := symbol_of cells s) in *. set (name := symbol_of cells n) in *. apply (decides_iff _ (name_and_type_ok start part P name sig)); [tauto|].
  unfold name_and_type_ok.
  destruct (decide (sig = [])) as [->|Hne].
  { right. split; [done|]. intros [[H _]|[_ (t & Ht & H)]]; [done|]. by apply print_first in Ht as [H' _]. }
  destruct (Z.eqb_spec (zlen sig) 0) as [Hz|_]; [destruct sig; [done|cbn [length] in Hz; lia]|].
  cbn [negb guarantee_property mbind outcome_bind]. rewrite first_byte_eq by done. cbn [mbind outcome_bind].
  case_bool_decide as Hfun.
  - eapply decides_iff; [|by apply method_signature_format]. unfold is_method_signature. naive_solver.
  - eapply decides_iff; [|by apply field_signature_format]. unfold is_method_signature. naive_solver.
Qed.

Lemma check_format_decides (index : Z) (c : cell) :
  zget cells index = Some c -> decides (check_format start part P done_pool index) (local_ok start part P cells c).
Proof using Hv Hr Hcells.
  intros Hc. unfold check_format. rewrite (done_tag_at index c Hc). cbn [mbind outcome_bind].
  destruct (Hcells index c Hc) as [->|[Hok Hrefs]]; [by left|].
  destruct c as [|s|x|x|x|x|i|i|a b|a b|a b|a b|k i|i|a b]; cbn [resolved_tag raw_tag refs_ok cell_ok local_ok] in *; decide_tags; try by left.
  - unfold unresolved_klass_at, slot_at. rewrite resolved_slot_at, Hc. cbn [fmap option_fmap option_map defined mbind outcome_bind].
    unfold slot_of. pose proof (zget_Some_range _ _ _ Hc). destruct (Z.ltb_spec index (zlen cells)); [|lia]. cbn [resolved_slot].
    cbn [mbind outcome_bind]. destruct (symbol_at_done i Hrefs) as [_ [Hl _]]. by apply class_name_decides.
  - apply andb_true_iff in Hrefs as [_ Hb]. destruct (shorts_done index b a _ Hc) as [Hh _]; [done..|apply Hok|apply Hok|].
    apply (member_format index b (CField a b)); [done..|]. by apply check_member_field.
  - apply andb_true_iff in Hrefs as [_ Hb]. destruct (shorts_done index b a _ Hc) as [Hh _]; [done..|apply Hok|apply Hok|].
    apply (member_format index b (CMethod a b)); [done..|]. intros Hn Hs.
    eapply decides_iff; [|by apply check_member_method]. cbn. naive_solver.
  - apply andb_true_iff in Hrefs as [_ Hb]. destruct (shorts_done index b a _ Hc) as [Hh _]; [done..|apply Hok|apply Hok|].
    apply (member_format index b (CInterfaceMethod a b)); [done..|]. intros Hn Hs.
    eapply decides_iff; [|by apply check_member_method]. cbn. naive_solver.
  - by apply name_and_type_format.
  - destruct Hok as (_ & Hk & Hi). destruct (shorts_done index i k _ Hc) as [Hh Hl]; [done..|lia|].
    unfold method_handle_index_at, method_handle_ref_kind_at. rewrite Hh, Hl. by apply handle_format.
  - unfold method_type_signature_at, method_type_index_at.
    rewrite (int_at_eq cells (zlen cells) index _ i Hc) by (unfold slot_of; by destruct (index <? zlen cells)).
    cbn [mbind outcome_bind]. destruct (symbol_at_done i Hrefs) as [-> Hs]. by apply method_signature_format.
  - destruct Hok as (_ & Ha & Hb). destruct (shorts_done index b a _ Hc) as [Hh _]; [done..|].
    apply (member_format index b (CInvokeDynamic a b)); [done..|]. intros Hn Hs.
    eapply decides_iff; [|by apply check_member_method]. cbn. naive_solver.
Qed.

Lemma check_format_loop_decides (fuel : nat) (index : Z) :
  0 <= index -> zlen cells - index <= Z.of_nat fuel ->
  decides (check_format_loop start part fuel P done_pool (zlen cells) index)
    (Forall (local_ok start part P cells) (drop (Z.to_nat index) cells)).
Proof using Hv Hr Hcells.
  revert index. induction fuel as [|fuel IH]; intros index H0 Hf; cbn [check_format_loop];
    (destruct (Z.ltb_spec index (zlen cells)) as [Hlt|Hge]; [try lia|rewrite drop_ge by lia; by left]).
  destruct (zget_is_Some cells index ltac:(lia)) as [c Hc]. pose proof Hc as Hz. unfold zget in Hz.
  rewrite bool_decide_true in Hz by lia. rewrite (drop_S _ _ _ Hz). eapply decides_iff; [symmetry; apply list.Forall_cons|].
  apply decides_bind; [by apply check_format_decides|]. intros _. replace (S (Z.to_nat index)) with (Z.to_nat (index + 1)) by lia.
  apply IH; lia.
Qed.
End Pool.
End Formats.

(** ** The constant pool *)

(** The pool after the parse. *)
Definition final_pool (cells : list cell) : ConstantPool :=
  {| tags := resolved_tag <$> cells; base := resolved_slot cells <$> cells |}.

Lemma final_pool_eq (cells : list cell) : resolved_pool cells (zlen cells) = final_pool cells.
Proof.
  unfold resolved_pool, final_pool. f_equal; apply list_eq; intros j; rewrite list_lookup_imap, list_lookup_fmap;
    destruct (cells !! j) eqn:Hj; [|done| |done]; cbn; apply lookup_lt_Some in Hj;
    by destruct (Z.ltb_spec (Z.of_nat j) (zlen cells)); [|lia].
Qed.

(** The entries of a list of constants; entry 0 is not used. *)
Definition entries (es : list cell) : list cell := Hole :: layouts es.

(** Every entry is a hole or one of the constants. *)
Lemma layouts_elem (es : list cell) (c : cell) : c ∈ layouts es -> c = Hole \/ c ∈ es.
Proof.
  induction es as [|d es IH]; [by intros ?%elem_of_nil|]. rewrite layouts_cons. intros [Hd|Hd]%elem_of_app.
  - assert (c = Hole \/ c = d) as [->| ->]; [|by left|by right; apply list_elem_of_here].
    destruct d; cbn [layout] in Hd; set_solver.
  - destruct (IH Hd) as [->|?]; [by left|by right; apply list_elem_of_further].
Qed.

Lemma elem_layouts (es : list cell) (c : cell) : c ∈ es -> c ∈ layouts es.
Proof.
  induction 1 as [c es|c d es _ IH]; rewrite layouts_cons, elem_of_app; [left|by right].
  destruct c; cbn [layout]; apply list_elem_of_here.
Qed.

Lemma entries_elem (es : list cell) (i : Z) (c : cell) : zget (entries es) i = Some c -> c = Hole \/ c ∈ es.
Proof.
  unfold zget. case_bool_decide; [|done]. intros Hc%list_elem_of_lookup_2. unfold entries in Hc.
  apply elem_of_cons in Hc as [->|Hc]; [by left|by apply layouts_elem].
Qed.

Lemma forall_layouts (Q : cell -> Prop) (es : list cell) : Q Hole -> Forall Q (layouts es) <-> Forall Q es.
Proof.
  intros HQ. rewrite !list.Forall_forall. split; intros H c Hc; [by apply H, elem_layouts|].
  destruct (layouts_elem es c Hc) as [->|?]; auto.
Qed.

Section ConstantPools.
Context (start part : Z -> option bool) (EnableInvokeDynamic : bool) (lookup_only : Z -> bool).
Context (P : Parser) (Hv : need_verify P = true) (Hr : relax_verify P = false).

(** A well-formed list of constants: values in range, references to constants of the
    right kind, legal names and signatures. *)
Definition well_formed (es : list cell) : Prop :=
  Forall (cell_ok P EnableInvokeDynamic) es /\
  Forall (fun c => refs_ok (major_version P) (entries es) c = true) es /\
  Forall (format_ok start part P (entries es)) es.

Lemma encodes_inj (es es' : list cell) (r r' : list Z) :
  Forall (cell_ok P EnableInvokeDynamic) es -> Forall (cell_ok P EnableInvokeDynamic) es' ->
  encodes es ++ r = encodes es' ++ r' -> zlen (layouts es) = zlen (layouts es') -> es = es' /\ r = r'.
Proof using.
  intros Hes. revert es'. induction Hes as [|c es Hc Hes IH]; intros [|c' es'] Hes' He Hl.
  - done.
  - rewrite layouts_cons, length_app in Hl. pose proof (cell_size_bounds c') as Hb. unfold cell_size in Hb. cbn [layouts fmap list_fmap mjoin list_join length] in Hl. lia.
  - rewrite layouts_cons, length_app in Hl. pose proof (cell_size_bounds c) as Hb. unfold cell_size in Hb. cbn [layouts fmap list_fmap mjoin list_join length] in Hl. lia.
  - apply list.Forall_cons in Hes' as [Hc' Hes']. rewrite !encodes_cons, <- !app_assoc in He.
    destruct (encode_prefix P EnableInvokeDynamic c c' _ _ Hc Hc' He) as [<- He']. rewrite !layouts_cons, !length_app in Hl.
    destruct (IH es' Hes' He' ltac:(lia)) as [<- <-]. done.
Qed.

Abbreviation pool_len es := (zlen (entries es)).

Lemma references_checked (es : list cell) :
  Forall (cell_ok P EnableInvokeDynamic) es ->
  check_entries_loop EnableInvokeDynamic (Z.to_nat (pool_len es)) P (pool_len es) 1 (raw_pool (entries es)) =
    if forallb (refs_ok (major_version P) (entries es)) es then Done (final_pool (entries es)) else Throw ClassFormatError.
Proof using Hv.
  intros Hes. rewrite resolved_start, <- (resolve_same (entries es) 0 Hole) by done. rewrite <- final_pool_eq.
  apply (check_entries_loop_eq P EnableInvokeDynamic Hv (entries es) eq_refl _ [Hole] es); [done|done|]. cbn [length]. lia.
Qed.

Lemma formats_checked (es : list cell) :
  Forall (cell_ok P EnableInvokeDynamic) es -> Forall (fun c => refs_ok (major_version P) (entries es) c = true) es ->
  decides (check_format_loop start part (Z.to_nat (pool_len es)) P (final_pool (entries es)) (pool_len es) 1)
    (Forall (format_ok start part P (entries es)) es).
Proof using Hv Hr.
  intros Hes Hrefs. rewrite <- final_pool_eq.
  eapply decides_iff; [|apply (check_format_loop_decides start part P Hv Hr EnableInvokeDynamic (entries es)); [|lia|lia]].
  - change (drop (Z.to_nat 1) (entries es)) with (layouts es). rewrite forall_layouts by done.
    apply local_ok_all; [|done]. intros i n s Hn. by destruct (entries_elem es i _ Hn).
  - intros i c Hc. destruct (entries_elem es i c Hc) as [->|Hin]; [by left|right].
    rewrite list.Forall_forall in Hes, Hrefs. auto.
Qed.

(** The bytes ahead describe the constants [es]; at least one byte follows. *)
Definition describes (bytes : list Z) (es : list cell) (r : list Z) : Prop :=
  bytes = java_bytes 2 (pool_len es) ++ encodes es ++ r /\ r <> [] /\ pool_len es < 2 ^ 16 /\ well_formed es.

Definition parsed (st : State) (es : list cell) (st' : State) : Prop :=
  cfs st' = advance (2 + zlen (encodes es)) (cfs st) /\ cp st' = final_pool (entries es) /\ cp_patches st' = None /\
  max_bootstrap_specifier_index st' = fold_left bootstrap_max es (max_bootstrap_specifier_index st).

(** The result once the length has been read. *)
Lemma parse_length_done (st st1 : State) (l : list Z) (res : outcome State) (es : list cell) (r : list Z) :
  rest_of (cfs st) = java_bytes 2 (pool_len es) ++ l -> l = encodes es ++ r -> r <> [] -> pool_len es < 2 ^ 16 ->
  Forall (cell_ok P EnableInvokeDynamic) es ->
  (if forallb (refs_ok (major_version P) (entries es)) es then
     decides (check_format_loop start part (Z.to_nat (pool_len es)) P (final_pool (entries es)) (pool_len es) 1)
       (Forall (format_ok start part P (entries es)) es) /\
     parsed st es st1 /\ res = (check_format_loop start part (Z.to_nat (pool_len es)) P (final_pool (entries es)) (pool_len es) 1;; Done st1)
   else res = Throw ClassFormatError) ->
  (exists es' r', describes (rest_of (cfs st)) es' r' /\ exists st', res = Done st' /\ parsed st es' st') \/
  ((exists e, res = Throw e) /\ forall es' r', ~ describes (rest_of (cfs st)) es' r').
Proof using.
  intros Hrest -> Hne Hlen Hes Hchk.
  assert (Hall : forallb (refs_ok (major_version P) (entries es)) es = true <->
    Forall (fun c => refs_ok (major_version P) (entries es) c = true) es).
  { rewrite forallb_forall, list.Forall_forall. by setoid_rewrite list_elem_of_In. }
  assert (Huniq : forall es' r', describes (rest_of (cfs st)) es' r' -> es' = es).
  { intros es' r' (He & _ & Hlen' & Hes' & _). rewrite Hrest in He.
    destruct (index_inj (pool_len es) (pool_len es') _ _ ltac:(lia) ltac:(lia) He) as [Hpl He']. unfold entries in Hpl. cbn [length] in Hpl.
    by destruct (encodes_inj es es' r r' Hes Hes' He' ltac:(lia)) as [<- _]. }
  destruct (forallb _ es).
  - destruct Hchk as ([[Hc Hf]|[Hc Hf]] & Hp & ->); rewrite Hc; cbn [mbind outcome_bind].
    + left. exists es, r. split; [|by exists st1]. split; [done|]. split; [done|]. split; [done|]. split; [done|]. by split; [apply Hall|].
    + right. split; [by eexists|]. intros es' r' Hd. rewrite (Huniq _ _ Hd) in Hd. destruct Hd as (_ & _ & _ & _ & _ & Hf'). done.
  - right. split; [by eexists|]. intros es' r' Hd. rewrite (Huniq _ _ Hd) in Hd. destruct Hd as (_ & _ & _ & _ & Hf & _).
    apply Hall in Hf. done.
Qed.
End ConstantPools.

Lemma allocate_raw (n : Z) : 0 <= n -> allocate n = raw_pool (replicate (Z.to_nat n) Hole) /\ sized (allocate n) n.
Proof.
  intros Hn. unfold allocate, raw_pool, sized. rewrite !fmap_replicate. split; [done|]. cbn [tags base].
  rewrite !length_replicate. lia.
Qed.

(** The bytes of the entries, behind the length. *)
Lemma parse_entries_result (P : Parser) (EnableInvokeDynamic : bool) (lookup_only : Z -> bool) (st : State) (n : Z) (l : list Z) :
  need_verify P = true -> cp_patches st = None -> stream_ok (cfs st) -> rest_of (cfs st) = l -> l <> [] -> 1 <= n ->
  cp st = allocate n ->
  loop_result P EnableInvokeDynamic n st [Hole] l (parse_constant_pool_entries EnableInvokeDynamic lookup_only P n st).
Proof.
  intros Hv Hp Hs <- Hl Hn Hcp. destruct (allocate_raw n ltac:(lia)) as [Ha Hsz].
  apply (parse_entries_loop_ok P EnableInvokeDynamic lookup_only Hv n (Z.to_nat n) st [] [Hole]); try done; rewrite ?Hcp; try done.
  - by constructor.
  - cbn [length]. lia.
  - cbn [flush fold_left]. rewrite Ha. f_equal. replace (Z.to_nat n) with (S (Z.to_nat (n - zlen [Hole]))) by (cbn [length]; lia). done.
Qed.

(** C3: In a class that is verified ([need_verify]) without relaxation ([relax_verify] false) and has
    no patches, for every class file buffer: the parser of the constant pool accepts exactly the encodings of well-formed lists of constants (values in range, modified
    UTF-8 strings, indices that refer to constants of the right kinds, legal class, field and method
    names, signatures that fit) that are followed by at least one byte.  It then has read just these
    bytes, has stored for every constant its tag and its value, with the names of classes and
    strings resolved to the symbols they refer to, and knows the largest bootstrap specifier.  All
    other buffers are refused with an exception; none makes the parser read outside of the buffer
    or of the pool, or loop. *)
Theorem parse_constant_pool_correct (start part : Z -> option bool) (EnableInvokeDynamic : bool) (lookup_only : Z -> bool)
    (P : Parser) (st : State) :
  need_verify P = true -> relax_verify P = false -> cp_patches st = None -> stream_ok (cfs st) ->
  let res := parse_constant_pool start part EnableInvokeDynamic lookup_only P st in
  let describes := describes start part EnableInvokeDynamic P (rest_of (cfs st)) in
  (exists es r, describes es r /\ exists st', res = Done st' /\ parsed st es st') \/
  ((exists e, res = Throw e) /\ forall es r, ~ describes es r).
Proof.
  intros Hv Hr Hp Hs. cbv zeta. unfold parse_constant_pool.
  destruct (read_number 2 (cfs st) (fun n s =>
    guarantee_property (1 <=? n);;
    st ← parse_constant_pool_entries EnableInvokeDynamic lookup_only P n (set_cp (set_cfs st s) (allocate n));
    c ← check_entries_loop EnableInvokeDynamic (Z.to_nat n) P n 1 (cp st);
    st ← apply_patches n (set_cp st c);
    (if need_verify P then check_format_loop start part (Z.to_nat n) P (cp st) n 1 else Done tt);;
    Done st) Hs ltac:(lia)) as [(n & l & Hrest & Hl & Hn & Hres)|[Hres Hno]].
  2: { right. split; [eexists; exact Hres|]. intros es r (He & Hne & _). rewrite app_assoc in He.
       rewrite <- app_assoc in He. apply Hno, app_nil in He. by destruct He. }
  unfold get_u2_fast. change 3 with (Z.of_nat 2 + 1). rewrite Hres. clear Hres.
  destruct (Z.leb_spec 1 n) as [H1|H1]; cbn [guarantee_property mbind outcome_bind].
  2: { right. split; [by eexists|]. intros es r (He & _ & Hlen & _). rewrite Hrest in He.
       destruct (index_inj n (zlen (entries es)) _ _ ltac:(lia) ltac:(lia) He) as [Hn' _]. unfold entries in Hn'. cbn [length] in Hn'. lia. }
  destruct (advance_ok (cfs st) (java_bytes 2 n) l Hs Hrest) as [Hs' Hr']. rewrite java_bytes_length in Hs', Hr'.
  destruct (parse_entries_result P EnableInvokeDynamic lookup_only
    (set_cp (set_cfs st (advance (Z.of_nat 2) (cfs st))) (allocate n)) n l Hv Hp Hs' Hr' Hl H1 eq_refl)
    as [(es & r & (He & Hne & Hes & Hlen) & st1 & -> & Hs1 & Hcp1 & Hp1 & Hm1)|[[e ->] Hno]]; cbn [mbind outcome_bind].
  2: { right. split; [by eexists|]. intros es r (He & Hne & Hlen & Hes & _). rewrite Hrest in He.
       destruct (index_inj n (zlen (entries es)) _ _ ltac:(lia) ltac:(lia) He) as [Hn' He']. by apply (Hno es r). }
  change ([Hole] ++ layouts es) with (entries es) in *. rewrite <- Hlen in Hrest |- *. rewrite Hcp1.
  eapply (parse_length_done start part EnableInvokeDynamic P st (set_cp st1 (final_pool (entries es))) l _ es r); try done; [lia|].
  rewrite references_checked by done. destruct (forallb _ es) eqn:Hall; [|done]. cbn [mbind outcome_bind].
  rewrite forallb_forall in Hall. setoid_rewrite <- list_elem_of_In in Hall. apply list.Forall_forall in Hall.
  split; [by apply (formats_checked start part EnableInvokeDynamic)|]. split.
  - split; [|done]. cbn [set_cp cfs]. rewrite Hs1. cbn [set_cp set_cfs cfs]. by rewrite advance_advance.
  - unfold apply_patches. cbn [set_cp cp_patches]. rewrite Hp1. cbn [mbind outcome_bind]. by rewrite Hv.
Qed.

(** The constructor of a class [A] and a long, followed by one byte. *)
Definition sample_constants : list cell :=
  [CUtf8 [65]; CClass 1; CUtf8 object_initializer_name; CUtf8 [40; 41; 86]; CNameAndType 3 4; CMethod 2 5; CLong (-2)].
Definition sample_state (bytes : list Z) : State :=
  {| cfs := new_stream bytes true; cp := allocate 0; max_bootstrap_specifier_index := -1; cp_patches := None |}.

Lemma parse_constant_pool_correct_witness :
  let st := sample_state (java_bytes 2 9 ++ encodes sample_constants ++ [0]) in
  let parse := parse_constant_pool sample_start sample_part true (fun _ => false) (sample_parser 52) in
  (exists es r, describes sample_start sample_part true (sample_parser 52) (rest_of (cfs st)) es r /\
     exists st', parse st = Done st' /\ parsed st es st' /\ cp st' = final_pool (entries sample_constants)) /\
  parse (sample_state (java_bytes 2 3 ++ encodes [CUtf8 [65]; CClass 2] ++ [0])) = Throw ClassFormatError.
Proof.
  intros st parse. split; [|vm_compute; reflexivity].
  destruct (parse_constant_pool_correct sample_start sample_part true (fun _ => false) (sample_parser 52) st eq_refl eq_refl eq_refl)
    as [(es & r & Hd & st' & Hp & Hst)|[[e He] _]].
  - constructor; [done|split; vm_compute; done|vm_compute; done|vm_compute; repeat constructor; done].
  - exists es, r. split; [exact Hd|]. exists st'. split; [exact Hp|]. split; [exact Hst|].
    vm_compute in Hp. injection Hp as <-. reflexivity.
  - vm_compute in He. discriminate.
Defined.
