(* ===== verification/FieldLayout.v ===== *)
(** The layout of the fields of a class (classfile/classFileParser.cpp,
    [layout_fields], [compute_oop_map_count] and [fill_oop_maps]) over the packed
    descriptions of fields (oops/fieldInfo.hpp).

    The variables [next_static_oop_offset] to [next_nonstatic_byte_offset] of the source
    are one function of the allocation type, and so are the counts and the gaps; a type
    without a gap has the gap count 0.  Computations on [int] and [unsigned int] wrap.
    A store outside of an array, a failed conversion of a field's tag and
    [ShouldNotReachHere] have no result.  The platform is a 64-bit one. *)

From stdpp Require Import strings.
From S2P Require Import Prelude GlobalDefinitions ClassFileStream FormatChecker ConstantPool BitMap.

(** ** Definitions *)

(** *** Allocation types *)

Inductive FieldAllocationType :=
| STATIC_OOP
| STATIC_BYTE
| STATIC_SHORT
| STATIC_WORD
| STATIC_DOUBLE
| NONSTATIC_OOP
| NONSTATIC_BYTE
| NONSTATIC_SHORT
| NONSTATIC_WORD
| NONSTATIC_DOUBLE.

#[export] Instance FieldAllocationType_eq_dec : EqDecision FieldAllocationType.
Proof. solve_decision. Defined.

(** The values of the enumeration, and the conversion from [int]. *)
Definition atype_code (a : FieldAllocationType) : Z :=
  match a with
  | STATIC_OOP => 0 | STATIC_BYTE => 1 | STATIC_SHORT => 2 | STATIC_WORD => 3 | STATIC_DOUBLE => 4
  | NONSTATIC_OOP => 5 | NONSTATIC_BYTE => 6 | NONSTATIC_SHORT => 7 | NONSTATIC_WORD => 8 | NONSTATIC_DOUBLE => 9
  end.
Definition all_atypes : list FieldAllocationType :=
  [STATIC_OOP; STATIC_BYTE; STATIC_SHORT; STATIC_WORD; STATIC_DOUBLE;
   NONSTATIC_OOP; NONSTATIC_BYTE; NONSTATIC_SHORT; NONSTATIC_WORD; NONSTATIC_DOUBLE].
Definition atype_of (code : Z) : option FieldAllocationType := zget all_atypes code.

Definition T_BOOLEAN : Z := 4.
Definition T_CHAR : Z := 5.
Definition T_BYTE : Z := 8.
Definition T_SHORT : Z := 9.
Definition T_OBJECT : Z := 12.
Definition T_ARRAY : Z := 13.

(** [char2type]: the type a signature begins with. *)
Definition char2type (c : Z) : Z :=
  if c =? JVM_SIGNATURE_BYTE then T_BYTE else if c =? JVM_SIGNATURE_CHAR then T_CHAR
  else if c =? JVM_SIGNATURE_DOUBLE then T_DOUBLE else if c =? JVM_SIGNATURE_FLOAT then T_FLOAT
  else if c =? JVM_SIGNATURE_INT then T_INT else if c =? JVM_SIGNATURE_LONG then T_LONG
  else if c =? JVM_SIGNATURE_SHORT then T_SHORT else if c =? JVM_SIGNATURE_BOOLEAN then T_BOOLEAN
  else if c =? JVM_SIGNATURE_VOID then 14 else if c =? JVM_SIGNATURE_CLASS then T_OBJECT
  else if c =? JVM_SIGNATURE_ARRAY then T_ARRAY else T_ILLEGAL.

(** [basic_type_to_atype]; [None] is [BAD_ALLOCATION_TYPE]. *)
Definition basic_type_to_atype (is_static : bool) (type : Z) : option FieldAllocationType :=
  if (type =? T_BOOLEAN) || (type =? T_BYTE) then Some (if is_static then STATIC_BYTE else NONSTATIC_BYTE)
  else if (type =? T_CHAR) || (type =? T_SHORT) then Some (if is_static then STATIC_SHORT else NONSTATIC_SHORT)
  else if (type =? T_FLOAT) || (type =? T_INT) then Some (if is_static then STATIC_WORD else NONSTATIC_WORD)
  else if (type =? T_DOUBLE) || (type =? T_LONG) then Some (if is_static then STATIC_DOUBLE else NONSTATIC_DOUBLE)
  else if (type =? T_OBJECT) || (type =? T_ARRAY) then Some (if is_static then STATIC_OOP else NONSTATIC_OOP)
  else None.

(** A table with an entry for every allocation type. *)
Definition put_at {A} (f : FieldAllocationType -> A) (a : FieldAllocationType) (x : A) : FieldAllocationType -> A :=
  fun b => if bool_decide (a = b) then x else f b.

(** The array [count] of [u2]. *)
Definition FieldAllocationCount := FieldAllocationType -> Z.
Definition new_count : FieldAllocationCount := fun _ => 0.
Definition count_up (fac : FieldAllocationCount) (a : FieldAllocationType) : FieldAllocationCount :=
  put_at fac a (u16 (fac a + 1)).
Definition update (fac : FieldAllocationCount) (is_static : bool) (type : Z)
    : option (FieldAllocationType * FieldAllocationCount) :=
  atype ← basic_type_to_atype is_static type; Some (atype, count_up fac atype).

(** *** Packed fields *)

Definition FIELDINFO_TAG_SIZE : Z := 2.
Definition FIELDINFO_TAG_BLANK : Z := 0.
Definition FIELDINFO_TAG_OFFSET : Z := 1.
Definition FIELDINFO_TAG_TYPE_PLAIN : Z := 2.
Definition FIELDINFO_TAG_TYPE_CONTENDED : Z := 3.
Definition FIELDINFO_TAG_MASK : Z := 3.

(** The six shorts of a field. *)
Record FieldInfo := {
  access_flags : Z;
  name_index : Z;
  signature_index : Z;
  initval_index : Z;
  low_packed : Z;
  high_packed : Z;
}.

Definition initialize (access_flags name_index signature_index initval_index : Z) : FieldInfo :=
  {| access_flags := access_flags; name_index := name_index; signature_index := signature_index;
     initval_index := initval_index; low_packed := 0; high_packed := 0 |}.
Definition set_packed (f : FieldInfo) (low high : Z) : FieldInfo :=
  {| access_flags := access_flags f; name_index := name_index f; signature_index := signature_index f;
     initval_index := initval_index f; low_packed := low; high_packed := high |}.

Definition field_tag (f : FieldInfo) : Z := Z.land (low_packed f) FIELDINFO_TAG_MASK.
Definition is_static (f : FieldInfo) : bool := flag (access_flags f) JVM_ACC_STATIC.

(** [build_int_from_shorts(low, high) >> FIELDINFO_TAG_SIZE], a shift of an [int],
    as a [u4]. *)
Definition offset (f : FieldInfo) : option Z :=
  if field_tag f =? FIELDINFO_TAG_OFFSET
  then Some (u32 (Z.shiftr (build_int_from_shorts (low_packed f) (high_packed f)) FIELDINFO_TAG_SIZE))
  else None.

Definition is_contended (f : FieldInfo) : option bool :=
  if field_tag f =? FIELDINFO_TAG_TYPE_PLAIN then Some false
  else if field_tag f =? FIELDINFO_TAG_TYPE_CONTENDED then Some true else None.

Definition contended_group (f : FieldInfo) : option Z :=
  if field_tag f =? FIELDINFO_TAG_TYPE_PLAIN then Some 0
  else if field_tag f =? FIELDINFO_TAG_TYPE_CONTENDED then Some (high_packed f) else None.

Definition allocation_type (f : FieldInfo) : option FieldAllocationType :=
  if (field_tag f =? FIELDINFO_TAG_TYPE_PLAIN) || (field_tag f =? FIELDINFO_TAG_TYPE_CONTENDED)
  then atype_of (Z.shiftr (low_packed f) FIELDINFO_TAG_SIZE) else None.

Definition is_offset_set (f : FieldInfo) : bool := field_tag f =? FIELDINFO_TAG_OFFSET.

Definition set_offset (f : FieldInfo) (val : Z) : FieldInfo :=
  let val := u32 (Z.shiftl (u32 val) FIELDINFO_TAG_SIZE) in
  set_packed f (Z.lor (extract_low_short_from_int (s32 val)) FIELDINFO_TAG_OFFSET)
    (extract_high_short_from_int (s32 val)).

Definition set_allocation_type (f : FieldInfo) (type : FieldAllocationType) : option FieldInfo :=
  if field_tag f =? FIELDINFO_TAG_BLANK then
    let low := Z.land (Z.shiftl (atype_code type) FIELDINFO_TAG_SIZE) 0xFFFF in
    let low := Z.land low (Z.lnot FIELDINFO_TAG_MASK) in
    Some (set_packed f (Z.lor low FIELDINFO_TAG_TYPE_PLAIN) (high_packed f))
  else None.

Definition set_contended_group (f : FieldInfo) (val : Z) : option FieldInfo :=
  if field_tag f =? FIELDINFO_TAG_TYPE_PLAIN
  then Some (set_packed f (Z.lor (low_packed f) FIELDINFO_TAG_TYPE_CONTENDED) val) else None.

(** What [parse_fields] knows of a field when it makes its entry; the group is there
    if the field has the annotation [sun.misc.Contended]. *)
Record FieldDescription := {
  fd_flags : Z;
  fd_name : Z;
  fd_signature : Z;
  fd_initval : Z;
  fd_type : Z;
  fd_contended : option Z;
}.

Definition make_field (fac : FieldAllocationCount) (d : FieldDescription) : option (FieldInfo * FieldAllocationCount) :=
  let field := initialize (fd_flags d) (fd_name d) (fd_signature d) (fd_initval d) in
  '(atype, fac) ← update fac (is_static field) (fd_type d);
  field ← set_allocation_type field atype;
  field ← match fd_contended d with Some group => set_contended_group field group | None => Some field end;
  Some (field, fac).

Fixpoint make_fields (fac : FieldAllocationCount) (ds : list FieldDescription)
    : option (list FieldInfo * FieldAllocationCount) :=
  match ds with
  | [] => Some ([], fac)
  | d :: ds => '(f, fac) ← make_field fac d; '(fs, fac) ← make_fields fac ds; Some (f :: fs, fac)
  end.

(** *** Configuration *)

(** Sizes that depend on the flags of the virtual machine and on the class
    [java.lang.Class]. *)
Record Config := {
  heapOopSize : Z;
  base_offset_in_bytes : Z;
  offset_of_static_fields : Z;
  ContendedPaddingWidth : Z;
  MinObjAlignment : Z;
  CompactFields : bool;
  FieldsAllocationStyle : Z;
}.

Definition BytesPerShort : Z := 2.
Definition BytesPerInt : Z := 4.
Definition BytesPerLong : Z := 8.
Definition wordSize : Z := 8.

(** The fields of the super class as its [InstanceKlass] describes them: their size, and
    the blocks of oops, each with an offset and a count. *)
Record Super := {
  super_nonstatic_field_size : Z;
  super_has_nonstatic_fields : bool;
  super_oop_maps : list (Z * Z);
}.

(** The classes with predefined offsets, loaded by the boot loader. *)
Definition symbol_of_string (s : string) : list Z := (fun c => Z.of_N (Ascii.N_of_ascii c)) <$> String.list_ascii_of_string s.
Definition hard_coded_classes : list (list Z) :=
  symbol_of_string <$>
  ["java/lang/AssertionStatusDirectives"; "java/lang/Class"; "java/lang/ClassLoader"; "java/lang/ref/Reference";
   "java/lang/ref/SoftReference"; "java/lang/StackTraceElement"; "java/lang/String"; "java/lang/Throwable";
   "java/lang/Boolean"; "java/lang/Character"; "java/lang/Float"; "java/lang/Double"; "java/lang/Byte";
   "java/lang/Short"; "java/lang/Integer"; "java/lang/Long"]%string.
Definition is_hard_coded (boot_loader : bool) (class_name : list Z) : bool :=
  boot_loader && existsb (symbol_eq class_name) hard_coded_classes.

Section Layout.
Context (C : Config).

Abbreviation oop_size := (heapOopSize C).

(** The bytes of a field. *)
Definition type_size (a : FieldAllocationType) : Z :=
  match a with
  | STATIC_OOP | NONSTATIC_OOP => oop_size
  | STATIC_BYTE | NONSTATIC_BYTE => 1
  | STATIC_SHORT | NONSTATIC_SHORT => BytesPerShort
  | STATIC_WORD | NONSTATIC_WORD => BytesPerInt
  | STATIC_DOUBLE | NONSTATIC_DOUBLE => BytesPerLong
  end.

(** The contended fields by type, and the instance fields among them. *)
Fixpoint count_contended (fields : list FieldInfo) (fac : FieldAllocationCount) (n : Z) : option (FieldAllocationCount * Z) :=
  match fields with
  | [] => Some (fac, n)
  | f :: fields =>
      atype ← allocation_type f;
      c ← is_contended f;
      if (c : bool) then count_contended fields (count_up fac atype) (if is_static f then n else s32 (n + 1))
      else count_contended fields fac n
  end.

(** The first offsets of the static fields. *)
Definition static_offsets (fac : FieldAllocationCount) : FieldAllocationType -> Z :=
  let next_static_oop_offset := offset_of_static_fields C in
  let next_static_double_offset := s32 (next_static_oop_offset + s32 (fac STATIC_OOP * oop_size)) in
  let next_static_double_offset :=
    if negb (fac STATIC_DOUBLE =? 0) then s32 (align_size_up next_static_double_offset BytesPerLong)
    else next_static_double_offset in
  let next_static_word_offset := s32 (next_static_double_offset + s32 (fac STATIC_DOUBLE * BytesPerLong)) in
  let next_static_short_offset := s32 (next_static_word_offset + s32 (fac STATIC_WORD * BytesPerInt)) in
  let next_static_byte_offset := s32 (next_static_short_offset + s32 (fac STATIC_SHORT * BytesPerShort)) in
  fun a => match a with
           | STATIC_OOP => next_static_oop_offset
           | STATIC_BYTE => next_static_byte_offset
           | STATIC_SHORT => next_static_short_offset
           | STATIC_WORD => next_static_word_offset
           | STATIC_DOUBLE => next_static_double_offset
           | _ => 0
           end.

(** [int + unsigned * int] *)
Definition after (start n size : Z) : Z := s32 (start + u32 (n * size)).

(** The allocation style, and the first offsets of oops and of longs and doubles. *)
Definition style_offsets (super : option Super) (style nonstatic_field_size field_offset oop_count : Z) : Z * Z * Z :=
  let oops_first := (0, field_offset, after field_offset oop_count oop_size) in
  let oops_last := (1, 0, field_offset) in
  if style =? 0 then oops_first
  else if style =? 1 then oops_last
  else
    match super with
    | Some k =>
        match list.last (super_oop_maps k) with
        | Some (last_offset, last_count) =>
            if (0 <? nonstatic_field_size) && (after last_offset last_count oop_size =? field_offset)
            then oops_first else oops_last
        | None => oops_last
        end
    | None => oops_last
    end.

(** Fields of one size into a gap: the rest of the gap, the offset behind them, the fields
    left over and those in the gap. *)
Fixpoint squeeze_loop (fuel : nat) (size length offset count space : Z) : option (Z * Z * Z * Z) :=
  if (size <=? length) && (0 <? count) then
    match fuel with
    | O => None
    | S fuel => squeeze_loop fuel size (length - size) (offset + size) (u32 (count - 1)) (space + 1)
    end
  else Some (length, offset, count, space).

(** The gap before the longs and doubles: the fields left over, those in the gap with their
    first offsets, and the offset of the longs and doubles. *)
Record Gap := {
  gap_left : FieldAllocationCount;
  gap_count : FieldAllocationType -> Z;
  gap_offset : FieldAllocationType -> Z;
  gap_end : Z;
}.

Definition no_gap (count : FieldAllocationCount) (double_offset : Z) : Gap :=
  {| gap_left := count; gap_count := fun _ => 0; gap_offset := fun _ => 0; gap_end := double_offset |}.

Definition fill_gap (compact_fields : bool) (style : Z) (count : FieldAllocationCount) (double_offset : Z) : option Gap :=
  if negb (0 <? count NONSTATIC_DOUBLE) then Some (no_gap count double_offset) else
  let offset := double_offset in
  let double_offset := s32 (align_size_up offset BytesPerLong) in
  if negb (compact_fields && negb (offset =? double_offset)) then Some (no_gap count double_offset) else
  let length := double_offset - offset in
  let word_offset := offset in
  let '(length, offset, words, word_space) :=
    if 0 <? count NONSTATIC_WORD then (length - BytesPerInt, offset + BytesPerInt, u32 (count NONSTATIC_WORD - 1), 1)
    else (length, offset, count NONSTATIC_WORD, 0) in
  let short_offset := offset in
  '(length, offset, shorts, short_space) ←
    squeeze_loop (Z.to_nat length) BytesPerShort length offset (count NONSTATIC_SHORT) 0;
  let byte_offset := offset in
  '(length, _, bytes, byte_space) ← squeeze_loop (Z.to_nat length) 1 length offset (count NONSTATIC_BYTE) 0;
  let oop_offset := offset in
  let '(oops, oop_space) :=
    if (oop_size <=? length) && (0 <? count NONSTATIC_OOP) && negb (style =? 0)
    then (u32 (count NONSTATIC_OOP - 1), 1) else (count NONSTATIC_OOP, 0) in
  Some
    {| gap_left := put_at (put_at (put_at (put_at count NONSTATIC_WORD words) NONSTATIC_SHORT shorts)
                                  NONSTATIC_BYTE bytes) NONSTATIC_OOP oops;
       gap_count := fun a => match a with
                             | NONSTATIC_WORD => word_space
                             | NONSTATIC_SHORT => short_space
                             | NONSTATIC_BYTE => byte_space
                             | NONSTATIC_OOP => oop_space
                             | _ => 0
                             end;
       gap_offset := fun a => match a with
                              | NONSTATIC_WORD => word_offset
                              | NONSTATIC_SHORT => short_offset
                              | NONSTATIC_BYTE => byte_offset
                              | NONSTATIC_OOP => oop_offset
                              | _ => 0
                              end;
       gap_end := double_offset |}.

(** The offsets of the next fields by type, the gaps, and the blocks of oops found so far
    ([first_nonstatic_oop_offset] is 0 while there are none). *)
Record Layout := {
  next_offset : FieldAllocationType -> Z;
  space_count : FieldAllocationType -> Z;
  space_offset : FieldAllocationType -> Z;
  oop_maps : list (Z * Z);
  first_nonstatic_oop_offset : Z;
}.

Definition set_maps (st : Layout) (maps : list (Z * Z)) (first : Z) : Layout :=
  {| next_offset := next_offset st; space_count := space_count st; space_offset := space_offset st;
     oop_maps := maps; first_nonstatic_oop_offset := first |}.

(** The offsets behind the gap, and the end of the fields that are not contended. *)
Definition nonstatic_offsets (style oop_offset : Z) (gap : Gap) : (FieldAllocationType -> Z) * Z :=
  let left := gap_left gap in
  let double_offset := gap_end gap in
  let word_offset := after double_offset (left NONSTATIC_DOUBLE) BytesPerLong in
  let short_offset := after word_offset (left NONSTATIC_WORD) BytesPerInt in
  let byte_offset := after short_offset (left NONSTATIC_SHORT) BytesPerShort in
  let padded_offset := after byte_offset (left NONSTATIC_BYTE) 1 in
  let '(oop_offset, padded_offset) :=
    if style =? 1 then
      let oop_offset :=
        if 0 <? left NONSTATIC_OOP then s32 (align_size_up padded_offset oop_size) else padded_offset in
      (oop_offset, after oop_offset (left NONSTATIC_OOP) oop_size)
    else (oop_offset, padded_offset) in
  (fun a => match a with
            | NONSTATIC_OOP => oop_offset
            | NONSTATIC_BYTE => byte_offset
            | NONSTATIC_SHORT => short_offset
            | NONSTATIC_WORD => word_offset
            | NONSTATIC_DOUBLE => double_offset
            | _ => 0
            end, padded_offset).

(** The offset of the next field of a type. *)
Definition pick (a : FieldAllocationType) (st : Layout) : Z * Layout :=
  if 0 <? space_count st a then
    (space_offset st a,
     {| next_offset := next_offset st; space_count := put_at (space_count st) a (space_count st a - 1);
        space_offset := put_at (space_offset st) a (s32 (space_offset st a + type_size a));
        oop_maps := oop_maps st; first_nonstatic_oop_offset := first_nonstatic_oop_offset st |})
  else
    (next_offset st a,
     {| next_offset := put_at (next_offset st) a (s32 (next_offset st a + type_size a));
        space_count := space_count st; space_offset := space_offset st;
        oop_maps := oop_maps st; first_nonstatic_oop_offset := first_nonstatic_oop_offset st |}).

(** A new block of one oop, in arrays of [max_maps] elements. *)
Definition new_oop_map (max_maps real_offset : Z) (maps : list (Z * Z)) (first : Z) : option (list (Z * Z) * Z) :=
  if zlen maps <? max_maps
  then Some (maps ++ [(real_offset, 1)], if first =? 0 then real_offset else first) else None.

(** One more oop, at the end of the last block or in a new one. *)
Definition update_oop_maps (max_maps real_offset : Z) (st : Layout) : option Layout :=
  match list.last (oop_maps st) with
  | Some (map_offset, map_count) =>
      if map_offset =? s32 (real_offset - s32 (map_count * oop_size)) then
        Some (set_maps st (take (length (oop_maps st) - 1) (oop_maps st) ++ [(map_offset, u32 (map_count + 1))])
                (first_nonstatic_oop_offset st))
      else
        '(maps, first) ← new_oop_map max_maps real_offset (oop_maps st) (first_nonstatic_oop_offset st);
        Some (set_maps st maps first)
  | None =>
      '(maps, first) ← new_oop_map max_maps real_offset (oop_maps st) (first_nonstatic_oop_offset st);
      Some (set_maps st maps first)
  end.

(** The fields that are not contended instance fields. *)
Definition layout_field (max_maps : Z) (f : FieldInfo) (st : Layout) : option (FieldInfo * Layout) :=
  if is_offset_set f then Some (f, st) else
  c ← is_contended f;
  if c && negb (is_static f) then Some (f, st) else
  atype ← allocation_type f;
  let '(real_offset, st) := pick atype st in
  st ← (if bool_decide (atype = NONSTATIC_OOP) then update_oop_maps max_maps real_offset st else Some st);
  Some (set_offset f real_offset, st).

Fixpoint layout_loop (max_maps : Z) (fields : list FieldInfo) (st : Layout) : option (list FieldInfo * Layout) :=
  match fields with
  | [] => Some ([], st)
  | f :: fields =>
      '(f, st) ← layout_field max_maps f st;
      '(fields, st) ← layout_loop max_maps fields st;
      Some (f :: fields, st)
  end.

(** *** Contended fields *)

(** The groups of the contended fields that have no offset yet. *)
Fixpoint collect_groups (fields : list FieldInfo) (bm : BitMap) : option BitMap :=
  match fields with
  | [] => Some bm
  | f :: fields =>
      bm ← (if is_offset_set f then Some bm else
            c ← is_contended f;
            if (c : bool) then group ← contended_group f; set_bit bm group else Some bm);
      collect_groups fields bm
  end.

(** The end of the fields, and the blocks of oops. *)
Record Padded := {
  padded_offset : Z;
  padded_maps : list (Z * Z);
  padded_first : Z;
}.

Definition contended_field (max_maps group : Z) (f : FieldInfo) (st : Padded) : option (FieldInfo * Padded) :=
  if is_offset_set f then Some (f, st) else
  c ← is_contended f;
  g ← contended_group f;
  if negb c || negb (g =? group) then Some (f, st) else
  if is_static f then Some (f, st) else
  atype ← allocation_type f;
  if bool_decide (atype ∈ [STATIC_OOP; STATIC_BYTE; STATIC_SHORT; STATIC_WORD; STATIC_DOUBLE]) then None else
  let real_offset := s32 (align_size_up (padded_offset st) (type_size atype)) in
  let next := s32 (real_offset + type_size atype) in
  '(maps, first) ← (if bool_decide (atype = NONSTATIC_OOP)
                    then new_oop_map max_maps real_offset (padded_maps st) (padded_first st)
                    else Some (padded_maps st, padded_first st));
  let next := if g =? 0 then s32 (next + ContendedPaddingWidth C) else next in
  Some (set_offset f real_offset, {| padded_offset := next; padded_maps := maps; padded_first := first |}).

Fixpoint group_loop (max_maps group : Z) (fields : list FieldInfo) (st : Padded) : option (list FieldInfo * Padded) :=
  match fields with
  | [] => Some ([], st)
  | f :: fields =>
      '(f, st) ← contended_field max_maps group f st;
      '(fields, st) ← group_loop max_maps group fields st;
      Some (f :: fields, st)
  end.

Fixpoint groups_loop (fuel : nat) (bm : BitMap) (max_maps current_group : Z) (fields : list FieldInfo) (st : Padded)
    : option (list FieldInfo * Padded) :=
  group ← get_next_one_offset bm (current_group + 1) (bm_size bm);
  if group =? bm_size bm then Some (fields, st) else
  match fuel with
  | O => None
  | S fuel =>
      '(fields, st) ← group_loop max_maps group fields st;
      let st := if group =? 0 then st else
                {| padded_offset := s32 (padded_offset st + ContendedPaddingWidth C);
                   padded_maps := padded_maps st; padded_first := padded_first st |} in
      groups_loop fuel bm max_maps group fields st
  end.

Definition layout_contended (cp_size : Z) (fresh : list Z) (max_maps contended_count : Z) (fields : list FieldInfo)
    (st : Padded) : option (list FieldInfo * Padded) :=
  if 0 <? contended_count then
    let st := {| padded_offset := s32 (padded_offset st + ContendedPaddingWidth C);
                 padded_maps := padded_maps st; padded_first := padded_first st |} in
    bm ← new_bitmap cp_size fresh;
    bm ← collect_groups fields bm;
    groups_loop (Z.to_nat cp_size) bm max_maps (-1) fields st
  else Some (fields, st).

(** *** The layout of a class *)

Definition compute_oop_map_count (super : option Super) (maps : list (Z * Z)) (first_oop_offset : Z) : Z :=
  let super_maps := from_option super_oop_maps [] super in
  let map_count := zlen super_maps in
  if 0 <? zlen maps then
    match list.last super_maps with
    | None => zlen maps
    | Some (last_offset, last_count) =>
        let next_offset := after last_offset last_count oop_size in
        u32 (map_count + (if next_offset =? first_oop_offset then zlen maps - 1 else zlen maps))
    end
  else map_count.

(** The blocks of the class: those of the super class, whose last one may be extended, and
    those of the fields.  The class has room for [total] blocks, and all are filled. *)
Definition fill_oop_maps (super : option Super) (maps : list (Z * Z)) (total : Z) : option (list (Z * Z)) :=
  let super_maps := from_option super_oop_maps [] super in
  let filled :=
    match maps with
    | [] => super_maps
    | (_, count) :: rest =>
        if total <? zlen super_maps + zlen maps then
          match list.last super_maps with
          | Some (last_offset, last_count) =>
              take (length super_maps - 1) super_maps ++ (last_offset, u32 (last_count + count)) :: rest
          | None => []
          end
        else super_maps ++ maps
    end in
  if zlen filled =? total then Some filled else None.

Record FieldLayoutInfo := {
  nonstatic_oop_maps : list (Z * Z);
  total_oop_map_count : Z;
  instance_size : Z;
  nonstatic_field_size : Z;
  static_field_size : Z;
  has_nonstatic_fields : bool;
}.

Definition layout_fields (super : option Super) (boot_loader : bool) (class_name : list Z) (is_contended_class : bool)
    (cp_size : Z) (fresh : list Z) (fac : FieldAllocationCount) (fields : list FieldInfo)
    : option (list FieldInfo * FieldLayoutInfo) :=
  let super_field_size := from_option super_nonstatic_field_size 0 super in
  '(fac_contended, nonstatic_contended_count) ← count_contended fields new_count 0;
  let nonstatic_fields_start := s32 (base_offset_in_bytes C + s32 (super_field_size * oop_size)) in
  let next_nonstatic_field_offset :=
    if is_contended_class then s32 (nonstatic_fields_start + ContendedPaddingWidth C) else nonstatic_fields_start in
  let count := fun a => u32 (fac a - fac_contended a) in
  let nonstatic_fields_count :=
    u32 (fac NONSTATIC_DOUBLE + fac NONSTATIC_WORD + fac NONSTATIC_SHORT + fac NONSTATIC_BYTE + fac NONSTATIC_OOP) in
  let has_nonstatic_fields :=
    from_option super_has_nonstatic_fields false super || negb (nonstatic_fields_count =? 0) in
  let max_nonstatic_oop_maps := fac NONSTATIC_OOP + 1 in
  let allocation_style :=
    if (FieldsAllocationStyle C <? 0) || (2 <? FieldsAllocationStyle C) then 1 else FieldsAllocationStyle C in
  let '(allocation_style, compact_fields) :=
    if (negb (allocation_style =? 0) || CompactFields C) && is_hard_coded boot_loader class_name
    then (0, false) else (allocation_style, CompactFields C) in
  let '(allocation_style, oop_offset, double_offset) :=
    style_offsets super allocation_style super_field_size next_nonstatic_field_offset (count NONSTATIC_OOP) in
  gap ← fill_gap compact_fields allocation_style count double_offset;
  let '(offsets, padded) := nonstatic_offsets allocation_style oop_offset gap in
  let static_next := static_offsets fac in
  let st :=
    {| next_offset := fun a => if bool_decide (a ∈ [STATIC_OOP; STATIC_BYTE; STATIC_SHORT; STATIC_WORD; STATIC_DOUBLE])
                               then static_next a else offsets a;
       space_count := gap_count gap; space_offset := gap_offset gap; oop_maps := []; first_nonstatic_oop_offset := 0 |} in
  '(fields, st) ← layout_loop max_nonstatic_oop_maps fields st;
  '(fields, pst) ← layout_contended cp_size fresh max_nonstatic_oop_maps nonstatic_contended_count fields
    {| padded_offset := padded; padded_maps := oop_maps st; padded_first := first_nonstatic_oop_offset st |};
  let notaligned_nonstatic_fields_end :=
    if is_contended_class then s32 (padded_offset pst + ContendedPaddingWidth C) else padded_offset pst in
  let nonstatic_fields_end := s32 (align_size_up notaligned_nonstatic_fields_end oop_size) in
  let instance_end := s32 (align_size_up notaligned_nonstatic_fields_end wordSize) in
  let static_fields_end := s32 (align_size_up (next_offset st STATIC_BYTE) wordSize) in
  let static_field_size := Z.quot (static_fields_end - offset_of_static_fields C) wordSize in
  let nonstatic_field_size :=
    s32 (super_field_size + Z.quot (nonstatic_fields_end - nonstatic_fields_start) oop_size) in
  let instance_size := s32 (align_size_up (Z.quot instance_end wordSize) (MinObjAlignment C)) in
  Some (fields,
    {| nonstatic_oop_maps := padded_maps pst;
       total_oop_map_count := compute_oop_map_count super (padded_maps pst) (padded_first pst);
       instance_size := instance_size;
       nonstatic_field_size := nonstatic_field_size;
       static_field_size := static_field_size;
       has_nonstatic_fields := has_nonstatic_fields |}).
End Layout.

(** ** Classes *)

(** What the layout of a class depends on. *)
Record ClassFields := {
  class_fields : list FieldDescription;
  class_name : list Z;
  class_boot_loader : bool;
  class_contended : bool;
  class_cp_size : Z;
  class_fresh : list Z;
}.

(** A class with its fields laid out. *)
Record Klass := {
  klass_fields : list FieldInfo;
  klass_info : FieldLayoutInfo;
  klass_super : Super;
}.

(** The fields, sizes and blocks of oops of a new class. *)
Definition create_klass (C : Config) (super : option Super) (c : ClassFields) : option Klass :=
  '(fields, fac) ← make_fields new_count (class_fields c);
  '(fields, info) ← layout_fields C super (class_boot_loader c) (class_name c) (class_contended c) (class_cp_size c) (class_fresh c) fac fields;
  maps ← fill_oop_maps super (nonstatic_oop_maps info) (total_oop_map_count info);
  Some {| klass_fields := fields; klass_info := info;
          klass_super := {| super_nonstatic_field_size := nonstatic_field_size info;
                            super_has_nonstatic_fields := has_nonstatic_fields info;
                            super_oop_maps := maps |} |}.

(** A class and its subclasses, each the super class of the next one. *)
Fixpoint create_klasses (C : Config) (super : option Super) (cs : list ClassFields) : option (list Klass) :=
  match cs with
  | [] => Some []
  | c :: cs =>
      k ← create_klass C super c;
      ks ← create_klasses C (Some (klass_super k)) cs;
      Some (k :: ks)
  end.
