(* ===== verification/FieldLayoutCorrect.v ===== *)
(** The fields of a class do not overlap, are aligned, and the blocks of oops describe the
    oops: along every chain of super classes. *)

From Stdlib Require Import Sorted.
From S2P Require Import Prelude GlobalDefinitions ClassFileStream FormatChecker ConstantPool BitMap BitMapCorrect FieldLayout.

(** ** Packed fields *)

(** The kind of a field: its allocation type, and its group if it is contended. *)
Record kind := { k_type : FieldAllocationType; k_group : option Z }.

Definition static_type (a : FieldAllocationType) : bool :=
  match a with STATIC_OOP | STATIC_BYTE | STATIC_SHORT | STATIC_WORD | STATIC_DOUBLE => true | _ => false end.

(** A field of some kind without an offset. *)
Record fresh_field (f : FieldInfo) (k : kind) : Prop := {
  fresh_offset : is_offset_set f = false;
  fresh_type : allocation_type f = Some (k_type k);
  fresh_contended : is_contended f = Some (bool_decide (is_Some (k_group k)));
  fresh_group : contended_group f = Some (default 0 (k_group k));
  fresh_static : is_static f = static_type (k_type k);
}.

Lemma set_offset_set (f : FieldInfo) (o : Z) : is_offset_set (set_offset f o) = true.
Proof.
  unfold is_offset_set, field_tag, set_offset. cbn [set_packed low_packed]. apply Z.eqb_eq.
  rewrite Z.land_lor_distr_l. apply Z.bits_inj'. intros i Hi.
  rewrite Z.lor_spec, !Z.land_spec. unfold extract_low_short_from_int. rewrite Z.land_spec, smod_testbit by lia.
  rewrite umod_testbit by lia. unfold FIELDINFO_TAG_SIZE. rewrite Z.shiftl_spec by lia.
  destruct (Z.eq_dec i 0) as [->|]; [done|]. destruct (Z.eq_dec i 1) as [->|]; [done|].
  assert (Z.testbit FIELDINFO_TAG_MASK i = false) as ->; [|by rewrite !andb_false_r; destruct (Z.testbit FIELDINFO_TAG_OFFSET i) eqn:H; [destruct i; done|]].
  apply (testbit_high 2); [done|lia].
Qed.

Lemma offset_set_offset (f : FieldInfo) (o : Z) : 0 <= o < 2 ^ 29 -> offset (set_offset f o) = Some o.
Proof.
  intros Ho. unfold offset. pose proof (set_offset_set f o) as Hs. unfold is_offset_set in Hs. rewrite Hs. f_equal.
  unfold set_offset. cbn [set_packed low_packed high_packed]. unfold FIELDINFO_TAG_SIZE. pow2_norm.
  rewrite (umod_id 32 o) by (pow2_norm; lia). rewrite Z.shiftl_mul_pow2 by lia.
  rewrite (umod_id 32 (o * 2 ^ 2)) by (pow2_norm; lia). rewrite smod_id by (pow2_norm; lia).
  set (v := o * 2 ^ 2). assert (Hv : 0 <= v < 2 ^ 31) by (unfold v; pow2_norm; lia).
  assert (Hx : build_int_from_shorts (Z.lor (extract_low_short_from_int v) FIELDINFO_TAG_OFFSET)
                 (extract_high_short_from_int v) = Z.lor v 1).
  { unfold build_int_from_shorts. rewrite umod_smod, umod_umod by lia.
    assert (Hr : in_u 31 (Z.lor v 1)) by (apply lor_range; [lia|done|split; [lia|pow2_norm; lia]]).
    rewrite <- (smod_id 32 (Z.lor v 1)) by (pow2_norm; lia). f_equal. apply Z.bits_inj'. intros i Hi.
    unfold extract_low_short_from_int, extract_high_short_from_int, FIELDINFO_TAG_OFFSET. change 0xffff with (Z.ones 16).
    rewrite !Z.lor_spec, umod_testbit, Z.shiftl_spec by lia.
    destruct (Z.ltb_spec i 16).
    - rewrite (Z.testbit_neg_r _ (i - 16)), Z.land_spec by lia. rewrite Z.ones_spec_low by lia. by destruct (i <? 32), (Z.testbit v i).
    - rewrite !Z.land_spec, Z.shiftr_spec by lia. rewrite (Z.ones_spec_high 16 i) by lia. rewrite Z.sub_add, andb_false_r. destruct (Z.ltb_spec i 32).
      + by rewrite Z.ones_spec_low, andb_true_r by lia.
      + rewrite (testbit_high 31 v) by lia. by rewrite andb_false_r. }
  rewrite Hx, Z.shiftr_lor. unfold v. rewrite <- Z.shiftl_mul_pow2, Z.shiftr_shiftl_l, Z.sub_diag by lia. rewrite Z.shiftl_0_r.
  change (Z.shiftr 1 2) with 0. rewrite Z.lor_0_r. apply umod_id. pow2_norm. lia.
Qed.

(** The shift that reads an offset is signed: from 2^29 on offsets are not read back. *)
Lemma offset_high (f : FieldInfo) : offset (set_offset f (2 ^ 29)) = Some (2 ^ 32 - 2 ^ 29).
Proof. reflexivity. Qed.

(** The kind a description gives. *)
Definition description_static (d : FieldDescription) : bool := flag (fd_flags d) JVM_ACC_STATIC.
Definition kind_of (d : FieldDescription) : option kind :=
  a ← basic_type_to_atype (description_static d) (fd_type d); Some {| k_type := a; k_group := fd_contended d |}.

Lemma basic_type_static (s : bool) (type : Z) (a : FieldAllocationType) :
  basic_type_to_atype s type = Some a -> static_type a = s.
Proof. unfold basic_type_to_atype. repeat case_match; by intros [= <-]. Qed.

(** The shorts of the kinds of fields. *)
Lemma plain_packed (f : FieldInfo) (a : FieldAllocationType) (group : option Z) :
  (low_packed f = atype_code a * 4 + 2 /\ group = None) \/
  (exists g, group = Some g /\ low_packed f = atype_code a * 4 + 3 /\ high_packed f = g) ->
  is_static f = static_type a -> fresh_field f {| k_type := a; k_group := group |}.
Proof.
  intros Hp Hs. split; cbn [k_type k_group];
    unfold is_offset_set, allocation_type, is_contended, contended_group, field_tag; [..|done];
    destruct Hp as [[-> ->]|(g & -> & -> & <-)]; destruct a; reflexivity.
Qed.

Lemma make_field_ok (fac : FieldAllocationCount) (d : FieldDescription) (k : kind) :
  kind_of d = Some k ->
  exists f, make_field fac d = Some (f, count_up fac (k_type k)) /\ fresh_field f k.
Proof.
  unfold kind_of, description_static. destruct (basic_type_to_atype _ _) as [a|] eqn:Ha; [|done]. intros [= <-].
  unfold make_field, update. change (is_static (initialize _ _ _ _)) with (flag (fd_flags d) JVM_ACC_STATIC).
  rewrite Ha. apply basic_type_static in Ha. cbn [mbind option_bind k_type k_group].
  set (f0 := initialize _ _ _ _).
  assert (Hplain : exists f1, set_allocation_type f0 a = Some f1 /\ low_packed f1 = atype_code a * 4 + 2 /\ is_static f1 = static_type a).
  { unfold set_allocation_type, f0. eexists. split; [reflexivity|]. split; [by destruct a|]. by rewrite Ha. }
  destruct Hplain as (f1 & -> & Hlow & Hst). cbn [mbind option_bind].
  destruct (fd_contended d) as [g|]; cbn [mbind option_bind].
  - unfold set_contended_group, field_tag. rewrite Hlow. eexists. split; [by destruct a|].
    apply plain_packed; [right; exists g; split; [done|]; split; [by destruct a|done]|done].
  - eexists. split; [done|]. apply plain_packed; [by left|done].
Qed.

(** Numbers of fields. *)
Definition count_of (p : kind -> bool) (ks : list kind) : Z := zlen (filter p ks).
Definition of_type (a : FieldAllocationType) (k : kind) : bool := bool_decide (k_type k = a).

Lemma count_of_nil (p : kind -> bool) : count_of p [] = 0.
Proof. done. Qed.
Lemma count_of_cons (p : kind -> bool) (k : kind) (ks : list kind) :
  count_of p (k :: ks) = (if p k then 1 else 0) + count_of p ks.
Proof. unfold count_of. rewrite filter_cons. destruct (p k); [rewrite decide_True by done|rewrite decide_False by naive_solver]; cbn [length]; lia. Qed.
Lemma count_of_bounds (p : kind -> bool) (ks : list kind) : 0 <= count_of p ks <= zlen ks.
Proof.
  induction ks as [|k ks IH]; [rewrite count_of_nil; cbn; lia|]. rewrite count_of_cons. cbn [length]. destruct (p k); lia.
Qed.
Lemma count_of_le (p q : kind -> bool) (ks : list kind) :
  (forall k, p k = true -> q k = true) -> count_of p ks <= count_of q ks.
Proof.
  intros Hpq. induction ks as [|k ks IH]; [done|]. rewrite !count_of_cons. specialize (Hpq k).
  destruct (p k); [rewrite Hpq by done; lia|]. destruct (q k); lia.
Qed.
Lemma count_of_split (p q : kind -> bool) (ks : list kind) :
  count_of p ks = count_of (fun k => p k && q k) ks + count_of (fun k => p k && negb (q k)) ks.
Proof.
  induction ks as [|k ks IH]; [done|]. rewrite !count_of_cons, IH. destruct (p k), (q k); cbn; lia.
Qed.

Lemma count_up_eq (fac : FieldAllocationCount) (a b : FieldAllocationType) :
  0 <= fac a < 2 ^ 16 - 1 -> count_up fac a b = fac b + (if bool_decide (a = b) then 1 else 0).
Proof.
  intros Ha. unfold count_up, put_at. case_bool_decide; subst; [|lia]. rewrite umod_id; [done|pow2_norm; lia].
Qed.

Lemma make_fields_ok (ds : list FieldDescription) (ks : list kind) (fac : FieldAllocationCount) :
  Forall2 (fun d k => kind_of d = Some k) ds ks -> (forall a, 0 <= fac a /\ fac a + zlen ks < 2 ^ 16) ->
  exists fs fac', make_fields fac ds = Some (fs, fac') /\ Forall2 fresh_field fs ks /\
    forall a, fac' a = fac a + count_of (of_type a) ks.
Proof.
  intros Hds. revert fac. induction Hds as [|d k ds ks Hd Hds IH]; intros fac Hfac; cbn [make_fields].
  { exists [], fac. split; [done|]. split; [done|]. intros a. rewrite count_of_nil. lia. }
  destruct (make_field_ok fac d k Hd) as (f & -> & Hf). cbn [mbind option_bind length] in *.
  assert (Hup : forall a, count_up fac (k_type k) a = fac a + (if of_type a k then 1 else 0)).
  { intros a. apply count_up_eq. specialize (Hfac (k_type k)). lia. }
  destruct (IH (count_up fac (k_type k))) as (fs & fac' & -> & Hfs & Hc).
  { intros a. rewrite Hup. specialize (Hfac a). destruct (of_type a k); lia. }
  cbn [mbind option_bind]. exists (f :: fs), fac'. split; [done|]. split; [by constructor|].
  intros a. rewrite Hc, Hup, count_of_cons. lia.
Qed.

Definition is_contended_kind (k : kind) : bool := bool_decide (is_Some (k_group k)).
(** The instance fields with a group; the others get their offsets first. *)
Definition late (k : kind) : bool := is_contended_kind k && negb (static_type (k_type k)).
Definition early (k : kind) : bool := negb (late k).

Lemma count_contended_ok (fs : list FieldInfo) (ks : list kind) (fac : FieldAllocationCount) (n : Z) :
  Forall2 fresh_field fs ks -> (forall a, 0 <= fac a /\ fac a + zlen ks < 2 ^ 16) -> 0 <= n -> n + zlen ks < 2 ^ 16 ->
  exists fac', count_contended fs fac n = Some (fac', n + count_of late ks) /\
    forall a, fac' a = fac a + count_of (fun k => of_type a k && is_contended_kind k) ks.
Proof.
  intros Hfs. revert fac n. induction Hfs as [|f k fs ks Hf Hfs IH]; intros fac n Hfac Hn Hlen; cbn [count_contended].
  { exists fac. rewrite count_of_nil, Z.add_0_r. split; [done|]. intros a. rewrite count_of_nil. lia. }
  rewrite (fresh_type _ _ Hf), (fresh_contended _ _ Hf), (fresh_static _ _ Hf). cbn [mbind option_bind length] in *.
  change (bool_decide (is_Some (k_group k))) with (is_contended_kind k).
  assert (Hup : forall a, count_up fac (k_type k) a = fac a + (if of_type a k then 1 else 0)).
  { intros a. apply count_up_eq. specialize (Hfac (k_type k)). lia. }
  setoid_rewrite count_of_cons. unfold late at 1. destruct (is_contended_kind k); cbn [andb].
  - destruct (IH (count_up fac (k_type k)) (if static_type (k_type k) then n else s32 (n + 1))) as (fac' & Hc & Hf').
    + intros a. rewrite Hup. specialize (Hfac a). destruct (of_type a k); lia.
    + destruct (static_type _); [done|]. rewrite smod_id by (pow2_norm; lia). lia.
    + destruct (static_type _); [lia|]. rewrite smod_id by (pow2_norm; lia). lia.
    + exists fac'. split.
      * rewrite Hc. do 2 f_equal. destruct (static_type _); cbn [negb]; [lia|]. rewrite smod_id by (pow2_norm; lia). lia.
      * intros a. rewrite Hf', Hup, andb_true_r. lia.
  - destruct (IH fac n) as (fac' & Hc & Hf'); [|done|lia|].
    + intros a. specialize (Hfac a). lia.
    + exists fac'. rewrite Hc. split; [done|]. intros a. rewrite Hf', andb_false_r. lia.
Qed.

(** ** Blocks of oops *)

Section Maps.
Context (C : Config).
Abbreviation h := (heapOopSize C).

(** The oops of a block, and of all blocks. *)
Definition block_oops (b : Z * Z) : list Z := (fun i => b.1 + Z.of_nat i * h) <$> seq 0 (Z.to_nat b.2).
Definition oops (maps : list (Z * Z)) : list Z := mjoin (block_oops <$> maps).

(** Blocks are not empty and lie in the range of offsets. *)
Definition block_ok (b : Z * Z) : Prop := 0 < b.1 /\ 0 < b.2 /\ b.1 + b.2 * h < 2 ^ 30.

Definition first_of (maps : list (Z * Z)) : Z := match maps with [] => 0 | (o, _) :: _ => o end.

Lemma oops_app (m1 m2 : list (Z * Z)) : oops (m1 ++ m2) = oops m1 ++ oops m2.
Proof. unfold oops. by rewrite fmap_app, join_app. Qed.

Lemma oops_one (b : Z * Z) : oops [b] = block_oops b.
Proof. unfold oops. cbn. by rewrite app_nil_r. Qed.

Lemma block_extend (o c : Z) : 0 <= c -> block_oops (o, c + 1) = block_oops (o, c) ++ [o + c * h].
Proof.
  intros Hc. unfold block_oops. cbn [fst snd]. replace (Z.to_nat (c + 1)) with (Z.to_nat c + 1)%nat by lia.
  rewrite seq_app, fmap_app. cbn [seq fmap list_fmap Nat.add]. by rewrite Z2Nat.id.
Qed.

Lemma block_length (b : Z * Z) : 0 <= b.2 -> zlen (block_oops b) = b.2.
Proof. intros Hb. unfold block_oops. rewrite length_fmap, length_seq. lia. Qed.

Lemma list_last_cases {A} (l : list A) : l = [] /\ list.last l = None \/ exists l' x, l = l' ++ [x] /\ list.last l = Some x.
Proof.
  destruct l as [|x l _] using rev_ind; [by left|right]. exists l, x. split; [done|]. apply last_snoc.
Qed.

Lemma new_oop_map_ok (max_maps real : Z) (maps : list (Z * Z)) :
  Forall block_ok maps -> zlen maps < max_maps -> 0 < real -> real + h < 2 ^ 30 ->
  exists maps', new_oop_map max_maps real maps (first_of maps) = Some (maps', first_of maps') /\
    Forall block_ok maps' /\ oops maps' = oops maps ++ [real] /\ zlen maps' = zlen maps + 1.
Proof.
  intros Hm Hlen Hreal Hr. unfold new_oop_map. destruct (Z.ltb_spec (zlen maps) max_maps); [|lia].
  exists (maps ++ [(real, 1)]). split; [|split; [|split]].
  - do 2 f_equal. destruct maps as [|[o c] maps]; [done|]. apply list.Forall_cons in Hm as [[Ho _] _]. cbn in Ho |- *.
    destruct (Z.eqb_spec o 0); [lia|done].
  - apply Forall_app. split; [done|]. constructor; [|done]. unfold block_ok. cbn [fst snd]. lia.
  - rewrite oops_app, oops_one. f_equal. change (block_oops (real, 1)) with [real + 0 * h]. f_equal. lia.
  - rewrite length_app. cbn [length]. lia.
Qed.

Lemma update_oop_maps_ok (max_maps real : Z) (st : Layout) :
  h = 4 \/ h = 8 -> Forall block_ok (oop_maps st) -> first_nonstatic_oop_offset st = first_of (oop_maps st) ->
  zlen (oop_maps st) < max_maps -> 0 < real -> real + h < 2 ^ 30 ->
  exists maps', update_oop_maps C max_maps real st = Some (set_maps st maps' (first_of maps')) /\
    Forall block_ok maps' /\ oops maps' = oops (oop_maps st) ++ [real] /\ zlen maps' <= zlen (oop_maps st) + 1.
Proof.
  intros Hh Hm Hf Hlen Hreal Hr. unfold update_oop_maps. rewrite Hf.
  destruct (new_oop_map_ok max_maps real (oop_maps st) Hm Hlen Hreal Hr) as (new & Hnew & Hok & Hoops & Hlen').
  destruct (list_last_cases (oop_maps st)) as [[_ ->]|(maps & [o c] & He & ->)].
  { rewrite Hnew. cbn [mbind option_bind]. exists new. split; [done|]. split; [done|]. split; [done|lia]. }
  pose proof Hm as Hm'. rewrite He in Hm'. apply Forall_app in Hm' as [Hm1 Hm2]. apply Forall_inv in Hm2 as (Ho & Hc & Hoc).
  cbn [fst snd] in Ho, Hc, Hoc. assert (c < 2 ^ 30) by nia. pow2_norm.
  rewrite (smod_id 32 (c * h)) by (pow2_norm; nia). rewrite smod_id by (pow2_norm; nia).
  destruct (Z.eqb_spec o (real - c * h)) as [He'|].
  2: { rewrite Hnew. cbn [mbind option_bind]. exists new. split; [done|]. split; [done|]. split; [done|lia]. }
  replace (take (length (oop_maps st) - 1) (oop_maps st)) with maps
    by (rewrite He, length_app; cbn [length]; by rewrite Nat.add_sub, take_app_length).
  rewrite umod_id by (pow2_norm; lia). exists (maps ++ [(o, c + 1)]). split; [|split; [|split]].
  - f_equal. f_equal. rewrite He. by destruct maps as [|[] maps].
  - apply Forall_app. split; [done|]. constructor; [|done]. unfold block_ok. cbn [fst snd]. pow2_norm. nia.
  - rewrite He, !oops_app, !oops_one, block_extend, <- app_assoc by lia. do 3 f_equal. lia.
  - rewrite He, !length_app. cbn [length]. lia.
Qed.
End Maps.

(** ** Offsets handed out by type *)

(** Fields with the offsets they have got. *)
Definition apply_offsets (fs : list FieldInfo) (os : list (option Z)) : list FieldInfo :=
  zip_with (fun f o => match o with Some o => set_offset f o | None => f end) fs os.

(** The offsets of the early fields, from a table of offsets by type and rank. *)
Fixpoint early_offsets (table : FieldAllocationType -> Z -> Z) (rank : FieldAllocationType -> Z) (ks : list kind)
    : list (option Z) :=
  match ks with
  | [] => []
  | k :: ks =>
      if early k
      then Some (table (k_type k) (rank (k_type k))) :: early_offsets table (put_at rank (k_type k) (rank (k_type k) + 1)) ks
      else None :: early_offsets table rank ks
  end.

(** The offsets of the oops among them. *)
Definition is_oop (k : kind) : bool := of_type NONSTATIC_OOP k.
Definition oop_offsets (ks : list kind) (os : list (option Z)) : list Z :=
  omap (fun '(k, o) => if is_oop k then o else None) (zip ks os).

Section Slots.
Context (C : Config) (Hh : heapOopSize C = 4 \/ heapOopSize C = 8).
Abbreviation size := (type_size C).

Lemma size_bounds (a : FieldAllocationType) : 1 <= size a <= 8.
Proof using Hh. destruct a; cbn [type_size]; unfold BytesPerShort, BytesPerInt, BytesPerLong; lia. Qed.

(** The field of rank [k] among the fields of a type that are still to come. *)
Definition slot (st : Layout) (a : FieldAllocationType) (k : Z) : Z :=
  if k <? space_count st a then space_offset st a + k * size a
  else next_offset st a + (k - space_count st a) * size a.

(** There is room for [n] more fields of a type. *)
Record fits (st : Layout) (a : FieldAllocationType) (n : Z) : Prop := {
  fits_count : 0 <= space_count st a;
  fits_space : 0 <= space_offset st a /\ space_offset st a + space_count st a * size a < 2 ^ 30;
  fits_next : 0 <= next_offset st a /\ next_offset st a + Z.max 0 (n - space_count st a) * size a < 2 ^ 30;
}.

Lemma put_at_same {A} (f : FieldAllocationType -> A) (a : FieldAllocationType) (x : A) : put_at f a x a = x.
Proof using. unfold put_at. by rewrite bool_decide_true. Qed.
Lemma put_at_other {A} (f : FieldAllocationType -> A) (a b : FieldAllocationType) (x : A) : a <> b -> put_at f a x b = f b.
Proof using. intros Hab. unfold put_at. by rewrite bool_decide_false. Qed.

Lemma fits_weaken (st : Layout) (a : FieldAllocationType) (n m : Z) : m <= n -> fits st a n -> fits st a m.
Proof using Hh. intros Hm [H1 H2 H3]. pose proof (size_bounds a). split; [done|done|]. nia. Qed.

Lemma slot_bounds (st : Layout) (a : FieldAllocationType) (n k : Z) :
  fits st a n -> 0 <= k < n -> 0 <= slot st a k /\ slot st a k + size a < 2 ^ 30.
Proof using Hh.
  intros [H1 H2 H3] Hk. pose proof (size_bounds a). unfold slot. destruct (Z.ltb_spec k (space_count st a)); nia.
Qed.

Lemma pick_ok (st : Layout) (a : FieldAllocationType) (n : Z) :
  fits st a (n + 1) -> 0 <= n ->
  exists st', pick C a st = (slot st a 0, st') /\ oop_maps st' = oop_maps st /\
    first_nonstatic_oop_offset st' = first_nonstatic_oop_offset st /\ fits st' a n /\
    (forall k, 0 <= k -> slot st' a k = slot st a (k + 1)) /\
    (forall b, a <> b -> next_offset st' b = next_offset st b /\ space_count st' b = space_count st b /\
                         space_offset st' b = space_offset st b).
Proof using Hh.
  intros [H1 H2 H3] Hn. pose proof (size_bounds a) as Hs. unfold pick, slot. pow2_norm.
  destruct (Z.ltb_spec 0 (space_count st a)) as [Hpos|Hzero].
  - eexists. split; [by rewrite Z.mul_0_l, Z.add_0_r|]. cbn [oop_maps first_nonstatic_oop_offset next_offset space_count space_offset].
    split; [done|]. split; [done|]. split; [|split].
    + split; cbn [oop_maps next_offset space_count space_offset]; rewrite ?put_at_same, ?smod_id by (pow2_norm; nia); pow2_norm; nia.
    + intros k Hk. rewrite !put_at_same, smod_id by (pow2_norm; nia).
      destruct (Z.ltb_spec k (space_count st a - 1)), (Z.ltb_spec (k + 1) (space_count st a)); nia || lia.
    + intros b Hb. by rewrite !put_at_other.
  - assert (space_count st a = 0) as H0 by lia. rewrite H0 in *.
    eexists. split; [f_equal; lia|]. cbn [oop_maps first_nonstatic_oop_offset next_offset space_count space_offset].
    split; [done|]. split; [done|]. split; [|split].
    + split; cbn [oop_maps next_offset space_count space_offset]; rewrite ?H0, ?put_at_same, ?smod_id by (pow2_norm; nia); pow2_norm; nia.
    + intros k Hk. rewrite H0, !put_at_same, smod_id by (pow2_norm; nia).
      destruct (Z.ltb_spec k 0), (Z.ltb_spec (k + 1) 0); nia || lia.
    + intros b Hb. by rewrite !put_at_other.
Qed.

Lemma slot_ext (st st' : Layout) (a : FieldAllocationType) (k n : Z) :
  next_offset st' a = next_offset st a -> space_count st' a = space_count st a -> space_offset st' a = space_offset st a ->
  slot st' a k = slot st a k /\ (fits st a n -> fits st' a n).
Proof using.
  intros Hn Hc Ho. unfold slot. rewrite Hn, Hc, Ho. split; [done|]. intros [H1 H2 H3]. split; by rewrite ?Hn, ?Hc, ?Ho.
Qed.
End Slots.

Section EarlyLoop.
Context (C : Config) (Hh : heapOopSize C = 4 \/ heapOopSize C = 8).
Context (table : FieldAllocationType -> Z -> Z) (max_maps : Z).

Definition early_of (a : FieldAllocationType) (k : kind) : bool := of_type a k && early k.

(** The state of the loop: the offsets to come are those of the table from a rank on. *)
Record loop_ok (st : Layout) (rank : FieldAllocationType -> Z) (ks : list kind) : Prop := {
  loop_table a k : 0 <= k < count_of (early_of a) ks -> slot C st a k = table a (rank a + k);
  loop_fits a : fits C st a (count_of (early_of a) ks);
  loop_positive k : 0 <= k < count_of (early_of NONSTATIC_OOP) ks -> 0 < table NONSTATIC_OOP (rank NONSTATIC_OOP + k);
  loop_blocks : Forall (block_ok C) (oop_maps st);
  loop_first : first_nonstatic_oop_offset st = first_of (oop_maps st);
  loop_room : zlen (oop_maps st) + count_of (early_of NONSTATIC_OOP) ks <= max_maps;
}.

Lemma early_of_type (a : FieldAllocationType) (k : kind) : early k = true -> early_of a k = bool_decide (k_type k = a).
Proof using. intros He. unfold early_of. by rewrite He, andb_true_r. Qed.
Lemma early_of_late (a : FieldAllocationType) (k : kind) : early k = false -> early_of a k = false.
Proof using. intros He. unfold early_of. by rewrite He, andb_false_r. Qed.

(** One early field. *)
Lemma layout_field_ok (st : Layout) (rank : FieldAllocationType -> Z) (f : FieldInfo) (k : kind) (ks : list kind)
    (a : FieldAllocationType) :
  fresh_field f k -> early k = true -> k_type k = a -> loop_ok st rank (k :: ks) ->
  exists st', layout_field C max_maps f st = Some (set_offset f (table a (rank a)), st') /\
    loop_ok st' (put_at rank a (rank a + 1)) ks /\
    oops C (oop_maps st') = oops C (oop_maps st) ++ (if is_oop k then [table a (rank a)] else []) /\
    zlen (oop_maps st') <= zlen (oop_maps st) + (if is_oop k then 1 else 0) /\
    (space_count st STATIC_BYTE = 0 ->
     space_count st' STATIC_BYTE = 0 /\
     next_offset st' STATIC_BYTE = next_offset st STATIC_BYTE + (if early_of STATIC_BYTE k then 1 else 0)).
Proof using Hh.
  intros Hf He Ha [Ht Hfit Hpos Hbl Hfi Hroom]. unfold layout_field.
  rewrite (fresh_offset _ _ Hf), (fresh_contended _ _ Hf), (fresh_static _ _ Hf), (fresh_type _ _ Hf). cbn [mbind option_bind].
  assert (He' : bool_decide (is_Some (k_group k)) && negb (static_type (k_type k)) = false) by (by apply negb_true_iff in He).
  rewrite He', Ha. clear He'.
  set (n := count_of (early_of a) ks). pose proof (count_of_bounds (early_of a) ks) as Hn. fold n in Hn.
  assert (Hcons : forall b, count_of (early_of b) (k :: ks) = (if bool_decide (a = b) then 1 else 0) + count_of (early_of b) ks).
  { intros b. by rewrite count_of_cons, early_of_type, Ha. }
  assert (Hself : count_of (early_of a) (k :: ks) = n + 1) by (rewrite Hcons, bool_decide_true by done; lia).
  pose proof (Hfit a) as Hfa. rewrite Hself in Hfa.
  destruct (pick_ok C Hh st a n Hfa ltac:(lia)) as (st1 & Hp & Hm1 & Hfi1 & Hfit1 & Hsl1 & Hoth1). rewrite Hp.
  assert (Hreal : slot C st a 0 = table a (rank a)) by (rewrite (Ht a 0) by lia; f_equal; lia). rewrite Hreal.
  assert (Hmaps : exists maps', (if bool_decide (a = NONSTATIC_OOP) then update_oop_maps C max_maps (table a (rank a)) st1 else Some st1)
      = Some (set_maps st1 maps' (first_of maps')) /\ Forall (block_ok C) maps' /\
      oops C maps' = oops C (oop_maps st) ++ (if is_oop k then [table a (rank a)] else []) /\
      zlen maps' <= zlen (oop_maps st) + (if is_oop k then 1 else 0)).
  { unfold is_oop, of_type. rewrite Ha. case_bool_decide as Hoop.
    - pose proof (slot_bounds C Hh st a (n + 1) 0 Hfa ltac:(lia)) as Hb. rewrite Hreal in Hb. rewrite <- Hm1.
      pose proof (Hpos 0) as Hpos0. clear Ha. subst a. replace (rank NONSTATIC_OOP + 0) with (rank NONSTATIC_OOP) in Hpos0 by lia.
      apply update_oop_maps_ok; [done|by rewrite Hm1|by rewrite Hfi1, Hm1|rewrite Hm1|lia|cbn in Hb; lia].
      rewrite Hself in Hroom. lia.
    - exists (oop_maps st). rewrite app_nil_r. split; [|split; [done|split; [done|lia]]]. f_equal.
      destruct st1. cbn in *. by rewrite Hm1, Hfi1, Hfi. }
  destruct Hmaps as (maps' & -> & Hbl' & Hoops & Hlen). cbn [mbind option_bind].
  assert (Hother : forall b m k', a <> b -> slot C (set_maps st1 maps' (first_of maps')) b k' = slot C st b k' /\
      (fits C st b m -> fits C (set_maps st1 maps' (first_of maps')) b m)).
  { intros b m k' Hb. destruct (Hoth1 b Hb) as (H1 & H2 & H3). by apply slot_ext. }
  eexists. split; [done|]. split; [|split; [done|split; [done|]]].
  - split; cbn [set_maps oop_maps first_nonstatic_oop_offset].
    + intros b k' Hk'. destruct (decide (a = b)) as [<-|Hb].
      * rewrite put_at_same. change (slot C (set_maps st1 maps' (first_of maps')) a k') with (slot C st1 a k').
        rewrite Hsl1, Ht by (rewrite ?Hself; lia). f_equal. lia.
      * rewrite put_at_other by done. rewrite (proj1 (Hother b 0 k' Hb)). apply Ht. rewrite Hcons, bool_decide_false by done. lia.
    + intros b. destruct (decide (a = b)) as [<-|Hb]; [by destruct Hfit1; split|].
      apply (Hother b _ 0 Hb). specialize (Hfit b). by rewrite Hcons, bool_decide_false in Hfit.
    + intros k' Hk'. specialize (Hcons NONSTATIC_OOP). case_bool_decide as Hoop.
      * rewrite Hoop, put_at_same. replace (rank NONSTATIC_OOP + 1 + k') with (rank NONSTATIC_OOP + (k' + 1)) by lia. apply Hpos. lia.
      * rewrite put_at_other by done. apply Hpos. lia.
    + done.
    + done.
    + specialize (Hcons NONSTATIC_OOP). unfold is_oop, of_type in Hlen. rewrite Ha in Hlen. case_bool_decide; lia.
  - intros H0. rewrite early_of_type, Ha by done. cbn [set_maps space_count next_offset]. case_bool_decide as Hb.
    + rewrite Hb in Hp. unfold pick in Hp. rewrite H0 in Hp. cbn [Z.ltb] in Hp. injection Hp as _ <-. cbn [space_count next_offset].
      rewrite put_at_same. split; [done|]. destruct (Hfit STATIC_BYTE) as [_ _ [? ?]]. rewrite smod_id; [done|lia|].
      cbn [type_size]. rewrite Hb in Hself. rewrite Hself, H0 in *. pow2_norm. cbn in *. lia.
    + destruct (Hoth1 STATIC_BYTE Hb) as (-> & -> & _). split; [done|lia].
Qed.

Lemma layout_field_late (st : Layout) (f : FieldInfo) (k : kind) :
  fresh_field f k -> early k = false -> layout_field C max_maps f st = Some (f, st).
Proof using.
  intros Hf He. unfold layout_field. rewrite (fresh_offset _ _ Hf), (fresh_contended _ _ Hf), (fresh_static _ _ Hf). cbn [mbind option_bind].
  assert (He' : bool_decide (is_Some (k_group k)) && negb (static_type (k_type k)) = true) by (by apply negb_false_iff in He).
  by rewrite He'.
Qed.

Lemma loop_ok_late (st : Layout) (rank : FieldAllocationType -> Z) (k : kind) (ks : list kind) :
  early k = false -> loop_ok st rank (k :: ks) -> loop_ok st rank ks.
Proof using.
  intros He [H1 H2 H3 H4 H5 H6].
  assert (Hc : forall a, count_of (early_of a) (k :: ks) = count_of (early_of a) ks).
  { intros a. rewrite count_of_cons, early_of_late by done. lia. }
  split; try done; try (setoid_rewrite Hc in H1); try (setoid_rewrite Hc in H2); try (setoid_rewrite Hc in H3); try done.
  by rewrite <- Hc.
Qed.

Lemma layout_loop_ok (fs : list FieldInfo) (ks : list kind) (st : Layout) (rank : FieldAllocationType -> Z) :
  Forall2 fresh_field fs ks -> loop_ok st rank ks ->
  let os := early_offsets table rank ks in
  exists st', layout_loop C max_maps fs st = Some (apply_offsets fs os, st') /\
    Forall (block_ok C) (oop_maps st') /\ first_nonstatic_oop_offset st' = first_of (oop_maps st') /\
    oops C (oop_maps st') = oops C (oop_maps st) ++ oop_offsets ks os /\
    zlen (oop_maps st') <= zlen (oop_maps st) + count_of (early_of NONSTATIC_OOP) ks /\
    (space_count st STATIC_BYTE = 0 ->
     next_offset st' STATIC_BYTE = next_offset st STATIC_BYTE + count_of (early_of STATIC_BYTE) ks).
Proof using Hh.
  intros Hfs. revert st rank. induction Hfs as [|f k fs ks Hf Hfs IH]; intros st rank Hok; cbn [layout_loop early_offsets].
  { exists st. destruct Hok. rewrite app_nil_r, !count_of_nil. repeat split; try done; try lia. }
  rewrite !count_of_cons. destruct (early k) eqn:He.
  - destruct (layout_field_ok st rank f k ks (k_type k) Hf He eq_refl Hok) as (st1 & -> & Hok1 & Ho1 & Hl1 & Hb1). cbn [mbind option_bind].
    destruct (IH st1 _ Hok1) as (st2 & -> & H1 & H2 & H3 & H4 & H5). cbn [mbind option_bind].
    exists st2. split; [done|]. split; [done|]. split; [done|]. split; [|split].
    + rewrite H3, Ho1, <- app_assoc. f_equal. unfold oop_offsets. cbn. by destruct (is_oop k).
    + rewrite early_of_type by done. unfold is_oop, of_type in Hl1. lia.
    + intros H0. destruct (Hb1 H0) as [H0' Hn]. rewrite H5, Hn by done. lia.
  - rewrite (layout_field_late st f k Hf He). cbn [mbind option_bind].
    destruct (IH st rank (loop_ok_late _ _ _ _ He Hok)) as (st2 & -> & H1 & H2 & H3 & H4 & H5). cbn [mbind option_bind].
    rewrite !early_of_late by done. exists st2. split; [done|]. split; [done|]. split; [done|]. split; [|split].
    + rewrite H3. f_equal. unfold oop_offsets. cbn. by destruct (is_oop k).
    + lia.
    + intros H0. rewrite H5 by done. lia.
Qed.
End EarlyLoop.

(** ** Contended fields *)

(** The least multiple of [s] from [p] on. *)
Definition up (p s : Z) : Z := p + (s - 1) - (p + (s - 1)) mod s.

Lemma up_bounds (p s : Z) : 0 < s -> (s | up p s) /\ p <= up p s < p + s.
Proof.
  intros Hs. unfold up. split; [apply sub_mod_divide; lia|]. pose proof (Z.mod_pos_bound (p + (s - 1)) s). lia.
Qed.

Lemma up_divide (p s : Z) : 0 < s -> (s | p) -> up p s = p.
Proof. intros Hs Hp. destruct (up_bounds p s Hs) as [[x Hx] Hb], Hp as [y Hy]. assert (x = y) by nia. subst. lia. Qed.

Lemma align_up_eq (p s : Z) :
  s = 1 \/ s = 2 \/ s = 4 \/ s = 8 -> 0 <= p < 2 ^ 30 -> s32 (align_size_up p s) = up p s.
Proof.
  intros Hs Hp. rewrite align_size_up_eq; [|lia|by destruct Hs as [->|[->|[->| ->]]]|pow2_norm; lia|pow2_norm; lia].
  apply smod_id; [lia|]. destruct (up_bounds p s ltac:(lia)) as [_ Hb]. fold (up p s). pow2_norm. lia.
Qed.

Section Contended.
Context (C : Config) (Hh : heapOopSize C = 4 \/ heapOopSize C = 8).
Context (HW : 0 <= ContendedPaddingWidth C <= 8192).
Abbreviation W := (ContendedPaddingWidth C).
Abbreviation size := (type_size C).

Lemma size_cases (a : FieldAllocationType) : size a = 1 \/ size a = 2 \/ size a = 4 \/ size a = 8.
Proof using Hh. destruct a; cbn [type_size]; unfold BytesPerShort, BytesPerInt, BytesPerLong; lia. Qed.

(** The fields of a group. *)
Definition in_group (group : Z) (k : kind) : bool := late k && bool_decide (k_group k = Some group).

(** The offsets of the fields of a group from [p] on, and the end of them. *)
Fixpoint place_group (group : Z) (ks : list kind) (p : Z) : list (option Z) * Z :=
  match ks with
  | [] => ([], p)
  | k :: ks =>
      if in_group group k then
        let o := up p (size (k_type k)) in
        let '(os, q) := place_group group ks (o + size (k_type k) + (if group =? 0 then W else 0)) in
        (Some o :: os, q)
      else let '(os, q) := place_group group ks p in (None :: os, q)
  end.

(** A field that has an offset or waits for one; those of the group wait. *)
Definition waiting (group : Z) (f : FieldInfo) (k : kind) : Prop :=
  fresh_field f k \/ (is_offset_set f = true /\ in_group group k = false).

(** One field; [pad] is the padding behind it. *)
Lemma contended_field_ok (max_maps group : Z) (f : FieldInfo) (k : kind) (p : Z) (maps : list (Z * Z)) :
  waiting group f k -> 0 < p -> p + 16 + W < 2 ^ 29 -> Forall (block_ok C) maps ->
  (in_group group k = true -> is_oop k = true -> zlen maps < max_maps) ->
  let st maps q := {| padded_offset := q; padded_maps := maps; padded_first := first_of maps |} in
  if in_group group k then
    let o := up p (size (k_type k)) in
    exists maps', contended_field C max_maps group f (st maps p) =
        Some (set_offset f o, st maps' (o + size (k_type k) + (if group =? 0 then W else 0))) /\
      Forall (block_ok C) maps' /\ oops C maps' = oops C maps ++ (if is_oop k then [o] else []) /\
      zlen maps' = zlen maps + (if is_oop k then 1 else 0)
  else contended_field C max_maps group f (st maps p) = Some (f, st maps p).
Proof using Hh HW.
  intros Hwait Hp Hlim Hmaps Hroom st. unfold contended_field, in_group, late, is_contended_kind.
  destruct Hwait as [Hf|[Hset Hno]]; [|unfold in_group in Hno; rewrite Hset; unfold late, is_contended_kind in Hno; by rewrite Hno].
  rewrite (fresh_offset _ _ Hf), (fresh_contended _ _ Hf), (fresh_group _ _ Hf), (fresh_static _ _ Hf), (fresh_type _ _ Hf).
  cbn [mbind option_bind]. destruct (k_group k) as [g|] eqn:Hkg; cbn [default from_option id]; [|by rewrite bool_decide_false by (by intros [? ?])].
  rewrite bool_decide_true by done. cbn [negb orb andb]. destruct (static_type (k_type k)) eqn:Hst; cbn [negb andb].
  { by destruct (negb (g =? group)). }
  destruct (Z.eqb_spec g group) as [->|Hg]; cbn [negb]; [rewrite bool_decide_true by done|rewrite bool_decide_false by naive_solver; done].
  set (o := up p (size (k_type k))). set (a := k_type k) in *.
  pose proof (size_cases a) as Hsz. destruct (up_bounds p (size a) ltac:(lia)) as [Hdiv Hb].
  rewrite bool_decide_false by (destruct a; try done; set_solver). cbn [st padded_offset padded_maps padded_first].
  pow2_norm. rewrite align_up_eq by (done || pow2_norm; lia). fold o. fold o in Hdiv, Hb. unfold is_oop, of_type. fold a.
  assert (Hm : exists maps', (if bool_decide (a = NONSTATIC_OOP) then new_oop_map max_maps o maps (first_of maps)
      else Some (maps, first_of maps)) = Some (maps', first_of maps') /\ Forall (block_ok C) maps' /\
      oops C maps' = oops C maps ++ (if bool_decide (a = NONSTATIC_OOP) then [o] else []) /\
      zlen maps' = zlen maps + (if bool_decide (a = NONSTATIC_OOP) then 1 else 0)).
  { case_bool_decide as Hoop.
    - apply new_oop_map_ok; [done| |lia|pow2_norm; lia]. apply Hroom.
      + unfold in_group, late, is_contended_kind. fold a. rewrite Hkg, Hst. by rewrite !bool_decide_true.
      + unfold is_oop, of_type. fold a. by rewrite bool_decide_true.
    - exists maps. rewrite app_nil_r. split; [done|]. split; [done|]. split; [done|lia]. }
  destruct Hm as (maps' & -> & Hok' & Ho' & Hl'). cbn [mbind option_bind]. exists maps'. split; [|done].
  rewrite (smod_id 32 (o + size a)) by (pow2_norm; lia). unfold st.
  destruct (group =? 0); [by rewrite smod_id by (pow2_norm; lia)|by rewrite Z.add_0_r].
Qed.

(** Two fields with [d] bytes between them. *)
Definition apart (d o1 s1 o2 s2 : Z) : Prop := o1 + s1 + d <= o2 \/ o2 + s2 + d <= o1.

(** The padding between two contended fields: none within a group other than the
    default group. *)
Definition padding (k1 k2 : kind) : Z :=
  if bool_decide (k_group k1 = k_group k2) && negb (bool_decide (k_group k1 = Some 0)) then 0 else W.

(** Offsets for the selected fields in [p, q), with padding. *)
Record offsets_ok (sel : kind -> bool) (ks : list kind) (os : list (option Z)) (p q : Z) : Prop := {
  os_length : length os = length ks;
  os_range : p <= q;
  os_none i k : ks !! i = Some k -> sel k = false -> os !! i = Some None;
  os_some i k : ks !! i = Some k -> sel k = true -> exists o, os !! i = Some (Some o);
  os_place i k o : ks !! i = Some k -> os !! i = Some (Some o) -> p <= o /\ (size (k_type k) | o) /\ o + size (k_type k) <= q;
  os_apart i j k1 k2 o1 o2 : i <> j -> ks !! i = Some k1 -> ks !! j = Some k2 ->
    os !! i = Some (Some o1) -> os !! j = Some (Some o2) ->
    apart (padding k1 k2) o1 (size (k_type k1)) o2 (size (k_type k2));
}.

Lemma apart_sym (d o1 s1 o2 s2 : Z) : apart d o1 s1 o2 s2 -> apart d o2 s2 o1 s1.
Proof using. unfold apart. intros [H|H]; [by right|by left]. Qed.

Lemma padding_sym (k1 k2 : kind) : padding k1 k2 = padding k2 k1.
Proof using. unfold padding. repeat case_bool_decide; try done; congruence. Qed.

Lemma offsets_nil (sel : kind -> bool) (p q : Z) : p <= q -> offsets_ok sel [] [] p q.
Proof using. intros Hpq. split; try done. Qed.

Lemma offsets_skip (sel : kind -> bool) (k : kind) (ks : list kind) (os : list (option Z)) (p q : Z) :
  sel k = false -> offsets_ok sel ks os p q -> offsets_ok sel (k :: ks) (None :: os) p q.
Proof using.
  intros Hk [H1 H2 H3 H4 H5 H6]. split; [cbn; by f_equal|done|..].
  - intros [|i] k' Hk' Hs; [done|by apply (H3 i k')].
  - intros [|i] k' Hk' Hs; [injection Hk' as <-; congruence|by apply (H4 i k')].
  - intros [|i] k' o Hk' Ho; [done|by apply (H5 i)].
  - intros [|i] [|j] k1 k2 o1 o2 Hij Hk1 Hk2 Ho1 Ho2; try done. by apply (H6 i j); [congruence|..].
Qed.

(** A field at [o], and the others behind it. *)
Lemma offsets_take (sel : kind -> bool) (k : kind) (ks : list kind) (os : list (option Z)) (p o p' q : Z) :
  sel k = true -> p <= o -> (size (k_type k) | o) -> o + size (k_type k) <= p' ->
  (forall k', sel k' = true -> o + size (k_type k) + padding k k' <= p') ->
  offsets_ok sel ks os p' q -> offsets_ok sel (k :: ks) (Some o :: os) p q.
Proof using Hh.
  intros Hk Ho Hdiv Hend Hpad [H1 H2 H3 H4 H5 H6]. pose proof (size_cases (k_type k)) as Hsz.
  assert (Hsel : forall i k' o', ks !! i = Some k' -> os !! i = Some (Some o') -> sel k' = true).
  { intros i k' o' Hk' Ho'. destruct (sel k') eqn:Hs; [done|]. rewrite (H3 i k' Hk' Hs) in Ho'. done. }
  split; [cbn; by f_equal|lia|..].
  - intros [|i] k' Hk' Hs; [injection Hk' as <-; congruence|by apply (H3 i k')].
  - intros [|i] k' Hk' Hs; [by eexists|by apply (H4 i k')].
  - intros [|i] k' o' Hk' Ho'; [injection Hk' as <-; injection Ho' as <-; split; [lia|]; split; [done|lia]|].
    destruct (H5 i k' o' Hk' Ho') as (? & ? & ?). split; [lia|done].
  - intros [|i] [|j] k1 k2 o1 o2 Hij Hk1 Hk2 Ho1 Ho2; [done|..].
    + injection Hk1 as <-. injection Ho1 as <-. left. destruct (H5 j k2 o2 Hk2 Ho2) as (Hp & _ & _).
      specialize (Hpad k2 (Hsel j k2 o2 Hk2 Ho2)). lia.
    + injection Hk2 as <-. injection Ho2 as <-. right. destruct (H5 i k1 o1 Hk1 Ho1) as (Hp & _ & _).
      specialize (Hpad k1 (Hsel i k1 o1 Hk1 Ho1)). rewrite padding_sym. lia.
    + by apply (H6 i j); [congruence|..].
Qed.

Lemma in_group_padding (group : Z) (k k' : kind) :
  in_group group k = true -> in_group group k' = true -> padding k k' = if group =? 0 then W else 0.
Proof using.
  unfold in_group. intros [_ Hk%bool_decide_eq_true]%andb_true_iff [_ Hk'%bool_decide_eq_true]%andb_true_iff.
  unfold padding. rewrite Hk, Hk', bool_decide_true by done.
  destruct (Z.eqb_spec group 0) as [->|]; [done|]. by rewrite bool_decide_false by congruence.
Qed.

Lemma place_group_ok (group : Z) (ks : list kind) (p : Z) :
  let '(os, q) := place_group group ks p in
  offsets_ok (in_group group) ks os p q /\ q <= p + (16 + (if group =? 0 then W else 0)) * count_of (in_group group) ks /\
  (group = 0 -> forall i k o, ks !! i = Some k -> os !! i = Some (Some o) -> o + size (k_type k) + W <= q).
Proof using Hh HW.
  revert p. induction ks as [|k ks IH]; intros p; cbn [place_group].
  { split; [apply offsets_nil; lia|]. rewrite count_of_nil. split; [lia|]. done. }
  rewrite count_of_cons. destruct (in_group group k) eqn:Hg.
  - set (o := up p (size (k_type k))). pose proof (size_cases (k_type k)) as Hsz.
    destruct (up_bounds p (size (k_type k)) ltac:(lia)) as [Hdiv Hb]. fold o in Hdiv, Hb.
    set (p' := o + size (k_type k) + (if group =? 0 then W else 0)).
    specialize (IH p'). destruct (place_group group ks p') as [os q]. destruct IH as (Hok & Hq & Hlast).
    assert (Hp' : o + size (k_type k) <= p' <= p + (16 + (if group =? 0 then W else 0))) by (unfold p'; destruct (group =? 0); lia).
    split; [|split].
    + apply (offsets_take _ k ks os p o p' q Hg); [lia|done|lia| |done].
      intros k' Hk'. rewrite (in_group_padding group k k' Hg Hk'). unfold p'. lia.
    + destruct (group =? 0); lia.
    + intros Hz [|i] k' o' Hk' Ho'; [|by apply (Hlast Hz i)]. injection Hk' as <-. injection Ho' as <-.
      pose proof (os_range _ _ _ _ _ Hok). unfold p' in *. rewrite Hz in *. cbn [Z.eqb] in *. lia.
  - specialize (IH p). destruct (place_group group ks p) as [os q]. destruct IH as (Hok & Hq & Hlast).
    split; [by apply offsets_skip|]. split; [lia|]. intros Hz [|i] k' o' Hk' Ho'; [done|by apply (Hlast Hz i)].
Qed.

Abbreviation padded_state maps q := {| padded_offset := q; padded_maps := maps; padded_first := first_of maps |}.

Lemma oop_offsets_cons (k : kind) (ks : list kind) (o : option Z) (os : list (option Z)) :
  oop_offsets (k :: ks) (o :: os) = (if is_oop k then option_list o else []) ++ oop_offsets ks os.
Proof using. unfold oop_offsets. cbn [zip_with omap list_omap]. destruct (is_oop k), o; done. Qed.

Lemma group_loop_ok (max_maps group : Z) (fs : list FieldInfo) (ks : list kind) (p : Z) (maps : list (Z * Z)) :
  Forall2 (waiting group) fs ks -> 0 < p -> p + (16 + W) * (count_of (in_group group) ks + 1) < 2 ^ 29 ->
  Forall (block_ok C) maps -> zlen maps + count_of (fun k => in_group group k && is_oop k) ks <= max_maps ->
  let '(os, q) := place_group group ks p in
  exists maps', group_loop C max_maps group fs (padded_state maps p) = Some (apply_offsets fs os, padded_state maps' q) /\
    Forall (block_ok C) maps' /\ oops C maps' = oops C maps ++ oop_offsets ks os /\
    zlen maps' = zlen maps + count_of (fun k => in_group group k && is_oop k) ks.
Proof using Hh HW.
  intros Hfs. revert p maps. induction Hfs as [|f k fs ks Hf Hfs IH]; intros p maps Hp Hlim Hok Hroom; cbn [place_group group_loop].
  { exists maps. rewrite app_nil_r, count_of_nil. repeat split; try done. lia. }
  rewrite count_of_cons in Hlim, Hroom |- *. pose proof (count_of_bounds (in_group group) ks) as Hc1.
  pose proof (count_of_bounds (fun k => in_group group k && is_oop k) ks) as Hc2. pow2_norm.
  pose proof (contended_field_ok max_maps group f k p maps Hf Hp) as Hone. pow2_norm.
  specialize (Hone ltac:(destruct (in_group group k); nia) Hok). cbv zeta in Hone.
  specialize (Hone ltac:(intros Hi Ho; rewrite Hi, Ho in Hroom; cbn [andb] in Hroom; lia)).
  destruct (in_group group k) eqn:Hg.
  - set (o := up p (size (k_type k))) in *. destruct Hone as (maps1 & -> & Hok1 & Ho1 & Hl1). cbn [mbind option_bind andb] in *.
    pose proof (size_cases (k_type k)) as Hsz. destruct (up_bounds p (size (k_type k)) ltac:(lia)) as [Hdiv Hb]. fold o in Hdiv, Hb.
    set (p' := o + size (k_type k) + (if group =? 0 then W else 0)).
    assert (Hp' : p < p' <= p + (16 + W)) by (unfold p'; destruct (group =? 0); lia).
    specialize (IH p' maps1 ltac:(lia)). destruct (place_group group ks p') as [os q].
    destruct IH as (maps2 & -> & Hok2 & Ho2 & Hl2); [pow2_norm; nia|done|destruct (is_oop k); lia|]. cbn [mbind option_bind].
    exists maps2. split; [done|]. split; [done|]. split.
    + rewrite Ho2, Ho1, oop_offsets_cons, <- app_assoc. f_equal.
    + destruct (is_oop k); lia.
  - rewrite Hone. cbn [mbind option_bind andb] in *. specialize (IH p maps Hp). destruct (place_group group ks p) as [os q].
    destruct IH as (maps2 & -> & Hok2 & Ho2 & Hl2); [pow2_norm; lia|done|lia|]. cbn [mbind option_bind].
    exists maps2. split; [done|]. split; [done|]. split; [|lia].
    rewrite Ho2, oop_offsets_cons. f_equal. by destruct (is_oop k).
Qed.

(** The oops of a group are in ascending order. *)
Lemma place_group_sorted (group : Z) (ks : list kind) (p : Z) :
  let '(os, q) := place_group group ks p in
  StronglySorted Z.lt (oop_offsets ks os) /\ Forall (fun x => p <= x < q) (oop_offsets ks os) /\ p <= q.
Proof using Hh HW.
  revert p. induction ks as [|k ks IH]; intros p; cbn [place_group]; [by repeat constructor|].
  destruct (in_group group k) eqn:Hg.
  - set (o := up p (size (k_type k))). pose proof (size_cases (k_type k)) as Hsz.
    destruct (up_bounds p (size (k_type k)) ltac:(lia)) as [_ Hb]. fold o in Hb.
    set (p' := o + size (k_type k) + (if group =? 0 then W else 0)).
    assert (Hp' : o < p') by (unfold p'; destruct (group =? 0); lia).
    specialize (IH p'). destruct (place_group group ks p') as [os q]. destruct IH as (Hs & Hf & Hq). rewrite oop_offsets_cons.
    assert (Hf' : Forall (fun x => p <= x < q) (oop_offsets ks os)) by (eapply list.Forall_impl; [exact Hf|]; cbn; lia).
    split; [|split; [|lia]]; destruct (is_oop k); cbn [option_list app]; try done.
    + constructor; [done|]. eapply list.Forall_impl; [exact Hf|]. cbn. lia.
    + constructor; [lia|done].
  - specialize (IH p). destruct (place_group group ks p) as [os q]. rewrite oop_offsets_cons. by destruct (is_oop k).
Qed.

Lemma elem_oop_offsets (ks : list kind) (os : list (option Z)) (x : Z) :
  x ∈ oop_offsets ks os <-> exists i k, ks !! i = Some k /\ os !! i = Some (Some x) /\ is_oop k = true.
Proof using.
  revert os. induction ks as [|k ks IH]; intros os.
  { split; [by intros ?%elem_of_nil|]. by intros (i & k & Hk & _). }
  destruct os as [|o os].
  { split; [by intros ?%elem_of_nil|]. by intros (i & k' & _ & Ho & _). }
  rewrite oop_offsets_cons, elem_of_app, IH. split.
  - intros [Hx|(i & k' & H1 & H2 & H3)]; [|by exists (S i), k'].
    destruct (is_oop k) eqn:Hk; [|by apply elem_of_nil in Hx]. destruct o as [y|]; [|by apply elem_of_nil in Hx].
    apply list_elem_of_singleton in Hx as ->. by exists 0%nat, k.
  - intros ([|i] & k' & H1 & H2 & H3); [|right; by exists i, k']. left. injection H1 as ->. injection H2 as ->. rewrite H3.
    by apply list_elem_of_singleton.
Qed.

(** Offsets from two rounds. *)
Definition merge (os1 os2 : list (option Z)) : list (option Z) :=
  zip_with (fun a b => match b with Some _ => b | None => a end) os1 os2.

Lemma apply_merge (fs : list FieldInfo) (os1 os2 : list (option Z)) :
  length os1 = length fs -> length os2 = length fs ->
  apply_offsets (apply_offsets fs os1) os2 = apply_offsets fs (merge os1 os2).
Proof using.
  revert os1 os2. induction fs as [|f fs IH]; intros [|o1 os1] [|o2 os2] H1 H2; try done. cbn.
  f_equal; [by destruct o1, o2|]. apply IH; cbn in *; lia.
Qed.

Lemma merge_lookup (os1 os2 : list (option Z)) (i : nat) (a b : option Z) :
  os1 !! i = Some a -> os2 !! i = Some b -> merge os1 os2 !! i = Some (match b with Some _ => b | None => a end).
Proof using. intros Ha Hb. unfold merge. by rewrite lookup_zip_with, Ha, Hb. Qed.

Lemma offsets_lookup (sel : kind -> bool) (ks : list kind) (os : list (option Z)) (p q : Z) (i : nat) (k : kind) :
  offsets_ok sel ks os p q -> ks !! i = Some k ->
  if sel k then exists o, os !! i = Some (Some o) /\ p <= o /\ (size (k_type k) | o) /\ o + size (k_type k) <= q
  else os !! i = Some None.
Proof using.
  intros Hos Hk. destruct (sel k) eqn:Hs; [|by apply (os_none _ _ _ _ _ Hos i k)].
  destruct (os_some _ _ _ _ _ Hos i k Hk Hs) as [o Ho]. exists o. split; [done|]. by apply (os_place _ _ _ _ _ Hos i).
Qed.

Lemma merge_ok (sel sel1 sel2 : kind -> bool) (ks : list kind) (os1 os2 : list (option Z)) (p q1 p2 q : Z) :
  offsets_ok sel1 ks os1 p q1 -> offsets_ok sel2 ks os2 p2 q -> q1 <= p2 ->
  (forall k, k ∈ ks -> sel k = sel1 k || sel2 k /\ sel1 k && sel2 k = false) ->
  (forall i k o k', ks !! i = Some k -> os1 !! i = Some (Some o) -> k' ∈ ks -> sel2 k' = true ->
    o + size (k_type k) + padding k k' <= p2) ->
  offsets_ok sel ks (merge os1 os2) p q.
Proof using.
  intros Hos1 Hos2 Hq Hsel Hpad.
  assert (Hat : forall i k, ks !! i = Some k ->
    (sel k = false /\ merge os1 os2 !! i = Some None) \/
    (exists o, sel k = true /\ merge os1 os2 !! i = Some (Some o) /\ sel1 k = true /\ os1 !! i = Some (Some o)) \/
    (exists o, sel k = true /\ merge os1 os2 !! i = Some (Some o) /\ sel2 k = true /\ os2 !! i = Some (Some o))).
  { intros i k Hk. pose proof (offsets_lookup _ _ _ _ _ i k Hos1 Hk) as H1. pose proof (offsets_lookup _ _ _ _ _ i k Hos2 Hk) as H2.
    destruct (Hsel k (list_elem_of_lookup_2 _ _ _ Hk)) as [Hs Hn]. destruct (sel1 k), (sel2 k); try done; cbn in Hs.
    - destruct H1 as (o & H1 & _). right; left. exists o. by rewrite (merge_lookup _ _ _ _ _ H1 H2).
    - destruct H2 as (o & H2 & _). right; right. exists o. by rewrite (merge_lookup _ _ _ _ _ H1 H2).
    - left. by rewrite (merge_lookup _ _ _ _ _ H1 H2). }
  pose proof (os_range _ _ _ _ _ Hos1). pose proof (os_range _ _ _ _ _ Hos2). split.
  - unfold merge. rewrite length_zip_with, (os_length _ _ _ _ _ Hos1), (os_length _ _ _ _ _ Hos2). lia.
  - lia.
  - intros i k Hk Hs. destruct (Hat i k Hk) as [[_ ?]|[(o & Hs' & _)|(o & Hs' & _)]]; [done|congruence..].
  - intros i k Hk Hs. destruct (Hat i k Hk) as [[Hs' _]|[(o & _ & ? & _)|(o & _ & ? & _)]]; [congruence|by exists o..].
  - intros i k o Hk Ho. destruct (Hat i k Hk) as [[_ H']|[(o' & _ & H' & _ & H1)|(o' & _ & H' & _ & H2)]]; rewrite Ho in H'; [done|..];
      injection H' as <-.
    + destruct (os_place _ _ _ _ _ Hos1 i k o Hk H1) as (? & ? & ?). split; [done|]. split; [done|lia].
    + destruct (os_place _ _ _ _ _ Hos2 i k o Hk H2) as (? & ? & ?). split; [lia|done].
  - intros i j k1 k2 o1 o2 Hij Hk1 Hk2 Ho1 Ho2.
    destruct (Hat i k1 Hk1) as [[_ H']|[(x & _ & H' & Hs1 & H1)|(x & _ & H' & Hs1 & H1)]]; rewrite Ho1 in H'; [done|..]; injection H' as <-;
    (destruct (Hat j k2 Hk2) as [[_ H']|[(x & _ & H' & Hs2 & H2)|(x & _ & H' & Hs2 & H2)]]; rewrite Ho2 in H'; [done|..]; injection H' as <-).
    + by apply (os_apart _ _ _ _ _ Hos1 i j).
    + left. pose proof (Hpad i k1 o1 k2 Hk1 H1 (list_elem_of_lookup_2 _ _ _ Hk2) Hs2).
      destruct (os_place _ _ _ _ _ Hos2 j k2 o2 Hk2 H2). lia.
    + right. pose proof (Hpad j k2 o2 k1 Hk2 H2 (list_elem_of_lookup_2 _ _ _ Hk1) Hs1) as Hp. rewrite padding_sym.
      destruct (os_place _ _ _ _ _ Hos2 i k1 o1 Hk1 H1). lia.
    + by apply (os_apart _ _ _ _ _ Hos2 i j).
Qed.

(** *** All groups *)

Definition group_of (k : kind) : Z := default 0 (k_group k).
(** The contended fields whose groups come after [c]. *)
Definition pending (c : Z) (k : kind) : bool := late k && (c <? group_of k).

(** A field that waits, or has its offset and is not pending any more. *)
Definition field_state (c : Z) (f : FieldInfo) (k : kind) : Prop :=
  fresh_field f k \/ (is_offset_set f = true /\ pending c k = false).

Lemma late_group (k : kind) : late k = true -> k_group k = Some (group_of k).
Proof using.
  unfold late, is_contended_kind, group_of. intros [[g Hg]%bool_decide_eq_true _]%andb_true_iff. by rewrite Hg.
Qed.

Lemma in_group_iff (g : Z) (k : kind) : in_group g k = late k && (group_of k =? g).
Proof using.
  unfold in_group. destruct (late k) eqn:Hl; [|done]. rewrite (late_group k Hl). cbn [andb].
  destruct (Z.eqb_spec (group_of k) g) as [->|]; [by rewrite bool_decide_true|rewrite bool_decide_false; congruence].
Qed.

Lemma field_state_waiting (c g : Z) (f : FieldInfo) (k : kind) : c < g -> field_state c f k -> waiting g f k.
Proof using.
  intros Hg [Hf|[Hs Hp]]; [by left|right]. split; [done|]. rewrite in_group_iff. unfold pending in Hp.
  destruct (late k); [cbn [andb] in *; lia|done].
Qed.

Lemma field_state_next (c g : Z) (fs : list FieldInfo) (ks : list kind) (os : list (option Z)) (p q : Z) :
  c < g -> (forall k, k ∈ ks -> late k = true -> ~ (c < group_of k < g)) ->
  Forall2 (field_state c) fs ks -> offsets_ok (in_group g) ks os p q ->
  Forall2 (field_state g) (apply_offsets fs os) ks.
Proof using.
  intros Hg Hno Hfs Hos. apply Forall2_same_length_lookup_2.
  { unfold apply_offsets. rewrite length_zip_with, (list.Forall2_length _ _ _ Hfs), (os_length _ _ _ _ _ Hos). lia. }
  intros i f k Hf Hk. unfold apply_offsets in Hf. rewrite lookup_zip_with in Hf.
  destruct (fs !! i) as [f0|] eqn:Hf0; [|done]. cbn [mbind option_bind] in Hf.
  pose proof (Forall2_lookup_lr _ _ _ _ _ _ Hfs Hf0 Hk) as Hst.
  pose proof (offsets_lookup _ _ _ _ _ i k Hos Hk) as Ho. specialize (Hno k (list_elem_of_lookup_2 _ _ _ Hk)).
  destruct (in_group g k) eqn:Hin.
  - destruct Ho as (o & Ho & _). rewrite Ho in Hf. injection Hf as <-. right. split; [apply set_offset_set|].
    rewrite in_group_iff in Hin. unfold pending. destruct (late k); [cbn [andb] in *; lia|done].
  - rewrite Ho in Hf. injection Hf as <-. destruct Hst as [?|[Hs Hp]]; [by left|right]. split; [done|].
    rewrite in_group_iff in Hin. unfold pending in *. destruct (late k); [cbn [andb] in *; specialize (Hno eq_refl); lia|done].
Qed.

Lemma count_pending_split (c g : Z) (ks : list kind) (r : kind -> bool) :
  c < g -> (forall k, k ∈ ks -> late k = true -> ~ (c < group_of k < g)) ->
  count_of (fun k => pending c k && r k) ks =
    count_of (fun k => in_group g k && r k) ks + count_of (fun k => pending g k && r k) ks.
Proof using.
  intros Hg Hno. induction ks as [|k ks IH]; [done|]. rewrite !count_of_cons, IH by (intros; apply Hno; [by apply list_elem_of_further|done]).
  specialize (Hno k (list_elem_of_here _ _)). rewrite in_group_iff. unfold pending.
  destruct (late k); cbn [andb]; [|lia]. specialize (Hno eq_refl).
  destruct (Z.ltb_spec c (group_of k)), (Z.eqb_spec (group_of k) g), (Z.ltb_spec g (group_of k)); try lia; destruct (r k); cbn [andb]; lia.
Qed.

Lemma count_of_ext (p q : kind -> bool) (ks : list kind) : (forall k, p k = q k) -> count_of p ks = count_of q ks.
Proof using. intros Hpq. induction ks as [|k ks IH]; [done|]. by rewrite !count_of_cons, IH, Hpq. Qed.

Lemma count_of_pos (p : kind -> bool) (ks : list kind) : existsb p ks = true -> 0 < count_of p ks.
Proof using.
  induction ks as [|k ks IH]; [done|]. rewrite count_of_cons. cbn [existsb]. pose proof (count_of_bounds p ks).
  destruct (p k); [lia|]. intros H'%IH. lia.
Qed.

Lemma sorted_app (l1 l2 : list Z) (m : Z) :
  StronglySorted Z.lt l1 -> StronglySorted Z.lt l2 -> Forall (fun x => x < m) l1 -> Forall (fun x => m <= x) l2 ->
  StronglySorted Z.lt (l1 ++ l2).
Proof using.
  intros H1 H2 Hl1 Hl2. induction H1 as [|x l1 Hs IH Hx]; [done|]. apply list.Forall_cons in Hl1 as [Hxm Hl1].
  cbn [app]. constructor; [by apply IH|]. apply Forall_app. split; [done|]. eapply list.Forall_impl; [exact Hl2|]. cbn. lia.
Qed.

Lemma apply_none (fs : list FieldInfo) (n : nat) : length fs = n -> apply_offsets fs (replicate n None) = fs.
Proof using. intros <-. induction fs as [|f fs IH]; [done|]. cbn. by f_equal. Qed.

Lemma offsets_none (sel : kind -> bool) (ks : list kind) (p q : Z) :
  (forall k, k ∈ ks -> sel k = false) -> p <= q -> offsets_ok sel ks (replicate (length ks) None) p q.
Proof using.
  intros Hsel Hpq. induction ks as [|k ks IH]; [by apply offsets_nil|]. cbn. apply offsets_skip; [apply Hsel, list_elem_of_here|].
  apply IH. intros k' Hk'. by apply Hsel, list_elem_of_further.
Qed.

Lemma oop_offsets_none (ks : list kind) : oop_offsets ks (replicate (length ks) None) = [].
Proof using. induction ks as [|k ks IH]; [done|]. cbn [length replicate]. rewrite oop_offsets_cons, IH. by destruct (is_oop k). Qed.

Lemma count_of_none (p : kind -> bool) (ks : list kind) : (forall k, k ∈ ks -> p k = false) -> count_of p ks = 0.
Proof using.
  intros Hp. induction ks as [|k ks IH]; [done|]. rewrite count_of_cons, IH, Hp; [done|apply list_elem_of_here|].
  intros k' Hk'. by apply Hp, list_elem_of_further.
Qed.

(** What a number of rounds does from the offset [p] on. *)
Record rounds_ok (c : Z) (ks : list kind) (p : Z) (maps : list (Z * Z)) (os : list (option Z)) (q : Z) (maps' : list (Z * Z)) (l : list Z)
    : Prop := {
  rounds_offsets : offsets_ok (pending c) ks os p q;
  rounds_last i k o : ks !! i = Some k -> os !! i = Some (Some o) -> o + size (k_type k) + W <= q;
  rounds_end : q <= p + (16 + W) * count_of (pending c) ks;
  rounds_blocks : Forall (block_ok C) maps';
  rounds_oops : oops C maps' = oops C maps ++ l;
  rounds_sorted : StronglySorted Z.lt l;
  rounds_range : Forall (fun x => p <= x < q) l;
  rounds_elem x : x ∈ l <-> x ∈ oop_offsets ks os;
  rounds_length : zlen maps' = zlen maps + count_of (fun k => pending c k && is_oop k) ks;
}.

(** No group is left. *)
Lemma rounds_done (c : Z) (ks : list kind) (p : Z) (maps : list (Z * Z)) :
  Forall (block_ok C) maps -> (forall k, k ∈ ks -> pending c k = false) ->
  rounds_ok c ks p maps (replicate (length ks) None) p maps [].
Proof using.
  intros Hok Hno. split; try done; try (by constructor).
  - by apply offsets_none.
  - intros i k o Hk Ho. apply lookup_replicate in Ho as [? _]. done.
  - rewrite count_of_none by done. lia.
  - by rewrite app_nil_r.
  - intros x. by rewrite oop_offsets_none.
  - rewrite count_of_none; [lia|]. intros k Hk. by rewrite Hno.
Qed.

Lemma merge_elem (sel1 sel2 : kind -> bool) (ks : list kind) (os1 os2 : list (option Z)) (p q1 p2 q x : Z) :
  offsets_ok sel1 ks os1 p q1 -> offsets_ok sel2 ks os2 p2 q -> (forall k, k ∈ ks -> sel1 k && sel2 k = false) ->
  x ∈ oop_offsets ks (merge os1 os2) <-> x ∈ oop_offsets ks os1 \/ x ∈ oop_offsets ks os2.
Proof using.
  intros Hos1 Hos2 Hno. rewrite !elem_oop_offsets.
  assert (Hat : forall i k, ks !! i = Some k -> exists a b, os1 !! i = Some a /\ os2 !! i = Some b /\ (a = None \/ b = None)).
  { intros i k Hk. specialize (Hno k (list_elem_of_lookup_2 _ _ _ Hk)).
    pose proof (offsets_lookup _ _ _ _ _ i k Hos1 Hk) as H1. pose proof (offsets_lookup _ _ _ _ _ i k Hos2 Hk) as H2.
    destruct (sel1 k), (sel2 k); try done.
    - destruct H1 as (o & H1 & _). exists (Some o), None. by repeat split; [..|right].
    - destruct H2 as (o & H2 & _). exists None, (Some o). by repeat split; [..|left].
    - exists None, None. by repeat split; [..|left]. }
  split.
  - intros (i & k & Hk & Ho & Hoop). destruct (Hat i k Hk) as (a & b & Ha & Hb & Hab). rewrite (merge_lookup _ _ _ _ _ Ha Hb) in Ho.
    destruct b as [y|]; [right|left]; exists i, k; rewrite ?Ha, ?Hb; by injection Ho as ->.
  - intros [(i & k & Hk & Ho & Hoop)|(i & k & Hk & Ho & Hoop)]; destruct (Hat i k Hk) as (a & b & Ha & Hb & Hab);
      exists i, k; rewrite (merge_lookup _ _ _ _ _ Ha Hb); split; try done; split; try done.
    + rewrite Ha in Ho. injection Ho as ->. by destruct Hab as [?| ->].
    + rewrite Hb in Ho. by injection Ho as ->.
Qed.

(** One more group in front; [p'] is the offset behind its padding. *)
Lemma rounds_step (c g : Z) (ks : list kind) (p q1 p' q : Z) (maps maps1 maps2 : list (Z * Z)) (os1 os2 : list (option Z)) (l : list Z) :
  c < g -> (forall k, k ∈ ks -> late k = true -> ~ (c < group_of k < g)) ->
  place_group g ks p = (os1, q1) -> p' = (if g =? 0 then q1 else q1 + W) -> 0 < count_of (in_group g) ks ->
  oops C maps1 = oops C maps ++ oop_offsets ks os1 ->
  zlen maps1 = zlen maps + count_of (fun k => in_group g k && is_oop k) ks ->
  rounds_ok g ks p' maps1 os2 q maps2 l ->
  rounds_ok c ks p maps (merge os1 os2) q maps2 (oop_offsets ks os1 ++ l).
Proof using Hh HW.
  intros Hg Hno Hpl Hp' Hpos Ho1 Hl1 [R1 R2 R3 R4 R5 R6 R7 R8 R9].
  pose proof (place_group_ok g ks p) as Hok. pose proof (place_group_sorted g ks p) as Hso. rewrite Hpl in Hok, Hso.
  destruct Hok as (Hos1 & Hq1 & Hlast). destruct Hso as (Hs1 & Hf1 & Hpq).
  assert (Hp2 : q1 <= p' <= q1 + W) by (rewrite Hp'; destruct (g =? 0); lia).
  assert (Hlast1 : forall i k o, ks !! i = Some k -> os1 !! i = Some (Some o) -> o + size (k_type k) + W <= p').
  { intros i k o Hk Ho. destruct (Z.eqb_spec g 0) as [Hz|]; [specialize (Hlast Hz i k o Hk Ho); lia|].
    destruct (os_place _ _ _ _ _ Hos1 i k o Hk Ho) as (_ & _ & ?). lia. }
  assert (Hsel : forall k, k ∈ ks -> pending c k = in_group g k || pending g k /\ in_group g k && pending g k = false).
  { intros k Hk. specialize (Hno k Hk). rewrite in_group_iff. unfold pending. destruct (late k); [|done]. specialize (Hno eq_refl).
    cbn [andb]. lia. }
  pose proof (os_range _ _ _ _ _ R1) as Hrange.
  assert (Hcnt : count_of (pending c) ks = count_of (in_group g) ks + count_of (pending g) ks).
  { pose proof (count_pending_split c g ks (fun _ => true) Hg Hno) as Hsp.
    rewrite !(count_of_ext (fun k => _ k && true) _ ks (fun k => andb_true_r _)) in Hsp. exact Hsp. }
  split; try done.
  - apply (merge_ok _ (in_group g) (pending g) ks os1 os2 p q1 p' q); [done|done|lia|done|].
    intros i k o k' Hk Ho Hk' Hs. pose proof (Hlast1 i k o Hk Ho). unfold padding. destruct (_ && _); lia.
  - intros i k o Hk Ho. pose proof (offsets_lookup _ _ _ _ _ i k Hos1 Hk) as H1. pose proof (offsets_lookup _ _ _ _ _ i k R1 Hk) as H2.
    destruct (Hsel k (list_elem_of_lookup_2 _ _ _ Hk)) as [_ Hb]. destruct (in_group g k), (pending g k); try done.
    + destruct H1 as (o1 & H1 & _). rewrite (merge_lookup _ _ _ _ _ H1 H2) in Ho. injection Ho as <-. pose proof (Hlast1 i k o1 Hk H1). lia.
    + destruct H2 as (o2 & H2 & _). rewrite (merge_lookup _ _ _ _ _ H1 H2) in Ho. injection Ho as <-. by apply (R2 i k).
    + by rewrite (merge_lookup _ _ _ _ _ H1 H2) in Ho.
  - rewrite Hcnt. destruct (g =? 0); nia.
  - by rewrite R5, Ho1, app_assoc.
  - apply (sorted_app _ _ q1); [done|done|eapply list.Forall_impl; [exact Hf1|]; cbn; lia|eapply list.Forall_impl; [exact R7|]; cbn; lia].
  - apply Forall_app. split; [eapply list.Forall_impl; [exact Hf1|]; cbn; lia|eapply list.Forall_impl; [exact R7|]; cbn; lia].
  - intros x. rewrite elem_of_app, R8, (merge_elem (in_group g) (pending g) ks os1 os2 p q1 p' q x Hos1 R1); [done|].
    intros k Hk. by destruct (Hsel k Hk).
  - rewrite R9, Hl1, (count_pending_split c g ks is_oop Hg Hno). lia.
Qed.

Lemma groups_loop_ok (bm : BitMap) (max_maps : Z) (ks : list kind) (fuel : nat) (c : Z) (fs : list FieldInfo) (p : Z) (maps : list (Z * Z)) :
  wf bm -> (forall g, 0 <= g < bm_size bm -> bit bm g = existsb (in_group g) ks) ->
  (forall k, k ∈ ks -> late k = true -> 0 <= group_of k < bm_size bm) ->
  -1 <= c < bm_size bm -> bm_size bm - 1 - c <= Z.of_nat fuel -> Forall2 (field_state c) fs ks ->
  0 < p -> p + (16 + W) * (count_of (pending c) ks + 1) < 2 ^ 29 -> Forall (block_ok C) maps ->
  zlen maps + count_of (fun k => pending c k && is_oop k) ks <= max_maps ->
  exists os q maps' l, groups_loop C fuel bm max_maps c fs (padded_state maps p) = Some (apply_offsets fs os, padded_state maps' q) /\
    rounds_ok c ks p maps os q maps' l.
Proof using Hh HW.
  intros Hwf Hbits Hgr. revert c fs p maps.
  induction fuel as [|fuel IH]; intros c fs p maps Hc Hfuel Hfs Hp Hlim Hok Hroom; cbn [groups_loop].
  all: destruct (get_next_one_offset_spec bm (c + 1) (bm_size bm) Hwf ltac:(lia) ltac:(lia)) as (g & -> & Hg1 & Hg2 & Hg3).
  all: cbn [mbind option_bind]; destruct (Z.eqb_spec g (bm_size bm)) as [Hend|Hmore].
  all: assert (Hno : forall k, k ∈ ks -> late k = true -> ~ (c < group_of k < g)) by
    (intros k Hk Hl Hr; specialize (Hgr k Hk Hl); specialize (Hg2 (group_of k) ltac:(lia));
     rewrite Hbits in Hg2 by lia;
     assert (existsb (in_group (group_of k)) ks = true); [|congruence];
     apply existsb_exists; exists k; split; [by apply list_elem_of_In|]; rewrite in_group_iff, Hl; apply Z.eqb_refl).
  2: lia.
  1,2: exists (replicate (length ks) None), p, maps, []; rewrite apply_none by (by apply list.Forall2_length in Hfs);
    (split; [done|]); apply rounds_done; [done|]; intros k Hk; unfold pending; destruct (late k) eqn:Hl; [|done];
    specialize (Hno k Hk Hl); specialize (Hgr k Hk Hl); cbn [andb]; lia.
  assert (Hcg : c < g) by lia.
  assert (Hpos : 0 < count_of (in_group g) ks) by (apply count_of_pos; rewrite <- Hbits by lia; apply Hg3; lia).
  assert (Hcnt : count_of (pending c) ks = count_of (in_group g) ks + count_of (pending g) ks).
  { pose proof (count_pending_split c g ks (fun _ => true) Hcg Hno) as Hsp.
    rewrite !(count_of_ext (fun k => _ k && true) _ ks (fun k => andb_true_r _)) in Hsp. exact Hsp. }
  pose proof (count_pending_split c g ks is_oop Hcg Hno) as Hcnt2. pose proof (count_of_bounds (pending g) ks).
  pose proof (count_of_bounds (fun k => pending g k && is_oop k) ks).
  assert (Hwait : Forall2 (waiting g) fs ks) by (eapply list.Forall2_impl; [exact Hfs|]; intros f k; by apply field_state_waiting).
  pose proof (group_loop_ok max_maps g fs ks p maps Hwait Hp) as Hgl. pose proof (place_group_ok g ks p) as Hpl.
  destruct (place_group g ks p) as [os1 q1] eqn:Hplace.
  destruct Hgl as (maps1 & -> & Hok1 & Ho1 & Hl1); [pow2_norm; nia|done|lia|]. destruct Hpl as (Hos1 & Hq1 & _).
  pose proof (os_range _ _ _ _ _ Hos1) as Hpq. cbn [mbind option_bind].
  set (p' := if g =? 0 then q1 else q1 + W).
  assert (Hst : (if g =? 0 then padded_state maps1 q1 else
      {| padded_offset := s32 (padded_offset (padded_state maps1 q1) + W); padded_maps := padded_maps (padded_state maps1 q1);
         padded_first := padded_first (padded_state maps1 q1) |}) = padded_state maps1 p').
  { unfold p'. cbn [padded_offset padded_maps padded_first]. destruct (g =? 0); [done|]. rewrite smod_id; [done|lia|]. pow2_norm. nia. }
  rewrite Hst. clear Hst.
  assert (Hp' : p <= p' <= p + (16 + W) * count_of (in_group g) ks) by (unfold p'; destruct (g =? 0); nia).
  destruct (IH g (apply_offsets fs os1) p' maps1) as (os2 & q & maps2 & l & -> & HR).
  - lia.
  - lia.
  - by apply (field_state_next c g fs ks os1 p q1).
  - lia.
  - pow2_norm. nia.
  - done.
  - lia.
  - exists (merge os1 os2), q, maps2, (oop_offsets ks os1 ++ l). split.
    + rewrite apply_merge; [done|..]; rewrite (list.Forall2_length _ _ _ Hfs); [apply Hos1|apply HR].
    + by apply (rounds_step c g ks p q1 p' q maps maps1 maps2 os1 os2 l).
Qed.

(** After the first loop only the contended instance fields wait. *)
Definition late_waits (f : FieldInfo) (k : kind) : Prop := if late k then fresh_field f k else is_offset_set f = true.

Lemma collect_groups_ok (fs : list FieldInfo) (ks : list kind) (bm : BitMap) :
  wf bm -> Forall2 late_waits fs ks -> (forall k, k ∈ ks -> late k = true -> 0 <= group_of k < bm_size bm) ->
  exists bm', collect_groups fs bm = Some bm' /\ wf bm' /\ bm_size bm' = bm_size bm /\
    forall g, 0 <= g < bm_size bm -> bit bm' g = bit bm g || existsb (in_group g) ks.
Proof using.
  intros Hwf Hfs. revert bm Hwf. induction Hfs as [|f k fs ks Hf Hfs IH]; intros bm Hwf Hgr; cbn [collect_groups].
  { exists bm. split; [done|]. split; [done|]. split; [done|]. intros g _. cbn [existsb]. by rewrite orb_false_r. }
  assert (Hgr' : forall k', k' ∈ ks -> late k' = true -> 0 <= group_of k' < bm_size bm)
    by (intros k' Hk'; apply Hgr; by apply list_elem_of_further).
  specialize (Hgr k (list_elem_of_here _ _)). unfold late_waits in Hf. cbn [existsb]. destruct (late k) eqn:Hl.
  - specialize (Hgr eq_refl). rewrite (fresh_offset _ _ Hf), (fresh_contended _ _ Hf), (fresh_group _ _ Hf). cbn [mbind option_bind].
    pose proof (late_group k Hl) as Hkg. rewrite Hkg. rewrite bool_decide_true by done. cbn [default from_option id].
    destruct (set_bit_spec bm (group_of k) Hwf Hgr) as (bm1 & -> & Hput). cbn [mbind option_bind].
    pose proof (wf_words_bounds bm Hwf) as Hw. destruct Hput as (Hwf1 & Hs1 & Hb1).
    destruct (IH bm1 Hwf1) as (bm2 & -> & Hwf2 & Hs2 & Hb2); [by rewrite Hs1|]. exists bm2. split; [done|]. split; [done|].
    split; [congruence|]. intros g Hg. rewrite Hb2, Hb1 by (rewrite ?Hs1; lia). rewrite in_group_iff, Hl. cbn [andb].
    destruct (in_range_spec (group_of k) (group_of k + 1) g), (Z.eqb_spec (group_of k) g); try lia; cbn [orb]; by rewrite ?orb_true_r.
  - rewrite Hf. cbn [mbind option_bind]. destruct (IH bm Hwf Hgr') as (bm2 & -> & Hwf2 & Hs2 & Hb2). exists bm2.
    split; [done|]. split; [done|]. split; [done|]. intros g Hg. rewrite Hb2 by done. by rewrite in_group_iff, Hl.
Qed.

(** All contended fields. *)
Lemma layout_contended_ok (cp_size : Z) (fresh : list Z) (max_maps : Z) (fs : list FieldInfo) (ks : list kind) (p : Z) (maps : list (Z * Z)) :
  0 <= cp_size < 2 ^ 31 -> zlen fresh = size_in_words (mkBitMap fresh cp_size) -> Forall (fun w => in_u 64 w) fresh ->
  Forall2 late_waits fs ks -> (forall k, k ∈ ks -> late k = true -> 0 <= group_of k < cp_size) ->
  0 < p -> p + W + (16 + W) * (count_of late ks + 1) < 2 ^ 29 -> Forall (block_ok C) maps ->
  zlen maps + count_of (fun k => late k && is_oop k) ks <= max_maps ->
  exists os q maps' l, layout_contended C cp_size fresh max_maps (count_of late ks) fs (padded_state maps p) =
      Some (apply_offsets fs os, padded_state maps' q) /\
    rounds_ok (-1) ks (if 0 <? count_of late ks then p + W else p) maps os q maps' l.
Proof using Hh HW.
  intros Hcp Hfr Hfr' Hfs Hgr Hp Hlim Hok Hroom. unfold layout_contended.
  assert (Hpend : forall k, k ∈ ks -> pending (-1) k = late k).
  { intros k Hk. unfold pending. destruct (late k) eqn:Hl; [|done]. specialize (Hgr k Hk Hl). cbn [andb]. lia. }
  assert (Hcnt : forall r, count_of (fun k => pending (-1) k && r k) ks = count_of (fun k => late k && r k) ks).
  { intros r. clear -Hpend. induction ks as [|k ks IH]; [done|]. rewrite !count_of_cons, Hpend by apply list_elem_of_here.
    rewrite IH; [done|]. intros k' Hk'. by apply Hpend, list_elem_of_further. }
  assert (Hcnt' : count_of (pending (-1)) ks = count_of late ks).
  { specialize (Hcnt (fun _ => true)). by rewrite !(count_of_ext (fun k => _ k && true) _ ks (fun k => andb_true_r _)) in Hcnt. }
  destruct (Z.ltb_spec 0 (count_of late ks)) as [Hpos|Hzero].
  - cbn [padded_offset padded_maps padded_first]. pose proof (count_of_bounds late ks). pow2_norm.
    rewrite smod_id by (pow2_norm; nia).
    assert (Hwf0 : wf (mkBitMap [] 0)) by (split; cbn; [lia|done|constructor]).
    destruct (resize_spec (mkBitMap [] 0) cp_size fresh [] Hwf0 ltac:(pow2_norm; lia) Hfr Hfr') as (bm & Hnew & Hwf & Hs & Hb).
    unfold new_bitmap. rewrite Hnew. cbn [mbind option_bind].
    assert (Hgr' : forall k, k ∈ ks -> late k = true -> 0 <= group_of k < bm_size bm) by (by rewrite Hs).
    destruct (collect_groups_ok fs ks bm Hwf Hfs Hgr') as (bm' & -> & Hwf' & Hs' & Hb'). cbn [mbind option_bind].
    assert (Hz : forall g, 0 <= g < bm_size bm -> bit bm g = false).
    { intros g Hg. pose proof (wf_words_bounds bm Hwf). rewrite Hb by lia. change (64 * size_in_words (mkBitMap [] 0)) with 0. destruct (Z.ltb_spec g 0); [lia|done]. }
    assert (Hcp0 : 0 < cp_size).
    { assert (existsb late ks = true) as (k & Hk & Hl)%existsb_exists; [|apply list_elem_of_In in Hk; specialize (Hgr k Hk Hl); lia].
      destruct (existsb late ks) eqn:He; [done|]. rewrite count_of_none in Hpos; [lia|]. intros k Hk.
      destruct (late k) eqn:Hl; [|done]. assert (existsb late ks = true); [|congruence]. apply existsb_exists.
      exists k. split; [by apply list_elem_of_In|done]. }
    assert (Hb2 : forall g, 0 <= g < bm_size bm' -> bit bm' g = existsb (in_group g) ks).
    { intros g Hg. rewrite Hs' in Hg. rewrite Hb' by done. by rewrite Hz. }
    assert (Hst : Forall2 (field_state (-1)) fs ks).
    { eapply list.Forall2_impl; [exact Hfs|]. intros f k Hf. unfold late_waits in Hf. destruct (late k) eqn:Hl; [by left|right].
      split; [done|]. unfold pending. by rewrite Hl. }
    refine (groups_loop_ok bm' max_maps ks _ _ fs _ maps Hwf' Hb2 _ _ _ Hst _ _ Hok _); rewrite ?Hs', ?Hs, ?Hcnt, ?Hcnt'; done || (pow2_norm; lia).
  - exists (replicate (length ks) None), p, maps, []. rewrite apply_none by (by apply list.Forall2_length in Hfs). split; [done|].
    apply rounds_done; [done|]. intros k Hk. rewrite Hpend by done. destruct (late k) eqn:Hl; [|done].
    assert (0 < count_of late ks); [|lia]. apply count_of_pos, existsb_exists. exists k. split; [by apply list_elem_of_In|done].
Qed.
End Contended.

(** ** The regions of the types *)

Lemma squeeze_loop_eq (fuel : nat) (size length offset count space : Z) :
  0 < size -> length <= Z.of_nat fuel -> 0 <= length -> 0 <= count < 2 ^ 16 ->
  let n := Z.min (length / size) count in
  squeeze_loop fuel size length offset count space = Some (length - n * size, offset + n * size, count - n, space + n).
Proof.
  intros Hs. revert length offset count space. induction fuel as [|fuel IH]; intros length offset count space Hf Hl Hc n; cbn [squeeze_loop].
  all: assert (Hd : length / size * size <= length < (length / size + 1) * size)
    by (pose proof (Z.div_mod length size ltac:(lia)); pose proof (Z.mod_pos_bound length size Hs); lia).
  all: destruct (Z.leb_spec size length), (Z.ltb_spec 0 count); cbn [andb]; try lia.
  3: { pow2_norm. rewrite umod_id by (pow2_norm; lia). rewrite IH by (pow2_norm; lia).
       assert (Hq : (length - size) / size = length / size - 1).
       { replace (length - size) with (length + (-1) * size) by lia. rewrite Z.div_add by lia. lia. }
       rewrite Hq. unfold n. replace (Z.min (length / size - 1) (count - 1)) with (Z.min (length / size) count - 1) by lia.
       f_equal. f_equal; [f_equal; [f_equal|]|]; lia. }
  all: assert (0 <= length / size) by (apply Z.div_pos; lia).
  all: assert (n = 0) as -> by (unfold n; nia); f_equal; f_equal; [f_equal; [f_equal|]|]; lia.
Qed.

(** Types whose fields lie in the object. *)
Definition instance_type (a : FieldAllocationType) : bool := negb (static_type a).

Section Regions.
Context (C : Config) (Hh : heapOopSize C = 4 \/ heapOopSize C = 8).
Abbreviation size := (type_size C).
Context (count : FieldAllocationType -> Z) (Hcount : forall a, 0 <= count a < 2 ^ 16).

(** What the gap holds. *)
Record gap_ok (style d : Z) (gap : Gap) : Prop := {
  gap_split a : 0 <= gap_count gap a /\ 0 <= gap_left gap a /\ gap_count gap a + gap_left gap a = count a;
  gap_place a : 0 < gap_count gap a ->
    (size a | gap_offset gap a) /\ d <= gap_offset gap a /\ gap_offset gap a + gap_count gap a * size a <= gap_end gap;
  gap_low a : 0 <= gap_offset gap a <= gap_end gap;
  gap_apart a b : a <> b -> 0 < gap_count gap a -> 0 < gap_count gap b ->
    apart 0 (gap_offset gap a) (gap_count gap a * size a) (gap_offset gap b) (gap_count gap b * size b);
  gap_end_range : d <= gap_end gap < d + 8;
  gap_end_four : (4 | gap_end gap);
  gap_end_eight : 0 < count NONSTATIC_DOUBLE -> (8 | gap_end gap);
  gap_double : gap_count gap NONSTATIC_DOUBLE = 0;
  gap_oop : style = 0 -> gap_count gap NONSTATIC_OOP = 0;
  gap_oop_one : gap_count gap NONSTATIC_OOP <= 1;
  gap_static a : static_type a = true -> gap_count gap a = 0;
}.

Lemma no_gap_ok (style d e : Z) :
  0 <= d <= e -> e < d + 8 -> (4 | e) -> (0 < count NONSTATIC_DOUBLE -> (8 | e)) -> gap_ok style d (no_gap count e).
Proof using Hcount.
  intros Hd He H4 H8. split; cbn [no_gap gap_count gap_left gap_offset gap_end]; try done; try lia.
  intros a. specialize (Hcount a). lia.
Qed.

(** A gap of four bytes with some fields of each type. *)
Lemma filled_gap_ok (style d words shorts bytes oops : Z) :
  0 < d -> (4 | d) -> (8 | d + 4) ->
  0 <= words <= count NONSTATIC_WORD -> 0 <= shorts <= count NONSTATIC_SHORT -> 0 <= bytes <= count NONSTATIC_BYTE ->
  0 <= oops <= count NONSTATIC_OOP -> 4 * words + 2 * shorts + bytes + heapOopSize C * oops <= 4 -> (0 < oops -> style <> 0) ->
  gap_ok style d
    {| gap_left := put_at (put_at (put_at (put_at count NONSTATIC_WORD (count NONSTATIC_WORD - words))
                                          NONSTATIC_SHORT (count NONSTATIC_SHORT - shorts))
                                  NONSTATIC_BYTE (count NONSTATIC_BYTE - bytes)) NONSTATIC_OOP (count NONSTATIC_OOP - oops);
       gap_count := fun a => match a with NONSTATIC_WORD => words | NONSTATIC_SHORT => shorts
                                     | NONSTATIC_BYTE => bytes | NONSTATIC_OOP => oops | _ => 0 end;
       gap_offset := fun a => match a with NONSTATIC_WORD => d | NONSTATIC_SHORT => d + words * 4
                                      | NONSTATIC_BYTE | NONSTATIC_OOP => d + words * 4 + shorts * 2 | _ => 0 end;
       gap_end := d + 4 |}.
Proof using Hh Hcount.
  intros Hd [x Hx] [y Hy] Hw Hs Hb Ho Hsum Hst.
  split; cbn [gap_count gap_left gap_offset gap_end].
  - intros a. specialize (Hcount a). unfold put_at. repeat case_bool_decide; subst; try lia. destruct a; done || lia.
  - intros a Ha. destruct a; try done; cbn [type_size]; unfold BytesPerShort, BytesPerInt; (split; [|nia]).
    + assert (words = 0 /\ shorts = 0 /\ heapOopSize C = 4) as (-> & -> & ->) by nia. exists x. lia.
    + apply Z.divide_1_l.
    + exists (2 * x + 2 * words). lia.
    + exists x. lia.
  - intros a. destruct a; nia.
  - intros a b Hab Ha Hb'. unfold apart.
    destruct a, b; try done; cbn [type_size]; unfold BytesPerShort, BytesPerInt; nia.
  - lia.
  - exists (x + 1). lia.
  - intros _. by exists y.
  - done.
  - intros ->. destruct (Z.eq_dec oops 0); [done|]. destruct Hst; [lia|done].
  - nia.
  - by intros [].
Qed.

Lemma fill_gap_ok (compact : bool) (style d : Z) :
  0 < d < 2 ^ 29 -> (4 | d) -> exists gap, fill_gap C compact style count d = Some gap /\ gap_ok style d gap.
Proof using Hh Hcount.
  intros Hd H4. unfold fill_gap. destruct (Z.ltb_spec 0 (count NONSTATIC_DOUBLE)) as [Hpos|Hzero]; cbn [negb].
  2: { eexists. split; [done|]. apply no_gap_ok; try done; lia. }
  pow2_norm. rewrite align_up_eq by (unfold BytesPerLong; pow2_norm; lia). destruct (up_bounds d BytesPerLong ltac:(done)) as [H8 Hup].
  set (e := up d BytesPerLong) in *. unfold BytesPerLong in H8, Hup.
  assert (H4e : (4 | e)) by (destruct H8 as [y ->]; exists (2 * y); lia).
  destruct compact, (Z.eqb_spec d e) as [He|He]; cbn [andb negb].
  1,3,4: eexists; split; [done|]; apply no_gap_ok; try done; lia.
  assert (He4 : e = d + 4) by (destruct H4e as [x Hx], H4 as [y Hy]; lia). clearbody e. subst e.
  replace (d + 4 - d) with 4 by lia.
  pose proof (Hcount NONSTATIC_WORD) as Hcw. pose proof (Hcount NONSTATIC_SHORT) as Hcs. pose proof (Hcount NONSTATIC_BYTE) as Hcb.
  pose proof (Hcount NONSTATIC_OOP) as Hco. pow2_norm. destruct (Z.ltb_spec 0 (count NONSTATIC_WORD)) as [Hw|Hw].
  - unfold BytesPerInt. change (4 - 4) with 0. rewrite (umod_id 32 (count NONSTATIC_WORD - 1)) by (pow2_norm; lia).
    rewrite squeeze_loop_eq by (done || pow2_norm; lia). rewrite Z.min_l by (change (0 / BytesPerShort) with 0; lia).
    change (0 / BytesPerShort) with 0. cbn [mbind option_bind]. rewrite squeeze_loop_eq by (done || pow2_norm; lia).
    change (0 - 0 * BytesPerShort) with 0. change (0 / 1) with 0. rewrite Z.min_l by lia. cbn [mbind option_bind].
    destruct (Z.leb_spec (heapOopSize C) (0 - 0 * 1)); [lia|]. cbn [andb]. eexists. split; [done|].
    pose proof (filled_gap_ok style d 1 0 0 0) as Hg. rewrite !Z.sub_0_r in Hg. rewrite !Z.sub_0_r. apply Hg; done || lia.
  - assert (Hw0 : count NONSTATIC_WORD = 0) by lia. rewrite squeeze_loop_eq by (done || pow2_norm; lia).
    change (4 / BytesPerShort) with 2. set (ns := Z.min 2 (count NONSTATIC_SHORT)). cbn [mbind option_bind].
    unfold BytesPerShort. rewrite squeeze_loop_eq by (done || pow2_norm; lia). rewrite Z.div_1_r.
    set (nb := Z.min (4 - ns * 2) (count NONSTATIC_BYTE)). cbn [mbind option_bind].
    set (fit := (_ <=? _) && _ && _).
    pose proof (filled_gap_ok style d 0 ns nb (if fit then 1 else 0)) as Hg.
    assert (Hfit : fit = true -> heapOopSize C <= 4 - ns * 2 - nb /\ 0 < count NONSTATIC_OOP /\ style <> 0).
    { unfold fit. rewrite !andb_true_iff, negb_true_iff. lia. }
    destruct fit; [specialize (Hfit eq_refl); rewrite umod_id by (pow2_norm; lia)|clear Hfit];
      (eexists; split; [done|]); rewrite ?Z.sub_0_r, ?Z.add_0_l, ?Z.mul_0_l, ?Z.add_0_r in *; apply Hg; done || lia.
Qed.

(** Regions of fields that do not overlap: for each type one in the gap and one behind it. *)
Record zones_ok (sel : FieldAllocationType -> bool) (gap gaps next nexts : FieldAllocationType -> Z) (p q : Z) : Prop := {
  zone_gap a : sel a = true -> 0 < gaps a -> p <= gap a /\ (size a | gap a) /\ gap a + gaps a * size a <= q;
  zone_next a : sel a = true -> 0 < nexts a -> p <= next a /\ (size a | next a) /\ next a + nexts a * size a <= q;
  zone_gaps a b : sel a = true -> sel b = true -> a <> b -> 0 < gaps a -> 0 < gaps b ->
    apart 0 (gap a) (gaps a * size a) (gap b) (gaps b * size b);
  zone_nexts a b : sel a = true -> sel b = true -> a <> b -> 0 < nexts a -> 0 < nexts b ->
    apart 0 (next a) (nexts a * size a) (next b) (nexts b * size b);
  zone_cross a b : sel a = true -> sel b = true -> 0 < gaps a -> 0 < nexts b ->
    apart 0 (gap a) (gaps a * size a) (next b) (nexts b * size b);
}.

Lemma after_eq (start n s : Z) :
  0 <= start -> 0 <= n < 2 ^ 16 -> 1 <= s <= 8 -> start + n * s < 2 ^ 30 -> after start n s = start + n * s.
Proof using.
  intros Hst Hn Hs Hlim. unfold after. pow2_norm. rewrite umod_id by (pow2_norm; nia). apply smod_id; [lia|pow2_norm; nia].
Qed.

(** The number of instance fields among the counted ones. *)
Definition instance_count : Z :=
  count NONSTATIC_DOUBLE + count NONSTATIC_WORD + count NONSTATIC_SHORT + count NONSTATIC_BYTE + count NONSTATIC_OOP.

(** Oops behind the other fields, or where they are. *)
Lemma place_oops_ok (style oop p n : Z) :
  style = 0 \/ style = 1 -> 0 <= p -> 0 <= n < 2 ^ 16 -> p + 8 * n + 8 < 2 ^ 30 ->
  exists mo pad, (if style =? 1
      then (if 0 <? n then s32 (align_size_up p (heapOopSize C)) else p,
            after (if 0 <? n then s32 (align_size_up p (heapOopSize C)) else p) n (heapOopSize C))
      else (oop, p)) = (mo, pad) /\
    (style = 0 /\ mo = oop /\ pad = p \/
     style = 1 /\ p <= mo < p + 8 /\ (0 < n -> (heapOopSize C | mo)) /\ pad = mo + n * heapOopSize C).
Proof using Hh.
  intros [-> | ->] Hp Hn Hlim; cbn [Z.eqb].
  { exists oop, p. split; [done|]. by left. }
  set (mo := if 0 <? n then _ else p).
  assert (Hmo : p <= mo < p + 8 /\ (0 < n -> (heapOopSize C | mo))).
  { unfold mo. destruct (Z.ltb_spec 0 n); [|lia]. pow2_norm. rewrite align_up_eq by (lia || pow2_norm; lia).
    destruct (up_bounds p (heapOopSize C) ltac:(lia)) as [? ?]. split; [lia|done]. }
  pow2_norm. rewrite (after_eq mo) by (pow2_norm; nia). eexists _, _. split; [done|]. right.
  destruct Hmo as [? ?]. split; [done|]. split; [done|]. by split.
Qed.

Lemma nonstatic_offsets_ok (style start oop d : Z) (gap : Gap) :
  gap_ok style d gap -> 0 < start -> (heapOopSize C | start) -> (4 | start) -> start + 8 * instance_count + 16 < 2 ^ 29 ->
  (style = 0 /\ oop = start /\ d = start + count NONSTATIC_OOP * heapOopSize C) \/ (style = 1 /\ oop = 0 /\ d = start) ->
  exists next pad, nonstatic_offsets C style oop gap = (next, pad) /\ start <= pad <= start + 8 * instance_count + 16 /\
    zones_ok instance_type (gap_offset gap) (gap_count gap) next (gap_left gap) start pad /\
    (forall a, instance_type a = true -> 0 <= next a <= pad) /\
    (0 < gap_count gap NONSTATIC_OOP -> 0 < gap_left gap NONSTATIC_OOP ->
     gap_offset gap NONSTATIC_OOP + heapOopSize C <= next NONSTATIC_OOP).
Proof using Hh Hcount.
  intros [Hsplit Hplace Hlow Hgaps Hend Hf He Hgd Hgo Hgo1 Hgs] Hst Hho H4 Hlim Hstyle.
  pose proof (Hsplit NONSTATIC_DOUBLE) as HD. pose proof (Hsplit NONSTATIC_WORD) as HWd. pose proof (Hsplit NONSTATIC_SHORT) as HS.
  pose proof (Hsplit NONSTATIC_BYTE) as HB. pose proof (Hsplit NONSTATIC_OOP) as HO.
  pose proof (Hcount NONSTATIC_DOUBLE) as CD. pose proof (Hcount NONSTATIC_WORD) as CW. pose proof (Hcount NONSTATIC_SHORT) as CS.
  pose proof (Hcount NONSTATIC_BYTE) as CB. pose proof (Hcount NONSTATIC_OOP) as CO. unfold instance_count in *.
  set (e := gap_end gap) in *. unfold nonstatic_offsets. fold e. pow2_norm.
  assert (Hd : start <= d) by (destruct Hstyle as [(_ & _ & ->)|(_ & _ & ->)]; nia).
  assert (Hd' : d + 8 * (count NONSTATIC_DOUBLE + count NONSTATIC_WORD + count NONSTATIC_SHORT + count NONSTATIC_BYTE) <=
      start + 8 * (count NONSTATIC_DOUBLE + count NONSTATIC_WORD + count NONSTATIC_SHORT + count NONSTATIC_BYTE + count NONSTATIC_OOP))
    by (destruct Hstyle as [(_ & _ & ->)|(_ & _ & ->)]; nia).
  assert (Hd1 : style = 1 -> d = start) by (destruct Hstyle as [(-> & _ & _)|(_ & _ & ->)]; done).
  unfold BytesPerLong, BytesPerInt, BytesPerShort in *.
  rewrite (after_eq e) by (pow2_norm; lia). set (mw := e + _).
  rewrite (after_eq mw) by (pow2_norm; lia). set (ms := mw + _).
  rewrite (after_eq ms) by (pow2_norm; lia). set (mb := ms + _).
  rewrite (after_eq mb) by (pow2_norm; lia). rewrite Z.mul_1_r. set (pd := mb + _).
  destruct (place_oops_ok style oop pd (gap_left gap NONSTATIC_OOP)) as (mo & pad & -> & Hmo); [lia..|].
  assert (Hn : 0 <= gap_left gap NONSTATIC_OOP * heapOopSize C <= 8 * count NONSTATIC_OOP) by nia.
  assert (Hoops : start <= mo /\ pd <= pad <= start + 8 * (count NONSTATIC_DOUBLE + count NONSTATIC_WORD + count NONSTATIC_SHORT +
        count NONSTATIC_BYTE + count NONSTATIC_OOP) + 16 /\ (0 < gap_left gap NONSTATIC_OOP -> (heapOopSize C | mo)) /\
      (mo + gap_left gap NONSTATIC_OOP * heapOopSize C <= d /\ gap_count gap NONSTATIC_OOP = 0 \/
       pd <= mo /\ mo + gap_left gap NONSTATIC_OOP * heapOopSize C = pad)).
  { destruct Hstyle as [(-> & -> & Hd2)|(-> & _ & ->)], Hmo as [(? & -> & ->)|(? & Hmo & Hal & ->)]; try done.
    - specialize (Hgo eq_refl). replace (gap_left gap NONSTATIC_OOP) with (count NONSTATIC_OOP) by lia.
      split; [lia|]. split; [lia|]. split; [done|left; lia].
    - split; [lia|]. split; [lia|]. split; [done|right; lia]. }
  clear Hmo. destruct Hoops as (Hmo & Hpad & Hal & Hmo').
  eexists _, pad. split; [reflexivity|]. split; [lia|]. split; [|split].
  - split.
    + intros a Ha Hg. destruct (Hplace a Hg) as (? & ? & ?). split; [lia|]. split; [done|lia].
    + intros a Ha Hl. destruct a; try done; cbn [type_size]; unfold BytesPerLong, BytesPerInt, BytesPerShort; (split; [lia|split; [|lia]]).
      * by apply Hal.
      * apply Z.divide_1_l.
      * destruct Hf as [x Hx]. exists (2 * x + 4 * gap_left gap NONSTATIC_DOUBLE + 2 * gap_left gap NONSTATIC_WORD). lia.
      * destruct Hf as [x Hx]. exists (x + 2 * gap_left gap NONSTATIC_DOUBLE). lia.
      * apply He. lia.
    + intros a b _ _ Hab Ha Hb. by apply Hgaps.
    + intros a b Ha Hb Hab Hla Hlb. unfold apart.
      destruct a, b; try done; cbn [type_size]; unfold BytesPerLong, BytesPerInt, BytesPerShort; lia.
    + intros a b Ha Hb Hga Hlb. specialize (Hplace a Hga). unfold apart.
      destruct b; try done; cbn [type_size]; unfold BytesPerLong, BytesPerInt, BytesPerShort; lia.
  - intros a Ha. destruct a; try done; lia.
  - intros Hg Hl. specialize (Hplace _ Hg). cbn [type_size] in Hplace. nia.
Qed.

(** The fields of the class mirror. *)
Lemma static_offsets_ok :
  let base := offset_of_static_fields C in let next := static_offsets C count in let fin := next STATIC_BYTE + count STATIC_BYTE in
  0 < base < 2 ^ 28 -> (8 | base) ->
  zones_ok static_type (fun _ => 0) (fun _ => 0) next count base fin /\ base <= fin < 2 ^ 29 /\
  (forall a, static_type a = true -> base <= next a <= fin).
Proof using Hh Hcount.
  intros base next fin Hb H8. pose proof (Hcount STATIC_DOUBLE) as CD. pose proof (Hcount STATIC_WORD) as CW. pose proof (Hcount STATIC_SHORT) as CS.
  pose proof (Hcount STATIC_BYTE) as CB. pose proof (Hcount STATIC_OOP) as CO. pow2_norm.
  assert (Hm : 0 <= count STATIC_OOP * heapOopSize C <= 524288) by nia.
  set (d0 := base + count STATIC_OOP * heapOopSize C).
  set (d := if negb (count STATIC_DOUBLE =? 0) then up d0 8 else d0).
  assert (Hd : d0 <= d < d0 + 8 /\ (4 | d) /\ (0 < count STATIC_DOUBLE -> (8 | d))).
  { unfold d. destruct (up_bounds d0 8 ltac:(lia)) as [[x Hx] Hu]. destruct (Z.eqb_spec (count STATIC_DOUBLE) 0); cbn [negb].
    - split; [lia|]. split; [|lia]. destruct H8 as [y Hy], Hh as [E|E]; unfold d0; rewrite E, Hy; [exists (2 * y + count STATIC_OOP)|exists (2 * y + 2 * count STATIC_OOP)]; lia.
    - split; [done|]. split; [exists (2 * x); lia|]. intros _. by exists x. }
  assert (Hnext : forall a, next a = match a with STATIC_OOP => base | STATIC_DOUBLE => d | STATIC_WORD => d + count STATIC_DOUBLE * 8
      | STATIC_SHORT => d + count STATIC_DOUBLE * 8 + count STATIC_WORD * 4
      | STATIC_BYTE => d + count STATIC_DOUBLE * 8 + count STATIC_WORD * 4 + count STATIC_SHORT * 2 | _ => 0 end).
  { intros a. unfold next, static_offsets. fold base. unfold BytesPerLong, BytesPerInt, BytesPerShort.
    rewrite (smod_id 32 (count STATIC_OOP * _)) by (pow2_norm; lia). fold d0. rewrite (smod_id 32 d0) by (pow2_norm; lia).
    rewrite align_up_eq by (lia || pow2_norm; lia). fold d.
    rewrite (smod_id 32 (count STATIC_DOUBLE * 8)), (smod_id 32 (count STATIC_WORD * 4)), (smod_id 32 (count STATIC_SHORT * 2)) by (pow2_norm; lia).
    rewrite (smod_id 32 (d + count STATIC_DOUBLE * 8)) by (pow2_norm; lia). rewrite (smod_id 32 (_ + count STATIC_WORD * 4)) by (pow2_norm; lia).
    by rewrite (smod_id 32 (_ + count STATIC_SHORT * 2)) by (pow2_norm; lia). }
  destruct Hd as (Hd & [x Hx] & Hd8). assert (Hfin : fin = next STATIC_BYTE + count STATIC_BYTE) by done. rewrite Hnext in Hfin.
  clearbody next fin d base. split; [|split].
  - split; try lia.
    + intros a Ha Hl. rewrite Hnext. destruct a; try done; cbn [type_size]; unfold BytesPerLong, BytesPerInt, BytesPerShort; (split; [lia|split; [|lia]]).
      * destruct H8 as [y ->], Hh as [E|E]; rewrite E; [exists (2 * y)|exists y]; lia.
      * apply Z.divide_1_l.
      * exists (2 * x + 4 * count STATIC_DOUBLE + 2 * count STATIC_WORD). lia.
      * exists (x + 2 * count STATIC_DOUBLE). lia.
      * by apply Hd8.
    + intros a b Ha Hb' Hab Hla Hlb. rewrite !Hnext. unfold apart.
      destruct a, b; try done; cbn [type_size]; unfold BytesPerLong, BytesPerInt, BytesPerShort; lia.
  - lia.
  - intros a Ha. rewrite Hnext. destruct a; try done; lia.
Qed.
End Regions.

(** ** The offsets of the early fields *)

Section Cells.
Context (C : Config) (Hh : heapOopSize C = 4 \/ heapOopSize C = 8).
Abbreviation size := (type_size C).
Context (st : Layout) (n : FieldAllocationType -> Z).

Lemma cell_in_zone (o s r m : Z) : 0 < s -> 0 <= r < m -> o <= o + r * s /\ o + r * s + s <= o + m * s.
Proof using. intros. nia. Qed.

Lemma cells_apart (o s r1 r2 : Z) : 0 < s -> r1 <> r2 -> apart 0 (o + r1 * s) s (o + r2 * s) s.
Proof using. intros. unfold apart. nia. Qed.

(** The zones of a layout. *)
Definition layout_zones (sel : FieldAllocationType -> bool) (p q : Z) : Prop :=
  zones_ok C sel (space_offset st) (space_count st) (next_offset st) (fun a => n a - space_count st a) p q.

(** A field of a type lies in one of the two zones of the type. *)
Lemma slot_cases (a : FieldAllocationType) (r : Z) :
  0 <= r < n a ->
  (exists i, slot C st a r = space_offset st a + i * size a /\ 0 <= i < space_count st a /\ i = r) \/
  (exists i, slot C st a r = next_offset st a + i * size a /\ (0 <= space_count st a -> 0 <= i < n a - space_count st a) /\ i = r - space_count st a).
Proof using.
  intros Hr. unfold slot. destruct (Z.ltb_spec r (space_count st a)); [left; exists r; lia|right]. exists (r - space_count st a). lia.
Qed.

Lemma slot_place (sel : FieldAllocationType -> bool) (p q : Z) (a : FieldAllocationType) (r : Z) :
  layout_zones sel p q -> 0 <= space_count st a -> sel a = true -> 0 <= r < n a ->
  p <= slot C st a r /\ (size a | slot C st a r) /\ slot C st a r + size a <= q.
Proof using Hh.
  intros [Hg Hn _ _ _] Hc Ha Hr. pose proof (size_bounds C Hh a) as Hs.
  destruct (slot_cases a r Hr) as [(i & -> & Hi & _)|(i & -> & Hi & _)].
  - destruct (Hg a Ha ltac:(lia)) as (H1 & H2 & H3). pose proof (cell_in_zone (space_offset st a) (size a) _ _ ltac:(lia) Hi).
    split; [lia|]. split; [|lia]. apply Z.divide_add_r; [done|]. by apply Z.divide_factor_r.
  - specialize (Hi Hc). destruct (Hn a Ha ltac:(lia)) as (H1 & H2 & H3). pose proof (cell_in_zone (next_offset st a) (size a) _ _ ltac:(lia) Hi).
    split; [lia|]. split; [|lia]. apply Z.divide_add_r; [done|]. by apply Z.divide_factor_r.
Qed.

Lemma slots_apart (sel : FieldAllocationType -> bool) (p q : Z) (a b : FieldAllocationType) (r1 r2 : Z) :
  layout_zones sel p q -> 0 <= space_count st a -> 0 <= space_count st b -> sel a = true -> sel b = true ->
  0 <= r1 < n a -> 0 <= r2 < n b -> (a = b -> r1 <> r2) ->
  apart 0 (slot C st a r1) (size a) (slot C st b r2) (size b).
Proof using Hh.
  intros [_ _ Hgg Hnn Hgn] Hca Hcb Ha Hb Hr1 Hr2 Hne. pose proof (size_bounds C Hh a) as Hsa. pose proof (size_bounds C Hh b) as Hsb.
  destruct (slot_cases a r1 Hr1) as [(i & -> & Hi & Ei)|(i & -> & Hi & Ei)], (slot_cases b r2 Hr2) as [(j & -> & Hj & Ej)|(j & -> & Hj & Ej)].
  - pose proof (cell_in_zone (space_offset st a) (size a) _ _ ltac:(lia) Hi). pose proof (cell_in_zone (space_offset st b) (size b) _ _ ltac:(lia) Hj).
    destruct (decide (a = b)) as [<-|Hab]; [apply cells_apart; [lia|specialize (Hne eq_refl); lia]|].
    specialize (Hgg a b Ha Hb Hab ltac:(lia) ltac:(lia)). unfold apart in *. lia.
  - specialize (Hj Hcb). pose proof (cell_in_zone (space_offset st a) (size a) _ _ ltac:(lia) Hi). pose proof (cell_in_zone (next_offset st b) (size b) _ _ ltac:(lia) Hj).
    specialize (Hgn a b Ha Hb ltac:(lia) ltac:(lia)). unfold apart in *. lia.
  - specialize (Hi Hca). pose proof (cell_in_zone (next_offset st a) (size a) _ _ ltac:(lia) Hi). pose proof (cell_in_zone (space_offset st b) (size b) _ _ ltac:(lia) Hj).
    specialize (Hgn b a Hb Ha ltac:(lia) ltac:(lia)). unfold apart in *. lia.
  - specialize (Hi Hca). specialize (Hj Hcb).
    pose proof (cell_in_zone (next_offset st a) (size a) _ _ ltac:(lia) Hi). pose proof (cell_in_zone (next_offset st b) (size b) _ _ ltac:(lia) Hj).
    destruct (decide (a = b)) as [<-|Hab]; [apply cells_apart; [lia|specialize (Hne eq_refl); lia]|].
    specialize (Hnn a b Ha Hb Hab ltac:(lia) ltac:(lia)). unfold apart in *. lia.
Qed.
End Cells.

Lemma count_of_app (p : kind -> bool) (ks1 ks2 : list kind) : count_of p (ks1 ++ ks2) = count_of p ks1 + count_of p ks2.
Proof. unfold count_of. rewrite list.filter_app, length_app. lia. Qed.

Lemma count_of_take (p : kind -> bool) (ks : list kind) (i : nat) (k : kind) :
  ks !! i = Some k -> p k = true -> 0 <= count_of p (take i ks) < count_of p ks.
Proof.
  intros Hk Hp. pose proof (f_equal (count_of p) (take_drop_middle ks i k Hk)) as He. rewrite count_of_app, count_of_cons, Hp in He.
  pose proof (count_of_bounds p (take i ks)). pose proof (count_of_bounds p (drop (S i) ks)). lia.
Qed.

Lemma count_of_take_lt (p : kind -> bool) (ks : list kind) (i j : nat) (k : kind) :
  ks !! i = Some k -> p k = true -> (i < j)%nat -> count_of p (take i ks) < count_of p (take j ks).
Proof.
  intros Hk Hp Hij. replace (take i ks) with (take i (take j ks)) by (by rewrite take_take, Nat.min_l by lia).
  apply (count_of_take p (take j ks) i k); [|done]. by rewrite lookup_take_lt by lia.
Qed.

Lemma early_offsets_lookup (table : FieldAllocationType -> Z -> Z) (ks : list kind) (rank : FieldAllocationType -> Z) (i : nat) (k : kind) :
  ks !! i = Some k ->
  early_offsets table rank ks !! i =
    Some (if early k then Some (table (k_type k) (rank (k_type k) + count_of (early_of (k_type k)) (take i ks))) else None).
Proof.
  revert rank i. induction ks as [|k0 ks IH]; intros rank i Hk; [done|]. destruct i as [|i]; cbn [early_offsets take].
  - injection Hk as ->. rewrite count_of_nil, Z.add_0_r. by destruct (early k).
  - cbn in Hk. rewrite count_of_cons. destruct (early k0) eqn:He0; cbn [lookup list_lookup]; rewrite IH by done.
    + do 2 f_equal. destruct (early k); [|done]. f_equal. rewrite early_of_type by done.
      destruct (decide (k_type k0 = k_type k)) as [Heq|Hne].
      * rewrite Heq, put_at_same, bool_decide_true by done. f_equal. lia.
      * by rewrite put_at_other, bool_decide_false by done.
    + by rewrite early_of_late.
Qed.

Lemma early_oops_sorted (table : FieldAllocationType -> Z -> Z) (ks : list kind) (rank : FieldAllocationType -> Z) :
  let m := count_of (early_of NONSTATIC_OOP) ks in let r := rank NONSTATIC_OOP in
  (forall r1 r2, r <= r1 < r2 -> r2 < r + m -> table NONSTATIC_OOP r1 < table NONSTATIC_OOP r2) ->
  let l := oop_offsets ks (early_offsets table rank ks) in
  StronglySorted Z.lt l /\ Forall (fun x => exists i, r <= i < r + m /\ x = table NONSTATIC_OOP i) l.
Proof.
  revert rank. induction ks as [|k ks IH]; intros rank m r Hmono; cbn [early_offsets]; [split; constructor|].
  subst m r. rewrite count_of_cons in *. pose proof (count_of_bounds (early_of NONSTATIC_OOP) ks) as Hc. destruct (early k) eqn:He.
  - rewrite early_of_type in * by done. rewrite oop_offsets_cons. unfold is_oop, of_type.
    destruct (decide (k_type k = NONSTATIC_OOP)) as [Ht|Ht].
    + rewrite Ht in *. rewrite (bool_decide_true (NONSTATIC_OOP = _)) in * by done.
      destruct (IH (put_at rank NONSTATIC_OOP (rank NONSTATIC_OOP + 1))) as [Hs Hf].
      { rewrite put_at_same. intros r1 r2 H1 H2. apply Hmono; lia. }
      rewrite put_at_same in Hf. cbn [app]. split.
      * constructor; [done|]. eapply list.Forall_impl; [exact Hf|]. intros x (i & Hi & ->). apply Hmono; lia.
      * constructor; [exists (rank NONSTATIC_OOP); split; [lia|done]|]. eapply list.Forall_impl; [exact Hf|].
        intros x (i & Hi & ->). exists i. split; [lia|done].
    + rewrite (bool_decide_false (k_type k = _)) in * by done. cbn [app].
      specialize (IH (put_at rank (k_type k) (rank (k_type k) + 1))). rewrite put_at_other in IH by done.
      destruct (IH ltac:(intros; apply Hmono; lia)) as [Hs Hf]. split; [done|]. by rewrite Z.add_0_l.
  - rewrite early_of_late in * by done. rewrite oop_offsets_cons.
    destruct (IH rank ltac:(intros; apply Hmono; lia)) as [Hs Hf]. rewrite Z.add_0_l. by destruct (is_oop k).
Qed.

Section EarlyOffsets.
Context (C : Config) (Hh : heapOopSize C = 4 \/ heapOopSize C = 8).
Abbreviation size := (type_size C).
Context (st : Layout) (ks : list kind) (Hcount : forall a, 0 <= space_count st a).

Abbreviation early_count := (fun a => count_of (early_of a) ks).
Abbreviation early_os := (early_offsets (slot C st) (fun _ => 0) ks).

Lemma early_os_lookup (i : nat) (k : kind) (o : Z) :
  ks !! i = Some k -> early_os !! i = Some (Some o) ->
  early k = true /\ o = slot C st (k_type k) (count_of (early_of (k_type k)) (take i ks)) /\
  0 <= count_of (early_of (k_type k)) (take i ks) < early_count (k_type k).
Proof using.
  intros Hk Ho. rewrite (early_offsets_lookup _ _ _ _ _ Hk) in Ho. destruct (early k) eqn:He; [|done]. injection Ho as <-.
  split; [done|]. split; [done|]. apply (count_of_take _ _ _ k Hk). rewrite early_of_type by done. by apply bool_decide_true.
Qed.

Lemma early_place (sel : FieldAllocationType -> bool) (p q : Z) (i : nat) (k : kind) (o : Z) :
  layout_zones C st early_count sel p q -> ks !! i = Some k -> sel (k_type k) = true -> early_os !! i = Some (Some o) ->
  p <= o /\ (size (k_type k) | o) /\ o + size (k_type k) <= q.
Proof using Hh Hcount.
  intros Hz Hk Hsel Ho. destruct (early_os_lookup _ _ _ Hk Ho) as (_ & -> & Hr). by apply (slot_place C Hh st early_count sel).
Qed.

Lemma early_apart (sel : FieldAllocationType -> bool) (p q : Z) (i j : nat) (k1 k2 : kind) (o1 o2 : Z) :
  layout_zones C st early_count sel p q -> i <> j -> ks !! i = Some k1 -> ks !! j = Some k2 ->
  sel (k_type k1) = true -> sel (k_type k2) = true -> early_os !! i = Some (Some o1) -> early_os !! j = Some (Some o2) ->
  apart 0 o1 (size (k_type k1)) o2 (size (k_type k2)).
Proof using Hh Hcount.
  intros Hz Hij Hk1 Hk2 Hs1 Hs2 Ho1 Ho2. destruct (early_os_lookup _ _ _ Hk1 Ho1) as (He1 & -> & Hr1).
  destruct (early_os_lookup _ _ _ Hk2 Ho2) as (He2 & -> & Hr2). apply (slots_apart C Hh st early_count sel p q); try done.
  intros Heq. rewrite Heq. assert (Hp2 : early_of (k_type k2) k2 = true) by (rewrite early_of_type by done; by apply bool_decide_true).
  assert (Hp1 : early_of (k_type k2) k1 = true) by (rewrite early_of_type by done; by apply bool_decide_true).
  destruct (Nat.lt_ge_cases i j).
  - pose proof (count_of_take_lt _ _ i j k1 Hk1 Hp1 ltac:(lia)). lia.
  - pose proof (count_of_take_lt _ _ j i k2 Hk2 Hp2 ltac:(lia)). lia.
Qed.

Lemma slot_oops_increase (r1 r2 : Z) :
  space_count st NONSTATIC_OOP <= 1 ->
  (0 < space_count st NONSTATIC_OOP -> 0 < early_count NONSTATIC_OOP - space_count st NONSTATIC_OOP ->
   space_offset st NONSTATIC_OOP + heapOopSize C <= next_offset st NONSTATIC_OOP) ->
  0 <= r1 < r2 -> r2 < early_count NONSTATIC_OOP -> slot C st NONSTATIC_OOP r1 < slot C st NONSTATIC_OOP r2.
Proof using Hh Hcount.
  cbv beta. intros H1 Hoop Hr Hr2. unfold slot. cbn [type_size]. specialize (Hcount NONSTATIC_OOP).
  destruct (Z.ltb_spec r1 (space_count st NONSTATIC_OOP)), (Z.ltb_spec r2 (space_count st NONSTATIC_OOP)); [lia| |lia|nia].
  specialize (Hoop ltac:(lia) ltac:(lia)). assert (r1 = 0) as -> by lia. nia.
Qed.
End EarlyOffsets.

(** ** The blocks of oops of a class *)

Lemma block_app (C : Config) (o c1 c2 : Z) :
  0 <= c1 -> 0 <= c2 -> block_oops C (o, c1 + c2) = block_oops C (o, c1) ++ block_oops C (o + c1 * heapOopSize C, c2).
Proof.
  intros H1 H2. unfold block_oops. cbn [fst snd]. rewrite Z2Nat.inj_add, seq_app, fmap_app by done. f_equal.
  cbn [Nat.add]. rewrite <- (Nat.add_0_r (Z.to_nat c1)) at 1. rewrite <- fmap_add_seq, <- list_fmap_compose.
  apply list_fmap_ext. intros i x _. unfold compose. rewrite Nat2Z.inj_add, Z2Nat.id by done. lia.
Qed.

Lemma oops_cons (C : Config) (b : Z * Z) (maps : list (Z * Z)) : oops C (b :: maps) = block_oops C b ++ oops C maps.
Proof. done. Qed.

Lemma fill_oop_maps_ok (C : Config) (super : option Super) (maps : list (Z * Z)) :
  heapOopSize C = 4 \/ heapOopSize C = 8 ->
  let super_maps := from_option super_oop_maps [] super in
  Forall (block_ok C) super_maps -> Forall (block_ok C) maps -> zlen super_maps + zlen maps < 2 ^ 32 ->
  exists filled, fill_oop_maps super maps (compute_oop_map_count C super maps (first_of maps)) = Some filled /\
    oops C filled = oops C super_maps ++ oops C maps /\ Forall (block_ok C) filled /\ zlen filled <= zlen super_maps + zlen maps.
Proof.
  intros Hh super_maps Hs Hm Hlen. unfold fill_oop_maps, compute_oop_map_count. fold super_maps. pow2_norm.
  destruct maps as [|[o c] rest]; cbn [first_of].
  { cbn [length Z.of_nat Z.ltb]. rewrite Z.eqb_refl. exists super_maps. split; [done|]. split; [by rewrite app_nil_r|]. split; [done|]. lia. }
  cbn [length] in *. destruct (Z.ltb_spec 0 (Z.of_nat (S (length rest)))); [|lia].
  pose proof Hm as Hm'. apply list.Forall_cons in Hm' as [(Ho & Hc & Hoc) Hrest]. cbn [fst snd] in *.
  destruct (list_last_cases super_maps) as [[He ->]|(before & [lo lc] & He & ->)].
  { rewrite He. cbn [app length]. match goal with |- context[?a <? ?b] => destruct (Z.ltb_spec a b); [lia|] end.
    match goal with |- context[?a =? ?b] => destruct (Z.eqb_spec a b); [|cbn [length] in *; lia] end.
    eexists. split; [reflexivity|]. split; [done|]. split; [done|]. cbn [length]. lia. }
  pose proof Hs as Hs'. rewrite He in Hs'. apply Forall_app in Hs' as [Hb Hl]. apply Forall_inv in Hl as (Hlo & Hlc & Hloc).
  cbn [fst snd] in *. assert (lc < 2 ^ 28 /\ c < 2 ^ 28) as [Hlc' Hc'] by (pow2_norm; nia). pow2_norm.
  assert (Haft : after lo lc (heapOopSize C) = lo + lc * heapOopSize C).
  { unfold after. rewrite umod_id by (pow2_norm; nia). apply smod_id; [lia|pow2_norm; nia]. }
  rewrite Haft. assert (Hls : zlen super_maps = zlen before + 1) by (rewrite He, length_app; cbn [length]; lia).
  destruct (Z.eqb_spec (lo + lc * heapOopSize C) o) as [Hmerge|Hsep].
  - rewrite umod_id by (pow2_norm; lia). match goal with |- context[?a <? ?b] => destruct (Z.ltb_spec a b); [|lia] end.
    replace (take (length super_maps - 1) super_maps) with before
      by (rewrite He, length_app; cbn [length]; by rewrite Nat.add_sub, take_app_length).
    rewrite umod_id by (pow2_norm; lia).
    match goal with |- context[?a =? ?b] => destruct (Z.eqb_spec a b) as [_|Hne] end.
    2: { rewrite length_app in Hne. cbn [length] in Hne. lia. }
    eexists. split; [reflexivity|]. split; [|split].
    + rewrite He, !oops_app, !oops_cons, block_app, Hmerge, <- !app_assoc by lia. done.
    + apply Forall_app. split; [done|]. constructor; [|done]. unfold block_ok. cbn [fst snd]. pow2_norm. nia.
    + rewrite length_app. cbn [length]. lia.
  - rewrite umod_id by (pow2_norm; lia). match goal with |- context[?a <? ?b] => destruct (Z.ltb_spec a b); [lia|] end.
    match goal with |- context[?a =? ?b] => destruct (Z.eqb_spec a b) as [_|Hne] end.
    2: { rewrite length_app in Hne. cbn [length] in Hne. lia. }
    eexists. split; [reflexivity|]. split; [by rewrite oops_app|]. split; [by apply Forall_app|]. rewrite length_app. cbn [length]. lia.
Qed.

(** ** The layout of one class *)

(** The configurations of a virtual machine with 64-bit words. *)
Record config_ok (C : Config) : Prop := {
  config_oop : heapOopSize C = 4 \/ heapOopSize C = 8;
  config_base : 0 < base_offset_in_bytes C < 2 ^ 29 /\ (heapOopSize C | base_offset_in_bytes C) /\ (4 | base_offset_in_bytes C);
  config_static : 0 < offset_of_static_fields C < 2 ^ 28 /\ (8 | offset_of_static_fields C);
  config_padding : 0 <= ContendedPaddingWidth C <= 8192 /\ (8 | ContendedPaddingWidth C);
  config_alignment : exists m, 0 <= m <= 5 /\ MinObjAlignment C = 2 ^ m;
}.

(** Oops first or last, as the style says. *)
Definition style_result (C : Config) (style oop d start oop_count : Z) : Prop :=
  (style = 0 /\ oop = start /\ d = start + oop_count * heapOopSize C) \/ (style = 1 /\ oop = 0 /\ d = start).

Lemma style_offsets_ok (C : Config) (super : option Super) (style size start oop_count : Z) :
  heapOopSize C = 4 \/ heapOopSize C = 8 -> 0 <= style <= 2 -> 0 <= start -> 0 <= oop_count < 2 ^ 16 -> start + 8 * oop_count < 2 ^ 29 ->
  exists s oop d, style_offsets C super style size start oop_count = (s, oop, d) /\ style_result C s oop d start oop_count.
Proof.
  intros Hh Hstyle Hst Hn Hlim. unfold style_offsets. pow2_norm. rewrite (after_eq start) by (pow2_norm; nia).
  assert (Hfirst : style_result C 0 start (start + oop_count * heapOopSize C) start oop_count) by (by left).
  assert (Hlast : style_result C 1 0 start start oop_count) by (by right).
  destruct (Z.eqb_spec style 0); [by eexists _, _, _|]. destruct (Z.eqb_spec style 1); [by eexists _, _, _|].
  destruct super as [k|]; [|by eexists _, _, _]. destruct (list.last (super_oop_maps k)) as [[o c]|]; [|by eexists _, _, _].
  destruct (_ && _); by eexists _, _, _.
Qed.

(** The number of early instance fields and of late fields. *)
Lemma instance_count_le (ks : list kind) :
  instance_count (fun a => count_of (early_of a) ks) + count_of late ks <= zlen ks.
Proof.
  unfold instance_count. induction ks as [|k ks IH]; [done|]. rewrite !count_of_cons. cbn [length].
  destruct (early k) eqn:He.
  - rewrite !early_of_type by done. unfold early in He. apply negb_true_iff in He. rewrite He.
    destruct (k_type k); repeat case_bool_decide; try done; lia.
  - rewrite !early_of_late by done. unfold early in He. apply negb_false_iff in He. rewrite He. lia.
Qed.

(** The counts of the fields that are not contended. *)
Lemma early_count_eq (a : FieldAllocationType) (ks : list kind) :
  instance_type a = true ->
  count_of (of_type a) ks - count_of (fun k => of_type a k && is_contended_kind k) ks = count_of (early_of a) ks.
Proof.
  intros Ha. rewrite (count_of_split (of_type a) is_contended_kind ks).
  rewrite (count_of_ext (early_of a) (fun k => of_type a k && negb (is_contended_kind k))); [lia|].
  intros k. unfold early_of, early, late, of_type. case_bool_decide as Ht; [|done]. cbn [andb]. subst a.
  unfold instance_type in Ha. by rewrite Ha, andb_true_r.
Qed.

Lemma static_count_eq (a : FieldAllocationType) (ks : list kind) :
  static_type a = true -> count_of (of_type a) ks = count_of (early_of a) ks.
Proof.
  intros Ha. apply count_of_ext. intros k. unfold early_of, early, late, of_type. case_bool_decide as Ht; [|done]. subst a.
  by rewrite Ha, andb_false_r.
Qed.

Lemma zones_ext (C : Config) (sel : FieldAllocationType -> bool) (gap gaps next nexts gap' gaps' next' nexts' : FieldAllocationType -> Z) (p q : Z) :
  (forall a, sel a = true -> gaps' a = gaps a /\ (0 < gaps a -> gap' a = gap a) /\ next' a = next a /\ nexts' a = nexts a) ->
  zones_ok C sel gap gaps next nexts p q -> zones_ok C sel gap' gaps' next' nexts' p q.
Proof.
  intros He [H1 H2 H3 H4 H5]. split.
  - intros a Ha. destruct (He a Ha) as (-> & Hg & _ & _). intros Hpos. rewrite (Hg Hpos). by apply H1.
  - intros a Ha. destruct (He a Ha) as (_ & _ & -> & ->). by apply H2.
  - intros a b Ha Hb Hab. destruct (He a Ha) as (-> & Hga & _ & _), (He b Hb) as (-> & Hgb & _ & _). intros Hpa Hpb.
    rewrite (Hga Hpa), (Hgb Hpb). by apply H3.
  - intros a b Ha Hb Hab. destruct (He a Ha) as (_ & _ & -> & ->), (He b Hb) as (_ & _ & -> & ->). by apply H4.
  - intros a b Ha Hb. destruct (He a Ha) as (-> & Hga & _ & _), (He b Hb) as (_ & _ & -> & ->). intros Hpa Hpb.
    rewrite (Hga Hpa). by apply H5.
Qed.

(** The state before the first loop. *)
Definition first_state (C : Config) (fac : FieldAllocationCount) (offsets : FieldAllocationType -> Z) (gap : Gap) : Layout :=
  {| next_offset := fun a => if bool_decide (a ∈ [STATIC_OOP; STATIC_BYTE; STATIC_SHORT; STATIC_WORD; STATIC_DOUBLE])
                             then static_offsets C fac a else offsets a;
     space_count := gap_count gap; space_offset := gap_offset gap; oop_maps := []; first_nonstatic_oop_offset := 0 |}.

Lemma static_types (a : FieldAllocationType) :
  bool_decide (a ∈ [STATIC_OOP; STATIC_BYTE; STATIC_SHORT; STATIC_WORD; STATIC_DOUBLE]) = static_type a.
Proof. by destruct a. Qed.

Section FirstState.
Context (C : Config) (HC : config_ok C) (ks : list kind) (Hks : zlen ks < 2 ^ 16).
Context (fac count : FieldAllocationCount).
Context (Hfac : forall a, fac a = count_of (of_type a) ks).
Context (Hcount : forall a, 0 <= count a < 2 ^ 16) (Hearly : forall a, instance_type a = true -> count a = count_of (early_of a) ks).
Abbreviation early_count := (fun a => count_of (early_of a) ks).
Abbreviation static_end := (static_offsets C fac STATIC_BYTE + fac STATIC_BYTE).

Record first_state_ok (st : Layout) (start pad : Z) : Prop := {
  first_counts a : 0 <= space_count st a;
  first_static_byte : space_count st STATIC_BYTE = 0 /\ next_offset st STATIC_BYTE = static_offsets C fac STATIC_BYTE;
  first_instance : layout_zones C st early_count instance_type start pad;
  first_static : layout_zones C st early_count static_type (offset_of_static_fields C) static_end;
  first_static_end : offset_of_static_fields C <= static_end < 2 ^ 29;
  first_fits a : fits C st a (early_count a);
  first_oops r1 r2 : 0 <= r1 < r2 -> r2 < early_count NONSTATIC_OOP -> slot C st NONSTATIC_OOP r1 < slot C st NONSTATIC_OOP r2;
  first_maps : oop_maps st = [] /\ first_nonstatic_oop_offset st = 0;
}.

Lemma first_static_zones (offsets : FieldAllocationType -> Z) (style d : Z) (gap : Gap) :
  gap_ok C count style d gap ->
  layout_zones C (first_state C fac offsets gap) early_count static_type (offset_of_static_fields C) static_end /\
  offset_of_static_fields C <= static_end < 2 ^ 29 /\
  (forall a, static_type a = true -> 0 <= static_offsets C fac a <= static_end).
Proof using HC Hfac Hks.
  intros Hgap. assert (Hf : forall a, 0 <= fac a < 2 ^ 16).
  { intros a. rewrite Hfac. pose proof (count_of_bounds (of_type a) ks). lia. }
  destruct (config_static C HC) as [Hs H8].
  destruct (static_offsets_ok C (config_oop C HC) fac Hf Hs H8) as (Hz & He & Hn). split; [|split; [done|]].
  - unfold layout_zones. eapply zones_ext; [|exact Hz]. intros a Ha. cbn [first_state space_count space_offset next_offset].
    rewrite static_types, Ha, (gap_static _ _ _ _ _ Hgap a Ha). split; [done|]. split; [lia|]. split; [done|].
    rewrite Hfac, static_count_eq by done. lia.
  - intros a Ha. specialize (Hn a Ha). lia.
Qed.

Lemma zones_fit (st : Layout) (sel : FieldAllocationType -> bool) (p q : Z) (a : FieldAllocationType) :
  layout_zones C st early_count sel p q -> sel a = true -> q < 2 ^ 30 -> 0 <= space_count st a ->
  0 <= space_offset st a < 2 ^ 30 -> 0 <= next_offset st a < 2 ^ 30 -> fits C st a (early_count a).
Proof using.
  intros [H1 H2 _ _ _] Ha Hq Hc Hs Hn. specialize (H1 a Ha). specialize (H2 a Ha). cbv beta in *. split; [done|..].
  - split; [lia|]. destruct (Z.eq_dec (space_count st a) 0) as [->|]; [lia|]. destruct (H1 ltac:(lia)) as (? & _ & ?). lia.
  - split; [lia|]. destruct (Z.max_spec 0 (count_of (early_of a) ks - space_count st a)) as [[? ->]|[? ->]]; [|lia].
    destruct (H2 ltac:(lia)) as (? & _ & ?). lia.
Qed.

Lemma first_state_correct (style oop d start : Z) (gap : Gap) :
  gap_ok C count style d gap -> style_result C style oop d start (count NONSTATIC_OOP) ->
  0 < start -> (heapOopSize C | start) -> (4 | start) -> start + 8 * zlen ks + 16 < 2 ^ 29 ->
  exists offsets pad, nonstatic_offsets C style oop gap = (offsets, pad) /\
    start <= pad <= start + 8 * instance_count early_count + 16 /\ first_state_ok (first_state C fac offsets gap) start pad.
Proof using HC Hks Hfac Hcount Hearly.
  intros Hgap Hstyle Hst Hho H4 Hlim. pose proof (config_oop C HC) as Hh.
  assert (Hic : instance_count count = instance_count early_count) by (unfold instance_count; by rewrite !Hearly).
  pose proof (instance_count_le ks) as Hle. pose proof (count_of_bounds late ks) as Hla. rewrite <- Hic in *.
  destruct (nonstatic_offsets_ok C Hh count Hcount style start oop d gap Hgap Hst Hho H4 ltac:(lia) Hstyle) as (offsets & pad & -> & Hpad & Hz & Hn & Ho).
  exists offsets, pad. split; [done|]. split; [done|]. destruct (first_static_zones offsets style d gap Hgap) as (Hsz & Hse & Hsn).
  pose proof (gap_split _ _ _ _ _ Hgap) as Hsplit. pose proof (gap_low _ _ _ _ _ Hgap) as Hlow. pose proof (gap_end_range _ _ _ _ _ Hgap) as Hend.
  assert (Hgap_pad : gap_end gap < 2 ^ 29 + 8).
  { assert (d <= start + 8 * zlen ks); [|lia]. pose proof (Hcount NONSTATIC_OOP). unfold instance_count in Hle.
    pose proof (Hcount NONSTATIC_DOUBLE). pose proof (Hcount NONSTATIC_WORD). pose proof (Hcount NONSTATIC_SHORT). pose proof (Hcount NONSTATIC_BYTE).
    destruct Hstyle as [(_ & _ & ->)|(_ & _ & ->)]; nia. }
  assert (Hcounts : forall a, 0 <= space_count (first_state C fac offsets gap) a) by (intros a; apply Hsplit).
  assert (Hiz : layout_zones C (first_state C fac offsets gap) early_count instance_type start pad).
  { unfold layout_zones. eapply zones_ext; [|exact Hz]. intros a Ha. cbn [first_state space_count space_offset next_offset].
    unfold instance_type in Ha. rewrite static_types. rewrite negb_true_iff in Ha. rewrite Ha. split; [done|]. split; [done|]. split; [done|].
    specialize (Hsplit a). rewrite <- Hearly by (unfold instance_type; by rewrite Ha). lia. }
  split; try done.
  - split; [by apply (gap_static _ _ _ _ _ Hgap)|done].
  - intros a. pow2_norm. destruct (static_type a) eqn:Ha.
    + apply (zones_fit _ static_type _ _ a Hsz Ha); [pow2_norm; lia|apply Hsplit|..]; cbn [first_state space_offset next_offset].
      * specialize (Hlow a). pow2_norm. lia.
      * rewrite static_types, Ha. specialize (Hsn a Ha). pow2_norm. lia.
    + assert (Ha' : instance_type a = true) by (unfold instance_type; by rewrite Ha).
      apply (zones_fit _ instance_type _ _ a Hiz Ha'); [pow2_norm; lia|apply Hsplit|..]; cbn [first_state space_offset next_offset].
      * specialize (Hlow a). pow2_norm. lia.
      * rewrite static_types, Ha. specialize (Hn a Ha'). pow2_norm. lia.
  - intros r1 r2 Hr1 Hr2. apply (slot_oops_increase C Hh _ ks Hcounts); try done.
    + apply (gap_oop_one _ _ _ _ _ Hgap).
    + cbn [first_state space_count space_offset next_offset]. intros Hg Hl. apply Ho; [done|].
      specialize (Hsplit NONSTATIC_OOP). rewrite Hearly in Hsplit by done. lia.
Qed.
End FirstState.

(** The offsets of the fields of a class: the instance fields from [start] to [fin], the
    static fields from [sstart] to [sfin]. *)
Record placed_ok (C : Config) (ks : list kind) (os : list Z) (start fin sstart sfin : Z) : Prop := {
  placed_length : length os = length ks;
  placed_instance i k o : ks !! i = Some k -> os !! i = Some o -> instance_type (k_type k) = true ->
    start <= o /\ (type_size C (k_type k) | o) /\ o + type_size C (k_type k) <= fin;
  placed_static i k o : ks !! i = Some k -> os !! i = Some o -> static_type (k_type k) = true ->
    sstart <= o /\ (type_size C (k_type k) | o) /\ o + type_size C (k_type k) <= sfin;
  placed_apart i j k1 k2 o1 o2 : i <> j -> ks !! i = Some k1 -> ks !! j = Some k2 -> os !! i = Some o1 -> os !! j = Some o2 ->
    static_type (k_type k1) = static_type (k_type k2) -> apart 0 o1 (type_size C (k_type k1)) o2 (type_size C (k_type k2));
  placed_contended i j k1 k2 o1 o2 : i <> j -> ks !! i = Some k1 -> ks !! j = Some k2 -> os !! i = Some o1 -> os !! j = Some o2 ->
    late k1 = true -> instance_type (k_type k2) = true ->
    apart (padding C k1 k2) o1 (type_size C (k_type k1)) o2 (type_size C (k_type k2));
  placed_alone i k o : ks !! i = Some k -> os !! i = Some o -> late k = true ->
    start + ContendedPaddingWidth C <= o /\ o + type_size C (k_type k) + ContendedPaddingWidth C <= fin;
}.

(** The blocks describe the oops. *)
Definition describes_oops (C : Config) (ks : list kind) (os : list Z) (maps : list (Z * Z)) : Prop :=
  StronglySorted Z.lt (oops C maps) /\
  (forall x, x ∈ oops C maps <-> exists i k, ks !! i = Some k /\ is_oop k = true /\ os !! i = Some x).

Lemma late_instance (k : kind) : late k = true -> instance_type (k_type k) = true.
Proof. unfold late. by intros [_ ?]%andb_true_iff. Qed.

Lemma pending_all (k : kind) : 0 <= group_of k \/ late k = false -> pending (-1) k = late k.
Proof. unfold pending. destruct (late k); [|done]. cbn [andb]. intros [?|?]; [lia|done]. Qed.

Lemma apart_weaken (d d' o1 s1 o2 s2 : Z) : d' <= d -> apart d o1 s1 o2 s2 -> apart d' o1 s1 o2 s2.
Proof. unfold apart. lia. Qed.

Lemma padding_bounds (C : Config) (k1 k2 : kind) :
  0 <= ContendedPaddingWidth C <= 8192 -> 0 <= padding C k1 k2 <= ContendedPaddingWidth C.
Proof. unfold padding. intros. destruct (_ && _); lia. Qed.

Lemma early_offsets_length (table : FieldAllocationType -> Z -> Z) (ks : list kind) (rank : FieldAllocationType -> Z) :
  length (early_offsets table rank ks) = length ks.
Proof. revert rank. induction ks as [|k ks IH]; intros rank; [done|]. cbn [early_offsets]. by destruct (early k); cbn [length]; rewrite IH. Qed.

Section BothLoops.
Context (C : Config) (HC : config_ok C) (ks : list kind) (Hks : zlen ks < 2 ^ 16).
Context (fac : FieldAllocationCount) (Hfac : forall a, fac a = count_of (of_type a) ks).
Context (st : Layout) (start pad : Z) (Hst : first_state_ok C ks fac st start pad) (Hstart : 0 < start <= pad).
Abbreviation W := (ContendedPaddingWidth C).
Abbreviation size := (type_size C).
Abbreviation early_count := (fun a => count_of (early_of a) ks).
Abbreviation early_os := (early_offsets (slot C st) (fun _ => 0) ks).
Abbreviation static_end := (static_offsets C fac STATIC_BYTE + fac STATIC_BYTE).

Lemma oop_count_split : count_of (early_of NONSTATIC_OOP) ks + count_of (fun k => late k && is_oop k) ks = fac NONSTATIC_OOP.
Proof using Hfac.
  rewrite Hfac, (count_of_split (of_type NONSTATIC_OOP) early ks). f_equal. apply count_of_ext. intros k.
  unfold is_oop, early. rewrite negb_involutive. apply andb_comm.
Qed.

(** The offset of a field from one of the two loops. *)
Lemma merged_lookup (os : list (option Z)) (p q : Z) (i : nat) (k : kind) :
  offsets_ok C (pending (-1)) ks os p q -> (forall k, k ∈ ks -> late k = true -> 0 <= group_of k) -> ks !! i = Some k ->
  exists o, merge early_os os !! i = Some (Some o) /\
    (early k = true /\ early_os !! i = Some (Some o) /\ os !! i = Some None \/
     late k = true /\ os !! i = Some (Some o) /\ early_os !! i = Some None).
Proof using.
  intros Hos Hgr Hk. pose proof (offsets_lookup C _ _ _ _ _ i k Hos Hk) as Ho.
  pose proof (early_offsets_lookup (slot C st) ks (fun _ => 0) i k Hk) as He.
  rewrite pending_all in Ho.
  2: { destruct (late k) eqn:Hl; [left; apply Hgr; [by eapply list_elem_of_lookup_2|done]|by right]. }
  unfold early in *. destruct (late k) eqn:Hl; cbn [negb] in *.
  - destruct Ho as (o & Ho & _). exists o. rewrite (merge_lookup _ _ _ _ _ He Ho). split; [done|]. by right.
  - eexists. rewrite (merge_lookup _ _ _ _ _ He Ho). split; [done|]. by left.
Qed.

Lemma merged_cases (os : list (option Z)) (p q : Z) (final : list Z) (i : nat) (k : kind) (o : Z) :
  offsets_ok C (pending (-1)) ks os p q -> (forall k, k ∈ ks -> late k = true -> 0 <= group_of k) ->
  merge early_os os = Some <$> final -> ((exists k, k ∈ ks /\ late k = true) -> pad + W <= p) ->
  ks !! i = Some k -> final !! i = Some o ->
  (early k = true /\ early_os !! i = Some (Some o)) \/ (late k = true /\ os !! i = Some (Some o) /\ pad + W <= o).
Proof using.
  intros Hos Hgr Hfinal Hlate Hk Ho. destruct (merged_lookup os p q i k Hos Hgr Hk) as (o' & Hm & Hcase).
  rewrite Hfinal, list_lookup_fmap, Ho in Hm. injection Hm as <-. destruct Hcase as [(? & ? & _)|(Hl & Ho' & _)]; [by left|right].
  split; [done|]. split; [done|]. destruct (os_place C _ _ _ _ _ Hos i k o Hk Ho') as (? & _).
  assert (pad + W <= p); [|lia]. apply Hlate. exists k. split; [by eapply list_elem_of_lookup_2|done].
Qed.

Lemma merged_placed (os : list (option Z)) (p q : Z) (final : list Z) :
  offsets_ok C (pending (-1)) ks os p q -> (forall k, k ∈ ks -> late k = true -> 0 <= group_of k) ->
  (forall i k o, ks !! i = Some k -> os !! i = Some (Some o) -> o + size (k_type k) + W <= q) ->
  merge early_os os = Some <$> final -> pad <= p -> ((exists k, k ∈ ks /\ late k = true) -> pad + W <= p) ->
  placed_ok C ks final start q (offset_of_static_fields C) static_end.
Proof using HC Hst Hstart.
  intros Hos Hgr Hlast Hfinal Hp Hlate. pose proof (os_range C _ _ _ _ _ Hos) as Hpq. pose proof (config_oop C HC) as Hh.
  destruct Hst as [Hc _ Hiz Hsz _ _ _ _].
  pose proof (fun i k o => merged_cases os p q final i k o Hos Hgr Hfinal Hlate) as Hat.
  assert (Hlp : forall i k o, ks !! i = Some k -> os !! i = Some (Some o) ->
    p <= o /\ (size (k_type k) | o) /\ o + size (k_type k) + W <= q).
  { intros i k o Hk Ho. destruct (os_place C _ _ _ _ _ Hos i k o Hk Ho) as (? & ? & _). specialize (Hlast i k o Hk Ho). done. }
  pose proof (proj1 (config_padding C HC)) as HW.
  assert (Hcross : forall i j k1 k2 o1 o2, ks !! i = Some k1 -> ks !! j = Some k2 -> early_os !! i = Some (Some o1) ->
    instance_type (k_type k1) = true -> late k2 = true -> pad + W <= o2 -> o1 + size (k_type k1) + W <= o2).
  { intros i j k1 k2 o1 o2 Hk1 Hk2 Ho1 Hi1 Hl2 Ho2.
    destruct (early_place C Hh st ks Hc instance_type start pad i k1 o1 Hiz Hk1 Hi1 Ho1) as (_ & _ & ?). lia. }
  split.
  - apply (f_equal length) in Hfinal. rewrite length_fmap in Hfinal. rewrite <- Hfinal. unfold merge.
    rewrite length_zip_with, early_offsets_length, (os_length C _ _ _ _ _ Hos). lia.
  - intros i k o Hk Ho Hi. destruct (Hat i k o Hk Ho) as [[He Ho']|(Hl & Ho' & Hb)].
    + destruct (early_place C Hh st ks Hc instance_type start pad i k o Hiz Hk Hi Ho') as (? & ? & ?). split; [done|]. split; [done|lia].
    + destruct (Hlp i k o Hk Ho') as (? & ? & ?). split; [lia|]. split; [done|lia].
  - intros i k o Hk Ho Hs. destruct (Hat i k o Hk Ho) as [[He Ho']|(Hl & Ho' & Hb)].
    + by apply (early_place C Hh st ks Hc static_type _ _ i k o Hsz Hk Hs).
    + apply late_instance in Hl. unfold instance_type in Hl. by rewrite Hs in Hl.
  - intros i j k1 k2 o1 o2 Hij Hk1 Hk2 Ho1 Ho2 Hs.
    destruct (Hat i k1 o1 Hk1 Ho1) as [[He1 Ho1']|(Hl1 & Ho1' & Hb1)], (Hat j k2 o2 Hk2 Ho2) as [[He2 Ho2']|(Hl2 & Ho2' & Hb2)].
    + destruct (static_type (k_type k1)) eqn:Hs1.
      * by apply (early_apart C Hh st ks Hc static_type _ _ i j k1 k2 o1 o2 Hsz).
      * apply (early_apart C Hh st ks Hc instance_type _ _ i j k1 k2 o1 o2 Hiz); try done; unfold instance_type; [by rewrite Hs1|by rewrite <- Hs].
    + assert (Hi : instance_type (k_type k1) = true) by (apply late_instance in Hl2; unfold instance_type in *; by rewrite Hs).
      left. pose proof (Hcross i j k1 k2 o1 o2 Hk1 Hk2 Ho1' Hi Hl2 Hb2). lia.
    + assert (Hi : instance_type (k_type k2) = true) by (apply late_instance in Hl1; unfold instance_type in *; by rewrite <- Hs).
      right. pose proof (Hcross j i k2 k1 o2 o1 Hk2 Hk1 Ho2' Hi Hl1 Hb1). lia.
    + apply (apart_weaken (padding C k1 k2)); [by apply padding_bounds|]. by apply (os_apart C _ _ _ _ _ Hos i j).
  - intros i j k1 k2 o1 o2 Hij Hk1 Hk2 Ho1 Ho2 Hl Hi2.
    destruct (Hat i k1 o1 Hk1 Ho1) as [[He1 Ho1']|(Hl1 & Ho1' & Hb1)]; [unfold early in He1; by rewrite Hl in He1|].
    destruct (Hat j k2 o2 Hk2 Ho2) as [[He2 Ho2']|(Hl2 & Ho2' & Hb2)]; [|by apply (os_apart C _ _ _ _ _ Hos i j)].
    apply (apart_weaken W); [by apply padding_bounds|]. right. by apply (Hcross j i k2 k1 o2 o1 Hk2 Hk1 Ho2' Hi2 Hl1 Hb1).
  - intros i k o Hk Ho Hl. destruct (Hat i k o Hk Ho) as [[He Ho']|(_ & Ho' & Hb)]; [unfold early in He; by rewrite Hl in He|].
    destruct (Hlp i k o Hk Ho') as (_ & _ & ?). split; [lia|done].
Qed.

Lemma first_loop_ok : loop_ok C (slot C st) (fac NONSTATIC_OOP + 1) st (fun _ => 0) ks.
Proof using HC Hst Hstart Hfac.
  pose proof (config_oop C HC) as Hh. destruct Hst as [Hc _ Hiz _ _ Hfit _ [Hm Hf]]. split.
  - intros a k _. by rewrite Z.add_0_l.
  - done.
  - intros k Hk. rewrite Z.add_0_l. destruct (slot_place C Hh st early_count instance_type start pad NONSTATIC_OOP k Hiz (Hc _) eq_refl Hk). lia.
  - by rewrite Hm.
  - by rewrite Hm, Hf.
  - rewrite Hm. pose proof oop_count_split. pose proof (count_of_bounds (fun k => late k && is_oop k) ks). cbn [length]. lia.
Qed.

Lemma first_loop_waits (fs : list FieldInfo) : Forall2 fresh_field fs ks -> Forall2 late_waits (apply_offsets fs early_os) ks.
Proof using.
  intros Hfs. apply Forall2_same_length_lookup_2.
  { unfold apply_offsets. rewrite length_zip_with, early_offsets_length, (list.Forall2_length _ _ _ Hfs). lia. }
  intros i f k Hf Hk. unfold apply_offsets in Hf. rewrite lookup_zip_with, (early_offsets_lookup _ _ _ _ _ Hk) in Hf.
  destruct (fs !! i) as [f0|] eqn:Hf0; [|done]. cbn [mbind option_bind] in Hf. pose proof (Forall2_lookup_lr _ _ _ _ _ _ Hfs Hf0 Hk).
  unfold late_waits. unfold early in Hf. destruct (late k); cbn [negb] in Hf; injection Hf as <-; [done|apply set_offset_set].
Qed.

Lemma merged_all (os : list (option Z)) (p q : Z) :
  offsets_ok C (pending (-1)) ks os p q -> (forall k, k ∈ ks -> late k = true -> 0 <= group_of k) ->
  exists final, merge early_os os = Some <$> final.
Proof using.
  intros Hos Hgr. exists (default 0 <$> merge early_os os). rewrite <- list_fmap_compose. symmetry.
  rewrite <- (list_fmap_id (merge early_os os)) at 2. apply list_fmap_ext. intros i o Ho.
  assert (Hi : (i < length ks)%nat).
  { apply lookup_lt_Some in Ho. unfold merge in Ho. rewrite length_zip_with, early_offsets_length in Ho. lia. }
  apply lookup_lt_is_Some in Hi as [k Hk]. destruct (merged_lookup os p q i k Hos Hgr Hk) as (o' & Ho' & _). by simplify_eq.
Qed.

Lemma apply_all (fs : list FieldInfo) (final : list Z) : apply_offsets fs (Some <$> final) = zip_with set_offset fs final.
Proof using. unfold apply_offsets. by rewrite zip_with_fmap_r. Qed.

Lemma merged_oops (os : list (option Z)) (p q : Z) (final : list Z) (x : Z) :
  offsets_ok C (pending (-1)) ks os p q -> (forall k, k ∈ ks -> late k = true -> 0 <= group_of k) ->
  merge early_os os = Some <$> final ->
  x ∈ oop_offsets ks early_os \/ x ∈ oop_offsets ks os <->
  exists i k, ks !! i = Some k /\ is_oop k = true /\ final !! i = Some x.
Proof using.
  intros Hos Hgr Hfinal. rewrite !elem_oop_offsets.
  assert (Hf : forall i, final !! i = Some x <-> merge early_os os !! i = Some (Some x)).
  { intros i. rewrite Hfinal, list_lookup_fmap. destruct (final !! i) as [y|]; cbn; [|done]. split; [by intros [= ->]|by intros [= ->]]. }
  split.
  - intros [(i & k & Hk & Ho & Hoop)|(i & k & Hk & Ho & Hoop)]; exists i, k; (split; [done|]; split; [done|]); apply Hf;
      destruct (merged_lookup os p q i k Hos Hgr Hk) as (o & -> & [(_ & H1 & H2)|(_ & H1 & H2)]); congruence.
  - intros (i & k & Hk & Hoop & Ho). apply Hf in Ho.
    destruct (merged_lookup os p q i k Hos Hgr Hk) as (o & Ho' & [(_ & H1 & H2)|(_ & H1 & H2)]); [left|right]; exists i, k; (split; [done|]; split; [congruence|done]).
Qed.

Lemma early_oops_ok : StronglySorted Z.lt (oop_offsets ks early_os) /\ Forall (fun x => x < pad) (oop_offsets ks early_os).
Proof using HC Hst.
  pose proof (config_oop C HC) as Hh. destruct Hst as [Hc _ Hiz _ _ _ Hinc _].
  destruct (early_oops_sorted (slot C st) ks (fun _ => 0)) as [Hs _]; [intros r1 r2 H1 H2; apply Hinc; lia|]. split; [done|].
  apply list.Forall_forall. intros x (i & k & Hk & Ho & Hoop)%elem_oop_offsets. unfold is_oop, of_type in Hoop. apply bool_decide_eq_true in Hoop.
  destruct (early_place C Hh st ks Hc instance_type start pad i k x Hiz Hk) as (_ & _ & ?); [by rewrite Hoop|done|].
  pose proof (size_bounds C Hh (k_type k)). lia.
Qed.

Lemma both_loops_ok (cp_size : Z) (fresh : list Z) (fs : list FieldInfo) :
  0 <= cp_size < 2 ^ 31 -> zlen fresh = size_in_words (mkBitMap fresh cp_size) -> Forall (fun w => in_u 64 w) fresh ->
  Forall2 fresh_field fs ks -> (forall k, k ∈ ks -> late k = true -> 0 <= group_of k < cp_size) ->
  pad + W + (16 + W) * (count_of late ks + 1) < 2 ^ 29 ->
  exists fs1 st1 q maps final,
    layout_loop C (fac NONSTATIC_OOP + 1) fs st = Some (fs1, st1) /\
    next_offset st1 STATIC_BYTE = static_end /\
    layout_contended C cp_size fresh (fac NONSTATIC_OOP + 1) (count_of late ks) fs1
      {| padded_offset := pad; padded_maps := oop_maps st1; padded_first := first_nonstatic_oop_offset st1 |} =
      Some (zip_with set_offset fs final, {| padded_offset := q; padded_maps := maps; padded_first := first_of maps |}) /\
    placed_ok C ks final start q (offset_of_static_fields C) static_end /\
    describes_oops C ks final maps /\ Forall (block_ok C) maps /\ zlen maps <= zlen ks /\
    pad <= q <= pad + W + (16 + W) * count_of late ks.
Proof using HC Hst Hstart Hfac.
  intros Hcp Hfr Hfr' Hfs Hgr Hlim. pose proof (config_oop C HC) as Hh. destruct (config_padding C HC) as [HW _].
  pose proof (layout_loop_ok C Hh (slot C st) (fac NONSTATIC_OOP + 1) fs ks st _ Hfs first_loop_ok) as Hloop. cbv zeta in Hloop.
  destruct Hloop as (st1 & Hl1 & Hbl1 & Hfi1 & Ho1 & Hlen1 & Hsb).
  pose proof oop_count_split as Hsplit. destruct Hst as [Hc [Hb0 Hbn] Hiz Hsz _ Hfit Hinc [Hm Hf]]. rewrite Hm in Ho1, Hlen1. cbn [length app] in *.
  destruct (layout_contended_ok C Hh HW cp_size fresh (fac NONSTATIC_OOP + 1) (apply_offsets fs early_os) ks pad (oop_maps st1)
    Hcp Hfr Hfr' (first_loop_waits fs Hfs) Hgr ltac:(lia) Hlim Hbl1 ltac:(lia)) as (os & q & maps & l & Hl2 & [R1 R2 R3 R4 R5 R6 R7 R8 R9]).
  assert (Hgr0 : forall k, k ∈ ks -> late k = true -> 0 <= group_of k) by (intros k Hk Hl; specialize (Hgr k Hk Hl); lia).
  destruct (merged_all os _ q R1 Hgr0) as [final Hfinal].
  exists (apply_offsets fs early_os), st1, q, maps, final. split; [done|]. split.
  { rewrite (Hsb Hb0), Hbn, Hfac, static_count_eq by done. done. }
  split.
  { rewrite Hfi1, Hl2, apply_merge, Hfinal, apply_all; [done|..]; rewrite (list.Forall2_length _ _ _ Hfs); [apply early_offsets_length|apply R1]. }
  set (p := if 0 <? count_of late ks then pad + W else pad) in *. pose proof (count_of_bounds late ks) as Hlb.
  assert (Hp : pad <= p <= pad + W) by (unfold p; destruct (_ <? _); lia). pose proof (os_range C _ _ _ _ _ R1) as Hpq.
  assert (Hpl : count_of (pending (-1)) ks <= count_of late ks) by (apply count_of_le; unfold pending; by intros k [? _]%andb_true_iff).
  split; [|split; [|split; [done|split; [|nia]]]].
  - apply (merged_placed os p q final R1 Hgr0 R2 Hfinal ltac:(lia)). intros (k & Hk & Hl). unfold p.
    pose proof (count_of_pos late ks) as Hpos. destruct (Z.ltb_spec 0 (count_of late ks)) as [|Hz]; [lia|].
    specialize (Hpos ltac:(apply existsb_exists; exists k; split; [by apply list_elem_of_In|done])). lia.
  - destruct early_oops_ok as [Hs Hlt]. unfold describes_oops. rewrite R5, Ho1. change (oops C []) with (@nil Z). cbn [app]. split.
    + apply (sorted_app _ _ pad); try done. eapply list.Forall_impl; [exact R7|]. cbn. lia.
    + intros x. rewrite elem_of_app, R8. apply (merged_oops os p q final x R1 Hgr0 Hfinal).
  - assert (count_of (fun k => pending (-1) k && is_oop k) ks <= count_of (fun k => late k && is_oop k) ks).
    { apply count_of_le. unfold pending. intros k. destruct (late k); [|done]. by intros [_ ?]%andb_true_iff. }
    rewrite Hfac in Hsplit. pose proof (count_of_bounds (of_type NONSTATIC_OOP) ks). lia.
Qed.
End BothLoops.

Lemma placed_weaken (C : Config) (ks : list kind) (os : list Z) (start fin fin' sstart sfin sfin' : Z) :
  fin <= fin' -> sfin <= sfin' -> placed_ok C ks os start fin sstart sfin -> placed_ok C ks os start fin' sstart sfin'.
Proof.
  intros Hf Hs [H1 H2 H3 H4 H5 H6]. split; try done.
  - intros i k o Hk Ho Hi. destruct (H2 i k o Hk Ho Hi) as (? & ? & ?). split; [done|]. split; [done|lia].
  - intros i k o Hk Ho Hi. destruct (H3 i k o Hk Ho Hi) as (? & ? & ?). split; [done|]. split; [done|lia].
  - intros i k o Hk Ho Hl. specialize (H6 i k o Hk Ho Hl). lia.
Qed.

Lemma up_least (p s x : Z) : 0 < s -> p <= x -> (s | x) -> up p s <= x.
Proof.
  intros Hs Hp [y ->]. destruct (up_bounds p s Hs) as [[z Hz] Hu]. rewrite Hz in *.
  assert (z <= y) by (apply Z.lt_succ_r, (Z.mul_lt_mono_pos_r s); lia). nia.
Qed.

(** The sizes at the end. *)
Lemma quot_eight (x : Z) : 0 <= x -> (8 | x) -> Z.quot x wordSize * 8 = x.
Proof. intros Hx [y ->]. unfold wordSize. rewrite Z.quot_div_nonneg, Z.div_mul by lia. done. Qed.

Lemma instance_size_ok (C : Config) (p : Z) :
  config_ok C -> 0 <= p < 2 ^ 30 ->
  let size := s32 (align_size_up (Z.quot (s32 (align_size_up p wordSize)) wordSize) (MinObjAlignment C)) in
  p <= size * 8 /\ (MinObjAlignment C | size).
Proof.
  intros HC Hp. destruct (config_alignment C HC) as (m & Hm & Hal). pow2_norm.
  rewrite (align_up_eq p wordSize) by (unfold wordSize; pow2_norm; lia). destruct (up_bounds p wordSize ltac:(done)) as [H8 Hu].
  unfold wordSize in H8. pose proof (quot_eight (up p wordSize) ltac:(lia) H8) as Hq. set (w := Z.quot _ _) in *. unfold wordSize in *.
  assert (Ha : 1 <= MinObjAlignment C <= 32).
  { rewrite Hal. pose proof (Z.pow_le_mono_r 2 0 m). pose proof (Z.pow_le_mono_r 2 m 5). lia. }
  assert (Hsz : s32 (align_size_up w (MinObjAlignment C)) = up w (MinObjAlignment C)).
  { rewrite align_size_up_eq; [|lia|rewrite Hal; apply is_power_of_2_pow; lia|pow2_norm; lia..].
    destruct (up_bounds w (MinObjAlignment C) ltac:(lia)) as [_ ?]. apply smod_id; [lia|]. fold (up w (MinObjAlignment C)). pow2_norm. lia. }
  cbv zeta. rewrite Hsz. destruct (up_bounds w (MinObjAlignment C) ltac:(lia)) as [? ?]. split; [lia|done].
Qed.

(** What the layout of a class with fields of the kinds [ks] has to be. *)
Record layout_ok (C : Config) (super : option Super) (contended : bool) (ks : list kind) (final : list Z) (info : FieldLayoutInfo) : Prop := {
  layout_range :
    let start := base_offset_in_bytes C + from_option super_nonstatic_field_size 0 super * heapOopSize C in
    let fin := base_offset_in_bytes C + nonstatic_field_size info * heapOopSize C in
    let pad := if contended then ContendedPaddingWidth C else 0 in
    start <= fin <= start + (16 + ContendedPaddingWidth C) * (zlen ks + 4) /\
    placed_ok C ks final (start + pad) (fin - pad) (offset_of_static_fields C) (offset_of_static_fields C + static_field_size info * 8) /\
    fin <= instance_size info * 8;
  layout_static_end : offset_of_static_fields C + static_field_size info * 8 <= 2 ^ 29;
  layout_aligned : (MinObjAlignment C | instance_size info);
  layout_describes : describes_oops C ks final (nonstatic_oop_maps info);
  layout_blocks : Forall (block_ok C) (nonstatic_oop_maps info) /\ zlen (nonstatic_oop_maps info) <= zlen ks;
  layout_total : total_oop_map_count info = compute_oop_map_count C super (nonstatic_oop_maps info) (first_of (nonstatic_oop_maps info));
  layout_has : has_nonstatic_fields info =
    from_option super_has_nonstatic_fields false super || existsb (fun k => instance_type (k_type k)) ks;
}.

Lemma has_fields (ks : list kind) (fac : FieldAllocationCount) :
  (forall a, fac a = count_of (of_type a) ks) -> zlen ks < 2 ^ 16 ->
  negb (u32 (fac NONSTATIC_DOUBLE + fac NONSTATIC_WORD + fac NONSTATIC_SHORT + fac NONSTATIC_BYTE + fac NONSTATIC_OOP) =? 0) =
  existsb (fun k => instance_type (k_type k)) ks.
Proof.
  intros Hfac Hks. rewrite !Hfac.
  assert (Hsum : count_of (of_type NONSTATIC_DOUBLE) ks + count_of (of_type NONSTATIC_WORD) ks + count_of (of_type NONSTATIC_SHORT) ks +
    count_of (of_type NONSTATIC_BYTE) ks + count_of (of_type NONSTATIC_OOP) ks = count_of (fun k => instance_type (k_type k)) ks).
  { clear. induction ks as [|k ks IH]; [done|]. unfold of_type in IH |- *. rewrite !count_of_cons.
    destruct (k_type k); repeat case_bool_decide; try done; unfold instance_type in *; cbn [static_type negb] in *; lia. }
  rewrite Hsum. pose proof (count_of_bounds (fun k => instance_type (k_type k)) ks) as Hb. pow2_norm. rewrite umod_id by (pow2_norm; lia).
  destruct (existsb _ ks) eqn:He.
  - apply count_of_pos in He. destruct (Z.eqb_spec (count_of (fun k => instance_type (k_type k)) ks) 0); [lia|done].
  - rewrite count_of_none; [done|]. intros k Hk. destruct (instance_type (k_type k)) eqn:Hi; [|done].
    rewrite <- He. symmetry. apply existsb_exists. exists k. split; [by apply list_elem_of_In|done].
Qed.

(** The ends of the fields. *)
Lemma field_sizes_ok (C : Config) (size q pad : Z) :
  config_ok C -> let start := base_offset_in_bytes C + size * heapOopSize C in
  0 <= size -> start <= q -> 0 <= pad -> q + pad + 8 < 2 ^ 29 ->
  let fin := up (q + pad) (heapOopSize C) in
  base_offset_in_bytes C + s32 (size + Z.quot (s32 (align_size_up (q + pad) (heapOopSize C)) - start) (heapOopSize C)) * heapOopSize C = fin /\
  q + pad <= fin < q + pad + 8.
Proof.
  intros HC start Hsz Hq Hpad Hlim fin. destruct (config_base C HC) as (Hb & Hho & _). pose proof (config_oop C HC) as Hh. pow2_norm.
  destruct (up_bounds (q + pad) (heapOopSize C) ltac:(lia)) as [Hdiv Hu]. fold fin in Hdiv, Hu. split; [|lia].
  assert (Hst : 0 <= start) by (unfold start; nia).
  rewrite align_up_eq by (lia || pow2_norm; lia). fold fin.
  assert (Hd : (heapOopSize C | fin - start)).
  { apply Z.divide_sub_r; [done|]. unfold start. apply Z.divide_add_r; [done|]. apply Z.divide_factor_r. }
  destruct Hd as [y Hy]. rewrite Hy, Z.quot_div_nonneg, Z.div_mul by nia. unfold start in *. rewrite smod_id by (pow2_norm; nia). nia.
Qed.

Lemma static_size_ok (C : Config) (p : Z) :
  config_ok C -> let base := offset_of_static_fields C in
  base <= p < 2 ^ 29 -> p <= base + Z.quot (s32 (align_size_up p wordSize) - base) wordSize * 8 <= 2 ^ 29.
Proof.
  intros HC base Hp. destruct (config_static C HC) as [Hb H8]. fold base in Hb, H8. pow2_norm.
  rewrite align_up_eq by (unfold wordSize; lia || pow2_norm; lia). destruct (up_bounds p wordSize ltac:(done)) as [Hd Hu].
  unfold wordSize in Hd. rewrite quot_eight; [|lia|by apply Z.divide_sub_r].
  pose proof (up_least p wordSize (2 ^ 29) ltac:(done) ltac:(pow2_norm; lia) ltac:(by exists (2 ^ 26))). pow2_norm. lia.
Qed.

Lemma counts_ok (ks : list kind) (fac fc : FieldAllocationCount) :
  zlen ks < 2 ^ 16 -> (forall a, fac a = count_of (of_type a) ks) ->
  (forall a, fc a = new_count a + count_of (fun k => of_type a k && is_contended_kind k) ks) ->
  let count := fun a => u32 (fac a - fc a) in
  (forall a, 0 <= count a < 2 ^ 16) /\ (forall a, instance_type a = true -> count a = count_of (early_of a) ks).
Proof.
  intros Hks Hfac Hfc. cbv zeta.
  assert (Hfcb : forall a, fac a - fc a = count_of (fun k => of_type a k && negb (is_contended_kind k)) ks).
  { intros a. rewrite Hfac, Hfc, (count_of_split (of_type a) is_contended_kind ks). change (new_count a) with 0. lia. }
  assert (Hu : forall a, u32 (fac a - fc a) = fac a - fc a /\ 0 <= fac a - fc a < 2 ^ 16).
  { intros a. rewrite Hfcb. match goal with |- context[count_of ?p ks] => pose proof (count_of_bounds p ks) end.
    pow2_norm. rewrite umod_id by (pow2_norm; lia). lia. }
  split; intros a; destruct (Hu a) as [-> ?]; [done|]. intros Ha. rewrite <- early_count_eq, Hfac, Hfc by done. change (new_count a) with 0. lia.
Qed.

Lemma style_choice (C : Config) (boot_loader : bool) (class_name : list Z) :
  let style := if (FieldsAllocationStyle C <? 0) || (2 <? FieldsAllocationStyle C) then 1 else FieldsAllocationStyle C in
  exists style' compact, (if (negb (style =? 0) || CompactFields C) && is_hard_coded boot_loader class_name
    then (0, false) else (style, CompactFields C)) = (style', compact) /\ 0 <= style' <= 2.
Proof.
  intros style. assert (0 <= style <= 2) by (unfold style; destruct (_ || _) eqn:Hx; lia).
  destruct (_ && is_hard_coded _ _); eexists _, _; (split; [done|lia]).
Qed.

Lemma instance_count_nonneg (ks : list kind) : 0 <= instance_count (fun a => count_of (early_of a) ks).
Proof.
  assert (H : forall a, 0 <= count_of (early_of a) ks) by (intros a; apply count_of_bounds). unfold instance_count.
  pose proof (H NONSTATIC_DOUBLE). pose proof (H NONSTATIC_WORD). pose proof (H NONSTATIC_SHORT). pose proof (H NONSTATIC_BYTE).
  pose proof (H NONSTATIC_OOP). lia.
Qed.

Lemma fields_bound (w early late n : Z) :
  0 <= w -> 0 <= early -> 0 <= late -> early + late <= n -> 8 * early + (16 + w) * late <= (16 + w) * n.
Proof. intros. assert (0 <= w * (n - late)) by nia. lia. Qed.

Lemma start_aligned (C : Config) (size pad : Z) :
  config_ok C -> (8 | pad) ->
  (heapOopSize C | base_offset_in_bytes C + size * heapOopSize C + pad) /\ (4 | base_offset_in_bytes C + size * heapOopSize C + pad).
Proof.
  intros HC [y ->]. destruct (config_base C HC) as (_ & [z Hz] & _). rewrite Hz. destruct (config_oop C HC) as [E|E]; rewrite E.
  - split; exists (z + size + 2 * y); lia.
  - split; [exists (z + size + y)|exists (2 * z + 2 * size + 2 * y)]; lia.
Qed.

Lemma double_start_ok (C : Config) (style oop d start n : Z) :
  heapOopSize C = 4 \/ heapOopSize C = 8 -> style_result C style oop d start n -> (4 | start) -> 0 < start -> 0 <= n ->
  start + 8 * n < 2 ^ 29 -> 0 < d < 2 ^ 29 /\ (4 | d).
Proof.
  intros Hh Hres H4 Hst Hn Hlim. destruct Hres as [(_ & _ & ->)|(_ & _ & ->)]; (split; [nia|]); [|done].
  apply Z.divide_add_r; [done|]. destruct Hh as [E|E]; rewrite E; [exists n|exists (2 * n)]; lia.
Qed.

Lemma layout_fields_ok (C : Config) (super : option Super) (boot_loader : bool) (class_name : list Z) (contended : bool)
    (cp_size : Z) (fresh : list Z) (fac : FieldAllocationCount) (fs : list FieldInfo) (ks : list kind) :
  config_ok C -> zlen ks < 2 ^ 16 -> (forall a, fac a = count_of (of_type a) ks) -> Forall2 fresh_field fs ks ->
  0 <= cp_size < 2 ^ 31 -> zlen fresh = size_in_words (mkBitMap fresh cp_size) -> Forall (fun w => in_u 64 w) fresh ->
  (forall k, k ∈ ks -> late k = true -> 0 <= group_of k < cp_size) ->
  let super_size := from_option super_nonstatic_field_size 0 super in
  0 <= super_size ->
  base_offset_in_bytes C + super_size * heapOopSize C + (16 + ContendedPaddingWidth C) * (zlen ks + 4) < 2 ^ 29 ->
  exists final info, layout_fields C super boot_loader class_name contended cp_size fresh fac fs = Some (zip_with set_offset fs final, info) /\
    layout_ok C super contended ks final info.
Proof.
  intros HC Hks Hfac Hfs Hcp Hfr Hfr' Hgr super_size Hss Hlim.
  pose proof (config_oop C HC) as Hh. destruct (config_base C HC) as (Hb & Hbo & Hb4). destruct (config_padding C HC) as [HW HW8].
  pose proof (instance_count_le ks) as Hic. pose proof (count_of_bounds late ks) as Hlb. unfold layout_fields. fold super_size.
  destruct (count_contended_ok fs ks new_count 0 Hfs) as (fc & -> & Hfc); [intros a; change (new_count a) with 0; lia|lia|lia|]. cbn [mbind option_bind].
  set (h := heapOopSize C) in *. set (W := ContendedPaddingWidth C) in *. set (base := base_offset_in_bytes C) in *.
  pow2_norm. rewrite (smod_id 32 (super_size * h)) by (pow2_norm; nia). rewrite (smod_id 32 (base + super_size * h)) by (pow2_norm; nia).
  set (start := base + super_size * h) in *. set (cw := if contended then W else 0).
  assert (Hcw : 0 <= cw <= W) by (unfold cw; destruct contended; lia).
  replace (if contended then s32 (start + W) else start) with (start + cw)
    by (unfold cw; destruct contended; [by rewrite smod_id by (pow2_norm; nia)|lia]).
  set (count := fun a => u32 (fac a - fc a)).
  destruct (counts_ok ks fac fc Hks Hfac Hfc) as [Hc He]. change (forall a, 0 <= count a < 2 ^ 16) in Hc.
  change (forall a, instance_type a = true -> count a = count_of (early_of a) ks) in He.
  destruct (style_choice C boot_loader class_name) as (style1 & compact & -> & Hs1).
  change (u32 (fac NONSTATIC_OOP - fc NONSTATIC_OOP)) with (count NONSTATIC_OOP).
  assert (Hsum : 0 <= count NONSTATIC_OOP <= zlen ks) by (rewrite He by done; apply count_of_bounds).
  destruct (style_offsets_ok C super style1 super_size (start + cw) (count NONSTATIC_OOP) Hh Hs1 ltac:(nia) (Hc _) ltac:(pow2_norm; nia))
    as (style & oop & d & -> & Hres).
  assert (Hst4 : (h | start + cw) /\ (4 | start + cw)).
  { apply start_aligned; [done|]. unfold cw. destruct contended; [done|by exists 0]. }
  pose proof (double_start_ok C style oop d (start + cw) _ Hh Hres (proj2 Hst4) ltac:(nia) (proj1 Hsum) ltac:(pow2_norm; nia)) as Hd.
  destruct (fill_gap_ok C Hh count Hc compact style d (proj1 Hd) (proj2 Hd)) as (gap & -> & Hgap). cbn [mbind option_bind].
  destruct (first_state_correct C HC ks ltac:(pow2_norm; lia) fac count Hfac Hc He style oop d (start + cw) gap Hgap Hres ltac:(nia)
    (proj1 Hst4) (proj2 Hst4) ltac:(pow2_norm; nia)) as (offsets & pad & -> & Hpad & Hst).
  change ({| next_offset := _; space_count := _; space_offset := _; oop_maps := _; first_nonstatic_oop_offset := _ |})
    with (first_state C fac offsets gap).
  destruct (both_loops_ok C HC ks fac Hfac (first_state C fac offsets gap) (start + cw) pad Hst ltac:(nia) cp_size fresh fs ltac:(pow2_norm; lia)
    Hfr Hfr' Hfs Hgr ltac:(pow2_norm; nia)) as (fs1 & st1 & q & maps & final & -> & Hsb & Hcont & Hplaced & Hdesc & Hbl & Hlen & Hq).
  cbn [mbind option_bind]. rewrite Z.add_0_l, Hcont. cbn [mbind option_bind padded_offset padded_maps padded_first].
  replace (if contended then s32 (q + W) else q) with (q + cw)
    by (unfold cw; destruct contended; [by rewrite smod_id by (pow2_norm; nia)|lia]).
  eexists final, _. split; [reflexivity|].
  destruct (field_sizes_ok C super_size q cw HC Hss ltac:(fold base h start; lia) ltac:(lia) ltac:(pow2_norm; nia)) as [Hfin Hfin'].
  destruct (instance_size_ok C (q + cw) HC ltac:(pow2_norm; nia)) as [Hisz Hial].
  pose proof (static_size_ok C _ HC ltac:(split; [apply (first_static_end _ _ _ _ _ _ Hst)|apply (first_static_end _ _ _ _ _ _ Hst)])) as Hssz.
  pose proof (fields_bound W (instance_count (fun a => count_of (early_of a) ks)) (count_of late ks) (zlen ks) ltac:(lia) (instance_count_nonneg ks) ltac:(lia) Hic) as Hbound.
  fold base h start in Hfin. fold h in Hfin'. fold W in Hq. split; cbn [nonstatic_field_size static_field_size instance_size nonstatic_oop_maps total_oop_map_count has_nonstatic_fields]; try done.
  - fold super_size h base start W cw. rewrite Hsb, Hfin. split; [lia|]. split.
    + eapply placed_weaken; [|exact (proj1 Hssz)|exact Hplaced]. lia.
    + apply up_least; [lia|exact Hisz|]. destruct Hh as [E|E]; fold h in E; rewrite E; [apply (Z.divide_mul_r 4 _ 8); by exists 2|apply Z.divide_factor_r].
  - rewrite Hsb. apply Hssz.
  - f_equal. by apply has_fields.
Qed.

(** ** Chains of classes *)

(** Classes whose fields have types, and whose groups are indices of their constant pool. *)
Record class_ok (c : ClassFields) (ks : list kind) : Prop := {
  class_kinds : Forall2 (fun d k => kind_of d = Some k) (class_fields c) ks;
  class_count : zlen ks < 2 ^ 16;
  class_cp : 0 <= class_cp_size c < 2 ^ 31;
  class_memory : zlen (class_fresh c) = size_in_words (mkBitMap (class_fresh c) (class_cp_size c)) /\
    Forall (fun w => in_u 64 w) (class_fresh c);
  class_groups k : k ∈ ks -> late k = true -> 0 <= group_of k < class_cp_size c;
}.

(** The instance fields of a class: their types and offsets. *)
Definition instance_fields (ks : list kind) (os : list Z) : list (FieldAllocationType * Z) :=
  omap (fun '(k, o) => if instance_type (k_type k) then Some (k_type k, o) else None) (zip ks os).

(** The fields of the objects of a class, those of its super classes included. *)
Record object_ok (C : Config) (fields : list (FieldAllocationType * Z)) (k : Super) : Prop := {
  object_size : 0 <= super_nonstatic_field_size k;
  object_place a o : (a, o) ∈ fields ->
    base_offset_in_bytes C <= o /\ (type_size C a | o) /\
    o + type_size C a <= base_offset_in_bytes C + super_nonstatic_field_size k * heapOopSize C;
  object_apart i j a b o1 o2 : i <> j -> fields !! i = Some (a, o1) -> fields !! j = Some (b, o2) ->
    apart 0 o1 (type_size C a) o2 (type_size C b);
  object_sorted : StronglySorted Z.lt (oops C (super_oop_maps k));
  object_oops x : x ∈ oops C (super_oop_maps k) <-> (NONSTATIC_OOP, x) ∈ fields;
  object_blocks : Forall (block_ok C) (super_oop_maps k);
  object_has : super_has_nonstatic_fields k = negb (bool_decide (fields = []));
}.

Lemma elem_instance_fields (ks : list kind) (os : list Z) (a : FieldAllocationType) (o : Z) :
  (a, o) ∈ instance_fields ks os <->
  exists i k, ks !! i = Some k /\ os !! i = Some o /\ k_type k = a /\ instance_type a = true.
Proof.
  unfold instance_fields. rewrite list_elem_of_omap. split.
  - intros ([k x] & Hin & Hx). apply list_elem_of_lookup in Hin as [i Hi]. apply lookup_zip_Some in Hi as [Hk Ho].
    destruct (instance_type (k_type k)) eqn:Hi; [|done]. injection Hx as <- <-. by exists i, k.
  - intros (i & k & Hk & Ho & <- & Hi). exists (k, o). rewrite Hi. split; [|done]. apply (list_elem_of_lookup_2 _ i).
    by apply lookup_zip_Some.
Qed.

Lemma instance_fields_lookup (ks : list kind) (os : list Z) (i j : nat) (a b : FieldAllocationType) (o1 o2 : Z) :
  i <> j -> instance_fields ks os !! i = Some (a, o1) -> instance_fields ks os !! j = Some (b, o2) ->
  exists i' j' k1 k2, i' <> j' /\ ks !! i' = Some k1 /\ ks !! j' = Some k2 /\ os !! i' = Some o1 /\ os !! j' = Some o2 /\
    k_type k1 = a /\ k_type k2 = b /\ instance_type a = true /\ instance_type b = true.
Proof.
  revert os i j. induction ks as [|k ks IH]; intros [|o os] i j Hij Hi Hj; try done.
  unfold instance_fields in Hi, Hj. cbn [zip zip_with omap list_omap] in Hi, Hj.
  assert (Htail : forall i' x y, instance_fields ks os !! i' = Some (x, y) ->
    exists n k', ks !! n = Some k' /\ os !! n = Some y /\ k_type k' = x /\ instance_type x = true).
  { intros i' x y Hx. apply elem_instance_fields. by eapply list_elem_of_lookup_2. }
  destruct (instance_type (k_type k)) eqn:Hk.
  - destruct i as [|i], j as [|j]; try done.
    + injection Hi as <- <-. destruct (Htail j b o2 Hj) as (n & k' & ? & ? & ? & ?). by exists 0%nat, (S n), k, k'.
    + injection Hj as <- <-. destruct (Htail i a o1 Hi) as (n & k' & ? & ? & ? & ?). by exists (S n), 0%nat, k', k.
    + destruct (IH os i j ltac:(lia) Hi Hj) as (i' & j' & k1 & k2 & Hne & H'). exists (S i'), (S j'), k1, k2. split; [lia|done].
  - destruct (IH os i j Hij Hi Hj) as (i' & j' & k1 & k2 & Hne & H'). exists (S i'), (S j'), k1, k2. split; [lia|done].
Qed.

(** What precedes a class in its chain. *)
Definition super_ok (C : Config) (fields : list (FieldAllocationType * Z)) (super : option Super) : Prop :=
  match super with Some k => object_ok C fields k | None => fields = [] end.

Lemma sorted_length (l : list Z) (lo hi : Z) :
  StronglySorted Z.lt l -> Forall (fun x => lo <= x < hi) l -> lo <= hi -> zlen l <= hi - lo.
Proof.
  intros Hs. revert lo. induction Hs as [|x l Hs IH Hx]; intros lo Hl Hlo; [cbn; lia|].
  apply list.Forall_cons in Hl as [Hx' Hl]. cbn [length]. specialize (IH (x + 1)).
  assert (zlen l <= hi - (x + 1)); [|lia]. apply IH; [|lia]. apply list.Forall_forall. intros y Hy.
  rewrite list.Forall_forall in Hx, Hl. specialize (Hx y Hy). specialize (Hl y Hy). lia.
Qed.

Lemma maps_length (C : Config) (maps : list (Z * Z)) : Forall (block_ok C) maps -> zlen maps <= zlen (oops C maps).
Proof.
  induction 1 as [|b maps (_ & Hb & _) _ IH]; [done|]. rewrite oops_cons, length_app. pose proof (block_length C b ltac:(lia)).
  cbn [length]. lia.
Qed.

Lemma super_facts (C : Config) (fields : list (FieldAllocationType * Z)) (super : option Super) :
  config_ok C -> super_ok C fields super ->
  let size := from_option super_nonstatic_field_size 0 super in
  let maps := from_option super_oop_maps [] super in
  0 <= size /\ Forall (block_ok C) maps /\ StronglySorted Z.lt (oops C maps) /\ (forall x, x ∈ oops C maps <-> (NONSTATIC_OOP, x) ∈ fields) /\
  (forall a o, (a, o) ∈ fields -> base_offset_in_bytes C <= o /\ (type_size C a | o) /\ o + type_size C a <= base_offset_in_bytes C + size * heapOopSize C) /\
  (forall i j a b o1 o2, i <> j -> fields !! i = Some (a, o1) -> fields !! j = Some (b, o2) -> apart 0 o1 (type_size C a) o2 (type_size C b)) /\
  from_option super_has_nonstatic_fields false super = negb (bool_decide (fields = [])) /\
  zlen maps <= size * heapOopSize C.
Proof.
  intros HC Hs. pose proof (config_oop C HC) as Hh. destruct super as [k|]; cbn [from_option super_ok] in *.
  - destruct Hs as [H1 H2 H3 H4 H5 H6 H7]. repeat (split; [done|]). pose proof (maps_length C _ H6) as Hl.
    assert (zlen (oops C (super_oop_maps k)) <= super_nonstatic_field_size k * heapOopSize C); [|lia].
    replace (super_nonstatic_field_size k * heapOopSize C) with
      (base_offset_in_bytes C + super_nonstatic_field_size k * heapOopSize C - base_offset_in_bytes C) by lia.
    apply sorted_length; [done| |nia]. apply list.Forall_forall. intros x Hx. apply H5 in Hx. destruct (H2 _ _ Hx) as (? & _ & ?).
    pose proof (size_bounds C Hh NONSTATIC_OOP). lia.
  - subst fields. split; [lia|]. split; [done|]. split; [constructor|]. split; [intros x; split; intros []%elem_of_nil|].
    split; [intros a o []%elem_of_nil|]. split; [done|]. split; [by rewrite bool_decide_true|]. cbn. lia.
Qed.

Lemma new_fields_ok (C : Config) (ks : list kind) (final : list Z) (info : FieldLayoutInfo) (super : option Super) (contended : bool) :
  config_ok C -> layout_ok C super contended ks final info ->
  let start := base_offset_in_bytes C + from_option super_nonstatic_field_size 0 super * heapOopSize C in
  let fin := base_offset_in_bytes C + nonstatic_field_size info * heapOopSize C in
  forall a o, (a, o) ∈ instance_fields ks final -> start <= o /\ (type_size C a | o) /\ o + type_size C a <= fin.
Proof.
  intros HC Hl start fin a o Hin. destruct (layout_range _ _ _ _ _ _ Hl) as (_ & Hp & _). fold start fin in Hp.
  apply elem_instance_fields in Hin as (i & k & Hk & Ho & <- & Hi). destruct (config_padding C HC) as [HW _].
  destruct (placed_instance _ _ _ _ _ _ _ Hp i k o Hk Ho Hi) as (? & ? & ?). destruct contended; (split; [lia|split; [done|lia]]).
Qed.

Lemma fields_apart_app (C : Config) (fs1 fs2 : list (FieldAllocationType * Z)) (m : Z) :
  (forall a o, (a, o) ∈ fs1 -> o + type_size C a <= m) -> (forall a o, (a, o) ∈ fs2 -> m <= o) ->
  let apart_all fs := forall i j a b o1 o2, i <> j -> fs !! i = Some (a, o1) -> fs !! j = Some (b, o2) ->
    apart 0 o1 (type_size C a) o2 (type_size C b) in
  apart_all fs1 -> apart_all fs2 -> apart_all (fs1 ++ fs2).
Proof.
  intros H1 H2 all Ha1 Ha2 i j a b o1 o2 Hij Hi Hj. apply lookup_app_Some in Hi as [Hi|[Hil Hi]], Hj as [Hj|[Hjl Hj]].
  - by apply (Ha1 i j).
  - left. apply list_elem_of_lookup_2 in Hi, Hj. apply H1 in Hi. apply H2 in Hj. lia.
  - right. apply list_elem_of_lookup_2 in Hi, Hj. apply H2 in Hi. apply H1 in Hj. lia.
  - apply (Ha2 (i - length fs1)%nat (j - length fs1)%nat); [lia|done..].
Qed.

Lemma instance_fields_nil (ks : list kind) (os : list Z) :
  length os = length ks -> bool_decide (instance_fields ks os = []) = negb (existsb (fun k => instance_type (k_type k)) ks).
Proof.
  revert os. induction ks as [|k ks IH]; intros [|o os] Hl; try done. cbn [existsb]. unfold instance_fields. cbn [zip zip_with omap list_omap].
  destruct (instance_type (k_type k)); [done|]. cbn [orb]. apply IH. cbn in Hl. lia.
Qed.

Lemma offsets_read (C : Config) (ks : list kind) (fs : list FieldInfo) (final : list Z) (start fin sstart sfin : Z) :
  config_ok C -> placed_ok C ks final start fin sstart sfin -> length fs = length ks -> 0 <= start -> fin <= 2 ^ 29 -> 0 <= sstart -> sfin <= 2 ^ 29 ->
  Forall2 (fun f o => offset f = Some o) (zip_with set_offset fs final) final.
Proof.
  intros HC Hp Hl Hst Hf Hss Hsf. pose proof (placed_length _ _ _ _ _ _ _ Hp) as Hl'. apply Forall2_same_length_lookup_2.
  { rewrite length_zip_with. lia. }
  intros i f o Hi Ho. rewrite lookup_zip_with, Ho in Hi. destruct (fs !! i) as [f0|] eqn:Hf0; [|done]. injection Hi as <-.
  apply offset_set_offset. assert (Hlt : (i < length ks)%nat) by (apply lookup_lt_Some in Ho; lia). apply lookup_lt_is_Some in Hlt as [k Hk].
  pose proof (size_bounds C (config_oop C HC) (k_type k)). destruct (static_type (k_type k)) eqn:Hs.
  - destruct (placed_static _ _ _ _ _ _ _ Hp i k o Hk Ho Hs) as (? & _ & ?). lia.
  - destruct (placed_instance _ _ _ _ _ _ _ Hp i k o Hk Ho) as (? & _ & ?); [unfold instance_type; by rewrite Hs|]. lia.
Qed.

(** The fields a new class adds to those of its super class. *)
Lemma object_grows (C : Config) (fields : list (FieldAllocationType * Z)) (super : option Super) (contended : bool) (ks : list kind)
    (final : list Z) (info : FieldLayoutInfo) (maps : list (Z * Z)) :
  config_ok C -> super_ok C fields super -> layout_ok C super contended ks final info ->
  oops C maps = oops C (from_option super_oop_maps [] super) ++ oops C (nonstatic_oop_maps info) -> Forall (block_ok C) maps ->
  object_ok C (fields ++ instance_fields ks final)
    {| super_nonstatic_field_size := nonstatic_field_size info; super_has_nonstatic_fields := has_nonstatic_fields info; super_oop_maps := maps |}.
Proof.
  intros HC Hs Hl Hoops Hbl. destruct (super_facts C fields super HC Hs) as (Hsz & _ & Hsort & Hin & Hpl & Hap & Hhas & _).
  pose proof (new_fields_ok C ks final info super contended HC Hl) as Hnew. cbv zeta in Hnew.
  pose proof (config_oop C HC) as Hh. pose proof (layout_range _ _ _ _ _ _ Hl) as Hr. cbv zeta in Hr. destruct Hr as (Hr & Hp & _).
  set (m := base_offset_in_bytes C + from_option super_nonstatic_field_size 0 super * heapOopSize C) in *.
  destruct (layout_describes _ _ _ _ _ _ Hl) as [Hs2 Hin2].
  assert (Hoop2 : forall x, x ∈ oops C (nonstatic_oop_maps info) <-> (NONSTATIC_OOP, x) ∈ instance_fields ks final).
  { intros x. rewrite Hin2, elem_instance_fields. split; intros (i & k & H').
    - destruct H' as (Hk & Ho & Hx). exists i, k. unfold is_oop, of_type in Ho. apply bool_decide_eq_true in Ho. by rewrite Ho.
    - destruct H' as (Hk & Hx & Ht & _). exists i, k. unfold is_oop, of_type. by rewrite Ht, bool_decide_true. }
  split; cbn [super_nonstatic_field_size super_has_nonstatic_fields super_oop_maps].
  - nia.
  - intros a o [Ha|Ha]%elem_of_app; [destruct (Hpl a o Ha) as (? & ? & ?)|destruct (Hnew a o Ha) as (? & ? & ?)];
      (split; [unfold m in *; nia|split; [done|lia]]).
  - apply (fields_apart_app C fields _ m); [intros a o Ha; apply (Hpl a o Ha)|intros a o Ha; apply (Hnew a o Ha)|exact Hap|].
    intros i j a b o1 o2 Hij Hi Hj.
    destruct (instance_fields_lookup _ _ _ _ _ _ _ _ Hij Hi Hj) as (i' & j' & k1 & k2 & Hij' & Hk1 & Hk2 & Ho1 & Ho2 & <- & <- & Hi1 & Hi2).
    apply (placed_apart _ _ _ _ _ _ _ Hp i' j' k1 k2); try done. unfold instance_type in Hi1, Hi2. rewrite negb_true_iff in Hi1, Hi2. congruence.
  - rewrite Hoops. apply (sorted_app _ _ m); [done|done|..]; apply list.Forall_forall; intros x Hx.
    + apply Hin in Hx. destruct (Hpl _ _ Hx) as (_ & _ & ?). pose proof (size_bounds C Hh NONSTATIC_OOP). lia.
    + apply Hoop2 in Hx. by destruct (Hnew _ _ Hx) as (? & _).
  - intros x. by rewrite Hoops, !elem_of_app, Hin, Hoop2.
  - done.
  - rewrite (layout_has _ _ _ _ _ _ Hl), Hhas. pose proof (instance_fields_nil ks final (placed_length _ _ _ _ _ _ _ Hp)) as Hnil.
    destruct (existsb _ ks); cbn [negb] in Hnil; rewrite ?orb_true_r, ?orb_false_r.
    + apply bool_decide_eq_false in Hnil. rewrite bool_decide_false; [done|]. by intros [_ ?]%app_eq_nil.
    + apply bool_decide_eq_true in Hnil. by rewrite Hnil, app_nil_r.
Qed.

(** One more class. *)
Lemma create_klass_ok (C : Config) (fields : list (FieldAllocationType * Z)) (super : option Super) (c : ClassFields) (ks : list kind) :
  config_ok C -> class_ok c ks -> super_ok C fields super ->
  base_offset_in_bytes C + from_option super_nonstatic_field_size 0 super * heapOopSize C +
    (16 + ContendedPaddingWidth C) * (zlen ks + 4) < 2 ^ 29 ->
  exists final k, create_klass C super c = Some k /\ Forall2 (fun f o => offset f = Some o) (klass_fields k) final /\
    layout_ok C super (class_contended c) ks final (klass_info k) /\
    super_nonstatic_field_size (klass_super k) = nonstatic_field_size (klass_info k) /\
    object_ok C (fields ++ instance_fields ks final) (klass_super k).
Proof.
  intros HC [Hds Hn Hcp [Hm1 Hm2] Hgr] Hs Hlim. unfold create_klass.
  destruct (make_fields_ok (class_fields c) ks new_count Hds) as (fs & fac & -> & Hfs & Hfac).
  { intros a. change (new_count a) with 0. lia. }
  cbn [mbind option_bind]. pose proof (super_facts C fields super HC Hs) as Hf. cbv zeta in Hf.
  destruct Hf as (Hsz & Hbl & _ & _ & _ & _ & _ & Hlen).
  destruct (layout_fields_ok C super (class_boot_loader c) (class_name c) (class_contended c) (class_cp_size c) (class_fresh c) fac fs ks
    HC Hn Hfac Hfs Hcp Hm1 Hm2 Hgr Hsz Hlim) as (final & info & -> & Hl). cbn [mbind option_bind].
  destruct (layout_blocks _ _ _ _ _ _ Hl) as [Hbl2 Hlen2]. rewrite (layout_total _ _ _ _ _ _ Hl).
  pose proof (config_base C HC) as Hb. destruct (config_padding C HC) as [HW _]. pow2_norm.
  destruct (fill_oop_maps_ok C super (nonstatic_oop_maps info) (config_oop C HC) Hbl Hbl2 ltac:(pow2_norm; nia)) as (maps & -> & Hoops & Hbl3 & _).
  cbn [mbind option_bind]. eexists final, _. split; [reflexivity|]. cbn [klass_fields klass_info klass_super].
  pose proof (layout_range _ _ _ _ _ _ Hl) as Hr. cbv zeta in Hr. destruct Hr as (Hr & Hp & _).
  split; [|split; [done|split; [done|by eapply object_grows]]].
  apply (offsets_read C ks fs final _ _ _ _ HC Hp).
  - by apply list.Forall2_length in Hfs.
  - destruct (class_contended c); nia.
  - pow2_norm. destruct (class_contended c); nia.
  - destruct (config_static C HC). lia.
  - apply (layout_static_end _ _ _ _ _ _ Hl).
Qed.

(** A class and its subclasses, with the fields of the objects so far. *)
Inductive chain_ok (C : Config) : list (FieldAllocationType * Z) -> option Super -> list ClassFields -> list Klass -> Prop :=
  | chain_nil fields super : chain_ok C fields super [] []
  | chain_cons fields super c cs k ks kinds final :
      Forall2 (fun d kd => kind_of d = Some kd) (class_fields c) kinds ->
      Forall2 (fun f o => offset f = Some o) (klass_fields k) final ->
      layout_ok C super (class_contended c) kinds final (klass_info k) ->
      object_ok C (fields ++ instance_fields kinds final) (klass_super k) ->
      chain_ok C (fields ++ instance_fields kinds final) (Some (klass_super k)) cs ks ->
      chain_ok C fields super (c :: cs) (k :: ks).

(** The bytes the fields of the classes may take. *)
Fixpoint chain_room (C : Config) (cs : list ClassFields) : Z :=
  match cs with
  | [] => 0
  | c :: cs => (16 + ContendedPaddingWidth C) * (zlen (class_fields c) + 4) + chain_room C cs
  end.

Lemma create_klasses_ok (C : Config) (cs : list ClassFields) (fields : list (FieldAllocationType * Z)) (super : option Super) :
  config_ok C -> Forall (fun c => exists ks, class_ok c ks) cs -> super_ok C fields super ->
  base_offset_in_bytes C + from_option super_nonstatic_field_size 0 super * heapOopSize C + chain_room C cs < 2 ^ 29 ->
  exists ks, create_klasses C super cs = Some ks /\ chain_ok C fields super cs ks.
Proof.
  intros HC. revert fields super. induction cs as [|c cs IH]; intros fields super Hcs Hs Hlim; cbn [create_klasses].
  { exists []. split; [done|constructor]. }
  apply list.Forall_cons in Hcs as [[kinds Hc] Hcs]. cbn [chain_room] in Hlim. pose proof (class_kinds _ _ Hc) as Hk.
  rewrite (list.Forall2_length _ _ _ Hk) in Hlim.
  assert (Hroom : 0 <= chain_room C cs).
  { destruct (config_padding C HC) as [HW _]. clear -HW. induction cs; cbn [chain_room]; nia. }
  destruct (create_klass_ok C fields super c kinds HC Hc Hs ltac:(lia)) as (final & k & -> & Hoff & Hl & Hsize & Hobj). cbn [mbind option_bind].
  pose proof (layout_range _ _ _ _ _ _ Hl) as Hr. cbv zeta in Hr. destruct Hr as (Hr & _).
  destruct (IH (fields ++ instance_fields kinds final) (Some (klass_super k)) Hcs Hobj) as (ks & -> & Hchain).
  { cbn [from_option]. rewrite Hsize. lia. }
  cbn [mbind option_bind]. exists (k :: ks). split; [done|]. by econstructor.
Qed.

(** C4: Classes get layouts that are right for every chain of classes, each the super class
    of the next one, every configuration of heap (oops of four or eight bytes, compaction of
    fields, each allocation style, each padding of contended fields) and all descriptions of
    fields, as long as the objects stay below 2^29 bytes.  Every field of every class gets an
    offset that is a multiple of its size and that can be read back from its packed form.
    The instance fields lie behind the fields of the super class and end before the size of
    the class, which is within the size of its instances; static fields lie between the
    offset of static fields and the end of the mirror; no two of them overlap.  Contended
    fields have the padding on both sides, other than to fields of their own group, and the
    fields of a contended class are padded as a whole.  All fields of an object, those of all
    super classes included, are disjoint, and the blocks of oops of a class, merged with
    those of its super class, are sorted and contain exactly the offsets of the oops of all
    these fields. *)
Theorem field_layout_correct (C : Config) (cs : list ClassFields) :
  config_ok C -> Forall (fun c => exists ks, class_ok c ks) cs -> base_offset_in_bytes C + chain_room C cs < 2 ^ 29 ->
  exists ks, create_klasses C None cs = Some ks /\ chain_ok C [] None cs ks.
Proof. intros HC Hcs Hlim. apply create_klasses_ok; [done|done|done|]. cbn [from_option]. lia. Qed.

(** Compressed oops, and a class with a subclass: longs, ints, bytes, oops, statics, and
    contended fields of two groups. *)
Definition sample_config : Config :=
  {| heapOopSize := 4; base_offset_in_bytes := 12; offset_of_static_fields := 96; ContendedPaddingWidth := 128;
     MinObjAlignment := 1; CompactFields := true; FieldsAllocationStyle := 1 |}.
Definition sample_field (flags type : Z) (contended : option Z) : FieldDescription :=
  {| fd_flags := flags; fd_name := 1; fd_signature := 2; fd_initval := 0; fd_type := type; fd_contended := contended |}.
Definition sample_class (contended : bool) (fields : list FieldDescription) : ClassFields :=
  {| class_fields := fields; class_name := [83]; class_boot_loader := false; class_contended := contended;
     class_cp_size := 70; class_fresh := [7; 2 ^ 64 - 1] |}.
Definition sample_classes : list ClassFields :=
  [sample_class false [sample_field 1 T_LONG None; sample_field 1 T_BYTE None; sample_field 1 T_OBJECT None;
                       sample_field JVM_ACC_STATIC T_OBJECT None; sample_field 1 T_INT (Some 5)];
   sample_class true [sample_field 1 T_OBJECT (Some 5); sample_field 1 T_SHORT (Some 0); sample_field 1 T_ARRAY None;
                      sample_field JVM_ACC_STATIC T_DOUBLE None]].

Lemma sample_class_ok (contended : bool) (ds : list FieldDescription) (ks : list kind) :
  kind_of <$> ds = Some <$> ks -> zlen ks < 2 ^ 16 -> forallb (fun k => negb (late k) || (0 <=? group_of k) && (group_of k <? 70)) ks = true ->
  class_ok (sample_class contended ds) ks.
Proof.
  intros Hk Hl Hg. split; cbn [sample_class class_fields class_cp_size class_fresh].
  - clear -Hk. revert ks Hk. induction ds as [|d ds IH]; intros [|k ks] Hk; try done. injection Hk as Hd Hk. constructor; [done|]. by apply IH.
  - done.
  - lia.
  - split; [done|]. by repeat constructor.
  - intros k Hk' Hlate. rewrite forallb_forall in Hg. specialize (Hg k ltac:(by apply list_elem_of_In)). rewrite Hlate in Hg. cbn [negb orb] in Hg. lia.
Qed.

Lemma field_layout_witness :
  exists ks, create_klasses sample_config None sample_classes = Some ks /\ chain_ok sample_config [] None sample_classes ks.
Proof.
  apply (field_layout_correct sample_config sample_classes).
  - split; cbn; [by left|split; [lia|split; [by exists 3|by exists 3]]|split; [lia|by exists 12]|split; [lia|by exists 16]|exists 0; split; [lia|done]].
  - constructor; [|constructor; [|constructor]].
    + exists [{| k_type := NONSTATIC_DOUBLE; k_group := None |}; {| k_type := NONSTATIC_BYTE; k_group := None |};
              {| k_type := NONSTATIC_OOP; k_group := None |}; {| k_type := STATIC_OOP; k_group := None |};
              {| k_type := NONSTATIC_WORD; k_group := Some 5 |}]. by apply sample_class_ok.
    + exists [{| k_type := NONSTATIC_OOP; k_group := Some 5 |}; {| k_type := NONSTATIC_SHORT; k_group := Some 0 |};
              {| k_type := NONSTATIC_OOP; k_group := None |}; {| k_type := STATIC_DOUBLE; k_group := None |}]. by apply sample_class_ok.
  - vm_compute. done.
Defined.
