(* ===== verification/BlockOffsetTable.v ===== *)
(** The block offset tables of memory/blockOffsetTable.hpp, .inline.hpp and .cpp: a byte
    for each card of 512 bytes tells how to find the start of the block that covers the
    first word of the card.

    Addresses are byte addresses; a [HeapWord*] is a multiple of eight, and [p + n] in the
    source is [p + 8 * n] here.  [_offset_array] is the committed part of the array; an
    access outside of it has no result.  The size of a block is a parameter: it is a
    virtual method of the space that owns the table.  The model is that of a product
    build, where assertions and [verify_single_block] are empty; [check_all_cards], which
    consists of guarantees, has no result when one of them fails. *)

From S2P Require Import Prelude GlobalDefinitions VirtualSpace.

(** ** Definitions *)

Definition LogN : Z := 9.
Definition LogN_words : Z := LogN - LogHeapWordSize.
Definition N_words : Z := Z.shiftl 1 LogN_words.
Definition LogBase : Z := 4.
Definition N_powers : nat := 14.

(** *** [BlockOffsetSharedArray] *)

Record SharedArray := mkSharedArray {
  reserved_start : Z;
  _offset_array : list Z;
}.

Definition with_array (a : SharedArray) (entries : list Z) : SharedArray := mkSharedArray (reserved_start a) entries.

Definition index_for (a : SharedArray) (p : Z) : Z := Z.shiftr (pointer_delta p (reserved_start a) 1) LogN.
Definition address_for_index (a : SharedArray) (index : Z) : Z :=
  word_add (reserved_start a) (Z.shiftl index LogN_words).
Definition offset_array (a : SharedArray) (index : Z) : option Z := zget (_offset_array a) index.

Definition set_offset_array (a : SharedArray) (index offset : Z) : option SharedArray :=
  entries ← zset (_offset_array a) index (u8 offset); Some (with_array a entries).
Definition set_offset_array_between (a : SharedArray) (index high low : Z) : option SharedArray :=
  entries ← zset (_offset_array a) index (u8 (words_between high low)); Some (with_array a entries).

(** The loop of the two versions that set a number of entries. *)
Fixpoint set_entries (num_cards : nat) (a : SharedArray) (i offset : Z) : option SharedArray :=
  match num_cards with
  | O => Some a
  | S num_cards => a ← set_offset_array a i offset; set_entries num_cards a (i + 1) offset
  end.
Definition set_offset_array_cards (a : SharedArray) (left right offset : Z) : option SharedArray :=
  let num_cards := u64 (right - left + 1) in set_entries (Z.to_nat num_cards) a left offset.
Definition set_offset_array_region (a : SharedArray) (left right offset : Z) : option SharedArray :=
  let num_cards := Z.shiftr (words_between right left) LogN_words in
  set_entries (Z.to_nat num_cards) a (index_for a left) offset.

Definition is_card_boundary (a : SharedArray) (p : Z) : bool :=
  Z.land (words_between p (reserved_start a)) (right_n_bits LogN_words) =? 0.

(** *** [BlockOffsetArray] *)

Definition power_to_cards_back (i : Z) : Z := u64 (Z.shiftl 1 (LogBase * i)).
Definition entry_to_cards_back (entry : Z) : Z := power_to_cards_back (entry - N_words).

(** The loop over the powers; [fuel] is [N_powers - i]. *)
Fixpoint remainder_loop (fuel : nat) (i start_card end_card start_card_for_region : Z) (a : SharedArray) : option SharedArray :=
  match fuel with
  | O => Some a
  | S fuel =>
      let reach := start_card - 1 + (power_to_cards_back (i + 1) - 1) in
      let offset := u8 (N_words + i) in
      if end_card <=? reach then set_offset_array_cards a start_card_for_region end_card offset
      else
        a ← set_offset_array_cards a start_card_for_region reach offset;
        remainder_loop fuel (i + 1) start_card end_card (reach + 1) a
  end.

Definition set_remainder_to_point_to_start_incl (a : SharedArray) (start_card end_card : Z) : option SharedArray :=
  if end_card <? start_card then Some a else remainder_loop N_powers 0 start_card end_card start_card a.

Definition set_remainder_to_point_to_start (a : SharedArray) (start fin : Z) : option SharedArray :=
  if fin <=? start then Some a
  else set_remainder_to_point_to_start_incl a (index_for a start) (index_for a (word_add fin (-1))).

(** The guarantees of [check_all_cards]; [n] cards from [c] on. *)
Definition guarantee (b : bool) : option () := if b then Some () else None.

Fixpoint check_cards_loop (n : nat) (a : SharedArray) (start_card c last_entry : Z) : option () :=
  match n with
  | O => Some ()
  | S n =>
      entry ← offset_array a c;
      guarantee (last_entry <=? entry) ≫= fun _ =>
      guarantee (negb (power_to_cards_back 1 <? c - start_card) || (N_words <? entry)) ≫= fun _ =>
      let backskip := entry_to_cards_back entry in
      let landing_card := u64 (c - backskip) in
      guarantee (start_card - 1 <=? landing_card) ≫= fun _ =>
      landing ← offset_array a landing_card;
      guarantee (if start_card <=? landing_card then landing <=? entry
                 else (landing_card =? start_card - 1) && (landing <=? N_words)) ≫= fun _ =>
      check_cards_loop n a start_card (c + 1) entry
  end.

Definition check_all_cards (a : SharedArray) (start_card end_card : Z) : option () :=
  if end_card <? start_card then Some ()
  else
    entry ← offset_array a start_card;
    guarantee (entry =? N_words) ≫= fun _ =>
    check_cards_loop (Z.to_nat (end_card - start_card)) a start_card (start_card + 1) N_words.

Record BlockOffsetArray := mkBOT {
  _array : SharedArray;
  _bottom : Z;
  _end : Z;
  _init_to_zero : bool;
}.

Definition set_array (t : BlockOffsetArray) (a : SharedArray) : BlockOffsetArray := mkBOT a (_bottom t) (_end t) (_init_to_zero t).

Definition new_BlockOffsetArray (array : SharedArray) (start fin : Z) (init_to_zero : bool) : option BlockOffsetArray :=
  array ← (if negb init_to_zero then
             array ← set_remainder_to_point_to_start array (word_add start N_words) fin;
             set_offset_array array 0 0
           else Some array);
  Some (mkBOT array start fin init_to_zero).

Definition resize (t : BlockOffsetArray) (new_word_size : Z) : option BlockOffsetArray :=
  let new_end := word_add (_bottom t) new_word_size in
  array ← (if (_end t <? new_end) && negb (_init_to_zero t)
           then set_offset_array_region (_array t) (_end t) new_end N_words else Some (_array t));
  Some (mkBOT array (_bottom t) new_end (_init_to_zero t)).

Inductive Action := Action_single | Action_mark | Action_check.

(** What [do_block_internal] does with the first card that starts in the block, the
    boundary of this card and the last card. *)
Definition block_action (t : BlockOffsetArray) (blk_start start_index end_index boundary : Z) (action : Action)
    : option SharedArray :=
  let single :=
    a ← set_offset_array_between (_array t) start_index boundary blk_start;
    if start_index <? end_index then
      let rem_st := word_add (address_for_index a start_index) N_words in
      let rem_end := word_add (address_for_index a end_index) N_words in
      set_remainder_to_point_to_start a rem_st rem_end
    else Some a in
  match action with
  | Action_mark => if _init_to_zero t then set_offset_array_between (_array t) start_index boundary blk_start else single
  | Action_single => single
  | Action_check => check_all_cards (_array t) (start_index + 1) end_index ≫= fun _ => Some (_array t)
  end.

Definition do_block_internal (t : BlockOffsetArray) (blk_start blk_end : Z) (action : Action) : option BlockOffsetArray :=
  let end_ui := word_add blk_end (-1) in
  let boundary_before_end := clear_bits end_ui (right_n_bits LogN) in
  if blk_start <=? boundary_before_end then
    let start_index := index_for (_array t) blk_start in
    let end_index := index_for (_array t) (word_add blk_end (-1)) in
    let boundary := address_for_index (_array t) start_index in
    let '(boundary, start_index) :=
      if negb (blk_start =? boundary) then (word_add boundary N_words, start_index + 1) else (boundary, start_index) in
    a ← block_action t blk_start start_index end_index boundary action;
    Some (set_array t a)
  else Some t.

Definition single_block (t : BlockOffsetArray) (blk_start blk_end : Z) : option BlockOffsetArray :=
  do_block_internal t blk_start blk_end Action_single.
Definition mark_block (t : BlockOffsetArray) (blk_start blk_end : Z) : option BlockOffsetArray :=
  do_block_internal t blk_start blk_end Action_mark.

(** The walk over blocks from [n] on to the one that covers [addr]. *)
Fixpoint walk_blocks (fuel : nat) (block_size : Z -> Z) (addr q n : Z) : option Z :=
  if n <=? addr then
    match fuel with
    | O => None
    | S fuel => walk_blocks fuel block_size addr n (word_add n (block_size n))
    end
  else Some q.

(** *** [BlockOffsetArrayNonContigSpace] *)

Record NonContigSpace := mkNonContig {
  nc_table : BlockOffsetArray;
  _unallocated_block : Z;
}.

Definition with_table (s : NonContigSpace) (t : BlockOffsetArray) : NonContigSpace := mkNonContig t (_unallocated_block s).

(** The back steps over cards from the entry [offset] of the card [index], whose address
    is [q]: the address of the card they end at, and its entry. *)
Fixpoint cards_back_loop (fuel : nat) (a : SharedArray) (index q offset : Z) : option (Z * Z) :=
  if N_words <=? offset then
    match fuel with
    | O => None
    | S fuel =>
        let n_cards_back := entry_to_cards_back offset in
        let q := word_add q (- (N_words * n_cards_back)) in
        let index := u64 (index - n_cards_back) in
        offset ← offset_array a index;
        cards_back_loop fuel a index q offset
    end
  else Some (q, offset).

(** The parts of a block that [split_block] changes: the remainder of the first power
    block that is longer than the prefix. *)
Fixpoint split_first_loop (fuel : nat) (a : SharedArray) (suff_index end_index num_pref_cards i : Z) (more : bool)
    : option (SharedArray * Z * bool) :=
  if more && (i <? Z.of_nat N_powers) then
    match fuel with
    | O => None
    | S fuel =>
        let back_by := power_to_cards_back i in
        let right_index := suff_index + back_by - 1 in
        let left_index := u64 (right_index - num_pref_cards + 1) in
        let '(right_index, more) := if end_index - 1 <=? right_index then (end_index - 1, false) else (right_index, more) in
        if num_pref_cards <? back_by then
          '(a, more) ← (if left_index <=? right_index
                        then a ← set_offset_array_cards a left_index right_index (u8 (N_words + i - 1)); Some (a, more)
                        else Some (a, false));
          Some (a, i + 1, more)
        else split_first_loop fuel a suff_index end_index num_pref_cards (i + 1) more
    end
  else Some (a, i, more).

(** The last cards of the longer power blocks. *)
Fixpoint split_rest_loop (fuel : nat) (a : SharedArray) (suff_index end_index num_pref_cards i : Z) (more : bool)
    : option SharedArray :=
  if more && (i <? Z.of_nat N_powers) then
    match fuel with
    | O => None
    | S fuel =>
        let back_by := power_to_cards_back i in
        let right_index := suff_index + back_by - 1 in
        let left_index := u64 (right_index - num_pref_cards + 1) in
        if end_index - 1 <=? right_index then
          let right_index := end_index - 1 in
          if right_index <? left_index then Some a
          else
            a ← set_offset_array_cards a left_index right_index (u8 (N_words + i - 1));
            split_rest_loop fuel a suff_index end_index num_pref_cards (i + 1) false
        else
          a ← set_offset_array_cards a left_index right_index (u8 (N_words + i - 1));
          split_rest_loop fuel a suff_index end_index num_pref_cards (i + 1) more
    end
  else Some a.

(** The index of the first card that starts at [addr] or behind it. *)
Definition first_card (a : SharedArray) (addr : Z) : Z :=
  let index := index_for a addr in
  if negb (address_for_index a index =? addr) then index + 1 else index.

Definition split_cards (a : SharedArray) (pref_index suff_index end_index suff_addr : Z) : option SharedArray :=
  let num_pref_cards := u64 (suff_index - pref_index) in
  let num_suff_cards := u64 (end_index - suff_index) in
  if 0 <? num_suff_cards then
    let boundary := address_for_index a suff_index in
    a ← set_offset_array_between a suff_index boundary suff_addr;
    if 0 <? num_pref_cards then
      if num_suff_cards <=? num_pref_cards
      then set_remainder_to_point_to_start_incl a (suff_index + 1) (end_index - 1)
      else
        a ← set_remainder_to_point_to_start_incl a (suff_index + 1) (suff_index + num_pref_cards - 1);
        '(a, i, more) ← split_first_loop N_powers a suff_index end_index num_pref_cards 1 true;
        split_rest_loop N_powers a suff_index end_index num_pref_cards i more
    else Some a
  else Some a.

Definition split_block (s : NonContigSpace) (blk blk_size left_blk_size : Z) : option NonContigSpace :=
  let a := _array (nc_table s) in
  let pref_addr := blk in
  let suff_addr := word_add blk left_blk_size in
  let end_addr := word_add blk blk_size in
  let pref_index := first_card a pref_addr in
  let suff_index := first_card a suff_addr in
  let end_index := index_for a (word_add end_addr (-1)) + 1 in
  a ← split_cards a pref_index suff_index end_index suff_addr;
  Some (with_table s (set_array (nc_table s) a)).

Section NonContig.
Context (BlockOffsetArrayUseUnallocatedBlock : bool).

Definition new_NonContigSpace (array : SharedArray) (start fin : Z) : option NonContigSpace :=
  t ← new_BlockOffsetArray array start fin false; Some (mkNonContig t (_bottom t)).

Definition allocated (s : NonContigSpace) (blk_start blk_end : Z) : NonContigSpace :=
  if BlockOffsetArrayUseUnallocatedBlock
  then mkNonContig (nc_table s) (Z.max (_unallocated_block s) blk_end) else s.

Definition freed (s : NonContigSpace) (blk_start blk_end : Z) : NonContigSpace :=
  if BlockOffsetArrayUseUnallocatedBlock then
    if (_unallocated_block s <=? blk_end) && (blk_start <=? _unallocated_block s)
    then mkNonContig (nc_table s) blk_start else s
  else s.

Definition alloc_block (s : NonContigSpace) (blk_start blk_end : Z) : option NonContigSpace :=
  t ← single_block (nc_table s) blk_start blk_end;
  Some (allocated (with_table s t) blk_start blk_end).

Definition block_start_unsafe (s : NonContigSpace) (block_size : Z -> Z) (addr : Z) : option Z :=
  let a := _array (nc_table s) in
  let ub := _unallocated_block s in
  if BlockOffsetArrayUseUnallocatedBlock && (ub <=? addr) then Some ub
  else
    let index := index_for a addr in
    let q := address_for_index a index in
    offset ← offset_array a index;
    '(q, offset) ← cards_back_loop (Z.to_nat index) a index q offset;
    let q := word_add q (- offset) in
    walk_blocks (Z.to_nat (words_between addr q) + 1) block_size addr q q.

Definition block_start (s : NonContigSpace) (block_size : Z -> Z) (addr : Z) : option Z :=
  if (_bottom (nc_table s) <=? addr) && (addr <? _end (nc_table s)) then block_start_unsafe s block_size addr
  else Some 0.

Definition block_start_careful (s : NonContigSpace) (addr : Z) : option Z :=
  let a := _array (nc_table s) in
  let ub := _unallocated_block s in
  if BlockOffsetArrayUseUnallocatedBlock && (ub <=? addr) then Some ub
  else
    let index := index_for a addr in
    offset ← offset_array a index;
    '(q, offset) ← cards_back_loop (Z.to_nat index) a index addr offset;
    Some (word_add q (- offset)).

Definition last_active_index (s : NonContigSpace) : Z :=
  if _unallocated_block s =? _bottom (nc_table s) then 0
  else index_for (_array (nc_table s)) (word_add (_unallocated_block s) (-1)).
End NonContig.

(** *** [BlockOffsetArrayContigSpace] *)

Record ContigSpace := mkContig {
  c_table : BlockOffsetArray;
  _next_offset_threshold : Z;
  _next_offset_index : Z;
}.

Definition new_ContigSpace (array : SharedArray) (start fin : Z) : option ContigSpace :=
  t ← new_BlockOffsetArray array start fin true; Some (mkContig t 0 0).

Definition initialize_threshold (s : ContigSpace) : ContigSpace :=
  let a := _array (c_table s) in
  let index := index_for a (_bottom (c_table s)) + 1 in
  mkContig (c_table s) (address_for_index a index) index.

Definition zero_bottom_entry (s : ContigSpace) : option ContigSpace :=
  let a := _array (c_table s) in
  a ← set_offset_array a (index_for a (_bottom (c_table s))) 0;
  Some (mkContig (set_array (c_table s) a) (_next_offset_threshold s) (_next_offset_index s)).

Definition alloc_block_work (s : ContigSpace) (blk_start blk_end : Z) : option ContigSpace :=
  a ← set_offset_array_between (_array (c_table s)) (_next_offset_index s) (_next_offset_threshold s) blk_start;
  let end_index := index_for a (word_add blk_end (-1)) in
  a ← (if _next_offset_index s + 1 <=? end_index then
         let rem_st := address_for_index a (_next_offset_index s + 1) in
         let rem_end := word_add (address_for_index a end_index) N_words in
         set_remainder_to_point_to_start a rem_st rem_end
       else Some a);
  Some (mkContig (set_array (c_table s) a) (word_add (address_for_index a end_index) N_words) (end_index + 1)).

Definition contig_alloc_block (s : ContigSpace) (blk_start blk_end : Z) : option ContigSpace :=
  if _next_offset_threshold s <? blk_end then alloc_block_work s blk_start blk_end else Some s.

(** The loops of [block_start_unsafe]: over the powers, and over the single cards. *)
Fixpoint powers_back_loop (fuel : nat) (a : SharedArray) (index q offset : Z) : option (Z * Z * Z) :=
  if N_words <? offset then
    match fuel with
    | O => None
    | S fuel =>
        let n_cards_back := entry_to_cards_back offset in
        let q := word_add q (- (N_words * n_cards_back)) in
        let index := u64 (index - n_cards_back) in
        offset ← offset_array a index;
        powers_back_loop fuel a index q offset
    end
  else Some (index, q, offset).
Fixpoint single_back_loop (fuel : nat) (a : SharedArray) (index q offset : Z) : option (Z * Z) :=
  if offset =? N_words then
    match fuel with
    | O => None
    | S fuel =>
        let q := word_add q (- N_words) in
        let index := u64 (index - 1) in
        offset ← offset_array a index;
        single_back_loop fuel a index q offset
    end
  else Some (q, offset).

Definition contig_block_start_unsafe (s : ContigSpace) (block_size : Z -> Z) (addr : Z) : option Z :=
  let a := _array (c_table s) in
  let index := Z.min (index_for a addr) (u64 (_next_offset_index s - 1)) in
  let q := address_for_index a index in
  offset ← offset_array a index;
  '(index, q, offset) ← powers_back_loop (Z.to_nat index) a index q offset;
  '(q, offset) ← single_back_loop (Z.to_nat index) a index q offset;
  let q := word_add q (- offset) in
  walk_blocks (Z.to_nat (words_between addr q) + 1) block_size addr q q.

Definition contig_block_start (s : ContigSpace) (block_size : Z -> Z) (addr : Z) : option Z :=
  if (_bottom (c_table s) <=? addr) && (addr <? _end (c_table s)) then contig_block_start_unsafe s block_size addr
  else Some 0.

Definition contig_last_active_index (s : ContigSpace) : Z :=
  let result := u64 (_next_offset_index s - 1) in if 0 <=? result then result else 0.
