(* ===== verification/BlockOffsetTableCorrect.v ===== *)
(** What the block offset tables give: the start of the block that covers an address,
    after every sequence of operations. *)

From Stdlib Require Import Sorted.
From S2P Require Import Prelude GlobalDefinitions VirtualSpace BlockOffsetTable.

(** ** Cards *)

Lemma N_words_eq : N_words = 64.
Proof. done. Qed.

Lemma power_to_cards_back_eq (i : Z) : 0 <= i <= 15 -> power_to_cards_back i = 16 ^ i.
Proof.
  intros Hi. unfold power_to_cards_back, LogBase. rewrite Z.shiftl_mul_pow2, Z.mul_1_l by lia.
  rewrite Z.pow_mul_r by lia. change (2 ^ 4) with 16. apply umod_id.
  pose proof (Z.pow_le_mono_r 16 i 15 ltac:(lia) ltac:(lia)). pose proof (Z.pow_pos_nonneg 16 i ltac:(lia) ltac:(lia)).
  change (16 ^ 15) with (2 ^ 60) in *. pow2_norm. lia.
Qed.

Lemma entry_to_cards_back_eq (e : Z) : 64 <= e < 78 -> entry_to_cards_back e = 16 ^ (e - 64).
Proof. intros He. unfold entry_to_cards_back. rewrite N_words_eq. apply power_to_cards_back_eq. lia. Qed.

(** The power of 16 below a distance. *)
Definition log16 (d : Z) : Z := Z.log2 d / 4.

Lemma log16_spec (d k : Z) : 0 <= k -> 16 ^ k <= d < 16 ^ (k + 1) -> log16 d = k.
Proof.
  intros Hk Hd. unfold log16. change 16 with (2 ^ 4) in Hd. rewrite <- !Z.pow_mul_r in Hd by lia.
  assert (0 < d) by (pose proof (Z.pow_pos_nonneg 2 (4 * k)); lia).
  assert (4 * k <= Z.log2 d) by (apply Z.log2_le_pow2; lia).
  assert (Z.log2 d < 4 * (k + 1)) by (apply Z.log2_lt_pow2; lia).
  pose proof (Z.div_mod (Z.log2 d) 4 ltac:(lia)). pose proof (Z.mod_pos_bound (Z.log2 d) 4 ltac:(lia)). lia.
Qed.

Lemma log16_bounds (d : Z) : 0 < d -> 0 <= log16 d /\ 16 ^ log16 d <= d < 16 ^ (log16 d + 1).
Proof.
  intros Hd. unfold log16. destruct (Z.log2_spec d Hd) as [H1 H2]. pose proof (Z.log2_nonneg d).
  pose proof (Z.div_mod (Z.log2 d) 4 ltac:(lia)). pose proof (Z.mod_pos_bound (Z.log2 d) 4 ltac:(lia)).
  split; [apply Z.div_pos; lia|]. set (k := Z.log2 d / 4) in *. change 16 with (2 ^ 4). rewrite <- !Z.pow_mul_r by lia.
  split; [transitivity (2 ^ Z.log2 d); [apply Z.pow_le_mono_r; lia|lia]|].
  apply Z.lt_le_trans with (2 ^ Z.succ (Z.log2 d)); [lia|]. apply Z.pow_le_mono_r; lia.
Qed.

Section Table.
Context (R : Z) (HR : 0 <= R < 2 ^ 62) (HR512 : (512 | R)).

(** The address of a card, and the first card that starts at an address or behind it. *)
Definition card (c : Z) : Z := R + 512 * c.
Definition fc (p : Z) : Z := (p - R + 511) / 512.

Lemma fc_spec (p c : Z) : fc p <= c <-> p <= card c.
Proof using.
  unfold fc, card. pose proof (Z.div_mod (p - R + 511) 512 ltac:(lia)). pose proof (Z.mod_pos_bound (p - R + 511) 512 ltac:(lia)). lia.
Qed.

Lemma fc_mono (p q : Z) : p <= q -> fc p <= fc q.
Proof using. intros Hpq. unfold fc. apply Z.div_le_mono; lia. Qed.

Lemma card_fc (p : Z) : p <= card (fc p) < p + 512.
Proof using.
  unfold fc, card. pose proof (Z.div_mod (p - R + 511) 512 ltac:(lia)). pose proof (Z.mod_pos_bound (p - R + 511) 512 ltac:(lia)). lia.
Qed.

Context (a : SharedArray) (Ha : reserved_start a = R).

Lemma index_for_eq (p : Z) : R <= p < 2 ^ 63 -> index_for a p = (p - R) / 512.
Proof using Ha HR.
  intros Hp. unfold index_for, pointer_delta. rewrite Ha, umod_id by (pow2_norm; lia). rewrite Z.div_1_r, Z.shiftr_div_pow2 by done. done.
Qed.

Lemma address_for_index_eq (c : Z) : address_for_index a c = card c.
Proof using Ha.
  unfold address_for_index, word_add, HeapWordSize, card. rewrite Ha, Z.shiftl_mul_pow2 by done. change (2 ^ LogN_words) with 64. lia.
Qed.

(** The card before an address. *)
Lemma last_card (p : Z) : R < p < 2 ^ 63 -> (8 | p) -> index_for a (word_add p (-1)) = fc p - 1.
Proof using Ha HR HR512.
  intros Hp [x Hx]. destruct HR512 as [y Hy]. unfold word_add, HeapWordSize. rewrite index_for_eq by lia. unfold fc.
  replace (p - R + 511) with (p + 8 * -1 - R + 7 + 1 * 512) by lia. rewrite Z.div_add by lia.
  assert ((p + 8 * -1 - R + 7) / 512 = (p + 8 * -1 - R) / 512); [|lia].
  pose proof (Z.div_mod (p + 8 * -1 - R + 7) 512 ltac:(lia)). pose proof (Z.mod_pos_bound (p + 8 * -1 - R + 7) 512 ltac:(lia)).
  pose proof (Z.div_mod (p + 8 * -1 - R) 512 ltac:(lia)). pose proof (Z.mod_pos_bound (p + 8 * -1 - R) 512 ltac:(lia)). lia.
Qed.

Lemma first_card_eq (p : Z) : R <= p < 2 ^ 63 -> first_card a p = fc p.
Proof using Ha HR.
  intros Hp. unfold first_card. rewrite index_for_eq, address_for_index_eq by lia. unfold fc, card.
  pose proof (Z.div_mod (p - R + 511) 512 ltac:(lia)). pose proof (Z.mod_pos_bound (p - R + 511) 512 ltac:(lia)).
  pose proof (Z.div_mod (p - R) 512 ltac:(lia)). pose proof (Z.mod_pos_bound (p - R) 512 ltac:(lia)).
  destruct (Z.eqb_spec (R + 512 * ((p - R) / 512)) p); cbn [negb]; lia.
Qed.
End Table.

(** ** Entries *)

Definition entry (a : SharedArray) (c : Z) : option Z := zget (_offset_array a) c.

(** [a'] is [a] with the entries of the cards of a range given by [f]. *)
Definition updated (a a' : SharedArray) (lo hi : Z) (f : Z -> Z) : Prop :=
  reserved_start a' = reserved_start a /\ zlen (_offset_array a') = zlen (_offset_array a) /\
  (forall c, lo <= c < hi -> entry a' c = Some (f c)) /\ (forall c, ~ lo <= c < hi -> entry a' c = entry a c).

Lemma updated_refl (a : SharedArray) (lo hi : Z) (f : Z -> Z) : hi <= lo -> updated a a lo hi f.
Proof. intros Hh. split; [done|]. split; [done|]. split; [lia|done]. Qed.

Lemma updated_ext (a a' : SharedArray) (lo hi : Z) (f g : Z -> Z) :
  (forall c, lo <= c < hi -> f c = g c) -> updated a a' lo hi f -> updated a a' lo hi g.
Proof. intros Hfg (H1 & H2 & H3 & H4). split; [done|]. split; [done|]. split; [|done]. intros c Hc. by rewrite H3, Hfg. Qed.

Lemma updated_trans (a a1 a2 : SharedArray) (lo mid hi : Z) (f : Z -> Z) :
  lo <= mid <= hi -> updated a a1 lo mid f -> updated a1 a2 mid hi f -> updated a a2 lo hi f.
Proof.
  intros Hm (S1 & L1 & I1 & O1) (S2 & L2 & I2 & O2). split; [congruence|]. split; [congruence|]. split.
  - intros c Hc. destruct (Z.lt_ge_cases c mid); [rewrite O2, I1 by lia; done|by apply I2; lia].
  - intros c Hc. by rewrite O2, O1 by lia.
Qed.

Lemma zset_in {A} (l : list A) (i : Z) (x : A) : 0 <= i < zlen l -> exists l', zset l i x = Some l'.
Proof. intros Hi. unfold zset. rewrite bool_decide_true by lia. by eexists. Qed.

Lemma entry_in (a : SharedArray) (c : Z) : 0 <= c < zlen (_offset_array a) -> exists e, entry a c = Some e.
Proof. intros Hc. unfold entry, zget. case_bool_decide; [|lia]. destruct (lookup_lt_is_Some_2 (_offset_array a) (Z.to_nat c)) as [e He]; [lia|by exists e]. Qed.

Lemma set_entry_ok (a : SharedArray) (c v : Z) :
  0 <= c < zlen (_offset_array a) -> 0 <= v < 256 ->
  exists a', set_offset_array a c v = Some a' /\ updated a a' c (c + 1) (fun _ => v).
Proof.
  intros Hc Hv. unfold set_offset_array. rewrite umod_id by (pow2_norm; lia).
  destruct (zset_in (_offset_array a) c v Hc) as [l Hl]. rewrite Hl. eexists. split; [done|].
  split; [done|]. cbn [with_array _offset_array]. split; [by rewrite (zset_length _ _ _ _ Hl)|].
  unfold entry. cbn [with_array _offset_array]. split; intros j Hj; rewrite (zget_zset _ _ _ _ _ Hl).
  - by rewrite bool_decide_true by lia.
  - by rewrite bool_decide_false by lia.
Qed.

Lemma set_between_ok (a : SharedArray) (c high low : Z) :
  0 <= c < zlen (_offset_array a) -> 0 <= low <= high -> high < 2 ^ 63 -> (high - low) / 8 <= 64 ->
  exists a', set_offset_array_between a c high low = Some a' /\ updated a a' c (c + 1) (fun _ => (high - low) / 8).
Proof.
  intros Hc Hl Hh Hd. pose proof (Z.div_pos (high - low) 8 ltac:(lia) ltac:(lia)).
  destruct (set_entry_ok a c ((high - low) / 8) Hc ltac:(lia)) as (a' & He & Hu). exists a'. split; [|done].
  unfold set_offset_array_between. rewrite words_between_eq by lia. exact He.
Qed.

Lemma set_entries_ok (n : nat) (a : SharedArray) (i v : Z) :
  0 <= i -> i + Z.of_nat n <= zlen (_offset_array a) -> 0 <= v < 256 ->
  exists a', set_entries n a i v = Some a' /\ updated a a' i (i + Z.of_nat n) (fun _ => v).
Proof.
  revert a i. induction n as [|n IH]; intros a i Hi Hn Hv; cbn [set_entries].
  { exists a. split; [done|]. apply updated_refl. lia. }
  destruct (set_entry_ok a i v ltac:(lia) Hv) as (a1 & -> & H1). cbn [mbind option_bind].
  destruct (IH a1 (i + 1) ltac:(lia) ltac:(destruct H1 as (_ & -> & _); lia) Hv) as (a2 & -> & H2). exists a2. split; [done|].
  apply (updated_trans a a1 a2 i (i + 1)); [lia|done|]. by replace (i + Z.of_nat (S n)) with (i + 1 + Z.of_nat n) by lia.
Qed.

Lemma set_cards_ok (a : SharedArray) (left right v : Z) :
  0 <= left <= right + 1 -> right < zlen (_offset_array a) -> zlen (_offset_array a) < 2 ^ 63 -> 0 <= v < 256 ->
  exists a', set_offset_array_cards a left right v = Some a' /\ updated a a' left (right + 1) (fun _ => v).
Proof.
  intros Hl Hr Hlen Hv. unfold set_offset_array_cards. rewrite umod_id by (pow2_norm; lia).
  destruct (set_entries_ok (Z.to_nat (right - left + 1)) a left v ltac:(lia) ltac:(lia) Hv) as (a' & He & Hu). exists a'. split; [done|].
  by replace (right + 1) with (left + Z.of_nat (Z.to_nat (right - left + 1))) by lia.
Qed.

(** The entries of the cards behind the first card [f] of a block. *)
Definition back_entry (f c : Z) : Z := 64 + log16 (c - f).

Lemma remainder_loop_ok (fuel : nat) (i f hi : Z) (a : SharedArray) :
  0 <= i -> Z.of_nat fuel + i = 14 -> 0 <= f -> f + 16 ^ i <= hi -> hi < f + 16 ^ 14 -> hi < zlen (_offset_array a) -> zlen (_offset_array a) < 2 ^ 63 ->
  exists a', remainder_loop fuel i (f + 1) hi (f + 16 ^ i) a = Some a' /\ updated a a' (f + 16 ^ i) (hi + 1) (back_entry f).
Proof.
  revert i a. induction fuel as [|fuel IH]; intros i a Hi Hfuel Hf Hlo Hhi Hlen Hmax.
  { assert (i = 14) as -> by lia. lia. }
  cbn [remainder_loop]. rewrite power_to_cards_back_eq by lia. rewrite N_words_eq, umod_id by (pow2_norm; lia).
  assert (Hpow : 16 ^ (i + 1) = 16 * 16 ^ i) by (rewrite Z.pow_add_r by lia; lia).
  pose proof (Z.pow_pos_nonneg 16 i ltac:(lia) Hi) as Hpos.
  assert (Hval : forall c, f + 16 ^ i <= c < f + 16 ^ (i + 1) -> 64 + i = back_entry f c).
  { intros c Hc. unfold back_entry. rewrite (log16_spec (c - f) i) by lia. done. }
  destruct (Z.leb_spec hi (f + 1 - 1 + (16 ^ (i + 1) - 1))).
  - destruct (set_cards_ok a (f + 16 ^ i) hi (64 + i) ltac:(lia) ltac:(lia) Hmax ltac:(lia)) as (a' & -> & Hu). exists a'. split; [done|].
    eapply updated_ext; [|exact Hu]. intros c Hc. apply Hval. lia.
  - destruct (set_cards_ok a (f + 16 ^ i) (f + 1 - 1 + (16 ^ (i + 1) - 1)) (64 + i) ltac:(lia) ltac:(lia) Hmax ltac:(lia)) as (a1 & -> & Hu).
    cbn [mbind option_bind]. replace (f + 1 - 1 + (16 ^ (i + 1) - 1) + 1) with (f + 16 ^ (i + 1)) in * by lia.
    destruct Hu as (S1 & L1 & I1 & O1).
    destruct (IH (i + 1) a1 ltac:(lia) ltac:(lia) Hf ltac:(lia) Hhi ltac:(lia) ltac:(lia)) as (a2 & -> & Hu2). exists a2. split; [done|].
    apply (updated_trans a a1 a2 (f + 16 ^ i) (f + 16 ^ (i + 1))); [lia| |done]. split; [done|]. split; [done|]. split; [|done].
    intros c Hc. rewrite I1, (Hval c) by lia. done.
Qed.

Lemma remainder_ok (a : SharedArray) (f hi : Z) :
  0 <= f -> f <= hi -> hi < f + 16 ^ 14 -> hi < zlen (_offset_array a) -> zlen (_offset_array a) < 2 ^ 63 ->
  exists a', set_remainder_to_point_to_start_incl a (f + 1) hi = Some a' /\ updated a a' (f + 1) (hi + 1) (back_entry f).
Proof.
  intros Hf Hlo Hhi Hlen Hmax. unfold set_remainder_to_point_to_start_incl. destruct (Z.ltb_spec hi (f + 1)).
  { exists a. split; [done|]. apply updated_refl. lia. }
  pose proof (remainder_loop_ok 14 0 f hi a) as Hl. change (16 ^ 0) with 1 in Hl. apply Hl; lia.
Qed.

(** The entries of the cards a block starts. *)
Definition block_entry (R p c : Z) : Z := if c =? fc R p then (card R c - p) / 8 else back_entry (fc R p) c.

Section Blocks.
Context (R : Z) (HR : 0 <= R < 2 ^ 62) (HR512 : (512 | R)).

Lemma fc_nonneg (p : Z) : R <= p -> 0 <= fc R p.
Proof using. intros Hp. unfold fc. apply Z.div_pos; lia. Qed.

Lemma offset_bounds (p : Z) : (8 | p) -> 0 <= (card R (fc R p) - p) / 8 < 64.
Proof using.
  intros _. pose proof (card_fc R p). split; [apply Z.div_pos; lia|]. apply Z.div_lt_upper_bound; lia.
Qed.

Lemma block_action_ok (t : BlockOffsetArray) (p q : Z) (action : Action) :
  reserved_start (_array t) = R -> R <= p < q -> q < 2 ^ 62 -> (8 | p) -> (8 | q) ->
  fc R p < fc R q <= zlen (_offset_array (_array t)) -> zlen (_offset_array (_array t)) < 2 ^ 52 ->
  action = Action_single \/ (action = Action_mark /\ _init_to_zero t = false) ->
  exists a', block_action t p (fc R p) (fc R q - 1) (card R (fc R p)) action = Some a' /\
    updated (_array t) a' (fc R p) (fc R q) (block_entry R p).
Proof using HR HR512.
  intros Ha Hp Hq H8p H8q Hcards Hlen Hact. pose proof (card_fc R p) as Hcf. pose proof (fc_nonneg p ltac:(lia)) as Hf0. pow2_norm.
  pose proof (card_fc R q) as Hcg. unfold card in Hcg. set (f := fc R p) in *. set (g := fc R q) in *. pose proof (offset_bounds p H8p) as Hob. fold f in Hob.
  destruct (set_between_ok (_array t) f (card R f) p ltac:(lia) ltac:(lia) ltac:(pow2_norm; lia) ltac:(lia)) as (a1 & Hset & Hu1).
  assert (Hsingle : exists a', (if f <? g - 1 then set_remainder_to_point_to_start a1 (word_add (address_for_index a1 f) N_words)
      (word_add (address_for_index a1 (g - 1)) N_words) else Some a1) = Some a' /\ updated a1 a' (f + 1) g (back_entry f)).
  { destruct Hu1 as (S1 & L1 & _ & _). rewrite Ha in S1. destruct (Z.ltb_spec f (g - 1)).
    2: { exists a1. split; [done|]. apply updated_refl. lia. }
    rewrite !(address_for_index_eq R a1 S1), N_words_eq. unfold set_remainder_to_point_to_start, word_add, HeapWordSize.
    unfold card. destruct (Z.leb_spec (R + 512 * (g - 1) + 8 * 64) (R + 512 * f + 8 * 64)); [lia|].
    rewrite !(index_for_eq R HR a1 S1) by (pow2_norm; lia).
    replace (R + 512 * f + 8 * 64 - R) with ((f + 1) * 512) by lia. rewrite Z.div_mul by lia.
    replace (R + 512 * (g - 1) + 8 * 64 + 8 * -1 - R) with (504 + (g - 1) * 512) by lia. rewrite Z.div_add, Z.add_0_l by lia.
    destruct (remainder_ok a1 f (g - 1)) as (a' & He & Hu); try lia.
    exists a'. split; [done|]. by replace (g - 1 + 1) with g in Hu by lia. }
  destruct Hsingle as (a' & Hrem & Hu2). exists a'. split.
  - unfold block_action. destruct Hact as [->|[-> ->]]; rewrite Hset; cbn [mbind option_bind]; exact Hrem.
  - apply (updated_trans _ a1 a' f (f + 1)); [lia|eapply updated_ext; [|exact Hu1]|eapply updated_ext; [|exact Hu2]];
      intros c Hc; unfold block_entry; fold f.
    + assert (c = f) as -> by lia. by rewrite Z.eqb_refl.
    + destruct (Z.eqb_spec c f); [lia|done].
Qed.

Lemma boundary_before (q : Z) : R < q < 2 ^ 62 -> (8 | q) -> clear_bits (word_add q (-1)) (right_n_bits LogN) = card R (fc R q - 1).
Proof using HR HR512.
  intros Hq H8. pose proof (last_card R HR HR512 (mkSharedArray R []) eq_refl q ltac:(pow2_norm; lia) H8) as Hl.
  assert (R <= q - 8) by (destruct H8 as [x ?], HR512 as [y ?]; lia).
  unfold clear_bits. change (right_n_bits LogN) with (Z.ones 9).
  change (Z.ones 9) with (2 ^ 9 - 1). rewrite land_lnot_ones by lia. change (2 ^ 9) with 512.
  unfold word_add, HeapWordSize in *. rewrite (index_for_eq R HR (mkSharedArray R []) eq_refl) in Hl by (pow2_norm; lia). unfold card. rewrite <- Hl.
  destruct HR512 as [y Hy]. pose proof (Z.div_mod (q + 8 * -1 - R) 512 ltac:(lia)).
  assert ((q + 8 * -1) mod 512 = (q + 8 * -1 - R) mod 512); [|lia].
  rewrite Hy. replace (q + 8 * -1 - y * 512) with (q + 8 * -1 + (- y) * 512) by lia. by rewrite Z.mod_add by lia.
Qed.

Lemma do_block_eq (t : BlockOffsetArray) (p q : Z) (action : Action) :
  reserved_start (_array t) = R -> R <= p < q -> q < 2 ^ 62 -> (8 | q) ->
  do_block_internal t p q action =
    if fc R p <? fc R q then a ← block_action t p (fc R p) (fc R q - 1) (card R (fc R p)) action; Some (set_array t a) else Some t.
Proof using HR HR512.
  intros Ha Hp Hq H8q. unfold do_block_internal. rewrite boundary_before by (done || lia).
  destruct (Z.leb_spec p (card R (fc R q - 1))) as [Hc|Hc].
  - assert (Hlt : fc R p < fc R q) by (apply fc_spec in Hc; lia). destruct (Z.ltb_spec (fc R p) (fc R q)); [|lia].
    rewrite (last_card R HR HR512 _ Ha) by (done || pow2_norm; lia).
    pose proof (first_card_eq R HR (_array t) Ha p ltac:(pow2_norm; lia)) as Hfirst. unfold first_card in Hfirst.
    assert (Hif : (if negb (p =? address_for_index (_array t) (index_for (_array t) p))
        then (word_add (address_for_index (_array t) (index_for (_array t) p)) N_words, index_for (_array t) p + 1)
        else (address_for_index (_array t) (index_for (_array t) p), index_for (_array t) p)) = (card R (fc R p), fc R p)).
    { rewrite Z.eqb_sym. destruct (negb _) eqn:Hb; rewrite <- Hfirst; f_equal; rewrite !(address_for_index_eq R _ Ha); [|done].
      unfold word_add, card, HeapWordSize. rewrite N_words_eq. lia. }
    by rewrite Hif.
  - destruct (Z.ltb_spec (fc R p) (fc R q)) as [H'|]; [|done]. assert (H2 : fc R p <= fc R q - 1) by lia. apply fc_spec in H2. lia.
Qed.

Lemma do_block_ok (t : BlockOffsetArray) (p q : Z) (action : Action) :
  reserved_start (_array t) = R -> R <= p < q -> q < 2 ^ 62 -> (8 | p) -> (8 | q) ->
  fc R q <= zlen (_offset_array (_array t)) -> zlen (_offset_array (_array t)) < 2 ^ 52 ->
  action = Action_single \/ (action = Action_mark /\ _init_to_zero t = false) ->
  exists a', do_block_internal t p q action = Some (set_array t a') /\
    updated (_array t) a' (fc R p) (fc R q) (block_entry R p).
Proof using HR HR512.
  intros Ha Hp Hq H8p H8q Hcards Hlen Hact. rewrite do_block_eq by done. destruct (Z.ltb_spec (fc R p) (fc R q)).
  - destruct (block_action_ok t p q action Ha Hp Hq H8p H8q ltac:(lia) Hlen Hact) as (a' & -> & Hu). by exists a'.
  - exists (_array t). split; [by destruct t|]. by apply updated_refl.
Qed.

(** The entries [set_remainder_to_point_to_start_incl] stores pass [check_all_cards]. *)
Lemma log16_mono (d e : Z) : 0 < d <= e -> log16 d <= log16 e.
Proof using. intros Hd. unfold log16. apply Z.div_le_mono; [lia|]. apply Z.log2_le_mono. lia. Qed.

Lemma check_cards_ok (n : nat) (a : SharedArray) (f c last : Z) :
  0 <= f < c - 1 -> c + Z.of_nat n < 2 ^ 52 -> last = back_entry f (c - 1) -> (exists e, entry a f = Some e /\ e <= 64) ->
  (forall c', f < c' < c + Z.of_nat n -> entry a c' = Some (back_entry f c')) -> check_cards_loop n a (f + 1) c last = Some ().
Proof using.
  intros Hf Hc Hlast (e0 & Hf0 & He0) Hent. revert c last Hf Hc Hlast Hent. induction n as [|n IH]; intros c last Hf Hc Hlast Hent; [done|].
  cbn [check_cards_loop]. unfold offset_array. fold (entry a c). rewrite (Hent c) by lia. cbn [mbind option_bind]. pose proof (log16_mono (c - 1 - f) (c - f) ltac:(lia)) as Hm.
  destruct (log16_bounds (c - f) ltac:(lia)) as (L0 & L1 & L2). pow2_norm.
  assert (L14 : log16 (c - f) < 14).
  { destruct (Z.lt_ge_cases (log16 (c - f)) 14); [done|]. pose proof (Z.pow_le_mono_r 16 14 (log16 (c - f)) ltac:(lia) ltac:(lia)). lia. }
  rewrite entry_to_cards_back_eq by (unfold back_entry; lia). replace (back_entry f c - 64) with (log16 (c - f)) by (unfold back_entry; lia).
  pose proof (Z.pow_pos_nonneg 16 (log16 (c - f)) ltac:(lia) ltac:(lia)). rewrite (umod_id 64) by (pow2_norm; lia).
  assert (G1 : (last <=? back_entry f c) = true) by (apply Z.leb_le; unfold back_entry in *; lia).
  assert (G2 : negb (power_to_cards_back 1 <? c - (f + 1)) || (N_words <? back_entry f c) = true).
  { change (power_to_cards_back 1) with 16. destruct (Z.ltb_spec 16 (c - (f + 1))); [|done]. apply Z.ltb_lt. change N_words with 64.
    pose proof (log16_mono 16 (c - f) ltac:(lia)). change (log16 16) with 1 in *. unfold back_entry. lia. }
  assert (G3 : (f + 1 - 1 <=? c - 16 ^ log16 (c - f)) = true) by (apply Z.leb_le; lia).
  rewrite G1, G2, G3. cbn [guarantee mbind option_bind]. set (l := c - 16 ^ log16 (c - f)) in *. fold (entry a l).
  assert (G4 : exists e, entry a l = Some e /\ (if f + 1 <=? l then e <=? back_entry f c else (l =? f + 1 - 1) && (e <=? N_words)) = true).
  { destruct (Z.leb_spec (f + 1) l).
    - exists (back_entry f l). split; [apply Hent; lia|]. apply Z.leb_le. pose proof (log16_mono (l - f) (c - f) ltac:(lia)). unfold back_entry. lia.
    - exists e0. assert (l = f) as -> by lia. split; [done|]. apply andb_true_iff. split; [apply Z.eqb_eq; lia|]. by apply Z.leb_le. }
  destruct G4 as (e & -> & G4). cbn [mbind option_bind]. rewrite G4. cbn [guarantee mbind option_bind].
  apply IH; [lia|lia|by replace (c + 1 - 1) with c by lia|]. intros c' Hc'. apply Hent. lia.
Qed.

Lemma check_block_ok (t : BlockOffsetArray) (p q : Z) :
  reserved_start (_array t) = R -> R <= p < q -> q < 2 ^ 62 -> (8 | p) -> (8 | q) -> fc R q < 2 ^ 52 ->
  (fc R p < fc R q -> entry (_array t) (fc R p) = Some ((card R (fc R p) - p) / 8)) ->
  (forall c, fc R p < c < fc R q -> entry (_array t) c = Some (back_entry (fc R p) c)) -> do_block_internal t p q Action_check = Some t.
Proof using HR HR512.
  intros Ha Hp Hq H8p H8q Hlen Hfirst Hent. rewrite do_block_eq by done. destruct (Z.ltb_spec (fc R p) (fc R q)); [|done].
  unfold block_action, check_all_cards. pose proof (offset_bounds p H8p). pose proof (fc_nonneg p ltac:(lia)).
  destruct (Z.ltb_spec (fc R q - 1) (fc R p + 1)); [by destruct t|]. unfold offset_array. fold (entry (_array t) (fc R p + 1)). rewrite (Hent (fc R p + 1)) by lia.
  cbn [mbind option_bind]. assert (Hb : back_entry (fc R p) (fc R p + 1) = 64) by (unfold back_entry; by replace (fc R p + 1 - fc R p) with 1 by lia). rewrite Hb.
  cbn [guarantee mbind option_bind]. rewrite N_words_eq. cbn [Z.eqb Pos.eqb mbind option_bind]. rewrite check_cards_ok; [by destruct t|lia|lia| | |].
  - by rewrite <- Hb, Z.add_simpl_r.
  - eexists. split; [by apply Hfirst|lia].
  - intros c' Hc'. apply Hent. lia.
Qed.
End Blocks.

(** ** Blocks *)

(** Two neighbours in a list of boundaries are a block. *)
Definition adj (bs : list Z) (x y : Z) : Prop := exists l1 l2, bs = l1 ++ x :: y :: l2.

(** Boundaries of the blocks that fill the range from [lo] to [hi]. *)
Record tiling (bs : list Z) (lo hi : Z) : Prop := {
  tiling_sorted : StronglySorted Z.lt bs;
  tiling_first : head bs = Some lo;
  tiling_last : list.last bs = Some hi;
  tiling_words : Forall (fun x => (8 | x)) bs;
}.

Lemma adj_cons (b x y : Z) (bs : list Z) : adj bs x y -> adj (b :: bs) x y.
Proof. intros (l1 & l2 & ->). by exists (b :: l1), l2. Qed.

Lemma sorted_cons_last (x hi : Z) (bs : list Z) : StronglySorted Z.lt (x :: bs) -> list.last (x :: bs) = Some hi -> x <= hi.
Proof.
  intros [Hs Hx]%StronglySorted_inv Hl. destruct bs as [|y bs]; [injection Hl as ->; lia|].
  rewrite last_cons_cons in Hl. apply last_Some_elem_of in Hl. rewrite list.Forall_forall in Hx. specialize (Hx hi Hl). lia.
Qed.

(** The block of an address, from some boundary on. *)
Lemma block_of (bs : list Z) (x p hi : Z) :
  StronglySorted Z.lt (x :: bs) -> list.last (x :: bs) = Some hi -> x <= p < hi -> exists u v, adj (x :: bs) u v /\ u <= p < v.
Proof.
  revert x. induction bs as [|y bs IH]; intros x Hs Hl Hp; [injection Hl as ->; lia|].
  destruct (Z.lt_ge_cases p y); [exists x, y; split; [by exists [], bs|lia]|].
  apply StronglySorted_inv in Hs as [Hs Hx]. rewrite last_cons_cons in Hl.
  destruct (IH y Hs Hl ltac:(lia)) as (u & v & Ha & Huv). exists u, v. split; [by apply adj_cons|done].
Qed.

Lemma adj_elem (bs : list Z) (x y : Z) : adj bs x y -> x ∈ bs /\ y ∈ bs.
Proof. intros (l1 & l2 & ->). split; apply elem_of_app; right; [apply list_elem_of_here|apply list_elem_of_further, list_elem_of_here]. Qed.

Lemma sorted_app_inv (l1 l2 : list Z) :
  StronglySorted Z.lt (l1 ++ l2) -> StronglySorted Z.lt l1 /\ StronglySorted Z.lt l2 /\ (forall x y, x ∈ l1 -> y ∈ l2 -> x < y).
Proof.
  induction l1 as [|z l1 IH]; cbn [app]; intros Hs; [split; [constructor|split; [done|intros x y []%elem_of_nil]]|].
  apply StronglySorted_inv in Hs as [Hs Hz]. destruct (IH Hs) as (H1 & H2 & H3). apply Forall_app in Hz as [Hz1 Hz2].
  split; [by constructor|]. split; [done|]. intros x y Hx Hy. apply elem_of_cons in Hx as [->|Hx]; [|by apply H3].
  rewrite list.Forall_forall in Hz2. by apply Hz2.
Qed.

Lemma adj_lt (bs : list Z) (x y : Z) : StronglySorted Z.lt bs -> adj bs x y -> x < y.
Proof.
  intros Hs (l1 & l2 & ->). destruct (sorted_app_inv _ _ Hs) as (_ & Hs2 & _). apply StronglySorted_inv in Hs2 as [_ Hx].
  by apply list.Forall_cons in Hx as [? _].
Qed.

(** Two blocks of a tiling are equal or apart. *)
Lemma adj_apart (bs : list Z) (x y u v : Z) :
  StronglySorted Z.lt bs -> adj bs x y -> adj bs u v -> x = u /\ y = v \/ y <= u \/ v <= x.
Proof.
  intros Hs (l1 & l2 & Hxy) (m1 & m2 & Huv). rewrite Hxy in Huv. rewrite Hxy in Hs.
  destruct (app_eq_inv _ _ _ _ Huv) as [(k & H1 & H2)|(k & H1 & H2)].
  - destruct k as [|z k]; cbn [app] in H2; [left; by injection H2 as <- <- _|]. right.
    injection H2 as -> H2. right. subst l1. rewrite <- app_assoc in Hs. cbn [app] in Hs.
    destruct (sorted_app_inv _ _ Hs) as (_ & Hs2 & _). apply StronglySorted_inv in Hs2 as [Hs2 _].
    destruct k as [|w k]; cbn [app] in H2; [injection H2 as <- _; lia|]. injection H2 as <- H2. cbn [app] in Hs2.
    apply StronglySorted_inv in Hs2 as [_ Hy]. rewrite list.Forall_forall in Hy. apply Z.lt_le_incl, Hy, elem_of_app. right. apply list_elem_of_here.
  - destruct k as [|z k]; cbn [app] in H2; [left; by injection H2 as <- <- _|]. right.
    injection H2 as -> H2. left. subst m1. destruct k as [|w k]; cbn [app] in H2; [injection H2 as -> _; lia|].
    injection H2 as <- H2. rewrite H2 in Hs. destruct (sorted_app_inv _ _ Hs) as (_ & Hs2 & _). apply StronglySorted_inv in Hs2 as [Hs2 _].
    apply StronglySorted_inv in Hs2 as [_ Hy]. rewrite list.Forall_forall in Hy. apply Z.lt_le_incl, Hy, elem_of_app. right. apply list_elem_of_here.
Qed.

(** The walk over the blocks. *)
Lemma walk_blocks_ok (block_size : Z -> Z) (all bs : list Z) (fuel : nat) (x p hi prev : Z) :
  (forall u v, adj all u v -> block_size u = (v - u) / 8) -> Forall (fun b => (8 | b)) all ->
  (forall u v, adj (x :: bs) u v -> adj all u v) ->
  StronglySorted Z.lt (x :: bs) -> list.last (x :: bs) = Some hi -> x <= p < hi -> (p - x) / 8 < Z.of_nat fuel ->
  exists u v, walk_blocks fuel block_size p prev x = Some u /\ adj all u v /\ u <= p < v.
Proof.
  intros Hsize Hw. revert fuel x prev. induction bs as [|y bs IH]; intros fuel x prev Hadj Hs Hl Hp Hfuel; [injection Hl as ->; lia|].
  assert (Hxy : adj all x y) by (apply Hadj; by exists [], bs).
  assert (Hstep : word_add x (block_size x) = y).
  { rewrite (Hsize _ _ Hxy). unfold word_add, HeapWordSize. destruct (adj_elem _ _ _ Hxy) as [Hx Hy]. rewrite list.Forall_forall in Hw.
    destruct (Hw x Hx) as [i Hi], (Hw y Hy) as [j Hj]. rewrite Hi, Hj. replace (j * 8 - i * 8) with ((j - i) * 8) by lia. rewrite Z.div_mul by lia. lia. }
  pose proof (Z.div_pos (p - x) 8 ltac:(lia) ltac:(lia)). destruct fuel as [|fuel]; [lia|]. cbn [walk_blocks].
  destruct (Z.leb_spec x p); [|lia]. rewrite Hstep. apply StronglySorted_inv in Hs as [Hs Hx]. rewrite last_cons_cons in Hl.
  apply list.Forall_cons in Hx as [Hxy' _]. destruct (Z.le_gt_cases y p) as [Hyp|Hyp].
  - apply (IH fuel y x); [intros u v Huv; by apply Hadj, adj_cons|done|done|lia|].
    destruct (adj_elem _ _ _ Hxy) as [Hex Hey]. rewrite list.Forall_forall in Hw. destruct (Hw x Hex) as [i Hi], (Hw y Hey) as [j Hj].
    assert ((p - y) / 8 < (p - x) / 8); [|lia]. apply Z.lt_le_trans with ((p - y) / 8 + 1); [lia|].
    rewrite <- (Z.div_add (p - y) 1 8) by lia. apply Z.div_le_mono; lia.
  - exists x, y. split; [|split; [done|lia]]. destruct fuel; cbn [walk_blocks]; (destruct (Z.leb_spec y p); [lia|done]).
Qed.

(** ** Tables that describe blocks *)

(** The first card a block starts has the distance to the start of the block; [Q] tells
    about the entries of the other cards, from the first card, the card and its entry. *)
Definition describes (R : Z) (Q : Z -> Z -> Z -> Prop) (a : SharedArray) (bs : list Z) : Prop :=
  forall x y, adj bs x y -> fc R x < fc R y ->
    entry a (fc R x) = Some ((card R (fc R x) - x) / 8) /\
    forall c, fc R x < c < fc R y -> exists e, entry a c = Some e /\ Q (fc R x) c e.

(** An entry that leads back by a power of 16, at most to the card [low]. *)
Definition leads_back (low c e : Z) : Prop := 64 <= e < 78 /\ low <= c - 16 ^ (e - 64).
(** An entry that stays above the first card of the table, one that stays in its block, and
    the entry with the greatest power that does. *)
Definition weak_entry (low f c e : Z) : Prop := leads_back low c e.
Definition inner_entry (f c e : Z) : Prop := leads_back f c e.
Definition exact_entry (f c e : Z) : Prop := e = back_entry f c.

Record table_ok (R : Z) (Q : Z -> Z -> Z -> Prop) (t : BlockOffsetArray) (bs : list Z) : Prop := {
  table_start : reserved_start (_array t) = R /\ 0 <= R < 2 ^ 62 /\ (512 | R);
  table_bottom : R <= _bottom t /\ (512 | _bottom t);
  table_end : _end t < 2 ^ 62 /\ fc R (_end t) <= zlen (_offset_array (_array t)) < 2 ^ 52;
  table_tiling : tiling bs (_bottom t) (_end t);
  table_describes : describes R Q (_array t) bs;
}.

Lemma back_entry_leads (f c : Z) : f < c -> c - f < 2 ^ 52 -> leads_back f c (back_entry f c).
Proof.
  intros Hc Hlim. unfold leads_back, back_entry. destruct (log16_bounds (c - f) ltac:(lia)) as (H0 & H1 & _).
  replace (64 + log16 (c - f) - 64) with (log16 (c - f)) by lia. split; [|lia]. split; [lia|].
  destruct (Z.lt_ge_cases (log16 (c - f)) 14); [lia|]. pose proof (Z.pow_le_mono_r 16 14 (log16 (c - f)) ltac:(lia) ltac:(lia)).
  change (16 ^ 14) with (2 ^ 56) in *. pow2_norm. lia.
Qed.

Lemma describes_impl (R : Z) (Q Q' : Z -> Z -> Z -> Prop) (a : SharedArray) (bs : list Z) :
  (forall x y c e, adj bs x y -> fc R x < c < fc R y -> Q (fc R x) c e -> Q' (fc R x) c e) ->
  describes R Q a bs -> describes R Q' a bs.
Proof.
  intros Himp Hd x y Hxy Hf. destruct (Hd x y Hxy Hf) as [H1 H2]. split; [done|]. intros c Hc.
  destruct (H2 c Hc) as (e & He & HQ). exists e. split; [done|]. by apply (Himp x y).
Qed.

Lemma card_divide (R p : Z) : (512 | R) -> (8 | p) -> (8 | card R (fc R p) - p).
Proof. intros [y Hy] [x Hx]. unfold card. exists (64 * y + 64 * fc R p - x). lia. Qed.

(** Where the back steps end: at the first card of a block, in a set [S] of cards that the
    steps do not leave. *)
Section BackSteps.
Context (R : Z) (HR : 0 <= R < 2 ^ 62) (HR512 : (512 | R)) (a : SharedArray) (Ha : reserved_start a = R).
Context (S : Z -> Prop) (start : Z -> Z -> Prop).
Context (Hcards : forall c, S c -> 0 <= c < 2 ^ 52).
Context (Hstep : forall c, S c ->
  (exists x, start c x /\ entry a c = Some ((card R c - x) / 8) /\ 0 <= (card R c - x) / 8 < 64) \/
  (exists e, entry a c = Some e /\ 64 <= e < 78 /\ S (c - 16 ^ (e - 64)))).

Lemma step_back (c e : Z) :
  S c -> 64 <= e < 78 -> S (c - 16 ^ (e - 64)) ->
  word_add (card R c) (- (N_words * entry_to_cards_back e)) = card R (c - 16 ^ (e - 64)) /\
  u64 (c - entry_to_cards_back e) = c - 16 ^ (e - 64) /\ c - 16 ^ (e - 64) < c.
Proof using Hcards.
  intros Hc He Hs. rewrite entry_to_cards_back_eq, N_words_eq by done. pose proof (Hcards _ Hc). pose proof (Hcards _ Hs).
  pose proof (Z.pow_pos_nonneg 16 (e - 64) ltac:(lia) ltac:(lia)). unfold word_add, HeapWordSize, card. split; [lia|].
  split; [|lia]. apply umod_id. pow2_norm. lia.
Qed.

Lemma cards_back_loop_ok (fuel : nat) (c e : Z) :
  S c -> entry a c = Some e -> c <= Z.of_nat fuel ->
  exists c' x, cards_back_loop fuel a c (card R c) e = Some (card R c', (card R c' - x) / 8) /\ S c' /\ start c' x /\ c' <= c.
Proof using Hcards Hstep.
  revert c e. induction fuel as [|fuel IH]; intros c e Hc He Hfuel.
  all: destruct (Hstep c Hc) as [(x & Hx & He' & Hb)|(e' & He' & Hb & Hs)]; rewrite He in He'; injection He' as ->.
  1,3: exists c, x; cbn [cards_back_loop]; rewrite N_words_eq;
    (destruct (Z.leb_spec 64 ((card R c - x) / 8)); [lia|]); (split; [done|]; split; [done|]; split; [done|lia]).
  all: destruct (step_back c e' Hc Hb Hs) as (Hq & Hi & Hlt); pose proof (Hcards _ Hs) as Hr.
  1: lia.
  cbn [cards_back_loop]. change (N_words <=? e') with (64 <=? e'). destruct (Z.leb_spec 64 e'); [|lia].
  rewrite Hq, Hi. unfold offset_array. fold (entry a (c - 16 ^ (e' - 64))).
  assert (Hnext : exists e2, entry a (c - 16 ^ (e' - 64)) = Some e2).
  { destruct (Hstep _ Hs) as [(x & _ & H' & _)|(e2 & H' & _)]; by eexists. }
  destruct Hnext as [e2 He2]. rewrite He2. cbn [mbind option_bind].
  destruct (IH _ e2 Hs He2 ltac:(lia)) as (c' & x & -> & H1 & H2 & H3). exists c', x. split; [done|]. split; [done|]. split; [done|lia].
Qed.
End BackSteps.

Lemma walk_from (block_size : Z -> Z) (bs : list Z) (lo hi x y p prev : Z) (fuel : nat) :
  tiling bs lo hi -> (forall u v, adj bs u v -> block_size u = (v - u) / 8) -> adj bs x y -> x <= p < hi -> (p - x) / 8 < Z.of_nat fuel ->
  exists u v, walk_blocks fuel block_size p prev x = Some u /\ adj bs u v /\ u <= p < v.
Proof.
  intros [Hs _ Hl Hw] Hsize (l1 & l2 & ->) Hp Hfuel.
  apply (walk_blocks_ok block_size (l1 ++ x :: y :: l2) (y :: l2) fuel x p hi prev); try done.
  - intros u v (m1 & m2 & ->). exists (l1 ++ m1), m2. by rewrite <- app_assoc.
  - by apply sorted_app_inv in Hs as (_ & ? & _).
  - by rewrite last_app_cons in Hl.
Qed.

Lemma tiling_range (bs : list Z) (lo hi x : Z) : tiling bs lo hi -> x ∈ bs -> lo <= x <= hi.
Proof.
  intros [Hs Hf Hl _] Hx. destruct bs as [|b bs]; [done|]. injection Hf as ->. split.
  - apply elem_of_cons in Hx as [->|Hx]; [lia|]. apply StronglySorted_inv in Hs as [_ Hb]. rewrite list.Forall_forall in Hb. specialize (Hb x Hx). lia.
  - apply list_elem_of_split in Hx as (l1 & l2 & He). rewrite He in Hs, Hl. rewrite last_app_cons in Hl.
    apply sorted_app_inv in Hs as (_ & Hs & _). by apply (sorted_cons_last x hi l2).
Qed.

(** A tiling has one block for each address. *)
Lemma block_unique (bs : list Z) (x y u v p : Z) :
  StronglySorted Z.lt bs -> adj bs x y -> adj bs u v -> x <= p < y -> u <= p < v -> x = u /\ y = v.
Proof. intros Hs Hxy Huv Hp1 Hp2. destruct (adj_apart bs x y u v Hs Hxy Huv) as [?|[?|?]]; [done|lia..]. Qed.

Section Lookup.
Context (R : Z) (Q : Z -> Z -> Z -> Prop) (t : BlockOffsetArray) (bs : list Z) (Ht : table_ok R Q t bs).

(** The block that starts a card. *)
Lemma card_block (c : Z) :
  fc R (_bottom t) <= c < fc R (_end t) -> exists x y, adj bs x y /\ fc R x <= c < fc R y /\ x <= card R c < y.
Proof using Ht.
  intros Hc. destruct (table_tiling _ _ _ _ Ht) as [Hs Hf Hl _]. destruct bs as [|b l] eqn:Hb; [done|]. injection Hf as ->.
  assert (H1 : _bottom t <= card R c) by (apply fc_spec; lia).
  assert (H2 : card R c < _end t) by (destruct (Z.lt_ge_cases (card R c) (_end t)) as [|H']; [done|apply fc_spec in H'; lia]).
  destruct (block_of l (_bottom t) (card R c) (_end t) Hs Hl ltac:(lia)) as (x & y & Hxy & Hp). exists x, y. split; [done|]. split; [|done].
  split; [apply fc_spec; lia|]. destruct (Z.lt_ge_cases c (fc R y)) as [|H']; [done|apply fc_spec in H'; lia].
Qed.

Lemma bottom_card : card R (fc R (_bottom t)) = _bottom t.
Proof using Ht.
  destruct (table_start _ _ _ _ Ht) as (_ & _ & [y Hy]), (table_bottom _ _ _ _ Ht) as (_ & [x Hx]). unfold card, fc. rewrite Hx, Hy.
  replace (x * 512 - y * 512 + 511) with (511 + (x - y) * 512) by lia. rewrite Z.div_add by lia. change (511 / 512) with 0. lia.
Qed.

Lemma addr_card (p : Z) :
  _bottom t <= p < _end t ->
  let c := index_for (_array t) p in fc R (_bottom t) <= c < fc R (_end t) /\ card R c <= p < card R c + 512 /\ 0 <= c < 2 ^ 52.
Proof using Ht.
  intros Hp. destruct (table_start _ _ _ _ Ht) as (Ha & HR & HR5), (table_bottom _ _ _ _ Ht) as (Hb & Hb5), (table_end _ _ _ _ Ht) as (He & Hlen).
  pow2_norm. rewrite (index_for_eq R HR _ Ha) by (pow2_norm; lia). cbv zeta. pose proof bottom_card as Hbc.
  pose proof (Z.div_mod (p - R) 512 ltac:(lia)). pose proof (Z.mod_pos_bound (p - R) 512 ltac:(lia)).
  pose proof (Z.div_pos (p - R) 512 ltac:(lia) ltac:(lia)). unfold card in *. set (c := (p - R) / 512) in *.
  assert (Hlo : fc R (_bottom t) <= c) by lia.
  assert (Hhi : c < fc R (_end t)) by (destruct (Z.lt_ge_cases c (fc R (_end t))) as [|H']; [done|apply fc_spec in H'; unfold card in H'; lia]).
  split; [lia|]. split; [lia|]. pow2_norm. lia.
Qed.

Lemma first_offset (x y c : Z) : adj bs x y -> c = fc R x -> word_add (card R c) (- ((card R c - x) / 8)) = x /\ x <= card R c.
Proof using Ht.
  intros Hxy ->. destruct (table_start _ _ _ _ Ht) as (_ & _ & HR5). pose proof (tiling_words _ _ _ (table_tiling _ _ _ _ Ht)) as Hw.
  destruct (adj_elem _ _ _ Hxy) as [Hx _]. rewrite list.Forall_forall in Hw. destruct (card_divide R x HR5 (Hw x Hx)) as [z Hz].
  pose proof (card_fc R x). unfold word_add, HeapWordSize. rewrite Hz, Z.div_mul by lia. lia.
Qed.
End Lookup.

(** *** Spaces that are not contiguous *)

Lemma block_start_ok (R : Z) (use : bool) (s : NonContigSpace) (bs : list Z) (block_size : Z -> Z) (p : Z) :
  table_ok R (weak_entry (fc R (_bottom (nc_table s)))) (nc_table s) bs -> (use = true -> _unallocated_block s <= p -> adj bs (_unallocated_block s) (_end (nc_table s))) ->
  (forall u v, adj bs u v -> block_size u = (v - u) / 8) -> _bottom (nc_table s) <= p < _end (nc_table s) ->
  exists u v, block_start_unsafe use s block_size p = Some u /\ adj bs u v /\ u <= p < v.
Proof.
  intros Ht Hub Hsize Hp. unfold block_start_unsafe. destruct (use && (_unallocated_block s <=? p)) eqn:Hu.
  { apply andb_true_iff in Hu as [-> Hu]. apply Z.leb_le in Hu. exists (_unallocated_block s), (_end (nc_table s)). split; [done|]. split; [by apply Hub|lia]. }
  clear Hu. set (t := nc_table s) in *. destruct (table_start _ _ _ _ Ht) as (Ha & HR & HR5), (table_end _ _ _ _ Ht) as (He & Hlen).
  destruct (addr_card R _ t bs Ht p Hp) as (Hc & Hcp & Hcr). set (c := index_for (_array t) p) in *.
  rewrite (address_for_index_eq R _ Ha). set (S := fun c => fc R (_bottom t) <= c < fc R (_end t)).
  set (start := fun c x => exists y, adj bs x y /\ c = fc R x).
  assert (Hb0 : 0 <= fc R (_bottom t)) by (apply fc_nonneg, (table_bottom _ _ _ _ Ht)).
  assert (HS : forall c, S c -> 0 <= c < 2 ^ 52) by (intros c' Hc'; unfold S in Hc'; lia).
  assert (Hstep : forall c, S c -> (exists x, start c x /\ entry (_array t) c = Some ((card R c - x) / 8) /\ 0 <= (card R c - x) / 8 < 64) \/
      (exists e, entry (_array t) c = Some e /\ 64 <= e < 78 /\ S (c - 16 ^ (e - 64)))).
  { intros c' Hc'. destruct (card_block R _ t bs Ht c' Hc') as (x & y & Hxy & Hf & Hxp).
    destruct (table_describes _ _ _ _ Ht x y Hxy ltac:(lia)) as [H1 H2]. destruct (Z.eq_dec c' (fc R x)) as [->|Hne].
    - left. exists x. split; [by exists y|]. split; [done|]. apply offset_bounds. pose proof (tiling_words _ _ _ (table_tiling _ _ _ _ Ht)) as Hw.
      destruct (adj_elem _ _ _ Hxy) as [Hx _]. rewrite list.Forall_forall in Hw. by apply Hw.
    - right. destruct (H2 c' ltac:(lia)) as (e & He1 & He2 & He3). exists e. split; [done|]. split; [done|]. unfold S in *.
      pose proof (Z.pow_pos_nonneg 16 (e - 64) ltac:(lia) ltac:(lia)). lia. }
  assert (Hent : exists e, entry (_array t) c = Some e) by (destruct (Hstep c Hc) as [(x & _ & H' & _)|(e & H' & _)]; by eexists).
  destruct Hent as [e Hent]. unfold offset_array. fold (entry (_array t) c). rewrite Hent. cbn [mbind option_bind].
  destruct (cards_back_loop_ok R (_array t) S start HS Hstep (Z.to_nat c) c e Hc Hent ltac:(lia)) as (c' & x & -> & Hc' & (y & Hxy & Hf) & Hle).
  cbn [mbind option_bind]. destruct (first_offset R _ t bs Ht x y c' Hxy Hf) as [-> Hx].
  assert (card R c' <= card R c) by (unfold card; lia).
  assert (Hxr : _bottom t <= x) by (apply adj_elem in Hxy as [Hin _]; destruct (tiling_range _ _ _ x (table_tiling _ _ _ _ Ht) Hin); done).
  pose proof (proj1 (table_bottom _ _ _ _ Ht)) as Hbr.
  rewrite words_between_eq by (pow2_norm; lia). apply (walk_from block_size bs (_bottom t) (_end t) x y); try done; try lia. apply Ht.
Qed.

(** Without a look at the blocks: the lookup gives the block that the entries lead to. *)
Lemma careful_leads (R : Z) (s : NonContigSpace) (S : Z -> Prop) (x p : Z) :
  let a := _array (nc_table s) in
  reserved_start a = R -> 0 <= R < 2 ^ 62 -> (512 | R) -> (8 | x) -> (forall c, S c -> 0 <= c < 2 ^ 52) -> entry a (fc R x) = Some ((card R (fc R x) - x) / 8) ->
  (forall c, S c -> c <> fc R x -> exists e, entry a c = Some e /\ 64 <= e < 78 /\ S (c - 16 ^ (e - 64))) ->
  S (index_for a p) -> card R (index_for a p) = p -> block_start_careful false s p = Some x.
Proof.
  intros a Ha HR HR5 H8 HS Hx Hstep Hc Hp. unfold block_start_careful. cbn [andb]. fold a. set (c := index_for a p) in *.
  assert (Hsteps : forall c, S c -> (exists z, (z = x /\ c = fc R x) /\ entry a c = Some ((card R c - z) / 8) /\ 0 <= (card R c - z) / 8 < 64) \/
      (exists e, entry a c = Some e /\ 64 <= e < 78 /\ S (c - 16 ^ (e - 64)))).
  { intros c' Hc'. destruct (Z.eq_dec c' (fc R x)) as [->|Hne]; [left|right; by apply Hstep].
    exists x. split; [done|]. split; [done|]. by apply offset_bounds. }
  assert (Hent : exists e, entry a c = Some e) by (destruct (Hsteps c Hc) as [(z & _ & H' & _)|(e & H' & _)]; by eexists).
  destruct Hent as [e Hent]. unfold offset_array. fold (entry a c). rewrite Hent. cbn [mbind option_bind]. rewrite <- Hp.
  destruct (cards_back_loop_ok R a S (fun c z => z = x /\ c = fc R x) HS Hsteps (Z.to_nat c) c e Hc Hent ltac:(pose proof (HS c Hc); lia))
    as (c' & z & -> & _ & (-> & ->) & _).
  cbn [mbind option_bind]. destruct (card_divide R x HR5 H8) as [z Hz]. unfold word_add, HeapWordSize. rewrite Hz, Z.div_mul by lia. f_equal. lia.
Qed.

(** The entries of a table that stay in their block give the right block. *)
Lemma block_start_careful_ok (R : Z) (s : NonContigSpace) (bs : list Z) (p : Z) :
  table_ok R inner_entry (nc_table s) bs -> _bottom (nc_table s) <= p < _end (nc_table s) -> (512 | p) ->
  exists u v, block_start_careful false s p = Some u /\ adj bs u v /\ u <= p < v.
Proof.
  intros Ht Hp Hp5. set (t := nc_table s) in *. destruct (table_start _ _ _ _ Ht) as (Ha & HR & HR5), (table_end _ _ _ _ Ht) as (He & Hlen).
  destruct (addr_card R _ t bs Ht p Hp) as (Hc & Hcp & Hcr).
  assert (Hcard : card R (index_for (_array t) p) = p).
  { destruct HR5 as [y Hy], Hp5 as [z Hz]. unfold card in *. lia. }
  destruct (card_block R _ t bs Ht _ Hc) as (x & y & Hxy & Hf & Hxp).
  destruct (table_describes _ _ _ _ Ht x y Hxy ltac:(lia)) as [H1 H2]. destruct (adj_elem bs x y Hxy) as [Hx Hy].
  destruct (tiling_range _ _ _ x (table_tiling _ _ _ _ Ht) Hx) as [Hxr _]. destruct (tiling_range _ _ _ y (table_tiling _ _ _ _ Ht) Hy) as [_ Hyr].
  pose proof (tiling_words _ _ _ (table_tiling _ _ _ _ Ht)) as Hw. rewrite list.Forall_forall in Hw.
  exists x, y. split; [|split; [done|lia]]. apply (careful_leads R s (fun c => fc R x <= c < fc R y)); try done; [by apply Hw| |].
  - intros c Hc'. pose proof (fc_nonneg R x ltac:(destruct (table_bottom _ _ _ _ Ht); lia)). pose proof (fc_mono R y (_end t) Hyr). lia.
  - intros c Hc' Hne. destruct (H2 c ltac:(lia)) as (e & He1 & He2 & He3). exists e. split; [done|]. split; [done|].
    pose proof (Z.pow_pos_nonneg 16 (e - 64) ltac:(lia) ltac:(lia)). lia.
Qed.

(** ** Changes of the blocks *)

Lemma adj_cons_iff (z : Z) (l : list Z) (u v : Z) : adj (z :: l) u v <-> z = u /\ head l = Some v \/ adj l u v.
Proof.
  split.
  - intros ([|w l1] & l2 & He); [left; by injection He as -> ->|right]. injection He as -> ->. by exists l1, l2.
  - intros [[-> Hl]|H]; [|by apply adj_cons]. destruct l as [|w l]; [done|]. injection Hl as ->. by exists [], l.
Qed.

Lemma adj_app_cons (l1 : list Z) (x : Z) (l2 : list Z) (u v : Z) :
  adj (l1 ++ x :: l2) u v <-> adj (l1 ++ [x]) u v \/ adj (x :: l2) u v.
Proof.
  induction l1 as [|z l1 IH]; cbn [app].
  - rewrite !adj_cons_iff. split; [by right|]. intros [[[_ ?]|(l1 & l2' & He)]|?]; [done|by destruct l1|done].
  - rewrite adj_cons_iff, IH. rewrite (adj_cons_iff z (l1 ++ [x])). replace (head (l1 ++ x :: l2)) with (head (l1 ++ [x])) by (by destruct l1). tauto.
Qed.

Lemma sorted_app_iff (l1 l2 : list Z) :
  StronglySorted Z.lt (l1 ++ l2) <-> StronglySorted Z.lt l1 /\ StronglySorted Z.lt l2 /\ (forall x y, x ∈ l1 -> y ∈ l2 -> x < y).
Proof.
  split; [apply sorted_app_inv|]. intros (H1 & H2 & H3). induction H1 as [|x l1 Hs IH Hx]; [done|]. cbn [app]. constructor.
  - apply IH. intros u v Hu Hv. apply H3; [by apply list_elem_of_further|done].
  - apply Forall_app. split; [done|]. apply list.Forall_forall. intros v Hv. apply H3; [apply list_elem_of_here|done].
Qed.

(** Blocks left of a boundary and right of it. *)
Lemma adj_left (l1 : list Z) (x : Z) (l2 : list Z) (u v : Z) :
  StronglySorted Z.lt (l1 ++ x :: l2) -> adj (l1 ++ [x]) u v -> v <= x.
Proof.
  intros Hs Ha. apply adj_elem in Ha as [_ Hv]. apply elem_of_app in Hv as [Hv|Hv%list_elem_of_singleton]; [|lia].
  apply sorted_app_iff in Hs as (_ & _ & H). specialize (H v x Hv (list_elem_of_here _ _)). lia.
Qed.
Lemma adj_right (l1 : list Z) (y : Z) (l2 : list Z) (u v : Z) :
  StronglySorted Z.lt (l1 ++ y :: l2) -> adj (y :: l2) u v -> y <= u.
Proof.
  intros Hs Ha. apply adj_elem in Ha as [Hu _]. apply sorted_app_iff in Hs as (_ & Hs & _). apply elem_of_cons in Hu as [->|Hu]; [lia|].
  apply StronglySorted_inv in Hs as [_ Hy]. rewrite list.Forall_forall in Hy. specialize (Hy u Hu). lia.
Qed.

(** The blocks between two boundaries are replaced, and the entries of their cards. *)
Lemma describes_replace (R : Z) (Q : Z -> Z -> Z -> Prop) (a a' : SharedArray) (l1 mid mid' l2 : list Z) (x y : Z) :
  let bs m := l1 ++ x :: m ++ y :: l2 in
  StronglySorted Z.lt (bs mid) -> describes R Q a (bs mid) ->
  (forall c, ~ fc R x <= c < fc R y -> entry a' c = entry a c) -> describes R Q a' (x :: mid' ++ [y]) -> describes R Q a' (bs mid').
Proof.
  intros bs Hs Hd Hout Hin u v Huv Hf. unfold bs in Huv. rewrite adj_app_cons in Huv.
  change (x :: mid' ++ y :: l2) with ((x :: mid') ++ y :: l2) in Huv. rewrite (adj_app_cons (x :: mid')) in Huv.
  assert (Hold : adj (bs mid) u v -> v <= x \/ y <= u ->
    entry a' (fc R u) = Some ((card R (fc R u) - u) / 8) /\ forall c, fc R u < c < fc R v -> exists e, entry a' c = Some e /\ Q (fc R u) c e).
  { intros Ho Hside. destruct (Hd u v Ho Hf) as [H1 H2].
    assert (Hc : forall c, fc R u <= c < fc R v -> ~ fc R x <= c < fc R y).
    { intros c Hc Hc'. destruct Hside as [Hv|Hu]; [pose proof (fc_mono R v x Hv)|pose proof (fc_mono R y u Hu)]; lia. }
    split; [by rewrite Hout by (apply Hc; lia)|]. intros c Hcr. rewrite Hout by (apply Hc; lia). by apply H2. }
  unfold bs in Hold, Hs. destruct Huv as [Hl|[Hm|Hr]].
  - apply Hold; [rewrite adj_app_cons; by left|left; by apply (adj_left l1 x (mid ++ y :: l2) u v)].
  - by apply Hin.
  - change (x :: mid ++ y :: l2) with ((x :: mid) ++ y :: l2) in Hs, Hold. rewrite app_assoc in Hs, Hold.
    apply Hold; [rewrite adj_app_cons; by right|right; by apply (adj_right (l1 ++ x :: mid) y l2 u v)].
Qed.

Lemma tiling_replace (l1 mid mid' l2 : list Z) (x y lo hi : Z) :
  tiling (l1 ++ x :: mid ++ y :: l2) lo hi -> tiling (x :: mid' ++ [y]) x y -> tiling (l1 ++ x :: mid' ++ y :: l2) lo hi.
Proof.
  intros [Hs Hf Hl Hw] [Hs' _ _ Hw']. apply sorted_app_iff in Hs as (S1 & S2 & S3).
  change (x :: mid ++ y :: l2) with ((x :: mid) ++ y :: l2) in S2. apply sorted_app_iff in S2 as (S4 & S5 & S6).
  change (x :: mid' ++ [y]) with ((x :: mid') ++ [y]) in Hs', Hw'. apply sorted_app_iff in Hs' as (S7 & _ & S8).
  assert (Hmid : forall z, z ∈ x :: mid' -> x <= z < y).
  { intros z Hz. split; [|by apply S8; [|apply list_elem_of_singleton]]. apply elem_of_cons in Hz as [->|Hz]; [lia|].
    apply StronglySorted_inv in S7 as [_ S7]. rewrite list.Forall_forall in S7. specialize (S7 z Hz). lia. }
  split.
  - apply sorted_app_iff. split; [done|]. change (x :: mid' ++ y :: l2) with ((x :: mid') ++ y :: l2). split.
    + apply sorted_app_iff. split; [done|]. split; [done|]. intros u v Hu Hv. specialize (Hmid u Hu).
      apply elem_of_cons in Hv as [->|Hv]; [lia|]. apply StronglySorted_inv in S5 as [_ S5]. rewrite list.Forall_forall in S5. specialize (S5 v Hv). lia.
    + intros u v Hu Hv. apply elem_of_app in Hv as [Hv|Hv].
      * specialize (Hmid v Hv). specialize (S3 u x Hu (list_elem_of_here _ _)). lia.
      * apply S3; [done|]. apply list_elem_of_further, elem_of_app. by right.
  - by destruct l1.
  - rewrite !last_app_cons in *. change (x :: mid' ++ y :: l2) with ((x :: mid') ++ y :: l2).
    change (x :: mid ++ y :: l2) with ((x :: mid) ++ y :: l2) in Hl. by rewrite last_app_cons in *.
  - apply Forall_app in Hw as [W1 W2]. change (x :: mid ++ y :: l2) with ((x :: mid) ++ y :: l2) in W2. apply Forall_app in W2 as [_ W2].
    apply Forall_app. split; [done|]. change (x :: mid' ++ y :: l2) with ((x :: mid') ++ y :: l2). apply Forall_app. apply Forall_app in Hw' as [? _]. done.
Qed.

Lemma tiling_sub (l1 mid l2 : list Z) (x y lo hi : Z) :
  tiling (l1 ++ x :: mid ++ y :: l2) lo hi -> x < y /\ (8 | x) /\ (8 | y) /\ lo <= x /\ y <= hi /\ tiling [x; y] x y.
Proof.
  intros Ht. pose proof Ht as [Hs _ _ Hw]. rewrite list.Forall_forall in Hw.
  assert (Hx : x ∈ l1 ++ x :: mid ++ y :: l2) by (apply elem_of_app; right; apply list_elem_of_here).
  assert (Hy : y ∈ l1 ++ x :: mid ++ y :: l2) by (apply elem_of_app; right; apply list_elem_of_further, elem_of_app; right; apply list_elem_of_here).
  apply sorted_app_iff in Hs as (_ & Hs & _). apply StronglySorted_inv in Hs as [_ Hs]. apply Forall_app in Hs as [_ Hs].
  apply list.Forall_cons in Hs as [Hxy _]. destruct (tiling_range _ _ _ x Ht Hx) as [? _], (tiling_range _ _ _ y Ht Hy) as [_ ?].
  split; [done|]. split; [by apply Hw|]. split; [by apply Hw|]. split; [done|]. split; [done|]. split; try done.
  - constructor; [by repeat constructor|]. by constructor.
  - constructor; [by apply Hw|]. constructor; [by apply Hw|constructor].
Qed.

Lemma describes_one (R : Z) (Q : Z -> Z -> Z -> Prop) (a : SharedArray) (x y : Z) :
  (fc R x < fc R y -> entry a (fc R x) = Some ((card R (fc R x) - x) / 8) /\
    forall c, fc R x < c < fc R y -> exists e, entry a c = Some e /\ Q (fc R x) c e) -> describes R Q a [x; y].
Proof.
  intros H u v Huv. apply adj_cons_iff in Huv as [[<- [= <-]]|Huv]; [done|]. apply adj_cons_iff in Huv as [[_ ?]|([|] & ? & ?)]; done.
Qed.

(** A run of blocks becomes one block. *)
Lemma block_merged (R : Z) (Q : Z -> Z -> Z -> Prop) (t : BlockOffsetArray) (l1 mid l2 : list Z) (x y : Z) (action : Action) :
  (forall f c, fc R (_bottom t) <= f < c -> c - f < 2 ^ 52 -> Q f c (back_entry f c)) ->
  table_ok R Q t (l1 ++ x :: mid ++ y :: l2) -> action = Action_single \/ (action = Action_mark /\ _init_to_zero t = false) ->
  exists t', do_block_internal t x y action = Some t' /\ table_ok R Q t' (l1 ++ x :: y :: l2) /\
    _bottom t' = _bottom t /\ _end t' = _end t /\ _init_to_zero t' = _init_to_zero t /\
    zlen (_offset_array (_array t')) = zlen (_offset_array (_array t)).
Proof.
  intros HQ [(Ha & HR & HR5) (Hb & Hb5) (He & Hlen) Htil Hdes] Hact.
  destruct (tiling_sub _ _ _ _ _ _ _ Htil) as (Hxy & H8x & H8y & Hlo & Hhi & Hone). pow2_norm.
  destruct (do_block_ok R HR HR5 t x y action Ha ltac:(lia) ltac:(pow2_norm; lia) H8x H8y ltac:(pose proof (fc_mono R y (_end t) Hhi); lia)
    ltac:(pow2_norm; lia) Hact) as (a' & -> & (S1 & L1 & I1 & O1)).
  exists (set_array t a'). split; [done|]. split; [|by rewrite <- L1].
  split; cbn [set_array _array _bottom _end]; [by rewrite S1|done|by rewrite L1|by apply (tiling_replace l1 mid [] l2)|].
  apply (describes_replace R Q (_array t) a' l1 mid [] l2 x y); [apply Htil|done|exact O1|]. cbn [app].
  apply describes_one. intros Hf. split.
  - rewrite I1 by lia. unfold block_entry. by rewrite Z.eqb_refl.
  - intros c Hc. exists (back_entry (fc R x) c). rewrite I1 by lia. unfold block_entry. destruct (Z.eqb_spec c (fc R x)); [lia|].
    split; [done|]. apply HQ; [pose proof (fc_mono R (_bottom t) x Hlo); lia|].
    pose proof (fc_mono R y (_end t) Hhi). pose proof (fc_nonneg R x ltac:(lia)). pow2_norm. lia.
Qed.

(** *** Splitting a block *)

Lemma pow16_pos (i : Z) : 0 <= i -> 0 < 16 ^ i.
Proof. intros Hi. by apply Z.pow_pos_nonneg. Qed.
Lemma pow16_succ (i : Z) : 0 <= i -> 16 ^ (i + 1) = 16 * 16 ^ i.
Proof. intros Hi. rewrite Z.pow_add_r by lia. lia. Qed.

(** The block starts the cards from [f] on, its second part those from [s] to [g]. *)
Section Split.
Context (f s g : Z) (Hf : 0 <= f) (Hs : f < s) (Hg : s - f < g - s) (Hmax : g < 2 ^ 52).
Abbreviation np := (s - f).

(** The cards outside of the second part keep their entries. *)
Definition frame (a a' : SharedArray) : Prop :=
  reserved_start a' = reserved_start a /\ zlen (_offset_array a') = zlen (_offset_array a) /\
  forall c, ~ s < c < g -> entry a' c = entry a c.

Lemma frame_refl (a : SharedArray) : frame a a.
Proof using. done. Qed.
Lemma frame_trans (a1 a2 a3 : SharedArray) : frame a1 a2 -> frame a2 a3 -> frame a1 a3.
Proof using.
  intros (S1 & L1 & F1) (S2 & L2 & F2). split; [congruence|]. split; [congruence|]. intros c Hc. by rewrite F2, F1.
Qed.
Lemma updated_frame (a a' : SharedArray) (lo hi : Z) (v : Z -> Z) : s < lo -> hi <= g -> updated a a' lo hi v -> frame a a'.
Proof using. intros Hlo Hhi (S & L & _ & O). split; [done|]. split; [done|]. intros c Hc. apply O. lia. Qed.

(** One write of the loops: the cards whose distance to [s] is below [16 ^ i], but not the
    distance to [f]. *)
Definition wrote (i : Z) (a a' : SharedArray) : Prop :=
  updated a a' (f + 16 ^ i) (Z.min (s + 16 ^ i) g) (fun _ => 63 + i).

Lemma write_ok (i : Z) (a : SharedArray) :
  1 <= i < 14 -> np < 16 ^ i -> g <= zlen (_offset_array a) < 2 ^ 63 -> f + 16 ^ i < g ->
  exists a', set_offset_array_cards a (u64 (s + 16 ^ i - 1 - np + 1)) (Z.min (s + 16 ^ i) g - 1) (u8 (N_words + i - 1)) = Some a' /\ wrote i a a'.
Proof using Hf Hs Hg Hmax.
  intros Hi Hnp Hlen Hleft. pose proof (Z.pow_le_mono_r 16 i 13 ltac:(lia) ltac:(lia)) as Hp. change (16 ^ 13) with (2 ^ 52) in Hp. pow2_norm.
  rewrite umod_id by (pow2_norm; lia). rewrite N_words_eq, (umod_id 8) by (pow2_norm; lia).
  destruct (set_cards_ok a (s + 16 ^ i - 1 - np + 1) (Z.min (s + 16 ^ i) g - 1) (64 + i - 1)) as (a' & -> & Hu); [lia|lia|pow2_norm; lia|lia|].
  exists a'. split; [done|]. unfold wrote. replace (f + 16 ^ i) with (s + 16 ^ i - 1 - np + 1) by lia.
  replace (Z.min (s + 16 ^ i) g) with (Z.min (s + 16 ^ i) g - 1 + 1) by lia. eapply updated_ext; [|exact Hu]. cbn. lia.
Qed.

(** An invariant of tables that the writes keep. *)
Section Loops.
Context (I : Z -> SharedArray -> Prop) (done_ok : SharedArray -> Prop).
Context (Hwrite : forall i a a', 1 < i < 14 -> np < 16 ^ (i - 1) -> f + 16 ^ i < g -> I i a -> wrote i a a' -> I (i + 1) a').
Context (Hskip : forall i a, 1 < i < 14 -> np < 16 ^ (i - 1) -> g <= f + 16 ^ i -> I i a -> I (i + 1) a).
Context (Hdone : forall i a, 1 <= i <= 14 -> g <= s + 16 ^ (i - 1) -> I i a -> done_ok a).

Lemma split_rest_loop_ok (fuel : nat) (i : Z) (a : SharedArray) :
  1 < i <= 14 -> np < 16 ^ (i - 1) -> 14 - i < Z.of_nat fuel -> g <= zlen (_offset_array a) < 2 ^ 63 -> I i a ->
  exists a', split_rest_loop fuel a s g np i true = Some a' /\ frame a a' /\ done_ok a'.
Proof using Hf Hs Hg Hmax Hwrite Hskip Hdone.
  revert i a. induction fuel as [|fuel IH]; intros i a Hi Hnp Hfuel Hlen HI; [lia|]. cbn [split_rest_loop andb].
  change (Z.of_nat N_powers) with 14. destruct (Z.ltb_spec i 14) as [Hlt|Hge].
  2: { assert (i = 14) as -> by lia. exists a. split; [done|]. split; [apply frame_refl|]. apply (Hdone 14); [lia| |done].
       change (16 ^ (14 - 1)) with (2 ^ 52). lia. }
  rewrite power_to_cards_back_eq by lia.
  pose proof (Z.pow_le_mono_r 16 (i - 1) i ltac:(lia) ltac:(lia)) as Hmono. pose proof (pow16_pos i ltac:(lia)) as Hpos.
  pose proof (Z.pow_le_mono_r 16 i 13 ltac:(lia) ltac:(lia)) as Hp. change (16 ^ 13) with (2 ^ 52) in Hp. pow2_norm.
  assert (Hleft : u64 (s + 16 ^ i - 1 - np + 1) = f + 16 ^ i) by (rewrite umod_id by (pow2_norm; lia); lia).
  destruct (Z.leb_spec (g - 1) (s + 16 ^ i - 1)) as [Hlast|Hmore].
  - destruct (Z.ltb_spec (g - 1) (u64 (s + 16 ^ i - 1 - np + 1))) as [Hend|Hend]; rewrite Hleft in Hend.
    + exists a. split; [done|]. split; [apply frame_refl|]. apply (Hdone (i + 1)); [lia|rewrite Z.add_simpl_r; lia|]. apply Hskip; try done; lia.
    + destruct (write_ok i a ltac:(lia) ltac:(lia) Hlen ltac:(lia)) as (a' & Hset & Hw). rewrite Z.min_r in Hset by lia. rewrite Hset. cbn [mbind option_bind].
      exists a'. split; [by destruct fuel|]. split; [eapply updated_frame; [| |exact Hw]; lia|].
      apply (Hdone (i + 1)); [lia|rewrite Z.add_simpl_r; lia|]. apply (Hwrite i a); try done; lia.
  - destruct (write_ok i a ltac:(lia) ltac:(lia) Hlen ltac:(lia)) as (a1 & Hset & Hw). rewrite Z.min_l in Hset by lia. rewrite Hset. cbn [mbind option_bind].
    assert (Hfr : frame a a1) by (eapply updated_frame; [| |exact Hw]; lia).
    destruct (IH (i + 1) a1) as (a' & -> & Hfr' & Hd); [lia|rewrite Z.add_simpl_r; lia|lia|by destruct Hfr as (_ & -> & _)|by apply (Hwrite i a); try done; lia|].
    exists a'. split; [done|]. split; [by eapply frame_trans|done].
Qed.

(** The first write may overlap the cards that are already right. *)
Context (I0 : SharedArray -> Prop).
Context (Hwrite0 : forall i a a', 1 <= i < 14 -> 16 ^ (i - 1) <= np < 16 ^ i -> f + 16 ^ i < g -> I0 a -> wrote i a a' -> I (i + 1) a').
Context (Hskip0 : forall i a, 1 <= i < 14 -> 16 ^ (i - 1) <= np < 16 ^ i -> g <= f + 16 ^ i -> I0 a -> I (i + 1) a).

Lemma split_first_loop_ok (fuel : nat) (i : Z) (a : SharedArray) :
  1 <= i -> 16 ^ (i - 1) <= np -> 14 - i < Z.of_nat fuel -> g <= zlen (_offset_array a) < 2 ^ 63 -> I0 a ->
  exists a' i' more, split_first_loop fuel a s g np i true = Some (a', i', more) /\ frame a a' /\
    (more = true /\ 1 < i' <= 14 /\ np < 16 ^ (i' - 1) /\ I i' a' \/ more = false /\ done_ok a').
Proof using Hf Hs Hg Hmax Hdone Hwrite0 Hskip0.
  revert i a. induction fuel as [|fuel IH]; intros i a Hi Hnp Hfuel Hlen HI.
  all: assert (Hi14 : i < 14) by (destruct (Z.lt_ge_cases i 14); [done|]; pose proof (Z.pow_le_mono_r 16 13 (i - 1) ltac:(lia) ltac:(lia));
    change (16 ^ 13) with (2 ^ 52) in *; lia).
  1: lia.
  cbn [split_first_loop andb]. change (Z.of_nat N_powers) with 14. destruct (Z.ltb_spec i 14) as [_|]; [|lia].
  rewrite power_to_cards_back_eq by lia. pose proof (pow16_pos i ltac:(lia)) as Hpos.
  pose proof (Z.pow_le_mono_r 16 i 13 ltac:(lia) ltac:(lia)) as Hp. change (16 ^ 13) with (2 ^ 52) in Hp. pow2_norm.
  assert (Hleft : u64 (s + 16 ^ i - 1 - np + 1) = f + 16 ^ i) by (rewrite umod_id by (pow2_norm; lia); lia).
  destruct (Z.leb_spec (g - 1) (s + 16 ^ i - 1)) as [Hlast|Hmore].
  - destruct (Z.ltb_spec np (16 ^ i)); [|lia].
    destruct (Z.leb_spec (u64 (s + 16 ^ i - 1 - np + 1)) (g - 1)) as [Hend|Hend]; rewrite Hleft in Hend.
    + destruct (write_ok i a ltac:(lia) ltac:(lia) Hlen ltac:(lia)) as (a' & Hset & Hw). rewrite Z.min_r in Hset by lia. rewrite Hset. cbn [mbind option_bind].
      exists a', (i + 1), false. split; [done|]. split; [eapply updated_frame; [| |exact Hw]; lia|]. right. split; [done|].
      apply (Hdone (i + 1)); [lia|rewrite Z.add_simpl_r; lia|]. apply (Hwrite0 i a); try done; lia.
    + cbn [mbind option_bind]. exists a, (i + 1), false. split; [done|]. split; [apply frame_refl|]. right. split; [done|].
      apply (Hdone (i + 1)); [lia|rewrite Z.add_simpl_r; lia|]. apply Hskip0; try done; lia.
  - destruct (Z.ltb_spec np (16 ^ i)) as [Hlt|Hge].
    + destruct (Z.leb_spec (u64 (s + 16 ^ i - 1 - np + 1)) (s + 16 ^ i - 1)) as [_|Hend]; [|rewrite Hleft in Hend; lia].
      destruct (write_ok i a ltac:(lia) ltac:(lia) Hlen ltac:(lia)) as (a' & Hset & Hw). rewrite Z.min_l in Hset by lia. rewrite Hset. cbn [mbind option_bind].
      exists a', (i + 1), true. split; [done|]. split; [eapply updated_frame; [| |exact Hw]; lia|]. left. split; [done|]. split; [lia|].
      split; [rewrite Z.add_simpl_r; lia|]. apply (Hwrite0 i a); try done; lia.
    + apply IH; try done; [lia|rewrite Z.add_simpl_r; lia|lia].
Qed.

Lemma split_loops_ok (a : SharedArray) :
  g <= zlen (_offset_array a) < 2 ^ 63 -> I0 a ->
  exists a', ('(a, i, more) ← split_first_loop N_powers a s g np 1 true; split_rest_loop N_powers a s g np i more) = Some a' /\ frame a a' /\ done_ok a'.
Proof using Hf Hs Hg Hmax Hwrite Hskip Hdone Hwrite0 Hskip0.
  intros Hlen HI. destruct (split_first_loop_ok N_powers 1 a ltac:(lia) ltac:(change (16 ^ (1 - 1)) with 1; lia) ltac:(change (Z.of_nat N_powers) with 14; lia) Hlen HI)
    as (a1 & i & more & -> & Hfr & Hcase). cbn [mbind option_bind]. destruct Hcase as [(-> & Hi & Hnp & HI1)|[-> Hd]].
  - destruct (split_rest_loop_ok N_powers i a1 Hi Hnp ltac:(change (Z.of_nat N_powers) with 14; lia) ltac:(by destruct Hfr as (_ & -> & _)) HI1) as (a2 & -> & Hfr2 & Hd).
    exists a2. split; [done|]. split; [by eapply frame_trans|done].
  - exists a1. split; [done|]. by split.
Qed.
End Loops.

(** The entries of the second part after the writes: they lead to cards from [low] on. *)
Definition weak_part (low : Z) (a : SharedArray) : Prop := forall c, s < c < g -> exists e, entry a c = Some e /\ leads_back low c e.

Lemma wrote_weak (low i : Z) (a a' : SharedArray) : low <= f -> 1 <= i < 14 -> wrote i a a' -> weak_part low a -> weak_part low a'.
Proof using Hs.
  intros Hlow Hi (_ & _ & In & Out) Hw c Hc.
  destruct (Z.le_gt_cases (f + 16 ^ i) c) as [H1|H1], (Z.lt_ge_cases c (Z.min (s + 16 ^ i) g)) as [H2|H2]; try (rewrite Out by lia; by apply Hw).
  exists (63 + i). rewrite In by lia. split; [done|]. unfold leads_back. split; [lia|].
  replace (63 + i - 64) with (i - 1) by lia. pose proof (pow16_succ (i - 1) ltac:(lia)) as Hp. rewrite Z.sub_add in Hp. pose proof (pow16_pos (i - 1) ltac:(lia)). lia.
Qed.

Lemma split_loops_weak (low : Z) (a : SharedArray) :
  low <= f -> g <= zlen (_offset_array a) < 2 ^ 63 -> weak_part low a ->
  exists a', ('(a, i, more) ← split_first_loop N_powers a s g np 1 true; split_rest_loop N_powers a s g np i more) = Some a' /\
    frame a a' /\ weak_part low a'.
Proof using Hf Hs Hg Hmax.
  intros Hlow Hlen Hw. apply (split_loops_ok (fun _ => weak_part low) (weak_part low)) with (I0 := weak_part low); try done.
  all: intros i a1 a2; intros; eapply (wrote_weak low i); try done; lia.
Qed.

(** The entries after the writes below a power: those up to [m] are relative to [s], the
    others still relative to [f]. *)
Definition exact_below (m : Z) (a : SharedArray) : Prop :=
  forall c, s < c < g -> entry a c = Some (back_entry (if c - s <? m then s else f) c).

(** The distance to [f] is in the same power block as the distance to [s]. *)
Lemma same_power (i c : Z) : 1 <= i -> 16 ^ (i - 1) <= c - s -> c - f < 16 ^ i -> back_entry s c = 63 + i /\ back_entry f c = 63 + i.
Proof using Hs.
  intros Hi Hlo Hhi. unfold back_entry.
  rewrite (log16_spec (c - s) (i - 1)), (log16_spec (c - f) (i - 1)) by (rewrite ?Z.sub_add; lia). lia.
Qed.

Lemma wrote_exact (i m : Z) (a a' : SharedArray) :
  1 <= i < 14 -> 0 < m -> (forall c, s < c < g -> m <= c - s -> 16 ^ (i - 1) <= c - s) -> 16 ^ (i - 1) <= 16 ^ i - np -> m <= 16 ^ i ->
  wrote i a a' -> exact_below m a -> exact_below (16 ^ i) a'.
Proof using Hs.
  intros Hi Hm Hm' Hnp Hmi (_ & _ & In & Out) Hex c Hc.
  destruct (Z.ltb_spec (c - s) (16 ^ i)) as [Hd|Hd].
  - destruct (Z.le_gt_cases (f + 16 ^ i) c) as [H1|H1].
    + rewrite In by lia. unfold back_entry. rewrite (log16_spec (c - s) (i - 1)) by (rewrite ?Z.sub_add; lia). f_equal. lia.
    + rewrite Out, Hex by lia. destruct (Z.ltb_spec (c - s) m); [done|].
      destruct (same_power i c ltac:(lia) ltac:(apply Hm'; lia) ltac:(lia)) as [-> ->]. done.
  - rewrite Out, Hex by lia. destruct (Z.ltb_spec (c - s) m); [lia|done].
Qed.

Lemma skip_exact (i m : Z) (a : SharedArray) :
  1 <= i < 14 -> g <= f + 16 ^ i -> (forall c, s < c < g -> m <= c - s -> 16 ^ (i - 1) <= c - s) -> exact_below m a -> exact_below (16 ^ i) a.
Proof using Hs.
  intros Hi Hg' Hm' Hex c Hc. rewrite Hex by lia. destruct (Z.ltb_spec (c - s) m), (Z.ltb_spec (c - s) (16 ^ i)); try done; try lia.
  destruct (same_power i c ltac:(lia) ltac:(apply Hm'; lia) ltac:(lia)) as [-> ->]. done.
Qed.

(** Prefixes for which the first write does not reach below its power block. *)
Definition good_prefix (n : Z) : Prop := n <= 15 * 16 ^ log16 n.

Lemma good_prefix_spec (i n : Z) : 1 <= i -> 16 ^ (i - 1) <= n < 16 ^ i -> good_prefix n -> 16 ^ (i - 1) <= 16 ^ i - n.
Proof using.
  intros Hi Hn Hg'. unfold good_prefix in Hg'. rewrite (log16_spec n (i - 1)) in Hg' by (rewrite ?Z.sub_add; lia).
  pose proof (pow16_succ (i - 1) ltac:(lia)) as Hp. rewrite Z.sub_add in Hp. lia.
Qed.

Lemma split_loops_exact (a : SharedArray) :
  good_prefix np -> g <= zlen (_offset_array a) < 2 ^ 63 -> exact_below np a ->
  exists a', ('(a, i, more) ← split_first_loop N_powers a s g np 1 true; split_rest_loop N_powers a s g np i more) = Some a' /\
    frame a a' /\ forall c, s < c < g -> entry a' c = Some (back_entry s c).
Proof using Hf Hs Hg Hmax.
  intros Hgood Hlen Hw.
  apply (split_loops_ok (fun i => exact_below (16 ^ (i - 1))) (fun a => forall c, s < c < g -> entry a c = Some (back_entry s c)))
    with (I0 := exact_below np); try done.
  - intros i a1 a2 Hi Hnp Hlt HI Hwr. rewrite Z.add_simpl_r. pose proof (pow16_pos (i - 1) ltac:(lia)) as Hpos.
    pose proof (pow16_succ (i - 1) ltac:(lia)) as Hp. rewrite Z.sub_add in Hp.
    apply (wrote_exact i (16 ^ (i - 1)) a1 a2); try done; lia.
  - intros i a1 Hi Hnp Hge HI. rewrite Z.add_simpl_r. apply (skip_exact i (16 ^ (i - 1))); try done; lia.
  - intros i a1 Hi Hge HI c Hc. rewrite HI by done. destruct (Z.ltb_spec (c - s) (16 ^ (i - 1))); [done|lia].
  - intros i a1 a2 Hi Hnp Hlt HI Hwr. rewrite Z.add_simpl_r. pose proof (good_prefix_spec i np ltac:(lia) Hnp Hgood).
    apply (wrote_exact i np a1 a2); try done; lia.
  - intros i a1 Hi Hnp Hge HI. rewrite Z.add_simpl_r. apply (skip_exact i np); try done; lia.
Qed.

(** The write for the power of 16 above the prefix: its first entry stays. *)
Lemma split_loops_far (i : Z) (a : SharedArray) :
  1 <= i -> 16 ^ (i - 1) <= np < 16 ^ i -> f + 16 ^ i < g -> g <= zlen (_offset_array a) < 2 ^ 63 ->
  exists a', ('(a, i, more) ← split_first_loop N_powers a s g np 1 true; split_rest_loop N_powers a s g np i more) = Some a' /\
    frame a a' /\ entry a' (f + 16 ^ i) = Some (63 + i).
Proof using Hf Hs Hg Hmax.
  intros Hi Hnp Hlt Hlen. assert (Hlog : forall j, 1 <= j -> 16 ^ (j - 1) <= np < 16 ^ j -> j = i).
  { intros j Hj Hnj. pose proof (log16_spec np (j - 1) ltac:(lia) ltac:(rewrite Z.sub_add; lia)).
    pose proof (log16_spec np (i - 1) ltac:(lia) ltac:(rewrite Z.sub_add; lia)). lia. }
  apply (split_loops_ok (fun _ a => entry a (f + 16 ^ i) = Some (63 + i)) (fun a => entry a (f + 16 ^ i) = Some (63 + i))) with (I0 := fun _ => True); try done.
  - intros j a1 a2 Hj Hnj _ HI (_ & _ & _ & Out). rewrite Out; [done|].
    destruct (Z.lt_ge_cases i j) as [Hij|Hij]; [pose proof (Z.pow_lt_mono_r 16 i j ltac:(lia) ltac:(lia) Hij); lia|].
    pose proof (Z.pow_le_mono_r 16 (j - 1) (i - 1) ltac:(lia) ltac:(lia)). lia.
  - intros j a1 a2 Hj Hnj _ _ (_ & _ & In & _). rewrite <- (Hlog j) by lia. apply In. rewrite (Hlog j) by lia. lia.
  - intros j a1 Hj Hnj Hge. rewrite (Hlog j) in Hge by lia. lia.
Qed.
End Split.

Section SplitCards.
Context (R : Z) (HR : 0 <= R < 2 ^ 62) (a : SharedArray) (Ha : reserved_start a = R).
Context (f s g m : Z) (Hf : 0 <= f <= s) (Hs : s <= g) (Hlen : g <= zlen (_offset_array a) < 2 ^ 52).
Context (Hm : 0 <= m <= card R s) (Hms : (card R s - m) / 8 < 64) (Hcs : card R s < 2 ^ 63).
Context (P : Z -> Z -> Prop).

Definition second_part (a' : SharedArray) : Prop := forall c, s < c < g -> exists e, entry a' c = Some e /\ P c e.

Lemma split_cards_ok :
  (g - s <= s - f -> forall c, s < c < g -> P c (back_entry s c)) -> (f = s -> second_part a) ->
  (f < s -> s - f < g - s -> forall a1, g <= zlen (_offset_array a1) < 2 ^ 63 ->
    (forall c, s < c < g -> entry a1 c = if c - s <? s - f then Some (back_entry s c) else entry a c) ->
    exists a', ('(a, i, more) ← split_first_loop N_powers a1 s g (s - f) 1 true; split_rest_loop N_powers a s g (s - f) i more) = Some a' /\
      frame s g a1 a' /\ second_part a') ->
  exists a', split_cards a f s g m = Some a' /\ reserved_start a' = R /\ zlen (_offset_array a') = zlen (_offset_array a) /\
    (forall c, ~ s <= c < g -> entry a' c = entry a c) /\
    (s < g -> entry a' s = Some ((card R s - m) / 8)) /\ second_part a'.
Proof using Ha Hf Hs Hlen Hm Hms Hcs.
  intros Hback Hsame Hloops. unfold split_cards. pow2_norm. rewrite !umod_id by (pow2_norm; lia).
  destruct (Z.ltb_spec 0 (g - s)).
  2: { exists a. assert (g = s) as -> by lia. split; [done|]. split; [done|]. split; [done|]. split; [done|]. split; [lia|]. intros c Hc. lia. }
  rewrite (address_for_index_eq R a Ha). pose proof (Z.div_pos (card R s - m) 8 ltac:(lia) ltac:(lia)).
  destruct (set_between_ok a s (card R s) m ltac:(lia) ltac:(lia) ltac:(pow2_norm; lia) ltac:(lia)) as (a1 & -> & (S1 & L1 & I1 & O1)). cbn [mbind option_bind].
  assert (Hfin : forall a', frame s g a1 a' -> second_part a' -> reserved_start a' = R /\ zlen (_offset_array a') = zlen (_offset_array a) /\
    (forall c, ~ s <= c < g -> entry a' c = entry a c) /\ (s < g -> entry a' s = Some ((card R s - m) / 8)) /\ second_part a').
  { intros a' (F1 & F2 & F3) Hsp. split; [congruence|]. split; [congruence|]. split; [intros c Hc; by rewrite F3, O1 by lia|].
    split; [|done]. intros _. by rewrite F3, I1 by lia. }
  destruct (Z.ltb_spec 0 (s - f)) as [Hnp|Hnp].
  2: { exists a1. split; [done|]. apply Hfin; [done|]. intros c Hc. rewrite O1 by lia. apply Hsame; lia. }
  destruct (Z.leb_spec (g - s) (s - f)) as [Hlong|Hshort].
  - destruct (remainder_ok a1 s (g - 1)) as (a' & -> & (S2 & L2 & I2 & O2)); try (pow2_norm; lia).
    exists a'. split; [done|]. apply Hfin; [split; [done|split; [done|intros c Hc; apply O2; lia]]|].
    intros c Hc. exists (back_entry s c). rewrite I2 by lia. split; [done|by apply Hback].
  - replace (s + (s - f) - 1) with (s + (s - f - 1)) by lia.
    destruct (remainder_ok a1 s (s + (s - f - 1))) as (a2 & -> & (S2 & L2 & I2 & O2)); try (pow2_norm; lia).
    cbn [mbind option_bind]. destruct (Hloops ltac:(lia) Hshort a2 ltac:(rewrite L2, L1; pow2_norm; lia)) as (a' & -> & Hfr & Hsp).
    + intros c Hc. destruct (Z.ltb_spec (c - s) (s - f)); [by rewrite I2 by lia|]. by rewrite O2, O1 by lia.
    + exists a'. split; [done|]. apply Hfin; [|done]. eapply frame_trans; [|exact Hfr]. split; [done|]. split; [done|]. intros c Hc. apply O2. lia.
Qed.
End SplitCards.

(** How entries survive a split of their block. *)
Record split_entries (Q : Z -> Z -> Z -> Prop) (low : Z) (good : Z -> Prop) : Prop := {
  split_back f c : low <= f < c -> c - f < 2 ^ 52 -> Q f c (back_entry f c);
  split_loops a f s g : 0 <= f -> low <= f < s -> s - f < g - s -> g < 2 ^ 52 -> good (s - f) -> g <= zlen (_offset_array a) < 2 ^ 63 ->
    (forall c, s < c < g -> if c - s <? s - f then entry a c = Some (back_entry s c) else exists e, entry a c = Some e /\ Q f c e) ->
    exists a', ('(a, i, more) ← split_first_loop N_powers a s g (s - f) 1 true; split_rest_loop N_powers a s g (s - f) i more) = Some a' /\
      frame s g a a' /\ forall c, s < c < g -> exists e, entry a' c = Some e /\ Q s c e;
}.

Lemma weak_split (low : Z) : split_entries (weak_entry low) low (fun _ => True).
Proof.
  assert (Hb : forall f c, low <= f < c -> c - f < 2 ^ 52 -> weak_entry low f c (back_entry f c)).
  { intros f c Hf Hc. destruct (back_entry_leads f c ltac:(lia) Hc) as [H1 H2]. split; [done|lia]. }
  split; [done|]. intros a f s g Hf0 Hf Hs Hg _ Hlen Hent. apply (split_loops_weak f s g Hf0 (proj2 Hf) Hs Hg low a (proj1 Hf) Hlen).
  intros c Hc. specialize (Hent c Hc). destruct (c - s <? s - f); [|done]. exists (back_entry s c). split; [done|]. apply (Hb s c); [lia|]. pow2_norm. lia.
Qed.

Lemma exact_split (low : Z) : split_entries exact_entry low good_prefix.
Proof.
  split; [done|]. intros a f s g Hf0 Hf Hs Hg Hgood Hlen Hent.
  destruct (split_loops_exact f s g Hf0 (proj2 Hf) Hs Hg a Hgood Hlen) as (a' & He & Hfr & Hex).
  - intros c Hc. specialize (Hent c Hc). destruct (c - s <? s - f); [done|]. destruct Hent as (e & -> & ->). done.
  - exists a'. split; [done|]. split; [done|]. intros c Hc. exists (back_entry s c). split; [by apply Hex|done].
Qed.

Lemma describes_two (R : Z) (Q : Z -> Z -> Z -> Prop) (a : SharedArray) (x m y : Z) :
  describes R Q a [x; m] -> describes R Q a [m; y] -> describes R Q a [x; m; y].
Proof.
  intros H1 H2 u v Huv. apply adj_cons_iff in Huv as [[<- [= <-]]|Huv]; [apply H1|by apply H2]. by exists [], [].
Qed.

Lemma tiling_split (x m y : Z) : tiling [x; y] x y -> x < m < y -> (8 | m) -> tiling [x; m; y] x y.
Proof.
  intros [_ _ _ Hw] Hm H8. apply list.Forall_cons in Hw as [Hx Hw]. split; try done.
  - repeat constructor; lia.
  - constructor; [done|]. by constructor.
Qed.

(** A block becomes two blocks. *)
Lemma block_split (R : Z) (Q : Z -> Z -> Z -> Prop) (good : Z -> Prop) (s : NonContigSpace) (l1 l2 : list Z) (x m y : Z) :
  let t := nc_table s in
  split_entries Q (fc R (_bottom t)) good -> table_ok R Q t (l1 ++ x :: y :: l2) -> x < m < y -> (8 | m) ->
  (fc R x < fc R m -> fc R m - fc R x < fc R y - fc R m -> good (fc R m - fc R x)) ->
  exists t', split_block s x ((y - x) / 8) ((m - x) / 8) = Some (with_table s t') /\ table_ok R Q t' (l1 ++ x :: m :: y :: l2) /\
    _bottom t' = _bottom t /\ _end t' = _end t /\ _init_to_zero t' = _init_to_zero t /\
    zlen (_offset_array (_array t')) = zlen (_offset_array (_array t)).
Proof.
  intros t [Hback Hloops] [(Ha & HR & HR5) (Hb & Hb5) (He & Hlen) Htil Hdes] Hm H8 Hgood.
  destruct (tiling_sub l1 [] l2 x y _ _ Htil) as (Hxy & H8x & H8y & Hlo & Hhi & Hone). pow2_norm.
  unfold split_block. fold t. rewrite !word_add_div by done.
  rewrite (last_card R HR HR5 _ Ha) by (pow2_norm; lia || done). rewrite !(first_card_eq R HR _ Ha) by (pow2_norm; lia). rewrite Z.sub_add.
  pose proof (fc_mono R _ _ Hlo). pose proof (fc_mono R x m ltac:(lia)). pose proof (fc_mono R m y ltac:(lia)). pose proof (fc_mono R _ _ Hhi).
  pose proof (fc_nonneg R _ Hb). pose proof (card_fc R m). pose proof (offset_bounds R m H8).
  assert (Hold : forall c, fc R x < c < fc R y -> exists e, entry (_array t) c = Some e /\ Q (fc R x) c e).
  { intros c Hc. by apply (Hdes x y (ex_intro _ l1 (ex_intro _ l2 eq_refl)) ltac:(lia)). }
  destruct (split_cards_ok R (_array t) Ha (fc R x) (fc R m) (fc R y) m ltac:(lia) ltac:(lia) ltac:(pow2_norm; lia) ltac:(lia) ltac:(lia) ltac:(pow2_norm; lia)
    (Q (fc R m))) as (a' & -> & S1 & L1 & O1 & E1 & P1).
  - intros _ c Hc. apply Hback; [lia|pow2_norm; lia].
  - intros Hfs c Hc. rewrite <- Hfs. apply Hold. lia.
  - intros Hfs Hshort a1 Hlen1 Hent. apply (Hloops a1 (fc R x)); try done; try (pow2_norm; lia); [by apply Hgood|].
    intros c Hc. rewrite (Hent c Hc). destruct (c - fc R m <? fc R m - fc R x); [done|]. apply Hold. lia.
  - exists (set_array t a'). split; [done|]. split; [|by rewrite <- L1].
    split; cbn [set_array _array _bottom _end]; [by rewrite S1|done|by rewrite L1|apply (tiling_replace l1 [] [m] l2); [done|by apply tiling_split]|].
    apply (describes_replace R Q (_array t) a' l1 [] [m] l2 x y); [apply Htil|done|intros c Hc; apply O1; lia|]. cbn [app].
    apply describes_two; apply describes_one; [|intros Hf; split; [apply E1; lia|exact P1]]. intros Hf.
    destruct (Hdes x y (ex_intro _ l1 (ex_intro _ l2 eq_refl)) ltac:(lia)) as [D1 D2].
    split; [rewrite O1 by lia; done|]. intros c Hc. rewrite O1 by lia. apply D2. lia.
Qed.

(** *** Creating and growing a table *)

Lemma new_table_ok (R fin : Z) (a : SharedArray) :
  reserved_start a = R -> 0 <= R -> (512 | R) -> (8 | fin) -> R < fin < 2 ^ 62 -> fc R fin <= zlen (_offset_array a) < 2 ^ 52 ->
  exists t, new_NonContigSpace a R fin = Some (mkNonContig t R) /\ table_ok R exact_entry t [R; fin] /\
    _bottom t = R /\ _end t = fin /\ _init_to_zero t = false /\ zlen (_offset_array (_array t)) = zlen (_offset_array a).
Proof.
  intros Ha HR HR5 H8 Hfin Hlen. pow2_norm. assert (HR2 : 0 <= R < 2 ^ 62) by (pow2_norm; lia).
  assert (HfR : fc R R = 0) by (unfold fc; rewrite Z.sub_diag; done).
  assert (Hpos : 0 < fc R fin). { destruct (Z.lt_ge_cases 0 (fc R fin)) as [|Hle]; [done|]. apply fc_spec in Hle. unfold card in Hle. lia. }
  assert (Hrem : exists a1, set_remainder_to_point_to_start a (word_add R N_words) fin = Some a1 /\ updated a a1 1 (fc R fin) (back_entry 0)).
  { unfold set_remainder_to_point_to_start, word_add. rewrite N_words_eq. change HeapWordSize with 8. destruct (Z.leb_spec fin (R + 8 * 64)) as [Hs|Hl].
    - exists a. split; [done|]. apply updated_refl. apply fc_spec. unfold card. lia.
    - rewrite (index_for_eq R HR2 a Ha) by (pow2_norm; lia). change (fin + 8 * -1) with (word_add fin (-1)).
      rewrite (last_card R HR2 HR5 a Ha) by (pow2_norm; lia || done). replace ((R + 8 * 64 - R) / 512) with (0 + 1) by (replace (R + 8 * 64 - R) with 512 by lia; done).
      destruct (remainder_ok a 0 (fc R fin - 1)) as (a1 & -> & Hu); try (pow2_norm; lia). exists a1. split; [done|]. by rewrite Z.sub_add in Hu. }
  destruct Hrem as (a1 & Hrun & (S1 & L1 & I1 & O1)). unfold new_NonContigSpace, new_BlockOffsetArray. cbn [negb]. rewrite Hrun. cbn [mbind option_bind].
  destruct (set_entry_ok a1 0 0) as (a2 & -> & (S2 & L2 & I2 & O2)); try lia. cbn [mbind option_bind _bottom].
  eexists. split; [done|]. split; [|repeat split; cbn; congruence]. split; cbn [_array _bottom _end]; [split; [congruence|done]|done|rewrite L2, L1; pow2_norm; lia| |].
  - split; try done; [repeat constructor; lia|]. constructor; [|by constructor]. destruct HR5 as [k ->]. exists (k * 64). lia.
  - apply describes_one. rewrite HfR. intros _. split.
    + rewrite I2 by lia. unfold card. by rewrite Z.mul_0_r, Z.add_0_r, Z.sub_diag.
    + intros c Hc. exists (back_entry 0 c). by rewrite O2, I1 by lia.
Qed.


Lemma fc_aligned (R p : Z) : (512 | R) -> (512 | p) -> fc R p = (p - R) / 512 /\ card R (fc R p) = p.
Proof.
  intros [k ->] [j ->]. unfold card, fc. replace (j * 512 - k * 512 + 511) with (511 + (j - k) * 512) by lia.
  replace (j * 512 - k * 512) with ((j - k) * 512) by lia. rewrite Z.div_add, Z.div_mul by lia. change (511 / 512) with 0. lia.
Qed.

(** New cards are only written behind the end of the table. *)
Lemma resize_ok (R : Z) (t : BlockOffsetArray) (words : Z) :
  let fin := word_add (_bottom t) words in
  reserved_start (_array t) = R -> 0 <= R -> (512 | R) -> (512 | _end t) -> R <= _end t -> _end t < fin < 2 ^ 62 -> _init_to_zero t = false ->
  fc R fin <= zlen (_offset_array (_array t)) < 2 ^ 52 ->
  exists a', resize t words = Some (mkBOT a' (_bottom t) fin false) /\ reserved_start a' = R /\
    zlen (_offset_array a') = zlen (_offset_array (_array t)) /\ forall c, c < fc R (_end t) -> entry a' c = entry (_array t) c.
Proof.
  intros fin Ha HR HR5 He5 HRe Hfin Hz Hlen. pow2_norm. assert (HR2 : 0 <= R < 2 ^ 62) by (pow2_norm; lia). destruct (fc_aligned R (_end t) HR5 He5) as [Hfe Hce].
  unfold resize. fold fin. rewrite Hz. destruct (Z.ltb_spec (_end t) fin); [|lia]. cbn [negb andb].
  unfold set_offset_array_region. rewrite words_between_eq by (pow2_norm; lia). change LogN_words with 6. rewrite Z.shiftr_div_pow2 by lia.
  rewrite Z.div_div by lia. change (8 * 2 ^ 6) with 512. rewrite (index_for_eq R HR2 _ Ha) by (pow2_norm; lia). rewrite <- Hfe, N_words_eq.
  pose proof (fc_nonneg R _ HRe). pose proof (Z.div_pos (fin - _end t) 512 ltac:(lia) ltac:(lia)).
  assert ((fin - _end t) / 512 <= fc R fin - fc R (_end t)).
  { destruct (card_fc R fin) as [Hc _]. apply Z.div_le_upper_bound; [lia|]. unfold card in *. lia. }
  destruct (set_entries_ok (Z.to_nat ((fin - _end t) / 512)) (_array t) (fc R (_end t)) 64) as (a' & -> & (S1 & L1 & _ & O1)); try lia.
  exists a'. split; [done|]. split; [congruence|]. split; [congruence|]. intros c Hc. apply O1. lia.
Qed.

Lemma tiling_snoc (bs : list Z) (lo hi fin : Z) : tiling bs lo hi -> hi < fin -> (8 | fin) -> tiling (bs ++ [fin]) lo fin.
Proof.
  intros Ht Hfin H8. pose proof Ht as [Hs Hf _ Hw]. split.
  - apply sorted_app_iff. split; [done|]. split; [by repeat constructor|]. intros u v Hu ->%list_elem_of_singleton.
    destruct (tiling_range _ _ _ u Ht Hu). lia.
  - by destruct bs.
  - by rewrite last_snoc.
  - apply Forall_app. split; [done|]. by constructor.
Qed.

(** The words behind the end become a block. *)
Lemma table_grown (R : Z) (Q : Z -> Z -> Z -> Prop) (t : BlockOffsetArray) (bs : list Z) (words : Z) :
  let fin := word_add (_bottom t) words in
  (forall f c, fc R (_bottom t) <= f < c -> c - f < 2 ^ 52 -> Q f c (back_entry f c)) ->
  table_ok R Q t bs -> _init_to_zero t = false -> (512 | _end t) -> _end t < fin < 2 ^ 62 -> fc R fin <= zlen (_offset_array (_array t)) ->
  exists t1 t', resize t words = Some t1 /\ single_block t1 (_end t) fin = Some t' /\ table_ok R Q t' (bs ++ [fin]) /\
    _bottom t' = _bottom t /\ _end t' = fin /\ _init_to_zero t' = false /\ zlen (_offset_array (_array t')) = zlen (_offset_array (_array t)).
Proof.
  intros fin HQ [(Ha & HR & HR5) (Hb & Hb5) (He & Hlen) Htil Hdes] Hz He5 Hfin Hcap. pow2_norm.
  destruct (tiling_range _ _ _ (_end t) Htil) as [Hbe _]; [apply last_Some_elem_of, Htil|].
  assert (H8 : (8 | fin)). { destruct Hb5 as [k Hk]. exists (k * 64 + words). unfold fin, word_add. change HeapWordSize with 8. lia. }
  assert (H8e : (8 | _end t)) by (destruct He5 as [k ->]; exists (k * 64); lia).
  destruct (resize_ok R t words Ha) as (a1 & Hrun & S1 & L1 & O1); try (pow2_norm; fold fin; lia) || done. fold fin in Hrun.
  set (t1 := mkBOT a1 (_bottom t) fin false) in *. exists t1.
  destruct (do_block_ok R HR HR5 t1 (_end t) fin Action_single S1) as (a' & Hsb & (S2 & L2 & I2 & O2)); try (cbn; pow2_norm; lia) || done; [by left|].
  exists (set_array t1 a'). split; [done|]. split; [done|]. split; [|cbn in *; repeat split; congruence].
  pose proof (fc_mono R (_end t) fin ltac:(lia)). cbn [t1 _array] in *.
  split; cbn [set_array _array _bottom _end t1]; [split; [congruence|done]|done|rewrite L2, L1; pow2_norm; lia|apply (tiling_snoc _ _ (_end t)); done || lia|].
  intros u v Huv Hf. destruct (proj1 (last_Some bs (_end t)) (tiling_last _ _ _ Htil)) as [l ->]. rewrite <- app_assoc in Huv. cbn [app] in Huv.
  rewrite adj_app_cons in Huv. destruct Huv as [Huv|Huv].
  - assert (Hv : v <= _end t). { apply adj_elem in Huv as [_ Hv]. by apply (tiling_range _ _ _ v Htil). }
    pose proof (fc_mono R v _ Hv). destruct (Hdes u v Huv Hf) as [D1 D2].
    split; [by rewrite O2, O1 by lia|]. intros c Hc. rewrite O2, O1 by lia. by apply D2.
  - assert (u = _end t /\ v = fin) as [-> ->].
    { apply adj_cons_iff in Huv as [[<- [= <-]]|Huv]; [done|]. apply adj_cons_iff in Huv as [[_ ?]|([|] & ? & ?)]; done. }
    split; [rewrite I2 by lia; unfold block_entry; by rewrite Z.eqb_refl|]. intros c Hc. exists (back_entry (fc R (_end t)) c).
    rewrite I2 by lia. unfold block_entry. destruct (Z.eqb_spec c (fc R (_end t))); [lia|]. split; [done|].
    pose proof (fc_mono R _ _ Hbe). pose proof (fc_nonneg R _ Hb). apply HQ; [lia|pow2_norm; lia].
Qed.

(** ** Sequences of operations *)

Inductive TableOp :=
  | op_single (blk_start blk_end : Z)
  | op_mark (blk_start blk_end : Z)
  | op_alloc (blk_start blk_end : Z)
  | op_split (blk blk_size left_blk_size : Z)
  | op_expand (new_word_size : Z).

(** After [resize] the owner of the table records the words it gained as a block. *)
Definition do_op (s : NonContigSpace) (op : TableOp) : option NonContigSpace :=
  match op with
  | op_single x y => t ← single_block (nc_table s) x y; Some (with_table s t)
  | op_mark x y => t ← mark_block (nc_table s) x y; Some (with_table s t)
  | op_alloc x y => alloc_block false s x y
  | op_split x size left_size => split_block s x size left_size
  | op_expand words =>
      t ← resize (nc_table s) words; t' ← single_block t (_end (nc_table s)) (_end t); Some (with_table s t')
  end.

Fixpoint do_ops (s : NonContigSpace) (ops : list TableOp) : option NonContigSpace :=
  match ops with
  | [] => Some s
  | op :: ops => s ← do_op s op; do_ops s ops
  end.

(** What the operations mean for the blocks: a run of blocks becomes one, a block becomes
    two, or a block is added behind the last; [cards] is the number of cards of the array
    that starts at [R]. *)
Inductive block_step (R cards : Z) (good : Z -> Prop) : list Z -> TableOp -> list Z -> Prop :=
  | step_single l1 mid l2 x y : block_step R cards good (l1 ++ x :: mid ++ y :: l2) (op_single x y) (l1 ++ x :: y :: l2)
  | step_mark l1 mid l2 x y : block_step R cards good (l1 ++ x :: mid ++ y :: l2) (op_mark x y) (l1 ++ x :: y :: l2)
  | step_alloc l1 mid l2 x y : block_step R cards good (l1 ++ x :: mid ++ y :: l2) (op_alloc x y) (l1 ++ x :: y :: l2)
  | step_split l1 l2 x m y :
      x < m < y -> (8 | m) -> (fc R x < fc R m -> fc R m - fc R x < fc R y - fc R m -> good (fc R m - fc R x)) ->
      block_step R cards good (l1 ++ x :: y :: l2) (op_split x ((y - x) / 8) ((m - x) / 8)) (l1 ++ x :: m :: y :: l2)
  | step_expand bs hi words :
      list.last bs = Some hi -> (512 | hi) -> hi < R + 8 * words < 2 ^ 62 -> R + 8 * words <= card R cards ->
      block_step R cards good bs (op_expand words) (bs ++ [R + 8 * words]).

Inductive block_steps (R cards : Z) (good : Z -> Prop) : list Z -> list TableOp -> list Z -> Prop :=
  | steps_nil bs : block_steps R cards good bs [] bs
  | steps_cons bs op bs' ops bs'' :
      block_step R cards good bs op bs' -> block_steps R cards good bs' ops bs'' -> block_steps R cards good bs (op :: ops) bs''.

Section Sequences.
Context (R cards : Z) (good : Z -> Prop) (Q : Z -> Z -> Z -> Prop) (HQ : split_entries Q (fc R R) good).

Record space_ok (s : NonContigSpace) (bs : list Z) : Prop := {
  space_table : table_ok R Q (nc_table s) bs;
  space_bottom : _bottom (nc_table s) = R;
  space_shape : _init_to_zero (nc_table s) = false /\ zlen (_offset_array (_array (nc_table s))) = cards;
}.

Lemma step_ok (s : NonContigSpace) (bs bs' : list Z) (op : TableOp) :
  space_ok s bs -> block_step R cards good bs op bs' -> exists s', do_op s op = Some s' /\ space_ok s' bs'.
Proof using HQ.
  intros [Ht Hb [Hz Hc]] Hstep. assert (HQ' : split_entries Q (fc R (_bottom (nc_table s))) good) by by rewrite Hb. destruct Hstep as [l1 mid l2 x y|l1 mid l2 x y|l1 mid l2 x y|l1 l2 x m y Hm H8 Hgood|bs hi words Hlast H5 Hhi Hcap]; cbn [do_op].
  1: destruct (block_merged R Q _ l1 mid l2 x y Action_single (split_back _ _ _ HQ') Ht (or_introl eq_refl)) as (t' & Hrun & Ht' & Eb & Ee & Ez & El).
  2: destruct (block_merged R Q _ l1 mid l2 x y Action_mark (split_back _ _ _ HQ') Ht (or_intror (conj eq_refl Hz))) as (t' & Hrun & Ht' & Eb & Ee & Ez & El).
  3: destruct (block_merged R Q _ l1 mid l2 x y Action_single (split_back _ _ _ HQ') Ht (or_introl eq_refl)) as (t' & Hrun & Ht' & Eb & Ee & Ez & El).
  4: destruct (block_split R Q good s l1 l2 x m y HQ' Ht Hm H8 Hgood) as (t' & Hrun & Ht' & Eb & Ee & Ez & El).
  1-4: exists (with_table s t'); split; [|split; cbn; [done|congruence|split; congruence]].
  1-4: unfold single_block, mark_block, alloc_block, single_block, allocated; by rewrite Hrun.
  pose proof (table_tiling _ _ _ _ Ht) as Htil. assert (hi = _end (nc_table s)) as -> by (pose proof (tiling_last _ _ _ Htil); congruence).
  assert (Hfin : word_add (_bottom (nc_table s)) words = R + 8 * words) by (rewrite Hb; done).
  destruct (table_grown R Q (nc_table s) bs words (split_back _ _ _ HQ') Ht Hz H5) as (t1 & t' & Hres & Hsb & Ht' & Eb & Ee & Ez & El).
  { rewrite Hfin. lia. } { rewrite Hfin. apply fc_spec. by rewrite Hc. }
  rewrite Hfin in *. assert (E1 : _end t1 = R + 8 * words).
  { unfold resize in Hres. rewrite Hfin in Hres. destruct (_ && _); [destruct (set_offset_array_region _ _ _ _); [|done]|]; by injection Hres as <-. }
  exists (with_table s t'). rewrite Hres. cbn [mbind option_bind]. rewrite E1, Hsb. split; [done|]. split; cbn; [done|congruence|split; congruence].
Qed.

Lemma steps_ok (s : NonContigSpace) (bs bs' : list Z) (ops : list TableOp) :
  space_ok s bs -> block_steps R cards good bs ops bs' -> exists s', do_ops s ops = Some s' /\ space_ok s' bs'.
Proof using HQ.
  intros Hs Hsteps. revert s Hs. induction Hsteps as [bs|bs op bs1 ops bs2 Hstep Hsteps IH]; intros s Hs; [by exists s|].
  destruct (step_ok s bs bs1 op Hs Hstep) as (s1 & He & Hs1). cbn [do_ops]. rewrite He. by apply IH.
Qed.
End Sequences.

(** A shared array from the address [R] on, with a card for each 512 bytes up to [fin]. *)
Record covers (a : SharedArray) (R fin : Z) : Prop := {
  covers_start : reserved_start a = R /\ 0 <= R /\ (512 | R);
  covers_end : R < fin < 2 ^ 62 /\ (8 | fin);
  covers_cards : fin <= card R (zlen (_offset_array a)) /\ zlen (_offset_array a) < 2 ^ 52;
}.

Lemma new_space_ok (a : SharedArray) (R fin : Z) (Q : Z -> Z -> Z -> Prop) :
  covers a R fin -> (forall x c, fc R R <= x < c -> c < 2 ^ 52 -> Q x c (back_entry x c)) ->
  exists s, new_NonContigSpace a R fin = Some s /\ space_ok R (zlen (_offset_array a)) Q s [R; fin].
Proof.
  intros [(Ha & HR & HR5) (Hfin & H8) (Hc & Hlen)] HQ. apply fc_spec in Hc.
  destruct (new_table_ok R fin a Ha HR HR5 H8 Hfin (conj Hc Hlen)) as (t & Hrun & Ht & Hb & He & Hz & Hl).
  eexists. split; [done|]. split; cbn [nc_table]; [|done|done]. destruct Ht as [T1 T2 T3 T4 T5]. split; try done.
  eapply describes_impl; [|exact T5]. intros x y c e Hxy Hcr ->. apply adj_elem in Hxy as [Hx Hy].
  apply (tiling_range _ _ _ _ T4) in Hx, Hy. pose proof (fc_mono R (_bottom t) x ltac:(lia)). pose proof (fc_mono R y (_end t) ltac:(lia)).
  rewrite Hb in *. apply HQ; lia.
Qed.

(** Entries relative to the first card of the block stay in the block. *)
Lemma exact_inner (R : Z) (t : BlockOffsetArray) (bs : list Z) : table_ok R exact_entry t bs -> table_ok R inner_entry t bs.
Proof.
  intros [T1 T2 T3 T4 T5]. split; try done. eapply describes_impl; [|exact T5]. intros x y c e [Hx Hy]%adj_elem Hcr ->.
  apply (tiling_range _ _ _ _ T4) in Hx, Hy. pose proof (fc_nonneg R x ltac:(lia)). pose proof (fc_mono R y (_end t) ltac:(lia)).
  apply back_entry_leads; [lia|pow2_norm; lia].
Qed.
Lemma inner_weak (R : Z) (t : BlockOffsetArray) (bs : list Z) : table_ok R inner_entry t bs -> table_ok R (weak_entry (fc R (_bottom t))) t bs.
Proof.
  intros [T1 T2 T3 T4 T5]. split; try done. eapply describes_impl; [|exact T5]. intros x y c e [Hx _]%adj_elem _ [H1 H2].
  apply (tiling_range _ _ _ _ T4) in Hx. pose proof (fc_mono R (_bottom t) x ltac:(lia)). split; [done|lia].
Qed.

(** C6: Every sequence of operations on the table of a non-contiguous space, each applied to
    blocks that are in the table (blocks joined into one, marked or allocated, a block
    split in two, the space expanded), succeeds, and afterwards the lookup gives for each
    address of the space the start of the block that contains it, and null for the others. *)
Theorem block_start_after_operations (a : SharedArray) (R fin : Z) (ops : list TableOp) (bs : list Z) :
  covers a R fin -> block_steps R (zlen (_offset_array a)) (fun _ => True) [R; fin] ops bs ->
  exists s0 s hi, new_NonContigSpace a R fin = Some s0 /\ do_ops s0 ops = Some s /\ list.last bs = Some hi /\
    forall block_size p, (forall u v, adj bs u v -> block_size u = (v - u) / 8) ->
      if bool_decide (R <= p < hi) then exists u v, block_start false s block_size p = Some u /\ adj bs u v /\ u <= p < v
      else block_start false s block_size p = Some 0.
Proof.
  intros Hc Hsteps. destruct (new_space_ok a R fin (weak_entry (fc R R)) Hc) as (s0 & Hnew & Hs0).
  { intros x c Hx Hcl. pose proof (fc_nonneg R R (Z.le_refl R)). apply (split_back _ _ _ (weak_split (fc R R))); [lia|pow2_norm; lia]. }
  destruct (steps_ok R _ _ _ (weak_split (fc R R)) s0 _ bs ops Hs0 Hsteps) as (s & Hrun & [Ht Hb _]).
  exists s0, s, (_end (nc_table s)). split; [done|]. split; [done|]. split; [apply (table_tiling _ _ _ _ Ht)|]. intros block_size p Hsize.
  unfold block_start. rewrite Hb. case_bool_decide as Hp.
  - destruct (Z.leb_spec R p), (Z.ltb_spec p (_end (nc_table s))); try lia. cbn [andb].
    apply (block_start_ok R); rewrite ?Hb; done.
  - destruct (Z.leb_spec R p), (Z.ltb_spec p (_end (nc_table s))); try done. lia.
Qed.

(** C16: After each sequence of operations in which no split leaves a first part that starts
    fewer cards than the second, but more than fifteen sixteenths of a power of 16 and less
    than that power, the lookup that does not read the blocks gives the right block for
    every card boundary of the space, and the check of the cards of every block passes. *)
Theorem careful_after_operations (a : SharedArray) (R fin : Z) (ops : list TableOp) (bs : list Z) :
  covers a R fin -> block_steps R (zlen (_offset_array a)) good_prefix [R; fin] ops bs ->
  exists s0 s hi, new_NonContigSpace a R fin = Some s0 /\ do_ops s0 ops = Some s /\ list.last bs = Some hi /\
    (forall p, R <= p < hi -> (512 | p) -> exists u v, block_start_careful false s p = Some u /\ adj bs u v /\ u <= p < v) /\
    (forall u v, adj bs u v -> do_block_internal (nc_table s) u v Action_check = Some (nc_table s)).
Proof.
  intros Hc Hsteps. destruct (new_space_ok a R fin exact_entry Hc) as (s0 & Hnew & Hs0); [done|].
  destruct (steps_ok R _ _ _ (exact_split (fc R R)) s0 _ bs ops Hs0 Hsteps) as (s & Hrun & [Ht Hb _]).
  exists s0, s, (_end (nc_table s)). split; [done|]. split; [done|]. split; [apply (table_tiling _ _ _ _ Ht)|].
  pose proof Ht as [(Ha & HR & HR5) T2 (He & Hlen) T4 T5].
  assert (Hrange : forall u v, adj bs u v -> R <= u /\ v <= _end (nc_table s) /\ fc R v <= fc R (_end (nc_table s))).
  { intros u v [Hu Hv]%adj_elem. apply (tiling_range _ _ _ _ T4) in Hu, Hv. pose proof (fc_mono R v (_end (nc_table s)) ltac:(lia)). lia. }
  split.
  - intros p Hp Hp5. apply (block_start_careful_ok R); [by apply exact_inner|by rewrite Hb|done].
  - intros u v Huv. destruct (Hrange u v Huv) as (? & ? & ?). pose proof (adj_lt bs u v (tiling_sorted _ _ _ T4) Huv).
    pose proof (tiling_words _ _ _ T4) as Hw. rewrite list.Forall_forall in Hw. destruct (adj_elem bs u v Huv) as [Hu Hv].
    apply (check_block_ok R HR HR5); try (by apply Hw) || done; try lia.
    + intros Hf. by apply (T5 u v Huv Hf).
    + intros c Hc'. destruct (proj2 (T5 u v Huv ltac:(lia)) c Hc') as (e & -> & ->). done.
Qed.

(** An array from the address 1 MB on. *)
Definition zero_array (cards : nat) : SharedArray := mkSharedArray 1048576 (replicate cards 0).

(** A split behind a prefix of the other kind: the entries of the first part stay, and one
    of the second part leads back into it. *)
Lemma split_far (R : Z) (s : NonContigSpace) (l1 l2 : list Z) (x m y i : Z) :
  let t := nc_table s in let f := fc R x in
  table_ok R exact_entry t (l1 ++ x :: y :: l2) -> x < m < y -> (8 | m) -> 1 <= i ->
  16 ^ (i - 1) <= fc R m - f < 16 ^ i -> fc R m - f < fc R y - fc R m -> f + 16 ^ i < fc R y ->
  exists a', split_block s x ((y - x) / 8) ((m - x) / 8) = Some (with_table s (set_array t a')) /\ reserved_start a' = R /\
    (forall c, c < fc R m -> entry a' c = entry (_array t) c) /\ entry a' (f + 16 ^ i) = Some (63 + i).
Proof.
  intros t f [(Ha & HR & HR5) (Hb & Hb5) (He & Hlen) Htil Hdes] Hm H8 Hi Hnp Hshort Hlt.
  destruct (tiling_sub l1 [] l2 x y _ _ Htil) as (Hxy & H8x & H8y & Hlo & Hhi & Hone). pow2_norm.
  unfold split_block. fold t. rewrite !word_add_div by done.
  rewrite (last_card R HR HR5 _ Ha) by (pow2_norm; lia || done). rewrite !(first_card_eq R HR _ Ha) by (pow2_norm; lia). rewrite Z.sub_add.
  pose proof (fc_mono R _ _ Hlo). pose proof (fc_mono R m y ltac:(lia)). pose proof (fc_mono R _ _ Hhi).
  pose proof (fc_nonneg R _ Hb). pose proof (card_fc R m). pose proof (offset_bounds R m H8). pose proof (pow16_pos (i - 1) ltac:(lia)).
  destruct (split_cards_ok R (_array t) Ha (fc R x) (fc R m) (fc R y) m ltac:(lia) ltac:(lia) ltac:(pow2_norm; lia) ltac:(lia) ltac:(lia) ltac:(pow2_norm; lia)
    (fun c e => c = f + 16 ^ i -> e = 63 + i)) as (a' & -> & S1 & _ & O1 & _ & P1); [lia|lia| |].
  - intros Hfs _ a1 Hlen1 Hent. destruct (split_loops_far (fc R x) (fc R m) (fc R y) ltac:(lia) Hfs Hshort ltac:(pow2_norm; lia) i a1 Hi Hnp Hlt Hlen1)
      as (a' & Hrun & (F1 & F2 & F3) & He').
    exists a'. split; [done|]. split; [done|]. intros c Hc. destruct (entry_in a' c) as [e Hce]; [rewrite F2; lia|].
    exists e. split; [done|]. intros ->. unfold entry, f in *. congruence.
  - exists a'. split; [done|]. split; [done|]. split; [intros c Hc; apply O1; lia|].
    destruct (P1 (f + 16 ^ i) ltac:(lia)) as (e & -> & ->); done.
Qed.

Lemma split_far_careful (R : Z) (s : NonContigSpace) (a' : SharedArray) (l1 l2 : list Z) (x m y i : Z) :
  let t := nc_table s in let f := fc R x in
  table_ok R exact_entry t (l1 ++ x :: y :: l2) -> x < m < y -> 1 <= i -> 15 * 16 ^ (i - 1) < fc R m - f < 16 ^ i -> f + 16 ^ i < fc R y ->
  reserved_start a' = R -> (forall c, c < fc R m -> entry a' c = entry (_array t) c) -> entry a' (f + 16 ^ i) = Some (63 + i) ->
  block_start_careful false (with_table s (set_array t a')) (card R (f + 16 ^ i)) = Some x.
Proof.
  intros t f Ht Hm Hi Hn Hlt Ha' Hout Hfar. pose proof (table_tiling _ _ _ _ Ht) as Htil. destruct (table_start _ _ _ _ Ht) as (Ha & HR & HR5).
  destruct (table_bottom _ _ _ _ Ht) as [Hb _], (table_end _ _ _ _ Ht) as [He Hlen]. destruct (tiling_sub l1 [] l2 x y _ _ Htil) as (_ & H8x & _ & Hlo & Hhi & _).
  pose proof (pow16_succ (i - 1) ltac:(lia)) as Hp. rewrite Z.sub_add in Hp. pose proof (pow16_pos (i - 1) ltac:(lia)) as Hpos.
  destruct (table_describes _ _ _ _ (exact_inner R t _ Ht) x y (ex_intro _ l1 (ex_intro _ l2 eq_refl)) ltac:(lia)) as [H1 H2].
  pose proof (fc_mono R _ _ Hhi). pose proof (fc_nonneg R x ltac:(lia)). fold f in H1, H2. set (c0 := f + 16 ^ i) in *.
  assert (Hidx : index_for a' (card R c0) = c0).
  { rewrite (index_for_eq R HR a' Ha') by (unfold card; pow2_norm; lia). unfold card. replace (R + 512 * c0 - R) with (c0 * 512) by lia. apply Z.div_mul. lia. }
  apply (careful_leads R _ (fun c => c = c0 \/ f <= c < fc R m)); cbn [with_table set_array nc_table _array]; rewrite ?Hidx; try done; try (by left).
  - intros c Hc. lia.
  - by rewrite Hout by lia.
  - intros c [->|Hc] Hne.
    + exists (63 + i). split; [done|]. replace (63 + i - 64) with (i - 1) by lia. split; [|right; lia].
      assert (i < 14); [|lia]. destruct (Z.lt_ge_cases i 14) as [|H14]; [done|]. pose proof (Z.pow_le_mono_r 16 14 i ltac:(lia) H14). change (16 ^ 14) with (2 ^ 56) in *. pow2_norm. lia.
    + destruct (H2 c ltac:(lia)) as (e & He1 & He2 & He3). exists e. rewrite Hout by lia. split; [done|]. split; [done|].
      pose proof (Z.pow_pos_nonneg 16 (e - 64) ltac:(lia) ltac:(lia)). right. lia.
Qed.

(** C40: The condition of the previous property is exact. When a block [x, y) of a table
    that such operations reached is split at [m], and the first part starts fewer cards than
    the second, more than fifteen sixteenths of a power of 16 and less than that power, then
    for the card that lies this power behind the first card of the block, a card of the
    second part, the lookup that does not read the blocks gives the first part, and only the
    lookup that goes on from block to block gives the second. *)
Theorem split_block_leads_too_far (a : SharedArray) (R fin : Z) (ops : list TableOp) (l1 l2 : list Z) (x m y : Z) :
  let n := fc R m - fc R x in let p := card R (fc R x + 16 ^ (log16 n + 1)) in
  covers a R fin -> block_steps R (zlen (_offset_array a)) good_prefix [R; fin] ops (l1 ++ x :: y :: l2) ->
  x < m < y -> (8 | m) -> 0 < n < fc R y - fc R m -> ~ good_prefix n ->
  exists s0 s s', new_NonContigSpace a R fin = Some s0 /\ do_ops s0 ops = Some s /\ split_block s x ((y - x) / 8) ((m - x) / 8) = Some s' /\
    m <= p < y /\ block_start_careful false s' p = Some x /\
    forall block_size, (forall u v, adj (l1 ++ x :: m :: y :: l2) u v -> block_size u = (v - u) / 8) -> block_start false s' block_size p = Some m.
Proof.
  intros n p Hc Hsteps Hm H8 Hn Hbad. destruct (new_space_ok a R fin exact_entry Hc) as (s0 & Hnew & Hs0); [done|].
  destruct (steps_ok R _ _ _ (exact_split (fc R R)) s0 _ _ ops Hs0 Hsteps) as (s & Hrun & [Ht Hb _]).
  destruct (log16_bounds n ltac:(lia)) as [Hi0 Hi]. set (i := log16 n + 1) in *. unfold good_prefix in Hbad.
  replace (log16 n) with (i - 1) in Hbad, Hi by lia. pose proof (pow16_succ (i - 1) ltac:(lia)) as Hp. rewrite Z.sub_add in Hp.
  destruct (split_far R s l1 l2 x m y i Ht Hm H8 ltac:(lia) ltac:(lia) ltac:(lia) ltac:(lia)) as (a' & Hsplit & Ha' & Hout & Hfar).
  assert (Hpr : m <= p < y) by (split; [apply fc_spec; lia|apply Z.nle_gt; intros H'; apply fc_spec in H'; lia]).
  exists s0, s, (with_table s (set_array (nc_table s) a')). split; [done|]. split; [done|]. split; [done|]. split; [done|].
  split; [apply (split_far_careful R s a' l1 l2 x m y); try done; lia|]. intros block_size Hsize.
  pose proof (inner_weak _ _ _ (exact_inner _ _ _ Ht)) as Hw.
  destruct (block_split R _ _ s l1 l2 x m y (weak_split _) Hw Hm H8 (fun _ _ => I)) as (t' & Hs' & Ht' & Hb' & _).
  rewrite Hsplit in Hs'. injection Hs' as Hs'. rewrite Hs' in *. rewrite <- Hb' in Ht'.
  destruct (tiling_sub l1 [] (y :: l2) x m _ _ (table_tiling _ _ _ _ Ht')) as (_ & _ & _ & Hlo & _).
  destruct (tiling_sub (l1 ++ [x]) [] l2 m y (_bottom t') (_end t')) as (_ & _ & _ & _ & Hhi & _); [rewrite <- app_assoc; apply Ht'|].
  destruct (block_start_ok R false (with_table s t') _ block_size p Ht' ltac:(done) Hsize ltac:(cbn; lia)) as (u & v & Hu & Huv & Hup).
  unfold block_start. cbn [with_table nc_table]. destruct (Z.leb_spec (_bottom t') p), (Z.ltb_spec p (_end t')); try lia. cbn [andb]. rewrite Hu. f_equal.
  apply (block_unique _ u v m y p (tiling_sorted _ _ _ (table_tiling _ _ _ _ Ht')) Huv); [|done|done]. exists (l1 ++ [x]), l2. by rewrite <- app_assoc.
Qed.

Definition sample_ops : list TableOp :=
  let R := 1048576 in
  [op_split R 2048 100; op_alloc R (R + 800); op_split (R + 800) 1948 1180; op_mark (R + 800) (R + 16384); op_expand 2560].

Lemma zero_array_covers : covers (zero_array 40) 1048576 (1048576 + 16384).
Proof. split; [split; [done|split; [lia|by exists 2048]]|split; [pow2_norm; lia|by exists 133120]|by vm_compute]. Qed.

Lemma sample_steps (good : Z -> Prop) : (forall n, 1 <= n <= 20 -> good n) ->
  block_steps 1048576 40 good [1048576; 1064960] sample_ops [1048576; 1049376; 1064960; 1069056].
Proof.
  intros Hgood. eapply steps_cons; [apply (step_split _ _ _ [] [] 1048576 1049376 1064960); [lia|by exists 131172|]|].
  { intros _ _. apply Hgood. by vm_compute. }
  eapply steps_cons; [apply (step_alloc _ _ _ [] [] [1064960] 1048576 1049376)|].
  eapply steps_cons; [apply (step_split _ _ _ [1048576] [] 1049376 1058816 1064960); [lia|by exists 132352|]|].
  { intros _ Hs. by vm_compute in Hs. }
  eapply steps_cons; [apply (step_mark _ _ _ [1048576] [1058816] [] 1049376 1064960)|].
  eapply steps_cons; [apply (step_expand _ _ _ [1048576; 1049376; 1064960] 1064960 2560); [done|by exists 2080|pow2_norm; lia|by vm_compute]|].
  apply steps_nil.
Qed.

Lemma block_start_after_operations_witness : exists s0 s, new_NonContigSpace (zero_array 40) 1048576 1064960 = Some s0 /\ do_ops s0 sample_ops = Some s.
Proof.
  destruct (block_start_after_operations (zero_array 40) 1048576 1064960 sample_ops [1048576; 1049376; 1064960; 1069056] zero_array_covers)
    as (s0 & s & hi & H0 & H1 & _); [exact (sample_steps _ (fun _ _ => I))|exact (ex_intro _ s0 (ex_intro _ s (conj H0 H1)))].
Defined.

Lemma split_block_leads_too_far_witness : let R := 1048576 in exists s0 s',
  new_NonContigSpace (zero_array 550) R (R + 550 * 512) = Some s0 /\ split_block s0 R (550 * 64) (250 * 64) = Some s' /\
  block_start_careful false s' (R + 256 * 512) = Some R /\
  block_start false s' (fun u => if u =? R then 250 * 64 else 300 * 64) (R + 256 * 512) = Some (R + 250 * 512).
Proof.
  intros R. destruct (split_block_leads_too_far (zero_array 550) R (R + 550 * 512) [] [] [] R (R + 250 * 512) (R + 550 * 512))
    as (s0 & s & s' & H0 & H1 & H2 & _ & H3 & H4).
  - split; [split; [reflexivity|split; [vm_compute; discriminate|by exists 2048]]|split; [by vm_compute|by exists 166272]|by vm_compute].
  - apply steps_nil.
  - by vm_compute.
  - by exists 147072.
  - by vm_compute.
  - unfold good_prefix. intros H. by vm_compute in H.
  - injection H1 as <-. exists s0, s'. split; [exact H0|]. split; [exact H2|]. split; [exact H3|]. apply H4.
    intros u v Huv. cbn [app] in Huv. apply adj_cons_iff in Huv as [[<- [= <-]]|Huv]; [reflexivity|].
    apply adj_cons_iff in Huv as [[<- [= <-]]|Huv]; [reflexivity|]. apply adj_cons_iff in Huv as [[_ H]|([|] & ? & H)]; discriminate H.
Defined.

Lemma careful_after_operations_witness : exists s0 s, new_NonContigSpace (zero_array 40) 1048576 1064960 = Some s0 /\ do_ops s0 sample_ops = Some s.
Proof.
  destruct (careful_after_operations (zero_array 40) 1048576 1064960 sample_ops [1048576; 1049376; 1064960; 1069056] zero_array_covers)
    as (s0 & s & hi & H0 & H1 & _); [|exact (ex_intro _ s0 (ex_intro _ s (conj H0 H1)))].
  apply sample_steps. intros n Hn. unfold good_prefix. destruct (Z.lt_ge_cases n 16).
  - rewrite (log16_spec n 0) by lia. lia.
  - rewrite (log16_spec n 1) by lia. lia.
Defined.

(** ** Contiguous spaces *)

Section ContigSteps.
Context (R : Z) (a : SharedArray) (S : Z -> Prop) (start : Z -> Z -> Prop).
Context (Hcards : forall c, S c -> 0 <= c < 2 ^ 52).
Context (Hstep : forall c, S c ->
  (exists x, start c x /\ entry a c = Some ((card R c - x) / 8) /\ 0 <= (card R c - x) / 8 < 64) \/
  (exists e, entry a c = Some e /\ 64 <= e < 78 /\ S (c - 16 ^ (e - 64)))).
Context (Hsingle : forall c, S c -> entry a c = Some 64 -> exists e, entry a (c - 1) = Some e /\ e <= 64).

Lemma step_entry (c : Z) : S c -> exists e, entry a c = Some e.
Proof using Hstep. intros Hc. destruct (Hstep c Hc) as [(x & _ & H & _)|(e & H & _)]; by eexists. Qed.

Lemma powers_back_loop_ok (fuel : nat) (c e : Z) :
  S c -> entry a c = Some e -> c <= Z.of_nat fuel ->
  exists c' e', powers_back_loop fuel a c (card R c) e = Some (c', card R c', e') /\ S c' /\ entry a c' = Some e' /\ e' <= 64 /\ c' <= c.
Proof using Hcards Hstep.
  revert c e. induction fuel as [|fuel IH]; intros c e Hc He Hfuel.
  all: destruct (Z.le_gt_cases e 64) as [Hle|Hgt].
  1,3: exists c, e; cbn [powers_back_loop]; change N_words with 64; (destruct (Z.ltb_spec 64 e); [lia|]); repeat (split; [done|]); lia.
  all: destruct (Hstep c Hc) as [(x & Hx & He' & Hb)|(e' & He' & Hb & Hs)]; rewrite He in He'; injection He' as ->; [lia|].
  all: destruct (step_back R S Hcards c e' Hc Hb Hs) as (Hq & Hi & Hlt); pose proof (Hcards _ Hs) as Hr.
  1: lia.
  cbn [powers_back_loop]. change (N_words <? e') with (64 <? e'). destruct (Z.ltb_spec 64 e'); [|lia].
  rewrite Hq, Hi. unfold offset_array. fold (entry a (c - 16 ^ (e' - 64))). destruct (step_entry _ Hs) as [e2 He2]. rewrite He2. cbn [mbind option_bind].
  destruct (IH _ e2 Hs He2 ltac:(lia)) as (c' & e3 & -> & H1 & H2 & H3 & H4). exists c', e3. repeat (split; [done|]). lia.
Qed.

Lemma single_back_loop_ok (fuel : nat) (c e : Z) :
  S c -> entry a c = Some e -> e <= 64 -> c <= Z.of_nat fuel ->
  exists c' x, single_back_loop fuel a c (card R c) e = Some (card R c', (card R c' - x) / 8) /\ S c' /\ start c' x /\ c' <= c.
Proof using Hcards Hstep Hsingle.
  revert c e. induction fuel as [|fuel IH]; intros c e Hc He Hle Hfuel.
  all: destruct (Hstep c Hc) as [(x & Hx & He' & Hb)|(e' & He' & Hb & Hs)]; rewrite He in He'; injection He' as ->.
  1,3: exists c, x; cbn [single_back_loop]; change N_words with 64;
    (destruct (Z.eqb_spec ((card R c - x) / 8) 64); [lia|]); repeat (split; [done|]); lia.
  all: assert (e' = 64) as -> by lia; destruct (step_back R S Hcards c 64 Hc Hb Hs) as (Hq & Hi & Hlt); pose proof (Hcards _ Hs) as Hr.
  1: lia.
  cbn [single_back_loop]. change (64 =? N_words) with true. cbv iota. change (entry_to_cards_back 64) with 1 in *. change (16 ^ (64 - 64)) with 1 in *. rewrite Z.mul_1_r in Hq.
  rewrite Hq, Hi. unfold offset_array. fold (entry a (c - 1)). destruct (Hsingle c Hc He) as (e2 & He2 & Hle2). rewrite He2. cbn [mbind option_bind].
  destruct (IH _ e2 Hs He2 Hle2 ltac:(lia)) as (c' & x & -> & H1 & H2 & H3). exists c', x. repeat (split; [done|]). lia.
Qed.
End ContigSteps.

(** The remainder of a block given by the boundaries of cards. *)
Lemma remainder_cards (R : Z) (a : SharedArray) (n g : Z) :
  0 <= R < 2 ^ 62 -> (512 | R) -> reserved_start a = R -> 0 <= n -> n + 1 < g -> g <= zlen (_offset_array a) < 2 ^ 52 -> card R g < 2 ^ 63 ->
  exists a', set_remainder_to_point_to_start a (card R (n + 1)) (card R g) = Some a' /\ updated a a' (n + 1) g (back_entry n).
Proof.
  intros HR HR5 Ha Hn Hg Hlen Hcg. pow2_norm. unfold set_remainder_to_point_to_start.
  destruct (Z.leb_spec (card R g) (card R (n + 1))) as [Hl|Hl]; [unfold card in Hl; lia|].
  assert (H8 : (8 | card R g)) by (destruct HR5 as [k Hk]; exists (64 * k + 64 * g); unfold card; lia).
  assert (Hin : index_for a (card R (n + 1)) = n + 1).
  { rewrite (index_for_eq R HR a Ha) by (unfold card in *; pow2_norm; lia). unfold card. replace (R + 512 * (n + 1) - R) with ((n + 1) * 512) by lia. by apply Z.div_mul. }
  assert (Hfc : fc R (card R g) = g) by (unfold card, fc; replace (R + 512 * g - R + 511) with (511 + g * 512) by lia; rewrite Z.div_add by lia; done).
  rewrite Hin, (last_card R HR HR5 a Ha), Hfc by (unfold card in *; pow2_norm; lia || done).
  destruct (remainder_ok a n (g - 1)) as (a' & -> & Hu); try (pow2_norm; lia). exists a'. split; [done|]. by rewrite Z.sub_add in Hu.
Qed.

Section Contig.
Context (R bottom fin : Z) (HR : 0 <= R < 2 ^ 62) (HR5 : (512 | R)) (Hb : R <= bottom) (Hb5 : (512 | bottom)) (Hfin : bottom < fin < 2 ^ 62).

(** The first card the table knows about when a block from [x] on is allocated. *)
Definition next_card (x : Z) : Z := Z.max (fc R bottom + 1) (fc R x).

(** The entries of the cards of a block: the first card of the space has the entry zero. *)
Definition contig_value (x c : Z) : Z :=
  if c <? next_card x then 0 else if c =? next_card x then (card R c - x) / 8 else back_entry (next_card x) c.

(** The blocks up to the first word that is not allocated. *)
Record contig_ok (s : ContigSpace) (bs : list Z) (top : Z) : Prop := {
  contig_shape : reserved_start (_array (c_table s)) = R /\ _bottom (c_table s) = bottom /\ _end (c_table s) = fin;
  contig_length : fc R fin <= zlen (_offset_array (_array (c_table s))) < 2 ^ 52;
  contig_tiling : tiling bs bottom top;
  contig_top : top <= fin;
  contig_next : _next_offset_index s = next_card top /\ _next_offset_threshold s = card R (next_card top);
  contig_zero : entry (_array (c_table s)) (fc R bottom) = Some 0;
  contig_entries : forall x y c, adj bs x y -> fc R x <= c < fc R y -> entry (_array (c_table s)) c = Some (contig_value x c);
}.

Lemma bottom_aligned : card R (fc R bottom) = bottom.
Proof using HR5 Hb5. by apply fc_aligned. Qed.

Lemma next_card_spec (x : Z) : bottom <= x -> x <= card R (next_card x) <= x + 512.
Proof using HR5 Hb5.
  intros Hx. pose proof bottom_aligned as Hc. pose proof (card_fc R x). unfold next_card, card in *. lia.
Qed.

(** The entries [alloc_block_work] stores. *)
Lemma alloc_block_work_ok (s : ContigSpace) (bs : list Z) (top q : Z) :
  contig_ok s bs top -> top < q <= fin -> (8 | q) -> card R (next_card top) < q ->
  exists a', alloc_block_work s top q = Some (mkContig (set_array (c_table s) a') (card R (fc R q)) (fc R q)) /\
    updated (_array (c_table s)) a' (next_card top) (fc R q) (contig_value top).
Proof using HR HR5 Hb Hb5 Hfin.
  intros [(Ha & Hbot & He) Hlen Htil Htop (Hn & Hth) Hz Hent] Hq H8 Hcross. pow2_norm.
  destruct (tiling_range _ _ _ top Htil) as [Hbt _]; [apply last_Some_elem_of, Htil|].
  pose proof (next_card_spec top Hbt) as Hnc. pose proof (fc_nonneg R bottom Hb). set (n := next_card top) in *.
  assert (Hn0 : 0 < n) by (unfold n, next_card; lia).
  assert (Hnq : n < fc R q). { destruct (Z.lt_ge_cases n (fc R q)) as [|Hc]; [done|]. apply fc_spec in Hc. lia. }
  pose proof (fc_mono R q fin ltac:(lia)). assert (Hoff : (card R n - top) / 8 <= 64) by (apply Z.div_le_upper_bound; lia).
  unfold alloc_block_work. rewrite Hn, Hth.
  destruct (set_between_ok (_array (c_table s)) n (card R n) top ltac:(lia) ltac:(lia) ltac:(pow2_norm; lia) ltac:(lia)) as (a1 & -> & (S1 & L1 & I1 & O1)).
  cbn [mbind option_bind]. rewrite Ha in S1. rewrite (last_card R HR HR5 a1 S1) by (pow2_norm; lia || done). rewrite !(address_for_index_eq R a1 S1).
  assert (Hend : word_add (card R (fc R q - 1)) N_words = card R (fc R q)) by (unfold word_add, card; change (HeapWordSize * N_words) with 512; lia).
  rewrite Hend, Z.sub_add.
  assert (Hrem : exists a', (if n + 1 <=? fc R q - 1 then set_remainder_to_point_to_start a1 (card R (n + 1)) (card R (fc R q)) else Some a1) = Some a' /\
      updated a1 a' (n + 1) (fc R q) (back_entry n)).
  { pose proof (card_fc R fin). assert (Hcq : card R (fc R q) <= card R (fc R fin)) by (unfold card; lia).
    destruct (Z.leb_spec (n + 1) (fc R q - 1)); [|exists a1; split; [done|]; apply updated_refl; lia].
    apply remainder_cards; rewrite ?L1; pow2_norm; lia || done. }
  destruct Hrem as (a' & -> & (S2 & L2 & I2 & O2)). cbn [mbind option_bind]. rewrite S1 in S2. rewrite (address_for_index_eq R a' S2), Hend. exists a'. split; [done|].
  split; [congruence|]. split; [congruence|]. split.
  - intros c Hc. unfold contig_value. fold n. destruct (Z.ltb_spec c n); [lia|]. destruct (Z.eqb_spec c n) as [->|].
    + by rewrite O2, I1 by lia.
    + by rewrite I2 by lia.
  - intros c Hc. by rewrite O2, O1 by lia.
Qed.

Lemma adj_snoc (bs : list Z) (top q x y : Z) : list.last bs = Some top -> adj (bs ++ [q]) x y <-> adj bs x y \/ (x = top /\ y = q).
Proof using.
  intros Hl. destruct (proj1 (last_Some bs top) Hl) as [l ->]. rewrite <- app_assoc. cbn [app]. rewrite adj_app_cons. apply or_iff_compat_l. split.
  - intros Huv. apply adj_cons_iff in Huv as [[<- [= <-]]|Huv]; [done|]. apply adj_cons_iff in Huv as [[_ ?]|([|] & ? & ?)]; done.
  - intros [-> ->]. by exists [], [].
Qed.

Lemma contig_alloc_ok (s : ContigSpace) (bs : list Z) (top q : Z) :
  contig_ok s bs top -> top < q <= fin -> (8 | q) -> exists s', contig_alloc_block s top q = Some s' /\ contig_ok s' (bs ++ [q]) q.
Proof using HR HR5 Hb Hb5 Hfin.
  intros Hok Hq H8. pose proof Hok as [Hsh Hlen Htil Htop (Hn & Hth) Hz Hent].
  destruct (tiling_range _ _ _ top Htil) as [Hbt _]; [apply last_Some_elem_of, Htil|].
  pose proof (fc_mono R _ _ Hbt). pose proof (fc_mono R top q ltac:(lia)). assert (Hl : list.last bs = Some top) by apply Htil.
  assert (Hold : forall x y, adj bs x y -> fc R y <= next_card top).
  { intros x y Hxy. apply adj_elem in Hxy as [_ Hy]. destruct (tiling_range _ _ _ y Htil Hy). pose proof (fc_mono R y top ltac:(lia)). unfold next_card. lia. }
  unfold contig_alloc_block. rewrite Hth. destruct (Z.ltb_spec (card R (next_card top)) q) as [Hc|Hc].
  - destruct (alloc_block_work_ok s bs top q Hok Hq H8 Hc) as (a' & -> & (S1 & L1 & I1 & O1)). eexists. split; [done|].
    assert (Hnq : next_card q = fc R q). { destruct (Z.lt_ge_cases (next_card top) (fc R q)) as [|Hf]; [unfold next_card in *; lia|]. apply fc_spec in Hf. lia. }
    split; cbn [c_table set_array _array _bottom _end _next_offset_index _next_offset_threshold]; [by rewrite S1|by rewrite L1|apply (tiling_snoc _ _ top); done || lia|lia|by rewrite Hnq| |].
    + rewrite O1; [done|]. unfold next_card. lia.
    + intros x y c Hxy Hcr. apply (adj_snoc _ top) in Hxy as [Hxy|[-> ->]]; [|destruct (Z.lt_ge_cases c (next_card top)); [|by apply I1; lia]|done].
      * specialize (Hold x y Hxy). rewrite O1 by lia. by apply (Hent x y).
      * rewrite O1 by lia. unfold contig_value. destruct (Z.ltb_spec c (next_card top)); [|lia]. replace c with (fc R bottom); [done|]. unfold next_card in *. lia.
  - exists s. split; [done|]. apply fc_spec in Hc. assert (Hnq : next_card q = next_card top) by (unfold next_card in *; lia).
    split; [done|done|apply (tiling_snoc _ _ top); done || lia|lia|by rewrite Hnq|done|].
    intros x y c Hxy Hcr. apply (adj_snoc _ top) in Hxy as [Hxy|[-> ->]]; [by apply (Hent x y)| |done].
    unfold contig_value. destruct (Z.ltb_spec c (next_card top)); [|lia]. replace c with (fc R bottom); [done|]. unfold next_card in *. lia.
Qed.

(** *** The lookup *)

(** The entry of a card of a block leads back in the block. *)
Lemma contig_step (a : SharedArray) (x c : Z) :
  bottom <= x -> (8 | x) -> c < 2 ^ 52 -> fc R x <= c -> entry a c = Some (contig_value x c) ->
  (c = fc R x /\ entry a c = Some ((card R c - x) / 8) /\ 0 <= (card R c - x) / 8 < 64) \/
  (exists e, entry a c = Some e /\ 64 <= e < 78 /\ fc R x <= c - 16 ^ (e - 64)).
Proof using HR5 Hb Hb5.
  intros Hx H8 Hmax Hc He. pose proof (fc_mono R _ _ Hx). pose proof (fc_nonneg R bottom Hb). pose proof bottom_aligned as Hbc.
  assert (Hzero : x = bottom \/ next_card x = fc R x).
  { destruct (Z.le_gt_cases (fc R bottom + 1) (fc R x)); [right; unfold next_card; lia|left]. assert (Hf : fc R x <= fc R bottom) by lia. apply fc_spec in Hf. lia. }
  unfold contig_value in He. destruct (Z.ltb_spec c (next_card x)) as [Hlt|Hge]; [|destruct (Z.eqb_spec c (next_card x)) as [->|Hne]].
  - left. destruct Hzero as [->|Hn]; [|lia]. assert (c = fc R bottom) as -> by (unfold next_card in Hlt; lia).
    rewrite Hbc, Z.sub_diag. change (0 / 8) with 0. split; [done|]. split; [done|lia].
  - destruct Hzero as [->|Hn]; [|left; rewrite Hn in *; split; [done|]; split; [done|by apply offset_bounds]]. right.
    assert (Hn : next_card bottom = fc R bottom + 1) by (unfold next_card; lia). rewrite Hn in *. exists 64.
    replace ((card R (fc R bottom + 1) - bottom) / 8) with 64 in He; [|unfold card in *; replace (R + 512 * (fc R bottom + 1) - bottom) with (64 * 8) by lia; done].
    split; [done|]. change (16 ^ (64 - 64)) with 1. lia.
  - right. exists (back_entry (next_card x) c). assert (Hnx : fc R x <= next_card x) by (unfold next_card; lia).
    assert (0 <= fc R x) by lia. pow2_norm. destruct (back_entry_leads (next_card x) c ltac:(lia) ltac:(pow2_norm; lia)). split; [done|]. split; [done|lia].
Qed.

(** Before a card with the entry 64 there is one with at most 64. *)
Lemma contig_single (x c : Z) :
  bottom <= x -> (8 | x) -> fc R x < c -> contig_value x c = 64 -> contig_value x (c - 1) <= 64.
Proof using HR5 Hb5.
  intros Hx H8 Hc. pose proof (next_card_spec x Hx). pose proof (fc_mono R _ _ Hx). unfold contig_value.
  destruct (Z.ltb_spec (c - 1) (next_card x)); [lia|]. destruct (Z.ltb_spec c (next_card x)); [lia|]. destruct (Z.eqb_spec c (next_card x)); [lia|].
  intros He. destruct (Z.eqb_spec (c - 1) (next_card x)) as [->|]; [apply Z.div_le_upper_bound; lia|].
  unfold back_entry in *. destruct (log16_bounds (c - next_card x) ltac:(lia)) as (_ & _ & Hl). replace (log16 (c - next_card x)) with 0 in Hl by lia.
  rewrite (log16_spec (c - 1 - next_card x) 0) by lia. lia.
Qed.

(** The words that are not allocated count as a block, too. *)
Definition all_blocks (bs : list Z) (top : Z) : list Z := if top <? fin then bs ++ [fin] else bs.

Lemma all_blocks_tiling (bs : list Z) (top : Z) : (8 | fin) -> tiling bs bottom top -> top <= fin -> tiling (all_blocks bs top) bottom fin.
Proof using.
  intros H8 Htil Htop. unfold all_blocks. destruct (Z.ltb_spec top fin); [by apply (tiling_snoc _ _ top)|]. by replace fin with top by lia.
Qed.

Lemma all_blocks_adj (bs : list Z) (top x y : Z) : list.last bs = Some top -> adj bs x y -> adj (all_blocks bs top) x y.
Proof using. intros Hl Hxy. unfold all_blocks. destruct (top <? fin); [|done]. apply (adj_snoc _ top); [done|by left]. Qed.

Lemma contig_card_block (s : ContigSpace) (bs : list Z) (top c : Z) :
  contig_ok s bs top -> fc R bottom <= c < next_card top ->
  exists x y, adj (all_blocks bs top) x y /\ bottom <= x <= card R c /\ fc R x <= c /\ c < 2 ^ 52 /\
    forall c', fc R x <= c' <= c -> entry (_array (c_table s)) c' = Some (contig_value x c').
Proof using HR HR5 Hb Hb5 Hfin.
  intros [_ Hlen Htil Htop _ Hz Hent] Hc. pose proof bottom_aligned as Hbc. assert (Hl : list.last bs = Some top) by apply Htil.
  destruct (tiling_range _ _ _ top Htil) as [Hbt _]; [by apply last_Some_elem_of|]. pose proof (fc_mono R _ _ Htop) as Hft. pow2_norm.
  destruct (Z.eq_dec top bottom) as [->|Hne].
  - exists bottom, fin. assert (c = fc R bottom) as -> by (unfold next_card in Hc; lia). split.
    { unfold all_blocks. destruct (Z.ltb_spec bottom fin); [|lia]. apply (adj_snoc _ bottom); [done|by right]. }
    split; [lia|]. split; [lia|]. split; [pow2_norm; lia|]. intros c' Hc'. assert (c' = fc R bottom) as -> by lia. rewrite Hz. unfold contig_value, next_card.
    by destruct (Z.ltb_spec (fc R bottom) (Z.max (fc R bottom + 1) (fc R bottom))); [|lia].
  - assert (Hn : next_card top = fc R top).
    { unfold next_card. destruct (Z.lt_ge_cases (fc R bottom) (fc R top)) as [|Hf]; [lia|]. apply fc_spec in Hf. lia. }
    rewrite Hn in Hc. assert (Hcb : bottom <= card R c < top).
    { split; [apply fc_spec; lia|]. destruct (Z.lt_ge_cases (card R c) top) as [|Hf]; [done|]. apply fc_spec in Hf. lia. }
    destruct bs as [|b l]; [done|]. pose proof (tiling_first _ _ _ Htil) as [= ->].
    destruct (block_of l bottom (card R c) top (tiling_sorted _ _ _ Htil) Hl Hcb) as (x & y & Hxy & Hp). exists x, y. split; [by apply all_blocks_adj|].
    assert (Hx : bottom <= x) by (apply adj_elem in Hxy as [Hx _]; by apply (tiling_range _ _ _ x Htil)).
    split; [lia|]. split; [apply fc_spec; lia|]. split; [pow2_norm; lia|]. intros c' Hc'. apply (Hent x y); [done|]. split; [lia|].
    destruct (Z.lt_ge_cases c' (fc R y)) as [|Hf]; [done|]. apply fc_spec in Hf. unfold card in *. lia.
Qed.

(** Both loops together lead to the first card of the block. *)
Lemma contig_back (a : SharedArray) (x c : Z) :
  bottom <= x -> (8 | x) -> fc R x <= c -> c < 2 ^ 52 -> (forall c', fc R x <= c' <= c -> entry a c' = Some (contig_value x c')) ->
  exists c1 q1 e1, powers_back_loop (Z.to_nat c) a c (card R c) (contig_value x c) = Some (c1, q1, e1) /\
    single_back_loop (Z.to_nat c1) a c1 q1 e1 = Some (card R (fc R x), (card R (fc R x) - x) / 8).
Proof using HR HR5 Hb Hb5 Hfin.
  intros Hx H8x Hfx Hc52 Hent. pose proof (fc_mono R bottom x Hx). pose proof (fc_nonneg R bottom Hb).
  set (S := fun c' => fc R x <= c' <= c). set (start := fun c' z => z = x /\ c' = fc R x).
  assert (HS : forall c, S c -> 0 <= c < 2 ^ 52) by (intros c' Hc'; unfold S in Hc'; lia).
  assert (Hstep : forall c, S c -> (exists z, start c z /\ entry a c = Some ((card R c - z) / 8) /\ 0 <= (card R c - z) / 8 < 64) \/
      (exists e, entry a c = Some e /\ 64 <= e < 78 /\ S (c - 16 ^ (e - 64)))).
  { intros c' Hc'. destruct (contig_step a x c' Hx H8x ltac:(unfold S in Hc'; lia) (proj1 Hc') (Hent c' Hc')) as [(A1 & A2 & A3)|(e & A1 & A2 & A3)].
    - left. by exists x.
    - right. exists e. split; [done|]. split; [done|]. unfold S in *. pose proof (pow16_pos (e - 64) ltac:(lia)). lia. }
  assert (Hsingle : forall c, S c -> entry a c = Some 64 -> exists e, entry a (c - 1) = Some e /\ e <= 64).
  { intros c' Hc' He. unfold S in Hc'. destruct (contig_step a x c' Hx H8x ltac:(lia) (proj1 Hc') (Hent c' Hc')) as [(A1 & A2 & A3)|(e & A1 & A2 & A3)].
    - rewrite He in A2. injection A2 as A2. lia.
    - rewrite He in A1. injection A1 as <-. change (16 ^ (64 - 64)) with 1 in A3. exists (contig_value x (c' - 1)). split; [apply Hent; lia|].
      apply contig_single; try done; try lia. rewrite (Hent c' Hc') in He. by injection He. }
  assert (HSc : S c) by (unfold S; lia).
  destruct (powers_back_loop_ok R a S start HS Hstep (Z.to_nat c) c _ HSc (Hent c HSc) ltac:(lia)) as (c1 & e1 & -> & Hc1 & He1 & Hle1 & Hcc1).
  destruct (single_back_loop_ok R a S start HS Hstep Hsingle (Z.to_nat c1) c1 e1 Hc1 He1 Hle1 ltac:(pose proof (HS _ Hc1); lia)) as (c2 & z & Hsb & _ & [-> ->] & _).
  by exists c1, (card R c1), e1.
Qed.

Lemma contig_start_ok (s : ContigSpace) (bs : list Z) (top p : Z) (block_size : Z -> Z) :
  contig_ok s bs top -> (8 | fin) -> (forall u v, adj (all_blocks bs top) u v -> block_size u = (v - u) / 8) -> bottom <= p < fin ->
  exists u v, contig_block_start_unsafe s block_size p = Some u /\ adj (all_blocks bs top) u v /\ u <= p < v.
Proof using HR HR5 Hb Hb5 Hfin.
  intros Hok H8 Hsize Hp. pose proof Hok as [(Ha & _ & _) Hlen Htil Htop (Hn & _) _ _]. pose proof (all_blocks_tiling bs top H8 Htil Htop) as Htil'.
  pose proof bottom_aligned as Hbc. pose proof (fc_nonneg R bottom Hb). pow2_norm. set (a := _array (c_table s)) in *.
  unfold contig_block_start_unsafe. fold a. rewrite (index_for_eq R HR a Ha), Hn by (pow2_norm; lia).
  pose proof (fc_mono R _ _ Htop). pose proof (fc_mono R bottom fin ltac:(lia)).
  assert (Hcap : next_card top <= fc R fin). { unfold next_card. destruct (Z.lt_ge_cases (fc R bottom) (fc R fin)) as [|Hf]; [lia|]. apply fc_spec in Hf. lia. }
  rewrite (umod_id 64 (next_card top - 1)) by (unfold next_card in *; pow2_norm; lia). set (c := Z.min ((p - R) / 512) (next_card top - 1)).
  assert (Hc : fc R bottom <= c < next_card top /\ card R c <= p).
  { pose proof (Z.div_mod (p - R) 512 ltac:(lia)). pose proof (Z.mod_pos_bound (p - R) 512 ltac:(lia)). subst c. unfold card, next_card in *. lia. }
  rewrite (address_for_index_eq R a Ha). destruct (contig_card_block s bs top c Hok (proj1 Hc)) as (x & y & Hxy & Hx & Hfx & Hc52 & Hent).
  assert (H8x : (8 | x)). { pose proof (tiling_words _ _ _ Htil') as Hw. rewrite list.Forall_forall in Hw. apply Hw. by apply adj_elem in Hxy as [? _]. }
  fold a in Hent. unfold offset_array. fold (entry a c). rewrite (Hent c) by lia. cbn [mbind option_bind].
  destruct (contig_back a x c ltac:(lia) H8x Hfx Hc52 Hent) as (c1 & q1 & e1 & -> & Hb1). cbn [mbind option_bind]. rewrite Hb1. cbn [mbind option_bind].
  assert (Hq : word_add (card R (fc R x)) (- ((card R (fc R x) - x) / 8)) = x).
  { destruct (card_divide R x HR5 H8x) as [k Hk]. unfold word_add, HeapWordSize. rewrite Hk, Z.div_mul by lia. lia. }
  rewrite Hq, words_between_eq by (pow2_norm; lia). apply (walk_from block_size (all_blocks bs top) bottom fin x y); try done; lia.
Qed.

(** *** Sequences of allocations *)

(** The allocations of blocks that lie next to each other, given by their ends. *)
Fixpoint alloc_blocks (s : ContigSpace) (top : Z) (ends : list Z) : option ContigSpace :=
  match ends with
  | [] => Some s
  | q :: ends => s ← contig_alloc_block s top q; alloc_blocks s q ends
  end.

(** A new space, as [OffsetTableContigSpace::clear] leaves it. *)
Definition empty_contig_space (a : SharedArray) : option ContigSpace :=
  s ← new_ContigSpace a bottom fin; Some (initialize_threshold s).

Lemma empty_contig_space_ok (a : SharedArray) :
  reserved_start a = R -> fc R fin <= zlen (_offset_array a) < 2 ^ 52 -> entry a (fc R bottom) = Some 0 ->
  exists s, empty_contig_space a = Some s /\ contig_ok s [bottom] bottom.
Proof using HR HR5 Hb Hb5 Hfin.
  intros Ha Hlen Hz. pose proof bottom_aligned as Hbc. pow2_norm. destruct (fc_aligned R bottom HR5 Hb5) as [Hf _].
  assert (Hi : index_for a bottom = fc R bottom) by (rewrite Hf; apply (index_for_eq R HR a Ha); pow2_norm; lia).
  unfold empty_contig_space, new_ContigSpace, new_BlockOffsetArray, initialize_threshold.
  cbn [negb mbind option_bind c_table _array _bottom _next_offset_threshold _next_offset_index]. rewrite Hi, (address_for_index_eq R a Ha).
  eexists. split; [done|]. assert (Hn : next_card bottom = fc R bottom + 1) by (unfold next_card; lia).
  split; cbn [c_table set_array _array _bottom _end _next_offset_index _next_offset_threshold]; [done|pow2_norm; lia| |lia|by rewrite Hn|done|].
  - split; try done; [by repeat constructor|]. constructor; [|done]. destruct Hb5 as [k ->]. exists (k * 64). lia.
  - intros x y c ([|] & ? & [=]); by destruct l.
Qed.

Lemma alloc_blocks_ok (ends bs : list Z) (s : ContigSpace) (top0 top : Z) :
  contig_ok s bs top0 -> tiling (bs ++ ends) bottom top -> top <= fin -> exists s', alloc_blocks s top0 ends = Some s' /\ contig_ok s' (bs ++ ends) top.
Proof using HR HR5 Hb Hb5 Hfin.
  revert bs s top0. induction ends as [|q ends IH]; intros bs s top0 Hok Htil Htop; cbn [alloc_blocks].
  - exists s. rewrite app_nil_r in *. split; [done|]. assert (top0 = top) as <-; [|done]. pose proof (tiling_last _ _ _ Htil). pose proof (tiling_last _ _ _ (contig_tiling _ _ _ Hok)). congruence.
  - assert (Hq : q ∈ bs ++ q :: ends) by (apply elem_of_app; right; apply list_elem_of_here).
    assert (Hw : (8 | q)). { pose proof (tiling_words _ _ _ Htil) as Hw. rewrite list.Forall_forall in Hw. by apply Hw. }
    destruct (tiling_range _ _ _ q Htil Hq) as [_ Hqt]. pose proof (tiling_sorted _ _ _ Htil) as Hs. apply sorted_app_iff in Hs as (_ & _ & Hs).
    specialize (Hs top0 q ltac:(apply last_Some_elem_of, (contig_tiling _ _ _ Hok)) (list_elem_of_here _ _)).
    destruct (contig_alloc_ok s bs top0 q Hok ltac:(lia) Hw) as (s1 & -> & Hok1). cbn [mbind option_bind].
    destruct (IH (bs ++ [q]) s1 q Hok1) as (s' & He & Hok'); rewrite <- ?app_assoc in *; [done|done|]. by exists s'.
Qed.
End Contig.

(** C17: In a contiguous space whose bottom card has a zero entry, as in a new table, after
    any sequence of allocations of adjacent blocks from the bottom on, the lookup gives for
    each address of the space the start of its block, where the words that are not allocated
    count as a block, and null for other addresses. The entry of the bottom card is still
    zero, so that the space can be emptied and used again. *)
Theorem contig_start_after_allocations (a : SharedArray) (R bottom fin top : Z) (ends : list Z) :
  covers a R fin -> R <= bottom < fin -> (512 | bottom) -> entry a (fc R bottom) = Some 0 -> tiling (bottom :: ends) bottom top -> top <= fin ->
  exists s0 s, empty_contig_space bottom fin a = Some s0 /\ alloc_blocks s0 bottom ends = Some s /\
    entry (_array (c_table s)) (fc R bottom) = Some 0 /\
    forall block_size p, let blocks := all_blocks fin (bottom :: ends) top in
      (forall u v, adj blocks u v -> block_size u = (v - u) / 8) ->
      if bool_decide (bottom <= p < fin) then exists u v, contig_block_start s block_size p = Some u /\ adj blocks u v /\ u <= p < v
      else contig_block_start s block_size p = Some 0.
Proof.
  intros [(Ha & HR & HR5) (Hfin & H8) (Hc & Hlen)] Hb Hb5 Hz Htil Htop. apply fc_spec in Hc. pow2_norm.
  assert (HR' : 0 <= R < 2 ^ 62) by (pow2_norm; lia). assert (Hfin' : bottom < fin < 2 ^ 62) by (pow2_norm; lia).
  destruct (empty_contig_space_ok R bottom fin HR' HR5 (proj1 Hb) Hb5 Hfin' a Ha) as (s0 & H0 & Hok0); [pow2_norm; lia|done|].
  destruct (alloc_blocks_ok R bottom fin HR' HR5 (proj1 Hb) Hb5 Hfin' ends [bottom] s0 bottom top Hok0 Htil Htop) as (s & Hrun & Hok). exists s0, s.
  split; [done|]. split; [done|]. split; [apply Hok|]. intros block_size p blocks Hsize. destruct (contig_shape _ _ _ _ _ _ Hok) as (_ & Eb & Ee). unfold contig_block_start. rewrite Eb, Ee.
  case_bool_decide as Hp; destruct (Z.leb_spec bottom p), (Z.ltb_spec p fin); try done; try lia. cbn [andb].
  by apply (contig_start_ok R bottom fin HR' HR5 (proj1 Hb) Hb5 Hfin' s (bottom :: ends) top p block_size Hok H8 Hsize).
Qed.

Lemma contig_start_after_allocations_witness : exists s0 s, empty_contig_space 1048576 1064960 (zero_array 40) = Some s0 /\
  alloc_blocks s0 1048576 [1048600; 1052000; 1060000; 1060016] = Some s.
Proof.
  destruct (contig_start_after_allocations (zero_array 40) 1048576 1048576 1064960 1060016 [1048600; 1052000; 1060000; 1060016] zero_array_covers)
    as (s0 & s & H0 & H1 & _); [lia|by exists 2048|reflexivity| |lia|exact (ex_intro _ s0 (ex_intro _ s (conj H0 H1)))].
  split; try done; [repeat constructor; lia|]. repeat (apply list.Forall_cons; split); try (by apply list.Forall_nil); by apply Z.mod_divide.
Defined.
