(* ===== verification/ParMarkBitMap.v ===== *)
(** The mark bit map of the parallel compacting collector:
    gc_implementation/parallelScavenge/parMarkBitMap.hpp and parMarkBitMap.cpp.  A bit of
    [_beg_bits] is set for the first word of each live object, and a bit of [_end_bits] for
    its last word.

    Addresses are byte addresses.  Objects have the default alignment of eight bytes, so
    that a bit stands for a word.  [mark_begin] and [mark_end] are the two atomic steps of
    [mark_obj]; the loop of their compare and swap is that of [par_set_bit]. *)

From S2P Require Import Prelude GlobalDefinitions VirtualSpace BitMap.

(** ** Definitions *)

Definition LogMinObjAlignment : Z := 0.

Inductive IterationStatus := incomplete | complete | full | would_overflow.
#[export] Instance IterationStatus_dec : EqDecision IterationStatus.
Proof. solve_decision. Defined.

Record ParMarkBitMap := mkMarks {
  marks_start : Z;
  marks_size : Z;
  _beg_bits : BitMap;
  _end_bits : BitMap;
}.

Definition with_bits (m : ParMarkBitMap) (beg fin : BitMap) : ParMarkBitMap := mkMarks (marks_start m) (marks_size m) beg fin.

Definition region_end (m : ParMarkBitMap) : Z := word_add (marks_start m) (marks_size m).
Definition bits_to_words (bits : Z) : Z := u64 (Z.shiftl bits LogMinObjAlignment).
Definition words_to_bits (words : Z) : Z := Z.shiftr words LogMinObjAlignment.
Definition addr_to_bit (m : ParMarkBitMap) (addr : Z) : Z := words_to_bits (words_between addr (marks_start m)).
Definition bit_to_addr (m : ParMarkBitMap) (bit : Z) : Z := word_add (marks_start m) (bits_to_words bit).

Definition is_obj_beg (m : ParMarkBitMap) (bit : Z) : option bool := at_ (_beg_bits m) bit.
Definition is_obj_end (m : ParMarkBitMap) (bit : Z) : option bool := at_ (_end_bits m) bit.
Definition is_marked (m : ParMarkBitMap) (addr : Z) : option bool := is_obj_beg m (addr_to_bit m addr).
Definition is_unmarked (m : ParMarkBitMap) (addr : Z) : option bool := negb <$> is_marked m addr.

Definition find_obj_beg (m : ParMarkBitMap) (beg fin : Z) : option Z :=
  get_next_one_offset_inline_aligned_right (_beg_bits m) beg fin.
Definition find_obj_end (m : ParMarkBitMap) (beg fin : Z) : option Z :=
  get_next_one_offset_inline_aligned_right (_end_bits m) beg fin.

Definition find_obj_beg_addr (m : ParMarkBitMap) (beg fin : Z) : option Z :=
  let beg_bit := addr_to_bit m beg in
  let end_bit := addr_to_bit m fin in
  let search_end := word_align_up end_bit in
  res_bit ← find_obj_beg m beg_bit search_end;
  Some (bit_to_addr m (Z.min res_bit end_bit)).
Definition find_obj_end_addr (m : ParMarkBitMap) (beg fin : Z) : option Z :=
  let beg_bit := addr_to_bit m beg in
  let end_bit := addr_to_bit m fin in
  let search_end := word_align_up end_bit in
  res_bit ← find_obj_end m beg_bit search_end;
  Some (bit_to_addr m (Z.min res_bit end_bit)).

Definition obj_size_bits (beg_bit end_bit : Z) : Z := bits_to_words (end_bit - beg_bit + 1).
Definition obj_size_between (beg_addr end_addr : Z) : Z := words_between end_addr beg_addr + 1.
Definition obj_size (m : ParMarkBitMap) (beg_bit : Z) : option Z :=
  end_bit ← get_next_one_offset (_end_bits m) beg_bit (bm_size (_beg_bits m));
  Some (obj_size_bits beg_bit end_bit).

Definition marks_clear_range (m : ParMarkBitMap) (beg fin : Z) : option ParMarkBitMap :=
  beg_bits ← clear_range (_beg_bits m) beg fin;
  end_bits ← clear_range (_end_bits m) beg fin;
  Some (with_bits m beg_bits end_bits).

Definition mark_begin (m : ParMarkBitMap) (addr : Z) : option (bool * ParMarkBitMap) :=
  '(r, bits) ← par_set_bit (_beg_bits m) (addr_to_bit m addr) [];
  Some (r, with_bits m bits (_end_bits m)).
Definition mark_end (m : ParMarkBitMap) (addr size : Z) : option ParMarkBitMap :=
  '(_, bits) ← par_set_bit (_end_bits m) (addr_to_bit m (word_add addr (size - 1))) [];
  Some (with_bits m (_beg_bits m) bits).

Definition mark_obj (m : ParMarkBitMap) (addr size : Z) : option (bool * ParMarkBitMap) :=
  '(r, m) ← mark_begin m addr;
  if r : bool then m ← mark_end m addr size; Some (true, m) else Some (false, m).

Fixpoint live_words_loop (fuel : nat) (m : ParMarkBitMap) (end_bit range_end beg_bit live_bits : Z) : option Z :=
  if beg_bit <? end_bit then
    match fuel with
    | O => None
    | S fuel =>
        tmp_end ← find_obj_end m beg_bit range_end;
        let live_bits := u64 (live_bits + (tmp_end - beg_bit + 1)) in
        beg_bit ← find_obj_beg m (tmp_end + 1) range_end;
        live_words_loop fuel m end_bit range_end beg_bit live_bits
    end
  else Some live_bits.

Definition live_words_in_range (m : ParMarkBitMap) (beg_addr end_obj : Z) : option Z :=
  let end_bit := addr_to_bit m end_obj in
  let range_end := word_align_up end_bit in
  beg_bit ← find_obj_beg m (addr_to_bit m beg_addr) range_end;
  live_bits ← live_words_loop (Z.to_nat (end_bit - beg_bit)) m end_bit range_end beg_bit 0;
  Some (bits_to_words live_bits).

(** The closures have the state [S]. *)
Section Iterate.
Context {S : Type}.
Context (do_addr : Z -> Z -> S -> IterationStatus * S) (set_source : Z -> S -> S) (dead_do_addr : Z -> Z -> S -> S).

Fixpoint live_loop (fuel : nat) (m : ParMarkBitMap) (range_end search_end cur_beg : Z) (st : S) : option (IterationStatus * S) :=
  if cur_beg <? range_end then
    match fuel with
    | O => None
    | Datatypes.S fuel =>
        cur_end ← find_obj_end m cur_beg search_end;
        if range_end <=? cur_end then Some (incomplete, set_source (bit_to_addr m cur_beg) st)
        else
          let '(status, st) := do_addr (bit_to_addr m cur_beg) (obj_size_bits cur_beg cur_end) st in
          if bool_decide (status = incomplete) then
            cur_beg ← find_obj_beg m (cur_end + 1) search_end;
            live_loop fuel m range_end search_end cur_beg st
          else Some (status, st)
    end
  else Some (complete, set_source (bit_to_addr m range_end) st).

Definition iterate_live (m : ParMarkBitMap) (range_beg range_end : Z) (st : S) : option (IterationStatus * S) :=
  let search_end := word_align_up range_end in
  cur_beg ← find_obj_beg m range_beg search_end;
  live_loop (Z.to_nat (range_end - range_beg)) m range_end search_end cur_beg st.

(** The dead words before [cur_beg] are handed to the second closure. *)
Definition do_dead (m : ParMarkBitMap) (dead_space_beg cur_beg dead_range_end : Z) (st : S) : S :=
  let dead_space_end := Z.min (u64 (cur_beg - 1)) (u64 (dead_range_end - 1)) in
  dead_do_addr (bit_to_addr m dead_space_beg) (obj_size_bits dead_space_beg dead_space_end) st.

Fixpoint live_dead_loop (fuel : nat) (m : ParMarkBitMap) (range_end dead_range_end live_search_end dead_search_end cur_beg : Z) (st : S)
    : option (IterationStatus * S) :=
  if cur_beg <? range_end then
    match fuel with
    | O => None
    | Datatypes.S fuel =>
        cur_end ← find_obj_end m cur_beg live_search_end;
        if range_end <=? cur_end then Some (incomplete, set_source (bit_to_addr m cur_beg) st)
        else
          let '(status, st) := do_addr (bit_to_addr m cur_beg) (obj_size_bits cur_beg cur_end) st in
          if bool_decide (status = incomplete) then
            let dead_space_beg := cur_end + 1 in
            cur_beg ← find_obj_beg m dead_space_beg dead_search_end;
            let st := if dead_space_beg <? cur_beg then do_dead m dead_space_beg cur_beg dead_range_end st else st in
            live_dead_loop fuel m range_end dead_range_end live_search_end dead_search_end cur_beg st
          else Some (status, st)
    end
  else Some (complete, set_source (bit_to_addr m range_end) st).

Definition iterate_live_dead (m : ParMarkBitMap) (range_beg range_end dead_range_end : Z) (st : S) : option (IterationStatus * S) :=
  let live_search_end := word_align_up range_end in
  let dead_search_end := word_align_up dead_range_end in
  dead ← (if range_beg <? range_end then negb <$> is_obj_beg m range_beg else Some false);
  '(cur_beg, st) ← (if dead : bool then
                      cur_beg ← find_obj_beg m (range_beg + 1) dead_search_end;
                      Some (cur_beg, do_dead m range_beg cur_beg dead_range_end st)
                    else Some (range_beg, st));
  live_dead_loop (Z.to_nat (range_end - range_beg)) m range_end dead_range_end live_search_end dead_search_end cur_beg st.
End Iterate.
