(* ===== verification/ParallelCompact.v ===== *)
(** The summary data of the parallel compacting collector:
    gc_implementation/parallelScavenge/psParallelCompact.hpp and psParallelCompact.cpp.
    The heap is divided into regions of 64K words and blocks of 128 words.  While objects
    are marked, [add_obj] counts the live words of each region; the summary phase gives each
    region the destination of its first live word; [calc_new_pointer] computes the new
    address of an object from the destination of its region, a table of blocks and the mark
    bit map.

    Addresses are byte addresses.  An access outside the tables has no result, as has a
    summary that does not fit where the source relies on it.  Doubles are those of
    [SpecFloat]; the library function [exp] is a parameter.  Tracing, the object start array
    and the develop flag [ParallelOldGCSplitALot], which is false in product builds, are left
    out. *)

From Stdlib Require Import SpecFloat.
From S2P Require Import Prelude GlobalDefinitions VirtualSpace BitMap ParMarkBitMap.

(** ** Definitions *)

Definition Log2RegionSize : Z := 16.
Definition RegionSize : Z := Z.shiftl 1 Log2RegionSize.
Definition RegionSizeBytes : Z := Z.shiftl RegionSize LogHeapWordSize.
Definition RegionSizeOffsetMask : Z := RegionSize - 1.
Definition RegionAddrOffsetMask : Z := RegionSizeBytes - 1.
Definition RegionAddrMask : Z := u64 (Z.lnot RegionAddrOffsetMask).

Definition Log2BlockSize : Z := 7.
Definition BlockSize : Z := Z.shiftl 1 Log2BlockSize.
Definition BlockSizeBytes : Z := Z.shiftl BlockSize LogHeapWordSize.
Definition BlockAddrOffsetMask : Z := BlockSizeBytes - 1.
Definition BlockAddrMask : Z := u64 (Z.lnot BlockAddrOffsetMask).
Definition Log2BlocksPerRegion : Z := Log2RegionSize - Log2BlockSize.
Definition BlocksPerRegion : Z := RegionSize / BlockSize.

(** *** Doubles *)

Definition double_of (n : Z) : spec_float := binary_normalize 53 1024 n 0 false.
Definition dadd : spec_float -> spec_float -> spec_float := SFadd 53 1024.
Definition dsub : spec_float -> spec_float -> spec_float := SFsub 53 1024.
Definition dmul : spec_float -> spec_float -> spec_float := SFmul 53 1024.
Definition ddiv : spec_float -> spec_float -> spec_float := SFdiv 53 1024.
Definition dsqrt : spec_float -> spec_float := SFsqrt 53 1024.
Definition dmax (a b : spec_float) : spec_float := if SFltb b a then a else b.
Definition M_PI : spec_float := S754_finite false 7074237752028440 (-51).
(** The conversion to [size_t]. *)
Definition size_of_double (out_of_range : Z) (d : spec_float) : Z :=
  let whole m e := Z.shiftl (Zpos m) e in
  match d with
  | S754_zero _ => 0
  | S754_finite false m e => if whole m e <? 2 ^ 64 then whole m e else out_of_range
  | S754_finite true m e => if whole m e =? 0 then 0 else out_of_range
  | S754_infinity _ | S754_nan => out_of_range
  end.

(** *** [RegionData] *)

Definition dc_shift : Z := 27.
Definition dc_mask : Z := u32 (Z.shiftl (u32 (Z.lnot 0)) dc_shift).
Definition dc_one : Z := Z.shiftl 1 dc_shift.
Definition los_mask : Z := u32 (Z.lnot dc_mask).
Definition dc_claimed : Z := u32 (Z.shiftl 8 dc_shift).
Definition dc_completed : Z := u32 (Z.shiftl 12 dc_shift).

Record RegionData := mkRegion {
  destination : Z;
  source_region : Z;
  partial_obj_addr : Z;
  partial_obj_size : Z;
  _dc_and_los : Z;
  blocks_filled : bool;
}.

Definition empty_region : RegionData := mkRegion 0 0 0 0 0 false.

Definition live_obj_size (r : RegionData) : Z := Z.land (_dc_and_los r) los_mask.
Definition data_size (r : RegionData) : Z := partial_obj_size r + live_obj_size r.
Definition destination_count_raw (r : RegionData) : Z := Z.land (_dc_and_los r) dc_mask.
Definition destination_count (r : RegionData) : Z := Z.shiftr (destination_count_raw r) dc_shift.
Definition available (r : RegionData) : bool := _dc_and_los r <? dc_one.
Definition claimed (r : RegionData) : bool := dc_claimed <=? _dc_and_los r.
Definition completed (r : RegionData) : bool := dc_completed <=? _dc_and_los r.

Definition set_destination (addr : Z) (r : RegionData) : RegionData :=
  mkRegion addr (source_region r) (partial_obj_addr r) (partial_obj_size r) (_dc_and_los r) (blocks_filled r).
Definition set_source_region (region : Z) (r : RegionData) : RegionData :=
  mkRegion (destination r) region (partial_obj_addr r) (partial_obj_size r) (_dc_and_los r) (blocks_filled r).
Definition set_partial_obj_addr (addr : Z) (r : RegionData) : RegionData :=
  mkRegion (destination r) (source_region r) addr (partial_obj_size r) (_dc_and_los r) (blocks_filled r).
Definition set_partial_obj_size (words : Z) (r : RegionData) : RegionData :=
  mkRegion (destination r) (source_region r) (partial_obj_addr r) (u32 words) (_dc_and_los r) (blocks_filled r).
Definition set_dc_and_los (v : Z) (r : RegionData) : RegionData :=
  mkRegion (destination r) (source_region r) (partial_obj_addr r) (partial_obj_size r) v (blocks_filled r).
Definition set_blocks_filled (r : RegionData) : RegionData :=
  mkRegion (destination r) (source_region r) (partial_obj_addr r) (partial_obj_size r) (_dc_and_los r) true.

Definition set_destination_count (count : Z) (r : RegionData) : RegionData :=
  set_dc_and_los (Z.lor (u32 (Z.shiftl count dc_shift)) (live_obj_size r)) r.
Definition set_live_obj_size (words : Z) (r : RegionData) : RegionData :=
  set_dc_and_los (Z.lor (destination_count_raw r) (u32 words)) r.
Definition set_completed (r : RegionData) : RegionData := set_dc_and_los (Z.lor dc_completed (live_obj_size r)) r.
(** The atomic additions. *)
Definition add_live_obj (words : Z) (r : RegionData) : RegionData := set_dc_and_los (u32 (_dc_and_los r + s32 words)) r.
Definition decrement_destination_count (r : RegionData) : RegionData := set_dc_and_los (u32 (_dc_and_los r + s32 dc_mask)) r.
Definition claim (r : RegionData) : bool * RegionData :=
  let los := live_obj_size r in
  if _dc_and_los r =? los then (true, set_dc_and_los (Z.lor dc_claimed los) r) else (false, r).
Definition claim_unsafe (r : RegionData) : bool * RegionData :=
  if available r then (true, set_dc_and_los (Z.lor (_dc_and_los r) dc_claimed) r) else (false, r).

(** *** [SplitInfo] *)

Record SplitInfo := mkSplit {
  _src_region_idx : Z;
  split_partial_obj_size : Z;
  split_destination : Z;
  split_destination_count : Z;
  dest_region_addr : Z;
  first_src_addr : Z;
}.

Definition split_clear : SplitInfo := mkSplit 0 0 0 0 0 0.
Definition is_valid (i : SplitInfo) : bool := 0 <? _src_region_idx i.
Definition is_split (i : SplitInfo) (region_idx : Z) : bool := (_src_region_idx i =? region_idx) && is_valid i.

(** *** [ParallelCompactData] *)

Record ParallelCompactData := mkSummary {
  _region_start : Z;
  _region_data : list RegionData;
  _block_data : list Z;
}.

Definition region_count (s : ParallelCompactData) : Z := zlen (_region_data s).
Definition block_count (s : ParallelCompactData) : Z := zlen (_block_data s).
Definition region (s : ParallelCompactData) (i : Z) : option RegionData := zget (_region_data s) i.

Definition update_region (s : ParallelCompactData) (i : Z) (f : RegionData -> RegionData) : option ParallelCompactData :=
  r ← region s i; l ← zset (_region_data s) i (f r); Some (mkSummary (_region_start s) l (_block_data s)).
Definition set_offset (s : ParallelCompactData) (i val : Z) : option ParallelCompactData :=
  l ← zset (_block_data s) i (u16 val); Some (mkSummary (_region_start s) (_region_data s) l).

Definition region_offset (addr : Z) : Z := Z.shiftr (Z.land addr RegionAddrOffsetMask) LogHeapWordSize.
Definition addr_to_region_idx (s : ParallelCompactData) (addr : Z) : Z := Z.shiftr (words_between addr (_region_start s)) Log2RegionSize.
Definition region_to_addr (s : ParallelCompactData) (i : Z) : Z := word_add (_region_start s) (u64 (Z.shiftl i Log2RegionSize)).
Definition region_align_down (addr : Z) : Z := Z.land addr RegionAddrMask.
Definition region_align_up (addr : Z) : Z := region_align_down (word_add addr RegionSizeOffsetMask).
Definition addr_to_block_idx (s : ParallelCompactData) (addr : Z) : Z := Z.shiftr (words_between addr (_region_start s)) Log2BlockSize.
Definition block_align_down (addr : Z) : Z := Z.land addr BlockAddrMask.

(** The tables after [clear], and with the entries of some regions cleared. *)
Definition clear_data (s : ParallelCompactData) : ParallelCompactData :=
  mkSummary (_region_start s) (replicate (length (_region_data s)) empty_region) (replicate (length (_block_data s)) 0).

Fixpoint clear_entries {A} (n : nat) (l : list A) (i : Z) (zero : A) : option (list A) :=
  match n with
  | O => Some l
  | S n => l ← zset l i zero; clear_entries n l (i + 1) zero
  end.

Definition clear_range (s : ParallelCompactData) (beg_region end_region : Z) : option ParallelCompactData :=
  let region_cnt := u64 (end_region - beg_region) in
  regions ← clear_entries (Z.to_nat region_cnt) (_region_data s) beg_region empty_region;
  blocks ← clear_entries (Z.to_nat (region_cnt * BlocksPerRegion)) (_block_data s) (beg_region * BlocksPerRegion) 0;
  Some (mkSummary (_region_start s) regions blocks).

(** The middle regions of an object, from [region] on. *)
Fixpoint add_middle (n : nat) (s : ParallelCompactData) (addr region : Z) : option ParallelCompactData :=
  match n with
  | O => Some s
  | S n =>
      s ← update_region s region (set_partial_obj_size RegionSize);
      s ← update_region s region (set_partial_obj_addr addr);
      add_middle n s addr (region + 1)
  end.

Definition add_obj (s : ParallelCompactData) (addr len : Z) : option ParallelCompactData :=
  let obj_ofs := words_between addr (_region_start s) in
  let beg_region := Z.shiftr obj_ofs Log2RegionSize in
  let end_region := Z.shiftr (u64 (obj_ofs + len - 1)) Log2RegionSize in
  if beg_region =? end_region then update_region s beg_region (add_live_obj len)
  else
    let beg_ofs := region_offset addr in
    s ← update_region s beg_region (add_live_obj (RegionSize - beg_ofs));
    s ← add_middle (Z.to_nat (end_region - (beg_region + 1))) s addr (beg_region + 1);
    let end_ofs := region_offset (word_add addr (len - 1)) in
    s ← update_region s end_region (set_partial_obj_size (end_ofs + 1));
    update_region s end_region (set_partial_obj_addr addr).

Fixpoint dense_prefix_loop (n : nat) (s : ParallelCompactData) (cur_region addr : Z) : option ParallelCompactData :=
  match n with
  | O => Some s
  | S n =>
      s ← update_region s cur_region (set_destination addr);
      s ← update_region s cur_region (set_destination_count 0);
      s ← update_region s cur_region (set_source_region cur_region);
      r ← region s cur_region;
      s ← update_region s cur_region (set_live_obj_size (u64 (RegionSize - partial_obj_size r)));
      dense_prefix_loop n s (cur_region + 1) (word_add addr RegionSize)
  end.

Definition summarize_dense_prefix (s : ParallelCompactData) (beg fin : Z) : option ParallelCompactData :=
  let cur_region := addr_to_region_idx s beg in
  let end_region := addr_to_region_idx s fin in
  dense_prefix_loop (Z.to_nat (end_region - cur_region)) s cur_region beg.

Definition split_record (s : ParallelCompactData) (src_region_idx partial_obj_size destination : Z) (info : SplitInfo) : SplitInfo :=
  let last_word := word_add destination (partial_obj_size - 1) in
  let beg_region_addr := region_align_down destination in
  let end_region_addr := region_align_down last_word in
  if beg_region_addr =? end_region_addr then
    if end_region_addr =? destination
    then mkSplit src_region_idx partial_obj_size destination 1 end_region_addr (region_to_addr s src_region_idx)
    else mkSplit src_region_idx partial_obj_size destination 1 (dest_region_addr info) (first_src_addr info)
  else
    let ofs := words_between end_region_addr destination in
    mkSplit src_region_idx partial_obj_size destination 2 end_region_addr (word_add (region_to_addr s src_region_idx) ofs).

Fixpoint clear_source_regions (n : nat) (s : ParallelCompactData) (idx : Z) : option ParallelCompactData :=
  match n with
  | O => Some s
  | S n => s ← update_region s idx (set_source_region 0); clear_source_regions n s (idx + 1)
  end.

(** The region, destination and size of the split: where the object that does not fit starts. *)
Definition find_split (s : ParallelCompactData) (src_region dest target_end : Z) : option (ParallelCompactData * Z * Z * Z) :=
  src ← region s src_region;
  let partial := partial_obj_size src in
  if target_end <? word_add dest partial then
    let overflow_obj := partial_obj_addr src in
    let split_region := addr_to_region_idx s overflow_obj in
    sr ← region s split_region;
    let beg_idx := addr_to_region_idx s (region_align_up (word_add (destination sr) (partial_obj_size sr))) in
    let end_idx := addr_to_region_idx s target_end in
    s ← clear_source_regions (Z.to_nat (end_idx - beg_idx)) s beg_idx;
    Some (s, split_region, destination sr, partial_obj_size sr)
  else Some (s, src_region, dest, partial).

(** The result: the summary data, the split, [source_next] and [target_next]. *)
Definition summarize_split_space (s : ParallelCompactData) (src_region : Z) (info : SplitInfo) (dest target_end : Z)
    : option (ParallelCompactData * SplitInfo * Z * Z) :=
  '(s, split_region, split_dest, partial) ← find_split s src_region dest target_end;
  '(s, info) ← (if negb (partial =? 0) then
                  s ← update_region s split_region (set_partial_obj_size 0);
                  Some (s, split_record s split_region partial split_dest info)
                else Some (s, info));
  Some (s, info, word_add (region_to_addr s split_region) partial, word_add split_dest partial).

(** The destination count of a region and the source regions of its destinations. *)
Definition summarize_region (s : ParallelCompactData) (info : SplitInfo) (cur_region dest_addr words : Z) : option ParallelCompactData :=
  let split := is_split info cur_region in
  let count := if split then split_destination_count info else 0 in
  s ← (if split && (count =? 2)
       then update_region s (addr_to_region_idx s (dest_region_addr info)) (set_source_region cur_region) else Some s);
  let last_addr := word_add dest_addr (words - 1) in
  let dest_region_1 := addr_to_region_idx s dest_addr in
  let dest_region_2 := addr_to_region_idx s last_addr in
  let count := count + (if cur_region =? dest_region_2 then 0 else 1) in
  '(s, count) ← (if negb (dest_region_1 =? dest_region_2) then
                   s ← update_region s dest_region_2 (set_source_region cur_region); Some (s, count + 1)
                 else if region_offset dest_addr =? 0 then
                   s ← update_region s dest_region_1 (set_source_region cur_region); Some (s, count)
                 else Some (s, count));
  update_region s cur_region (set_destination_count count).

Inductive SummarizeResult :=
  | Fits (s : ParallelCompactData) (target_next : Z)
  | Splits (s : ParallelCompactData) (info : SplitInfo) (source_next target_next : Z).

(** [n] regions from [cur_region] on. *)
Fixpoint summarize_loop (n : nat) (s : ParallelCompactData) (info : SplitInfo) (cur_region dest_addr target_end : Z)
    : option SummarizeResult :=
  match n with
  | O => Some (Fits s dest_addr)
  | S n =>
      s ← update_region s cur_region (set_destination dest_addr);
      r ← region s cur_region;
      let words := data_size r in
      if 0 <? words then
        if target_end <? word_add dest_addr words then
          '(s, info, source_next, target_next) ← summarize_split_space s cur_region info dest_addr target_end;
          Some (Splits s info source_next target_next)
        else
          s ← summarize_region s info cur_region dest_addr words;
          summarize_loop n s info (cur_region + 1) (word_add dest_addr words) target_end
      else summarize_loop n s info (cur_region + 1) dest_addr target_end
  end.

Definition summarize (s : ParallelCompactData) (info : SplitInfo) (source_beg source_end target_beg target_end : Z)
    : option SummarizeResult :=
  let cur_region := addr_to_region_idx s source_beg in
  let end_region := addr_to_region_idx s (region_align_up source_end) in
  summarize_loop (Z.to_nat (end_region - cur_region)) s info cur_region target_beg target_end.

(** *** [fill_blocks] and [calc_new_pointer] *)

Fixpoint fill_blocks_loop (fuel : nat) (m : ParMarkBitMap) (s : ParallelCompactData) (range_end cur_block live_bits beg_bit : Z)
    : option ParallelCompactData :=
  if beg_bit <? range_end then
    match fuel with
    | O => None
    | S fuel =>
        let new_block := Z.shiftr beg_bit (Log2BlockSize - LogMinObjAlignment) in
        '(s, cur_block) ← (if negb (new_block =? cur_block)
                           then s ← set_offset s new_block (bits_to_words live_bits); Some (s, new_block)
                           else Some (s, cur_block));
        end_bit ← find_obj_end m beg_bit range_end;
        if end_bit <? range_end - 1 then
          let live_bits := live_bits + (end_bit - beg_bit + 1) in
          beg_bit ← find_obj_beg m (end_bit + 1) range_end;
          fill_blocks_loop fuel m s range_end cur_block live_bits beg_bit
        else Some s
    end
  else Some s.

Definition fill_blocks (m : ParMarkBitMap) (s : ParallelCompactData) (region_idx : Z) : option ParallelCompactData :=
  r ← region s region_idx;
  if RegionSize <=? partial_obj_size r then Some s
  else
    let cur_block := block_count s in
    let beg_bit := words_to_bits (Z.shiftl region_idx Log2RegionSize) in
    let range_end := beg_bit + words_to_bits RegionSize in
    let live_bits := words_to_bits (partial_obj_size r) in
    beg_bit ← find_obj_beg m (beg_bit + live_bits) range_end;
    fill_blocks_loop (Z.to_nat RegionSize) m s range_end cur_block live_bits beg_bit.

Definition calc_new_pointer (m : ParMarkBitMap) (s : ParallelCompactData) (addr : Z) : option (Z * ParallelCompactData) :=
  let region_idx := addr_to_region_idx s addr in
  r ← region s region_idx;
  if data_size r =? RegionSize then Some (word_add (destination r) (region_offset addr), s)
  else
    s ← (if negb (blocks_filled r)
         then s ← fill_blocks m s region_idx; update_region s region_idx set_blocks_filled else Some s);
    let search_start := block_align_down addr in
    block_offset ← zget (_block_data s) (addr_to_block_idx s addr);
    live ← live_words_in_range m search_start addr;
    Some (word_add (destination r) (block_offset + live), s).

(** The end of the object that extends onto a region. *)
Fixpoint partial_obj_end_loop (n : nat) (s : ParallelCompactData) (i result : Z) : option Z :=
  match n with
  | O => Some result
  | S n =>
      r ← region s i;
      let result := word_add result (partial_obj_size r) in
      if partial_obj_size r =? RegionSize then partial_obj_end_loop n s (i + 1) result else Some result
  end.

Definition partial_obj_end (s : ParallelCompactData) (region_idx : Z) : option Z :=
  partial_obj_end_loop (Z.to_nat (region_count s - 1 - region_idx)) s region_idx (region_to_addr s region_idx).

(** *** [PSParallelCompact] *)

Record SpaceInfo := mkSpaceInfo {
  bottom : Z;
  top : Z;
  end_ : Z;
  new_top : Z;
  dense_prefix : Z;
  split_info : SplitInfo;
}.

Definition set_new_top (addr : Z) (i : SpaceInfo) : SpaceInfo :=
  mkSpaceInfo (bottom i) (top i) (end_ i) addr (dense_prefix i) (split_info i).
Definition set_dense_prefix (addr : Z) (i : SpaceInfo) : SpaceInfo :=
  mkSpaceInfo (bottom i) (top i) (end_ i) (new_top i) addr (split_info i).
Definition set_split_info (info : SplitInfo) (i : SpaceInfo) : SpaceInfo :=
  mkSpaceInfo (bottom i) (top i) (end_ i) (new_top i) (dense_prefix i) info.

(** The values of [initialize_dead_wood_limiter]. *)
Record DeadWoodLimiter := mkLimiter {
  _dwl_mean : spec_float;
  _dwl_std_dev : spec_float;
  _dwl_first_term : spec_float;
  _dwl_adjustment : spec_float;
}.

(** The spaces are the old space, the eden and the two survivor spaces, in this order. *)
Record PSParallelCompact := mkPSC {
  _mark_bitmap : ParMarkBitMap;
  _summary_data : ParallelCompactData;
  _space_info : list SpaceInfo;
  _limiter : DeadWoodLimiter;
  _total_invocations : Z;
  _maximum_compaction_gc_num : Z;
}.

Definition with_tables (c : PSParallelCompact) (m : ParMarkBitMap) (s : ParallelCompactData) : PSParallelCompact :=
  mkPSC m s (_space_info c) (_limiter c) (_total_invocations c) (_maximum_compaction_gc_num c).
Definition with_summary (c : PSParallelCompact) (s : ParallelCompactData) : PSParallelCompact := with_tables c (_mark_bitmap c) s.
Definition with_spaces (c : PSParallelCompact) (l : list SpaceInfo) : PSParallelCompact :=
  mkPSC (_mark_bitmap c) (_summary_data c) l (_limiter c) (_total_invocations c) (_maximum_compaction_gc_num c).
Definition with_gc_num (c : PSParallelCompact) (n : Z) : PSParallelCompact :=
  mkPSC (_mark_bitmap c) (_summary_data c) (_space_info c) (_limiter c) (_total_invocations c) n.
Definition update_space (c : PSParallelCompact) (id : Z) (f : SpaceInfo -> SpaceInfo) : option PSParallelCompact :=
  i ← zget (_space_info c) id; l ← zset (_space_info c) id (f i); Some (with_spaces c l).

Definition mark_object (c : PSParallelCompact) (obj obj_size : Z) : option (bool * PSParallelCompact) :=
  '(r, m) ← mark_obj (_mark_bitmap c) obj obj_size;
  if r : bool then
    s ← add_obj (_summary_data c) obj obj_size;
    Some (true, with_tables c m s)
  else Some (false, with_tables c m (_summary_data c)).

(** [summarize] where [source_next] is NULL: the source must fit. *)
Definition summarize_all (c : PSParallelCompact) (id source_beg source_end target_beg target_end target_id : Z) : option PSParallelCompact :=
  i ← zget (_space_info c) id;
  r ← summarize (_summary_data c) (split_info i) source_beg source_end target_beg target_end;
  match r with
  | Fits s target_next => update_space (with_summary c s) target_id (set_new_top target_next)
  | Splits _ _ _ _ => None
  end.

Fixpoint summarize_quick_loop (n : nat) (c : PSParallelCompact) (id : Z) : option PSParallelCompact :=
  match n with
  | O => Some c
  | S n =>
      i ← zget (_space_info c) id;
      c ← summarize_all c id (bottom i) (top i) (bottom i) (end_ i) id;
      c ← update_space c id (set_dense_prefix (bottom i));
      summarize_quick_loop n c (id + 1)
  end.

Definition last_space_id : nat := 4.
Definition summarize_spaces_quick (c : PSParallelCompact) : option PSParallelCompact := summarize_quick_loop last_space_id c 0.

Definition dead_space_crosses_boundary (c : PSParallelCompact) (r : RegionData) (bit : Z) : option bool :=
  if partial_obj_size r =? 0 then
    beg ← is_obj_beg (_mark_bitmap c) bit;
    if beg : bool then Some false else negb <$> is_obj_end (_mark_bitmap c) (bit - 1)
  else Some false.

Definition min_fill_size : Z := 2.

(** The words the filler object takes. *)
Definition filler (m : ParMarkBitMap) (dense_prefix_end dense_prefix_bit : Z) : option (Z * Z) :=
  e2 ← is_obj_end m (dense_prefix_bit - 2);
  if e2 : bool then Some (word_add dense_prefix_end (-1), min_fill_size)
  else
    e3 ← is_obj_end m (dense_prefix_bit - 3);
    e4 ← (if negb e3 then is_obj_end m (dense_prefix_bit - 4) else Some false);
    if e4 : bool then Some (word_add dense_prefix_end (-3), 3)
    else Some (word_add dense_prefix_end (- min_fill_size), min_fill_size).

Definition fill_dense_prefix_end (c : PSParallelCompact) (id : Z) : option PSParallelCompact :=
  i ← zget (_space_info c) id;
  let dense_prefix_end := dense_prefix i in
  r ← region (_summary_data c) (addr_to_region_idx (_summary_data c) dense_prefix_end);
  let dense_prefix_bit := addr_to_bit (_mark_bitmap c) dense_prefix_end in
  crosses ← dead_space_crosses_boundary c r dense_prefix_bit;
  if crosses : bool then
    '(obj_beg, obj_len) ← filler (_mark_bitmap c) dense_prefix_end dense_prefix_bit;
    '(_, m) ← mark_obj (_mark_bitmap c) obj_beg obj_len;
    s ← add_obj (_summary_data c) obj_beg obj_len;
    Some (with_tables c m s)
  else Some c.

(** The first region that is not full, and the region with [dead_words] dead words to its left. *)
Fixpoint first_dead_loop (fuel : nat) (s : ParallelCompactData) (left right : Z) : option Z :=
  if left <? right then
    match fuel with
    | O => None
    | S fuel =>
        let middle := left + (right - left) / 2 in
        r ← region s middle;
        if (left <? middle) && (destination r <? region_to_addr s middle) then first_dead_loop fuel s left (middle - 1)
        else if (middle <? right) && (data_size r =? RegionSize) then first_dead_loop fuel s (middle + 1) right
        else Some middle
    end
  else Some left.

Definition first_dead_space_region (s : ParallelCompactData) (beg fin : Z) : option Z :=
  let right := if beg <? fin then fin - 1 else beg in
  first_dead_loop (Z.to_nat (right - beg)) s beg right.

Fixpoint dead_wood_limit_loop (fuel : nat) (s : ParallelCompactData) (dead_words left right : Z) : option Z :=
  if left <? right then
    match fuel with
    | O => None
    | S fuel =>
        let middle := left + (right - left) / 2 in
        r ← region s middle;
        let dead_to_left := words_between (region_to_addr s middle) (destination r) in
        if (left <? middle) && (dead_words <? dead_to_left) then dead_wood_limit_loop fuel s dead_words left (middle - 1)
        else if (middle <? right) && (dead_to_left <? dead_words) then dead_wood_limit_loop fuel s dead_words (middle + 1) right
        else Some middle
    end
  else Some left.

Definition dead_wood_limit_region (s : ParallelCompactData) (beg fin dead_words : Z) : option Z :=
  let right := if beg <? fin then fin - 1 else beg in
  dead_wood_limit_loop (Z.to_nat (right - beg)) s dead_words beg right.

Definition reclaimed_ratio (s : ParallelCompactData) (cp : Z) (r : RegionData) (bottom top new_top : Z) : spec_float :=
  let dense_prefix_live := words_between (destination r) bottom in
  let compacted_region_live := words_between new_top (destination r) in
  let compacted_region_used := words_between top (region_to_addr s cp) in
  let reclaimable := u64 (compacted_region_used - compacted_region_live) in
  let divisor := dadd (double_of dense_prefix_live) (dmul (ddiv (double_of 5) (double_of 4)) (double_of compacted_region_live)) in
  ddiv (double_of reclaimable) divisor.

Fixpoint best_ratio_loop (n : nat) (s : ParallelCompactData) (i : SpaceInfo) (cp best_cp : Z) (best_ratio : spec_float) : option Z :=
  match n with
  | O => Some best_cp
  | S n =>
      r ← region s cp;
      let tmp_ratio := reclaimed_ratio s cp r (bottom i) (top i) (new_top i) in
      if SFltb best_ratio tmp_ratio then best_ratio_loop n s i (cp + 1) cp tmp_ratio else best_ratio_loop n s i (cp + 1) best_cp best_ratio
  end.

Section Phases.
(** The library function [exp], and what a conversion of a double that is out of range gives. *)
Context (exp : spec_float -> spec_float) (out_of_range : Z).
(** The flags. *)
Context (HeapMaximumCompactionInterval HeapFirstMaximumCompactionCount MarkSweepDeadRatio : Z).

Definition normal_distribution (l : DeadWoodLimiter) (density : spec_float) : spec_float :=
  let squared_term := ddiv (dsub density (_dwl_mean l)) (_dwl_std_dev l) in
  dmul (_dwl_first_term l) (exp (dmul (dmul (SFopp (ddiv (double_of 1) (double_of 2))) squared_term) squared_term)).

Definition initialize_dead_wood_limiter (ParallelOldDeadWoodLimiterMean ParallelOldDeadWoodLimiterStdDev : Z) : DeadWoodLimiter :=
  let mean := ddiv (double_of (Z.min ParallelOldDeadWoodLimiterMean 100)) (double_of 100) in
  let std_dev := ddiv (double_of (Z.min ParallelOldDeadWoodLimiterStdDev 100)) (double_of 100) in
  let first_term := ddiv (double_of 1) (dmul (dsqrt (dmul (double_of 2) M_PI)) std_dev) in
  let l := mkLimiter mean std_dev first_term (double_of 0) in
  mkLimiter mean std_dev first_term (normal_distribution l (double_of 1)).

Definition dead_wood_limiter (l : DeadWoodLimiter) (density : spec_float) (min_percent : Z) : spec_float :=
  let raw_limit := normal_distribution l density in
  let min := ddiv (double_of min_percent) (double_of 100) in
  let limit := dadd (dsub raw_limit (_dwl_adjustment l)) min in
  dmax limit (double_of 0).

Definition compute_dense_prefix (c : PSParallelCompact) (id : Z) (maximum_compaction : bool) : option (Z * PSParallelCompact) :=
  let s := _summary_data c in
  i ← zget (_space_info c) id;
  let beg_cp := addr_to_region_idx s (bottom i) in
  let top_cp := addr_to_region_idx s (region_align_up (top i)) in
  let new_top_cp := addr_to_region_idx s (region_align_up (new_top i)) in
  full_cp ← first_dead_space_region s beg_cp new_top_cp;
  let gcs_since_max := u32 (_total_invocations c - _maximum_compaction_gc_num c) in
  let interval_ended := (HeapMaximumCompactionInterval <? gcs_since_max) || (_total_invocations c =? HeapFirstMaximumCompactionCount) in
  if maximum_compaction || (full_cp =? top_cp) || interval_ended then
    Some (region_to_addr s full_cp, with_gc_num c (_total_invocations c))
  else
    let space_live := words_between (new_top i) (bottom i) in
    let space_used := words_between (top i) (bottom i) in
    let space_capacity := words_between (end_ i) (bottom i) in
    let density := ddiv (double_of space_live) (double_of space_capacity) in
    let limiter := dead_wood_limiter (_limiter c) density MarkSweepDeadRatio in
    let dead_wood_max := u64 (space_used - space_live) in
    let dead_wood_limit := Z.min (size_of_double out_of_range (dmul (double_of space_capacity) limiter)) dead_wood_max in
    limit_cp ← dead_wood_limit_region s full_cp top_cp dead_wood_limit;
    best_cp ← best_ratio_loop (Z.to_nat (limit_cp - full_cp)) s i full_cp full_cp (double_of 0);
    Some (region_to_addr s best_cp, c).

Definition summarize_space (c : PSParallelCompact) (id : Z) (maximum_compaction : bool) : option PSParallelCompact :=
  i ← zget (_space_info c) id;
  if negb (new_top i =? bottom i) then
    '(dense_prefix_end, c) ← compute_dense_prefix c id maximum_compaction;
    c ← update_space c id (set_dense_prefix dense_prefix_end);
    if negb maximum_compaction && negb (dense_prefix_end =? bottom i) then
      c ← fill_dense_prefix_end c id;
      s ← summarize_dense_prefix (_summary_data c) (bottom i) dense_prefix_end;
      summarize_all (with_summary c s) id dense_prefix_end (top i) dense_prefix_end (end_ i) id
    else Some c
  else Some c.

(** The remaining spaces; [dst] is the target space. *)
Fixpoint summarize_young_loop (n : nat) (c : PSParallelCompact) (id dst dst_space_end : Z) : option PSParallelCompact :=
  match n with
  | O => Some c
  | S n =>
      i ← zget (_space_info c) id;
      d ← zget (_space_info c) dst;
      let live := words_between (new_top i) (bottom i) in
      let available := words_between dst_space_end (new_top d) in
      if (0 <? live) && (live <=? available) then
        c ← summarize_all c id (bottom i) (top i) (new_top d) dst_space_end dst;
        c ← update_space c id (set_new_top (bottom i));
        summarize_young_loop n c (id + 1) dst dst_space_end
      else if 0 <? live then
        r ← summarize (_summary_data c) (split_info i) (bottom i) (top i) (new_top d) dst_space_end;
        '(c, next_src_addr) ← match r with
          | Splits s info source_next target_next =>
              c ← update_space (with_summary c s) id (set_split_info info);
              c ← update_space c dst (set_new_top target_next);
              Some (c, source_next)
          | Fits s target_next =>
              c ← update_space (with_summary c s) dst (set_new_top target_next); Some (c, 0)
          end;
        c ← summarize_all c id next_src_addr (top i) (bottom i) (end_ i) id;
        summarize_young_loop n c (id + 1) id (end_ i)
      else summarize_young_loop n c (id + 1) dst dst_space_end
  end.

Definition total_live (c : PSParallelCompact) : Z :=
  foldl (fun live i => u64 (live + words_between (new_top i) (bottom i))) 0 (_space_info c).

Definition summary_phase (c : PSParallelCompact) (maximum_compaction : bool) : option PSParallelCompact :=
  c ← summarize_spaces_quick c;
  old ← zget (_space_info c) 0;
  let old_capacity := words_between (end_ old) (bottom old) in
  let maximum_compaction := maximum_compaction || (old_capacity <? total_live c) in
  c ← summarize_space c 0 maximum_compaction;
  summarize_young_loop (last_space_id - 1) c 1 0 (end_ old).
End Phases.

(** *** The end of a collection *)

Definition clear_data_covering_space (c : PSParallelCompact) (id : Z) : option PSParallelCompact :=
  i ← zget (_space_info c) id;
  let max_top := Z.max (top i) (new_top i) in
  let beg_bit := addr_to_bit (_mark_bitmap c) (bottom i) in
  let end_bit := word_align_up (addr_to_bit (_mark_bitmap c) (top i)) in
  m ← marks_clear_range (_mark_bitmap c) beg_bit end_bit;
  let beg_region := addr_to_region_idx (_summary_data c) (bottom i) in
  let end_region := addr_to_region_idx (_summary_data c) (region_align_up max_top) in
  s ← clear_range (_summary_data c) beg_region end_region;
  let c := with_tables c m s in
  if is_valid (split_info i) then update_space c id (set_split_info split_clear) else Some c.

Definition publish_new_top (i : SpaceInfo) : SpaceInfo :=
  mkSpaceInfo (bottom i) (new_top i) (end_ i) (new_top i) (dense_prefix i) (split_info i).

(** The loop of [post_compact] over the spaces. *)
Fixpoint post_compact_loop (n : nat) (c : PSParallelCompact) (id : Z) : option PSParallelCompact :=
  match n with
  | O => Some c
  | S n =>
      c ← clear_data_covering_space c id;
      c ← update_space c id publish_new_top;
      post_compact_loop n c (id + 1)
  end.
Definition post_compact_spaces (c : PSParallelCompact) : option PSParallelCompact := post_compact_loop last_space_id c 0.
