(* ===== verification/ParallelCompactCorrect.v ===== *)
(** The new addresses of live objects: the marking of objects in any order, the summary of
    the regions and the lookup of new addresses. *)

From S2P Require Import Prelude GlobalDefinitions VirtualSpace BitMap BitMapCorrect ParMarkBitMap ParallelCompact.

(** ** Objects

    An object is given by the index of its first word, counted from the start of the heap,
    and its size in words. *)

Definition obj_end (x : Z * Z) : Z := x.1 + x.2.

(** The number of words of an object in a range, and of all objects. *)
Definition overlap (a b : Z) (x : Z * Z) : Z := Z.max 0 (Z.min b (obj_end x) - Z.max a x.1).
Fixpoint sum_over (f : Z * Z -> Z) (objs : list (Z * Z)) : Z :=
  match objs with [] => 0 | x :: objs => f x + sum_over f objs end.
Definition live_in (objs : list (Z * Z)) (a b : Z) : Z := sum_over (overlap a b) objs.

Record objects_ok (objs : list (Z * Z)) : Prop := {
  objects_pos : forall x, x ∈ objs -> 0 <= x.1 /\ 0 < x.2;
  objects_nodup : NoDup objs;
  objects_apart : forall x y, x ∈ objs -> y ∈ objs -> x = y \/ obj_end x <= y.1 \/ obj_end y <= x.1;
}.

(** No object covers the words before and behind [a]. *)
Definition boundary (objs : list (Z * Z)) (a : Z) : Prop := forall x, x ∈ objs -> x.1 < a -> obj_end x <= a.

Lemma sum_over_ext (f g : Z * Z -> Z) (objs : list (Z * Z)) : (forall x, x ∈ objs -> f x = g x) -> sum_over f objs = sum_over g objs.
Proof.
  induction objs as [|x objs IH]; intros Hfg; [done|]. cbn. rewrite Hfg by apply list_elem_of_here. f_equal. apply IH. intros y Hy. apply Hfg. by apply list_elem_of_further.
Qed.

Lemma sum_over_add (f g : Z * Z -> Z) (objs : list (Z * Z)) : sum_over (fun x => f x + g x) objs = sum_over f objs + sum_over g objs.
Proof. induction objs as [|x objs IH]; [done|]. cbn. rewrite IH. lia. Qed.

Lemma sum_over_zero (f : Z * Z -> Z) (objs : list (Z * Z)) : (forall x, x ∈ objs -> f x = 0) -> sum_over f objs = 0.
Proof. intros Hf. rewrite (sum_over_ext f (fun _ => 0)) by done. clear Hf. induction objs as [|x objs IH]; [done|]. cbn. by rewrite IH. Qed.

Lemma sum_over_nonneg (f : Z * Z -> Z) (objs : list (Z * Z)) : (forall x, x ∈ objs -> 0 <= f x) -> 0 <= sum_over f objs.
Proof.
  induction objs as [|x objs IH]; intros Hf; [done|]. cbn. pose proof (Hf x (list_elem_of_here _ _)).
  pose proof (IH (fun y Hy => Hf y (list_elem_of_further _ _ _ Hy))). lia.
Qed.

(** One object counts. *)
Lemma sum_over_one (f : Z * Z -> Z) (objs : list (Z * Z)) (x : Z * Z) :
  NoDup objs -> x ∈ objs -> (forall y, y ∈ objs -> y <> x -> f y = 0) -> sum_over f objs = f x.
Proof.
  induction objs as [|z objs IH]; intros Hn Hx Hf; [by apply elem_of_nil in Hx|]. apply list.NoDup_cons in Hn as [Hz Hn]. cbn.
  apply elem_of_cons in Hx as [->|Hx].
  - rewrite sum_over_zero; [lia|]. intros y Hy. apply Hf; [by apply list_elem_of_further|]. intros ->. done.
  - rewrite IH; [|done|done|intros y Hy; apply Hf; by apply list_elem_of_further]. rewrite Hf; [lia|apply list_elem_of_here|]. intros ->. done.
Qed.

Lemma sum_over_perm (f : Z * Z -> Z) (l1 l2 : list (Z * Z)) : l1 ≡ₚ l2 -> sum_over f l1 = sum_over f l2.
Proof. induction 1; cbn; lia. Qed.

Lemma live_in_nonneg (objs : list (Z * Z)) (a b : Z) : 0 <= live_in objs a b.
Proof. apply sum_over_nonneg. intros x _. unfold overlap. lia. Qed.

Lemma live_in_split (objs : list (Z * Z)) (a b c : Z) : a <= b <= c -> live_in objs a c = live_in objs a b + live_in objs b c.
Proof.
  intros Hb. unfold live_in. rewrite <- sum_over_add. apply sum_over_ext. intros x _. unfold overlap. lia.
Qed.

Lemma live_in_empty (objs : list (Z * Z)) (a b : Z) : b <= a -> live_in objs a b = 0.
Proof. intros Hb. apply sum_over_zero. intros x _. unfold overlap. lia. Qed.

Lemma live_in_gap (objs : list (Z * Z)) (a b : Z) :
  boundary objs a -> (forall x, x ∈ objs -> ~ a <= x.1 < b) -> live_in objs a b = 0.
Proof.
  intros Ha Hb. apply sum_over_zero. intros x Hx. unfold overlap. specialize (Hb x Hx).
  destruct (Z.lt_ge_cases x.1 a); [pose proof (Ha x Hx ltac:(lia)); lia|]. lia.
Qed.

Section Objects.
Context (objs : list (Z * Z)) (Hok : objects_ok objs).

Lemma live_in_object (x : Z * Z) : x ∈ objs -> live_in objs x.1 (obj_end x) = x.2.
Proof using Hok.
  intros Hx. destruct (objects_pos _ Hok x Hx) as [_ Hp]. unfold live_in. rewrite (sum_over_one _ _ x); [unfold overlap, obj_end; lia|apply Hok|done|].
  intros y Hy Hne. unfold overlap. destruct (objects_apart _ Hok x y Hx Hy) as [->|Hap]; [done|]. unfold obj_end in *. lia.
Qed.

Lemma boundary_start (x : Z * Z) : x ∈ objs -> boundary objs x.1.
Proof using Hok.
  intros Hx y Hy Hlt. destruct (objects_apart _ Hok x y Hx Hy) as [->|Hap]; [lia|]. pose proof (objects_pos _ Hok x Hx). unfold obj_end in *. lia.
Qed.

Lemma boundary_end (x : Z * Z) : x ∈ objs -> boundary objs (obj_end x).
Proof using Hok.
  intros Hx y Hy Hlt. destruct (objects_apart _ Hok x y Hx Hy) as [->|Hap]; [done|]. pose proof (objects_pos _ Hok x Hx). unfold obj_end in *. lia.
Qed.

Lemma object_unique (x y : Z * Z) : x ∈ objs -> y ∈ objs -> x.1 = y.1 -> x = y.
Proof using Hok.
  intros Hx Hy He. destruct (objects_apart _ Hok x y Hx Hy) as [|Hap]; [done|].
  pose proof (objects_pos _ Hok x Hx). pose proof (objects_pos _ Hok y Hy). unfold obj_end in *. lia.
Qed.

(** The words of a range are at most its length. *)
Lemma live_in_bound (a b : Z) : a <= b -> live_in objs a b <= b - a.
Proof using Hok.
  revert a b Hok. induction objs as [|x l IH]; intros a b Hok Hab; [cbn; lia|].
  assert (Hl : objects_ok l).
  { destruct Hok as [Hp Hn Ha]. apply list.NoDup_cons in Hn as [_ Hn]. split; [|done|]; intros; [apply Hp; by apply list_elem_of_further|apply Ha; by apply list_elem_of_further]. }
  change (live_in (x :: l) a b) with (overlap a b x + live_in l a b). pose proof (list_elem_of_here x l) as Hx. destruct (objects_pos _ Hok x Hx) as [Hx0 Hx1].
  set (lo := Z.max a (Z.min b x.1)). set (hi := Z.min b (Z.max a (obj_end x))). unfold obj_end in *.
  rewrite (live_in_split l a lo b), (live_in_split l lo hi b) by lia.
  assert (Hmid : live_in l lo hi = 0).
  { apply sum_over_zero. intros y Hy. unfold overlap.
    destruct (objects_apart _ Hok x y Hx (list_elem_of_further _ _ _ Hy)) as [->|Hap]; [|unfold obj_end in *; lia].
    pose proof (objects_nodup _ Hok) as Hn. apply list.NoDup_cons in Hn as [Hn _]. done. }
  pose proof (IH a lo Hl ltac:(lia)). pose proof (IH hi b Hl ltac:(lia)). unfold overlap, obj_end. lia.
Qed.
End Objects.

(** ** Addresses *)

Lemma land_mask_u64 (x k : Z) : in_u 64 x -> 0 <= k -> Z.land x (u64 (Z.lnot (2 ^ k - 1))) = x - x mod 2 ^ k.
Proof.
  intros Hx Hk. rewrite <- land_lnot_ones by done. apply Z.bits_inj'. intros i Hi. rewrite !Z.land_spec, umod_testbit by lia.
  destruct (Z.ltb_spec i 64); [done|]. by rewrite (testbit_high 64 x) by lia.
Qed.

(** Sums of multiples. *)
Lemma div_add_small (a b c : Z) : 0 <= b < c -> (c * a + b) / c = a.
Proof. intros Hb. rewrite Z.mul_comm, Z.div_add_l, Z.div_small by lia. lia. Qed.

Section Addresses.
Context (H : Z) (HH : 0 <= H < 2 ^ 61) (H19 : (2 ^ 19 | H)).

(** The address of a word of the heap. *)
Definition addr (w : Z) : Z := H + 8 * w.

Lemma addr_range (w : Z) : 0 <= w < 2 ^ 56 -> in_u 62 (addr w).
Proof using HH. unfold addr. pow2_norm. lia. Qed.

Lemma words_between_addr (v w : Z) : 0 <= v <= w -> w < 2 ^ 56 -> words_between (addr w) (addr v) = w - v.
Proof using HH.
  intros Hv Hw. unfold addr. pow2_norm. rewrite words_between_eq by (pow2_norm; lia). replace (H + 8 * w - (H + 8 * v)) with ((w - v) * 8) by lia. by apply Z.div_mul.
Qed.

Lemma words_from_start (w : Z) : 0 <= w < 2 ^ 56 -> words_between (addr w) H = w.
Proof using HH. intros Hw. pose proof (words_between_addr 0 w ltac:(lia) ltac:(lia)) as He. unfold addr at 2 in He. by rewrite Z.add_0_r, Z.sub_0_r in He. Qed.

Lemma word_add_addr (w n : Z) : word_add (addr w) n = addr (w + n).
Proof using. unfold word_add, addr. change HeapWordSize with 8. lia. Qed.

Lemma addr_lt (v w : Z) : (addr v <? addr w) = (v <? w).
Proof using. unfold addr. destruct (Z.ltb_spec v w), (Z.ltb_spec (H + 8 * v) (H + 8 * w)); done || lia. Qed.

Lemma addr_inj (v w : Z) : addr v = addr w -> v = w.
Proof using. unfold addr. lia. Qed.

Lemma addr_align (k w : Z) : 3 <= k <= 19 -> 0 <= w < 2 ^ 56 ->
  Z.land (addr w) (u64 (Z.lnot (2 ^ k - 1))) = addr (w - w mod 2 ^ (k - 3)).
Proof using HH H19.
  intros Hk Hw. rewrite land_mask_u64 by (pose proof (addr_range w Hw); pow2_norm; lia). unfold addr.
  assert (Hm : (H + 8 * w) mod 2 ^ k = 8 * (w mod 2 ^ (k - 3))); [|lia].
  destruct H19 as [q Hq]. rewrite Hq. replace (2 ^ 19) with (2 ^ (19 - k) * 2 ^ k) by (rewrite <- Z.pow_add_r by lia; f_equal; lia).
  replace (q * (2 ^ (19 - k) * 2 ^ k) + 8 * w) with (8 * w + (q * 2 ^ (19 - k)) * 2 ^ k) by lia. rewrite Z.mod_add by (apply Z.pow_nonzero; lia).
  replace (2 ^ k) with (8 * 2 ^ (k - 3)) by (change 8 with (2 ^ 3); rewrite <- Z.pow_add_r by lia; f_equal; lia).
  apply Z.mul_mod_distr_l; [apply Z.pow_nonzero|]; lia.
Qed.

Section Tables.
Context (s : ParallelCompactData) (Hs : _region_start s = H).

Lemma region_idx_addr (w : Z) : 0 <= w < 2 ^ 56 -> addr_to_region_idx s (addr w) = w / 65536.
Proof using HH Hs.
  intros Hw. unfold addr_to_region_idx. rewrite Hs, words_from_start by done. by rewrite Z.shiftr_div_pow2.
Qed.

Lemma block_idx_addr (w : Z) : 0 <= w < 2 ^ 56 -> addr_to_block_idx s (addr w) = w / 128.
Proof using HH Hs.
  intros Hw. unfold addr_to_block_idx. rewrite Hs, words_from_start by done. by rewrite Z.shiftr_div_pow2.
Qed.

Lemma region_to_addr_eq (r : Z) : 0 <= r < 2 ^ 40 -> region_to_addr s r = addr (65536 * r).
Proof using Hs.
  intros Hr. unfold region_to_addr. rewrite Hs. change Log2RegionSize with 16. rewrite Z.shiftl_mul_pow2 by lia. change (2 ^ 16) with 65536.
  pow2_norm. rewrite umod_id by (pow2_norm; lia). unfold word_add, addr. change HeapWordSize with 8. lia.
Qed.
End Tables.

Lemma region_offset_addr (w : Z) : 0 <= w -> region_offset (addr w) = w mod 65536.
Proof using H19.
  intros Hw. unfold region_offset. change RegionAddrOffsetMask with (Z.ones 19). rewrite Z.land_ones by done. change LogHeapWordSize with 3. rewrite Z.shiftr_div_pow2 by done.
  destruct H19 as [q Hq]. unfold addr. rewrite Hq. replace (q * 2 ^ 19 + 8 * w) with (8 * w + q * 2 ^ 19) by lia. rewrite Z.mod_add by lia.
  change (2 ^ 19) with (8 * 65536). rewrite Z.mul_mod_distr_l by lia. change (2 ^ 3) with 8. rewrite (Z.mul_comm 8). by apply Z.div_mul.
Qed.

Lemma region_align_down_addr (w : Z) : 0 <= w < 2 ^ 56 -> region_align_down (addr w) = addr (w - w mod 65536).
Proof using HH H19. intros Hw. unfold region_align_down. change RegionAddrMask with (u64 (Z.lnot (2 ^ 19 - 1))). by apply (addr_align 19). Qed.

Lemma block_align_down_addr (w : Z) : 0 <= w < 2 ^ 56 -> block_align_down (addr w) = addr (w - w mod 128).
Proof using HH H19. intros Hw. unfold block_align_down. change BlockAddrMask with (u64 (Z.lnot (2 ^ 10 - 1))). by apply (addr_align 10). Qed.

(** The number of regions that cover [w] words. *)
Definition regions_up (w : Z) : Z := (w + 65535) / 65536.

Lemma region_align_up_addr (w : Z) : 0 <= w < 2 ^ 55 -> region_align_up (addr w) = addr (65536 * regions_up w).
Proof using HH H19.
  intros Hw. unfold region_align_up. rewrite word_add_addr. change RegionSizeOffsetMask with 65535. pow2_norm. rewrite region_align_down_addr by (pow2_norm; lia).
  f_equal. unfold regions_up. pose proof (Z.div_mod (w + 65535) 65536 ltac:(lia)). lia.
Qed.

Lemma regions_up_spec (w : Z) : w <= 65536 * regions_up w < w + 65536.
Proof using. unfold regions_up. pose proof (Z.div_mod (w + 65535) 65536 ltac:(lia)). pose proof (Z.mod_pos_bound (w + 65535) 65536 ltac:(lia)). lia. Qed.

Section Marks.
Context (m : ParMarkBitMap) (Hm : marks_start m = H).

Lemma bit_addr (w : Z) : 0 <= w < 2 ^ 56 -> addr_to_bit m (addr w) = w.
Proof using HH Hm.
  intros Hw. unfold addr_to_bit, words_to_bits. rewrite Hm, words_from_start by done. apply Z.shiftr_0_r.
Qed.

Lemma addr_bit (w : Z) : 0 <= w < 2 ^ 56 -> bit_to_addr m w = addr w.
Proof using Hm.
  intros Hw. unfold bit_to_addr, bits_to_words. rewrite Hm. change LogMinObjAlignment with 0. pow2_norm. rewrite Z.shiftl_0_r, umod_id by (pow2_norm; lia).
  unfold word_add, addr. change HeapWordSize with 8. lia.
Qed.
End Marks.
End Addresses.

(** ** The mark bits *)

(** The mark bit map of a heap of [N] regions in which [objs] are marked. *)
Record marked (H N : Z) (m : ParMarkBitMap) (objs : list (Z * Z)) : Prop := {
  marked_start : marks_start m = H;
  marked_wf : wf (_beg_bits m) /\ wf (_end_bits m);
  marked_size : bm_size (_beg_bits m) = 65536 * N /\ bm_size (_end_bits m) = 65536 * N;
  marked_beg : forall i, 0 <= i < 65536 * N -> bit (_beg_bits m) i = true <-> exists x, x ∈ objs /\ x.1 = i;
  marked_end : forall i, 0 <= i < 65536 * N -> bit (_end_bits m) i = true <-> exists x, x ∈ objs /\ obj_end x = i + 1;
}.

Definition inside (N : Z) (objs : list (Z * Z)) : Prop := forall x, x ∈ objs -> obj_end x <= 65536 * N.

Lemma word_align_up_eq (w : Z) : 0 <= w < 2 ^ 60 -> w <= word_align_up w < w + 64 /\ word_align_up w mod 64 = 0.
Proof.
  intros Hw. unfold word_align_up, BitsPerWord. rewrite align_size_up_eq by (done || pow2_norm; lia).
  destruct (align_up_bounds 64 ltac:(pow2_norm; lia) w) as [[k Hk] Hb]. split; [lia|]. rewrite Hk. by apply Z.mod_mul.
Qed.

Section Marked.
Context (H N : Z) (HH : 0 <= H < 2 ^ 61) (H19 : (2 ^ 19 | H)) (HN : 0 <= N < 2 ^ 38).
Context (m : ParMarkBitMap) (objs : list (Z * Z)) (Hm : marked H N m objs) (Hok : objects_ok objs) (Hin : inside N objs).

Lemma find_beg_ok (l r : Z) :
  0 <= l <= r -> r <= 65536 * N -> r mod 64 = 0 ->
  exists x, find_obj_beg m l r = Some x /\ l <= x <= r /\ (forall y, y ∈ objs -> ~ l <= y.1 < x) /\ (x < r -> exists y, y ∈ objs /\ y.1 = x).
Proof using Hm.
  intros Hl Hr Hal. destruct (marked_wf _ _ _ _ Hm) as [Hwf _], (marked_size _ _ _ _ Hm) as [Hsz _]. unfold find_obj_beg.
  rewrite aligned_right_eq by (done || lia). destruct (get_next_one_offset_spec _ l r Hwf Hl ltac:(lia)) as (x & -> & Hx & Hno & Hyes).
  exists x. split; [done|]. split; [done|]. split.
  - intros y Hy Hyr. specialize (Hno y.1 Hyr). assert (Hb : bit (_beg_bits m) y.1 = true) by (apply (marked_beg _ _ _ _ Hm); [lia|by exists y]). congruence.
  - intros Hxr. apply (marked_beg _ _ _ _ Hm); [lia|]. by apply Hyes.
Qed.

(** From a word of an object the search finds its last word. *)
Lemma find_end_ok (y : Z * Z) (l r : Z) :
  y ∈ objs -> y.1 <= l < obj_end y -> l <= r -> r <= 65536 * N -> r mod 64 = 0 -> find_obj_end m l r = Some (Z.min (obj_end y - 1) r).
Proof using Hm Hok.
  intros Hy Hl Hlr Hr Hal. destruct (marked_wf _ _ _ _ Hm) as [_ Hwf], (marked_size _ _ _ _ Hm) as [_ Hsz]. unfold find_obj_end.
  pose proof (objects_pos _ Hok y Hy) as [Hy0 Hy1]. rewrite aligned_right_eq by (done || lia).
  destruct (get_next_one_offset_spec _ l r Hwf ltac:(lia) ltac:(lia)) as (x & -> & Hx & Hno & Hyes). f_equal.
  assert (Hend : forall i, l <= i < obj_end y - 1 -> i < 65536 * N -> bit (_end_bits m) i = false).
  { intros i Hi HiN. destruct (bit (_end_bits m) i) eqn:Hb; [|done]. apply (marked_end _ _ _ _ Hm) in Hb as (z & Hz & He); [|lia].
    destruct (objects_apart _ Hok y z Hy Hz) as [->|Hap]; [lia|]. pose proof (objects_pos _ Hok z Hz). unfold obj_end in *. lia. }
  assert (Hlast : obj_end y <= 65536 * N -> bit (_end_bits m) (obj_end y - 1) = true).
  { intros HyN. apply (marked_end _ _ _ _ Hm); [lia|]. exists y. split; [done|lia]. }
  destruct (Z.lt_trichotomy x (Z.min (obj_end y - 1) r)) as [Hlt|[He|Hgt]]; [|done|].
  - specialize (Hyes ltac:(lia)). rewrite Hend in Hyes by lia. done.
  - specialize (Hno (obj_end y - 1) ltac:(lia)). rewrite Hlast in Hno by lia. done.
Qed.

(** The words from a start to the next one. *)
Lemma live_to_next (y : Z * Z) (x r : Z) :
  y ∈ objs -> obj_end y <= x <= r -> (forall z, z ∈ objs -> ~ obj_end y <= z.1 < x) -> live_in objs y.1 x = y.2.
Proof using Hok.
  intros Hy Hx Hno. pose proof (objects_pos _ Hok y Hy). rewrite (live_in_split _ _ (obj_end y)) by (unfold obj_end in *; lia).
  rewrite live_in_object, live_in_gap by (done || by apply boundary_end). lia.
Qed.

Lemma live_words_loop_ok (fuel : nat) (w : Z * Z) (range_end : Z) (beg live : Z) :
  w ∈ objs -> w.1 <= range_end <= 65536 * N -> range_end mod 64 = 0 -> (exists y, y ∈ objs /\ y.1 = beg) -> beg <= w.1 ->
  w.1 - beg <= Z.of_nat fuel -> 0 <= live -> live + (w.1 - beg) < 2 ^ 60 ->
  live_words_loop fuel m w.1 range_end beg live = Some (live + live_in objs beg w.1).
Proof using Hm Hok.
  intros Hw Hre Hal. revert beg live. induction fuel as [|fuel IH]; intros beg live (y & Hy & <-) Hle Hfuel Hl0 Hl; cbn [live_words_loop].
  { destruct (Z.ltb_spec y.1 w.1); [lia|]. rewrite live_in_empty by lia. f_equal. lia. }
  destruct (Z.ltb_spec y.1 w.1) as [Hlt|]; [|rewrite live_in_empty by lia; f_equal; lia].
  pose proof (objects_pos _ Hok y Hy) as [Hy0 Hy1]. pose proof (boundary_start objs Hok w Hw y Hy Hlt) as Hend.
  rewrite (find_end_ok y) by (unfold obj_end in *; done || lia). cbn [mbind option_bind]. rewrite Z.min_l by lia. rewrite Z.sub_add.
  replace (obj_end y - 1 - y.1 + 1) with y.2 by (unfold obj_end; lia).
  destruct (find_beg_ok (obj_end y) range_end) as (x & -> & Hx & Hno & Hyes); try (unfold obj_end in *; lia). cbn [mbind option_bind].
  assert (Hxw : x <= w.1) by (destruct (Z.le_gt_cases x w.1); [done|]; exfalso; apply (Hno w Hw); lia). pow2_norm.
  rewrite umod_id by (unfold obj_end in *; pow2_norm; lia). rewrite IH; try (unfold obj_end in *; pow2_norm; lia).
  - rewrite (live_in_split objs y.1 x w.1) by (unfold obj_end in *; lia). rewrite (live_to_next y x range_end) by done. f_equal. lia.
  - destruct (Z.eq_dec x range_end); [exists w; split; [done|lia]|apply Hyes; lia].
Qed.

(** The first object that starts from [a] on. *)
Definition first_from (a : Z) (x : Z * Z) : Prop := x ∈ objs /\ a <= x.1 /\ forall y, y ∈ objs -> a <= y.1 -> x.1 <= y.1.

Lemma live_words_ok (w x : Z * Z) (a : Z) :
  w ∈ objs -> 0 <= a -> first_from a x -> a <= w.1 -> live_words_in_range m (addr H a) (addr H w.1) = Some (live_in objs x.1 w.1).
Proof using HH HN Hm Hok Hin.
  intros Hw Ha (Hx & Hxa & Hfirst) Haw. pose proof (objects_pos _ Hok w Hw) as [Hw0 Hw1]. pose proof (Hin w Hw) as HwN. unfold obj_end in HwN. pow2_norm.
  unfold live_words_in_range. rewrite !(bit_addr H HH m (marked_start _ _ _ _ Hm)) by (pow2_norm; lia).
  destruct (word_align_up_eq w.1 ltac:(pow2_norm; lia)) as [Hup Hmod]. set (re := word_align_up w.1) in *.
  assert (HreN : re <= 65536 * N). { pose proof (Z.div_mod re 64 ltac:(lia)). lia. }
  destruct (find_beg_ok a re ltac:(lia) HreN Hmod) as (b & -> & Hb & Hno & Hyes). cbn [mbind option_bind].
  assert (Hbx : b = x.1).
  { pose proof (Hfirst w Hw Haw). destruct (Z.lt_trichotomy b x.1) as [Hlt|[|Hgt]]; [|done|exfalso; apply (Hno x Hx); lia].
    destruct (Hyes ltac:(lia)) as (z & Hz & <-). specialize (Hfirst z Hz ltac:(lia)). lia. }
  subst b. rewrite live_words_loop_ok; try (pow2_norm; lia) || done; [|by exists x|by apply Hfirst].
  cbn [mbind option_bind]. pose proof (live_in_nonneg objs x.1 w.1). pose proof (live_in_bound objs Hok x.1 w.1 (Hfirst w Hw Haw)).
  unfold bits_to_words. change LogMinObjAlignment with 0. rewrite Z.shiftl_0_r, Z.add_0_l, umod_id by (pow2_norm; lia). done.
Qed.
End Marked.

(** ** The block table *)

Lemma set_offset_ok (s : ParallelCompactData) (i v : Z) :
  0 <= i < block_count s -> 0 <= v < 65536 ->
  exists s', set_offset s i v = Some s' /\ _region_start s' = _region_start s /\ _region_data s' = _region_data s /\ block_count s' = block_count s /\
    forall j, zget (_block_data s') j = if bool_decide (i = j) then Some v else zget (_block_data s) j.
Proof.
  intros Hi Hv. unfold set_offset, block_count in *. rewrite umod_id by (pow2_norm; lia).
  destruct (zset (_block_data s) i v) as [l|] eqn:Hl; [|unfold zset in Hl; case_bool_decide; done || lia].
  eexists. split; [done|]. split; [done|]. split; [done|]. cbn [_block_data]. split; [by rewrite (zset_length _ _ _ _ Hl)|]. intros j. by apply zget_zset.
Qed.

(** [s'] differs from [s] only in the block table of region [r]. *)
Definition blocks_changed (r : Z) (s s' : ParallelCompactData) : Prop :=
  _region_start s' = _region_start s /\ _region_data s' = _region_data s /\ block_count s' = block_count s /\
  forall b, b / 512 <> r -> zget (_block_data s') b = zget (_block_data s) b.

Lemma blocks_changed_trans (r : Z) (s1 s2 s3 : ParallelCompactData) : blocks_changed r s1 s2 -> blocks_changed r s2 s3 -> blocks_changed r s1 s3.
Proof. intros (A1 & A2 & A3 & A4) (B1 & B2 & B3 & B4). repeat split; try congruence. intros b Hb. by rewrite B4, A4. Qed.

Section FillBlocks.
Context (H N : Z) (HN : 0 <= N < 2 ^ 38) (m : ParMarkBitMap) (objs : list (Z * Z)).
Context (Hm : marked H N m objs) (Hok : objects_ok objs).

Definition first_in_block (x : Z * Z) : Prop := x ∈ objs /\ forall y, y ∈ objs -> y.1 / 128 = x.1 / 128 -> x.1 <= y.1.

(** Region [r] starts with the words up to [a] of an object that starts before it, of which
    [p] words count. *)
Context (r a p : Z) (Hr : 0 <= r < N) (Ha : 65536 * r <= a <= 65536 * (r + 1)) (Hba : boundary objs a).
Context (Hno : forall x, x ∈ objs -> ~ 65536 * r <= x.1 < a) (Hp : 0 <= p <= a - 65536 * r).

(** The entries for the blocks that have a start before [lim]. *)
Definition filled (s : ParallelCompactData) (lim : Z) : Prop :=
  forall x, first_in_block x -> 65536 * r <= x.1 < lim -> zget (_block_data s) (x.1 / 128) = Some (p + live_in objs a x.1).

Lemma block_value_range (w : Z) : a <= w < 65536 * (r + 1) -> 0 <= p + live_in objs a w < 65536.
Proof using Hok Hp.
  intros Hw. pose proof (live_in_nonneg objs a w). pose proof (live_in_bound objs Hok a w ltac:(lia)). lia.
Qed.

Lemma block_of_region (w : Z) : 65536 * r <= w < 65536 * (r + 1) -> w / 128 / 512 = r.
Proof using. intros Hw. rewrite Z.div_div by lia. change (128 * 512) with 65536. symmetry. apply Z.div_unique with (w - 65536 * r); lia. Qed.

(** The entry of a start that is found. *)
Lemma fill_entry_ok (s : ParallelCompactData) (y : Z * Z) (cur : Z) :
  block_count s = 512 * N -> y ∈ objs -> a <= y.1 < 65536 * (r + 1) -> filled s y.1 ->
  (cur = y.1 / 128 <-> exists z, z ∈ objs /\ 65536 * r <= z.1 < y.1 /\ z.1 / 128 = y.1 / 128) ->
  exists s', (if negb (y.1 / 128 =? cur) then s' ← set_offset s (y.1 / 128) (bits_to_words (p + live_in objs a y.1)); Some (s', y.1 / 128) else Some (s, cur))
      = Some (s', y.1 / 128) /\ blocks_changed r s s' /\ filled s' (y.1 + 1).
Proof using Hr Ha Hok Hp.
  intros Hcnt Hy Hya Hfill Hcur. pose proof (block_value_range y.1 Hya) as Hv. pose proof (block_of_region y.1 ltac:(lia)) as Hblk. pow2_norm.
  pose proof (Z.div_mod (y.1 / 128) 512 ltac:(lia)). pose proof (Z.mod_pos_bound (y.1 / 128) 512 ltac:(lia)).
  unfold bits_to_words. change LogMinObjAlignment with 0. rewrite Z.shiftl_0_r, umod_id by (pow2_norm; lia).
  destruct (Z.eqb_spec (y.1 / 128) cur) as [He|Hne]; cbn [negb].
  - exists s. rewrite He. split; [done|]. split; [done|]. intros x (Hx & Hfst) Hxr. destruct (Z.eq_dec x.1 y.1) as [Hxy|]; [|apply Hfill; [done|lia]].
    exfalso. destruct (proj1 Hcur (eq_sym He)) as (z & Hz & Hzr & Hzb). rewrite <- Hxy in Hzb. specialize (Hfst z Hz Hzb). lia.
  - destruct (set_offset_ok s (y.1 / 128) (p + live_in objs a y.1) ltac:(lia) Hv) as (s' & -> & S1 & S2 & S3 & S4). exists s'. split; [done|].
    split; [split; [done|]; split; [done|]; split; [done|]; intros b Hb; rewrite S4; case_bool_decide as Hb'; [by subst b|done]|].
    intros x Hx Hxr. rewrite S4. case_bool_decide as Hb.
    + destruct (Z.eq_dec x.1 y.1) as [->|]; [done|]. exfalso. apply Hne. symmetry. apply Hcur. exists x. split; [apply Hx|]. split; [lia|done].
    + destruct (Z.eq_dec x.1 y.1) as [Hxy|]; [by rewrite Hxy in Hb|]. apply Hfill; [done|lia].
Qed.

Lemma fill_blocks_loop_ok (fuel : nat) (s : ParallelCompactData) (cur beg : Z) :
  block_count s = 512 * N -> a <= beg <= 65536 * (r + 1) -> (beg < 65536 * (r + 1) -> exists y, y ∈ objs /\ y.1 = beg) -> filled s beg ->
  (beg < 65536 * (r + 1) -> cur = beg / 128 <-> exists z, z ∈ objs /\ 65536 * r <= z.1 < beg /\ z.1 / 128 = beg / 128) ->
  65536 * (r + 1) - beg <= Z.of_nat fuel ->
  exists s', fill_blocks_loop fuel m s (65536 * (r + 1)) cur (p + live_in objs a beg) beg = Some s' /\ blocks_changed r s s' /\ filled s' (65536 * (r + 1)).
Proof using HN Hm Hok Hr Ha Hp.
  revert s cur beg. induction fuel as [|fuel IH]; intros s cur beg Hcnt Hbeg Hstart Hfill Hcur Hfuel; cbn [fill_blocks_loop].
  { destruct (Z.ltb_spec beg (65536 * (r + 1))); [lia|]. exists s. split; [done|]. split; [done|]. by replace (65536 * (r + 1)) with beg by lia. }
  destruct (Z.ltb_spec beg (65536 * (r + 1))) as [Hlt|].
  2: { exists s. split; [done|]. split; [done|]. by replace (65536 * (r + 1)) with beg by lia. }
  destruct (Hstart Hlt) as (y & Hy & <-). change (Log2BlockSize - LogMinObjAlignment) with 7. rewrite Z.shiftr_div_pow2 by done. change (2 ^ 7) with 128.
  destruct (fill_entry_ok s y cur Hcnt Hy ltac:(lia) Hfill (Hcur Hlt)) as (s1 & -> & Hch & Hfill1). cbn [mbind option_bind].
  pose proof (objects_pos _ Hok y Hy) as [Hy0 Hy1]. assert (Hmod : (65536 * (r + 1)) mod 64 = 0) by (apply Z.mod_divide; [done|]; exists (1024 * (r + 1)); lia).
  rewrite (find_end_ok H N m objs Hm Hok y) by (unfold obj_end; done || lia). cbn [mbind option_bind].
  assert (Hmore : forall lim, y.1 < lim -> (forall x, x ∈ objs -> y.1 < x.1 -> lim <= x.1) -> filled s1 lim).
  { intros lim Hlim Hnext x Hx Hxr. apply Hfill1; [done|]. destruct (Z.le_gt_cases x.1 y.1); [lia|]. specialize (Hnext x (proj1 Hx) ltac:(lia)). lia. }
  assert (Hnext : forall x, x ∈ objs -> y.1 < x.1 -> obj_end y <= x.1).
  { intros x Hx Hxy. destruct (objects_apart _ Hok y x Hy Hx) as [->|[?|Hap]]; [lia|done|]. pose proof (objects_pos _ Hok x Hx). unfold obj_end in *. lia. }
  destruct (Z.ltb_spec (Z.min (obj_end y - 1) (65536 * (r + 1))) (65536 * (r + 1) - 1)) as [He|He].
  - rewrite Z.min_l by lia. rewrite Z.sub_add. replace (obj_end y - 1 - y.1 + 1) with y.2 by (unfold obj_end; lia).
    destruct (find_beg_ok H N m objs Hm (obj_end y) (65536 * (r + 1))) as (b & -> & Hb & Hbno & Hbyes); try (unfold obj_end in *; lia). cbn [mbind option_bind].
    replace (p + live_in objs a y.1 + y.2) with (p + live_in objs a b).
    2: { rewrite (live_in_split objs a y.1 b) by (unfold obj_end in *; lia). rewrite (live_to_next objs Hok y b b) by (done || lia). lia. }
    destruct (IH s1 (y.1 / 128) b) as (s' & -> & Hch' & Hfill'); try (unfold obj_end in *; lia).
    + destruct Hch as (_ & _ & -> & _). done.
    + done.
    + apply Hmore; [unfold obj_end in *; lia|]. intros x Hx Hxy. specialize (Hnext x Hx Hxy). specialize (Hbno x Hx). lia.
    + intros _. split; [intros Heq; exists y; split; [done|]; split; [unfold obj_end in *; lia|done]|]. intros (z & Hz & Hzr & Hzb).
      assert (Hzy : z.1 <= y.1). { destruct (Z.le_gt_cases z.1 y.1); [done|]. specialize (Hnext z Hz ltac:(lia)). specialize (Hbno z Hz). lia. }
      pose proof (Z.div_le_mono z.1 y.1 128 ltac:(lia) Hzy). pose proof (Z.div_le_mono y.1 b 128 ltac:(lia) ltac:(unfold obj_end in *; lia)). lia.
    + exists s'. split; [done|]. split; [by eapply blocks_changed_trans|done].
  - exists s1. split; [done|]. split; [done|]. apply Hmore; [lia|]. intros x Hx Hxy. specialize (Hnext x Hx Hxy). lia.
Qed.

Lemma fill_blocks_ok (s : ParallelCompactData) (rd : RegionData) :
  region s r = Some rd -> partial_obj_size rd = p -> block_count s = 512 * N -> (p = 0 \/ p = a - 65536 * r) -> a < 65536 * (r + 1) ->
  exists s', fill_blocks m s r = Some s' /\ blocks_changed r s s' /\ filled s' (65536 * (r + 1)).
Proof using HN Hm Hok Hr Ha Hp Hno Hba.
  intros Hrd Hpart Hcnt Hpa Ha1. pow2_norm. unfold fill_blocks. rewrite Hrd. cbn [mbind option_bind]. rewrite Hpart. change RegionSize with 65536.
  destruct (Z.leb_spec 65536 p); [lia|]. unfold words_to_bits. change LogMinObjAlignment with 0. change Log2RegionSize with 16. rewrite !Z.shiftr_0_r, Z.shiftl_mul_pow2 by lia.
  change (2 ^ 16) with 65536. replace (r * 65536 + 65536) with (65536 * (r + 1)) by lia.
  assert (Hmod : (65536 * (r + 1)) mod 64 = 0) by (apply Z.mod_divide; [done|]; exists (1024 * (r + 1)); lia).
  destruct (find_beg_ok H N m objs Hm (r * 65536 + p) (65536 * (r + 1))) as (b & -> & Hb & Hbno & Hbyes); try lia. cbn [mbind option_bind].
  assert (Hab : a <= b). { destruct (Z.le_gt_cases a b); [done|]. destruct (Hbyes ltac:(lia)) as (y & Hy & <-). exfalso. apply (Hno y Hy). lia. }
  assert (Hgap : live_in objs a b = 0). { apply live_in_gap; [done|]. intros x Hx Hxr. apply (Hbno x Hx). lia. }
  pose proof (fill_blocks_loop_ok (Z.to_nat 65536) s (block_count s) b Hcnt ltac:(lia) Hbyes) as Hloop. rewrite Hgap, Z.add_0_r in Hloop. apply Hloop.
  - intros x (Hx & _) Hxr. exfalso. destruct (Z.lt_ge_cases x.1 a); [apply (Hno x Hx); lia|]. apply (Hbno x Hx). lia.
  - intros Hbr. split; [|intros (z & Hz & Hzr & _); exfalso; destruct (Z.lt_ge_cases z.1 a); [apply (Hno z Hz)|apply (Hbno z Hz)]; lia].
    intros He. exfalso. pose proof (block_of_region b ltac:(lia)) as Hblk. rewrite <- He, Hcnt, Z.mul_comm, Z.div_mul in Hblk by lia. lia.
  - lia.
Qed.
End FillBlocks.

(** ** Regions *)

Lemma update_region_ok (s : ParallelCompactData) (i : Z) (rd : RegionData) (f : RegionData -> RegionData) :
  region s i = Some rd ->
  exists s', update_region s i f = Some s' /\ _region_start s' = _region_start s /\ _block_data s' = _block_data s /\ region_count s' = region_count s /\
    forall j, region s' j = if bool_decide (i = j) then Some (f rd) else region s j.
Proof.
  intros Hr. unfold update_region, region, region_count in *. rewrite Hr. cbn [mbind option_bind]. apply zget_Some_range in Hr.
  destruct (zset (_region_data s) i (f rd)) as [l|] eqn:Hl; [|unfold zset in Hl; case_bool_decide; done || lia].
  eexists. split; [done|]. split; [done|]. split; [done|]. cbn [_region_data]. split; [by rewrite (zset_length _ _ _ _ Hl)|]. intros j. by apply zget_zset.
Qed.

Lemma region_in (s : ParallelCompactData) (i : Z) : 0 <= i < region_count s -> exists rd, region s i = Some rd.
Proof.
  intros Hi. unfold region, zget, region_count in *. rewrite bool_decide_eq_true_2 by lia. destruct (lookup_lt_is_Some_2 (_region_data s) (Z.to_nat i)) as [rd Hrd]; [lia|]. by exists rd.
Qed.

(** The words of a region that belong to an object from before it, and the live words of the
    objects that start in it. *)
Definition partial_in (objs : list (Z * Z)) (r : Z) : Z :=
  sum_over (fun x => if x.1 <? 65536 * r then overlap (65536 * r) (65536 * (r + 1)) x else 0) objs.
Definition started_in (objs : list (Z * Z)) (r : Z) : Z :=
  sum_over (fun x => if x.1 <? 65536 * r then 0 else overlap (65536 * r) (65536 * (r + 1)) x) objs.
Definition partial_end (objs : list (Z * Z)) (r : Z) : Z := 65536 * r + partial_in objs r.

Lemma live_in_region (objs : list (Z * Z)) (r : Z) : live_in objs (65536 * r) (65536 * (r + 1)) = partial_in objs r + started_in objs r.
Proof. unfold live_in, partial_in, started_in. rewrite <- sum_over_add. apply sum_over_ext. intros x _. destruct (x.1 <? 65536 * r); lia. Qed.

Section Regions.
Context (objs : list (Z * Z)) (Hok : objects_ok objs).

(** At most one object extends onto a region. *)
Lemma partial_in_object (x : Z * Z) (r : Z) :
  x ∈ objs -> x.1 < 65536 * r < obj_end x -> partial_in objs r = Z.min (obj_end x) (65536 * (r + 1)) - 65536 * r.
Proof using Hok.
  intros Hx Hr. unfold partial_in. rewrite (sum_over_one _ _ x); [destruct (Z.ltb_spec x.1 (65536 * r)); [unfold overlap; lia|lia]|apply Hok|done|].
  intros y Hy Hne. destruct (Z.ltb_spec y.1 (65536 * r)); [|done]. unfold overlap. destruct (objects_apart _ Hok x y Hx Hy) as [->|Hap]; [done|].
  pose proof (objects_pos _ Hok y Hy). unfold obj_end in *. lia.
Qed.

Lemma partial_in_none (r : Z) : (forall x, x ∈ objs -> ~ x.1 < 65536 * r < obj_end x) -> partial_in objs r = 0.
Proof using. intros Hno. apply sum_over_zero. intros x Hx. specialize (Hno x Hx). destruct (Z.ltb_spec x.1 (65536 * r)); [|done]. unfold overlap. lia. Qed.

Lemma partial_in_cases (r : Z) :
  partial_in objs r = 0 /\ (forall x, x ∈ objs -> ~ x.1 < 65536 * r < obj_end x) \/
  exists x, x ∈ objs /\ x.1 < 65536 * r < obj_end x /\ partial_in objs r = Z.min (obj_end x) (65536 * (r + 1)) - 65536 * r.
Proof using Hok.
  destruct (decide (Exists (fun x => x.1 < 65536 * r < obj_end x) objs)) as [He|He].
  - right. apply list.Exists_exists in He as (x & Hx & Hr). exists x. split; [done|]. split; [done|]. by apply partial_in_object.
  - left. assert (Hno : forall x, x ∈ objs -> ~ x.1 < 65536 * r < obj_end x) by (intros x Hx Hr; apply He, list.Exists_exists; by exists x).
    split; [by apply partial_in_none|done].
Qed.

Lemma partial_in_range (r : Z) : 0 <= partial_in objs r <= 65536.
Proof using Hok. destruct (partial_in_cases r) as [[-> _]|(x & _ & Hx & ->)]; lia. Qed.

Lemma partial_end_no_start (r : Z) (x : Z * Z) : x ∈ objs -> ~ 65536 * r <= x.1 < partial_end objs r.
Proof using Hok.
  intros Hx Hr. unfold partial_end in Hr. destruct (partial_in_cases r) as [[Hp _]|(y & Hy & Hyr & Hp)]; [lia|].
  destruct (objects_apart _ Hok x y Hx Hy) as [->|Hap]; [lia|]. pose proof (objects_pos _ Hok x Hx). unfold obj_end in *. lia.
Qed.

Lemma partial_end_boundary (r : Z) : partial_in objs r < 65536 -> boundary objs (partial_end objs r).
Proof using Hok.
  intros Hlt x Hx Hr. unfold partial_end in *. destruct (partial_in_cases r) as [[Hp Hno]|(y & Hy & Hyr & Hp)].
  - specialize (Hno x Hx). lia.
  - destruct (objects_apart _ Hok x y Hx Hy) as [->|Hap]; [lia|]. pose proof (objects_pos _ Hok x Hx). unfold obj_end in *. lia.
Qed.

(** The live words behind the object that extends onto the region. *)
Lemma live_from_partial_end (r w : Z) : partial_end objs r <= w -> live_in objs (65536 * r) w = partial_in objs r + live_in objs (partial_end objs r) w.
Proof using Hok.
  intros Hw. pose proof (partial_in_range r). rewrite (live_in_split objs _ (partial_end objs r)) by (unfold partial_end in *; lia). f_equal.
  destruct (partial_in_cases r) as [[Hp _]|(x & Hx & Hxr & Hp)]; unfold partial_end in *.
  - rewrite Hp, live_in_empty by lia. done.
  - unfold live_in. rewrite (sum_over_one _ _ x); [unfold overlap; lia|apply Hok|done|]. intros y Hy Hne. unfold overlap.
    destruct (objects_apart _ Hok x y Hx Hy) as [->|Hap]; [done|]. unfold obj_end in *. lia.
Qed.

Lemma started_in_eq (r : Z) : started_in objs r = live_in objs (partial_end objs r) (65536 * (r + 1)).
Proof using Hok.
  pose proof (partial_in_range r). pose proof (live_in_region objs r). pose proof (live_from_partial_end r (65536 * (r + 1)) ltac:(unfold partial_end; lia)). lia.
Qed.

Lemma started_in_range (r : Z) : 0 <= started_in objs r <= 65536 - partial_in objs r.
Proof using Hok.
  rewrite started_in_eq. pose proof (partial_in_range r). pose proof (live_in_nonneg objs (partial_end objs r) (65536 * (r + 1))).
  pose proof (live_in_bound objs Hok (partial_end objs r) (65536 * (r + 1)) ltac:(unfold partial_end; lia)). unfold partial_end in *. lia.
Qed.

Lemma start_after_partial (x : Z * Z) (r : Z) : x ∈ objs -> 65536 * r <= x.1 < 65536 * (r + 1) -> partial_end objs r <= x.1 /\ partial_in objs r < 65536.
Proof using Hok.
  intros Hx Hr. pose proof (partial_end_no_start r x Hx). pose proof (partial_in_range r). unfold partial_end in *. lia.
Qed.
End Regions.

(** ** New addresses *)

Section NewPointers.
Context (H N : Z) (HH : 0 <= H < 2 ^ 61) (H19 : (2 ^ 19 | H)) (HN : 0 <= N < 2 ^ 38).
Context (m : ParMarkBitMap) (objs : list (Z * Z)) (Hm : marked H N m objs) (Hok : objects_ok objs) (Hin : inside N objs).

(** The destination [D r] of each region and the words [p r] that count of the object that
    extends onto it; a dense region is to be left as it is. *)
Context (dense : Z -> bool) (D p : Z -> Z).

Record region_located (s : ParallelCompactData) (r : Z) (rd : RegionData) : Prop := {
  located_destination : destination rd = addr H (D r);
  located_partial : partial_obj_size rd = p r;
  located_size : if dense r then data_size rd = 65536 else live_obj_size rd = started_in objs r /\ (p r = 0 \/ p r = partial_in objs r);
  located_blocks : blocks_filled rd = true -> filled objs r (partial_end objs r) (p r) s (65536 * (r + 1));
}.

Record located (s : ParallelCompactData) : Prop := {
  located_start : _region_start s = H;
  located_count : region_count s = N /\ block_count s = 512 * N;
  located_regions : forall x, x ∈ objs -> exists rd, region s (x.1 / 65536) = Some rd /\ region_located s (x.1 / 65536) rd;
}.

Definition new_pos (w : Z) : Z :=
  let r := w / 65536 in if dense r then D r + w mod 65536 else D r + p r + live_in objs (partial_end objs r) w.

(** A region that is full of live words. *)
Lemma full_region (r w : Z) :
  p r = 0 \/ p r = partial_in objs r -> p r + started_in objs r = 65536 -> partial_end objs r <= w <= 65536 * (r + 1) ->
  p r + live_in objs (partial_end objs r) w = w - 65536 * r.
Proof using Hok.
  intros Hp Hfull Hw. pose proof (started_in_range objs Hok r) as Hs. pose proof (partial_in_range objs Hok r). rewrite started_in_eq in * by done.
  pose proof (live_in_bound objs Hok (partial_end objs r) w ltac:(lia)). pose proof (live_in_bound objs Hok w (65536 * (r + 1)) ltac:(lia)).
  pose proof (live_in_split objs (partial_end objs r) w (65536 * (r + 1)) ltac:(lia)). unfold partial_end in *. lia.
Qed.

(** Filling the blocks of a region. *)
Lemma fill_region_ok (s : ParallelCompactData) (r : Z) (rd : RegionData) :
  located s -> 0 <= r < N -> region s r = Some rd -> region_located s r rd -> dense r = false -> partial_in objs r < 65536 ->
  exists s', (if negb (blocks_filled rd) then s ← fill_blocks m s r; update_region s r set_blocks_filled else Some s) = Some s' /\
    located s' /\ filled objs r (partial_end objs r) (p r) s' (65536 * (r + 1)).
Proof using HN Hm Hok.
  intros Hs Hr Hrd [L1 L2 L3 L4] Hd Hpr. rewrite Hd in L3. destruct L3 as [L3 L5]. destruct (blocks_filled rd) eqn:Hb; cbn [negb]; [exists s; by split; [|split; [|apply L4]]|].
  destruct Hs as [S1 [S2 S3] S4]. pose proof (partial_in_range objs Hok r).
  destruct (fill_blocks_ok H N HN m objs Hm Hok r (partial_end objs r) (p r) Hr ltac:(unfold partial_end; lia) (partial_end_boundary objs Hok r Hpr)
    (partial_end_no_start objs Hok r) ltac:(unfold partial_end; lia) s rd Hrd L2 S3 ltac:(unfold partial_end; lia) ltac:(unfold partial_end; lia)) as (s1 & -> & (B1 & B2 & B3 & B4) & Hfill).
  cbn [mbind option_bind]. assert (Hrd1 : region s1 r = Some rd) by (unfold region; by rewrite B2).
  destruct (update_region_ok s1 r rd set_blocks_filled Hrd1) as (s' & -> & U1 & U2 & U3 & U4).
  assert (Hfill' : filled objs r (partial_end objs r) (p r) s' (65536 * (r + 1))) by (unfold filled; by rewrite U2).
  exists s'. split; [done|]. split; [|done]. split; [congruence|unfold region_count, block_count in *; split; congruence|].
  intros z Hz. destruct (S4 z Hz) as (rq & Hrq & Hlq). set (q := z.1 / 65536) in *. clearbody q. rewrite U4. case_bool_decide as He.
  - subst q. exists (set_blocks_filled rd). split; [done|]. split; cbn; [done|done| |done]. rewrite Hd. done.
  - exists rq. split; [unfold region in *; by rewrite B2|]. destruct Hlq as [Q1 Q2 Q3 Q4]. split; [done|done|done|]. intros Hbq x Hx Hxr.
    rewrite U2, B4; [by apply Q4|]. rewrite (block_of_region q) by lia. done.
Qed.

Lemma calc_new_pointer_ok (s : ParallelCompactData) (x : Z * Z) :
  located s -> x ∈ objs -> exists s', calc_new_pointer m s (addr H x.1) = Some (addr H (new_pos x.1), s') /\ located s'.
Proof using HH H19 HN Hm Hok Hin.
  intros Hs Hx. pose proof (objects_pos _ Hok x Hx) as [Hx0 Hx1]. pose proof (Hin x Hx) as HxN. unfold obj_end in HxN. pow2_norm. pose proof (located_start _ Hs) as Hst.
  unfold calc_new_pointer. rewrite (region_idx_addr H HH s Hst) by (pow2_norm; lia). set (r := x.1 / 65536).
  pose proof (Z.div_mod x.1 65536 ltac:(lia)) as Hdm. pose proof (Z.mod_pos_bound x.1 65536 ltac:(lia)) as Hmb. fold r in Hdm.
  assert (Hr : 0 <= r < N) by lia. destruct (located_regions _ Hs x Hx) as (rd & Hrd & Hloc). fold r in Hrd, Hloc. rewrite Hrd. cbn [mbind option_bind].
  destruct (start_after_partial objs Hok x r Hx ltac:(lia)) as [Hpe Hpr]. change RegionSize with 65536. unfold new_pos. fold r.
  rewrite (region_offset_addr H H19) by lia. rewrite (located_destination _ _ _ Hloc), word_add_addr. pose proof (located_size _ _ _ Hloc) as Hsize.
  destruct (dense r) eqn:Hd; [rewrite Hsize; by exists s|]. destruct Hsize as [Hlive Hp].
  destruct (Z.eqb_spec (data_size rd) 65536) as [Hfull|Hpart].
  { exists s. split; [|done]. do 3 f_equal. unfold data_size in Hfull. rewrite Hlive, (located_partial _ _ _ Hloc) in Hfull.
    pose proof (full_region r x.1 Hp Hfull ltac:(lia)). lia. }
  destruct (fill_region_ok s r rd Hs Hr Hrd Hloc Hd Hpr) as (s' & -> & Hs' & Hfill). cbn [mbind option_bind].
  rewrite (block_align_down_addr H HH H19) by (pow2_norm; lia). rewrite (block_idx_addr H HH s' (located_start _ Hs')) by (pow2_norm; lia).
  pose proof (Z.div_mod x.1 128 ltac:(lia)). pose proof (Z.mod_pos_bound x.1 128 ltac:(lia)).
  assert (Hbs : 65536 * r <= x.1 - x.1 mod 128) by lia.
  destruct (find_beg_ok H N m objs Hm (x.1 - x.1 mod 128) (65536 * (r + 1))) as (b & _ & Hbr & Hbno & Hbyes); try lia.
  { apply Z.mod_divide; [done|]. exists (1024 * (r + 1)). lia. }
  assert (Hbx : b <= x.1) by (destruct (Z.le_gt_cases b x.1); [done|]; exfalso; apply (Hbno x Hx); lia).
  destruct (Hbyes ltac:(lia)) as (y & Hy & <-). assert (Hblk : y.1 / 128 = x.1 / 128) by (symmetry; apply Z.div_unique with (y.1 - (x.1 - x.1 mod 128)); lia).
  assert (Hfirst : first_in_block objs y).
  { split; [done|]. intros z Hz Hzb. destruct (Z.le_gt_cases y.1 z.1); [done|]. exfalso. apply (Hbno z Hz).
    pose proof (Z.div_mod z.1 128 ltac:(lia)). pose proof (Z.mod_pos_bound z.1 128 ltac:(lia)). lia. }
  rewrite <- Hblk, (Hfill y Hfirst) by lia.
  cbn [mbind option_bind]. rewrite (live_words_ok H N HH HN m objs Hm Hok Hin x y (x.1 - x.1 mod 128)); try done; try lia.
  2: { split; [done|]. split; [lia|]. intros z Hz Hzr. destruct (Z.le_gt_cases y.1 z.1); [done|]. exfalso. apply (Hbno z Hz). lia. }
  cbn [mbind option_bind]. rewrite word_add_addr. exists s'. split; [|done]. do 3 f_equal.
  rewrite (live_in_split objs (partial_end objs r) y.1 x.1); [lia|]. destruct (start_after_partial objs Hok y r Hy ltac:(lia)). lia.
Qed.
End NewPointers.

(** ** Marking *)

Lemma los_mask_land (v : Z) : Z.land v los_mask = v mod 2 ^ 27.
Proof. change los_mask with (Z.ones 27). by rewrite Z.land_ones. Qed.

Lemma live_obj_size_range (rd : RegionData) : 0 <= live_obj_size rd < 2 ^ 27.
Proof. unfold live_obj_size. rewrite los_mask_land. apply Z.mod_pos_bound. done. Qed.

Lemma add_live_obj_size (n : Z) (rd : RegionData) :
  in_u 32 (_dc_and_los rd) -> 0 <= n -> live_obj_size rd + n < 2 ^ 27 ->
  live_obj_size (add_live_obj n rd) = live_obj_size rd + n /\ in_u 32 (_dc_and_los (add_live_obj n rd)).
Proof.
  intros Hr Hn Hsum. unfold live_obj_size, add_live_obj in *. cbn [_dc_and_los set_dc_and_los]. rewrite !los_mask_land in *. set (v := _dc_and_los rd) in *.
  pose proof (Z.div_mod v (2 ^ 27) ltac:(lia)) as Hd. pose proof (Z.mod_pos_bound v (2 ^ 27) ltac:(lia)) as Hb.
  pow2_norm. rewrite smod_id by (pow2_norm; lia). assert (v / 134217728 < 32) by (apply Z.div_lt_upper_bound; lia).
  rewrite umod_id by (pow2_norm; lia). split; [|lia]. symmetry. apply Z.mod_unique with (v / 134217728); lia.
Qed.

(** The counts of region [r] after the objects [objs] were added. *)
Record region_counted (H : Z) (objs : list (Z * Z)) (r : Z) (rd : RegionData) : Prop := {
  counted_partial : partial_obj_size rd = partial_in objs r;
  counted_live : live_obj_size rd = started_in objs r;
  counted_word : in_u 32 (_dc_and_los rd);
  counted_blocks : blocks_filled rd = false;
  counted_addr : forall x, x ∈ objs -> x.1 < 65536 * r < obj_end x -> partial_obj_addr rd = addr H x.1;
}.

Record counted (H N : Z) (s : ParallelCompactData) (objs : list (Z * Z)) : Prop := {
  counted_start : _region_start s = H;
  counted_count : region_count s = N /\ block_count s = 512 * N;
  counted_regions : forall r, 0 <= r < N -> exists rd, region s r = Some rd /\ region_counted H objs r rd;
}.

(** What a new object adds to the counts of a region. *)
Definition region_with (H : Z) (x : Z * Z) (r : Z) (rd : RegionData) : RegionData :=
  let n := overlap (65536 * r) (65536 * (r + 1)) x in
  if n =? 0 then rd
  else if x.1 <? 65536 * r then set_partial_obj_addr (addr H x.1) (set_partial_obj_size n rd) else add_live_obj n rd.

Lemma partial_in_cons (x : Z * Z) (objs : list (Z * Z)) (r : Z) :
  partial_in (x :: objs) r = (if x.1 <? 65536 * r then overlap (65536 * r) (65536 * (r + 1)) x else 0) + partial_in objs r.
Proof. done. Qed.
Lemma started_in_cons (x : Z * Z) (objs : list (Z * Z)) (r : Z) :
  started_in (x :: objs) r = (if x.1 <? 65536 * r then 0 else overlap (65536 * r) (65536 * (r + 1)) x) + started_in objs r.
Proof. done. Qed.

Lemma objects_ok_tail (x : Z * Z) (objs : list (Z * Z)) : objects_ok (x :: objs) -> objects_ok objs.
Proof.
  intros [Hp Hn Ha]. apply list.NoDup_cons in Hn as [_ Hn]. split; [|done|]; intros; [apply Hp|apply Ha]; by apply list_elem_of_further.
Qed.

Lemma region_with_counted (H : Z) (x : Z * Z) (objs : list (Z * Z)) (r : Z) (rd : RegionData) :
  objects_ok (x :: objs) -> region_counted H objs r rd -> region_counted H (x :: objs) r (region_with H x r rd).
Proof.
  intros Hok [C1 C2 C3 C4 C5]. pose proof (objects_ok_tail _ _ Hok) as Hok'. pose proof (started_in_range _ Hok r) as Hs. pose proof (partial_in_range _ Hok r) as Hp.
  pose proof (started_in_range _ Hok' r) as Hs'. pose proof (partial_in_range _ Hok' r) as Hp'.
  pose proof (objects_pos _ Hok x (list_elem_of_here _ _)) as Hx. rewrite started_in_cons, partial_in_cons in *. unfold region_with.
  set (n := overlap (65536 * r) (65536 * (r + 1)) x) in *. assert (Hn : 0 <= n <= 65536) by (unfold n, overlap; lia).
  assert (Hcross : forall y, y ∈ x :: objs -> y.1 < 65536 * r < obj_end y -> y = x \/ y ∈ objs) by (intros y Hy _; by apply elem_of_cons in Hy).
  destruct (Z.eqb_spec n 0) as [Hz|Hnz].
  - assert (Hsame : (if x.1 <? 65536 * r then n else 0) = 0 /\ (if x.1 <? 65536 * r then 0 else n) = 0) by (rewrite Hz; by destruct (x.1 <? 65536 * r)).
    split; rewrite ?started_in_cons, ?partial_in_cons; fold n; [lia|lia|done|done|]. intros y Hy Hyr. destruct (Hcross y Hy Hyr) as [->|]; [|by apply C5]. unfold n, overlap in Hz. lia.
  - destruct (Z.ltb_spec x.1 (65536 * r)) as [Hlt|Hge].
    + assert (Hx' : x.1 < 65536 * r < obj_end x) by (unfold n, overlap in Hnz; lia).
      assert (Hnone : partial_in objs r = 0).
      { apply partial_in_none. intros y Hy Hyr. destruct (objects_apart _ Hok x y (list_elem_of_here _ _) (list_elem_of_further _ _ _ Hy)) as [->|Hap]; [|lia].
        pose proof (objects_nodup _ Hok) as Hnd. apply list.NoDup_cons in Hnd as [Hnd _]. done. }
      split; rewrite ?started_in_cons, ?partial_in_cons; fold n; cbn; destruct (Z.ltb_spec x.1 (65536 * r)); try lia; [rewrite umod_id by (pow2_norm; lia); lia|done|done|].
      intros y Hy Hyr. destruct (Hcross y Hy Hyr) as [->|Hy']; [done|]. destruct (objects_apart _ Hok x y (list_elem_of_here _ _) Hy) as [->|Hap]; [done|lia].
    + destruct (add_live_obj_size n rd C3 ltac:(lia) ltac:(pow2_norm; lia)) as [A1 A2].
      split; rewrite ?started_in_cons, ?partial_in_cons; fold n; destruct (Z.ltb_spec x.1 (65536 * r)); try lia; [done|done|].
      intros y Hy Hyr. destruct (Hcross y Hy Hyr) as [->|Hy']; [lia|]. by apply C5.
Qed.

(** [s'] is [s] with each region changed by [g]. *)
Definition mapped (g : Z -> RegionData -> RegionData) (s s' : ParallelCompactData) : Prop :=
  _region_start s' = _region_start s /\ _block_data s' = _block_data s /\ region_count s' = region_count s /\
  forall j, region s' j = g j <$> region s j.

Definition at_region (i : Z) (f : RegionData -> RegionData) (j : Z) (rd : RegionData) : RegionData := if j =? i then f rd else rd.

Lemma mapped_refl (s : ParallelCompactData) : mapped (fun _ rd => rd) s s.
Proof. repeat split. intros j. by destruct (region s j). Qed.

Lemma mapped_trans (g1 g2 : Z -> RegionData -> RegionData) (s1 s2 s3 : ParallelCompactData) :
  mapped g1 s1 s2 -> mapped g2 s2 s3 -> mapped (fun j rd => g2 j (g1 j rd)) s1 s3.
Proof.
  intros (A1 & A2 & A3 & A4) (B1 & B2 & B3 & B4). repeat split; try congruence. intros j. rewrite B4, A4. by destruct (region s1 j).
Qed.

Lemma mapped_ext (g1 g2 : Z -> RegionData -> RegionData) (s s' : ParallelCompactData) :
  (forall j rd, region s j = Some rd -> g1 j rd = g2 j rd) -> mapped g1 s s' -> mapped g2 s s'.
Proof.
  intros Hg (A1 & A2 & A3 & A4). repeat split; try done. intros j. rewrite A4. destruct (region s j) as [rd|] eqn:Hr; [|done]. cbn. by rewrite (Hg j rd Hr).
Qed.

Lemma update_mapped (s : ParallelCompactData) (i : Z) (f : RegionData -> RegionData) :
  0 <= i < region_count s -> exists s', update_region s i f = Some s' /\ mapped (at_region i f) s s'.
Proof.
  intros Hi. destruct (region_in s i Hi) as [rd Hrd]. destruct (update_region_ok s i rd f Hrd) as (s' & He & U1 & U2 & U3 & U4). exists s'. split; [done|].
  repeat split; try done. intros j. rewrite U4. unfold at_region. case_bool_decide as Hij; [subst j; by rewrite Hrd, Z.eqb_refl|].
  destruct (Z.eqb_spec j i); [by subst|]. by destruct (region s j).
Qed.

Lemma mapped_region (g : Z -> RegionData -> RegionData) (s s' : ParallelCompactData) (j : Z) (rd : RegionData) :
  mapped g s s' -> region s j = Some rd -> region s' j = Some (g j rd).
Proof. intros (_ & _ & _ & M) Hr. by rewrite M, Hr. Qed.

(** A loop over [n] regions from [i] on that changes each of them by [f]. *)
Definition in_regions (i n : Z) (f : Z -> RegionData -> RegionData) (j : Z) (rd : RegionData) : RegionData :=
  if (i <=? j) && (j <? i + n) then f j rd else rd.

Lemma in_regions_cons (i n : Z) (f : Z -> RegionData -> RegionData) (j : Z) (rd : RegionData) :
  0 <= n -> in_regions (i + 1) n f j (at_region i (f i) j rd) = in_regions i (n + 1) f j rd.
Proof.
  intros Hn. unfold in_regions, at_region. destruct (Z.eqb_spec j i) as [->|].
  - destruct (Z.leb_spec (i + 1) i), (Z.leb_spec i i), (Z.ltb_spec i (i + (n + 1))); cbn [andb]; done || lia.
  - destruct (Z.leb_spec (i + 1) j), (Z.leb_spec i j), (Z.ltb_spec j (i + 1 + n)), (Z.ltb_spec j (i + (n + 1))); cbn [andb]; done || lia.
Qed.

Lemma add_middle_ok (n : nat) (s : ParallelCompactData) (a i : Z) :
  0 <= i -> i + Z.of_nat n <= region_count s ->
  exists s', add_middle n s a i = Some s' /\ mapped (in_regions i (Z.of_nat n) (fun _ rd => set_partial_obj_addr a (set_partial_obj_size RegionSize rd))) s s'.
Proof.
  revert s i. induction n as [|n IH]; intros s i Hi Hn; cbn [add_middle].
  { exists s. split; [done|]. eapply mapped_ext; [|apply mapped_refl]. intros j rd _. unfold in_regions. destruct (Z.leb_spec i j), (Z.ltb_spec j (i + Z.of_nat 0)); cbn [andb]; done || lia. }
  destruct (update_mapped s i (set_partial_obj_size RegionSize)) as (s1 & -> & M1); [lia|]. cbn [mbind option_bind]. pose proof M1 as (_ & _ & C1 & _).
  destruct (update_mapped s1 i (set_partial_obj_addr a)) as (s2 & -> & M2); [lia|]. cbn [mbind option_bind]. pose proof M2 as (_ & _ & C2 & _).
  destruct (IH s2 (i + 1) ltac:(lia) ltac:(lia)) as (s' & -> & M3). exists s'. split; [done|]. eapply mapped_ext; [|exact (mapped_trans _ _ _ _ _ (mapped_trans _ _ _ _ _ M1 M2) M3)].
  intros j rd _. replace (Z.of_nat (S n)) with (Z.of_nat n + 1) by lia. rewrite <- in_regions_cons by lia. f_equal. unfold at_region. by destruct (j =? i).
Qed.

Lemma add_obj_mapped (H N : Z) (s : ParallelCompactData) (x : Z * Z) :
  0 <= H < 2 ^ 61 -> (2 ^ 19 | H) -> 0 <= N < 2 ^ 38 -> _region_start s = H -> region_count s = N -> 0 <= x.1 -> 0 < x.2 -> obj_end x <= 65536 * N ->
  exists s', add_obj s (addr H x.1) x.2 = Some s' /\ mapped (region_with H x) s s'.
Proof.
  intros HH H19 HN Hst Hcnt Hx0 Hx1 Hend. pose proof Hend as Hend'. unfold obj_end in Hend'. pow2_norm. unfold add_obj. rewrite Hst, (words_from_start H HH) by (pow2_norm; lia).
  rewrite umod_id by (pow2_norm; lia). change Log2RegionSize with 16. rewrite !Z.shiftr_div_pow2 by done. change (2 ^ 16) with 65536. replace (x.1 + x.2 - 1) with (obj_end x - 1) by (unfold obj_end; lia).
  set (b := x.1 / 65536). set (e := (obj_end x - 1) / 65536).
  pose proof (Z.div_mod x.1 65536 ltac:(lia)) as Db. pose proof (Z.mod_pos_bound x.1 65536 ltac:(lia)) as Mb. fold b in Db.
  pose proof (Z.div_mod (obj_end x - 1) 65536 ltac:(lia)) as De. pose proof (Z.mod_pos_bound (obj_end x - 1) 65536 ltac:(lia)) as Me. fold e in De.
  assert (Hbe : b <= e) by (apply Z.div_le_mono; unfold obj_end; lia).
  assert (Hout : forall j rd, j < b \/ e < j -> region_with H x j rd = rd).
  { intros j rd Hj. unfold region_with, overlap. rewrite Z.max_l by lia. done. }
  destruct (Z.eqb_spec b e) as [Heq|Hne].
  - destruct (update_mapped s b (add_live_obj x.2)) as (s' & -> & M); [lia|]. exists s'. split; [done|]. eapply mapped_ext; [|exact M].
    intros j rd _. unfold at_region. destruct (Z.eqb_spec j b) as [->|]; [|symmetry; apply Hout; lia]. unfold region_with.
    replace (overlap (65536 * b) (65536 * (b + 1)) x) with x.2 by (unfold overlap, obj_end in *; lia). destruct (Z.eqb_spec x.2 0), (Z.ltb_spec x.1 (65536 * b)); done || lia.
  - rewrite !word_add_addr, !(region_offset_addr H H19) by lia. replace (x.1 + (x.2 - 1)) with (obj_end x - 1) by (unfold obj_end; lia). change RegionSize with 65536.
    destruct (update_mapped s b (add_live_obj (65536 - x.1 mod 65536))) as (s1 & -> & M1); [lia|]. cbn [mbind option_bind]. pose proof M1 as (_ & _ & C1 & _).
    destruct (add_middle_ok (Z.to_nat (e - (b + 1))) s1 (addr H x.1) (b + 1)) as (s2 & -> & M2); [lia|lia|]. cbn [mbind option_bind]. pose proof M2 as (_ & _ & C2 & _).
    destruct (update_mapped s2 e (set_partial_obj_size ((obj_end x - 1) mod 65536 + 1))) as (s3 & -> & M3); [lia|]. cbn [mbind option_bind]. pose proof M3 as (_ & _ & C3 & _).
    destruct (update_mapped s3 e (set_partial_obj_addr (addr H x.1))) as (s4 & -> & M4); [lia|]. exists s4. split; [done|].
    eapply mapped_ext; [|exact (mapped_trans _ _ _ _ _ (mapped_trans _ _ _ _ _ (mapped_trans _ _ _ _ _ M1 M2) M3) M4)]. clear M1 M2 M3 M4. cbv beta.
    intros j rd _. unfold at_region, in_regions. replace (b + 1 + Z.of_nat (Z.to_nat (e - (b + 1)))) with e by lia. change RegionSize with 65536.
    destruct (Z.eqb_spec j b) as [->|Hjb]; [|destruct (Z.eqb_spec j e) as [->|Hje]].
    + destruct (Z.leb_spec (b + 1) b), (Z.eqb_spec b e); try lia. cbn [andb]. unfold region_with.
      replace (overlap (65536 * b) (65536 * (b + 1)) x) with (65536 - x.1 mod 65536) by (unfold overlap; lia). destruct (Z.eqb_spec (65536 - x.1 mod 65536) 0), (Z.ltb_spec x.1 (65536 * b)); done || lia.
    + destruct (Z.ltb_spec e e); [lia|]. rewrite andb_false_r. unfold region_with.
      replace (overlap (65536 * e) (65536 * (e + 1)) x) with ((obj_end x - 1) mod 65536 + 1) by (unfold overlap; lia). destruct (Z.eqb_spec ((obj_end x - 1) mod 65536 + 1) 0), (Z.ltb_spec x.1 (65536 * e)); done || lia.
    + destruct (Z.leb_spec (b + 1) j), (Z.ltb_spec j e); cbn [andb]; try (symmetry; apply Hout; lia). unfold region_with.
      replace (overlap (65536 * j) (65536 * (j + 1)) x) with 65536 by (unfold overlap; lia). destruct (Z.ltb_spec x.1 (65536 * j)); done || lia.
Qed.

Lemma set_bit_marks (bm : BitMap) (i n : Z) (P : Z -> Prop) :
  wf bm -> bm_size bm = n -> 0 <= i < n -> (forall j, 0 <= j < n -> bit bm j = true <-> P j) ->
  exists bm', par_set_bit bm i [] = Some (negb (bit bm i), bm') /\ wf bm' /\ bm_size bm' = n /\ forall j, 0 <= j < n -> bit bm' j = true <-> P j \/ j = i.
Proof.
  intros Hwf Hn Hi HP. destruct (par_at_put_alone bm i true Hwf ltac:(lia)) as (bm' & He & Hput). cbn [par_at_put] in He. exists bm'.
  split; [by rewrite He; destruct (bit bm i)|]. destruct Hput as (P1 & P2 & P3). split; [done|]. split; [congruence|]. intros j Hj.
  pose proof (wf_words_bounds bm Hwf). rewrite P3 by lia. destruct (in_range_spec i (i + 1) j) as [Hin|Hout]; [split; [intros _; right; lia|done]|]. rewrite (HP j Hj). split; [by left|]. intros [|]; [done|lia].
Qed.

(** Objects are marked in the bit map and counted in the summary data. *)
Definition collected (H N : Z) (c : PSParallelCompact) (objs : list (Z * Z)) : Prop :=
  marked H N (_mark_bitmap c) objs /\ counted H N (_summary_data c) objs.

Section MarkObject.
Context (H N : Z) (HH : 0 <= H < 2 ^ 61) (H19 : (2 ^ 19 | H)) (HN : 0 <= N < 2 ^ 38).

Lemma mark_obj_ok (m : ParMarkBitMap) (objs : list (Z * Z)) (x : Z * Z) :
  marked H N m objs -> 0 <= x.1 -> 0 < x.2 -> obj_end x <= 65536 * N -> (forall y, y ∈ objs -> y.1 = x.1 -> y = x) ->
  exists m', mark_obj m (addr H x.1) x.2 = Some (negb (bool_decide (x ∈ objs)), m') /\ marked H N m' (if bool_decide (x ∈ objs) then objs else x :: objs).
Proof using HH HN.
  intros [M1 [M2 M2'] [M3 M3'] M4 M5] Hx0 Hx1 Hend Hsame. pose proof Hend as Hend'. unfold obj_end in Hend'. pow2_norm.
  unfold mark_obj, mark_begin. rewrite (bit_addr H HH m M1) by (pow2_norm; lia).
  destruct (set_bit_marks (_beg_bits m) x.1 (65536 * N) _ M2 M3 ltac:(lia) M4) as (b & -> & B1 & B2 & B3). cbn [mbind option_bind].
  assert (Hbit : bit (_beg_bits m) x.1 = bool_decide (x ∈ objs)).
  { apply Bool.eq_iff_eq_true. rewrite M4, bool_decide_eq_true by lia. split; [intros (y & Hy & He); by rewrite <- (Hsame y Hy He)|intros Hx; by exists x]. }
  rewrite Hbit. case_bool_decide as Hx; cbn [negb].
  - eexists. split; [done|]. split; cbn [marks_start _beg_bits _end_bits with_bits]; try done. intros i Hi. rewrite B3 by done. split; [|by left]. intros [Hold| ->]; [done|by exists x].
  - unfold mark_end. rewrite word_add_addr, (bit_addr H HH) by (done || pow2_norm; lia). replace (x.1 + (x.2 - 1)) with (obj_end x - 1) by (unfold obj_end; lia).
    cbn [_end_bits with_bits]. destruct (set_bit_marks (_end_bits m) (obj_end x - 1) (65536 * N) _ M2' M3' ltac:(unfold obj_end in *; lia) M5) as (e & -> & E1 & E2 & E3).
    cbn [mbind option_bind]. eexists. split; [done|]. split; cbn [marks_start _beg_bits _end_bits with_bits]; try done; intros i Hi; [rewrite B3 by done|rewrite E3 by done]; split.
    1, 3: intros [(y & Hy & He)| ->]; [exists y; split; [by apply list_elem_of_further|done]|exists x; split; [apply list_elem_of_here|lia]].
    all: intros (y & Hy & He); apply elem_of_cons in Hy as [->|Hy]; [right; lia|left; by exists y].
Qed.

Lemma add_obj_ok (s : ParallelCompactData) (objs : list (Z * Z)) (x : Z * Z) :
  counted H N s objs -> objects_ok (x :: objs) -> obj_end x <= 65536 * N ->
  exists s', add_obj s (addr H x.1) x.2 = Some s' /\ counted H N s' (x :: objs).
Proof using HH H19 HN.
  intros [C1 [C2 C2'] C3] Hok Hend. destruct (objects_pos _ Hok x (list_elem_of_here _ _)).
  destruct (add_obj_mapped H N s x HH H19 HN C1 C2 ltac:(done) ltac:(done) Hend) as (s' & He & Hmap). exists s'. split; [done|].
  pose proof Hmap as (P1 & P2 & P3 & _). split; [congruence|unfold block_count in *; rewrite P2; split; congruence|]. intros r Hr. destruct (C3 r Hr) as (rd & Hrd & Hc).
  exists (region_with H x r rd). split; [by apply (mapped_region _ _ _ _ _ Hmap)|by apply region_with_counted].
Qed.

Lemma mark_object_ok (c : PSParallelCompact) (objs : list (Z * Z)) (x : Z * Z) :
  collected H N c objs -> objects_ok objs -> obj_end x <= 65536 * N -> x ∈ objs \/ objects_ok (x :: objs) ->
  exists c', mark_object c (addr H x.1) x.2 = Some (negb (bool_decide (x ∈ objs)), c') /\
    collected H N c' (if bool_decide (x ∈ objs) then objs else x :: objs) /\ _space_info c' = _space_info c.
Proof using HH H19 HN.
  intros [Hm Hc] Hok Hend Hx. assert (Hpos : 0 <= x.1 /\ 0 < x.2).
  { destruct Hx as [Hx|Hx]; [by apply (objects_pos _ Hok)|apply (objects_pos _ Hx), list_elem_of_here]. }
  destruct (mark_obj_ok (_mark_bitmap c) objs x Hm) as (m' & He & Hm'); [lia|lia|done| |].
  { intros y Hy Hyx. destruct Hx as [Hx|Hx]; [by apply (object_unique objs)|apply (object_unique _ Hx); [by apply list_elem_of_further|apply list_elem_of_here|done]]. }
  unfold mark_object. rewrite He. cbn [mbind option_bind]. case_bool_decide as Hin; cbn [negb].
  - eexists. split; [done|]. by split.
  - destruct Hx as [|Hx]; [done|]. destruct (add_obj_ok (_summary_data c) objs x Hc Hx Hend) as (s' & -> & Hs'). eexists. split; [done|]. by split.
Qed.
End MarkObject.

(** ** Clear tables *)

Definition clear_marks (H N : Z) : ParMarkBitMap :=
  mkMarks H (65536 * N) (mkBitMap (replicate (Z.to_nat (1024 * N)) 0) (65536 * N)) (mkBitMap (replicate (Z.to_nat (1024 * N)) 0) (65536 * N)).
Definition clear_tables (H N : Z) : ParallelCompactData :=
  mkSummary H (replicate (Z.to_nat N) empty_region) (replicate (Z.to_nat (512 * N)) 0).

Lemma zero_bits (N i : Z) : bit (mkBitMap (replicate (Z.to_nat (1024 * N)) 0) (65536 * N)) i = false.
Proof.
  unfold bit, load. cbn [bm_map]. destruct (zget _ _) as [w|] eqn:Hg; [|done]. unfold zget in Hg. case_bool_decide; [|done]. apply lookup_replicate in Hg as [-> _]. apply Z.testbit_0_l.
Qed.

Lemma clear_marked (H N : Z) : 0 <= N < 2 ^ 38 -> marked H N (clear_marks H N) [].
Proof.
  intros HN. pow2_norm. assert (Hwf : wf (mkBitMap (replicate (Z.to_nat (1024 * N)) 0) (65536 * N))).
  { split; cbn [bm_size bm_map]; [pow2_norm; lia| |apply list.Forall_replicate; pow2_norm; lia]. rewrite length_replicate. unfold size_in_words, word_index, LogBitsPerWord, BitsPerWord. cbn [bm_size].
    rewrite umod_id by (pow2_norm; lia). rewrite Z.shiftr_div_pow2 by done. change (2 ^ 6) with 64. replace (65536 * N + 64 - 1) with (64 * (1024 * N) + 63) by lia. rewrite div_add_small by lia. lia. }
  assert (Hnone : forall i (f : Z * Z -> Z), false = true <-> exists x, x ∈ [] /\ f x = i) by (intros i f; split; [done|intros (x & Hx & _); by apply elem_of_nil in Hx]).
  split; cbn [marks_start _beg_bits _end_bits clear_marks]; try done; intros i Hi; rewrite zero_bits; [apply (Hnone i fst)|apply (Hnone (i + 1) obj_end)].
Qed.

Lemma clear_counted (H N : Z) : 0 <= N -> counted H N (clear_tables H N) [].
Proof.
  intros HN. split; [done|unfold region_count, block_count; cbn [_region_data _block_data clear_tables]; rewrite !length_replicate; lia|]. intros r Hr. exists empty_region.
  split; [|split; try done; intros x Hx; by apply elem_of_nil in Hx]. unfold region, zget. cbn [_region_data clear_tables]. rewrite bool_decide_eq_true_2 by lia. apply lookup_replicate. split; [done|lia].
Qed.
