(* ===== verification/ParallelMarking.v ===== *)
(** Marking by several threads: gc_implementation/parallelScavenge/psParallelCompact.hpp and
    parMarkBitMap.cpp.  [mark_obj] and [add_obj] are taken apart into their atomic updates of
    the mark bit map and of the region table; a schedule may interleave the updates of the
    threads in any order.  At the end every requested object is marked and counted once. *)

From S2P Require Import Prelude GlobalDefinitions VirtualSpace BitMap BitMapCorrect ParMarkBitMap ParallelCompact ParallelCompactCorrect.

(** ** Definitions *)

(** The atomic updates.  [MarkBegin] is what decides which thread marks an object: the thread
    that sets the bit goes on with the other updates. *)
Inductive MarkAction :=
  | MarkBegin (addr size : Z)
  | MarkEnd (addr size : Z)
  | AddLiveObj (region words : Z)
  | SetPartialObjSize (region words : Z)
  | SetPartialObjAddr (region addr : Z).

#[export] Instance MarkAction_dec : EqDecision MarkAction.
Proof. solve_decision. Defined.

Fixpoint middle_actions (n : nat) (addr region : Z) : list MarkAction :=
  match n with
  | O => []
  | S n => SetPartialObjSize region RegionSize :: SetPartialObjAddr region addr :: middle_actions n addr (region + 1)
  end.

Definition add_obj_actions (s : ParallelCompactData) (addr len : Z) : list MarkAction :=
  let obj_ofs := words_between addr (_region_start s) in
  let beg_region := Z.shiftr obj_ofs Log2RegionSize in
  let end_region := Z.shiftr (u64 (obj_ofs + len - 1)) Log2RegionSize in
  if beg_region =? end_region then [AddLiveObj beg_region len]
  else
    let beg_ofs := region_offset addr in
    let end_ofs := region_offset (word_add addr (len - 1)) in
    AddLiveObj beg_region (RegionSize - beg_ofs) ::
      middle_actions (Z.to_nat (end_region - (beg_region + 1))) addr (beg_region + 1) ++
      [SetPartialObjSize end_region (end_ofs + 1); SetPartialObjAddr end_region addr].

(** The threads have lists of updates to do; [won] lists the objects for which
    [mark_obj] returned true. *)
Record MarkState := mkMarkState {
  threads : list (list MarkAction);
  ms_marks : ParMarkBitMap;
  ms_summary : ParallelCompactData;
  won : list (Z * Z);
}.

(** The effect of an update, and the updates the thread has to do after it. *)
Definition act (a : MarkAction) (m : ParMarkBitMap) (s : ParallelCompactData) (w : list (Z * Z))
    : option (list MarkAction * ParMarkBitMap * ParallelCompactData * list (Z * Z)) :=
  match a with
  | MarkBegin addr size =>
      '(r, m) ← mark_begin m addr;
      if r : bool then Some (MarkEnd addr size :: add_obj_actions s addr size, m, s, (addr, size) :: w) else Some ([], m, s, w)
  | MarkEnd addr size => m ← mark_end m addr size; Some ([], m, s, w)
  | AddLiveObj region words => s ← update_region s region (add_live_obj words); Some ([], m, s, w)
  | SetPartialObjSize region words => s ← update_region s region (set_partial_obj_size words); Some ([], m, s, w)
  | SetPartialObjAddr region addr => s ← update_region s region (set_partial_obj_addr addr); Some ([], m, s, w)
  end.

Definition mark_thread_step (st : MarkState) (i : nat) : option MarkState :=
  match threads st !! i with
  | Some (a :: rest) =>
      '(more, m, s, w) ← act a (ms_marks st) (ms_summary st) (won st);
      Some (mkMarkState (<[i := more ++ rest]> (threads st)) m s w)
  | _ => None
  end.

Inductive mark_step : MarkState -> MarkState -> Prop :=
  | mark_step_thread (st st' : MarkState) (i : nat) : mark_thread_step st i = Some st' -> mark_step st st'.

Definition finished (st : MarkState) : Prop := forall t, t ∈ threads st -> t = [].

(** ** A thread alone does what [mark_object] does *)

Fixpoint do_actions (l : list MarkAction) (s : ParallelCompactData) : option ParallelCompactData :=
  match l with
  | [] => Some s
  | AddLiveObj region words :: l => s ← update_region s region (add_live_obj words); do_actions l s
  | SetPartialObjSize region words :: l => s ← update_region s region (set_partial_obj_size words); do_actions l s
  | SetPartialObjAddr region addr :: l => s ← update_region s region (set_partial_obj_addr addr); do_actions l s
  | _ :: _ => None
  end.

Lemma do_middle (n : nat) (s : ParallelCompactData) (a r : Z) (l : list MarkAction) :
  do_actions (middle_actions n a r ++ l) s = s ← add_middle n s a r; do_actions l s.
Proof.
  revert s r. induction n as [|n IH]; intros s r; cbn [middle_actions app do_actions add_middle]; [done|].
  destruct (update_region s r _) as [s1|]; [|done]. cbn [mbind option_bind]. destruct (update_region s1 r _) as [s2|]; [|done]. apply IH.
Qed.

Lemma do_add_obj (s : ParallelCompactData) (a n : Z) : do_actions (add_obj_actions s a n) s = add_obj s a n.
Proof.
  unfold add_obj_actions, add_obj. destruct (_ =? _); cbn [do_actions].
  - by destruct (update_region _ _ _).
  - destruct (update_region s _ _) as [s1|]; [|done]. cbn [mbind option_bind]. rewrite do_middle. destruct (add_middle _ _ _ _) as [s2|]; [|done]. cbn [mbind option_bind do_actions].
    destruct (update_region s2 _ _) as [s3|]; [|done]. cbn [mbind option_bind]. by destruct (update_region s3 _ _).
Qed.

Lemma run_actions (l : list MarkAction) (m : ParMarkBitMap) (s s' : ParallelCompactData) (w : list (Z * Z)) :
  do_actions l s = Some s' -> rtc mark_step (mkMarkState [l] m s w) (mkMarkState [[]] m s' w).
Proof.
  revert s. induction l as [|a l IH]; intros s Hd; [injection Hd as <-; constructor|].
  assert (Hex : exists s1, act a m s w = Some ([], m, s1, w) /\ do_actions l s1 = Some s').
  { destruct a; cbn [do_actions] in Hd; try done; (destruct (update_region s _ _) as [s1|] eqn:Hu; [|done]); exists s1; cbn [act]; by rewrite Hu. }
  destruct Hex as (s1 & Ha & Hd1). eapply rtc_l; [|exact (IH s1 Hd1)]. apply (mark_step_thread _ _ 0). unfold mark_thread_step. cbn. by rewrite Ha.
Qed.

Lemma mark_object_steps (c c' : PSParallelCompact) (a n : Z) (r : bool) (w : list (Z * Z)) :
  mark_object c a n = Some (r, c') ->
  rtc mark_step (mkMarkState [[MarkBegin a n]] (_mark_bitmap c) (_summary_data c) w)
    (mkMarkState [[]] (_mark_bitmap c') (_summary_data c') (if r then (a, n) :: w else w)).
Proof.
  unfold mark_object, mark_obj. destruct (mark_begin (_mark_bitmap c) a) as [[b m1]|] eqn:Hb; [|done]. cbn [mbind option_bind]. intros He. destruct b; cbn [mbind option_bind] in He.
  - destruct (mark_end m1 a n) as [m2|] eqn:He2; [|done]. cbn [mbind option_bind] in He. destruct (add_obj (_summary_data c) a n) as [s'|] eqn:Hs; [|done]. injection He as <- <-.
    eapply rtc_l; [apply (mark_step_thread _ _ 0); unfold mark_thread_step; cbn; by rewrite Hb|]. cbn [app]. rewrite app_nil_r.
    eapply rtc_l; [apply (mark_step_thread _ _ 0); unfold mark_thread_step; cbn; by rewrite He2|]. cbn [app]. rewrite <- do_add_obj in Hs. exact (run_actions _ m2 _ _ _ Hs).
  - injection He as <- <-. eapply rtc_l; [apply (mark_step_thread _ _ 0); unfold mark_thread_step; cbn; by rewrite Hb|]. constructor.
Qed.

(** ** The updates for an object *)

(** The words that are still to be added to a region. *)
Fixpoint pending_live (r : Z) (l : list MarkAction) : Z :=
  match l with
  | [] => 0
  | AddLiveObj region words :: l => (if region =? r then words else 0) + pending_live r l
  | _ :: l => pending_live r l
  end.

Lemma pending_live_app (r : Z) (l1 l2 : list MarkAction) : pending_live r (l1 ++ l2) = pending_live r l1 + pending_live r l2.
Proof. induction l1 as [|[] l1 IH]; cbn; lia. Qed.

Lemma pending_live_perm (r : Z) (l1 l2 : list MarkAction) : l1 ≡ₚ l2 -> pending_live r l1 = pending_live r l2.
Proof. induction 1 as [|a l1 l2 _ IH|a b l|l1 l2 l3 _ IH1 _ IH2]; [done|destruct a; cbn; lia|destruct a, b; cbn; lia|lia]. Qed.

Lemma pending_middle (r : Z) (n : nat) (a i : Z) : pending_live r (middle_actions n a i) = 0.
Proof. revert i. induction n as [|n IH]; intros i; cbn; [done|apply IH]. Qed.

Lemma middle_elem (n : nat) (a i : Z) (b : MarkAction) :
  b ∈ middle_actions n a i <-> exists r, i <= r < i + Z.of_nat n /\ (b = SetPartialObjSize r 65536 \/ b = SetPartialObjAddr r a).
Proof.
  revert i. induction n as [|n IH]; intros i; cbn [middle_actions].
  { split; [intros Hb; by apply elem_of_nil in Hb|intros (r & Hr & _); lia]. }
  rewrite !elem_of_cons, IH. change RegionSize with 65536. split.
  - intros [->|[->|(r & Hr & Hb)]]; [exists i; split; [lia|by left]|exists i; split; [lia|by right]|exists r; split; [lia|done]].
  - intros (r & Hr & Hb). destruct (Z.eq_dec r i) as [->|]; [destruct Hb as [->| ->]; [by left|right; by left]|]. right; right. exists r. split; [lia|done].
Qed.

Definition crosses (x : Z * Z) (r : Z) : Prop := x.1 < 65536 * r < obj_end x.

Section Updates.
Context (H N : Z) (HH : 0 <= H < 2 ^ 61) (H19 : (2 ^ 19 | H)) (HN : 0 <= N < 2 ^ 38).

(** The updates [add_obj] makes for [x]. *)
Definition update_of (x : Z * Z) (a : MarkAction) : Prop :=
  match a with
  | AddLiveObj r n => 0 <= r < N /\ 0 <= n
  | SetPartialObjSize r n => 0 <= r < N /\ crosses x r /\ n = overlap (65536 * r) (65536 * (r + 1)) x
  | SetPartialObjAddr r b => 0 <= r < N /\ crosses x r /\ b = addr H x.1
  | _ => False
  end.

Lemma add_obj_actions_ok (s : ParallelCompactData) (x : Z * Z) :
  _region_start s = H -> 0 <= x.1 -> 0 < x.2 -> obj_end x <= 65536 * N ->
  let l := add_obj_actions s (addr H x.1) x.2 in
  (forall r, pending_live r l = if x.1 <? 65536 * r then 0 else overlap (65536 * r) (65536 * (r + 1)) x) /\ (forall a, a ∈ l -> update_of x a) /\
  (forall r, crosses x r -> (exists n, SetPartialObjSize r n ∈ l) /\ (exists b, SetPartialObjAddr r b ∈ l)).
Proof using HH H19 HN.
  intros Hst Hx0 Hx1 Hend. pose proof Hend as Hend'. unfold obj_end in Hend'. pow2_norm. unfold add_obj_actions. rewrite Hst, (words_from_start H HH) by (pow2_norm; lia).
  rewrite umod_id by (pow2_norm; lia). change Log2RegionSize with 16. rewrite !Z.shiftr_div_pow2 by done. change (2 ^ 16) with 65536. replace (x.1 + x.2 - 1) with (obj_end x - 1) by (unfold obj_end; lia).
  set (b := x.1 / 65536). set (e := (obj_end x - 1) / 65536).
  pose proof (Z.div_mod x.1 65536 ltac:(lia)) as Db. pose proof (Z.mod_pos_bound x.1 65536 ltac:(lia)) as Mb. fold b in Db.
  pose proof (Z.div_mod (obj_end x - 1) 65536 ltac:(lia)) as De. pose proof (Z.mod_pos_bound (obj_end x - 1) 65536 ltac:(lia)) as Me. fold e in De.
  assert (Hbe : b <= e) by (apply Z.div_le_mono; unfold obj_end; lia).
  destruct (Z.eqb_spec b e) as [Heq|Hne]; cbn zeta.
  - split; [|split].
    + intros r. cbn [pending_live]. unfold overlap, obj_end in *. destruct (Z.eqb_spec b r), (Z.ltb_spec x.1 (65536 * r)); subst; lia.
    + intros a Ha. apply list_elem_of_singleton in Ha as ->. cbn. lia.
    + intros r [Hr1 Hr2]. lia.
  - rewrite word_add_addr, !(region_offset_addr H H19) by lia. replace (x.1 + (x.2 - 1)) with (obj_end x - 1) by (unfold obj_end; lia). change RegionSize with 65536.
    assert (Hm : b + 1 + Z.of_nat (Z.to_nat (e - (b + 1))) = e) by lia.
    split; [|split].
    + intros r. cbn [pending_live]. rewrite pending_live_app, pending_middle. cbn [pending_live]. unfold overlap. destruct (Z.eqb_spec b r), (Z.ltb_spec x.1 (65536 * r)); subst; lia.
    + intros a Ha. apply elem_of_cons in Ha as [->|Ha]; [cbn; lia|]. apply elem_of_app in Ha as [Ha|Ha].
      * apply middle_elem in Ha as (r & Hr & [->| ->]); cbn; unfold crosses, overlap; lia.
      * apply elem_of_cons in Ha as [->|Ha]; [|apply list_elem_of_singleton in Ha as ->]; cbn; unfold crosses, overlap; lia.
    + intros r [Hr1 Hr2]. destruct (Z.eq_dec r e) as [->|].
      * split; eexists; apply elem_of_cons; right; apply elem_of_app; right; [apply list_elem_of_here|apply list_elem_of_further, list_elem_of_here].
      * split; eexists; apply elem_of_cons; right; apply elem_of_app; left; apply middle_elem; exists r; (split; [lia|]); [by left|by right].
Qed.
End Updates.

(** ** The invariant of the threads *)

Section Threads.
Context (H N : Z) (HH : 0 <= H < 2 ^ 61) (H19 : (2 ^ 19 | H)) (HN : 0 <= N < 2 ^ 38).
(** The objects of the heap, and those the threads are to mark. *)
Context (all : list (Z * Z)) (Hall : objects_ok all) (Hin : inside N all) (req : Z * Z -> Prop).

Definition action_ok (objs : list (Z * Z)) (a : MarkAction) : Prop :=
  match a with
  | MarkBegin b n => exists x, x ∈ all /\ b = addr H x.1 /\ n = x.2
  | MarkEnd b n => exists x, x ∈ objs /\ b = addr H x.1 /\ n = x.2
  | AddLiveObj r n => 0 <= r < N /\ 0 <= n
  | SetPartialObjSize r n => 0 <= r < N /\ (exists x, x ∈ objs /\ crosses x r) /\ n = partial_in objs r
  | SetPartialObjAddr r b => 0 <= r < N /\ exists x, x ∈ objs /\ crosses x r /\ b = addr H x.1
  end.

(** The counts of a region, with the updates [P] to come. *)
Definition region_marking (P : list MarkAction) (objs : list (Z * Z)) (r : Z) (rd : RegionData) : Prop :=
  live_obj_size rd + pending_live r P = started_in objs r /\ in_u 32 (_dc_and_los rd) /\ blocks_filled rd = false /\
  (partial_obj_size rd = partial_in objs r \/ exists n, SetPartialObjSize r n ∈ P) /\
  forall x, x ∈ objs -> crosses x r -> partial_obj_addr rd = addr H x.1 \/ exists b, SetPartialObjAddr r b ∈ P.

(** [objs] are the objects that threads have begun to mark. *)
Record marking (P : list MarkAction) (m : ParMarkBitMap) (s : ParallelCompactData) (w objs : list (Z * Z)) : Prop := {
  marking_objs : NoDup objs /\ forall x, x ∈ objs -> x ∈ all;
  marking_won : w = map (fun x => (addr H x.1, x.2)) objs;
  marking_maps : marks_start m = H /\ wf (_beg_bits m) /\ wf (_end_bits m) /\ bm_size (_beg_bits m) = 65536 * N /\ bm_size (_end_bits m) = 65536 * N;
  marking_beg : forall i, 0 <= i < 65536 * N -> bit (_beg_bits m) i = true <-> exists x, x ∈ objs /\ x.1 = i;
  marking_end : forall i, 0 <= i < 65536 * N -> bit (_end_bits m) i = true -> exists x, x ∈ objs /\ obj_end x = i + 1;
  marking_end_set : forall x, x ∈ objs -> bit (_end_bits m) (obj_end x - 1) = true \/ MarkEnd (addr H x.1) x.2 ∈ P;
  marking_tables : _region_start s = H /\ region_count s = N /\ block_count s = 512 * N;
  marking_regions : forall r, 0 <= r < N -> exists rd, region s r = Some rd /\ region_marking P objs r rd;
  marking_actions : forall a, a ∈ P -> action_ok objs a;
  marking_requests : forall x, x ∈ all -> (x ∈ objs \/ MarkBegin (addr H x.1) x.2 ∈ P) <-> req x;
}.

Lemma marking_perm (P P' : list MarkAction) (m : ParMarkBitMap) (s : ParallelCompactData) (w objs : list (Z * Z)) :
  P ≡ₚ P' -> marking P m s w objs -> marking P' m s w objs.
Proof using.
  intros HP [I1 I2 I3 I4 I5 I6 I7 I8 I9 I10]. split; try done.
  - intros x Hx. rewrite <- HP. by apply I6.
  - intros r Hr. destruct (I8 r Hr) as (rd & Hrd & R1 & R2 & R3 & R4 & R5). exists rd. split; [done|]. unfold region_marking. rewrite <- (pending_live_perm r P P' HP). split; [done|]. split; [done|]. split; [done|].
    split; [destruct R4 as [|[n Hn]]; [by left|right; exists n; by rewrite <- HP]|]. intros x Hx Hc. destruct (R5 x Hx Hc) as [|[b Hb]]; [by left|right; exists b; by rewrite <- HP].
  - intros a Ha. apply I9. by rewrite HP.
  - intros x Hx. rewrite <- HP. by apply I10.
Qed.

Lemma sub_objects_ok (objs : list (Z * Z)) : NoDup objs -> (forall x, x ∈ objs -> x ∈ all) -> objects_ok objs.
Proof using Hall. intros Hn Hs. split; [intros x Hx; by apply (objects_pos _ Hall), Hs|done|]. intros x y Hx Hy. apply (objects_apart _ Hall); by apply Hs. Qed.

Lemma pending_nonneg (P : list MarkAction) (objs : list (Z * Z)) (r : Z) : (forall a, a ∈ P -> action_ok objs a) -> 0 <= pending_live r P.
Proof using.
  induction P as [|a P IH]; intros Ha; cbn; [done|]. assert (Hp : 0 <= pending_live r P) by (apply IH; intros b Hb; apply Ha; by apply list_elem_of_further).
  pose proof (Ha a (list_elem_of_here _ _)) as Hok. destruct a; cbn in Hok; try done. destruct (_ =? _); lia.
Qed.

(** An update of the region table by the head of [P]. *)
Lemma update_marking (a : MarkAction) (Q : list MarkAction) (m : ParMarkBitMap) (s : ParallelCompactData) (w objs : list (Z * Z)) (i : Z) (f : RegionData -> RegionData) :
  marking (a :: Q) m s w objs -> 0 <= i < N -> (forall x, x ∈ objs -> a <> MarkEnd (addr H x.1) x.2) -> (forall x, a <> MarkBegin (addr H x.1) x.2) ->
  (forall rd, region_marking (a :: Q) objs i rd -> region_marking Q objs i (f rd)) -> (forall r rd, r <> i -> region_marking (a :: Q) objs r rd -> region_marking Q objs r rd) ->
  exists s', update_region s i f = Some s' /\ marking Q m s' w objs.
Proof using.
  intros [I1 I2 I3 I4 I5 I6 [I7 [I7' I7'']] I8 I9 I10] Hi Hne Hnb Hf Hg. destruct (update_mapped s i f ltac:(lia)) as (s' & -> & U1 & U2 & U3 & U4). exists s'. split; [done|]. split; try done.
  - intros x Hx. destruct (I6 x Hx) as [|Hm]; [by left|]. apply elem_of_cons in Hm as [Hm|Hm]; [by destruct (Hne x Hx)|by right].
  - unfold block_count in *. rewrite U2. split; [congruence|]. split; congruence.
  - intros r Hr. destruct (I8 r Hr) as (rd & Hrd & Hm). exists (at_region i f r rd). split; [by rewrite U4, Hrd|]. unfold at_region. destruct (Z.eqb_spec r i) as [->|]; [by apply Hf|by apply Hg].
  - intros b Hb. apply I9. by apply list_elem_of_further.
  - intros x Hx. rewrite <- (I10 x Hx), elem_of_cons. split; [intros [|]; [by left|right; by right]|intros [|[Hm|]]; [by left|by destruct (Hnb x)|by right]].
Qed.

Lemma region_marking_other (a : MarkAction) (Q : list MarkAction) (objs : list (Z * Z)) (r : Z) (rd : RegionData) :
  pending_live r (a :: Q) = pending_live r Q -> (forall n, a <> SetPartialObjSize r n) -> (forall b, a <> SetPartialObjAddr r b) -> region_marking (a :: Q) objs r rd -> region_marking Q objs r rd.
Proof using.
  intros Hp Hs Ha (R1 & R2 & R3 & R4 & R5). unfold region_marking. rewrite <- Hp. split; [done|]. split; [done|]. split; [done|]. split.
  - destruct R4 as [|[n Hn]]; [by left|right]. exists n. apply elem_of_cons in Hn as [Hn|Hn]; [by destruct (Hs n)|done].
  - intros x Hx Hc. destruct (R5 x Hx Hc) as [|[b Hb]]; [by left|right]. exists b. apply elem_of_cons in Hb as [Hb|Hb]; [by destruct (Ha b)|done].
Qed.

Lemma act_add_live (Q : list MarkAction) (m : ParMarkBitMap) (s : ParallelCompactData) (w objs : list (Z * Z)) (i n : Z) :
  marking (AddLiveObj i n :: Q) m s w objs -> exists s', update_region s i (add_live_obj n) = Some s' /\ marking Q m s' w objs.
Proof using Hall.
  intros Hm. destruct (marking_actions _ _ _ _ _ Hm _ (list_elem_of_here _ _)) as [Hi Hn]. destruct (marking_objs _ _ _ _ _ Hm) as [Hnd Hsub]. pose proof (sub_objects_ok objs Hnd Hsub) as Hok.
  pose proof (pending_nonneg Q objs i (fun a Ha => marking_actions _ _ _ _ _ Hm a (list_elem_of_further _ _ _ Ha))) as Hp.
  eapply update_marking; try done.
  - intros rd (R1 & R2 & R3 & R4 & R5). cbn [pending_live] in R1. rewrite Z.eqb_refl in R1. pose proof (started_in_range objs Hok i). pose proof (partial_in_range objs Hok i).
    destruct (add_live_obj_size n rd R2 Hn ltac:(pow2_norm; lia)) as [A1 A2]. split; [lia|]. split; [done|]. split; [done|]. split.
    + destruct R4 as [|[k Hk]]; [by left|right]. exists k. by apply elem_of_cons in Hk as [|Hk].
    + intros x Hx Hc. destruct (R5 x Hx Hc) as [|[b Hb]]; [by left|right]. exists b. by apply elem_of_cons in Hb as [|Hb].
  - intros r rd Hr. apply region_marking_other; try done. cbn. by destruct (Z.eqb_spec i r).
Qed.

Lemma act_set_size (Q : list MarkAction) (m : ParMarkBitMap) (s : ParallelCompactData) (w objs : list (Z * Z)) (i n : Z) :
  marking (SetPartialObjSize i n :: Q) m s w objs -> exists s', update_region s i (set_partial_obj_size n) = Some s' /\ marking Q m s' w objs.
Proof using Hall.
  intros Hm. destruct (marking_actions _ _ _ _ _ Hm _ (list_elem_of_here _ _)) as (Hi & _ & Hn). destruct (marking_objs _ _ _ _ _ Hm) as [Hnd Hsub]. pose proof (partial_in_range objs (sub_objects_ok objs Hnd Hsub) i).
  eapply update_marking; try done.
  - intros rd (R1 & R2 & R3 & R4 & R5). split; [done|]. split; [done|]. split; [done|]. split; [left; cbn; rewrite umod_id by (pow2_norm; lia); done|].
    intros x Hx Hc. destruct (R5 x Hx Hc) as [|[b Hb]]; [by left|right]. exists b. by apply elem_of_cons in Hb as [|Hb].
  - intros r rd Hr. apply region_marking_other; try done. intros k Hk. injection Hk as -> _. done.
Qed.

Lemma act_set_addr (Q : list MarkAction) (m : ParMarkBitMap) (s : ParallelCompactData) (w objs : list (Z * Z)) (i b : Z) :
  marking (SetPartialObjAddr i b :: Q) m s w objs -> exists s', update_region s i (set_partial_obj_addr b) = Some s' /\ marking Q m s' w objs.
Proof using Hall.
  intros Hm. destruct (marking_actions _ _ _ _ _ Hm _ (list_elem_of_here _ _)) as (Hi & y & Hy & Hcy & ->). destruct (marking_objs _ _ _ _ _ Hm) as [Hnd Hsub]. pose proof (sub_objects_ok objs Hnd Hsub) as Hok.
  eapply update_marking; try done.
  - intros rd (R1 & R2 & R3 & R4 & R5). split; [done|]. split; [done|]. split; [done|]. split; [destruct R4 as [|[k Hk]]; [by left|right]; exists k; by apply elem_of_cons in Hk as [|Hk]|].
    intros x Hx Hc. left. cbn. destruct (objects_apart _ Hok x y Hx Hy) as [->|Hap]; [done|]. unfold crosses in *. lia.
  - intros r rd Hr. apply region_marking_other; try done. intros k Hk. injection Hk as -> _. done.
Qed.

Lemma act_end (Q : list MarkAction) (m : ParMarkBitMap) (s : ParallelCompactData) (w objs : list (Z * Z)) (a n : Z) :
  marking (MarkEnd a n :: Q) m s w objs -> exists m', mark_end m a n = Some m' /\ marking Q m' s w objs.
Proof using HH HN Hall Hin.
  intros Hm. destruct (marking_actions _ _ _ _ _ Hm _ (list_elem_of_here _ _)) as (y & Hy & -> & ->). destruct Hm as [[I1 I1'] I2 (I3 & W1 & W2 & B1 & B2) I4 I5 I6 I7 I8 I9 I10].
  pose proof (objects_pos _ Hall y (I1' y Hy)). pose proof (Hin y (I1' y Hy)) as Hend. unfold obj_end in Hend. pow2_norm.
  unfold mark_end. rewrite word_add_addr, (bit_addr H HH m I3) by (pow2_norm; lia). replace (y.1 + (y.2 - 1)) with (obj_end y - 1) by (unfold obj_end; lia).
  destruct (set_bit_marks (_end_bits m) (obj_end y - 1) (65536 * N) (fun i => bit (_end_bits m) i = true) W2 B2) as (e & -> & E1 & E2 & E3); [unfold obj_end; lia|done|].
  cbn [mbind option_bind]. eexists. split; [done|]. split; cbn [marks_start _beg_bits _end_bits with_bits]; try done.
  - intros i Hi Hb. apply E3 in Hb as [Hb| ->]; [by apply I5|exists y; split; [done|lia]|done].
  - intros x Hx. destruct (I6 x Hx) as [Hb|Hb].
    + left. apply E3; [pose proof (objects_pos _ Hall x (I1' x Hx)); pose proof (Hin x (I1' x Hx)); unfold obj_end in *; lia|by left].
    + apply elem_of_cons in Hb as [Hb|Hb]; [|by right]. left. injection Hb as Ha Hn. apply addr_inj in Ha. apply E3; [unfold obj_end; lia|right]. unfold obj_end. lia.
  - intros r Hr. destruct (I8 r Hr) as (rd & Hrd & Hm). exists rd. split; [done|]. eapply region_marking_other; [| | |exact Hm]; done.
  - intros b Hb. apply I9. by apply list_elem_of_further.
  - intros x Hx. rewrite <- (I10 x Hx), elem_of_cons. split; [intros [|]; [by left|right; by right]|intros [|[Hb|]]; [by left|done|by right]].
Qed.

(** The object was marked before. *)
Lemma act_begin_old (Q : list MarkAction) (m : ParMarkBitMap) (s : ParallelCompactData) (w objs : list (Z * Z)) (x : Z * Z) (b : BitMap) :
  marking (MarkBegin (addr H x.1) x.2 :: Q) m s w objs -> x ∈ objs -> wf b -> bm_size b = 65536 * N ->
  (forall i, 0 <= i < 65536 * N -> bit b i = true <-> (exists y, y ∈ objs /\ y.1 = i) \/ i = x.1) -> marking Q (with_bits m b (_end_bits m)) s w objs.
Proof using Hall.
  intros [I1 I2 (I3 & W1 & W2 & B1 & B2) I4 I5 I6 I7 I8 I9 I10] Hx Hwf Hsz Hb. split; cbn [marks_start _beg_bits _end_bits with_bits]; try done.
  - intros i Hi. rewrite Hb by done. split; [intros [|Hix]; [done|exists x; by subst]|by left].
  - intros y Hy. destruct (I6 y Hy) as [|Hm]; [by left|right]. by apply elem_of_cons in Hm as [|Hm].
  - intros r Hr. destruct (I8 r Hr) as (rd & Hrd & Hm). exists rd. split; [done|]. eapply region_marking_other; [| | |exact Hm]; done.
  - intros a Ha. apply I9. by apply list_elem_of_further.
  - intros y Hy. rewrite <- (I10 y Hy), elem_of_cons. split; [intros [|]; [by left|right; by right]|]. intros [|[Hm|]]; [by left| |by right]. left.
    injection Hm as Ha _. apply addr_inj in Ha. destruct I1 as [_ I1]. by rewrite (object_unique all Hall y x Hy (I1 x Hx) Ha).
Qed.

(** The counts after a new object began to be marked. *)
Lemma region_marking_new (s : ParallelCompactData) (Q : list MarkAction) (objs : list (Z * Z)) (x : Z * Z) (r : Z) (rd : RegionData) :
  let acts := add_obj_actions s (addr H x.1) x.2 in
  _region_start s = H -> objects_ok (x :: objs) -> obj_end x <= 65536 * N -> 0 <= r < N -> region_marking Q objs r rd -> region_marking (acts ++ Q) (x :: objs) r rd.
Proof using HH H19 HN.
  cbn zeta. intros Hst Hok Hend Hr (R1 & R2 & R3 & R4 & R5). destruct (objects_pos _ Hok x (list_elem_of_here _ _)).
  destruct (add_obj_actions_ok H N HH H19 HN s x Hst ltac:(done) ltac:(done) Hend) as (A1 & A2 & A3). set (acts := add_obj_actions s (addr H x.1) x.2) in *.
  split; [rewrite pending_live_app, A1, started_in_cons; lia|]. split; [done|]. split; [done|]. split.
  - destruct (decide (x.1 < 65536 * r < obj_end x)) as [Hc|Hno]; [destruct (A3 r Hc) as [[n Hn] _]; right; exists n; apply elem_of_app; by left|].
    destruct R4 as [Hp|[n Hn]]; [left|right; exists n; apply elem_of_app; by right]. rewrite Hp, partial_in_cons. destruct (Z.ltb_spec x.1 (65536 * r)); unfold overlap; lia.
  - intros y Hy Hc. apply elem_of_cons in Hy as [->|Hy]; [destruct (A3 r Hc) as [_ [b Hb]]; right; exists b; apply elem_of_app; by left|].
    destruct (R5 y Hy Hc) as [|[b Hb]]; [by left|right; exists b; apply elem_of_app; by right].
Qed.

Lemma region_marking_end (P : list MarkAction) (objs : list (Z * Z)) (r a n : Z) (rd : RegionData) : region_marking P objs r rd -> region_marking (MarkEnd a n :: P) objs r rd.
Proof using.
  intros (R1 & R2 & R3 & R4 & R5). split; [done|]. split; [done|]. split; [done|]. split; [destruct R4 as [|[k Hk]]; [by left|right; exists k; by apply list_elem_of_further]|].
  intros x Hx Hc. destruct (R5 x Hx Hc) as [|[b Hb]]; [by left|right; exists b; by apply list_elem_of_further].
Qed.

Lemma action_ok_new (objs : list (Z * Z)) (x : Z * Z) (a : MarkAction) : objects_ok (x :: objs) -> action_ok objs a -> action_ok (x :: objs) a.
Proof using.
  intros Hok. destruct a as [b n|b n|r n|r n|r b]; cbn [action_ok]; try done.
  - intros (y & Hy & E1 & E2). exists y. split; [by apply list_elem_of_further|done].
  - intros (Hr & (y & Hy & Hc) & ->). split; [done|]. split; [exists y; split; [by apply list_elem_of_further|done]|]. rewrite partial_in_cons.
    destruct (objects_apart _ Hok x y (list_elem_of_here _ _) (list_elem_of_further _ _ _ Hy)) as [->|Hap].
    + pose proof (objects_nodup _ Hok) as Hnd. by apply list.NoDup_cons in Hnd as [? _].
    + unfold crosses, overlap in *. destruct (Z.ltb_spec x.1 (65536 * r)); lia.
  - intros (Hr & y & Hy & Hc & ->). split; [done|]. exists y. split; [by apply list_elem_of_further|done].
Qed.

Lemma act_begin_new (Q : list MarkAction) (m : ParMarkBitMap) (s : ParallelCompactData) (w objs : list (Z * Z)) (x : Z * Z) (b : BitMap) :
  marking (MarkBegin (addr H x.1) x.2 :: Q) m s w objs -> x ∈ all -> x ∉ objs -> wf b -> bm_size b = 65536 * N ->
  (forall i, 0 <= i < 65536 * N -> bit b i = true <-> (exists y, y ∈ objs /\ y.1 = i) \/ i = x.1) ->
  marking ((MarkEnd (addr H x.1) x.2 :: add_obj_actions s (addr H x.1) x.2) ++ Q) (with_bits m b (_end_bits m)) s ((addr H x.1, x.2) :: w) (x :: objs).
Proof using HH H19 HN Hall Hin.
  intros [[I1 I1'] I2 (I3 & W1 & W2 & B1 & B2) I4 I5 I6 [I7 I7'] I8 I9 I10] Hxa Hx Hwf Hsz Hb. pose proof (Hin x Hxa) as Hend.
  assert (Hnd : NoDup (x :: objs)) by (by apply list.NoDup_cons). assert (Hsub : forall y, y ∈ x :: objs -> y ∈ all) by (intros y Hy; apply elem_of_cons in Hy as [->|Hy]; [done|by apply I1']).
  pose proof (sub_objects_ok (x :: objs) Hnd Hsub) as Hok. destruct (objects_pos _ Hall x Hxa).
  destruct (add_obj_actions_ok H N HH H19 HN s x I7 ltac:(done) ltac:(done) Hend) as (A1 & A2 & A3). cbn [app].
  split; cbn [marks_start _beg_bits _end_bits with_bits]; try done.
  - by rewrite I2.
  - intros i Hi. rewrite Hb by done. split.
    + intros [(y & Hy & He)|Hix]; [exists y; split; [by apply list_elem_of_further|done]|exists x; split; [apply list_elem_of_here|done]].
    + intros (y & Hy & He). apply elem_of_cons in Hy as [->|Hy]; [by right|left; by exists y].
  - intros i Hi Hbi. destruct (I5 i Hi Hbi) as (y & Hy & He). exists y. split; [by apply list_elem_of_further|done].
  - intros y Hy. apply elem_of_cons in Hy as [->|Hy]; [right; apply list_elem_of_here|]. destruct (I6 y Hy) as [|Hm]; [by left|right]. apply elem_of_cons in Hm as [|Hm]; [done|]. apply list_elem_of_further, elem_of_app. by right.
  - intros r Hr. destruct (I8 r Hr) as (rd & Hrd & Hm). exists rd. split; [done|]. apply region_marking_end, (region_marking_new s Q objs x r rd I7 Hok Hend Hr). eapply region_marking_other; [| | |exact Hm]; done.
  - intros a Ha. apply elem_of_cons in Ha as [->|Ha]; [exists x; split; [apply list_elem_of_here|done]|]. apply elem_of_app in Ha as [Ha|Ha]; [|apply action_ok_new; [done|apply I9; by apply list_elem_of_further]].
    specialize (A2 a Ha). destruct a as [c n|c n|r n|r n|r c]; cbn [action_ok update_of] in A2 |- *; try done.
    + destruct A2 as (Hr & Hc & ->). split; [done|]. split; [exists x; split; [apply list_elem_of_here|done]|]. rewrite partial_in_cons. destruct (Z.ltb_spec x.1 (65536 * r)); [|unfold crosses in Hc; lia].
      rewrite partial_in_none; [lia|]. intros y Hy Hcy. destruct (objects_apart _ Hok x y (list_elem_of_here _ _) (list_elem_of_further _ _ _ Hy)) as [->|Hap]; [done|]. unfold crosses in *. lia.
    + destruct A2 as (Hr & Hc & ->). split; [done|]. exists x. split; [apply list_elem_of_here|done].
  - intros y Hy. rewrite <- (I10 y Hy), !elem_of_cons, elem_of_app. split.
    + intros [[->|]|[|[Hm|]]]; [right; by left|by left|done| |right; by right]. by specialize (A2 _ Hm).
    + intros [|[Hm|]]; [left; by right| |right; right; by right]. left. left. injection Hm as Ha _. apply addr_inj in Ha. by apply (object_unique all Hall).
Qed.

(** An upper bound of the number of updates to do. *)
Fixpoint work (l : list MarkAction) : Z :=
  match l with
  | [] => 0
  | MarkBegin _ _ :: l => 2 * N + 4 + work l
  | _ :: l => 1 + work l
  end.

Lemma work_app (l1 l2 : list MarkAction) : work (l1 ++ l2) = work l1 + work l2.
Proof using. induction l1 as [|[] l1 IH]; cbn; lia. Qed.
Lemma work_perm (l1 l2 : list MarkAction) : l1 ≡ₚ l2 -> work l1 = work l2.
Proof using. induction 1 as [|a l1 l2 _ IH|a b l|l1 l2 l3 _ IH1 _ IH2]; [done|destruct a; cbn; lia|destruct a, b; cbn; lia|lia]. Qed.
Lemma work_nonneg (l : list MarkAction) : 0 <= work l.
Proof using HN. induction l as [|[] l IH]; cbn; lia. Qed.
Lemma work_middle (n : nat) (a i : Z) : work (middle_actions n a i) = 2 * Z.of_nat n.
Proof using. revert i. induction n as [|n IH]; intros i; cbn [middle_actions work]; [done|rewrite IH; lia]. Qed.

Lemma work_add_obj (s : ParallelCompactData) (x : Z * Z) : _region_start s = H -> x ∈ all -> work (add_obj_actions s (addr H x.1) x.2) <= 2 * N + 1.
Proof using HH HN Hall Hin.
  intros Hst Hx. destruct (objects_pos _ Hall x Hx). pose proof (Hin x Hx) as Hend. unfold obj_end in Hend. pow2_norm.
  unfold add_obj_actions. rewrite Hst, (words_from_start H HH) by (pow2_norm; lia). rewrite umod_id by (pow2_norm; lia). change Log2RegionSize with 16. rewrite !Z.shiftr_div_pow2 by done. change (2 ^ 16) with 65536.
  assert (0 <= x.1 / 65536) by (apply Z.div_pos; lia). assert ((x.1 + x.2 - 1) / 65536 < N) by (apply Z.div_lt_upper_bound; lia).
  destruct (Z.eqb_spec (x.1 / 65536) ((x.1 + x.2 - 1) / 65536)); [cbn; lia|]. cbn [work]. rewrite work_app, work_middle. cbn [work]. lia.
Qed.

Lemma act_ok (a : MarkAction) (Q : list MarkAction) (m : ParMarkBitMap) (s : ParallelCompactData) (w objs : list (Z * Z)) :
  marking (a :: Q) m s w objs -> exists more m' s' w' objs', act a m s w = Some (more, m', s', w') /\ marking (more ++ Q) m' s' w' objs' /\ work more < work [a].
Proof using HH H19 HN Hall Hin.
  intros Hm. destruct a as [b n|b n|r n|r n|r b]; cbn [act work].
  - destruct (marking_actions _ _ _ _ _ Hm _ (list_elem_of_here _ _)) as (x & Hx & -> & ->). pose proof (marking_maps _ _ _ _ _ Hm) as (I3 & W1 & _ & B1 & _). pose proof (objects_pos _ Hall x Hx). pose proof (Hin x Hx) as Hend. unfold obj_end in Hend. pow2_norm.
    unfold mark_begin. rewrite (bit_addr H HH m I3) by (pow2_norm; lia). destruct (set_bit_marks (_beg_bits m) x.1 (65536 * N) _ W1 B1 ltac:(lia) (marking_beg _ _ _ _ _ Hm)) as (bm & -> & E1 & E2 & E3). cbn [mbind option_bind].
    assert (Hbit : bit (_beg_bits m) x.1 = bool_decide (x ∈ objs)).
    { destruct (marking_objs _ _ _ _ _ Hm) as [_ Hsub]. apply Bool.eq_iff_eq_true. rewrite (marking_beg _ _ _ _ _ Hm), bool_decide_eq_true by lia.
      split; [intros (y & Hy & He); by rewrite <- (object_unique all Hall y x (Hsub y Hy) Hx He)|intros Hxo; by exists x]. }
    rewrite Hbit. case_bool_decide as Hxo; cbn [negb].
    + eexists [], _, s, w, objs. split; [done|]. split; [by eapply act_begin_old|cbn; lia].
    + eexists _, _, s, _, (x :: objs). split; [done|]. split; [by eapply act_begin_new|]. pose proof (work_add_obj s x (proj1 (marking_tables _ _ _ _ _ Hm)) Hx). cbn [work]. lia.
  - destruct (act_end Q m s w objs b n Hm) as (m' & -> & Hm'). eexists [], m', s, w, objs. split; [done|]. split; [done|cbn; lia].
  - destruct (act_add_live Q m s w objs r n Hm) as (s' & -> & Hm'). eexists [], m, s', w, objs. split; [done|]. split; [done|cbn; lia].
  - destruct (act_set_size Q m s w objs r n Hm) as (s' & -> & Hm'). eexists [], m, s', w, objs. split; [done|]. split; [done|cbn; lia].
  - destruct (act_set_addr Q m s w objs r b Hm) as (s' & -> & Hm'). eexists [], m, s', w, objs. split; [done|]. split; [done|cbn; lia].
Qed.

Definition mark_threads_ok (st : MarkState) : Prop := exists objs, marking (concat (threads st)) (ms_marks st) (ms_summary st) (won st) objs.

Lemma mark_thread_step_ok (st : MarkState) (i : nat) (a : MarkAction) (rest : list MarkAction) :
  mark_threads_ok st -> threads st !! i = Some (a :: rest) -> exists st', mark_thread_step st i = Some st' /\ mark_threads_ok st' /\ work (concat (threads st')) < work (concat (threads st)).
Proof using HH H19 HN Hall Hin.
  intros [objs Hm] Hi. pose proof (take_drop_middle _ _ _ Hi) as Hsplit. set (t1 := take i (threads st)) in *. set (t2 := drop (S i) (threads st)) in *. set (Q := rest ++ concat t1 ++ concat t2).
  assert (HP : concat (threads st) ≡ₚ a :: Q).
  { rewrite <- Hsplit, concat_app. cbn [concat]. unfold Q. rewrite (Permutation_app_comm (concat t1)). cbn [app]. constructor. rewrite <- app_assoc. by rewrite (Permutation_app_comm (concat t2)). }
  assert (HP' : forall more, concat (<[i := more ++ rest]> (threads st)) ≡ₚ more ++ Q).
  { intros more. rewrite insert_take_drop by (by eapply lookup_lt_Some). fold t1 t2. rewrite concat_app. cbn [concat]. unfold Q. rewrite (Permutation_app_comm (concat t1)), <- !app_assoc.
    by rewrite (Permutation_app_comm (concat t2)). }
  destruct (act_ok a Q _ _ _ _ (marking_perm _ _ _ _ _ _ HP Hm)) as (more & m' & s' & w' & objs' & Ha & Hm' & Hw). unfold mark_thread_step. rewrite Hi, Ha. cbn [mbind option_bind].
  eexists. split; [done|]. cbn [threads]. split; [exists objs'; eapply marking_perm; [symmetry; apply HP'|done]|].
  rewrite (work_perm _ _ (HP' more)), (work_perm _ _ HP), work_app. change (a :: Q) with ([a] ++ Q). rewrite work_app. lia.
Qed.

(** Every schedule keeps the invariant and does the work. *)
Lemma mark_steps_ok (k : nat) (st st' : MarkState) :
  nsteps mark_step k st st' -> mark_threads_ok st -> mark_threads_ok st' /\ work (concat (threads st')) + Z.of_nat k <= work (concat (threads st)).
Proof using HH H19 HN Hall Hin.
  induction 1 as [st|k st1 st2 st3 Hstep _ IH]; intros Hst; [split; [done|lia]|]. destruct Hstep as [st1 st2 i Hi].
  destruct (threads st1 !! i) as [[|a rest]|] eqn:Ht; [by unfold mark_thread_step in Hi; rewrite Ht in Hi| |by unfold mark_thread_step in Hi; rewrite Ht in Hi].
  destruct (mark_thread_step_ok st1 i a rest Hst Ht) as (st2' & He & Hok & Hw). rewrite Hi in He. injection He as <-. destruct (IH Hok) as [Hok' Hw']. split; [done|]. lia.
Qed.

Lemma marking_progress (st : MarkState) : mark_threads_ok st -> finished st \/ exists st', mark_step st st'.
Proof using HH H19 HN Hall Hin.
  intros Hst. destruct (decide (Exists (fun t => t <> []) (threads st))) as [He|He].
  - right. apply list.Exists_exists in He as (t & Ht & Hne). apply list_elem_of_lookup in Ht as [i Hi]. destruct t as [|a rest]; [done|].
    destruct (mark_thread_step_ok st i a rest Hst Hi) as (st' & Hs & _). exists st'. by econstructor.
  - left. intros t Ht. destruct t as [|a rest]; [done|]. exfalso. apply He, list.Exists_exists. by exists (a :: rest).
Qed.

Lemma concat_finished (l : list (list MarkAction)) : (forall t, t ∈ l -> t = []) -> concat l = [].
Proof using. induction l as [|t l IH]; intros Hl; [done|]. cbn. rewrite (Hl t (list_elem_of_here _ _)). apply IH. intros u Hu. apply Hl. by apply list_elem_of_further. Qed.

Lemma marking_start (P : list MarkAction) (m : ParMarkBitMap) (s : ParallelCompactData) :
  marked H N m [] -> counted H N s [] -> (forall a, a ∈ P -> exists x, x ∈ all /\ a = MarkBegin (addr H x.1) x.2) -> (forall x, x ∈ all -> MarkBegin (addr H x.1) x.2 ∈ P <-> req x) ->
  marking P m s [] [].
Proof using HH HN.
  intros [M1 [M2 M2'] [M3 M3'] M4 M5] [C1 [C2 C2'] C3] HP Hreq. split; try done.
  - split; [apply base.NoDup_nil_2|]. intros x Hx. by apply elem_of_nil in Hx.
  - intros i Hi Hb. by apply M5.
  - intros x Hx. by apply elem_of_nil in Hx.
  - intros r Hr. destruct (C3 r Hr) as (rd & Hrd & [D1 D2 D3 D4 D5]). exists rd. split; [done|]. split; [|split; [done|split; [done|split; [by left|]]]].
    + assert (Hp : pending_live r P = 0); [|lia]. clear -HP. induction P as [|a P IH]; [done|]. destruct (HP a (list_elem_of_here _ _)) as (x & _ & ->). apply IH. intros b Hb. apply HP. by apply list_elem_of_further.
    + intros x Hx. by apply elem_of_nil in Hx.
  - intros a Ha. destruct (HP a Ha) as (x & Hx & ->). by exists x.
  - intros x Hx. rewrite <- (Hreq x Hx), elem_of_nil. tauto.
Qed.

Lemma marking_finish (m : ParMarkBitMap) (s : ParallelCompactData) (w objs : list (Z * Z)) :
  marking [] m s w objs -> objects_ok objs /\ marked H N m objs /\ counted H N s objs /\ w = map (fun x => (addr H x.1, x.2)) objs /\ forall x, x ∈ objs <-> x ∈ all /\ req x.
Proof using Hall Hin.
  intros [[I1 I1'] I2 (I3 & W1 & W2 & B1 & B2) I4 I5 I6 (I7 & I7' & I7'') I8 I9 I10]. split; [by apply sub_objects_ok|]. split; [|split; [|split; [done|]]].
  - split; try done. intros i Hi. split; [by apply I5|]. intros (x & Hx & He). destruct (I6 x Hx) as [Hb|Hb]; [|by apply elem_of_nil in Hb]. by replace i with (obj_end x - 1) by lia.
  - split; [done|done|]. intros r Hr. destruct (I8 r Hr) as (rd & Hrd & R1 & R2 & R3 & R4 & R5). exists rd. split; [done|]. cbn [pending_live] in R1. split; try done.
    + destruct R4 as [|[n Hn]]; [done|by apply elem_of_nil in Hn].
    + lia.
    + intros x Hx Hc. destruct (R5 x Hx Hc) as [|[b Hb]]; [done|by apply elem_of_nil in Hb].
  - intros x. split; [intros Hx; split; [by apply I1'|apply I10; [by apply I1'|by left]]|]. intros [Hx Hr]. apply I10 in Hr as [|Hb]; [done|by apply elem_of_nil in Hb|done].
Qed.
End Threads.

(** ** Marking in parallel *)

(** C14: threads that mark objects of the heap in parallel never get stuck and do a bounded
    number of atomic updates, whatever the schedule; when all are done, the objects that were
    requested, and only these, are marked in the bit map and counted in the summary data, and
    [mark_obj] returned true once for each. *)
Theorem parallel_marking_correct (H N : Z) (all : list (Z * Z)) (pool : list (list MarkAction)) (m : ParMarkBitMap) (s : ParallelCompactData) (k : nat) (st : MarkState) :
  0 <= H < 2 ^ 61 -> (2 ^ 19 | H) -> 0 <= N < 2 ^ 38 -> objects_ok all -> inside N all -> marked H N m [] -> counted H N s [] ->
  (forall a, a ∈ concat pool -> exists x, x ∈ all /\ a = MarkBegin (addr H x.1) x.2) ->
  nsteps mark_step k (mkMarkState pool m s []) st ->
  Z.of_nat k <= work N (concat pool) /\ (finished st \/ exists st', mark_step st st') /\
  (finished st -> exists objs, objects_ok objs /\ (forall x, x ∈ objs <-> x ∈ all /\ MarkBegin (addr H x.1) x.2 ∈ concat pool) /\
    marked H N (ms_marks st) objs /\ counted H N (ms_summary st) objs /\ won st = map (fun x => (addr H x.1, x.2)) objs).
Proof.
  intros HH H19 HN Hall Hin Hm Hc Hpool Hsteps. set (req := fun x => MarkBegin (addr H x.1) x.2 ∈ concat pool).
  assert (Hst : mark_threads_ok H N all req (mkMarkState pool m s [])) by (exists []; by apply marking_start).
  destruct (mark_steps_ok H N HH H19 HN all Hall Hin req k _ _ Hsteps Hst) as [Hok Hw]. cbn [threads] in Hw. pose proof (work_nonneg N HN (concat (threads st))). split; [lia|].
  split; [by eapply marking_progress|]. intros Hfin. destruct Hok as [objs Hok]. rewrite (concat_finished _ Hfin) in Hok.
  destruct (marking_finish H N all Hall Hin req _ _ _ _ Hok) as (F1 & F2 & F3 & F4 & F5). by exists objs.
Qed.

(** Steps of the threads that a schedule names. *)
Fixpoint run_schedule (sched : list nat) (st : MarkState) : option MarkState :=
  match sched with
  | [] => Some st
  | i :: sched => st ← mark_thread_step st i; run_schedule sched st
  end.

Lemma run_schedule_steps (sched : list nat) (st st' : MarkState) : run_schedule sched st = Some st' -> nsteps mark_step (length sched) st st'.
Proof.
  revert st. induction sched as [|i sched IH]; intros st He; cbn [run_schedule length] in *; [injection He as <-; constructor|].
  destruct (mark_thread_step st i) as [st1|] eqn:Hs; [|done]. econstructor; [by econstructor|by apply IH].
Qed.

Definition all_done (st : option MarkState) : bool := match st with Some st => forallb (fun t => bool_decide (t = [])) (threads st) | None => false end.

Definition mark_heap : list (Z * Z) := [(10, 20); (100, 65600)].
Definition mark_pool : list (list MarkAction) := let begins := map (fun x => MarkBegin (addr (2 ^ 19) x.1) x.2) mark_heap in [begins; reverse begins].
Definition mark_schedule : list nat := [0; 1; 0; 1; 0; 1; 1; 0; 1; 1]%nat.

Lemma mark_heap_ok : objects_ok mark_heap /\ inside 2 mark_heap.
Proof.
  assert (Hcase : forall x, x ∈ mark_heap -> x = (10, 20) \/ x = (100, 65600)).
  { intros x Hx. apply elem_of_cons in Hx as [|Hx]; [by left|]. apply list_elem_of_singleton in Hx. by right. }
  split; [split|].
  - intros x Hx. destruct (Hcase x Hx) as [->| ->]; cbn; lia.
  - apply (bool_decide_eq_true_1 _). reflexivity.
  - intros x y Hx Hy. unfold obj_end. destruct (Hcase x Hx) as [->| ->], (Hcase y Hy) as [->| ->]; cbn; try (by left); right; lia.
  - intros x Hx. unfold obj_end. destruct (Hcase x Hx) as [->| ->]; cbn; lia.
Qed.

Lemma parallel_marking_correct_witness :
  match run_schedule mark_schedule (mkMarkState mark_pool (clear_marks (2 ^ 19) 2) (clear_tables (2 ^ 19) 2) []) with
  | Some st => exists objs, (forall x, x ∈ objs <-> x ∈ mark_heap) /\ marked (2 ^ 19) 2 (ms_marks st) objs /\ counted (2 ^ 19) 2 (ms_summary st) objs
  | None => False
  end.
Proof.
  assert (Hdone : all_done (run_schedule mark_schedule (mkMarkState mark_pool (clear_marks (2 ^ 19) 2) (clear_tables (2 ^ 19) 2) [])) = true) by (vm_compute; reflexivity).
  destruct (run_schedule _ _) as [st|] eqn:Hrun; [|done]. apply run_schedule_steps in Hrun. destruct mark_heap_ok as [Hok Hin].
  assert (Hpool : forall x, x ∈ mark_heap -> MarkBegin (addr (2 ^ 19) x.1) x.2 ∈ concat mark_pool) by (intros x Hx; cbn [concat mark_pool]; apply elem_of_app; left; by apply (list_elem_of_fmap_2 (fun x => MarkBegin (addr (2 ^ 19) x.1) x.2))).
  destruct (parallel_marking_correct (2 ^ 19) 2 mark_heap mark_pool (clear_marks (2 ^ 19) 2) (clear_tables (2 ^ 19) 2) (length mark_schedule) st) as (_ & _ & Hfin); [done|by exists 1|done|done|done|by apply clear_marked|by apply clear_counted| |done|].
  - intros a Ha. cbn [concat mark_pool] in Ha. rewrite app_nil_r in Ha. apply elem_of_app in Ha as [Ha|Ha]; [|rewrite elem_of_reverse in Ha]; apply (list_elem_of_fmap_1 (fun x => MarkBegin (addr (2 ^ 19) x.1) x.2)) in Ha as (x & -> & Hx); by exists x.
  - destruct Hfin as (objs & _ & Hobjs & Hm & Hc & _); [|exists objs; split; [|by split]; intros x; rewrite Hobjs; split; [by intros [? _]|intros Hx; split; [done|by apply Hpool]]].
    intros t Ht. unfold all_done in Hdone. rewrite forallb_forall in Hdone. apply (bool_decide_eq_true_1 _), Hdone. by apply list_elem_of_In.
Defined.
