(* ===== verification/SummaryPhaseCorrect.v ===== *)
(** The summary phase of the parallel compacting collector: the destinations that
    [summarize] and [summarize_split_space] give the regions, the dense prefix, and the new
    addresses of all live objects after [summary_phase]. *)

From Stdlib Require Import SpecFloat.
From S2P Require Import Prelude GlobalDefinitions VirtualSpace BitMap BitMapCorrect ParMarkBitMap ParallelCompact ParallelCompactCorrect.

(** ** Changes of regions *)

(** The counts of a region are kept. *)
Definition same_counts (rd rd' : RegionData) : Prop :=
  partial_obj_size rd' = partial_obj_size rd /\ partial_obj_addr rd' = partial_obj_addr rd /\ live_obj_size rd' = live_obj_size rd /\
  blocks_filled rd' = blocks_filled rd /\ (in_u 32 (_dc_and_los rd) -> in_u 32 (_dc_and_los rd')).
Definition like (rd rd' : RegionData) : Prop := same_counts rd rd' /\ destination rd' = destination rd.

(** The regions of two summaries are related by [R]. *)
Definition related (R : Z -> RegionData -> RegionData -> Prop) (s s' : ParallelCompactData) : Prop :=
  _region_start s' = _region_start s /\ _block_data s' = _block_data s /\ region_count s' = region_count s /\
  forall j rd, region s j = Some rd -> exists rd', region s' j = Some rd' /\ R j rd rd'.
Definition alike : ParallelCompactData -> ParallelCompactData -> Prop := related (fun _ => like).

Lemma same_counts_refl (rd : RegionData) : same_counts rd rd.
Proof. unfold same_counts. tauto. Qed.
Lemma same_counts_trans (r1 r2 r3 : RegionData) : same_counts r1 r2 -> same_counts r2 r3 -> same_counts r1 r3.
Proof. unfold same_counts. intuition congruence. Qed.
Lemma like_refl (rd : RegionData) : like rd rd.
Proof. unfold like, same_counts. tauto. Qed.
Lemma like_trans (r1 r2 r3 : RegionData) : like r1 r2 -> like r2 r3 -> like r1 r3.
Proof. intros [A1 A2] [B1 B2]. split; [by eapply same_counts_trans|congruence]. Qed.

Lemma related_weaken (R R' : Z -> RegionData -> RegionData -> Prop) (s s' : ParallelCompactData) :
  (forall j rd rd', region s j = Some rd -> R j rd rd' -> R' j rd rd') -> related R s s' -> related R' s s'.
Proof. intros HR (A1 & A2 & A3 & A4). repeat split; try done. intros j rd Hr. destruct (A4 j rd Hr) as (rd' & ? & ?). exists rd'. split; [done|by apply HR]. Qed.

Lemma related_trans (R1 R2 R3 : Z -> RegionData -> RegionData -> Prop) (s1 s2 s3 : ParallelCompactData) :
  related R1 s1 s2 -> related R2 s2 s3 -> (forall j r1 r2 r3, R1 j r1 r2 -> R2 j r2 r3 -> R3 j r1 r3) -> related R3 s1 s3.
Proof.
  intros (A1 & A2 & A3 & A4) (B1 & B2 & B3 & B4) HR. repeat split; try congruence. intros j rd Hr.
  destruct (A4 j rd Hr) as (r2 & H2 & HR1). destruct (B4 j r2 H2) as (r3 & H3 & HR2). exists r3. split; [done|by eapply HR].
Qed.

Lemma alike_refl (s : ParallelCompactData) : alike s s.
Proof. repeat split; try done. intros j rd Hr. exists rd. split; [done|apply like_refl]. Qed.
Lemma alike_trans (s1 s2 s3 : ParallelCompactData) : alike s1 s2 -> alike s2 s3 -> alike s1 s3.
Proof. intros H1 H2. eapply related_trans; [done..|]. intros j. apply like_trans. Qed.

Lemma related_update (R : Z -> RegionData -> RegionData -> Prop) (s : ParallelCompactData) (i : Z) (f : RegionData -> RegionData) :
  0 <= i < region_count s -> (forall rd, R i rd (f rd)) -> (forall j rd, j <> i -> R j rd rd) -> exists s', update_region s i f = Some s' /\ related R s s'.
Proof.
  intros Hi Hf Hne. destruct (update_mapped s i f Hi) as (s' & He & A1 & A2 & A3 & A4). exists s'. split; [done|]. repeat split; try done.
  intros j rd Hr. exists (at_region i f j rd). split; [by rewrite A4, Hr|]. unfold at_region. destruct (Z.eqb_spec j i) as [->|]; [apply Hf|by apply Hne].
Qed.

Lemma alike_update (s : ParallelCompactData) (i : Z) (f : RegionData -> RegionData) :
  0 <= i < region_count s -> (forall rd, like rd (f rd)) -> exists s', update_region s i f = Some s' /\ alike s s'.
Proof. intros Hi Hf. apply related_update; [done|done|]. intros j rd _. apply like_refl. Qed.

Lemma like_source_region (i : Z) (rd : RegionData) : like rd (set_source_region i rd).
Proof. unfold like, same_counts. by repeat apply conj. Qed.

Lemma count_bits (k v : Z) : Z.land (Z.lor (u32 (Z.shiftl k 27)) (Z.land v los_mask)) los_mask = Z.land v los_mask.
Proof.
  rewrite Z.land_lor_distr_l, <- Z.land_assoc, Z.land_diag. replace (Z.land (u32 (Z.shiftl k 27)) los_mask) with 0; [apply Z.lor_0_l|].
  rewrite los_mask_land. rewrite Z.shiftl_mul_pow2 by done. unfold umod. change (2 ^ 32) with (2 ^ 5 * 2 ^ 27). rewrite Z.mul_mod_distr_r by done. symmetry. by apply Z.mod_mul.
Qed.

Lemma like_destination_count (k : Z) (rd : RegionData) : like rd (set_destination_count k rd).
Proof.
  split; [|done]. split; [done|]. split; [done|]. split; [apply count_bits|]. split; [done|]. intros _. cbn [set_destination_count set_dc_and_los _dc_and_los].
  assert (Hr : in_u 32 (Z.lor (u32 (Z.shiftl k dc_shift)) (live_obj_size rd))); [|done]. apply lor_range; [done|by apply umod_range|]. pose proof (live_obj_size_range rd). pow2_norm. lia.
Qed.

(** ** [summarize] *)

Section Summarize.
Context (H N : Z) (HH : 0 <= H < 2 ^ 61) (H19 : (2 ^ 19 | H)) (HN : 0 <= N < 2 ^ 38).

(** The tables of a heap of [N] regions. *)
Definition tables (s : ParallelCompactData) : Prop := _region_start s = H /\ region_count s = N.

Lemma related_tables (R : Z -> RegionData -> RegionData -> Prop) (s s' : ParallelCompactData) : related R s s' -> tables s -> tables s'.
Proof using. intros (A1 & _ & A3 & _) [T1 T2]. split; congruence. Qed.

(** A recorded split names a region of the heap. *)
Definition info_ok (info : SplitInfo) : Prop :=
  split_destination_count info = 2 -> exists w, dest_region_addr info = addr H w /\ 0 <= w < 65536 * N.

Lemma word_region (s : ParallelCompactData) (w : Z) : tables s -> 0 <= w < 65536 * N -> 0 <= addr_to_region_idx s (addr H w) < region_count s.
Proof using HH HN.
  intros [T1 T2] Hw. pow2_norm. rewrite (region_idx_addr H HH s T1), T2 by (pow2_norm; lia). split; [apply Z.div_pos|apply Z.div_lt_upper_bound]; lia.
Qed.

Lemma summarize_region_ok (s : ParallelCompactData) (info : SplitInfo) (cur d words : Z) :
  tables s -> info_ok info -> 0 <= cur < N -> 0 <= d -> 0 < words -> d + words <= 65536 * N ->
  exists s', summarize_region s info cur (addr H d) words = Some s' /\ alike s s'.
Proof using HH HN.
  intros Ht Hi Hc Hd Hw Hin. unfold summarize_region. set (split := is_split info cur). set (count := if split then _ else 0).
  assert (Hstep : exists s1, (if split && (count =? 2) then update_region s (addr_to_region_idx s (dest_region_addr info)) (set_source_region cur) else Some s) = Some s1 /\ alike s s1).
  { destruct split; cbn [andb]; [|exists s; split; [done|apply alike_refl]]. subst count. destruct (Z.eqb_spec (split_destination_count info) 2) as [H2|]; [|exists s; split; [done|apply alike_refl]].
    destruct (Hi H2) as (w & -> & Hwr). apply alike_update; [by apply word_region|]. intros rd. apply like_source_region. }
  destruct Hstep as (s1 & -> & L1). cbn [mbind option_bind]. pose proof (related_tables _ _ _ L1 Ht) as Ht1. rewrite word_add_addr.
  pose proof (word_region s1 d Ht1 ltac:(lia)) as R1. pose proof (word_region s1 (d + (words - 1)) Ht1 ltac:(lia)) as R2.
  set (r1 := addr_to_region_idx s1 (addr H d)) in *. set (r2 := addr_to_region_idx s1 (addr H (d + (words - 1)))) in *.
  match goal with |- exists s', ?step ≫= ?k = _ /\ _ => assert (Hstep : exists s2 n, step = Some (s2, n) /\ alike s1 s2) end.
  { destruct (negb (r1 =? r2)); [|destruct (region_offset (addr H d) =? 0); [|by exists s1; eexists; split; [done|apply alike_refl]]].
    1: destruct (alike_update s1 r2 (set_source_region cur) R2) as (s2 & -> & L2). 3: destruct (alike_update s1 r1 (set_source_region cur) R1) as (s2 & -> & L2).
    1, 3: intros rd; apply like_source_region. all: exists s2; eexists; by split. }
  destruct Hstep as (s2 & n & -> & L2). cbn [mbind option_bind]. pose proof (related_tables _ _ _ L2 Ht1) as [_ Hc2].
  destruct (alike_update s2 cur (set_destination_count n) ltac:(lia)) as (s3 & -> & L3); [intros rd; apply like_destination_count|].
  exists s3. split; [done|]. exact (alike_trans _ _ _ (alike_trans _ _ _ L1 L2) L3).
Qed.

(** The regions from [cur] to [fin] have the destinations [t]. *)
Definition slid_by (cur fin : Z) (t : Z -> Z) (j : Z) (rd rd' : RegionData) : Prop :=
  same_counts rd rd' /\ destination rd' = if (cur <=? j) && (j <? fin) then addr H (t j) else destination rd.

Lemma same_data_size (rd rd' : RegionData) : same_counts rd rd' -> data_size rd' = data_size rd.
Proof using. intros (A1 & _ & A3 & _). unfold data_size. congruence. Qed.

Lemma slid_one (s : ParallelCompactData) (cur w : Z) (t : Z -> Z) :
  tables s -> 0 <= cur < N -> t cur = w -> exists s', update_region s cur (set_destination (addr H w)) = Some s' /\ related (slid_by cur (cur + 1) t) s s'.
Proof using.
  intros [_ Hcnt] Hc <-. apply related_update; [lia| |].
  - intros rd. split; [by repeat apply conj|]. destruct (Z.leb_spec cur cur), (Z.ltb_spec cur (cur + 1)); done || lia.
  - intros j rd Hj. split; [apply same_counts_refl|]. destruct (Z.leb_spec cur j), (Z.ltb_spec j (cur + 1)); done || lia.
Qed.

Lemma slid_join (a b c : Z) (t : Z -> Z) (s1 s2 s3 : ParallelCompactData) :
  a <= b <= c -> related (slid_by a b t) s1 s2 -> related (slid_by b c t) s2 s3 -> related (slid_by a c t) s1 s3.
Proof using.
  intros Hb R1 R2. eapply related_trans; [done..|]. intros j r1 r2 r3 [A1 A2] [B1 B2]. split; [by eapply same_counts_trans|]. rewrite B2, A2.
  destruct (Z.leb_spec a j), (Z.ltb_spec j c), (Z.leb_spec b j), (Z.ltb_spec j b); cbn [andb]; done || lia.
Qed.

Lemma slid_alike (a b : Z) (t : Z -> Z) (s1 s2 s3 : ParallelCompactData) : related (slid_by a b t) s1 s2 -> alike s2 s3 -> related (slid_by a b t) s1 s3.
Proof using. intros R1 R2. eapply related_trans; [done..|]. intros j r1 r2 r3 [A1 A2] [B1 B2]. split; [by eapply same_counts_trans|congruence]. Qed.

(** The regions from [cur] to [fin] hold the words from [g cur] to [g fin]. *)
Definition holds (s : ParallelCompactData) (g : Z -> Z) (cur fin : Z) : Prop :=
  forall r, cur <= r < fin -> exists rd, region s r = Some rd /\ data_size rd = g (r + 1) - g r /\ g r <= g (r + 1).

Lemma holds_mono (s : ParallelCompactData) (g : Z -> Z) (n : nat) (cur : Z) : holds s g cur (cur + Z.of_nat n) -> g cur <= g (cur + Z.of_nat n).
Proof using.
  induction n as [|n IH]; intros Hh; [by rewrite Z.add_0_r|]. destruct (Hh (cur + Z.of_nat n) ltac:(lia)) as (rd & _ & _ & Hle).
  assert (g cur <= g (cur + Z.of_nat n)) by (apply IH; intros r Hr; apply Hh; lia). replace (cur + Z.of_nat (S n)) with (cur + Z.of_nat n + 1) by lia. lia.
Qed.

Lemma holds_related (cur fin a b : Z) (t g : Z -> Z) (s s' : ParallelCompactData) : related (slid_by a b t) s s' -> holds s g cur fin -> holds s' g cur fin.
Proof using.
  intros (_ & _ & _ & Hr) Hh r Hrange. destruct (Hh r Hrange) as (rd & Hrd & Hs & Hg). destruct (Hr r rd Hrd) as (rd' & Hrd' & [Hc _]). exists rd'. split; [done|].
  by rewrite (same_data_size _ _ Hc).
Qed.

(** The first [k] regions fit. *)
Lemma summarize_loop_skip (k n : nat) (s : ParallelCompactData) (info : SplitInfo) (cur d te : Z) (g : Z -> Z) :
  tables s -> info_ok info -> 0 <= cur -> cur + Z.of_nat k <= N -> 0 <= d -> te <= 65536 * N -> holds s g cur (cur + Z.of_nat k) -> d + g (cur + Z.of_nat k) - g cur <= te ->
  exists s', summarize_loop (k + n) s info cur (addr H d) (addr H te) = summarize_loop n s' info (cur + Z.of_nat k) (addr H (d + g (cur + Z.of_nat k) - g cur)) (addr H te) /\
    related (slid_by cur (cur + Z.of_nat k) (fun j => d + g j - g cur)) s s'.
Proof using HH HN.
  revert s cur d. induction k as [|k IH]; intros s cur d Ht Hi Hc HcN Hd Hte Hh Hfit.
  { exists s. rewrite !Z.add_0_r. replace (d + g cur - g cur) with d by lia. split; [done|]. eapply related_weaken; [|apply alike_refl]. intros j rd rd' _ [L1 L2]. split; [done|].
    rewrite L2. destruct (Z.leb_spec cur j), (Z.ltb_spec j cur); done || lia. }
  set (t := fun j => d + g j - g cur). cbn [Nat.add summarize_loop]. destruct (slid_one s cur d t Ht ltac:(lia)) as (s1 & -> & R1); [unfold t; lia|]. cbn [mbind option_bind].
  pose proof (related_tables _ _ _ R1 Ht) as Ht1. pose proof (holds_related _ _ _ _ _ _ _ _ R1 Hh) as Hh1.
  destruct (Hh1 cur ltac:(lia)) as (rd & Hrd & Hsz & Hg). rewrite Hrd. cbn [mbind option_bind].
  replace (cur + Z.of_nat (S k)) with (cur + 1 + Z.of_nat k) in * by lia.
  assert (Hmono : g (cur + 1) <= g (cur + 1 + Z.of_nat k)) by (apply (holds_mono s1); intros r Hr; apply Hh1; lia).
  assert (Hnext : forall s2, alike s1 s2 -> exists s', summarize_loop (k + n) s2 info (cur + 1) (addr H (d + data_size rd)) (addr H te) =
    summarize_loop n s' info (cur + 1 + Z.of_nat k) (addr H (d + g (cur + 1 + Z.of_nat k) - g cur)) (addr H te) /\ related (slid_by cur (cur + 1 + Z.of_nat k) t) s s').
  { intros s2 L2. pose proof (slid_alike _ _ _ _ _ _ R1 L2) as R2. destruct (IH s2 (cur + 1) (d + data_size rd)) as (s' & -> & R'); try lia; [exact (related_tables _ _ _ R2 Ht)|done| |].
    { intros r Hr. apply (holds_related _ _ _ _ _ _ _ _ R2 Hh). lia. }
    exists s'. split; [do 2 f_equal; lia|]. eapply slid_join; [|exact R2|]; [lia|]. eapply related_weaken; [|exact R']. intros j r1 r2 _ [A1 A2]. split; [done|].
    rewrite A2. replace (d + data_size rd + g j - g (cur + 1)) with (t j) by (unfold t; lia). done. }
  destruct (Z.ltb_spec 0 (data_size rd)) as [Hpos|Hz].
  - rewrite word_add_addr, addr_lt. destruct (Z.ltb_spec te (d + data_size rd)); [lia|].
    destruct (summarize_region_ok s1 info cur d (data_size rd)) as (s2 & -> & L2); try done; try lia. cbn [mbind option_bind]. by apply Hnext.
  - specialize (Hnext s1 (alike_refl s1)). by replace (d + data_size rd) with d in Hnext by lia.
Qed.

Lemma summarize_fits (s : ParallelCompactData) (info : SplitInfo) (a b d te : Z) (g : Z -> Z) :
  tables s -> info_ok info -> 0 <= a <= b -> regions_up b <= N -> 0 <= d -> te <= 65536 * N ->
  holds s g (a / 65536) (regions_up b) -> a / 65536 <= regions_up b -> d + g (regions_up b) - g (a / 65536) <= te ->
  exists s', summarize s info (addr H a) (addr H b) (addr H d) (addr H te) = Some (Fits s' (addr H (d + g (regions_up b) - g (a / 65536)))) /\
    related (slid_by (a / 65536) (regions_up b) (fun j => d + g j - g (a / 65536))) s s'.
Proof using HH H19 HN.
  intros Ht Hi Ha Hb Hd Hte Hh Hle Hfit. pose proof (regions_up_spec b). destruct Ht as [T1 T2]. pow2_norm. unfold summarize.
  rewrite (region_align_up_addr H HH H19), !(region_idx_addr H HH s T1) by (pow2_norm; lia). rewrite (Z.mul_comm 65536), Z.div_mul by lia.
  set (fin := regions_up b) in *. set (cur := a / 65536) in *. assert (0 <= cur) by (apply Z.div_pos; lia).
  assert (Hf : cur + Z.of_nat (Z.to_nat (fin - cur)) = fin) by lia.
  destruct (summarize_loop_skip (Z.to_nat (fin - cur)) 0 s info cur d te g) as (s' & He & R); try done; try (rewrite Hf); try done; try (pow2_norm; lia).
  rewrite Nat.add_0_r, Hf in He. rewrite He. rewrite Hf in R. exists s'. by split.
Qed.

Context (objs : list (Z * Z)) (Hok : objects_ok objs).

Lemma counted_same (r : Z) (rd rd' : RegionData) : region_counted H objs r rd -> same_counts rd rd' -> region_counted H objs r rd'.
Proof using. intros [C1 C2 C3 C4 C5] (A1 & A2 & A3 & A4 & A5). split; try congruence; [by apply A5|]. intros x Hx Hr. rewrite A2. by apply C5. Qed.

(** The regions from [b] to [e] have the counts of [objs]. *)
Definition counts (s : ParallelCompactData) (b e : Z) : Prop := forall r, b <= r < e -> exists rd, region s r = Some rd /\ region_counted H objs r rd.

Lemma counts_related (R : Z -> RegionData -> RegionData -> Prop) (s s' : ParallelCompactData) (b e : Z) :
  related R s s' -> (forall j rd rd', b <= j < e -> R j rd rd' -> same_counts rd rd') -> counts s b e -> counts s' b e.
Proof using.
  intros (_ & _ & _ & Hr) HR Hc r Hrange. destruct (Hc r Hrange) as (rd & Hrd & Hrc). destruct (Hr r rd Hrd) as (rd' & Hrd' & HR'). exists rd'. split; [done|].
  eapply counted_same; [done|by eapply HR].
Qed.

Lemma counted_data_size (r : Z) (rd : RegionData) : region_counted H objs r rd -> data_size rd = live_in objs (65536 * r) (65536 * (r + 1)).
Proof using. intros [C1 C2 _ _ _]. unfold data_size. rewrite live_in_region. congruence. Qed.

Lemma counts_hold (s : ParallelCompactData) (a b e : Z) : a <= 65536 * b -> counts s b e -> holds s (fun r => live_in objs a (65536 * r)) b e.
Proof using.
  intros Hab Hc r Hr. destruct (Hc r Hr) as (rd & Hrd & Hrc). exists rd. split; [done|]. rewrite (counted_data_size _ _ Hrc), (live_in_split objs a (65536 * r) (65536 * (r + 1))) by lia.
  pose proof (live_in_nonneg objs (65536 * r) (65536 * (r + 1))). lia.
Qed.

Lemma clear_source_regions_ok (n : nat) (s : ParallelCompactData) (i : Z) :
  0 <= i -> i + Z.of_nat n <= region_count s -> exists s', clear_source_regions n s i = Some s' /\ alike s s'.
Proof using.
  revert s i. induction n as [|n IH]; intros s i Hi Hn; cbn [clear_source_regions]; [exists s; split; [done|apply alike_refl]|].
  destruct (alike_update s i (set_source_region 0) ltac:(lia)) as (s1 & -> & L1); [intros rd; apply like_source_region|]. cbn [mbind option_bind].
  pose proof L1 as (_ & _ & Hcnt & _). destruct (IH s1 (i + 1) ltac:(lia) ltac:(lia)) as (s2 & -> & L2). exists s2. split; [done|by eapply alike_trans].
Qed.

(** A space of which the regions from [b] to [k] do not fit below [te]. *)
Section Split.
Context (b e d te : Z) (Hb : 0 <= b) (He : e <= N) (Hbound : boundary objs (65536 * b)) (Hd : 0 <= d) (Hte : te <= 65536 * N).
Let t (r : Z) : Z := d + live_in objs (65536 * b) (65536 * r).

Lemma partial_obj_start (r : Z) : b <= r -> 0 < partial_in objs r -> exists x, x ∈ objs /\ x.1 < 65536 * r < obj_end x /\ b <= x.1 / 65536 < r.
Proof using Hok Hbound.
  intros Hr Hp. destruct (partial_in_cases objs Hok r) as [Hz|(x & Hx & Hxr & _)]; [lia|]. exists x. split; [done|]. split; [lia|].
  split; [|apply Z.div_lt_upper_bound; lia]. apply Z.div_le_lower_bound; [lia|]. destruct (Z.lt_ge_cases x.1 (65536 * b)) as [Hlt|]; [|done]. specialize (Hbound x Hx Hlt). lia.
Qed.

Lemma find_split_ok (s : ParallelCompactData) (k : Z) :
  tables s -> counts s b e -> b <= k < e -> t k <= te < t k + live_in objs (65536 * k) (65536 * (k + 1)) ->
  (forall j rd, b <= j <= k -> region s j = Some rd -> destination rd = addr H (t j)) ->
  exists s' q, find_split s k (addr H (t k)) (addr H te) = Some (s', q, addr H (t q), partial_in objs q) /\ alike s s' /\
    b <= q <= k /\ partial_in objs q < 65536 /\ t q + partial_in objs q <= te.
Proof using HH H19 HN Hok Hb He Hbound Hd Hte.
  intros Ht Hc Hk Hov Hdest. pose proof Ht as [T1 T2]. destruct (Hc k Hk) as (rk & Hrk & Ck). unfold find_split. rewrite Hrk. cbn [mbind option_bind]. rewrite (counted_partial _ _ _ _ Ck), word_add_addr, addr_lt.
  pose proof (partial_in_range objs Hok k) as Hpk. rewrite live_in_region in Hov. pose proof (started_in_range objs Hok k).
  assert (Ht0 : forall j, 0 <= t j) by (intros j; unfold t; pose proof (live_in_nonneg objs (65536 * b) (65536 * j)); lia).
  destruct (Z.ltb_spec te (t k + partial_in objs k)) as [Hlt|Hge]; [|exists s, k; split; [done|]; split; [apply alike_refl|lia]].
  destruct (partial_obj_start k) as (x & Hx & Hxr & Hq); [lia|lia|]. pose proof (objects_pos _ Hok x Hx). pow2_norm. rewrite (counted_addr _ _ _ _ Ck x Hx Hxr), (region_idx_addr H HH s T1) by (pow2_norm; lia).
  set (q := x.1 / 65536) in *. destruct (Hc q ltac:(lia)) as (rq & Hrq & Cq). rewrite Hrq. cbn [mbind option_bind]. rewrite (Hdest q rq), (counted_partial _ _ _ _ Cq), word_add_addr by (done || lia).
  assert (Hxq : 65536 * q <= x.1 < 65536 * (q + 1)) by (pose proof (Z.div_mod x.1 65536 ltac:(lia)); pose proof (Z.mod_pos_bound x.1 65536 ltac:(lia)); lia).
  destruct (start_after_partial objs Hok x q Hx Hxq) as [Hpe Hpq].
  assert (Htq : t q + partial_in objs q <= te).
  { unfold t in *. pose proof (started_in_range objs Hok q). pose proof (live_in_nonneg objs (65536 * (q + 1)) (65536 * k)). pose proof (live_in_region objs q).
    rewrite (live_in_split objs (65536 * b) (65536 * q) (65536 * k)), (live_in_split objs (65536 * q) (65536 * (q + 1)) (65536 * k)) in Hov by lia. lia. }
  pose proof (partial_in_range objs Hok q). pose proof (regions_up_spec (t q + partial_in objs q)) as Hup. specialize (Ht0 q).
  rewrite (region_align_up_addr H HH H19), !(region_idx_addr H HH s T1) by (pow2_norm; lia). rewrite (Z.mul_comm 65536 (regions_up _)), Z.div_mul by lia.
  assert (te / 65536 <= N) by (apply Z.div_le_upper_bound; lia).
  destruct (clear_source_regions_ok (Z.to_nat (te / 65536 - regions_up (t q + partial_in objs q))) s (regions_up (t q + partial_in objs q))) as (s' & -> & L).
  { lia. } { destruct (Z.le_gt_cases (regions_up (t q + partial_in objs q)) (te / 65536)); [lia|]. assert (regions_up (t q + partial_in objs q) <= N); [|lia]. nia. }
  exists s', q. split; [done|]. split; [done|]. lia.
Qed.

Lemma region_of_start (r : Z) : 65536 * r / 65536 = r.
Proof using. rewrite Z.mul_comm. by apply Z.div_mul. Qed.

Lemma slid_ext (lo hi : Z) (t1 t2 : Z -> Z) (s s' : ParallelCompactData) : (forall j, t1 j = t2 j) -> related (slid_by lo hi t1) s s' -> related (slid_by lo hi t2) s s'.
Proof using. intros Heq. apply related_weaken. intros j rd rd' _ [A1 A2]. split; [done|]. by rewrite A2, Heq. Qed.

(** The regions of the space before the split at region [q] keep their destinations; the words
    of the object that extends onto [q] no longer count there. *)
Definition split_at (q j : Z) (rd rd' : RegionData) : Prop :=
  (if j =? q then partial_obj_size rd' = 0 /\ live_obj_size rd' = live_obj_size rd /\ blocks_filled rd' = blocks_filled rd else same_counts rd rd') /\
  (j < b \/ e <= j -> destination rd' = destination rd) /\ (b <= j < q -> destination rd' = addr H (t j)).

Lemma first_overflow (n : nat) (cur : Z) (g : Z -> Z) :
  d <= te -> te < d + g (cur + Z.of_nat n) - g cur -> exists k, (k < n)%nat /\ d + g (cur + Z.of_nat k) - g cur <= te < d + g (cur + Z.of_nat k + 1) - g cur.
Proof using.
  intros Hdt. induction n as [|n IH]; intros Hov; [rewrite Z.add_0_r in Hov; lia|]. destruct (Z.le_gt_cases (d + g (cur + Z.of_nat n) - g cur) te) as [Hle|Hgt].
  - exists n. split; [lia|]. split; [done|]. by replace (cur + Z.of_nat n + 1) with (cur + Z.of_nat (S n)) by lia.
  - destruct (IH ltac:(lia)) as (k & Hk & Hr). exists k. split; [lia|done].
Qed.

Lemma live_to_partial_end (q : Z) : b <= q -> live_in objs (65536 * b) (partial_end objs q) = live_in objs (65536 * b) (65536 * q) + partial_in objs q.
Proof using Hok.
  intros Hq. pose proof (partial_in_range objs Hok q). rewrite (live_in_split objs (65536 * b) (65536 * q)) by (unfold partial_end; lia).
  rewrite (live_from_partial_end objs Hok q), (live_in_empty objs (partial_end objs q)) by (done || lia). lia.
Qed.

Lemma split_record_ok (s : ParallelCompactData) (info : SplitInfo) (q p w : Z) : 0 <= w -> 0 < p -> w + p <= 65536 * N -> info_ok (split_record s q p (addr H w) info).
Proof using HH H19 HN.
  intros Hw Hp Hend. unfold split_record, info_ok. rewrite word_add_addr. pow2_norm. rewrite !(region_align_down_addr H HH H19) by (pow2_norm; lia).
  pose proof (Z.mod_pos_bound (w + (p - 1)) 65536 ltac:(lia)). pose proof (Z.mod_le (w + (p - 1)) 65536 ltac:(lia) ltac:(lia)).
  destruct (_ =? _); [by destruct (_ =? _)|]. intros _. eexists. split; [done|]. lia.
Qed.

Lemma summarize_split_space_ok (s : ParallelCompactData) (info : SplitInfo) (k : Z) :
  tables s -> info_ok info -> counts s b e -> b <= k < e -> t k <= te < t k + live_in objs (65536 * k) (65536 * (k + 1)) ->
  (forall j rd, b <= j <= k -> region s j = Some rd -> destination rd = addr H (t j)) ->
  exists s' info' q, summarize_split_space s k info (addr H (t k)) (addr H te) =
      Some (s', info', addr H (partial_end objs q), addr H (d + live_in objs (65536 * b) (partial_end objs q))) /\
    info_ok info' /\ b <= q <= k /\ partial_in objs q < 65536 /\ d + live_in objs (65536 * b) (partial_end objs q) <= te /\ related (split_at q) s s'.
Proof using HH H19 HN Hok Hb He Hbound Hd Hte.
  intros Ht Hi Hc Hk Hov Hdest. unfold summarize_split_space. destruct (find_split_ok s k Ht Hc Hk Hov Hdest) as (s1 & q & -> & L1 & Hq & Hpq & Hfit). cbn [mbind option_bind].
  pose proof (related_tables _ _ _ L1 Ht) as Ht1. pose proof (live_to_partial_end q ltac:(lia)) as Hlpe. pose proof (partial_in_range objs Hok q) as Hpr. pose proof (live_in_nonneg objs (65536 * b) (65536 * q)) as Hnn.
  assert (Hkeep : related (fun j rd rd' => like rd rd' /\ (b <= j < q -> destination rd' = addr H (t j))) s s1).
  { destruct L1 as (A1 & A2 & A3 & A4). repeat split; try done. intros j rd Hrd. destruct (A4 j rd Hrd) as (rd' & Hrd' & [L1 L2]). exists rd'. split; [done|]. split; [done|].
    intros Hj. rewrite L2. apply Hdest; [lia|done]. }
  destruct (Z.eqb_spec (partial_in objs q) 0) as [Hz|Hnz]; cbn [negb mbind option_bind].
  - rewrite (region_to_addr_eq H s1 (proj1 Ht1)), !word_add_addr by (pow2_norm; lia). exists s1, info, q. split; [unfold t; by rewrite Hlpe, Z.add_assoc|]. split; [done|]. split; [done|]. split; [done|].
    split; [unfold t in Hfit; lia|]. eapply related_weaken; [|exact Hkeep]. intros j rd rd' Hrd [[L2 L3] L4]. split; [|split; [by intros _|done]]. destruct (Z.eqb_spec j q) as [->|]; [|done].
    destruct (Hc q ltac:(lia)) as (rq & Hrq & Cq). rewrite Hrq in Hrd. injection Hrd as <-. destruct L2 as (A1 & _ & A3 & A4 & _). rewrite A1, (counted_partial _ _ _ _ Cq). done.
  - pose proof Ht1 as [T1 T2].
    set (R := fun j rd rd' => (if j =? q then partial_obj_size rd' = 0 /\ live_obj_size rd' = live_obj_size rd /\ blocks_filled rd' = blocks_filled rd else same_counts rd rd') /\ destination rd' = destination rd).
    destruct (related_update R s1 q (set_partial_obj_size 0)) as (s2 & -> & R2); [lia|intros rd; split; [by rewrite Z.eqb_refl|done]| |].
    { intros j rd Hj. split; [|done]. destruct (Z.eqb_spec j q); [done|apply same_counts_refl]. }
    cbn [mbind option_bind]. pose proof (related_tables _ _ _ R2 Ht1) as Ht2. rewrite (region_to_addr_eq H s2 (proj1 Ht2)), !word_add_addr by (pow2_norm; lia).
    eexists s2, _, q. split; [unfold t; by rewrite Hlpe, Z.add_assoc|]. split; [apply split_record_ok; unfold t in *; lia|]. split; [done|]. split; [done|]. split; [unfold t in Hfit; lia|].
    eapply related_trans; [exact Hkeep|exact R2|]. intros j r1 r2 r3 [[L2 L3] L4] [K1 K2]. split; [|split; [by intros _; rewrite K2|intros Hj; rewrite K2; by apply L4]].
    destruct (j =? q); [destruct L2 as (_ & _ & A3 & A4 & _); intuition congruence|by eapply same_counts_trans].
Qed.

(** A space of which only a part fits into the target. *)
Lemma summarize_splits (s : ParallelCompactData) (info : SplitInfo) (top : Z) :
  tables s -> info_ok info -> counts s b e -> 65536 * b <= top -> regions_up top = e -> d <= te < d + live_in objs (65536 * b) (65536 * e) ->
  exists s' info' q, summarize s info (addr H (65536 * b)) (addr H top) (addr H d) (addr H te) =
      Some (Splits s' info' (addr H (partial_end objs q)) (addr H (d + live_in objs (65536 * b) (partial_end objs q)))) /\
    info_ok info' /\ b <= q < e /\ partial_in objs q < 65536 /\ d + live_in objs (65536 * b) (partial_end objs q) <= te /\ related (split_at q) s s'.
Proof using HH H19 HN Hok Hb He Hbound Hd Hte.
  intros Ht Hi Hc Htop Hup Hov. pose proof Ht as [T1 T2]. pose proof (regions_up_spec top). pow2_norm. unfold summarize.
  rewrite (region_align_up_addr H HH H19), !(region_idx_addr H HH s T1) by (pow2_norm; lia). rewrite Hup, !region_of_start.
  set (g := fun r => live_in objs (65536 * b) (65536 * r)). assert (Hgb : g b = 0) by (apply live_in_empty; lia).
  assert (Hbe : b < e). { destruct (Z.lt_ge_cases b e); [done|]. rewrite live_in_empty in Hov by lia. lia. }
  assert (Hn : b + Z.of_nat (Z.to_nat (e - b)) = e) by lia.
  destruct (first_overflow (Z.to_nat (e - b)) b g) as (k' & Hk & Hfit & Hno); [lia|rewrite Hn; unfold g at 1; lia|]. rewrite Hgb in *.
  replace (Z.to_nat (e - b)) with (k' + S (Z.to_nat (e - b) - k' - 1))%nat by lia. set (n := (Z.to_nat (e - b) - k' - 1)%nat). set (k := b + Z.of_nat k') in *.
  assert (Hk' : b <= k < e) by lia. pose proof (counts_hold s (65536 * b) b e ltac:(lia) Hc) as Hh. fold g in Hh.
  destruct (summarize_loop_skip k' (S n) s info b d te g) as (s1 & -> & R1); try done; try lia.
  { intros r Hr. apply Hh. lia. } { fold k. lia. }
  fold k in R1 |- *. rewrite Hgb. pose proof (related_tables _ _ _ R1 Ht) as Ht1. cbn [summarize_loop].
  destruct (slid_one s1 k (d + g k - 0) t Ht1 ltac:(lia)) as (s2 & -> & R2); [unfold t, g; lia|]. cbn [mbind option_bind]. pose proof (related_tables _ _ _ R2 Ht1) as Ht2.
  assert (R12 : related (slid_by b (k + 1) t) s s2).
  { eapply slid_join; [|eapply slid_ext; [|exact R1]|exact R2]; [lia|]. intros j. unfold t. fold (g j). lia. }
  assert (Hc2 : counts s2 b e) by (eapply counts_related; [exact R12| |done]; by intros j rd rd' _ [? _]).
  destruct (Hc2 k Hk') as (rd & Hrd & Hrc). rewrite Hrd. cbn [mbind option_bind]. rewrite (counted_data_size _ _ Hrc), word_add_addr, addr_lt.
  assert (Hgk : g (k + 1) = g k + live_in objs (65536 * k) (65536 * (k + 1))) by (unfold g; apply live_in_split; lia).
  destruct (Z.ltb_spec 0 (live_in objs (65536 * k) (65536 * (k + 1)))), (Z.ltb_spec te (d + g k - 0 + live_in objs (65536 * k) (65536 * (k + 1)))); try lia.
  destruct (summarize_split_space_ok s2 info k Ht2 Hi Hc2 Hk') as (s3 & info' & q & Hsp & Hi' & Hq & Hpq & Hle & R3).
  { unfold t. fold (g k). lia. }
  { intros j rj Hj Hrj. destruct R12 as (_ & _ & _ & R12). destruct (region_in s j) as [rj0 Hrj0]; [lia|]. destruct (R12 j rj0 Hrj0) as (rj' & Hrj' & [_ Hdest]).
    rewrite Hrj in Hrj'. injection Hrj' as <-. rewrite Hdest. destruct (Z.leb_spec b j), (Z.ltb_spec j (k + 1)); done || lia. }
  unfold t in Hsp at 1. fold (g k) in Hsp. replace (d + g k - 0) with (d + g k) by lia. rewrite Hsp. cbn [mbind option_bind].
  exists s3, info', q. split; [done|]. split; [done|]. split; [lia|]. split; [done|]. split; [done|].
  eapply related_trans; [exact R12|exact R3|]. intros j r1 r2 r3 [A1 A2] (B1 & B2 & B3). split; [|split; [|done]].
  - destruct (j =? q); [destruct A1 as (? & ? & ? & ? & ?); intuition congruence|by eapply same_counts_trans].
  - intros Hj. rewrite B2, A2 by done. destruct (Z.leb_spec b j), (Z.ltb_spec j (k + 1)); done || lia.
Qed.
End Split.

(** ** The new place of an object *)

(** The destination of its region moves the object [x] to the word [v]. *)
Definition lands (s : ParallelCompactData) (x : Z * Z) (v : Z) : Prop :=
  let r := x.1 / 65536 in
  exists rd w, region s r = Some rd /\ destination rd = addr H w /\ blocks_filled rd = false /\
    (data_size rd = 65536 \/ live_obj_size rd = started_in objs r /\ (partial_obj_size rd = 0 \/ partial_obj_size rd = partial_in objs r)) /\
    v = w + if data_size rd =? 65536 then x.1 mod 65536 else partial_obj_size rd + live_in objs (partial_end objs r) x.1.

Lemma lands_unique (s : ParallelCompactData) (x : Z * Z) (v v' : Z) : lands s x v -> lands s x v' -> v = v'.
Proof using.
  intros (rd & w & Hr & Hd & _ & _ & ->) (rd' & w' & Hr' & Hd' & _ & _ & ->). rewrite Hr in Hr'. injection Hr' as <-. rewrite Hd in Hd'. apply addr_inj in Hd'. by subst.
Qed.

(** The place stays while the region does. *)
Lemma lands_related (R : Z -> RegionData -> RegionData -> Prop) (s s' : ParallelCompactData) (x : Z * Z) (v : Z) :
  related R s s' -> (forall rd rd', R (x.1 / 65536) rd rd' -> like rd rd') -> lands s x v -> lands s' x v.
Proof using.
  intros (_ & _ & _ & Hrel) HR (rd & w & Hr & Hd & Hb & Hs & Hv). destruct (Hrel _ rd Hr) as (rd' & Hr' & HR'). destruct (HR _ _ HR') as [Hc Hd'].
  pose proof (same_data_size _ _ Hc) as Hds. destruct Hc as (A1 & _ & A3 & A4 & _). exists rd', w. rewrite Hds, A1, A3. split; [done|]. split; [congruence|]. split; [congruence|]. done.
Qed.

(** The regions from [cur] to [fin] count the words of [objs] from [a] on. *)
Definition counts_from (s : ParallelCompactData) (a cur fin : Z) : Prop :=
  forall r, cur <= r < fin -> exists rd, region s r = Some rd /\ live_obj_size rd = started_in objs r /\ blocks_filled rd = false /\
    (a <= 65536 * r /\ partial_obj_size rd = partial_in objs r \/ a = partial_end objs r /\ partial_obj_size rd = 0).

Lemma counts_counts_from (s : ParallelCompactData) (cur fin : Z) : counts s cur fin -> counts_from s (65536 * cur) cur fin.
Proof using. intros Hc r Hr. destruct (Hc r Hr) as (rd & Hrd & [C1 C2 _ C4 _]). exists rd. split; [done|]. split; [done|]. split; [done|]. left. lia. Qed.

Lemma counts_from_hold (s : ParallelCompactData) (a cur fin : Z) : counts_from s a cur fin -> holds s (fun r => live_in objs a (65536 * r)) cur fin.
Proof using Hok.
  intros Hc r Hr. destruct (Hc r Hr) as (rd & Hrd & Hl & _ & Hp). exists rd. split; [done|]. unfold data_size. rewrite Hl. pose proof (partial_in_range objs Hok r). pose proof (started_in_range objs Hok r).
  destruct Hp as [[Ha ->]|[-> ->]].
  - rewrite (live_in_split objs a (65536 * r) (65536 * (r + 1))), live_in_region by lia. lia.
  - rewrite (live_in_empty objs _ (65536 * r)), started_in_eq by (unfold partial_end; done || lia). pose proof (live_in_nonneg objs (partial_end objs r) (65536 * (r + 1))). lia.
Qed.

Lemma slide_lands (R : Z -> RegionData -> RegionData -> Prop) (s s' : ParallelCompactData) (a cur fin d : Z) (x : Z * Z) :
  counts_from s a cur fin -> related R s s' -> (forall j rd rd', cur <= j < fin -> R j rd rd' -> slid_by cur fin (fun j => d + live_in objs a (65536 * j)) j rd rd') ->
  x ∈ objs -> cur <= x.1 / 65536 < fin -> lands s' x (d + live_in objs a x.1).
Proof using Hok.
  intros Hc (_ & _ & _ & Hrel) HR Hx Hr. set (r := x.1 / 65536) in *. destruct (Hc r Hr) as (rd & Hrd & Hl & Hb & Hp). destruct (Hrel r rd Hrd) as (rd' & Hrd' & HRr). destruct (HR r rd rd' Hr HRr) as [Hsc Hd].
  pose proof (same_data_size _ _ Hsc) as Hds. destruct Hsc as (A1 & _ & A3 & A4 & _). pose proof (objects_pos _ Hok x Hx).
  pose proof (Z.div_mod x.1 65536 ltac:(lia)) as Hdm. pose proof (Z.mod_pos_bound x.1 65536 ltac:(lia)). fold r in Hdm.
  destruct (start_after_partial objs Hok x r Hx ltac:(lia)) as [Hpe Hpr]. pose proof (partial_in_range objs Hok r).
  exists rd', (d + live_in objs a (65536 * r)). fold r. split; [done|]. destruct (Z.leb_spec cur r), (Z.ltb_spec r fin); cbn [andb] in Hd; try lia. split; [done|]. split; [congruence|].
  assert (Hpp : partial_obj_size rd' = 0 \/ partial_obj_size rd' = partial_in objs r) by (destruct Hp as [[_ Hp]|[_ Hp]]; [right|left]; congruence).
  split; [right; split; [congruence|done]|].
  assert (Hpos : live_in objs a x.1 = live_in objs a (65536 * r) + (partial_obj_size rd' + live_in objs (partial_end objs r) x.1)).
  { rewrite A1. destruct Hp as [[Ha ->]|[-> ->]].
    - rewrite (live_in_split objs a (65536 * r) x.1), (live_from_partial_end objs Hok r x.1) by lia. lia.
    - rewrite (live_in_empty objs (partial_end objs r) (65536 * r)) by (unfold partial_end; lia). lia. }
  destruct (Z.eqb_spec (data_size rd') 65536) as [Hfull|]; [|lia]. unfold data_size in Hfull.
  pose proof (full_region objs Hok (fun _ => partial_obj_size rd') r x.1 Hpp ltac:(congruence) ltac:(lia)). cbn beta in *. lia.
Qed.

(** Sliding keeps objects apart. *)
Lemma slide_apart (a : Z) (x y : Z * Z) : x ∈ objs -> y ∈ objs -> a <= x.1 -> x.1 < y.1 -> live_in objs a x.1 + x.2 <= live_in objs a y.1.
Proof using Hok.
  intros Hx Hy Ha Hlt. pose proof (boundary_start objs Hok y Hy x Hx Hlt). pose proof (objects_pos _ Hok x Hx). pose proof (live_in_object objs Hok x Hx).
  rewrite (live_in_split objs a x.1 y.1), (live_in_split objs x.1 (obj_end x) y.1) by (unfold obj_end in *; lia). pose proof (live_in_nonneg objs (obj_end x) y.1). lia.
Qed.

Lemma slide_inside (a b : Z) (x : Z * Z) : x ∈ objs -> a <= x.1 -> obj_end x <= b -> live_in objs a x.1 + x.2 <= live_in objs a b.
Proof using Hok.
  intros Hx Ha Hb. pose proof (objects_pos _ Hok x Hx). pose proof (live_in_object objs Hok x Hx).
  rewrite (live_in_split objs a x.1 b), (live_in_split objs x.1 (obj_end x) b) by (unfold obj_end in *; lia). pose proof (live_in_nonneg objs (obj_end x) b). lia.
Qed.

(** Calls of [calc_new_pointer] one after the other. *)
Fixpoint calc_new_pointers (m : ParMarkBitMap) (s : ParallelCompactData) (l : list Z) : option (list Z) :=
  match l with
  | [] => Some []
  | a :: l => '(v, s) ← calc_new_pointer m s a; vs ← calc_new_pointers m s l; Some (v :: vs)
  end.

Section Lookup.
Context (m : ParMarkBitMap) (Hm : marked H N m objs) (Hin : inside N objs).
Context (s : ParallelCompactData) (Ht : tables s) (Hblocks : block_count s = 512 * N) (Hall : forall x, x ∈ objs -> exists v, lands s x v).

Let D (r : Z) : Z := match region s r with Some rd => (destination rd - H) / 8 | None => 0 end.
Let p (r : Z) : Z := match region s r with Some rd => partial_obj_size rd | None => 0 end.
Let dense (r : Z) : bool := match region s r with Some rd => data_size rd =? 65536 | None => false end.

Lemma lands_located : located H N objs dense D p s.
Proof using Ht Hblocks Hall.
  destruct Ht as [T1 T2]. split; [done|by split|]. intros x Hx. destruct (Hall x Hx) as (v & rd & w & Hr & Hd & Hb & Hs & _). exists rd. split; [done|].
  split; [|unfold p; by rewrite Hr| |congruence].
  - unfold D. rewrite Hr, Hd. f_equal. unfold addr. rewrite (Z.add_comm H), Z.add_simpl_r, (Z.mul_comm 8). symmetry. by apply Z.div_mul.
  - unfold dense, p. rewrite Hr. destruct (Z.eqb_spec (data_size rd) 65536); [done|]. by destruct Hs.
Qed.

Lemma lands_new_pos (x : Z * Z) (v : Z) : lands s x v -> new_pos objs dense D p x.1 = v.
Proof using.
  intros (rd & w & Hr & Hd & _ & _ & ->). unfold new_pos, dense, D, p. rewrite Hr, Hd.
  replace ((addr H w - H) / 8) with w; [destruct (data_size rd =? 65536); lia|]. unfold addr. rewrite (Z.add_comm H), Z.add_simpl_r, (Z.mul_comm 8). symmetry. by apply Z.div_mul.
Qed.

Lemma calc_new_pointers_ok (xs : list (Z * Z)) (vs : list Z) :
  Forall2 (fun x v => x ∈ objs /\ lands s x v) xs vs -> calc_new_pointers m s (map (fun x => addr H x.1) xs) = Some (map (addr H) vs).
Proof using HH H19 HN Hok Hm Hin Ht Hblocks Hall.
  intros Hf. assert (Hgen : forall s1, located H N objs dense D p s1 -> calc_new_pointers m s1 (map (fun x => addr H x.1) xs) = Some (map (addr H) vs)); [|apply Hgen, lands_located].
  induction Hf as [|x v xs vs [Hx Hv] _ IH]; intros s1 Hloc; [done|]. cbn [map calc_new_pointers].
  destruct (calc_new_pointer_ok H N HH H19 HN m objs Hm Hok Hin dense D p s1 x Hloc Hx) as (s2 & -> & Hloc2). cbn [mbind option_bind].
  rewrite (IH s2 Hloc2), (lands_new_pos x v Hv). done.
Qed.
End Lookup.
End Summarize.

(** ** Spaces *)

(** The regions of a space, and the index of the word behind its last used one. *)
Record Extent := mkExtent { ebeg : Z; eend : Z; etop : Z }.

Section Spaces.
Context (H N : Z) (HH : 0 <= H < 2 ^ 61) (H19 : (2 ^ 19 | H)) (HN : 0 <= N < 2 ^ 38).

Record extents_ok (L : list Extent) : Prop := {
  extent_range : forall A, A ∈ L -> 0 <= ebeg A /\ 65536 * ebeg A <= etop A <= 65536 * eend A /\ eend A <= N;
  extents_apart : forall i j A B, L !! i = Some A -> L !! j = Some B -> i = j \/ eend A <= ebeg B \/ eend B <= ebeg A;
}.

Definition within (A : Extent) (x : Z * Z) : Prop := 65536 * ebeg A <= x.1 /\ obj_end x <= etop A.
Definition in_spaces (L : list Extent) (objs : list (Z * Z)) : Prop := forall x, x ∈ objs -> exists j A, L !! j = Some A /\ within A x.

(** The spaces of the collector with the values [nt] of [new_top]. *)
Definition space_is (A : Extent) (i : SpaceInfo) : Prop :=
  bottom i = addr H (65536 * ebeg A) /\ top i = addr H (etop A) /\ end_ i = addr H (65536 * eend A) /\ info_ok H N (split_info i).
Definition spaces (L : list Extent) (c : PSParallelCompact) (nt : nat -> Z) : Prop :=
  forall k A, L !! k = Some A -> exists i, zget (_space_info c) (Z.of_nat k) = Some i /\ space_is A i /\ new_top i = nt k.
Definition upd (nt : nat -> Z) (k : nat) (a : Z) (j : nat) : Z := if decide (j = k) then a else nt j.

Context (L : list Extent) (HL : extents_ok L).

Lemma spaces_ext (c : PSParallelCompact) (nt nt' : nat -> Z) : (forall j, nt j = nt' j) -> spaces L c nt -> spaces L c nt'.
Proof using. intros He Hs k A Hk. destruct (Hs k A Hk) as (i & H1 & H2 & H3). exists i. by rewrite <- He. Qed.

Lemma update_space_ok (c : PSParallelCompact) (nt : nat -> Z) (k : nat) (A : Extent) (f : SpaceInfo -> SpaceInfo) (a : Z) :
  spaces L c nt -> L !! k = Some A -> (forall i, space_is A i -> new_top i = nt k -> space_is A (f i) /\ new_top (f i) = a) ->
  exists c' i, update_space c (Z.of_nat k) f = Some c' /\ _mark_bitmap c' = _mark_bitmap c /\ _summary_data c' = _summary_data c /\ spaces L c' (upd nt k a) /\
    zget (_space_info c) (Z.of_nat k) = Some i /\ zget (_space_info c') (Z.of_nat k) = Some (f i).
Proof using.
  intros Hs Hk Hf. destruct (Hs k A Hk) as (i & Hi & Hsp & Hnt). unfold update_space. rewrite Hi. cbn [mbind option_bind]. pose proof (zget_Some_range _ _ _ Hi) as Hr.
  destruct (zset (_space_info c) (Z.of_nat k) (f i)) as [l|] eqn:Hl; [|unfold zset in Hl; case_bool_decide; done || lia]. exists (with_spaces c l), i. split; [done|]. split; [done|]. split; [done|].
  cbn [_space_info with_spaces]. split; [|split; [done|]]; [|rewrite (zget_zset _ _ _ _ _ Hl); by rewrite bool_decide_eq_true_2].
  intros j B Hj. unfold upd. cbn [_space_info with_spaces]. rewrite (zget_zset _ _ _ _ _ Hl). destruct (decide (j = k)) as [->|Hne].
  - rewrite bool_decide_eq_true_2 by done. exists (f i). rewrite Hk in Hj. injection Hj as <-. by destruct (Hf i Hsp Hnt).
  - rewrite bool_decide_eq_false_2 by lia. by apply Hs.
Qed.

Lemma extent_top (A : Extent) : A ∈ L -> ebeg A <= regions_up (etop A) <= eend A /\ etop A <= 65536 * regions_up (etop A).
Proof using HL. intros HA. destruct (extent_range _ HL A HA). pose proof (regions_up_spec (etop A)). lia. Qed.

Section Objs.
Context (objs : list (Z * Z)) (Hok : objects_ok objs) (Hsp : in_spaces L objs).

Lemma inside_spaces : inside N objs.
Proof using HL Hsp. intros x Hx. destruct (Hsp x Hx) as (j & A & Hj & Hw). destruct (extent_range _ HL A (list_elem_of_lookup_2 _ _ _ Hj)). unfold within in *. lia. Qed.

(** An object that reaches into the regions of a space is within it. *)
Lemma within_space (k : nat) (A : Extent) (x : Z * Z) : L !! k = Some A -> x ∈ objs -> x.1 < 65536 * eend A -> 65536 * ebeg A < obj_end x -> within A x.
Proof using HL Hok Hsp.
  intros Hk Hx H1 H2. destruct (Hsp x Hx) as (j & B & Hj & Hw). destruct (extents_apart _ HL _ _ _ _ Hk Hj) as [->|Hap]; [congruence|].
  destruct (extent_range _ HL B (list_elem_of_lookup_2 _ _ _ Hj)). unfold within in *. lia.
Qed.

Lemma space_boundary (k : nat) (A : Extent) : L !! k = Some A -> boundary objs (65536 * ebeg A).
Proof using HL Hok Hsp.
  intros Hk x Hx Hlt. destruct (Z.le_gt_cases (obj_end x) (65536 * ebeg A)); [done|]. destruct (extent_range _ HL A (list_elem_of_lookup_2 _ _ _ Hk)).
  pose proof (within_space k A x Hk Hx ltac:(lia) ltac:(lia)) as [? _]. lia.
Qed.

(** The live words of a space. *)
Definition live_of (A : Extent) : Z := live_in objs (65536 * ebeg A) (65536 * regions_up (etop A)).

Lemma live_of_top (k : nat) (A : Extent) (a : Z) : L !! k = Some A -> 65536 * ebeg A <= a <= etop A -> live_in objs a (65536 * regions_up (etop A)) = live_in objs a (etop A).
Proof using HL Hok Hsp.
  intros Hk Ha. pose proof (list_elem_of_lookup_2 _ _ _ Hk) as HA. destruct (extent_top A HA). destruct (extent_range _ HL A HA). rewrite (live_in_split objs a (etop A)) by lia.
  assert (Hz : live_in objs (etop A) (65536 * regions_up (etop A)) = 0); [|lia]. apply sum_over_zero. intros x Hx. unfold overlap.
  destruct (Z.lt_ge_cases x.1 (65536 * regions_up (etop A))), (Z.lt_ge_cases (etop A) (obj_end x)); try lia.
  destruct (within_space k A x Hk Hx ltac:(lia) ltac:(lia)). lia.
Qed.

Lemma within_region (k : nat) (A : Extent) (x : Z * Z) : L !! k = Some A -> x ∈ objs -> within A x -> ebeg A <= x.1 / 65536 < regions_up (etop A).
Proof using HL Hok.
  intros Hk Hx [H1 H2]. destruct (extent_top A (list_elem_of_lookup_2 _ _ _ Hk)). pose proof (objects_pos _ Hok x Hx). unfold obj_end in *.
  split; [apply Z.div_le_lower_bound|apply Z.div_lt_upper_bound]; lia.
Qed.

(** [summarize] where the words from [a] on fit. *)
Lemma summarize_all_ok (c : PSParallelCompact) (nt : nat -> Z) (k kt : nat) (A B : Extent) (a d te : Z) :
  spaces L c nt -> L !! k = Some A -> L !! kt = Some B -> tables H N (_summary_data c) -> 65536 * ebeg A <= a <= etop A ->
  counts_from objs (_summary_data c) a (a / 65536) (regions_up (etop A)) -> 0 <= d -> te <= 65536 * N -> d + live_in objs a (65536 * regions_up (etop A)) <= te ->
  exists c', summarize_all c (Z.of_nat k) (addr H a) (addr H (etop A)) (addr H d) (addr H te) (Z.of_nat kt) = Some c' /\
    _mark_bitmap c' = _mark_bitmap c /\ spaces L c' (upd nt kt (addr H (d + live_in objs a (65536 * regions_up (etop A))))) /\
    related (slid_by H (a / 65536) (regions_up (etop A)) (fun j => d + live_in objs a (65536 * j))) (_summary_data c) (_summary_data c').
Proof using HH H19 HN HL Hok.
  intros Hs Hk Hkt Ht Ha Hc Hd Hte Hfit. destruct (Hs k A Hk) as (i & Hi & (S1 & S2 & S3 & S4) & _). unfold summarize_all. rewrite Hi. cbn [mbind option_bind].
  pose proof (list_elem_of_lookup_2 _ _ _ Hk) as HA. destruct (extent_range _ HL A HA). destruct (extent_top A HA).
  pose proof (Z.div_mod a 65536 ltac:(lia)). pose proof (Z.mod_pos_bound a 65536 ltac:(lia)).
  assert (Hg0 : live_in objs a (65536 * (a / 65536)) = 0) by (apply live_in_empty; lia).
  destruct (summarize_fits H N HH H19 HN (_summary_data c) (split_info i) a (etop A) d te (fun r => live_in objs a (65536 * r)) Ht S4) as (s' & -> & R); try lia.
  { by apply counts_from_hold. }
  cbn beta in R |- *. rewrite Hg0, Z.sub_0_r. cbn [mbind option_bind].
  destruct (update_space_ok (with_summary c s') nt kt B (set_new_top (addr H (d + live_in objs a (65536 * regions_up (etop A))))) (addr H (d + live_in objs a (65536 * regions_up (etop A)))))
    as (c' & i' & -> & U1 & U2 & U3 & _); [done|done|by intros j Hj _|].
  exists c'. split; [done|]. split; [done|]. split; [done|]. rewrite U2. eapply slid_ext; [|exact R]. intros j. cbn beta. rewrite Hg0. lia.
Qed.

(** *** The first summary *)

Definition from_space (k : nat) (r : Z) : Prop := exists j A, (k <= j)%nat /\ L !! j = Some A /\ ebeg A <= r < eend A.
(** The destinations of the regions in [P] may change. *)
Definition touching (P : Z -> Prop) (r : Z) (rd rd' : RegionData) : Prop := same_counts rd rd' /\ (~ P r -> destination rd' = destination rd).

Lemma not_from_space (k : nat) (A : Extent) (r : Z) : L !! k = Some A -> ebeg A <= r < eend A -> ~ from_space (S k) r.
Proof using HL.
  intros Hk Hr (j & B & Hj & HB & HrB). destruct (extents_apart _ HL _ _ _ _ Hk HB) as [->|Hap]; lia.
Qed.

Lemma slid_touching (k : nat) (A : Extent) (a fin : Z) (t : Z -> Z) (s s' : ParallelCompactData) :
  L !! k = Some A -> ebeg A <= a -> fin <= eend A -> related (slid_by H a fin t) s s' -> related (touching (from_space k)) s s'.
Proof using.
  intros Hk Ha Hfin. apply related_weaken. intros j rd rd' _ [A1 A2]. split; [done|]. intros Hno. rewrite A2.
  destruct (Z.leb_spec a j), (Z.ltb_spec j fin); try done. exfalso. apply Hno. exists k, A. split; [lia|]. split; [done|lia].
Qed.

Lemma touching_lands (P : Z -> Prop) (s s' : ParallelCompactData) (x : Z * Z) (v : Z) :
  related (touching P) s s' -> ~ P (x.1 / 65536) -> lands H objs s x v -> lands H objs s' x v.
Proof using. intros R Hno. eapply lands_related; [exact R|]. intros rd rd' [A1 A2]. split; [done|by apply A2]. Qed.

Lemma touching_counts (P : Z -> Prop) (s s' : ParallelCompactData) (b e : Z) : related (touching P) s s' -> counts H objs s b e -> counts H objs s' b e.
Proof using. intros R. eapply counts_related; [exact R|]. by intros j rd rd' _ [? _]. Qed.

Lemma touching_trans (P Q : Z -> Prop) (s1 s2 s3 : ParallelCompactData) :
  (forall r, Q r -> P r) -> related (touching P) s1 s2 -> related (touching Q) s2 s3 -> related (touching P) s1 s3.
Proof using.
  intros HQ R1 R2. eapply related_trans; [done..|]. intros j r1 r2 r3 [A1 A2] [B1 B2]. split; [by eapply same_counts_trans|]. intros Hno. rewrite B2, A2; [done|done|]. intros Hq. by apply Hno, HQ.
Qed.

(** The live words of a space fit into the space. *)
Lemma live_of_fits (k : nat) (A : Extent) : L !! k = Some A -> 0 <= live_of A <= etop A - 65536 * ebeg A.
Proof using HL Hok Hsp.
  intros Hk. destruct (extent_range _ HL A (list_elem_of_lookup_2 _ _ _ Hk)). unfold live_of. rewrite (live_of_top k) by (done || lia).
  pose proof (live_in_nonneg objs (65536 * ebeg A) (etop A)). pose proof (live_in_bound objs Hok (65536 * ebeg A) (etop A) ltac:(lia)). lia.
Qed.

Lemma counts_part (s : ParallelCompactData) (A : Extent) : A ∈ L -> counts H objs s 0 N -> counts H objs s (ebeg A) (eend A).
Proof using HL. intros HA Hc r Hr. destruct (extent_range _ HL A HA). apply Hc. lia. Qed.

(** A space is summarized into itself. *)
Lemma quick_step_ok (c : PSParallelCompact) (nt : nat -> Z) (k : nat) (A : Extent) :
  spaces L c nt -> L !! k = Some A -> tables H N (_summary_data c) -> counts H objs (_summary_data c) 0 N ->
  exists c', summarize_all c (Z.of_nat k) (addr H (65536 * ebeg A)) (addr H (etop A)) (addr H (65536 * ebeg A)) (addr H (65536 * eend A)) (Z.of_nat k) = Some c' /\
    _mark_bitmap c' = _mark_bitmap c /\ spaces L c' (upd nt k (addr H (65536 * ebeg A + live_of A))) /\ related (touching (from_space k)) (_summary_data c) (_summary_data c') /\
    forall x, x ∈ objs -> within A x -> lands H objs (_summary_data c') x (65536 * ebeg A + live_in objs (65536 * ebeg A) x.1).
Proof using HH H19 HN HL Hok Hsp.
  intros Hs Hk Ht Hc. pose proof (list_elem_of_lookup_2 _ _ _ Hk) as HA. destruct (extent_range _ HL A HA). destruct (extent_top A HA). pose proof (live_of_fits k A Hk).
  assert (Hcf : counts_from objs (_summary_data c) (65536 * ebeg A) (ebeg A) (regions_up (etop A))).
  { apply (counts_counts_from H). intros r Hr. apply Hc. lia. }
  destruct (summarize_all_ok c nt k k A A (65536 * ebeg A) (65536 * ebeg A) (65536 * eend A)) as (c' & He & Hm & Hs' & R); try done; try lia; [by rewrite region_of_start|unfold live_of in *; lia|].
  rewrite region_of_start in R. exists c'. split; [done|]. split; [done|]. split; [done|]. split; [eapply slid_touching; [done| | |exact R]; lia|].
  intros x Hx Hw. eapply slide_lands; [done|exact Hcf|exact R|done|done|by eapply within_region].
Qed.

Lemma summarize_quick_loop_ok (n k : nat) (c : PSParallelCompact) (nt : nat -> Z) :
  (k + n = length L)%nat -> spaces L c nt -> tables H N (_summary_data c) -> counts H objs (_summary_data c) 0 N ->
  exists c' nt', summarize_quick_loop n c (Z.of_nat k) = Some c' /\ spaces L c' nt' /\ _mark_bitmap c' = _mark_bitmap c /\
    related (touching (from_space k)) (_summary_data c) (_summary_data c') /\
    (forall j A, (k <= j)%nat -> L !! j = Some A -> nt' j = addr H (65536 * ebeg A + live_of A)) /\ (forall j, (j < k)%nat -> nt' j = nt j) /\
    forall j A x, (k <= j)%nat -> L !! j = Some A -> x ∈ objs -> within A x -> lands H objs (_summary_data c') x (65536 * ebeg A + live_in objs (65536 * ebeg A) x.1).
Proof using HH H19 HN HL Hok Hsp.
  revert k c nt. induction n as [|n IH]; intros k c nt Hlen Hs Ht Hc; cbn [summarize_quick_loop].
  { assert (Hno : forall j A, (k <= j)%nat -> L !! j <> Some A) by (intros j A Hj HA; apply lookup_lt_Some in HA; lia).
    exists c, nt. split; [done|]. split; [done|]. split; [done|]. split; [eapply related_weaken; [|apply alike_refl]; by intros j rd rd' _ [? ?]|].
    split; [intros j A Hj HA; by destruct (Hno j A Hj)|]. split; [done|]. intros j A x Hj HA. by destruct (Hno j A Hj). }
  destruct (lookup_lt_is_Some_2 L k) as [A Hk]; [lia|]. destruct (Hs k A Hk) as (i & Hi & (S1 & S2 & S3 & S4) & _). rewrite Hi. cbn [mbind option_bind]. rewrite S1, S2, S3.
  destruct (quick_step_ok c nt k A Hs Hk Ht Hc) as (c1 & -> & M1 & Hs1 & R1 & L1). cbn [mbind option_bind].
  destruct (update_space_ok c1 _ k A (set_dense_prefix (addr H (65536 * ebeg A))) (addr H (65536 * ebeg A + live_of A)) Hs1 Hk) as (c2 & i2 & -> & M2 & D2 & Hs2 & _).
  { intros i' Hi' Hn. split; [done|]. unfold upd in Hn. by rewrite decide_True in Hn. }
  cbn [mbind option_bind]. replace (Z.of_nat k + 1) with (Z.of_nat (S k)) by lia.
  destruct (IH (S k) c2 _ ltac:(lia) Hs2) as (c' & nt' & -> & Hs' & M' & R' & N1 & N2 & L'); [rewrite D2; by eapply related_tables|rewrite D2; by eapply touching_counts|].
  rewrite D2 in R'. exists c', nt'. split; [done|]. split; [done|]. split; [congruence|].
  split; [eapply touching_trans; [|exact R1|exact R']; intros r (j & B & Hj & HB); exists j, B; split; [lia|done]|].
  assert (Hcase : forall j, (k <= j)%nat -> j = k \/ (S k <= j)%nat) by lia.
  split; [|split].
  - intros j B Hj HB. destruct (Hcase j Hj) as [->|]; [|by apply N1]. rewrite N2 by lia. unfold upd. rewrite decide_True by done. congruence.
  - intros j Hj. rewrite N2 by lia. unfold upd. by rewrite !decide_False by lia.
  - intros j B x Hj HB Hx Hw. destruct (Hcase j Hj) as [->|]; [|by eapply L']. rewrite Hk in HB. injection HB as <-.
    eapply touching_lands; [exact R'| |by apply L1]. eapply not_from_space; [done|]. pose proof (within_region k A x Hk Hx Hw). destruct (extent_top A (list_elem_of_lookup_2 _ _ _ Hk)). lia.
Qed.

(** *** The final summary *)

(** The objects of the spaces before [k] have disjoint new places below the new tops [nw] of
    these spaces. *)
Definition placed (s : ParallelCompactData) (nw : nat -> Z) (k : nat) : Prop :=
  (forall i B x, (i < k)%nat -> L !! i = Some B -> x ∈ objs -> within B x ->
    exists v j A, lands H objs s x v /\ (j < k)%nat /\ L !! j = Some A /\ 65536 * ebeg A <= v /\ v + x.2 <= nw j /\ (j = i -> v <= x.1)) /\
  (forall i1 B1 x i2 B2 y v w, (i1 < k)%nat -> L !! i1 = Some B1 -> x ∈ objs -> within B1 x -> (i2 < k)%nat -> L !! i2 = Some B2 -> y ∈ objs -> within B2 y ->
    x.1 < y.1 -> lands H objs s x v -> lands H objs s y w -> v + x.2 <= w \/ w + y.2 <= v).
Definition tops_ok (nw : nat -> Z) : Prop := forall j A, L !! j = Some A -> nw j <= 65536 * eend A.

Lemma places_apart (i j : nat) (A B : Extent) (v n w m : Z) :
  L !! i = Some A -> L !! j = Some B -> i <> j -> 65536 * ebeg A <= v -> v + n <= 65536 * eend A -> 65536 * ebeg B <= w -> w + m <= 65536 * eend B -> v + n <= w \/ w + m <= v.
Proof using HL. intros HA HB Hne. destruct (extents_apart _ HL _ _ _ _ HA HB) as [|Hap]; [done|]. lia. Qed.

Lemma placed_extend (s s' : ParallelCompactData) (nw nw' : nat -> Z) (k : nat) (A : Extent) :
  placed s nw k -> L !! k = Some A -> (forall i B x v, (i < k)%nat -> L !! i = Some B -> x ∈ objs -> within B x -> lands H objs s x v -> lands H objs s' x v) ->
  (forall j, (j < k)%nat -> nw j <= nw' j) -> tops_ok nw' ->
  (forall x, x ∈ objs -> within A x ->
    exists v j B, lands H objs s' x v /\ (j <= k)%nat /\ L !! j = Some B /\ 65536 * ebeg B <= v /\ ((j < k)%nat -> nw j <= v) /\ v + x.2 <= nw' j /\ (j = k -> v <= x.1)) ->
  (forall x y v w, x ∈ objs -> y ∈ objs -> within A x -> within A y -> x.1 < y.1 -> lands H objs s' x v -> lands H objs s' y w -> v + x.2 <= w \/ w + y.2 <= v) ->
  placed s' nw' (S k).
Proof using HL.
  intros [P1 P2] Hk Hkeep Hmono Htops Hnew Hsep. assert (Hcase : forall i, (i < S k)%nat -> (i < k)%nat \/ i = k) by lia.
  assert (Hmix : forall i B x y v w, (i < k)%nat -> L !! i = Some B -> x ∈ objs -> within B x -> y ∈ objs -> within A y -> lands H objs s' x v -> lands H objs s' y w -> v + x.2 <= w \/ w + y.2 <= v).
  { intros i B x y v w Hi HB Hx Hwx Hy Hwy Hv Hw. destruct (P1 i B x Hi HB Hx Hwx) as (v0 & j & C & Hl & Hj & HC & Hb & Ht & _).
    rewrite (lands_unique H objs s' x v v0 Hv (Hkeep i B x v0 Hi HB Hx Hwx Hl)). destruct (Hnew y Hy Hwy) as (w0 & j' & C' & Hl' & Hj' & HC' & Hb' & Hge & Ht' & _).
    rewrite (lands_unique H objs s' y w w0 Hw Hl'). pose proof (Hmono j Hj). pose proof (Htops j C HC). pose proof (Htops j' C' HC'). destruct (decide (j = j')) as [<-|Hne]; [specialize (Hge Hj); lia|].
    eapply (places_apart j j' C C'); done || lia. }
  split.
  - intros i B x Hi HB Hx Hw. destruct (Hcase i Hi) as [Hik| ->].
    + destruct (P1 i B x Hik HB Hx Hw) as (v & j & C & Hl & Hj & HC & Hb & Ht & Hle). exists v, j, C. split; [by apply (Hkeep i B)|]. pose proof (Hmono j Hj). split; [lia|]. split; [done|]. split; [done|]. split; [lia|done].
    + rewrite Hk in HB. injection HB as <-. destruct (Hnew x Hx Hw) as (v & j & C & Hl & Hj & HC & Hb & _ & Ht & Hle). exists v, j, C. split; [done|]. split; [lia|]. done.
  - intros i1 B1 x i2 B2 y v w H1 HB1 Hx Hwx H2 HB2 Hy Hwy Hlt Hv Hw. destruct (Hcase i1 H1) as [Hi1| ->], (Hcase i2 H2) as [Hi2| ->].
    + destruct (P1 i1 B1 x Hi1 HB1 Hx Hwx) as (v0 & _ & _ & Hl & _). destruct (P1 i2 B2 y Hi2 HB2 Hy Hwy) as (w0 & _ & _ & Hl' & _).
      rewrite (lands_unique H objs s' x v v0 Hv (Hkeep i1 B1 x v0 Hi1 HB1 Hx Hwx Hl)), (lands_unique H objs s' y w w0 Hw (Hkeep i2 B2 y w0 Hi2 HB2 Hy Hwy Hl')). by eapply (P2 i1 B1 x i2 B2 y).
    + rewrite Hk in HB2. injection HB2 as <-. by eapply (Hmix i1 B1).
    + rewrite Hk in HB1. injection HB1 as <-. destruct (Hmix i2 B2 y x w v Hi2 HB2 Hy Hwy Hx Hwx Hw Hv); [by right|by left].
    + rewrite Hk in HB1, HB2. injection HB1 as <-. injection HB2 as <-. by apply Hsep.
Qed.

Lemma upd_addr (nw : nat -> Z) (k : nat) (a : Z) (j : nat) : upd (fun j => addr H (nw j)) k (addr H a) j = addr H (upd nw k a j).
Proof using. unfold upd. by destruct (decide (j = k)). Qed.
Lemma upd_same (nw : nat -> Z) (k : nat) (a : Z) : upd nw k a k = a.
Proof using. unfold upd. by rewrite decide_True. Qed.
Lemma upd_other (nw : nat -> Z) (k j : nat) (a : Z) : j <> k -> upd nw k a j = nw j.
Proof using. intros Hj. unfold upd. by rewrite decide_False. Qed.

Lemma lands_before (P : Z -> Prop) (s s' : ParallelCompactData) (k : nat) :
  related (touching P) s s' -> (forall r, P r -> from_space k r) ->
  forall i B x v, (i < k)%nat -> L !! i = Some B -> x ∈ objs -> within B x -> lands H objs s x v -> lands H objs s' x v.
Proof using HL Hok.
  intros R HP i B x v Hi HB Hx Hw. eapply touching_lands; [exact R|]. intros Hr. apply HP in Hr as (j & C & Hj & HC & Hrc). pose proof (within_region i B x HB Hx Hw) as Hreg.
  destruct (extent_top B (list_elem_of_lookup_2 _ _ _ HB)). destruct (extents_apart _ HL _ _ _ _ HB HC) as [|Hap]; lia.
Qed.

Section Young.
Context (c : PSParallelCompact) (nw : nat -> Z) (k dst : nat) (A Ad : Extent).
Context (Hs : spaces L c (fun j => addr H (nw j))) (Hk : L !! k = Some A) (Hdst : L !! dst = Some Ad) (Hdk : (dst < k)%nat).
Context (Ht : tables H N (_summary_data c)) (Hc : counts H objs (_summary_data c) (ebeg A) (eend A)).
Context (Htops : tops_ok nw) (Hd0 : 65536 * ebeg Ad <= nw dst) (Hpl : placed (_summary_data c) nw k).

(** A space without live objects. *)
Lemma young_empty : live_of A = 0 -> placed (_summary_data c) nw (S k).
Proof using HL Hok Hsp Hk Hdk Htops Hpl.
  intros Hz. assert (Hno : forall x, x ∈ objs -> ~ within A x).
  { intros x Hx [H1 H2]. pose proof (objects_pos _ Hok x Hx). destruct (extent_top A (list_elem_of_lookup_2 _ _ _ Hk)). pose proof (live_in_nonneg objs (65536 * ebeg A) x.1).
    pose proof (slide_inside objs Hok (65536 * ebeg A) (65536 * regions_up (etop A)) x Hx ltac:(lia) ltac:(lia)). unfold live_of in Hz. lia. }
  eapply placed_extend; [exact Hpl|exact Hk|done|done|done| |]; [intros x Hx Hw|intros x y v w Hx Hy Hw]; by destruct (Hno x Hx).
Qed.

(** All live words fit into the target. *)
Lemma young_fits : live_of A <= 65536 * eend Ad - nw dst ->
  exists c1 c2, summarize_all c (Z.of_nat k) (addr H (65536 * ebeg A)) (addr H (etop A)) (addr H (nw dst)) (addr H (65536 * eend Ad)) (Z.of_nat dst) = Some c1 /\
    update_space c1 (Z.of_nat k) (set_new_top (addr H (65536 * ebeg A))) = Some c2 /\ _mark_bitmap c2 = _mark_bitmap c /\
    let nw' := upd (upd nw dst (nw dst + live_of A)) k (65536 * ebeg A) in
    spaces L c2 (fun j => addr H (nw' j)) /\ tops_ok nw' /\ related (touching (from_space k)) (_summary_data c) (_summary_data c2) /\ placed (_summary_data c2) nw' (S k).
Proof using HH H19 HN HL Hok Hsp Hs Hk Hdst Hdk Ht Hc Htops Hd0 Hpl.
  intros Hfit. pose proof (list_elem_of_lookup_2 _ _ _ Hk) as HA. destruct (extent_range _ HL A HA), (extent_range _ HL Ad (list_elem_of_lookup_2 _ _ _ Hdst)), (extent_top A HA). pose proof (live_of_fits k A Hk).
  assert (Hcf : counts_from objs (_summary_data c) (65536 * ebeg A) (ebeg A) (regions_up (etop A))).
  { apply (counts_counts_from H). intros r Hr. apply Hc. lia. }
  destruct (summarize_all_ok c _ k dst A Ad (65536 * ebeg A) (nw dst) (65536 * eend Ad) Hs Hk Hdst Ht) as (c1 & He & M1 & Hs1 & R1); try lia; [by rewrite region_of_start|unfold live_of in *; lia|].
  rewrite region_of_start in R1. change (live_in objs (65536 * ebeg A) (65536 * regions_up (etop A))) with (live_of A) in Hs1.
  destruct (update_space_ok c1 _ k A (set_new_top (addr H (65536 * ebeg A))) (addr H (65536 * ebeg A)) Hs1 Hk) as (c2 & i & Hu & M2 & D2 & Hs2 & _); [done|].
  exists c1, c2. split; [done|]. split; [done|]. split; [congruence|]. cbn zeta. set (nw' := upd _ k _).
  assert (Hdn : nw' dst = nw dst + live_of A) by (unfold nw'; rewrite upd_other, upd_same by lia; done).
  assert (Htn : tops_ok nw').
  { intros j B HB. unfold nw', upd. destruct (decide (j = k)) as [->|]; [rewrite Hk in HB; injection HB as <-; lia|]. destruct (decide (j = dst)) as [->|]; [rewrite Hdst in HB; injection HB as <-; lia|by apply Htops]. }
  assert (R2 : related (touching (from_space k)) (_summary_data c) (_summary_data c2)) by (rewrite D2; eapply slid_touching; [exact Hk| | |exact R1]; lia).
  assert (Hl : forall x, x ∈ objs -> within A x -> lands H objs (_summary_data c2) x (nw dst + live_in objs (65536 * ebeg A) x.1)).
  { intros x Hx Hw. rewrite D2. eapply slide_lands; [done|exact Hcf|exact R1|done|done|by eapply within_region]. }
  split; [eapply spaces_ext; [|exact Hs2]; intros j; unfold nw'; rewrite <- !upd_addr; unfold upd; destruct (decide (j = k)), (decide (j = dst)); done|]. split; [done|]. split; [done|].
  eapply placed_extend; [exact Hpl|exact Hk|by eapply lands_before| |done| |].
  - intros j Hj. destruct (decide (j = dst)) as [->|]; [lia|]. unfold nw'. rewrite !upd_other by lia. lia.
  - intros x Hx Hw. exists (nw dst + live_in objs (65536 * ebeg A) x.1), dst, Ad. split; [by apply Hl|]. split; [lia|]. split; [done|]. pose proof (live_in_nonneg objs (65536 * ebeg A) x.1).
    destruct Hw as [Hw1 Hw2]. pose proof (slide_inside objs Hok (65536 * ebeg A) (65536 * regions_up (etop A)) x Hx ltac:(lia) ltac:(lia)). unfold live_of in *. lia.
  - intros x y v w Hx Hy Hwx Hwy Hlt Hv Hw. rewrite (lands_unique _ _ _ _ _ _ Hv (Hl x Hx Hwx)), (lands_unique _ _ _ _ _ _ Hw (Hl y Hy Hwy)). left.
    pose proof (slide_apart objs Hok (65536 * ebeg A) x y Hx Hy ltac:(apply Hwx) Hlt). lia.
Qed.

Lemma lands_outside (R : Z -> RegionData -> RegionData -> Prop) (s s' : ParallelCompactData) :
  related R s s' -> (forall j rd rd', j < ebeg A \/ eend A <= j -> R j rd rd' -> like rd rd') ->
  forall i B x v, (i < k)%nat -> L !! i = Some B -> x ∈ objs -> within B x -> lands H objs s x v -> lands H objs s' x v.
Proof using HL Hok Hk Hdk.
  intros Hrel HR i B x v Hi HB Hx Hw. eapply lands_related; [exact Hrel|]. intros rd rd'. apply HR. pose proof (within_region i B x HB Hx Hw).
  destruct (extent_top B (list_elem_of_lookup_2 _ _ _ HB)). destruct (extents_apart _ HL _ _ _ _ HB Hk) as [|Hap]; lia.
Qed.

(** The regions from a split on count the words behind it. *)
Lemma split_counts (s s1 : ParallelCompactData) (q : Z) :
  counts H objs s (ebeg A) (eend A) -> ebeg A <= q < regions_up (etop A) -> related (split_at H objs (ebeg A) (regions_up (etop A)) (nw dst) q) s s1 ->
  counts_from objs s1 (partial_end objs q) q (regions_up (etop A)).
Proof using HL Hok Hk Hdk.
  intros Hcs Hq (_ & _ & _ & R1) r Hr. destruct (extent_top A (list_elem_of_lookup_2 _ _ _ Hk)). destruct (Hcs r ltac:(lia)) as (rd & Hrd & [C1 C2 _ C4 _]). destruct (R1 r rd Hrd) as (rd' & Hrd' & B1 & _).
  exists rd'. split; [done|]. pose proof (partial_in_range objs Hok q). destruct (Z.eqb_spec r q) as [->|Hne].
  - destruct B1 as (B1 & B2 & B3). split; [congruence|]. split; [congruence|]. by right.
  - destruct B1 as (B1 & _ & B3 & B4 & _). split; [congruence|]. split; [congruence|]. left. split; [|congruence]. unfold partial_end. lia.
Qed.

(** The two runs of a space that is split at region [q]. *)
Lemma split_runs (s s1 s2 : ParallelCompactData) (q : Z) :
  let fin := regions_up (etop A) in
  let pe := partial_end objs q in
  counts H objs s (ebeg A) (eend A) -> ebeg A <= q < fin -> partial_in objs q < 65536 ->
  related (split_at H objs (ebeg A) fin (nw dst) q) s s1 -> related (slid_by H q fin (fun j => 65536 * ebeg A + live_in objs pe (65536 * j))) s1 s2 ->
  related (fun j rd rd' => j < ebeg A \/ eend A <= j -> like rd rd') s s2 /\
  (forall x, x ∈ objs -> within A x -> x.1 < pe -> lands H objs s2 x (nw dst + live_in objs (65536 * ebeg A) x.1)) /\
  (forall x, x ∈ objs -> within A x -> pe <= x.1 -> lands H objs s2 x (65536 * ebeg A + live_in objs pe x.1)).
Proof using HL Hok Hk Hdk.
  cbn zeta. destruct (extent_range _ HL A (list_elem_of_lookup_2 _ _ _ Hk)), (extent_top A (list_elem_of_lookup_2 _ _ _ Hk)).
  set (fin := regions_up (etop A)) in *. set (pe := partial_end objs q). intros Hcs Hq Hpq R1 R2.
  pose proof (split_counts s s1 q Hcs Hq R1) as Hcf. fold fin pe in Hcf.
  set (R := fun j rd rd' => (j < ebeg A \/ fin <= j -> like rd rd') /\ (ebeg A <= j < q -> slid_by H (ebeg A) q (fun j => nw dst + live_in objs (65536 * ebeg A) (65536 * j)) j rd rd')).
  assert (Hboth : related R s s2).
  { eapply related_trans; [exact R1|exact R2|]. intros j r1 r2 r3 (B1 & B2 & B3) [C1 C2]. split; intros Hj.
    - destruct (Z.eqb_spec j q); [lia|]. destruct (Z.leb_spec q j), (Z.ltb_spec j fin); cbn [andb] in C2; try lia; (split; [by eapply same_counts_trans|rewrite C2; by apply B2]).
    - destruct (Z.eqb_spec j q); [lia|]. destruct (Z.leb_spec q j); [lia|]. cbn [andb] in C2. split; [by eapply same_counts_trans|]. rewrite C2, B3 by lia.
      destruct (Z.leb_spec (ebeg A) j), (Z.ltb_spec j q); cbn [andb]; done || lia. }
  split; [eapply related_weaken; [|exact Hboth]; intros j rd rd' _ [HR _] Hj; apply HR; lia|]. split; intros x Hx Hw Hpe; pose proof (objects_pos _ Hok x Hx).
  - assert (Hxq : x.1 < 65536 * q) by (pose proof (partial_end_no_start objs Hok q x Hx); unfold pe in *; lia).
    assert (Hcb : counts_from objs s (65536 * ebeg A) (ebeg A) q) by (apply (counts_counts_from H); intros r Hr; apply Hcs; lia).
    eapply slide_lands; [done|exact Hcb|exact Hboth| |done|]; [intros j rd rd' Hj [_ HR]; by apply HR|]. destruct Hw. split; [apply Z.div_le_lower_bound|apply Z.div_lt_upper_bound]; lia.
  - eapply slide_lands; [done|exact Hcf|exact R2|done|done|]. pose proof (within_region k A x Hk Hx Hw). pose proof (partial_in_range objs Hok q). split; [apply Z.div_le_lower_bound; unfold pe, partial_end in *; lia|lia].
Qed.

Lemma partial_end_top (q : Z) : ebeg A <= q < regions_up (etop A) -> partial_end objs q <= etop A.
Proof using HL Hok Hsp Hk Hdk.
  intros Hq. unfold partial_end. pose proof (regions_up_spec (etop A)). destruct (extent_top A (list_elem_of_lookup_2 _ _ _ Hk)).
  destruct (partial_in_cases objs Hok q) as [[Hp _]|(x & Hx & Hxr & Hp)]; [lia|]. destruct (within_space k A x Hk Hx ltac:(lia) ltac:(lia)). lia.
Qed.

(** A part of the live words fits into the target, the others into the space itself. *)
Lemma young_splits (info : SplitInfo) : info_ok H N info -> 65536 * eend Ad - nw dst < live_of A ->
  exists s1 info1 sn tn c1 c2 c3, summarize (_summary_data c) info (addr H (65536 * ebeg A)) (addr H (etop A)) (addr H (nw dst)) (addr H (65536 * eend Ad)) = Some (Splits s1 info1 sn tn) /\
    update_space (with_summary c s1) (Z.of_nat k) (set_split_info info1) = Some c1 /\ update_space c1 (Z.of_nat dst) (set_new_top tn) = Some c2 /\
    summarize_all c2 (Z.of_nat k) sn (addr H (etop A)) (addr H (65536 * ebeg A)) (addr H (65536 * eend A)) (Z.of_nat k) = Some c3 /\ _mark_bitmap c3 = _mark_bitmap c /\
    exists nw', spaces L c3 (fun j => addr H (nw' j)) /\ tops_ok nw' /\ 65536 * ebeg A <= nw' k /\ (forall j, (k < j)%nat -> nw' j = nw j) /\
      related (fun j rd rd' => j < ebeg A \/ eend A <= j -> like rd rd') (_summary_data c) (_summary_data c3) /\ placed (_summary_data c3) nw' (S k).
Proof using HH H19 HN HL Hok Hsp Hs Hk Hdst Hdk Ht Hc Htops Hd0 Hpl.
  intros Hinfo Hov. pose proof (list_elem_of_lookup_2 _ _ _ Hk) as HA. destruct (extent_range _ HL A HA), (extent_range _ HL Ad (list_elem_of_lookup_2 _ _ _ Hdst)), (extent_top A HA). pose proof (live_of_fits k A Hk).
  pose proof (Htops dst Ad Hdst) as Hdt.
  destruct (summarize_splits H N HH H19 HN objs Hok (ebeg A) (regions_up (etop A)) (nw dst) (65536 * eend Ad)) with (s := _summary_data c) (info := info) (top := etop A)
    as (s1 & info1 & q & He & Hi1 & Hq & Hpq & Hfit & R1); try done; try lia.
  { by eapply space_boundary. } { intros r Hr. apply Hc. lia. } { unfold live_of in *. lia. }
  pose proof (partial_end_top q Hq) as Hpt. set (pe := partial_end objs q) in *. pose proof (partial_in_range objs Hok q). assert (Hpq' : pe / 65536 = q) by (unfold pe, partial_end; apply div_add_small; lia).
  pose proof (split_counts (_summary_data c) s1 q Hc Hq R1) as Hcf. fold pe in Hcf.
  assert (Hs1 : spaces L (with_summary c s1) (fun j => addr H (nw j))) by done.
  destruct (update_space_ok (with_summary c s1) _ k A (set_split_info info1) (addr H (nw k)) Hs1 Hk) as (c1 & i1 & E1 & M1 & D1 & Hsp1 & _); [intros i' (S1 & S2 & S3 & S4) Hn; by split|].
  destruct (update_space_ok c1 _ dst Ad (set_new_top (addr H (nw dst + live_in objs (65536 * ebeg A) pe))) (addr H (nw dst + live_in objs (65536 * ebeg A) pe)) Hsp1 Hdst) as (c2 & i2 & E2 & M2 & D2 & Hsp2 & _); [done|].
  assert (D12 : _summary_data c2 = s1) by (rewrite D2, D1; done).
  pose proof (live_in_bound objs Hok pe (65536 * (regions_up (etop A))) ltac:(unfold pe, partial_end in *; lia)). pose proof (live_in_nonneg objs pe (65536 * (regions_up (etop A)))).
  assert (Hlt : live_in objs pe (65536 * (regions_up (etop A))) <= etop A - pe) by (rewrite (live_of_top k A pe Hk) by (unfold pe, partial_end in *; lia); apply live_in_bound; done).
  assert (Hpe0 : 65536 * ebeg A <= pe) by (unfold pe, partial_end; lia).
  destruct (summarize_all_ok c2 _ k k A A pe (65536 * ebeg A) (65536 * eend A) Hsp2 Hk Hk) as (c3 & E3 & M3 & Hsp3 & R3); try lia; try (rewrite D12).
  { eapply related_tables; [exact R1|done]. } { by rewrite Hpq'. }
  rewrite D12, Hpq' in R3.  destruct (split_runs (_summary_data c) s1 (_summary_data c3) q Hc Hq Hpq R1 R3) as (Hout & Hl1 & Hl2). fold pe in Hl1, Hl2.
  exists s1, info1, (addr H pe), (addr H (nw dst + live_in objs (65536 * ebeg A) pe)), c1, c2, c3. split; [done|]. split; [done|]. split; [done|]. split; [done|]. split; [rewrite M3, M2, M1; done|].
  set (nw' := upd (upd nw dst (nw dst + live_in objs (65536 * ebeg A) pe)) k (65536 * ebeg A + live_in objs pe (65536 * (regions_up (etop A))))). exists nw'.
  assert (Hnd : nw' dst = nw dst + live_in objs (65536 * ebeg A) pe) by (unfold nw'; rewrite upd_other, upd_same by lia; done).
  assert (Hnk : nw' k = 65536 * ebeg A + live_in objs pe (65536 * regions_up (etop A))) by apply upd_same.
  assert (Hno : forall j, j <> k -> j <> dst -> nw' j = nw j) by (intros j Hj1 Hj2; unfold nw'; by rewrite !upd_other).
  pose proof (live_in_nonneg objs (65536 * ebeg A) pe).
  assert (Htn : tops_ok nw').
  { intros j B HB. destruct (decide (j = k)) as [->|]; [rewrite Hk in HB; injection HB as <-; lia|]. destruct (decide (j = dst)) as [->|]; [rewrite Hdst in HB; injection HB as <-; lia|]. rewrite Hno by done. by apply Htops. }
  split; [eapply spaces_ext; [|exact Hsp3]; intros j; unfold nw'; rewrite <- !upd_addr; unfold upd; destruct (decide (j = k)), (decide (j = dst)); try done; by subst|].
  split; [done|]. split; [lia|]. split; [intros j Hj; apply Hno; lia|]. split; [done|].
  eapply placed_extend; [exact Hpl|exact Hk|eapply lands_outside; [exact Hout|]; auto| |done| |].
  - intros j Hj. destruct (decide (j = dst)) as [->|]; [lia|]. rewrite Hno by lia. lia.
  - intros x Hx Hw. pose proof Hw as [Hw1 Hw2]. destruct (Z.lt_ge_cases x.1 pe) as [Hlt1|Hge1].
    + exists (nw dst + live_in objs (65536 * ebeg A) x.1), dst, Ad. split; [by apply Hl1|]. split; [lia|]. split; [done|]. pose proof (live_in_nonneg objs (65536 * ebeg A) x.1).
      pose proof (slide_inside objs Hok (65536 * ebeg A) pe x Hx Hw1 (partial_end_boundary objs Hok q Hpq x Hx Hlt1)). lia.
    + exists (65536 * ebeg A + live_in objs pe x.1), k, A. split; [by apply Hl2|]. split; [lia|]. split; [done|]. pose proof (live_in_nonneg objs pe x.1).
      pose proof (slide_inside objs Hok pe (65536 * regions_up (etop A)) x Hx Hge1 ltac:(lia)). pose proof (live_in_bound objs Hok pe x.1 Hge1). lia.
  - intros x y v w Hx Hy Hwx Hwy Hxy Hv Hw. destruct (Z.lt_ge_cases x.1 pe) as [Hx1|Hx1], (Z.lt_ge_cases y.1 pe) as [Hy1|Hy1]; try lia.
    + rewrite (lands_unique _ _ _ _ _ _ Hv (Hl1 x Hx Hwx Hx1)), (lands_unique _ _ _ _ _ _ Hw (Hl1 y Hy Hwy Hy1)). pose proof (slide_apart objs Hok (65536 * ebeg A) x y Hx Hy ltac:(apply Hwx) Hxy). lia.
    + rewrite (lands_unique _ _ _ _ _ _ Hv (Hl1 x Hx Hwx Hx1)), (lands_unique _ _ _ _ _ _ Hw (Hl2 y Hy Hwy Hy1)). pose proof (live_in_nonneg objs (65536 * ebeg A) x.1). pose proof (live_in_nonneg objs pe y.1).
      pose proof (slide_inside objs Hok (65536 * ebeg A) pe x Hx ltac:(apply Hwx) (partial_end_boundary objs Hok q Hpq x Hx Hx1)). destruct Hwy as [Hwy1 Hwy2].
      pose proof (slide_inside objs Hok pe (65536 * regions_up (etop A)) y Hy Hy1 ltac:(lia)). eapply (places_apart dst k Ad A); done || lia.
    + rewrite (lands_unique _ _ _ _ _ _ Hv (Hl2 x Hx Hwx Hx1)), (lands_unique _ _ _ _ _ _ Hw (Hl2 y Hy Hwy Hy1)). pose proof (slide_apart objs Hok pe x y Hx Hy Hx1 Hxy). lia.
Qed.
End Young.

(** The spaces from [k] on are yet to be summarized. *)
Definition ready (s : ParallelCompactData) (nw : nat -> Z) (k : nat) : Prop :=
  forall j B, (k <= j)%nat -> L !! j = Some B -> counts H objs s (ebeg B) (eend B) /\ nw j = 65536 * ebeg B + live_of B.

Lemma ready_next (R : Z -> RegionData -> RegionData -> Prop) (s s' : ParallelCompactData) (nw nw' : nat -> Z) (k : nat) (A : Extent) :
  L !! k = Some A -> related R s s' -> (forall j rd rd', j < ebeg A \/ eend A <= j -> R j rd rd' -> same_counts rd rd') -> (forall j, (k < j)%nat -> nw' j = nw j) ->
  ready s nw k -> ready s' nw' (S k).
Proof using HL.
  intros Hk Hrel HR Hnw Hready j B Hj HB. destruct (Hready j B ltac:(lia) HB) as [Hc Hn]. split; [|rewrite Hnw by lia; done].
  eapply counts_related; [exact Hrel| |done]. intros r rd rd' Hr. apply HR. destruct (extents_apart _ HL _ _ _ _ Hk HB) as [|Hap]; lia.
Qed.

Lemma young_loop_ok (n k : nat) (c : PSParallelCompact) (nw : nat -> Z) (dst : nat) (Ad : Extent) :
  (k + n = length L)%nat -> spaces L c (fun j => addr H (nw j)) -> (dst < k)%nat -> L !! dst = Some Ad -> tables H N (_summary_data c) -> ready (_summary_data c) nw k ->
  tops_ok nw -> 65536 * ebeg Ad <= nw dst -> placed (_summary_data c) nw k ->
  exists c' nw', summarize_young_loop n c (Z.of_nat k) (Z.of_nat dst) (addr H (65536 * eend Ad)) = Some c' /\ spaces L c' (fun j => addr H (nw' j)) /\ _mark_bitmap c' = _mark_bitmap c /\
    tables H N (_summary_data c') /\ _block_data (_summary_data c') = _block_data (_summary_data c) /\ tops_ok nw' /\ placed (_summary_data c') nw' (length L).
Proof using HH H19 HN HL Hok Hsp.
  revert k c nw dst Ad. induction n as [|n IH]; intros k c nw dst Ad Hlen Hs Hdk Hdst Ht Hready Htops Hd0 Hpl; cbn [summarize_young_loop].
  { exists c, nw. replace (length L) with k by lia. done. }
  destruct (lookup_lt_is_Some_2 L k) as [A Hk]; [lia|]. destruct (Hready k A ltac:(lia) Hk) as [Hc Hnk]. destruct (Hs k A Hk) as (i & Hi & (S1 & S2 & S3 & S4) & Hni). destruct (Hs dst Ad Hdst) as (d & Hd & _ & Hnd).
  rewrite Hi. cbn [mbind option_bind]. rewrite Hd. cbn [mbind option_bind]. rewrite Hni, Hnd, S1, S2, S3, Hnk.
  destruct (extent_range _ HL A (list_elem_of_lookup_2 _ _ _ Hk)), (extent_range _ HL Ad (list_elem_of_lookup_2 _ _ _ Hdst)). pose proof (live_of_fits k A Hk). pose proof (Htops dst Ad Hdst). pow2_norm.
  rewrite !(words_between_addr H HH) by (pow2_norm; lia). replace (65536 * ebeg A + live_of A - 65536 * ebeg A) with (live_of A) by lia.
  replace (Z.of_nat k + 1) with (Z.of_nat (S k)) by lia.
  destruct (Z.ltb_spec 0 (live_of A)) as [Hpos|]; cbn [andb].
  2: { destruct (IH (S k) c nw dst Ad) as (c' & nw' & HIH); try done; try lia; [intros j B Hj; apply Hready; lia|eapply young_empty; done || lia|]. by exists c', nw'. }
  destruct (Z.leb_spec (live_of A) (65536 * eend Ad - nw dst)) as [Hfit|Hov].
  - destruct (young_fits c nw k dst A Ad) as (c1 & c2 & -> & E2 & M2 & Hs2 & Ht2 & R2 & P2); try done. cbn [mbind option_bind]. rewrite E2. cbn [mbind option_bind].
    destruct (IH (S k) c2 (upd (upd nw dst (nw dst + live_of A)) k (65536 * ebeg A)) dst Ad) as (c' & nw' & E & Q1 & Q2 & Q3 & Q4 & Q5); try done; try lia.
    + by eapply related_tables.
    + eapply ready_next; [exact Hk|exact R2|by intros j rd rd' _ [? _]| |exact Hready]. intros j Hj. by rewrite !upd_other by lia.
    + rewrite upd_other, upd_same by lia. lia.
    + exists c', nw'. split; [done|]. split; [done|]. split; [congruence|]. split; [done|]. split; [rewrite Q4; apply R2|done].
  - destruct (young_splits c nw k dst A Ad Hs Hk Hdst Hdk Ht Hc Htops Hd0 Hpl (split_info i) S4 ltac:(lia)) as (s1 & info1 & sn & tn & c1 & c2 & c3 & -> & E1 & E2 & E3 & M3 & nw1 & Hs3 & Ht3 & Hn3 & Hno & R3 & P3).
    cbn [mbind option_bind]. rewrite E1. cbn [mbind option_bind]. rewrite E2. cbn [mbind option_bind]. rewrite E3. cbn [mbind option_bind].
    destruct (IH (S k) c3 nw1 k A) as (c' & nw' & E & Q1 & Q2 & Q3 & Q4 & Q5); try done; try lia.
    + by eapply related_tables.
    + eapply ready_next; [exact Hk|exact R3| |exact Hno|exact Hready]. intros j rd rd' Hj HR. by destruct (HR Hj).
    + exists c', nw'. split; [done|]. split; [done|]. split; [congruence|]. split; [done|]. split; [rewrite Q4; apply R3|done].
Qed.
End Objs.

(** *** The dense prefix *)

Lemma middle_range (left right : Z) : left < right -> left <= left + (right - left) / 2 < right.
Proof using. intros Hlt. pose proof (Z.div_pos (right - left) 2 ltac:(lia) ltac:(lia)). pose proof (Z.div_lt (right - left) 2 ltac:(lia) ltac:(lia)). lia. Qed.

Lemma first_dead_loop_ok (fuel : nat) (s : ParallelCompactData) (left right : Z) :
  right - left <= Z.of_nat fuel -> 0 <= left <= right -> right < region_count s -> exists r, first_dead_loop fuel s left right = Some r /\ left <= r <= right.
Proof using.
  revert left right. induction fuel as [|fuel IH]; intros left right Hf Hl Hr; cbn [first_dead_loop]; (destruct (Z.ltb_spec left right) as [Hlt|]; [|exists left; split; [done|lia]]); [lia|].
  pose proof (middle_range left right Hlt) as Hm. set (middle := left + (right - left) / 2) in *. destruct (region_in s middle) as [rd ->]; [lia|]. cbn [mbind option_bind].
  destruct (Z.ltb_spec left middle), (Z.ltb_spec middle right); cbn [andb]; try lia.
  1: destruct (_ <? _); [destruct (IH left (middle - 1)) as (r & He & Hr'); try lia; exists r; split; [done|lia]|].
  all: destruct (_ =? _); [destruct (IH (middle + 1) right) as (r & He & Hr'); try lia; exists r; split; [done|lia]|exists middle; split; [done|lia]].
Qed.

Lemma dead_wood_limit_loop_ok (fuel : nat) (s : ParallelCompactData) (dead_words left right : Z) :
  right - left <= Z.of_nat fuel -> 0 <= left <= right -> right < region_count s -> exists r, dead_wood_limit_loop fuel s dead_words left right = Some r /\ left <= r <= right.
Proof using.
  revert left right. induction fuel as [|fuel IH]; intros left right Hf Hl Hr; cbn [dead_wood_limit_loop]; (destruct (Z.ltb_spec left right) as [Hlt|]; [|exists left; split; [done|lia]]); [lia|].
  pose proof (middle_range left right Hlt) as Hm. set (middle := left + (right - left) / 2) in *. destruct (region_in s middle) as [rd ->]; [lia|]. cbn [mbind option_bind].
  destruct (Z.ltb_spec left middle), (Z.ltb_spec middle right); cbn [andb]; try lia.
  1: destruct (_ <? _); [destruct (IH left (middle - 1)) as (r & He & Hr'); try lia; exists r; split; [done|lia]|].
  all: destruct (_ <? _); [destruct (IH (middle + 1) right) as (r & He & Hr'); try lia; exists r; split; [done|lia]|exists middle; split; [done|lia]].
Qed.

Lemma best_ratio_loop_ok (n : nat) (s : ParallelCompactData) (i : SpaceInfo) (cp best : Z) (ratio : spec_float) :
  0 <= cp -> cp + Z.of_nat n <= region_count s -> exists r, best_ratio_loop n s i cp best ratio = Some r /\ (r = best \/ cp <= r < cp + Z.of_nat n).
Proof using.
  revert cp best ratio. induction n as [|n IH]; intros cp best ratio Hc Hn; cbn [best_ratio_loop]; [exists best; split; [done|by left]|].
  destruct (region_in s cp) as [rd ->]; [lia|]. cbn [mbind option_bind]. destruct (SFltb _ _).
  - destruct (IH (cp + 1) cp (reclaimed_ratio s cp rd (bottom i) (top i) (new_top i))) as (r & -> & Hr); [lia|lia|]. exists r. split; [done|]. lia.
  - destruct (IH (cp + 1) best ratio) as (r & -> & Hr); [lia|lia|]. exists r. split; [done|]. lia.
Qed.

Section DensePrefix.
Context (exp : spec_float -> spec_float) (out_of_range HeapMaximumCompactionInterval HeapFirstMaximumCompactionCount MarkSweepDeadRatio : Z).

(** The dense prefix ends at the start of a region below the top of the space. *)
Lemma compute_dense_prefix_ok (c : PSParallelCompact) (nt : nat -> Z) (k : nat) (A : Extent) (w : Z) (maximum_compaction : bool) :
  spaces L c nt -> L !! k = Some A -> tables H N (_summary_data c) -> nt k = addr H (65536 * ebeg A + w) -> 0 < w <= etop A - 65536 * ebeg A ->
  exists dp c', compute_dense_prefix exp out_of_range HeapMaximumCompactionInterval HeapFirstMaximumCompactionCount MarkSweepDeadRatio c (Z.of_nat k) maximum_compaction = Some (addr H (65536 * dp), c') /\
    ebeg A <= dp /\ 65536 * dp < etop A /\ _mark_bitmap c' = _mark_bitmap c /\ _summary_data c' = _summary_data c /\ _space_info c' = _space_info c.
Proof using HH H19 HN HL.
  intros Hs Hk Ht Hnt Hw. pose proof (list_elem_of_lookup_2 _ _ _ Hk) as HA. destruct (extent_range _ HL A HA), (extent_top A HA) as [Htop1 Htop2]. pose proof Ht as [T1 T2].
  destruct (Hs k A Hk) as (i & Hi & (S1 & S2 & S3 & _) & Hni). unfold compute_dense_prefix. rewrite Hi. cbn [mbind option_bind]. rewrite S1, S2, S3, Hni, Hnt.
  pose proof (regions_up_spec (65536 * ebeg A + w)) as Hup. pose proof (regions_up_spec (etop A)) as Hupt. set (nr := regions_up (65536 * ebeg A + w)) in *. set (tr := regions_up (etop A)) in *. pow2_norm.
  rewrite !(region_align_up_addr H HH H19) by (pow2_norm; lia). fold nr tr. rewrite !(region_idx_addr H HH _ T1), !region_of_start by (pow2_norm; lia).
  assert (Hnr : ebeg A < nr <= tr) by lia. unfold first_dead_space_region. destruct (Z.ltb_spec (ebeg A) nr); [|lia].
  destruct (first_dead_loop_ok (Z.to_nat (nr - 1 - ebeg A)) (_summary_data c) (ebeg A) (nr - 1)) as (full & -> & Hfull); [lia|lia|lia|]. cbn [mbind option_bind].
  destruct (_ || _ || _).
  { exists full. eexists. rewrite (region_to_addr_eq H _ T1) by (pow2_norm; lia). split; [done|]. split; [lia|]. split; [lia|done]. }
  set (lim := Z.min _ _). clearbody lim. unfold dead_wood_limit_region. destruct (Z.ltb_spec full tr); [|lia].
  destruct (dead_wood_limit_loop_ok (Z.to_nat (tr - 1 - full)) (_summary_data c) lim full (tr - 1)) as (lcp & -> & Hl); [lia|lia|lia|]. cbn [mbind option_bind].
  destruct (best_ratio_loop_ok (Z.to_nat (lcp - full)) (_summary_data c) i full full (double_of 0)) as (best & -> & Hbest); [lia|lia|]. cbn [mbind option_bind].
  exists best. eexists. rewrite (region_to_addr_eq H _ T1) by (pow2_norm; lia). split; [done|]. split; [lia|]. split; [lia|done].
Qed.

(** No live object covers the word [w]. *)
Definition dead (objs : list (Z * Z)) (w : Z) : Prop := forall x, x ∈ objs -> ~ x.1 <= w < obj_end x.

Lemma dead_objects_ok (objs : list (Z * Z)) (f : Z * Z) :
  objects_ok objs -> 0 <= f.1 -> 0 < f.2 -> (forall w, f.1 <= w < obj_end f -> dead objs w) -> objects_ok (f :: objs).
Proof using.
  intros Hok Hf0 Hf1 Hdead.
  assert (Hap : forall y, y ∈ objs -> obj_end f <= y.1 \/ obj_end y <= f.1).
  { intros y Hy. pose proof (objects_pos _ Hok y Hy). destruct (Z.le_gt_cases (obj_end f) y.1), (Z.le_gt_cases (obj_end y) f.1); try lia.
    exfalso. apply (Hdead (Z.max f.1 y.1)) with y; unfold obj_end in *; done || lia. }
  split.
  - intros x Hx. apply elem_of_cons in Hx as [->|Hx]; [done|by apply (objects_pos _ Hok)].
  - apply list.NoDup_cons. split; [|apply Hok]. intros Hx. apply (Hdead f.1) with f; unfold obj_end; done || lia.
  - intros x y Hx Hy. apply elem_of_cons in Hx as [->|Hx]; apply elem_of_cons in Hy as [->|Hy]; [by left|right; by apply Hap|destruct (Hap x Hx); lia|by apply (objects_apart _ Hok)].
Qed.

Section Filler.
Context (objs : list (Z * Z)) (Hok : objects_ok objs) (m : ParMarkBitMap) (Hm : marked H N m objs) (dp : Z) (Hdp : 0 < dp < N).

Lemma end_bit_ok (w : Z) : 0 <= w < 65536 * N -> exists b, is_obj_end m w = Some b /\ (b = true <-> exists x, x ∈ objs /\ obj_end x = w + 1).
Proof using Hm.
  intros Hw. destruct (marked_wf _ _ _ _ Hm) as [_ Hwf], (marked_size _ _ _ _ Hm) as [_ Hsz]. exists (bit (_end_bits m) w). split; [apply at_spec; [done|lia]|by apply (marked_end _ _ _ _ Hm)].
Qed.

Lemma dead_left (w : Z) : dead objs w -> (~ exists x, x ∈ objs /\ obj_end x = w - 1 + 1) -> dead objs (w - 1).
Proof using. intros Hd Hno x Hx Hc. destruct (Z.eq_dec (obj_end x) w); [apply Hno; exists x; split; [done|lia]|]. apply (Hd x Hx). lia. Qed.

(** The words on both sides of the boundary are dead. *)
Lemma crosses_ok (c : PSParallelCompact) (rd : RegionData) :
  _mark_bitmap c = m -> partial_obj_size rd = partial_in objs dp ->
  exists b, dead_space_crosses_boundary c rd (65536 * dp) = Some b /\ (b = true -> dead objs (65536 * dp) /\ dead objs (65536 * dp - 1)).
Proof using Hok Hm Hdp.
  intros Hcm Hp. unfold dead_space_crosses_boundary. rewrite Hcm, Hp. destruct (Z.eqb_spec (partial_in objs dp) 0) as [Hz|]; [|by exists false].
  destruct (marked_wf _ _ _ _ Hm) as [Hwf _], (marked_size _ _ _ _ Hm) as [Hsz _]. unfold is_obj_beg. rewrite at_spec by (done || lia). cbn [mbind option_bind].
  destruct (bit (_beg_bits m) (65536 * dp)) eqn:Hb; [by exists false|]. destruct (end_bit_ok (65536 * dp - 1)) as (b & -> & Hend); [lia|]. exists (negb b). split; [done|]. intros Hnb.
  assert (Hno : forall x, x ∈ objs -> ~ x.1 < 65536 * dp < obj_end x) by (intros x Hx Hc; pose proof (partial_in_object objs Hok x dp Hx Hc); lia).
  assert (Hd : dead objs (65536 * dp)).
  { intros x Hx Hc. destruct (Z.eq_dec x.1 (65536 * dp)) as [He|]; [|apply (Hno x Hx); lia]. assert (Ht : bit (_beg_bits m) (65536 * dp) = true); [|congruence].
    apply (marked_beg _ _ _ _ Hm); [lia|by exists x]. }
  split; [done|]. apply dead_left; [done|]. intros Hex. apply Hend in Hex. by subst b.
Qed.

(** The filler object takes dead words. *)
Lemma filler_ok : dead objs (65536 * dp) -> dead objs (65536 * dp - 1) ->
  exists f, filler m (addr H (65536 * dp)) (65536 * dp) = Some (addr H f.1, f.2) /\ objects_ok (f :: objs) /\ 65536 * dp - 3 <= f.1 /\ obj_end f <= 65536 * dp + 1.
Proof using Hok Hm Hdp.
  intros Hd0 Hd1. unfold filler. destruct (end_bit_ok (65536 * dp - 2)) as (e2 & -> & H2); [lia|]. cbn [mbind option_bind]. rewrite !word_add_addr. change min_fill_size with 2. destruct e2.
  { exists (65536 * dp - 1, 2). cbn [fst snd]. split; [done|]. split; [|unfold obj_end; cbn; lia]. apply dead_objects_ok; [done|cbn; lia|cbn; lia|]. unfold obj_end. cbn [fst snd]. intros w Hw.
    destruct (Z.eq_dec w (65536 * dp)) as [->|]; [done|]. by replace w with (65536 * dp - 1) by lia. }
  assert (Hd2 : dead objs (65536 * dp - 2)).
  { replace (65536 * dp - 2) with (65536 * dp - 1 - 1) by lia. apply dead_left; [done|]. intros (x & Hx & He). assert (false = true); [|done]. apply H2. exists x. split; [done|lia]. }
  destruct (end_bit_ok (65536 * dp - 3)) as (e3 & -> & H3); [lia|]. cbn [mbind option_bind]. destruct (end_bit_ok (65536 * dp - 4)) as (e4 & H4e & _); [lia|].
  assert (Hdef : exists f, Some (addr H (65536 * dp + -2), 2) = Some (addr H f.1, f.2) /\ objects_ok (f :: objs) /\ 65536 * dp - 3 <= f.1 /\ obj_end f <= 65536 * dp + 1).
  { exists (65536 * dp - 2, 2). cbn [fst snd]. split; [done|]. split; [|unfold obj_end; cbn; lia]. apply dead_objects_ok; [done|cbn; lia|cbn; lia|]. unfold obj_end. cbn [fst snd]. intros w Hw.
    destruct (Z.eq_dec w (65536 * dp - 1)) as [->|]; [done|]. by replace w with (65536 * dp - 2) by lia. }
  destruct e3; cbn [negb mbind option_bind]; [done|]. rewrite H4e. cbn [mbind option_bind]. destruct e4; [|done].
  exists (65536 * dp - 3, 3). cbn [fst snd]. split; [done|]. split; [|unfold obj_end; cbn; lia]. apply dead_objects_ok; [done|cbn; lia|cbn; lia|]. unfold obj_end. cbn [fst snd]. intros w Hw.
  destruct (Z.eq_dec w (65536 * dp - 1)) as [->|]; [done|]. destruct (Z.eq_dec w (65536 * dp - 2)) as [->|]; [done|]. replace w with (65536 * dp - 2 - 1) by lia. apply dead_left; [done|].
  intros (x & Hx & He). assert (false = true); [|done]. apply H3. exists x. split; [done|lia].
Qed.
End Filler.

Lemma collected_tables (c : PSParallelCompact) (objs : list (Z * Z)) : collected H N c objs -> tables H N (_summary_data c) /\ counts H objs (_summary_data c) 0 N.
Proof using. intros [_ [C1 [C2 _] C3]]. by split. Qed.

Lemma fill_dense_prefix_end_ok (c : PSParallelCompact) (objs : list (Z * Z)) (id dp : Z) (i : SpaceInfo) :
  zget (_space_info c) id = Some i -> dense_prefix i = addr H (65536 * dp) -> 0 < dp < N -> collected H N c objs -> objects_ok objs ->
  exists c' objs', fill_dense_prefix_end c id = Some c' /\ objects_ok objs' /\ collected H N c' objs' /\ _space_info c' = _space_info c /\
    (objs' = objs \/ exists f, objs' = f :: objs /\ 65536 * dp - 3 <= f.1 /\ obj_end f <= 65536 * dp + 1).
Proof using HH H19 HN.
  intros Hi Hd Hdp [Hm Hc] Hok. pose proof Hc as [C1 [C2 C2'] C3]. unfold fill_dense_prefix_end. rewrite Hi. cbn [mbind option_bind]. rewrite Hd. pow2_norm.
  rewrite (region_idx_addr H HH _ C1), region_of_start, (bit_addr H HH _ (marked_start _ _ _ _ Hm)) by (pow2_norm; lia). destruct (C3 dp ltac:(lia)) as (rd & -> & Hrc). cbn [mbind option_bind].
  destruct (crosses_ok objs Hok (_mark_bitmap c) Hm dp Hdp c rd ltac:(done) (counted_partial _ _ _ _ Hrc)) as (b & -> & Hb). cbn [mbind option_bind].
  destruct b; [|exists c, objs; split; [done|]; split; [done|]; split; [done|]; split; [done|]; by left]. destruct (Hb ltac:(done)) as [Hd0 Hd1].
  destruct (filler_ok objs Hok (_mark_bitmap c) Hm dp Hdp Hd0 Hd1) as (f & -> & Hok' & Hf1 & Hf2). cbn [mbind option_bind].
  assert (Hnot : f ∉ objs) by (pose proof (objects_nodup _ Hok') as Hnd; by apply list.NoDup_cons in Hnd as [? _]).
  destruct (objects_pos _ Hok' f (list_elem_of_here _ _)).
  destruct (mark_obj_ok H N HH HN (_mark_bitmap c) objs f Hm) as (m' & -> & Hm'); [lia|lia|lia|intros y Hy He; apply (object_unique _ Hok'); [by apply list_elem_of_further|apply list_elem_of_here|done]|].
  cbn [mbind option_bind]. rewrite bool_decide_eq_false_2 in Hm' by done. destruct (add_obj_ok H N HH H19 HN (_summary_data c) objs f Hc Hok' ltac:(lia)) as (s' & -> & Hs').
  eexists _, (f :: objs). split; [done|]. split; [done|]. split; [by split|]. split; [done|]. right. by exists f.
Qed.

(** The dense regions are left in place. *)
Definition dense_by (cur fin j : Z) (rd rd' : RegionData) : Prop :=
  if (cur <=? j) && (j <? fin) then destination rd' = addr H (65536 * j) /\ data_size rd' = 65536 /\ blocks_filled rd' = blocks_filled rd else like rd rd'.

Definition make_dense (cur a : Z) (rd : RegionData) : RegionData :=
  set_live_obj_size (u64 (RegionSize - partial_obj_size rd)) (set_source_region cur (set_destination_count 0 (set_destination a rd))).

Lemma make_dense_ok (cur w : Z) (rd : RegionData) : 0 <= partial_obj_size rd <= 65536 ->
  destination (make_dense cur (addr H w) rd) = addr H w /\ data_size (make_dense cur (addr H w) rd) = 65536 /\ blocks_filled (make_dense cur (addr H w) rd) = blocks_filled rd.
Proof using.
  intros Hp. split; [done|]. split; [|done]. unfold make_dense, data_size, set_live_obj_size, live_obj_size, destination_count_raw, set_destination_count.
  cbn [partial_obj_size set_dc_and_los set_source_region set_destination _dc_and_los]. change RegionSize with 65536. change (u32 (Z.shiftl 0 dc_shift)) with 0.
  rewrite (umod_id 64 (65536 - partial_obj_size rd)), (umod_id 32) by (pow2_norm; lia). rewrite Z.lor_0_l. unfold live_obj_size. cbn [_dc_and_los set_destination]. rewrite <- Z.land_assoc. change (Z.land los_mask dc_mask) with 0. rewrite Z.land_0_r, Z.lor_0_l.
  rewrite los_mask_land, Z.mod_small by (pow2_norm; lia). lia.
Qed.

Lemma dense_prefix_loop_ok (n : nat) (s : ParallelCompactData) (cur : Z) :
  0 <= cur -> cur + Z.of_nat n <= region_count s -> (forall j rd, cur <= j < cur + Z.of_nat n -> region s j = Some rd -> 0 <= partial_obj_size rd <= 65536) ->
  exists s', dense_prefix_loop n s cur (addr H (65536 * cur)) = Some s' /\ related (dense_by cur (cur + Z.of_nat n)) s s'.
Proof using.
  revert s cur. induction n as [|n IH]; intros s cur Hc Hn Hp; cbn [dense_prefix_loop].
  { exists s. split; [done|]. eapply related_weaken; [|apply alike_refl]. intros j rd rd' _ Hl. unfold dense_by. destruct (Z.leb_spec cur j), (Z.ltb_spec j (cur + Z.of_nat 0)); cbn [andb]; done || lia. }
  destruct (region_in s cur) as [rd Hrd]; [lia|].
  destruct (update_mapped s cur (set_destination (addr H (65536 * cur)))) as (s1 & -> & M1); [lia|]. cbn [mbind option_bind]. pose proof M1 as (_ & _ & C1 & _).
  destruct (update_mapped s1 cur (set_destination_count 0)) as (s2 & -> & M2); [lia|]. cbn [mbind option_bind]. pose proof M2 as (_ & _ & C2 & _).
  destruct (update_mapped s2 cur (set_source_region cur)) as (s3 & -> & M3); [lia|]. cbn [mbind option_bind]. pose proof M3 as (_ & _ & C3 & _).
  pose proof (mapped_trans _ _ _ _ _ (mapped_trans _ _ _ _ _ M1 M2) M3) as M123. pose proof (mapped_region _ _ _ _ _ M123 Hrd) as Hr3. cbn beta in Hr3.
  unfold at_region in Hr3. rewrite Z.eqb_refl in Hr3. rewrite Hr3. cbn [mbind option_bind].
  match goal with |- context [update_region s3 cur ?f] => destruct (update_mapped s3 cur f) as (s4 & -> & M4); [lia|] end. cbn [mbind option_bind]. pose proof M4 as (_ & _ & C4 & _).
  assert (R1 : related (dense_by cur (cur + 1)) s s4).
  { pose proof (mapped_trans _ _ _ _ _ M123 M4) as (A1 & A2 & A3 & A4). repeat split; try done. intros j r Hr. eexists. split; [by rewrite A4, Hr|]. unfold dense_by, at_region.
    destruct (Z.eqb_spec j cur) as [->|]; [|destruct (Z.leb_spec cur j), (Z.ltb_spec j (cur + 1)); cbn [andb]; try lia; apply like_refl].
    destruct (Z.leb_spec cur cur), (Z.ltb_spec cur (cur + 1)); cbn [andb]; try lia. rewrite Hrd in Hr. injection Hr as <-. exact (make_dense_ok cur (65536 * cur) rd (Hp cur rd ltac:(lia) Hrd)). }
  rewrite word_add_addr. change RegionSize with 65536. replace (65536 * cur + 65536) with (65536 * (cur + 1)) by lia.
  destruct (IH s4 (cur + 1)) as (s' & -> & R'); [lia|lia| |].
  { intros j r Hj Hr. destruct (region_in s j) as [r0 Hr0]; [lia|]. destruct R1 as (_ & _ & _ & R1). destruct (R1 j r0 Hr0) as (r' & Hr' & Hd). rewrite Hr in Hr'. injection Hr' as <-.
    unfold dense_by in Hd. destruct (Z.leb_spec cur j), (Z.ltb_spec j (cur + 1)); cbn [andb] in Hd; try lia. destruct Hd as [[-> _] _]. apply (Hp j); [lia|done]. }
  exists s'. split; [done|]. eapply related_trans; [exact R1|exact R'|]. intros j r1 r2 r3. unfold dense_by.
  destruct (Z.leb_spec cur j), (Z.ltb_spec j (cur + 1)), (Z.leb_spec (cur + 1) j), (Z.ltb_spec j (cur + 1 + Z.of_nat n)), (Z.ltb_spec j (cur + Z.of_nat (S n))); cbn [andb]; try lia.
  - intros (A1 & A2 & A3) [B1 B2]. rewrite (same_data_size _ _ B1). destruct B1 as (_ & _ & _ & B4 & _). split; [congruence|]. split; congruence.
  - intros [(_ & _ & _ & A4 & _) _] (B1 & B2 & B3). split; [done|]. split; congruence.
  - apply like_trans.
  - apply like_trans.
Qed.

Section OldSpace.
Context (A : Extent) (HA : L !! 0%nat = Some A) (objs : list (Z * Z)) (Hok : objects_ok objs) (Hsp : in_spaces L objs).

Lemma live_covered (x : Z * Z) (a b : Z) : x ∈ objs -> x.1 <= a -> a <= b <= obj_end x -> live_in objs a b = b - a.
Proof using Hok.
  intros Hx Ha Hb. pose proof (live_in_object objs Hok x Hx). pose proof (live_in_bound objs Hok x.1 a Ha). pose proof (live_in_bound objs Hok a b ltac:(lia)). pose proof (live_in_bound objs Hok b (obj_end x) ltac:(lia)).
  pose proof (live_in_split objs x.1 a (obj_end x) ltac:(lia)). pose proof (live_in_split objs a b (obj_end x) ltac:(lia)). unfold obj_end in *. lia.
Qed.

(** The words of an object from before [a] count behind [a]. *)
Lemma live_behind (x : Z * Z) (a b : Z) : x ∈ objs -> x.1 <= a -> obj_end x <= b -> a <= b -> obj_end x <= a + live_in objs a b.
Proof using Hok.
  intros Hx Ha Hb Hab. destruct (Z.le_gt_cases (obj_end x) a); [pose proof (live_in_nonneg objs a b); lia|]. rewrite (live_in_split objs a (obj_end x) b), (live_covered x a) by (done || lia).
  pose proof (live_in_nonneg objs (obj_end x) b). lia.
Qed.

(** The objects of the old space before region [dp] stay, the others slide. *)
Lemma old_placed (s : ParallelCompactData) (nw : nat -> Z) (dp : Z) :
  ebeg A <= dp -> 65536 * dp <= etop A -> tops_ok nw -> nw 0%nat = 65536 * dp + live_in objs (65536 * dp) (65536 * regions_up (etop A)) ->
  (forall x, x ∈ objs -> within A x -> x.1 < 65536 * dp -> lands H objs s x x.1) ->
  (forall x, x ∈ objs -> within A x -> 65536 * dp <= x.1 -> lands H objs s x (65536 * dp + live_in objs (65536 * dp) x.1)) ->
  placed objs s nw 1.
Proof using HL Hok HA.
  intros Hb Hdt Htops Hnw Hl1 Hl2. destruct (extent_top A (list_elem_of_lookup_2 _ _ _ HA)).
  apply (placed_extend objs s s nw nw 0 A); try done; [split; intros; lia| |].
  - intros x Hx Hw. pose proof Hw as [Hw1 Hw2]. destruct (Z.lt_ge_cases x.1 (65536 * dp)) as [Hlt|Hge].
    + exists x.1, 0%nat, A. split; [by apply Hl1|]. split; [lia|]. split; [done|]. pose proof (live_behind x (65536 * dp) (65536 * regions_up (etop A)) Hx ltac:(lia) ltac:(lia) ltac:(lia)). unfold obj_end in *. lia.
    + eexists _, 0%nat, A. split; [by apply Hl2|]. split; [lia|]. split; [done|]. pose proof (live_in_nonneg objs (65536 * dp) x.1).
      pose proof (slide_inside objs Hok (65536 * dp) (65536 * regions_up (etop A)) x Hx Hge ltac:(lia)). pose proof (live_in_bound objs Hok (65536 * dp) x.1 Hge). lia.
  - intros x y v w Hx Hy Hwx Hwy Hlt Hv Hw. left. pose proof (boundary_start objs Hok y Hy x Hx Hlt) as Hxy. destruct (Z.lt_ge_cases x.1 (65536 * dp)) as [Hx1|Hx1], (Z.lt_ge_cases y.1 (65536 * dp)) as [Hy1|Hy1]; try lia.
    + rewrite (lands_unique _ _ _ _ _ _ Hv (Hl1 x Hx Hwx Hx1)), (lands_unique _ _ _ _ _ _ Hw (Hl1 y Hy Hwy Hy1)). done.
    + rewrite (lands_unique _ _ _ _ _ _ Hv (Hl1 x Hx Hwx Hx1)), (lands_unique _ _ _ _ _ _ Hw (Hl2 y Hy Hwy Hy1)).
      pose proof (live_behind x (65536 * dp) y.1 Hx ltac:(lia) Hxy Hy1). unfold obj_end in *. lia.
    + rewrite (lands_unique _ _ _ _ _ _ Hv (Hl2 x Hx Hwx Hx1)), (lands_unique _ _ _ _ _ _ Hw (Hl2 y Hy Hwy Hy1)). pose proof (slide_apart objs Hok (65536 * dp) x y Hx Hy Hx1 Hlt). lia.
Qed.

(** The summary with a dense prefix. *)
Lemma dense_space_ok (c : PSParallelCompact) (nt : nat -> Z) (dp : Z) :
  spaces L c nt -> tables H N (_summary_data c) -> counts H objs (_summary_data c) 0 N -> ebeg A <= dp -> 65536 * dp < etop A ->
  exists s1 c', summarize_dense_prefix (_summary_data c) (addr H (65536 * ebeg A)) (addr H (65536 * dp)) = Some s1 /\
    summarize_all (with_summary c s1) 0 (addr H (65536 * dp)) (addr H (etop A)) (addr H (65536 * dp)) (addr H (65536 * eend A)) 0 = Some c' /\ _mark_bitmap c' = _mark_bitmap c /\
    spaces L c' (upd nt 0 (addr H (65536 * dp + live_in objs (65536 * dp) (65536 * regions_up (etop A))))) /\ 65536 * dp + live_in objs (65536 * dp) (65536 * regions_up (etop A)) <= 65536 * eend A /\
    related (fun j rd rd' => j < ebeg A \/ eend A <= j -> like rd rd') (_summary_data c) (_summary_data c') /\
    (forall x, x ∈ objs -> within A x -> x.1 < 65536 * dp -> lands H objs (_summary_data c') x x.1) /\
    (forall x, x ∈ objs -> within A x -> 65536 * dp <= x.1 -> lands H objs (_summary_data c') x (65536 * dp + live_in objs (65536 * dp) x.1)).
Proof using HH H19 HN HL Hok Hsp HA.
  intros Hs Ht Hc Hb Hdt. destruct (extent_range _ HL A (list_elem_of_lookup_2 _ _ _ HA)), (extent_top A (list_elem_of_lookup_2 _ _ _ HA)). pose proof Ht as [T1 T2]. pow2_norm.
  unfold summarize_dense_prefix. rewrite !(region_idx_addr H HH _ T1), !region_of_start by (pow2_norm; lia).
  assert (Hn : ebeg A + Z.of_nat (Z.to_nat (dp - ebeg A)) = dp) by lia.
  destruct (dense_prefix_loop_ok (Z.to_nat (dp - ebeg A)) (_summary_data c) (ebeg A)) as (s1 & He & R1); [lia|lia| |].
  { intros j rd Hj Hrd. destruct (Hc j ltac:(lia)) as (rd' & Hrd' & Hrc). rewrite Hrd in Hrd'. injection Hrd' as <-. rewrite (counted_partial _ _ _ _ Hrc). by apply partial_in_range. }
  rewrite Hn in R1. exists s1.
  assert (Hcf : counts_from objs s1 (65536 * dp) dp (regions_up (etop A))).
  { apply (counts_counts_from H). intros r Hr. destruct (Hc r ltac:(lia)) as (rd & Hrd & Hrc). destruct R1 as (_ & _ & _ & R1). destruct (R1 r rd Hrd) as (rd' & Hrd' & Hd). exists rd'. split; [done|].
    unfold dense_by in Hd. destruct (Z.leb_spec (ebeg A) r), (Z.ltb_spec r dp); cbn [andb] in Hd; try lia. destruct Hd as [Hd _]. by eapply counted_same. }
  assert (Hlive : live_in objs (65536 * dp) (65536 * regions_up (etop A)) <= etop A - 65536 * dp) by (rewrite (live_of_top objs Hok Hsp 0 A _ HA) by lia; apply live_in_bound; done || lia).
  destruct (summarize_all_ok objs Hok (with_summary c s1) nt 0 0 A A (65536 * dp) (65536 * dp) (65536 * eend A) Hs HA HA) as (c' & He' & M' & Hs' & R'); try lia; try (by rewrite region_of_start); [by eapply related_tables|].
  rewrite region_of_start in R'. cbn [_summary_data with_summary with_tables] in R'. exists c'. split; [done|]. split; [done|]. split; [done|]. split; [done|]. split; [lia|].
  split; [|split; intros x Hx Hw Hxd; pose proof (objects_pos _ Hok x Hx)].
  - eapply related_trans; [exact R1|exact R'|]. intros j r1 r2 r3 Hd [B1 B2] Hj. unfold dense_by in Hd. destruct (Z.leb_spec (ebeg A) j), (Z.ltb_spec j dp); cbn [andb] in Hd; try lia;
      (eapply like_trans; [exact Hd|split; [done|]]; rewrite B2; destruct (Z.leb_spec dp j), (Z.ltb_spec j (regions_up (etop A))); cbn [andb]; done || lia).
  - pose proof (within_region objs Hok 0 A x HA Hx Hw) as Hr. pose proof (Z.div_mod x.1 65536 ltac:(lia)). pose proof (Z.mod_pos_bound x.1 65536 ltac:(lia)). set (r := x.1 / 65536) in *.
    destruct (Hc r ltac:(lia)) as (rd & Hrd & Hrc). destruct R1 as (_ & _ & _ & R1). destruct (R1 r rd Hrd) as (rd1 & Hrd1 & Hd). destruct R' as (_ & _ & _ & R'). destruct (R' r rd1 Hrd1) as (rd2 & Hrd2 & [B1 B2]).
    unfold dense_by in Hd. destruct (Z.leb_spec (ebeg A) r), (Z.ltb_spec r dp); cbn [andb] in Hd; try lia. destruct Hd as (D1 & D2 & D3). destruct (Z.leb_spec dp r); [lia|]. cbn [andb] in B2.
    pose proof (same_data_size _ _ B1) as Hds. destruct B1 as (_ & _ & _ & B4 & _). exists rd2, (65536 * r). fold r. split; [done|]. split; [congruence|]. split; [rewrite B4, D3; apply Hrc|].
    rewrite Hds, D2. split; [by left|]. rewrite Z.eqb_refl. lia.
  - eapply slide_lands; [done|exact Hcf|exact R'|done|done|]. pose proof (within_region objs Hok 0 A x HA Hx Hw). split; [apply Z.div_le_lower_bound; lia|lia].
Qed.
End OldSpace.

Lemma spaces_ext_in (c : PSParallelCompact) (nt nt' : nat -> Z) : (forall j A, L !! j = Some A -> nt j = nt' j) -> spaces L c nt -> spaces L c nt'.
Proof using. intros He Hs k A Hk. destruct (Hs k A Hk) as (i & H1 & H2 & H3). exists i. by rewrite <- (He k A Hk). Qed.

(** The spaces before [k] are summarized, with the new tops [nw]. *)
Record summarized (objs : list (Z * Z)) (c : PSParallelCompact) (nw : nat -> Z) (k : nat) : Prop := {
  summarized_ok : objects_ok objs;
  summarized_in : in_spaces L objs;
  summarized_marks : marked H N (_mark_bitmap c) objs;
  summarized_tables : tables H N (_summary_data c) /\ block_count (_summary_data c) = 512 * N;
  summarized_spaces : spaces L c (fun j => addr H (nw j));
  summarized_tops : tops_ok nw;
  summarized_ready : ready objs (_summary_data c) nw k;
  summarized_placed : placed objs (_summary_data c) nw k;
}.

(** The tops after the first summary. *)
Definition quick_top (objs : list (Z * Z)) (j : nat) : Z := match L !! j with Some A => 65536 * ebeg A + live_of objs A | None => 0 end.

Lemma quick_top_eq (objs : list (Z * Z)) (j : nat) (A : Extent) : L !! j = Some A -> quick_top objs j = 65536 * ebeg A + live_of objs A.
Proof using. intros Hj. unfold quick_top. by rewrite Hj. Qed.

Lemma quick_tops_ok (objs : list (Z * Z)) : objects_ok objs -> in_spaces L objs -> tops_ok (quick_top objs).
Proof using HL.
  intros Hok Hsp j A Hj. rewrite (quick_top_eq _ _ _ Hj). pose proof (live_of_fits objs Hok Hsp j A Hj). destruct (extent_range _ HL A (list_elem_of_lookup_2 _ _ _ Hj)). lia.
Qed.

(** A filler object in the old space does not change the other spaces. *)
Lemma live_of_other (objs : list (Z * Z)) (f : Z * Z) (i j : nat) (A B : Extent) :
  L !! i = Some A -> L !! j = Some B -> i <> j -> within A f -> live_of (f :: objs) B = live_of objs B.
Proof using HL.
  intros HA HB Hne [Hf1 Hf2]. unfold live_of, live_in. cbn [sum_over]. destruct (extent_range _ HL A (list_elem_of_lookup_2 _ _ _ HA)). destruct (extent_top B (list_elem_of_lookup_2 _ _ _ HB)).
  destruct (extents_apart _ HL _ _ _ _ HA HB) as [|Hap]; [done|]. unfold overlap. lia.
Qed.

(** Without a dense prefix the first summary is final for the old space. *)
Lemma quick_summarized (c : PSParallelCompact) (objs : list (Z * Z)) (A : Extent) :
  L !! 0%nat = Some A -> objects_ok objs -> in_spaces L objs -> collected H N c objs -> spaces L c (fun j => addr H (quick_top objs j)) ->
  (forall x, x ∈ objs -> within A x -> lands H objs (_summary_data c) x (65536 * ebeg A + live_in objs (65536 * ebeg A) x.1)) ->
  summarized objs c (quick_top objs) 1 /\ 65536 * ebeg A <= quick_top objs 0%nat.
Proof using HL.
  intros HA Hok Hsp Hcol Hs Hlands. destruct (collected_tables _ _ Hcol) as [Ht Hc]. pose proof Hcol as [Hm [_ [_ Hblk] _]]. pose proof (live_of_fits objs Hok Hsp 0 A HA). pose proof (quick_top_eq objs 0 A HA).
  destruct (extent_range _ HL A (list_elem_of_lookup_2 _ _ _ HA)). split; [|lia]. split; try done; [by apply quick_tops_ok| |].
  - intros j B Hj HB. split; [apply counts_part; [by eapply list_elem_of_lookup_2|done]|by apply quick_top_eq].
  - apply (old_placed A HA objs Hok (_summary_data c) (quick_top objs) (ebeg A)); try done; try lia; [by apply quick_tops_ok|intros x _ [? _]; lia|]. by intros x Hx Hw _; apply Hlands.
Qed.

(** With a dense prefix, after a filler object was added or not. *)
Lemma dense_summarized (c : PSParallelCompact) (objs objs' : list (Z * Z)) (A : Extent) (dp : Z) :
  L !! 0%nat = Some A -> in_spaces L objs -> ebeg A < dp -> 65536 * dp < etop A -> objects_ok objs -> objects_ok objs' -> collected H N c objs' -> spaces L c (fun j => addr H (quick_top objs j)) ->
  (objs' = objs \/ exists f, objs' = f :: objs /\ 65536 * dp - 3 <= f.1 /\ obj_end f <= 65536 * dp + 1) ->
  exists s1 c' nw, summarize_dense_prefix (_summary_data c) (addr H (65536 * ebeg A)) (addr H (65536 * dp)) = Some s1 /\
    summarize_all (with_summary c s1) 0 (addr H (65536 * dp)) (addr H (etop A)) (addr H (65536 * dp)) (addr H (65536 * eend A)) 0 = Some c' /\
    summarized objs' c' nw 1 /\ 65536 * ebeg A <= nw 0%nat.
Proof using HH H19 HN HL.
  intros HA Hsp Hdp1 Hdp2 Hok Hok' Hcol Hs Hobjs. destruct (collected_tables _ _ Hcol) as [Ht Hc]. pose proof Hcol as [Hm [_ [_ Hblk] _]].
  assert (Hsp' : in_spaces L objs').
  { destruct Hobjs as [->|(f & -> & Hf1 & Hf2)]; [done|]. intros x Hx. apply elem_of_cons in Hx as [->|Hx]; [|by apply Hsp]. exists 0%nat, A. split; [done|]. unfold within. lia. }
  assert (Hother : forall j B, L !! j = Some B -> j <> 0%nat -> live_of objs B = live_of objs' B).
  { intros j B HB Hj. destruct Hobjs as [->|(f & -> & Hf1 & Hf2)]; [done|]. symmetry. eapply (live_of_other objs f 0 j A B); try done. unfold within. lia. }
  destruct (dense_space_ok A HA objs' Hok' Hsp' c _ dp Hs Ht Hc ltac:(lia) Hdp2) as (s1 & c' & E1 & E2 & M & Hs' & Hend & R & Hl1 & Hl2).
  pose proof (live_in_nonneg objs' (65536 * dp) (65536 * regions_up (etop A))). set (top := 65536 * dp + live_in objs' (65536 * dp) (65536 * regions_up (etop A))) in *.
  assert (Htops : tops_ok (upd (quick_top objs) 0 top)).
  { intros j B HB. unfold upd. destruct (decide (j = 0%nat)) as [->|]; [rewrite HA in HB; by injection HB as <-|by apply quick_tops_ok]. }
  exists s1, c', (upd (quick_top objs) 0 top). split; [done|]. split; [done|]. split; [|rewrite upd_same; lia]. split; try done.
  - by rewrite M.
  - split; [by eapply related_tables|]. destruct R as (_ & Hb & _). unfold block_count in *. by rewrite Hb.
  - eapply spaces_ext; [|exact Hs']. intros j. apply upd_addr.
  - intros j B Hj HB. split; [|rewrite upd_other, (quick_top_eq _ _ _ HB), (Hother j B HB) by lia; done]. eapply counts_related; [exact R| |apply counts_part; [by eapply list_elem_of_lookup_2|done]].
    intros r rd rd' Hr HR. apply HR. destruct (extents_apart _ HL _ _ _ _ HA HB) as [|Hap]; lia.
  - apply (old_placed A HA objs' Hok' _ _ dp); try done; lia.
Qed.

Lemma summarize_space_ok (c : PSParallelCompact) (objs : list (Z * Z)) (A : Extent) (maximum_compaction : bool) :
  L !! 0%nat = Some A -> objects_ok objs -> in_spaces L objs -> collected H N c objs -> spaces L c (fun j => addr H (quick_top objs j)) ->
  (forall x, x ∈ objs -> within A x -> lands H objs (_summary_data c) x (65536 * ebeg A + live_in objs (65536 * ebeg A) x.1)) ->
  exists c' objs' nw, summarize_space exp out_of_range HeapMaximumCompactionInterval HeapFirstMaximumCompactionCount MarkSweepDeadRatio c 0 maximum_compaction = Some c' /\
    summarized objs' c' nw 1 /\ 65536 * ebeg A <= nw 0%nat /\ forall x, x ∈ objs -> x ∈ objs'.
Proof using HH H19 HN HL.
  intros HA Hok Hsp Hcol Hs Hlands. destruct (collected_tables _ _ Hcol) as [Ht Hc]. pose proof (live_of_fits objs Hok Hsp 0 A HA) as Hlive.
  destruct (extent_range _ HL A (list_elem_of_lookup_2 _ _ _ HA)). pose proof (quick_top_eq objs 0 A HA) as Hq0.
  assert (Hstay : forall c1, _mark_bitmap c1 = _mark_bitmap c -> _summary_data c1 = _summary_data c -> spaces L c1 (fun j => addr H (quick_top objs j)) ->
    exists c' objs' nw, Some c1 = Some c' /\ summarized objs' c' nw 1 /\ 65536 * ebeg A <= nw 0%nat /\ forall x, x ∈ objs -> x ∈ objs').
  { intros c1 M1 D1 Hs1. exists c1, objs, (quick_top objs). split; [done|]. destruct (quick_summarized c1 objs A) as [Q1 Q2]; try done; [unfold collected in *; by rewrite M1, D1|by rewrite D1]. }
  unfold summarize_space. destruct (Hs 0%nat A HA) as (i & Hi & (S1 & S2 & S3 & S4) & Hn). change (Z.of_nat 0) with 0 in Hi. rewrite Hi. cbn [mbind option_bind]. rewrite Hn, S1, S2, S3.
  destruct (negb _) eqn:Hne; [|by apply Hstay]. apply negb_true_iff, Z.eqb_neq in Hne. assert (Hpos : 0 < live_of objs A) by (rewrite Hq0 in Hne; unfold addr in Hne; lia).
  destruct (compute_dense_prefix_ok c _ 0 A (live_of objs A) maximum_compaction Hs HA Ht ltac:(cbn beta; by rewrite Hq0) ltac:(lia)) as (dp & c1 & E1 & Hdp1 & Hdp2 & M1 & D1 & I1).
  change (Z.of_nat 0) with 0 in E1. rewrite E1. cbn [mbind option_bind].
  assert (Hs1 : spaces L c1 (fun j => addr H (quick_top objs j))) by (unfold spaces; by rewrite I1).
  destruct (update_space_ok c1 _ 0 A (set_dense_prefix (addr H (65536 * dp))) (addr H (quick_top objs 0%nat)) Hs1 HA) as (c2 & i2 & E2 & M2 & D2 & Hs2 & _ & Hi2); [by intros i' Hi' Hn'|].
  change (Z.of_nat 0) with 0 in E2, Hi2. rewrite E2. cbn [mbind option_bind].
  assert (Hs2' : spaces L c2 (fun j => addr H (quick_top objs j))) by (eapply spaces_ext; [|exact Hs2]; intros j; unfold upd; destruct (decide (j = 0%nat)); by subst).
  destruct (negb maximum_compaction && _) eqn:Hcond; [|apply Hstay; [congruence|congruence|done]]. apply andb_true_iff in Hcond as [_ Hcond]. apply negb_true_iff, Z.eqb_neq in Hcond.
  assert (Hdp3 : ebeg A < dp) by (unfold addr in Hcond; lia).
  destruct (fill_dense_prefix_end_ok c2 objs 0 dp _ Hi2 ltac:(done) ltac:(lia)) as (c3 & objs' & -> & Hok' & Hcol' & I3 & Hobjs'); [unfold collected in *; by rewrite M2, D2, M1, D1|done|]. cbn [mbind option_bind].
  assert (Hs3 : spaces L c3 (fun j => addr H (quick_top objs j))) by (unfold spaces; by rewrite I3).
  destruct (dense_summarized c3 objs objs' A dp HA Hsp Hdp3 Hdp2 Hok Hok' Hcol' Hs3 Hobjs') as (s1 & c' & nw & -> & E5 & Hsum & Hnw). cbn [mbind option_bind].
  exists c', objs', nw. split; [done|]. split; [done|]. split; [done|]. intros x Hx. destruct Hobjs' as [->|(f & -> & _)]; [done|by apply list_elem_of_further].
Qed.

(** The new first word of an object. *)
Definition moved_to (objs : list (Z * Z)) (s : ParallelCompactData) (x : Z * Z) : Z :=
  let r := x.1 / 65536 in
  match region s r with
  | Some rd => (destination rd - H) / 8 + if data_size rd =? 65536 then x.1 mod 65536 else partial_obj_size rd + live_in objs (partial_end objs r) x.1
  | None => 0
  end.

Lemma lands_moved (objs : list (Z * Z)) (s : ParallelCompactData) (x : Z * Z) (v : Z) : lands H objs s x v -> moved_to objs s x = v.
Proof using.
  intros (rd & w & Hr & Hd & _ & _ & ->). unfold moved_to. rewrite Hr, Hd. f_equal. unfold addr. rewrite (Z.add_comm H), Z.add_simpl_r, (Z.mul_comm 8). by apply Z.div_mul.
Qed.

(** The objects [objs] can move to the words [new]: lookups give these places, each lies in
    a space below its new top, objects stay apart, and an object that stays in its space does
    not move up. *)
Record relocation (c : PSParallelCompact) (objs : list (Z * Z)) (new : Z * Z -> Z) : Prop := {
  relocation_lookup : forall xs, (forall x, x ∈ xs -> x ∈ objs) ->
    calc_new_pointers (_mark_bitmap c) (_summary_data c) (map (fun x => addr H x.1) xs) = Some (map (fun x => addr H (new x)) xs);
  relocation_space : forall x, x ∈ objs -> exists j A i, L !! j = Some A /\ zget (_space_info c) (Z.of_nat j) = Some i /\
    65536 * ebeg A <= new x /\ addr H (new x + x.2) <= new_top i /\ new_top i <= addr H (65536 * eend A) /\ (within A x -> new x <= x.1);
  relocation_apart : forall x y, x ∈ objs -> y ∈ objs -> x <> y -> new x + x.2 <= new y \/ new y + y.2 <= new x;
}.

Lemma summarized_relocation (objs objs' : list (Z * Z)) (c : PSParallelCompact) (nw : nat -> Z) (k : nat) :
  summarized objs' c nw k -> (length L <= k)%nat -> (forall x, x ∈ objs -> x ∈ objs') -> relocation c objs (moved_to objs' (_summary_data c)).
Proof using HH H19 HN HL.
  intros [Hok Hsp Hm [Ht Hb] Hs Htops _ [P1 P2]] Hk Hsub.
  assert (Hidx : forall j A, L !! j = Some A -> (j < k)%nat) by (intros j A Hj; apply lookup_lt_Some in Hj; lia).
  assert (Hall : forall x, x ∈ objs' -> lands H objs' (_summary_data c) x (moved_to objs' (_summary_data c) x)).
  { intros x Hx. destruct (Hsp x Hx) as (i & B & HB & Hw). destruct (P1 i B x (Hidx i B HB) HB Hx Hw) as (v & _ & _ & Hv & _). by rewrite (lands_moved _ _ _ _ Hv). }
  split.
  - intros xs Hxs. rewrite <- (map_map (moved_to objs' (_summary_data c)) (addr H)).
    apply (calc_new_pointers_ok H N HH H19 HN objs' Hok _ Hm (inside_spaces objs' Hsp) _ Ht Hb (fun x Hx => ex_intro _ _ (Hall x Hx))).
    induction xs as [|x xs IH]; [constructor|]. cbn [map]. constructor; [|apply IH; intros y Hy; apply Hxs; by apply list_elem_of_further].
    assert (x ∈ objs') by (apply Hsub, Hxs, list_elem_of_here). split; [done|by apply Hall].
  - intros x Hx%Hsub. destruct (Hsp x Hx) as (i & B & HB & Hw). destruct (P1 i B x (Hidx i B HB) HB Hx Hw) as (v & j & A & Hv & _ & HA & Hv1 & Hv2 & Hle). rewrite (lands_moved _ _ _ _ Hv).
    destruct (Hs j A HA) as (info & Hi & (S1 & S2 & S3 & _) & Hn). exists j, A, info. split; [done|]. split; [done|]. rewrite Hn. pose proof (Htops j A HA). split; [done|]. unfold addr. split; [lia|]. split; [lia|].
    intros HwA. apply Hle. destruct (extents_apart _ HL _ _ _ _ HA HB) as [|Hap]; [done|]. pose proof (objects_pos _ Hok x Hx). destruct Hw, HwA.
    destruct (extent_range _ HL A (list_elem_of_lookup_2 _ _ _ HA)), (extent_range _ HL B (list_elem_of_lookup_2 _ _ _ HB)). unfold obj_end in *. lia.
  - intros x y Hx%Hsub Hy%Hsub Hne. destruct (Hsp x Hx) as (i & B & HB & Hw). destruct (Hsp y Hy) as (i' & B' & HB' & Hw'). pose proof (Hall x Hx) as Hlx. pose proof (Hall y Hy) as Hly.
    destruct (Z.lt_trichotomy x.1 y.1) as [Hlt|[He|Hgt]]; [|by destruct Hne; apply (object_unique objs' Hok)|].
    + exact (P2 i B x i' B' y _ _ (Hidx i B HB) HB Hx Hw (Hidx i' B' HB') HB' Hy Hw' Hlt Hlx Hly).
    + destruct (P2 i' B' y i B x _ _ (Hidx i' B' HB') HB' Hy Hw' (Hidx i B HB) HB Hx Hw Hgt Hly Hlx); [by right|by left].
Qed.

Lemma summary_phase_ok (c : PSParallelCompact) (objs : list (Z * Z)) (nt : nat -> Z) (maximum_compaction : bool) :
  length L = last_space_id -> objects_ok objs -> in_spaces L objs -> collected H N c objs -> spaces L c nt ->
  exists c' new, summary_phase exp out_of_range HeapMaximumCompactionInterval HeapFirstMaximumCompactionCount MarkSweepDeadRatio c maximum_compaction = Some c' /\ relocation c' objs new.
Proof using HH H19 HN HL.
  intros Hlen Hok Hsp Hcol Hs. destruct (collected_tables _ _ Hcol) as [Ht Hc]. unfold summary_phase, summarize_spaces_quick.
  destruct (summarize_quick_loop_ok objs Hok Hsp last_space_id 0 c nt ltac:(lia) Hs Ht Hc) as (c1 & nt1 & E1 & Hs1 & M1 & R1 & N1 & _ & L1). change (Z.of_nat 0) with 0 in E1. rewrite E1. cbn [mbind option_bind].
  destruct (lookup_lt_is_Some_2 L 0) as [A HA]; [rewrite Hlen; unfold last_space_id; lia|]. destruct (Hs1 0%nat A HA) as (i & Hi & (S1 & S2 & S3 & S4) & Hn). change (Z.of_nat 0) with 0 in Hi. rewrite Hi. cbn [mbind option_bind].
  set (mc := maximum_compaction || _). rewrite S3.
  assert (Hs1' : spaces L c1 (fun j => addr H (quick_top objs j))) by (eapply spaces_ext_in; [|exact Hs1]; intros j B HB; rewrite (quick_top_eq _ _ _ HB); apply N1; [lia|done]).
  assert (Hcol1 : collected H N c1 objs).
  { destruct Hcol as [Hm [C1 [C2 C2'] C3]]. split; [by rewrite M1|]. pose proof (related_tables _ _ _ _ _ R1 Ht) as [T1 T2]. pose proof R1 as (_ & Hb & _ & _). split; [done|unfold block_count in *; rewrite Hb; by split|].
    exact (touching_counts objs _ _ _ 0 N R1 C3). }
  destruct (summarize_space_ok c1 objs A mc HA Hok Hsp Hcol1 Hs1') as (c2 & objs' & nw & -> & Hsum & Hnw & Hsub); [intros x Hx Hw; apply (L1 0%nat A); done || lia|]. cbn [mbind option_bind].
  destruct Hsum as [Hok' Hsp' Hm' [Ht' Hb'] Hs' Htops' Hready' Hpl'].
  destruct (young_loop_ok objs' Hok' Hsp' (last_space_id - 1) 1 c2 nw 0 A) as (c' & nw' & E & Hs2 & M2 & Ht2 & Hblk & Htops2 & Hpl2); try done; try lia.
  change (Z.of_nat 1) with 1 in E. change (Z.of_nat 0) with 0 in E. exists c', (moved_to objs' (_summary_data c')). split; [done|].
  apply (summarized_relocation objs objs' c' nw' (length L)); [|lia|done]. split; try done; [by rewrite M2|split; [done|unfold block_count in *; by rewrite Hblk]|].
  intros j B Hj HB. apply lookup_lt_Some in HB. lia.
Qed.
End DensePrefix.
End Spaces.

(** ** Marking and the summary phase *)

Fixpoint mark_objects (H : Z) (c : PSParallelCompact) (l : list (Z * Z)) : option PSParallelCompact :=
  match l with
  | [] => Some c
  | x :: l => '(_, c) ← mark_object c (addr H x.1) x.2; mark_objects H c l
  end.

Lemma mark_objects_ok (H N : Z) (all l objs : list (Z * Z)) (c : PSParallelCompact) :
  0 <= H < 2 ^ 61 -> (2 ^ 19 | H) -> 0 <= N < 2 ^ 38 -> objects_ok all -> inside N all -> collected H N c objs -> objects_ok objs -> (forall x, x ∈ objs -> x ∈ all) -> (forall x, x ∈ l -> x ∈ all) ->
  exists c' objs', mark_objects H c l = Some c' /\ collected H N c' objs' /\ objects_ok objs' /\ _space_info c' = _space_info c /\ forall x, x ∈ objs' <-> x ∈ objs \/ x ∈ l.
Proof.
  intros HH H19 HN Hall Hin. revert objs c. induction l as [|x l IH]; intros objs c Hc Hok Hsub Hl; cbn [mark_objects].
  { exists c, objs. split; [done|]. split; [done|]. split; [done|]. split; [done|]. intros y. rewrite elem_of_nil. tauto. }
  assert (Hx : x ∈ all) by (apply Hl, list_elem_of_here).
  assert (Hcase : x ∈ objs \/ objects_ok (x :: objs)).
  { destruct (decide (x ∈ objs)) as [|Hno]; [by left|right]. assert (Hs : forall y, y ∈ x :: objs -> y ∈ all) by (intros y Hy; apply elem_of_cons in Hy as [->|]; auto).
    split; [intros y Hy; by apply (objects_pos _ Hall), Hs|apply list.NoDup_cons; split; [done|apply Hok]|intros y z Hy Hz; apply (objects_apart _ Hall); by apply Hs]. }
  destruct (mark_object_ok H N HH H19 HN c objs x Hc Hok (Hin x Hx) Hcase) as (c1 & -> & Hc1 & Hsp). cbn [mbind option_bind].
  set (objs1 := if bool_decide (x ∈ objs) then objs else x :: objs) in *.
  assert (Hmem : forall y, y ∈ objs1 <-> y ∈ objs \/ y = x) by (intros y; unfold objs1; case_bool_decide; [split; [by left|intros [| ->]; done]|rewrite elem_of_cons; tauto]).
  assert (Hok1 : objects_ok objs1) by (unfold objs1; case_bool_decide; [done|by destruct Hcase]).
  destruct (IH objs1 c1 Hc1 Hok1) as (c' & objs' & -> & Q1 & Q2 & Q3 & Q4); [intros y Hy; apply Hmem in Hy as [| ->]; auto|intros y Hy; apply Hl; by apply list_elem_of_further|].
  exists c', objs'. split; [done|]. split; [done|]. split; [done|]. split; [congruence|]. intros y. rewrite Q4, Hmem, elem_of_cons. tauto.
Qed.

(** C5: after any sequence of [mark_object] calls for objects of the heap, repeated ones
    included, [summary_phase] succeeds, whatever the dense prefix heuristics choose and
    whether spaces must be split; every sequence of [calc_new_pointer] calls then gives the
    marked objects new addresses at which they lie apart from each other, each within one of
    the spaces and below its new top, and no object moves up within its space. *)
Theorem compaction_correct (exp : spec_float -> spec_float) (out_of_range interval first_count dead_ratio H N : Z) (L : list Extent) (all l : list (Z * Z)) (c : PSParallelCompact)
    (nt : nat -> Z) (maximum_compaction : bool) :
  0 <= H < 2 ^ 61 -> (2 ^ 19 | H) -> 0 <= N < 2 ^ 38 -> extents_ok N L -> length L = last_space_id -> spaces H N L c nt -> objects_ok all -> in_spaces L all -> collected H N c [] -> (forall x, x ∈ l -> x ∈ all) ->
  exists c1 c2 new, mark_objects H c l = Some c1 /\ summary_phase exp out_of_range interval first_count dead_ratio c1 maximum_compaction = Some c2 /\ relocation H L c2 l new.
Proof.
  intros HH H19 HN HL Hlen Hs Hall Hsp Hc Hl. assert (Hnil : objects_ok []) by (split; [intros x Hx; by apply elem_of_nil in Hx|apply base.NoDup_nil_2|intros x y Hx; by apply elem_of_nil in Hx]).
  destruct (mark_objects_ok H N all l [] c HH H19 HN Hall (inside_spaces N L HL all Hsp) Hc Hnil) as (c1 & objs & He & Hc1 & Hok & Hi & Hmem); [intros x Hx; by apply elem_of_nil in Hx|done|].
  assert (Hmem' : forall x, x ∈ objs <-> x ∈ l) by (intros x; rewrite Hmem, elem_of_nil; tauto).
  destruct (summary_phase_ok H N HH H19 HN L HL exp out_of_range interval first_count dead_ratio c1 objs nt maximum_compaction Hlen Hok) as (c2 & new & Hsum & [R1 R2 R3]); [intros x Hx; by apply Hsp, Hl, Hmem'|done|unfold spaces; by rewrite Hi|].
  exists c1, c2, new. split; [done|]. split; [done|]. split.
  - intros xs Hxs. apply R1. intros x Hx. by apply Hmem', Hxs.
  - intros x Hx. by apply R2, Hmem'.
  - intros x y Hx Hy. by apply R3; apply Hmem'.
Qed.

Definition sample_extents : list Extent := [mkExtent 1 3 140000; mkExtent 3 5 270000; mkExtent 5 6 330000; mkExtent 6 7 393216].
Definition sample_objects : list (Z * Z) := [(65540, 4); (131000, 100); (200000, 66000)].
Definition sample_info (A : Extent) : SpaceInfo :=
  mkSpaceInfo (addr (2 ^ 19) (65536 * ebeg A)) (addr (2 ^ 19) (etop A)) (addr (2 ^ 19) (65536 * eend A)) 0 0 split_clear.
Definition sample_collector : PSParallelCompact :=
  mkPSC (clear_marks (2 ^ 19) 8) (clear_tables (2 ^ 19) 8) (map sample_info sample_extents) (initialize_dead_wood_limiter (fun x => x) 50 80) 1 0.

Lemma sample_extents_ok : extents_ok 8 sample_extents.
Proof.
  split.
  - intros A HA. repeat (apply elem_of_cons in HA as [->|HA]; [cbn; lia|]). by apply elem_of_nil in HA.
  - intros i j A B Hi Hj. destruct i as [|[|[|[|i]]]]; try done; injection Hi as <-; (destruct j as [|[|[|[|j]]]]; try done; injection Hj as <-; cbn; lia).
Qed.

Lemma sample_objects_ok : objects_ok sample_objects /\ in_spaces sample_extents sample_objects.
Proof.
  assert (Hcase : forall x, x ∈ sample_objects -> x = (65540, 4) \/ x = (131000, 100) \/ x = (200000, 66000)).
  { intros x Hx. apply elem_of_cons in Hx as [|Hx]; [by left|]. apply elem_of_cons in Hx as [|Hx]; [right; by left|]. apply list_elem_of_singleton in Hx. right; by right. }
  split; [split|].
  - intros x Hx. destruct (Hcase x Hx) as [->|[->| ->]]; cbn; lia.
  - apply (bool_decide_eq_true_1 _). reflexivity.
  - intros x y Hx Hy. unfold obj_end. destruct (Hcase x Hx) as [->|[->| ->]], (Hcase y Hy) as [->|[->| ->]]; cbn; try (by left); right; lia.
  - intros x Hx. unfold within, obj_end. destruct (Hcase x Hx) as [->|[->| ->]]; [exists 0%nat, (mkExtent 1 3 140000)|exists 0%nat, (mkExtent 1 3 140000)|exists 1%nat, (mkExtent 3 5 270000)]; (split; [done|]); cbn; lia.
Qed.

Lemma compaction_correct_witness : exists c1 c2 new,
  mark_objects (2 ^ 19) sample_collector (sample_objects ++ sample_objects) = Some c1 /\ summary_phase (fun x => x) 0 20 3 5 c1 false = Some c2 /\ relocation (2 ^ 19) sample_extents c2 (sample_objects ++ sample_objects) new.
Proof.
  destruct sample_objects_ok as [Hok Hsp].
  apply (compaction_correct (fun x => x) 0 20 3 5 (2 ^ 19) 8 sample_extents sample_objects (sample_objects ++ sample_objects) sample_collector (fun _ => 0) false);
    [done|by exists 1|done|apply sample_extents_ok|done| |done|done|split; [by apply clear_marked|by apply clear_counted]|intros x Hx; by apply elem_of_app in Hx as [|]].
  intros k A Hk. exists (sample_info A). split; [|by split; [split; [|split; [|split]]|]]. destruct k as [|[|[|[|k]]]]; try done; by injection Hk as <-.
Defined.
