(* ===== verification/ClearingCorrect.v ===== *)
(** The end of a collection: the loop of [post_compact] clears the mark bits and the summary
    data, so that the next collection starts from clear tables. *)

From S2P Require Import Prelude GlobalDefinitions VirtualSpace BitMap ParMarkBitMap ParallelCompact ParallelCompactCorrect SummaryPhaseCorrect.

(** ** Clearing a range *)

Lemma clear_entries_ok {A} (n : nat) (l : list A) (i : Z) (zero : A) :
  0 <= i -> i + Z.of_nat n <= zlen l ->
  exists l', clear_entries n l i zero = Some l' /\ length l' = length l /\ forall j, zget l' j = if bool_decide (i <= j < i + Z.of_nat n) then Some zero else zget l j.
Proof.
  revert l i. induction n as [|n IH]; intros l i Hi Hn; cbn [clear_entries].
  { exists l. split; [done|]. split; [done|]. intros j. rewrite bool_decide_eq_false_2; [done|lia]. }
  destruct (zset l i zero) as [l1|] eqn:Hl; [|unfold zset in Hl; case_bool_decide; done || lia]. cbn [mbind option_bind]. pose proof (zset_length _ _ _ _ Hl) as Hlen.
  destruct (IH l1 (i + 1)) as (l' & He & Hlen' & Hget); [lia|lia|]. exists l'. split; [done|]. split; [congruence|]. intros j. rewrite Hget, (zget_zset _ _ _ _ _ Hl).
  repeat case_bool_decide; done || lia.
Qed.

Section Clearing.
Context (H N : Z) (HH : 0 <= H < 2 ^ 61) (H19 : (2 ^ 19 | H)) (HN : 0 <= N < 2 ^ 38).

Definition summary_shape (s : ParallelCompactData) : Prop := _region_start s = H /\ region_count s = N /\ block_count s = 512 * N.

Lemma clear_range_ok (s : ParallelCompactData) (a b : Z) :
  summary_shape s -> 0 <= a <= b -> b <= N ->
  exists s', clear_range s a b = Some s' /\ summary_shape s' /\ forall r, region s' r = if bool_decide (a <= r < b) then Some empty_region else region s r.
Proof using HN.
  intros (S1 & S2 & S3) Ha Hb. unfold clear_range, region_count, block_count in *. pow2_norm. rewrite umod_id by (pow2_norm; lia). change BlocksPerRegion with 512.
  destruct (clear_entries_ok (Z.to_nat (b - a)) (_region_data s) a empty_region) as (rs & -> & R1 & R2); [lia|lia|]. cbn [mbind option_bind].
  destruct (clear_entries_ok (Z.to_nat ((b - a) * 512)) (_block_data s) (a * 512) 0) as (bs & -> & B1 & _); [lia|lia|]. cbn [mbind option_bind].
  eexists. split; [done|]. unfold summary_shape, region_count, block_count in *. cbn [_region_start _region_data _block_data]. split; [rewrite R1, B1; done|].
  intros r. unfold region. cbn [_region_data]. rewrite R2. by replace (a + Z.of_nat (Z.to_nat (b - a))) with b by lia.
Qed.

Definition marks_shape (m : ParMarkBitMap) : Prop :=
  marks_start m = H /\ (wf (_beg_bits m) /\ wf (_end_bits m)) /\ bm_size (_beg_bits m) = 65536 * N /\ bm_size (_end_bits m) = 65536 * N.
Definition mark_at (m : ParMarkBitMap) (i : Z) : Prop := bit (_beg_bits m) i = true \/ bit (_end_bits m) i = true.

Lemma marks_clear_range_ok (m : ParMarkBitMap) (a b : Z) :
  marks_shape m -> 0 <= a <= b -> b <= 65536 * N ->
  exists m', marks_clear_range m a b = Some m' /\ marks_shape m' /\ forall i, 0 <= i < 65536 * N -> mark_at m' i -> mark_at m i /\ ~ a <= i < b.
Proof using HN.
  intros (M1 & [M2 M3] & M4 & M5) Ha Hb. unfold marks_clear_range.
  destruct (at_put_range_spec false (_beg_bits m) a b M2 Ha ltac:(lia)) as (b1 & E1 & W1 & S1 & B1). destruct (at_put_range_spec false (_end_bits m) a b M3 Ha ltac:(lia)) as (b2 & E2 & W2 & S2 & B2).
  cbn [at_put_range] in E1, E2. rewrite E1. cbn [mbind option_bind]. rewrite E2. cbn [mbind option_bind]. eexists. split; [done|]. unfold marks_shape, mark_at. cbn [marks_start _beg_bits _end_bits with_bits].
  split; [split; [done|split; [done|split; congruence]]|]. intros i Hi. pose proof (wf_words_bounds _ M2). pose proof (wf_words_bounds _ M3). rewrite B1, B2 by lia.
  destruct (in_range_spec a b i) as [Hin|Hout]; [by intros [|]|]. intros Hm. split; [done|lia].
Qed.

(** ** The loop over the spaces *)

Section Loop.
Context (L : list Extent) (HL : extents_ok N L) (nw : nat -> Z).
Context (Hnw : forall j A, L !! j = Some A -> 65536 * ebeg A <= nw j <= 65536 * eend A).

(** A space with the top that [post_compact] publishes. *)
Definition with_top (A : Extent) (t : Z) : Extent := mkExtent (ebeg A) (eend A) t.

(** The spaces from the [k]-th on are not cleared yet. *)
Record clearing (k : nat) (c : PSParallelCompact) : Prop := {
  clearing_marks : marks_shape (_mark_bitmap c);
  clearing_bits : forall i, 0 <= i < 65536 * N -> mark_at (_mark_bitmap c) i -> exists j A, (k <= j)%nat /\ L !! j = Some A /\ 65536 * ebeg A <= i < etop A;
  clearing_summary : summary_shape (_summary_data c);
  clearing_regions : forall r rd, 0 <= r < N -> region (_summary_data c) r = Some rd ->
    region_counted H [] r rd \/ exists j A, (k <= j)%nat /\ L !! j = Some A /\ ebeg A <= r < regions_up (Z.max (etop A) (nw j));
  clearing_spaces : forall j A, L !! j = Some A -> exists i, zget (_space_info c) (Z.of_nat j) = Some i /\ new_top i = addr H (nw j) /\
    space_is H N (if decide (j < k)%nat then with_top A (nw j) else A) i /\ ((j < k)%nat -> is_valid (split_info i) = false);
}.

Lemma empty_counted (r : Z) : region_counted H [] r empty_region.
Proof using. split; try done. intros x Hx. by apply elem_of_nil in Hx. Qed.

Lemma max_addr (a b : Z) : Z.max (addr H a) (addr H b) = addr H (Z.max a b).
Proof using. unfold addr. lia. Qed.

Lemma set_space_ok (c : PSParallelCompact) (k : nat) (i : SpaceInfo) (f : SpaceInfo -> SpaceInfo) :
  zget (_space_info c) (Z.of_nat k) = Some i ->
  exists l, update_space c (Z.of_nat k) f = Some (with_spaces c l) /\ forall j, zget l (Z.of_nat j) = if decide (j = k) then Some (f i) else zget (_space_info c) (Z.of_nat j).
Proof using.
  intros Hi. unfold update_space. rewrite Hi. cbn [mbind option_bind]. pose proof (zget_Some_range _ _ _ Hi).
  destruct (zset (_space_info c) (Z.of_nat k) (f i)) as [l|] eqn:Hl; [|unfold zset in Hl; case_bool_decide; done || lia]. exists l. split; [done|]. intros j. rewrite (zget_zset _ _ _ _ _ Hl).
  destruct (decide (j = k)) as [->|]; [by rewrite bool_decide_eq_true_2|by rewrite bool_decide_eq_false_2 by lia].
Qed.

(** The tables after [clear_data_covering_space]; the split of the space is not valid. *)
Lemma clear_data_ok (c : PSParallelCompact) (k : nat) (A : Extent) (i : SpaceInfo) :
  clearing k c -> L !! k = Some A -> zget (_space_info c) (Z.of_nat k) = Some i -> new_top i = addr H (nw k) -> space_is H N A i ->
  exists m s l i', clear_data_covering_space c (Z.of_nat k) = Some (with_spaces (with_tables c m s) l) /\ marks_shape m /\ summary_shape s /\
    (forall i, 0 <= i < 65536 * N -> mark_at m i -> mark_at (_mark_bitmap c) i /\ ~ 65536 * ebeg A <= i < etop A) /\
    (forall r, region s r = if bool_decide (ebeg A <= r < regions_up (Z.max (etop A) (nw k))) then Some empty_region else region (_summary_data c) r) /\
    (forall j, zget l (Z.of_nat j) = if decide (j = k) then Some i' else zget (_space_info c) (Z.of_nat j)) /\
    space_is H N A i' /\ new_top i' = new_top i /\ is_valid (split_info i') = false.
Proof using HH H19 HN HL Hnw.
  intros [C1 _ C3 _ _] Hk Hi Hnt (S1 & S2 & S3 & S4). destruct (extent_range _ _ HL A (list_elem_of_lookup_2 _ _ _ Hk)) as (E1 & E2 & E3). pose proof (Hnw k A Hk) as Hn. pow2_norm.
  pose proof (regions_up_spec (Z.max (etop A) (nw k))) as Hup. destruct (word_align_up_eq (etop A)) as [Hw1 Hw2]; [pow2_norm; lia|].
  assert (Hw : word_align_up (etop A) <= 65536 * N). { pose proof (Z.div_mod (word_align_up (etop A)) 64 ltac:(lia)). lia. }
  unfold clear_data_covering_space. rewrite Hi. cbn [mbind option_bind]. rewrite S1, S2, Hnt, max_addr, (region_align_up_addr H HH H19) by (pow2_norm; lia).
  rewrite !(bit_addr H HH _ (proj1 C1)), !(region_idx_addr H HH _ (proj1 C3)), !region_of_start by (pow2_norm; lia).
  destruct (marks_clear_range_ok _ (65536 * ebeg A) (word_align_up (etop A)) C1) as (m & -> & M1 & M2); [lia|done|]. cbn [mbind option_bind].
  destruct (clear_range_ok _ (ebeg A) (regions_up (Z.max (etop A) (nw k))) C3) as (s & -> & T1 & T2); [lia|lia|]. cbn [mbind option_bind].
  assert (Hm : forall i, 0 <= i < 65536 * N -> mark_at m i -> mark_at (_mark_bitmap c) i /\ ~ 65536 * ebeg A <= i < etop A) by (intros j Hj Hb; destruct (M2 j Hj Hb); split; [done|lia]).
  destruct (is_valid (split_info i)) eqn:Hv.
  - destruct (set_space_ok (with_tables c m s) k i (set_split_info split_clear) Hi) as (l & -> & Hl). exists m, s, l, (set_split_info split_clear i). repeat (split; [done|]). by repeat split.
  - exists m, s, (_space_info c), i. split; [by destruct c|]. repeat (split; [done|]). split; [|by repeat split]. intros j. destruct (decide (j = k)) as [->|]; done.
Qed.

Lemma post_compact_loop_ok (n k : nat) (c : PSParallelCompact) :
  (k + n = length L)%nat -> clearing k c -> exists c', post_compact_loop n c (Z.of_nat k) = Some c' /\ clearing (length L) c'.
Proof using HH H19 HN HL Hnw.
  revert k c. induction n as [|n IH]; intros k c Hlen Hc; cbn [post_compact_loop].
  { exists c. by replace (length L) with k by lia. }
  destruct (lookup_lt_is_Some_2 L k) as [A Hk]; [lia|]. destruct (clearing_spaces _ _ Hc k A Hk) as (i & Hi & Hnt & Hsp & _). rewrite decide_False in Hsp by lia.
  destruct (clear_data_ok c k A i Hc Hk Hi Hnt Hsp) as (m & s & l & i' & -> & M1 & T1 & M2 & T2 & Hl & (S1 & S2 & S3 & S4) & Hnt' & Hv). cbn [mbind option_bind].
  destruct (set_space_ok (with_spaces (with_tables c m s) l) k i' publish_new_top) as (l2 & -> & Hl2); [cbn [_space_info with_spaces]; rewrite Hl; by rewrite decide_True|]. cbn [mbind option_bind].
  replace (Z.of_nat k + 1) with (Z.of_nat (S k)) by lia. apply IH; [lia|]. cbn [_space_info with_spaces] in Hl2. destruct Hc as [_ C2 _ C4 C5]. split; cbn [_mark_bitmap _summary_data _space_info with_spaces with_tables]; try done.
  - intros w Hw Hb. destruct (M2 w Hw Hb) as [Hb' Hout]. destruct (C2 w Hw Hb') as (j & B & Hj & HB & Hin). exists j, B. split; [|done]. destruct (decide (j = k)) as [->|]; [|lia]. rewrite Hk in HB. by injection HB as <-.
  - intros r rd Hr Hrd. rewrite T2 in Hrd. case_bool_decide as Hin; [injection Hrd as <-; left; apply empty_counted|]. destruct (C4 r rd Hr Hrd) as [|(j & B & Hj & HB & Hb)]; [by left|right].
    exists j, B. split; [|done]. destruct (decide (j = k)) as [->|]; [|lia]. rewrite Hk in HB. by injection HB as <-.
  - intros j B HB. rewrite Hl2. destruct (decide (j = k)) as [->|Hne].
    + rewrite Hk in HB. injection HB as <-. exists (publish_new_top i'). split; [done|]. cbn [new_top publish_new_top split_info]. split; [congruence|]. rewrite decide_True by lia. split; [|done].
      unfold space_is. cbn [bottom top end_ split_info publish_new_top with_top ebeg eend etop]. rewrite Hnt', Hnt. done.
    + rewrite Hl, decide_False by done. destruct (C5 j B HB) as (i0 & H1 & H2 & H3 & H4). exists i0. split; [done|]. split; [done|]. split; [|intros ?; apply H4; lia].
      destruct (decide (j < k)%nat), (decide (j < S k)%nat); done || lia.
Qed.
End Loop.
End Clearing.

(** ** The end of a collection *)

(** The counts of a region are zero if no object lies in it. *)
Lemma counts_or_object (objs : list (Z * Z)) (r : Z) :
  (partial_in objs r = 0 /\ started_in objs r = 0) \/ exists x, x ∈ objs /\ 0 < overlap (65536 * r) (65536 * (r + 1)) x.
Proof.
  unfold partial_in, started_in. induction objs as [|x objs IH]; cbn [sum_over]; [by left|]. destruct (Z.lt_ge_cases 0 (overlap (65536 * r) (65536 * (r + 1)) x)) as [|Hle]; [right; exists x; split; [apply list_elem_of_here|done]|].
  assert (overlap (65536 * r) (65536 * (r + 1)) x = 0) as -> by (unfold overlap in *; lia). destruct IH as [[I1 I2]|(y & Hy & Ho)]; [left|right; exists y; split; [by apply list_elem_of_further|done]].
  rewrite I1, I2. by destruct (x.1 <? _).
Qed.

Lemma counted_outside (H N : Z) (L : list Extent) (nw : nat -> Z) (s : ParallelCompactData) (objs : list (Z * Z)) (r : Z) (rd : RegionData) :
  counted H N s objs -> in_spaces L objs -> 0 <= r < N -> region s r = Some rd ->
  region_counted H [] r rd \/ exists j A, L !! j = Some A /\ ebeg A <= r < regions_up (Z.max (etop A) (nw j)).
Proof.
  intros Hc Hin Hr Hrd. destruct (counted_regions _ _ _ _ Hc r Hr) as (rd' & Hrd' & [R1 R2 R3 R4 _]). rewrite Hrd in Hrd'. injection Hrd' as <-. destruct (counts_or_object objs r) as [[P1 P2]|(x & Hx & Ho)].
  - left. split; [by rewrite R1, P1|by rewrite R2, P2|done|done|]. intros x Hx. by apply elem_of_nil in Hx.
  - right. destruct (Hin x Hx) as (j & A & HA & W1 & W2). exists j, A. split; [done|]. pose proof (regions_up_spec (Z.max (etop A) (nw j))). unfold overlap in Ho. lia.
Qed.

(** C15: if the marks belong to objects below the tops of the spaces, and every region with
    data lies below the old or the new top of a space, the loop of [post_compact] succeeds
    and leaves no mark, no count and no valid split: the spaces have their new tops, and the
    tables are those from which a collection starts. *)
Theorem clearing_correct (H N : Z) (L : list Extent) (nw : nat -> Z) (objs : list (Z * Z)) (c : PSParallelCompact) :
  0 <= H < 2 ^ 61 -> (2 ^ 19 | H) -> 0 <= N < 2 ^ 38 -> extents_ok N L -> length L = last_space_id -> (forall j A, L !! j = Some A -> 65536 * ebeg A <= nw j <= 65536 * eend A) ->
  spaces H N L c (fun j => addr H (nw j)) -> objects_ok objs -> in_spaces L objs -> marked H N (_mark_bitmap c) objs -> summary_shape H N (_summary_data c) ->
  (forall r rd, 0 <= r < N -> region (_summary_data c) r = Some rd -> region_counted H [] r rd \/ exists j A, L !! j = Some A /\ ebeg A <= r < regions_up (Z.max (etop A) (nw j))) ->
  exists c', post_compact_spaces c = Some c' /\ collected H N c' [] /\ spaces H N (imap (fun j A => with_top A (nw j)) L) c' (fun j => addr H (nw j)) /\
    forall j A, L !! j = Some A -> exists i, zget (_space_info c') (Z.of_nat j) = Some i /\ is_valid (split_info i) = false.
Proof.
  intros HH H19 HN HL Hlen Hnw Hs Hok Hin [M1 M2 M3 M4 M5] Hsum Hreg.
  assert (Hstart : clearing H N L nw 0 c).
  { split; [done| |done| |].
    - intros i Hi [Hb|Hb]; [apply M4 in Hb as (x & Hx & He)|apply M5 in Hb as (x & Hx & He)]; try done; destruct (Hin x Hx) as (j & A & HA & W1 & W2), (objects_pos _ Hok x Hx); exists j, A; (split; [lia|]); (split; [done|]); unfold obj_end in *; lia.
    - intros r rd Hr Hrd. destruct (Hreg r rd Hr Hrd) as [|(j & A & HA)]; [by left|right; exists j, A; split; [lia|done]].
    - intros j A HA. destruct (Hs j A HA) as (i & Hi & Hsp & Hnt). exists i. rewrite decide_False by lia. split; [done|]. split; [done|]. split; [done|lia]. }
  destruct (post_compact_loop_ok H N HH H19 HN L HL nw Hnw last_space_id 0 c ltac:(lia) Hstart) as (c' & He & [C1 C2 C3 C4 C5]). exists c'. split; [done|].
  assert (Hno : forall j A, (length L <= j)%nat -> L !! j <> Some A) by (intros j A Hj HA; apply lookup_lt_Some in HA; lia). split; [split|split].
  - destruct C1 as (B1 & B2 & B3). assert (Hb : forall i, 0 <= i < 65536 * N -> ~ mark_at (_mark_bitmap c') i) by (intros i Hi Hb; destruct (C2 i Hi Hb) as (j & A & Hj & HA & _); by eapply Hno).
    split; try done; intros i Hi; (split; [intros Hbit; destruct (Hb i Hi); by (left + right)|intros (x & Hx & _); by apply elem_of_nil in Hx]).
  - destruct C3 as (T1 & T2 & T3). split; [done|done|]. intros r Hr. destruct (region (_summary_data c') r) as [rd|] eqn:Hrd; [|unfold region, zget, region_count in *; case_bool_decide; [apply lookup_ge_None in Hrd|]; lia].
    exists rd. split; [done|]. destruct (C4 r rd Hr Hrd) as [|(j & A & Hj & HA & _)]; [done|by destruct (Hno j A Hj)].
  - intros j B HB. rewrite list_lookup_imap in HB. destruct (L !! j) as [A|] eqn:HA; [|done]. injection HB as <-. destruct (C5 j A HA) as (i & Hi & Hnt & Hsp & _). apply lookup_lt_Some in HA. rewrite decide_True in Hsp by done. by exists i.
  - intros j A HA. destruct (C5 j A HA) as (i & Hi & _ & _ & Hv). exists i. split; [done|]. apply Hv. by apply lookup_lt_Some in HA.
Qed.

Definition sample_tops (j : nat) : Z := nth j [65640; 262608; 327680; 393216] 0.
Definition sample_split : SplitInfo := mkSplit 4 464 (addr (2 ^ 19) 65640) 1 0 0.
Definition marked_collector : PSParallelCompact :=
  with_spaces sample_collector (imap (fun j A => set_split_info sample_split (set_new_top (addr (2 ^ 19) (sample_tops j)) (sample_info A))) sample_extents).

Lemma clearing_correct_witness : exists c1 c2, mark_objects (2 ^ 19) marked_collector sample_objects = Some c1 /\ post_compact_spaces c1 = Some c2 /\ collected (2 ^ 19) 8 c2 [].
Proof.
  destruct sample_objects_ok as [Hok Hsp]. assert (Hnil : objects_ok []) by (split; [intros x Hx; by apply elem_of_nil in Hx|apply base.NoDup_nil_2|intros x y Hx; by apply elem_of_nil in Hx]).
  destruct (mark_objects_ok (2 ^ 19) 8 sample_objects sample_objects [] marked_collector) as (c1 & objs & He & [Hm Hc] & Hok1 & Hi & Hmem);
    [done|by exists 1|done|done|by eapply inside_spaces; [apply sample_extents_ok|]|split; [by apply clear_marked|by apply clear_counted]|done|intros x Hx; by apply elem_of_nil in Hx|done|].
  assert (Hsp1 : in_spaces sample_extents objs) by (intros x Hx; apply Hsp; destruct (proj1 (Hmem x) Hx) as [Hn|Hl]; [destruct (proj1 (elem_of_nil x) Hn)|exact Hl]).
  assert (Htops : forall j A, sample_extents !! j = Some A -> 65536 * ebeg A <= sample_tops j <= 65536 * eend A) by (clear; intros j A HA; destruct j as [|[|[|[|j]]]]; try done; injection HA as <-; by vm_compute).
  assert (Hs : spaces (2 ^ 19) 8 sample_extents c1 (fun j => addr (2 ^ 19) (sample_tops j))).
  { unfold spaces. rewrite Hi. clear. intros j A HA. destruct j as [|[|[|[|j]]]]; try done; injection HA as <-; (eexists; split; [reflexivity|]); by repeat split. }
  assert (Hsum : summary_shape (2 ^ 19) 8 (_summary_data c1)) by exact (conj (counted_start _ _ _ _ Hc) (counted_count _ _ _ _ Hc)).
  destruct (clearing_correct (2 ^ 19) 8 sample_extents sample_tops objs c1 ltac:(lia) ltac:(by exists 1) ltac:(lia) sample_extents_ok eq_refl Htops Hs Hok1 Hsp1 Hm Hsum) as (c2 & He2 & Hc2 & _).
  - intros r rd Hr Hrd. exact (counted_outside _ _ _ _ _ _ _ _ Hc Hsp1 Hr Hrd).
  - exact (ex_intro _ c1 (ex_intro _ c2 (conj He (conj He2 Hc2)))).
Defined.
